(* ===== verification/_CoqProject ===== *)
-Q . S2P
Prelude.v
Monad.v
Digits.v
Rand.v
Codec.v
NetAddr.v
AddrMan.v
AddrManInv.v
AddrManTried.v
AddrManThms.v
Core.v
CoreThms.v
Block.v
Checkpoints.v
BigNum.v
BigNumThms.v
Validation.v
ValidationThms.v
Key.v
Util.v
Alert.v
AlertThms.v
Node.v
Messages.v
MessagesThms.v
PeerThms.v
InvThms.v
Session.v
Sync.v
CheckQueue.v
CheckQueueThms.v
Bloom.v
BloomThms.v
LockedPages.v
Base58.v
Base58Thms.v
NetIO.v
NetIOThms.v
Protocol.v
NetLocal.v
NetLocalThms.v
Relay.v
Pool.v
PoolThms.v
Connect.v
UtilThms.v
Lookup.v
LookupThms.v
Socks.v
SocksThms.v
Double.v
Json.v
Http.v
HttpThms.v
Rpc.v
RpcThms.v
KeyPool.v
KeyPoolThms.v
Crypt.v
CryptThms.v
Groupings.v
GroupingsThms.v
CoinSelect.v
CoinSelectThms.v
AddrSelect.v
AddrStore.v
AddrStoreThms.v
Db.v
DbThms.v
WalletBook.v
WalletBookThms.v
Accounts.v
AccountsThms.v
WalletLoad.v
WalletLoadThms.v
TxDb.v
Args.v
Start.v
CreateTx.v
CreateTxThms.v
