(* ===== verification/Prelude.v ===== *)
(** The node of tri-tip, a Bitcoin 0.8 node with a coin of its own in preparation.

    * The program

    A node reads its settings (src/util.cpp, src/init.cpp, src/bitcoin_init.cpp), keeps connections to
    other nodes (src/net.cpp, through src/netbase.cpp), learns addresses of more nodes (src/addrman.cpp),
    cuts the bytes of every connection into messages and handles them
    (src/dust_coin/bitcoin_messages_handlers.cpp): it announces and asks for blocks and transactions, checks
    them, keeps orphans, and counts the misbehaviour of the peers.  A wallet (src/wallet.cpp, src/walletdb.cpp)
    holds keys and transactions in a Berkeley data base (src/db.cpp); the coins and the tree of the blocks are
    in LevelDB (src/txdb.cpp); commands come as remote procedure calls (src/bitcoinrpc.cpp).  The rest are the
    data these parts share: transactions, coins, blocks (core.h, bitcoin_block.h), addresses (netbase.cpp), keys
    and their texts (key.h, base58.h), big numbers (bignum.h), and tools (util.cpp, hash.cpp, bloom.cpp,
    checkqueue.h, allocators.h, sync.cpp, checkpoints.cpp, crypter.cpp).
    Many headers (main.h, net.h, util.h, script.h, serialize.h, wallet.h, uint256.h ...) are not in
    the tree; what the code uses of them is a parameter of the model - a class whose fields are the
    functions and whose laws are their documented behaviour - and so are OpenSSL, Boost, Berkeley DB, LevelDB,
    the system calls and the clock.  Each witness of a theorem gives concrete parameters.

    * Conventions

    A machine integer is a [Z]; wrap-arounds are written out ([u32], [s64] ...).  Bytes, [char*]
    texts and vectors are lists of [Z]; [l.[i]] reads the vector [l], which is 0 outside; where the
    source reads outside of an array the model says so by its result.  [std::map] and [std::set] are
    [gmap] and [gset], or sorted lists where the order of a walk matters.  Code that changes an
    object is a function to the new state, or runs in a monad of Monad.v: [M] (a failing assertion
    is [None]) and [X] (an exception keeps what was assigned before).  [wp] is total: a theorem
    about [wp] says that no assertion fails.  Recursion that is not structural has fuel and a
    theorem, or a lemma used in it, that the fuel given by the model is enough.

    * The files

    - Prelude: machine integers, lists, tactics and hints; Monad: effects with their weakest
      preconditions; Digits: positional notation; Double: numbers of the type [double].
    - Rand: [GetRand] (util.cpp).  Codec: base 64 and base 32 (util.cpp).  Util, UtilThms: amounts,
      hexadecimal texts, wildcards, versions and the offset of the clock (util.cpp).  Args: the
      command line and the file of settings (util.cpp).  Sync: the detection of lock orders (sync.cpp).
    - NetAddr: [CNetAddr], [CService] (netbase.cpp).  AddrMan: [CAddrMan] (addrman.h, addrman.cpp), a
      member function each; AddrManInv the invariant that [Check_] tests; AddrManTried the eviction from
      [tried] buckets; AddrManThms that every call keeps the invariant and fails no assertion; AddrSelect:
      [Select_]; AddrStore, AddrStoreThms: the addresses in peers.dat (addrman.h, net.cpp).
    - Lookup, LookupThms: addresses as texts and their look-up; Socks, SocksThms: connecting, directly or through
      proxies: all of netbase.cpp.
    - Core, CoreThms: outpoints to undo data (core.h).  Block: headers, blocks, Merkle branches
      (dust_coin/bitcoin_block.h).  Checkpoints (checkpoints.cpp).  BigNum, BigNumThms: [CBigNum]
      (bignum.h) over the interface [Integers] of OpenSSL's numbers.
    - Key: [CKey], [CPubKey], [CECKey] (key.h, key.cpp).  Base58, Base58Thms: base 58, addresses and
      secrets as texts (base58.h), on big numbers and keys.
    - Validation, ValidationThms: the checks on transactions, proof of work and blocks that need no
      data base; Node, Messages: the message handlers on nodes and global variables, calls of other parts
      recorded as actions; MessagesThms (blocks, orphans), PeerThms (order of the handshake, punishment,
      the loop over messages), InvThms (announcements and requests): all of
      dust_coin/bitcoin_messages_handlers.cpp; Session: one small chain that instantiates them.
      Alert, AlertThms: signed messages to the user (alert.h, alert.cpp).
    - NetIO, NetIOThms: bytes from and to sockets; NetLocal, NetLocalThms: the addresses of the node
      itself; Relay: [RelayTransaction]; Pool, PoolThms: nodes and their lists under interleaved threads;
      Connect: the choice of the addresses to connect to: all of net.cpp.  Protocol: message headers and
      inventory objects (protocol.cpp).
    - Json: values and texts (src/json); Http, HttpThms: requests and replies; Rpc, RpcThms: calls, their dispatch
      and the client (bitcoinrpc.cpp).
    - CheckQueue, CheckQueueThms: the verification threads (checkqueue.h) as a step relation.  Bloom,
      BloomThms: filters (bloom.cpp) and MurmurHash3 (hash.cpp).  LockedPages: [LockedPageManagerBase]
      (allocators.h).
    - KeyPool, KeyPoolThms: the pool of unused keys and reserved keys; Crypt, CryptThms: the encryption of keys and
      wallet (crypter.cpp, keystore.h); Groupings, GroupingsThms: which addresses belong together; CoinSelect,
      CoinSelectThms: the choice of the coins to spend; CreateTx, CreateTxThms: [CreateTransaction]; WalletBook,
      WalletBookThms: recording, rescanning, committing and relaying transactions: all of wallet.cpp.
    - Db, DbThms: files, handles and transactions of Berkeley DB (db.cpp); Accounts, AccountsThms: accounts and the
      order of the wallet; WalletLoad, WalletLoadThms: loading and recovering (walletdb.cpp).
    - TxDb: the data bases of coins and blocks (leveldb.h, txdb.cpp).
    - Start: from the settings to the network (init.cpp, bitcoin_init.cpp).

    How the parts meet: the handlers use addresses, blocks, validation and checkpoints, and run [ProcessAlert] of
    Alert; Base58 uses the interfaces of BigNum and Key; AddrMan draws from the interface [Environment] of Rand;
    AddrSelect and AddrStore work on the state of AddrMan; Relay uses the filters of Bloom; NetIO cuts the messages
    that the loop of Messages handles; Socks prints addresses with Lookup; Http uses base 64 and wildcards, Rpc uses
    Json and Http; CreateTx runs on the states of KeyPool with the choice of CoinSelect; WalletBook keeps the
    transactions that Accounts orders and WalletLoad reads; WalletLoad fills the key store of Crypt and checks with
    Validation; Accounts reads in the order of the keys of Db; TxDb writes the coins of Core; Start puts the settings
    of Args, read by Lookup, into the states of Socks and NetLocal.

    * What the theorems show

    - Equivalence with a reference: what a transaction, a block, a proof of work must satisfy to pass
      the checks; that Merkle branches verify exactly what they should; wildcards; the entries of an account;
      groups of addresses as classes of an equivalence.
    - Invariants and safety: the address manager, the pool of nodes under every interleaving (no use
      of a deleted node, reference counts), Bloom filters (no false negatives), own addresses,
      the handshake and the states of a peer, the verification queue (the result is the conjunction of
      all checks), alerts; a deadlock of two threads is reported; no unauthorized call runs a command; encryption
      leaves no key in plain; what is spent stays spent; no use of a closed handle or an ended transaction of
      a data base; a wallet that loads has all keys; with a proxy there is one for every network.
    - Refinement: LockedPages refines counters of pages, TxDb a map of unspent coins with a best block.
    - Liveness and termination: the queue has no deadlock, due requests are sent, rounds of connecting
      end, orphan chains without cycle are walked to the end, a call of the client ends, rescanning rounds end, the
      walk over the settings ends although it inserts, loading the chain takes two attempts at most.
    - Behaviour on all branches, errors included: blocks and announcements, misbehaviour, framing of
      messages, sending, accepting, relaying; which sockets SOCKS leaves open; results of loading a wallet; the
      key pool hands no key out twice; chosen coins are enough; a transaction that is created spends exactly its
      payments, its change and its fee; the positions in the order of the wallet; the tree of the blocks as stored;
      the settings a command line means.
    - Round trips and exact acceptance: coins, base 58, addresses and services, compact and hexadecimal numbers,
      amounts of money, commands of messages, calls over HTTP, peers.dat, salvaged and rewritten data bases.

    * Bounds and fuel

    [GetRand] takes fuel for draws that are rejected, as do the loops of [Select_]; the walks of AddrMan and of the
    handlers over finite maps have fuel of the size of the map plus one; GetOrphanRoot without cycles ends within the
    number of orphans; big-number loops take one round per digit; 100 tries bound a round of connecting;
    filling the key pool takes one round per missing key; the fee of CreateTransaction grows with every
    round and is bounded, so the rounds are; received bytes bound the loop of ReceiveMsgBytes, lines the loop over
    headers, requests the loop of a connection, and the length of the text the loops of salvaging and of the
    arguments of the client; supporting transactions and rounds of ReacceptWalletTransactions are bounded by the
    transactions; the walk over the settings by the keys that other spellings can make.  Sizes up to 2^31 or 2^32 are
    hypotheses where the source keeps a size in a narrower type.

    * Not modelled

    UPnP, seeding by DNS, accepting and waiting for sockets, SSL, the commands behind remote procedure calls (their
    files are not in the tree), Qt, logging, locks of directories, the grammar of the JSON reader (Boost.Spirit), and
    the vendored LevelDB: input and output or third-party code.  Floating point: GuessVerificationProgress,
    the chance of an address (a parameter of AddrMan), the size of a Bloom filter from a rate.  Of start-up: help texts,
    signals, the wallet of init.cpp and the threads; main.cpp calls [initialise] without reading settings.
    script.cpp, keystore.cpp and the headers missing from the tree.  The headers dust_coin/tt*.h declare a design
    without code.  Of wallet.cpp: SendMoney and printing.
    In Pool, [OpenNetworkConnection] is one step: the window in
    [ConnectNode] between [FindNode] and [AddRef], which holds no lock, is not covered. *)

From Stdlib Require Export ZArith Lia Bool List ZifyBool.
From stdpp Require Export base list list_numbers numbers strings gmap sets fin_maps sorting.
From Stdlib Require Ascii String.

#[global] Set Default Goal Selector "!".
#[global] Unset Program Cases.

Declare Scope tt_scope.
Delimit Scope tt_scope with tt.
Open Scope Z_scope.
Open Scope tt_scope.

(** * Machine integers

    The sources use [unsigned char], [unsigned int]/[uint32_t], [uint64]/[size_t], [int] and
    [int64].  A value is a [Z]; the wrap-around of an assignment is written out. *)

Definition wrapu (w z : Z) : Z := z mod 2 ^ w.
Definition wraps (w z : Z) : Z := (z + 2 ^ (w - 1)) mod 2 ^ w - 2 ^ (w - 1).

Abbreviation u8 := (wrapu 8).
Abbreviation u32 := (wrapu 32).
Abbreviation u64 := (wrapu 64).
Abbreviation s32 := (wraps 32).
Abbreviation s64 := (wraps 64).

Definition in_u (w z : Z) : Prop := 0 <= z < 2 ^ w.
Definition in_s (w z : Z) : Prop := - 2 ^ (w - 1) <= z < 2 ^ (w - 1).

#[global] Instance in_u_dec w z : Decision (in_u w z).
Proof. unfold in_u. apply _. Defined.
#[global] Instance in_s_dec w z : Decision (in_s w z).
Proof. unfold in_s. apply _. Defined.

Lemma wrapu_range w z : 0 <= w -> in_u w (wrapu w z).
Proof. intros Hw. unfold in_u, wrapu. apply Z.mod_pos_bound. lia. Qed.

Lemma wrapu_small w z : in_u w z -> wrapu w z = z.
Proof. intros H. unfold wrapu, in_u in *. by apply Z.mod_small. Qed.

Lemma wraps_range w z : 0 < w -> in_s w (wraps w z).
Proof.
  intros Hw. unfold in_s, wraps.
  assert (H : 2 ^ w = 2 * 2 ^ (w - 1)) by (rewrite <-Z.pow_succ_r by lia; f_equal; lia).
  pose proof (Z.mod_pos_bound (z + 2 ^ (w - 1)) (2 ^ w) ltac:(lia)). lia.
Qed.

Lemma wraps_small w z : 0 < w -> in_s w z -> wraps w z = z.
Proof.
  intros Hw H. unfold in_s, wraps in *.
  assert (2 ^ w = 2 * 2 ^ (w - 1)) by (rewrite <-Z.pow_succ_r by lia; f_equal; lia).
  rewrite Z.mod_small; lia.
Qed.

(** * Bytes and character strings

    A byte ([unsigned char]) is a [Z] in [0, 255]; a [char*] or [std::string] is the list of its
    character codes, read as [unsigned char], the terminating NUL left out.  [lit] turns a
    Rocq string literal into such a list. *)

Abbreviation bytes := (list Z).

Definition code (c : Ascii.ascii) : Z := Z.of_N (Ascii.N_of_ascii c).
Definition lit (s : String.string) : bytes := code <$> String.list_ascii_of_string s.
Arguments lit s%_string_scope.

Definition is_bytes (l : bytes) : Prop := Forall (in_u 8) l.

#[global] Instance is_bytes_dec l : Decision (is_bytes l).
Proof. unfold is_bytes. apply _. Defined.

(** [l .[ i ]]: the element at a [Z] index, 0 outside (a C string read at its end gives NUL). *)
Definition nthZ {A} (d : A) (l : list A) (i : Z) : A :=
  if i <? 0 then d else nth (Z.to_nat i) l d.
Notation "l .[ i ]" := (nthZ 0 l i) (at level 1, left associativity, format "l .[ i ]") : tt_scope.

Definition lenZ {A} (l : list A) : Z := Z.of_nat (length l).

Lemma lenZ_nonneg {A} (l : list A) : 0 <= lenZ l.
Proof. unfold lenZ. lia. Qed.
Lemma lenZ_app {A} (l k : list A) : lenZ (l ++ k) = lenZ l + lenZ k.
Proof. unfold lenZ. rewrite length_app. lia. Qed.
Lemma lenZ_cons {A} (x : A) l : lenZ (x :: l) = 1 + lenZ l.
Proof. unfold lenZ. simpl. lia. Qed.
Lemma lenZ_nil {A} : lenZ (@nil A) = 0.
Proof. done. Qed.

Lemma nthZ_0 {A} (d x : A) l : nthZ d (x :: l) 0 = x.
Proof. done. Qed.
Lemma nthZ_1 {A} (d x : A) l : nthZ d (x :: l) 1 = nthZ d l 0.
Proof. done. Qed.
Lemma nthZ_2 {A} (d x : A) l : nthZ d (x :: l) 2 = nthZ d l 1.
Proof. done. Qed.
Lemma nthZ_3 {A} (d x : A) l : nthZ d (x :: l) 3 = nthZ d l 2.
Proof. done. Qed.
Lemma nthZ_4 {A} (d x : A) l : nthZ d (x :: l) 4 = nthZ d l 3.
Proof. done. Qed.
Lemma nthZ_5 {A} (d x : A) l : nthZ d (x :: l) 5 = nthZ d l 4.
Proof. done. Qed.
Lemma nthZ_6 {A} (d x : A) l : nthZ d (x :: l) 6 = nthZ d l 5.
Proof. done. Qed.
#[export] Hint Rewrite @nthZ_0 @nthZ_1 @nthZ_2 @nthZ_3 @nthZ_4 @nthZ_5 @nthZ_6 : nthz.
Lemma nthZ_lookup {A} (d : A) l (i : nat) x : l !! i = Some x -> nthZ d l (Z.of_nat i) = x.
Proof.
  intros H. unfold nthZ. destruct (Z.ltb_spec (Z.of_nat i) 0); [lia|].
  rewrite Nat2Z.id. rewrite nth_lookup, H. done.
Qed.

Lemma nthZ_cons {A} (d a : A) l i : 0 < i -> nthZ d (a :: l) i = nthZ d l (i - 1).
Proof.
  intros Hi. unfold nthZ. destruct (Z.ltb_spec i 0), (Z.ltb_spec (i - 1) 0); try lia.
  by replace (Z.to_nat i) with (S (Z.to_nat (i - 1))) by lia.
Qed.

Lemma nthZ_app_r {A} (d : A) l k i : lenZ l <= i -> nthZ d (l ++ k) i = nthZ d k (i - lenZ l).
Proof.
  intros Hi. unfold nthZ, lenZ in *. destruct (Z.ltb_spec i 0), (Z.ltb_spec (i - Z.of_nat (length l)) 0); try lia.
  rewrite app_nth2 by lia. f_equal. lia.
Qed.

Lemma nthZ_app_l {A} (d : A) l k i : 0 <= i < lenZ l -> nthZ d (l ++ k) i = nthZ d l i.
Proof.
  intros Hi. unfold nthZ, lenZ in *. destruct (Z.ltb_spec i 0); [done|]. by rewrite app_nth1 by lia.
Qed.

Lemma is_bytes_nil : is_bytes [].
Proof. constructor. Qed.
Lemma is_bytes_cons b l : is_bytes (b :: l) <-> in_u 8 b /\ is_bytes l.
Proof. unfold is_bytes. apply Forall_cons. Qed.
Lemma is_bytes_app l k : is_bytes (l ++ k) <-> is_bytes l /\ is_bytes k.
Proof. unfold is_bytes. apply Forall_app. Qed.

(** [isspace] and [isdigit] of the C library in the "C" locale. *)
Definition isspace (c : Z) : bool := (c =? 32) || ((9 <=? c) && (c <=? 13)).
Definition isdigit (c : Z) : bool := (48 <=? c) && (c <=? 57).

(** * Case analysis over bounded integers by computation *)

Lemma range_forallb (n : nat) (P : Z -> bool) :
  forallb P (seqZ 0 (Z.of_nat n)) = true -> forall z, 0 <= z < Z.of_nat n -> P z = true.
Proof.
  intros H z Hz. rewrite forallb_forall in H. apply H.
  apply list_elem_of_In, elem_of_seqZ. lia.
Qed.

Lemma byte_forallb (P : Z -> bool) :
  forallb P (seqZ 0 256) = true -> forall z, in_u 8 z -> P z = true.
Proof. intros H z Hz. by apply (range_forallb 256). Qed.

(** * Bit operations as arithmetic *)

Lemma land_ones_mod a n : 0 <= n -> Z.land a (2 ^ n - 1) = a mod 2 ^ n.
Proof. intros Hn. rewrite <-Z.land_ones by done. f_equal. rewrite Z.ones_equiv. lia. Qed.

Lemma lor_disjoint a b n : 0 <= n -> 0 <= b < 2 ^ n -> Z.lor (a * 2 ^ n) b = a * 2 ^ n + b.
Proof.
  intros Hn Hb. rewrite <-Z.add_lor_land.
  replace (Z.land (a * 2 ^ n) b) with 0; [lia|]. symmetry.
  apply Z.bits_inj'. intros i Hi. rewrite Z.land_spec, Z.bits_0.
  destruct (Z.lt_ge_cases i n).
  - rewrite Z.mul_pow2_bits_low; [done|lia].
  - replace b with (b mod 2 ^ n) by (apply Z.mod_small; lia).
    rewrite Z.mod_pow2_bits_high by lia. by rewrite andb_false_r.
Qed.

(** The masks and shifts of the codecs, as [mod], [/] and [*]: rewrite database [bits]. *)
Lemma land_1 a : Z.land a 1 = a mod 2.
Proof. apply (land_ones_mod a 1). lia. Qed.
Lemma land_3 a : Z.land a 3 = a mod 4.
Proof. apply (land_ones_mod a 2). lia. Qed.
Lemma land_7 a : Z.land a 7 = a mod 8.
Proof. apply (land_ones_mod a 3). lia. Qed.
Lemma land_15 a : Z.land a 15 = a mod 16.
Proof. apply (land_ones_mod a 4). lia. Qed.
Lemma land_31 a : Z.land a 31 = a mod 32.
Proof. apply (land_ones_mod a 5). lia. Qed.
Lemma land_63 a : Z.land a 63 = a mod 64.
Proof. apply (land_ones_mod a 6). lia. Qed.
Lemma shiftr_1 a : Z.shiftr a 1 = a / 2.
Proof. by rewrite Z.shiftr_div_pow2. Qed.
Lemma shiftr_2 a : Z.shiftr a 2 = a / 4.
Proof. by rewrite Z.shiftr_div_pow2. Qed.
Lemma shiftr_3 a : Z.shiftr a 3 = a / 8.
Proof. by rewrite Z.shiftr_div_pow2. Qed.
Lemma shiftr_4 a : Z.shiftr a 4 = a / 16.
Proof. by rewrite Z.shiftr_div_pow2. Qed.
Lemma shiftr_5 a : Z.shiftr a 5 = a / 32.
Proof. by rewrite Z.shiftr_div_pow2. Qed.
Lemma shiftr_6 a : Z.shiftr a 6 = a / 64.
Proof. by rewrite Z.shiftr_div_pow2. Qed.
Lemma shiftr_7 a : Z.shiftr a 7 = a / 128.
Proof. by rewrite Z.shiftr_div_pow2. Qed.
Lemma shiftr_8 a : Z.shiftr a 8 = a / 256.
Proof. by rewrite Z.shiftr_div_pow2. Qed.

#[export] Hint Rewrite land_1 land_3 land_7 land_15 land_31 land_63 shiftr_1 shiftr_2
  shiftr_3 shiftr_4 shiftr_5 shiftr_6 shiftr_7 shiftr_8 : bits.

(** [Z.lor (Z.shiftl a n) b] glues two disjoint bit fields. *)
Lemma lor_shiftl a b n : 0 <= n -> 0 <= b < 2 ^ n -> Z.lor (Z.shiftl a n) b = a * 2 ^ n + b.
Proof. intros Hn Hb. rewrite Z.shiftl_mul_pow2 by done. by apply lor_disjoint. Qed.

(** [zdm]: linear arithmetic with division and remainder by constants. *)
Ltac zdm := unfold in_u, in_s, wrapu, wraps in *; simpl Z.pow in *; Z.div_mod_to_equations; lia.

(** * Tactics of the development *)

Ltac destr_if :=
  match goal with
  | |- context [if ?b then _ else _] => let E := fresh "E" in destruct b eqn:E
  end.

(** [zb]: turn the boolean comparisons of the model into arithmetic and finish with [lia]. *)
Ltac zbool :=
  repeat match goal with
  | H : (_ && _)%bool = true |- _ => apply andb_true_iff in H; destruct H
  | H : (_ && _)%bool = false |- _ => apply andb_false_iff in H
  | H : (_ || _)%bool = true |- _ => apply orb_true_iff in H
  | H : (_ || _)%bool = false |- _ => apply orb_false_iff in H; destruct H
  | H : negb _ = true |- _ => apply negb_true_iff in H
  | H : negb _ = false |- _ => apply negb_false_iff in H
  | H : (_ =? _) = true |- _ => apply Z.eqb_eq in H
  | H : (_ =? _) = false |- _ => apply Z.eqb_neq in H
  | H : (_ <? _) = true |- _ => apply Z.ltb_lt in H
  | H : (_ <? _) = false |- _ => apply Z.ltb_ge in H
  | H : (_ <=? _) = true |- _ => apply Z.leb_le in H
  | H : (_ <=? _) = false |- _ => apply Z.leb_gt in H
  | H : bool_decide _ = true |- _ => apply bool_decide_eq_true in H
  | H : bool_decide _ = false |- _ => apply bool_decide_eq_false in H
  end.

(** Lists of three or more elements are consumed in groups by the codecs: induction in steps. *)
Lemma filter_bool_cons {A} (f : A -> bool) x l :
  filter f (x :: l) = if f x then x :: filter f l else filter f l.
Proof. rewrite filter_cons. by destruct (f x). Qed.

Lemma list_len_ind {A} (P : list A -> Prop) :
  (forall l, (forall k, (length k < length l)%nat -> P k) -> P l) -> forall l, P l.
Proof.
  intros H l. remember (length l) as n eqn:Hn.
  revert l Hn. induction (lt_wf n) as [n _ IH]. intros l ->.
  apply H. intros k Hk. by eapply IH.
Qed.

Create HintDb tt.
#[export] Hint Resolve wrapu_range is_bytes_nil lenZ_nonneg : tt.
#[export] Hint Rewrite @lenZ_app @lenZ_cons @lenZ_nil : tt.
