(* ===== verification/Monad.v ===== *)
(** The effects of the stateful components: a state and failing assertions.

    A C++ member function that reads and writes the object, draws random numbers and may fail
    an [assert] is a function of type [M S A]: from the state before to the result and the
    state after, or [None] when an assertion fails (the process aborts).  [wp m Q s] is the
    weakest precondition of total correctness: from [s], [m] aborts nowhere and ends in a
    result and a state that satisfy [Q]. *)

From S2P Require Import Prelude.

Definition M (S A : Type) : Type := S -> option (A * S).

Section Monad.
Context {S : Type}.

Definition ret {A} (a : A) : M S A := fun s => Some (a, s).
Definition bind {A B} (m : M S A) (f : A -> M S B) : M S B :=
  fun s => match m s with Some (a, s') => f a s' | None => None end.
Definition get : M S S := fun s => Some (s, s).
Definition put (s : S) : M S unit := fun _ => Some (tt, s).
Definition modify (f : S -> S) : M S unit := fun s => Some (tt, f s).
Definition assert_ (b : bool) : M S unit := fun s => if b then Some (tt, s) else None.
Definition fail {A} : M S A := fun _ => None.

Definition wp {A} (m : M S A) (Q : A -> S -> Prop) (s : S) : Prop :=
  match m s with Some (a, s') => Q a s' | None => False end.

Lemma wp_bind {A B} (m : M S A) (f : A -> M S B) Q s :
  wp m (fun a => wp (f a) Q) s -> wp (bind m f) Q s.
Proof. unfold wp, bind. by destruct (m s) as [[a s']|]. Qed.
Lemma wp_ret {A} (a : A) (Q : A -> S -> Prop) s : Q a s -> wp (ret a) Q s.
Proof. done. Qed.
Lemma wp_get Q s : Q s s -> wp get Q s.
Proof. done. Qed.
Lemma wp_put s' Q s : Q tt s' -> wp (put s') Q s.
Proof. done. Qed.
Lemma wp_modify f Q s : Q tt (f s) -> wp (modify f) Q s.
Proof. done. Qed.
Lemma wp_assert b (Q : unit -> S -> Prop) s : b = true -> Q tt s -> wp (assert_ b) Q s.
Proof. unfold wp, assert_. by intros ->. Qed.

Lemma wp_mono {A} (m : M S A) (Q R : A -> S -> Prop) s :
  wp m Q s -> (forall a s', Q a s' -> R a s') -> wp m R s.
Proof. unfold wp. destruct (m s) as [[a s']|]; eauto. Qed.

Lemma wp_elim {A} (m : M S A) Q s : wp m Q s -> exists a s', m s = Some (a, s') /\ Q a s'.
Proof. unfold wp. destruct (m s) as [[a s']|]; [by eauto|done]. Qed.

Lemma wp_intro {A} (m : M S A) (Q : A -> S -> Prop) s a s' :
  m s = Some (a, s') -> Q a s' -> wp m Q s.
Proof. unfold wp. by intros ->. Qed.

(** Loops over a list of indices or elements, with an accumulator. *)
Fixpoint foldM {A B} (f : B -> A -> M S B) (l : list A) (b : B) : M S B :=
  match l with
  | [] => ret b
  | a :: l' => bind (f b a) (fun b' => foldM f l' b')
  end.

(** The loop invariant rule: [I] holds of what is done so far. *)
Lemma wp_foldM {A B} (f : B -> A -> M S B) (I : list A -> B -> S -> Prop) l b s :
  I [] b s ->
  (forall done_ a rest b' s', l = done_ ++ a :: rest -> I done_ b' s' ->
     wp (f b' a) (fun b'' s'' => I (done_ ++ [a]) b'' s'') s') ->
  wp (foldM f l b) (fun b' s' => I l b' s') s.
Proof.
  intros H0 Hstep.
  assert (G : forall rest done_ b s, l = done_ ++ rest -> I done_ b s ->
             wp (foldM f rest b) (fun b' s' => I l b' s') s); [|by apply (G l [])].
  clear H0 s b. induction rest as [|a rest IH]; intros done_ b s El Hb.
  - rewrite app_nil_r in El. subst. by apply wp_ret.
  - apply wp_bind. eapply wp_mono; [by eapply Hstep|]. intros b' s' Hb'.
    apply (IH (done_ ++ [a])); [|done]. by rewrite <-app_assoc.
Qed.

End Monad.

Notation "x <- m ;; k" := (bind m (fun x => k))
  (at level 90, m at next level, right associativity) : tt_scope.
Notation "m ;;; k" := (bind m (fun _ => k))
  (at level 90, right associativity) : tt_scope.
Notation "'when' b 'then_' m" := (if b then m else ret tt)
  (at level 60, b at level 200, m at level 60) : tt_scope.

(** ** State that survives exceptions

    [X S A]: from the state before to the outcome and the state after: a result, a C++ exception
    ([Thrown]: what was assigned before it was thrown stays assigned, and a caller can catch it)
    or no return at all ([Stuck]: a failed assertion or a loop without end). *)

Inductive Outcome (A : Type) := Done (a : A) | Thrown | Stuck.
Arguments Done {A} a.
Arguments Thrown {A}.
Arguments Stuck {A}.

Definition X (S A : Type) : Type := S -> Outcome A * S.

Module X.
Section Monad.
Context {S : Type}.

Definition ret {A} (a : A) : X S A := fun s => (Done a, s).
Definition bind {A B} (m : X S A) (f : A -> X S B) : X S B :=
  fun s => match m s with
           | (Done a, s') => f a s'
           | (Thrown, s') => (Thrown, s')
           | (Stuck, s') => (Stuck, s')
           end.
Definition throw {A} : X S A := fun s => (Thrown, s).
Definition gets {A} (f : S -> A) : X S A := fun s => (Done (f s), s).
Definition modify (f : S -> S) : X S unit := fun s => (Done tt, f s).
Definition lift {A} (o : option A) : X S A := fun s => (match o with Some a => Done a | None => Stuck end, s).

Fixpoint each {A} (f : A -> X S unit) (l : list A) : X S unit :=
  match l with [] => ret tt | x :: r => bind (f x) (fun _ => each f r) end.

(** [keeps R m]: whatever happens, the states before and after [m] are related. *)
Definition keeps {A} (R : S -> S -> Prop) (m : X S A) : Prop := forall s, R s (m s).2.

Section Keeps.
Context (R : S -> S -> Prop) `{!PreOrder R}.

Lemma keeps_ret {A} (a : A) : keeps R (ret a).
Proof. intros s. reflexivity. Qed.
Lemma keeps_throw {A} : keeps R (@throw A).
Proof. intros s. reflexivity. Qed.
Lemma keeps_gets {A} (f : S -> A) : keeps R (gets f).
Proof. intros s. reflexivity. Qed.
Lemma keeps_lift {A} (o : option A) : keeps R (lift o).
Proof. intros s. reflexivity. Qed.
Lemma keeps_bind {A B} (m : X S A) (f : A -> X S B) :
  keeps R m -> (forall a, keeps R (f a)) -> keeps R (bind m f).
Proof.
  intros Hm Hf s. unfold bind. specialize (Hm s). destruct (m s) as [[a| |] s']; [|done|done].
  etransitivity; [exact Hm|apply Hf].
Qed.
Lemma keeps_each {A} (f : A -> X S unit) l : (forall a, keeps R (f a)) -> keeps R (each f l).
Proof.
  intros Hf. induction l as [|x l IH]; [apply keeps_ret|]. by apply keeps_bind.
Qed.
Lemma keeps_if {A} (b : bool) (m k : X S A) : keeps R m -> keeps R k -> keeps R (if b then m else k).
Proof. by destruct b. Qed.
End Keeps.

(** Total correctness: [m] throws nothing, ends, and its result and state satisfy [Q]. *)
Definition wp {A} (m : X S A) (Q : A -> S -> Prop) (s : S) : Prop :=
  match m s with (Done a, s') => Q a s' | _ => False end.

Lemma wpx_bind {A B} (m : X S A) (f : A -> X S B) Q s : wp m (fun a => wp (f a) Q) s -> wp (bind m f) Q s.
Proof. unfold wp, bind. by destruct (m s) as [[a| |] s']. Qed.
Lemma wpx_ret {A} (a : A) (Q : A -> S -> Prop) s : Q a s -> wp (ret a) Q s.
Proof. done. Qed.
Lemma wpx_gets {A} (f : S -> A) (Q : A -> S -> Prop) s : Q (f s) s -> wp (gets f) Q s.
Proof. done. Qed.
Lemma wpx_modify f (Q : unit -> S -> Prop) s : Q tt (f s) -> wp (modify f) Q s.
Proof. done. Qed.
Lemma wpx_mono {A} (m : X S A) (Q R : A -> S -> Prop) s :
  wp m Q s -> (forall a s', Q a s' -> R a s') -> wp m R s.
Proof. unfold wp. destruct (m s) as [[a| |] s']; eauto. Qed.
Lemma wpx_elim {A} (m : X S A) Q s : wp m Q s -> exists a s', m s = (Done a, s') /\ Q a s'.
Proof. unfold wp. destruct (m s) as [[a| |] s']; [by eauto|done|done]. Qed.

(** Every outcome: [Q] of what [m] comes to, thrown and stuck included, and of the state after. *)
Definition sp {A} (m : X S A) (Q : Outcome A -> S -> Prop) (s : S) : Prop := Q (m s).1 (m s).2.

Lemma sp_bind {A B} (m : X S A) (f : A -> X S B) (Q : Outcome B -> S -> Prop) s :
  sp m (fun o s' => match o with Done a => sp (f a) Q s' | Thrown => Q Thrown s' | Stuck => Q Stuck s' end) s ->
  sp (bind m f) Q s.
Proof. unfold sp, bind. by destruct (m s) as [[a| |] s']. Qed.
Lemma sp_mono {A} (m : X S A) (Q R : Outcome A -> S -> Prop) s :
  sp m Q s -> (forall o s', Q o s' -> R o s') -> sp m R s.
Proof. unfold sp. auto. Qed.

(** A result of a sequence comes from results of its parts. *)
Lemma bind_result {A B} (m : X S A) (f : A -> X S B) b s st : bind m f s = (Done b, st) ->
  exists a s1, m s = (Done a, s1) /\ f a s1 = (Done b, st).
Proof. unfold bind. destruct (m s) as [[a| |] s1]; [|done|done]. eauto. Qed.
Lemma keeps_result {A} (R : S -> S -> Prop) (m : X S A) o s st : keeps R m -> m s = (o, st) -> R s st.
Proof. intros Hm E. specialize (Hm s). by rewrite E in Hm. Qed.

End Monad.
End X.

Notation "x <~ m ;; k" := (X.bind m (fun x => k))
  (at level 90, m at next level, right associativity) : tt_scope.
Notation "m ;~ k" := (X.bind m (fun _ => k))
  (at level 90, right associativity) : tt_scope.
