(* ===== verification/Digits.v ===== *)
(** Positional numbers: the value of a list of digits in a base, least or most significant digit
    first, shared by the big numbers, base 58 and the decimal texts. *)

From S2P Require Import Prelude.

Definition le_val (b : Z) (ds : list Z) : Z := foldr (fun d a => d + b * a) 0 ds.
Definition be_val (b : Z) (ds : list Z) : Z := le_val b (rev ds).

(** [k] digits of [n], least significant first. *)
Fixpoint le_digits (b : Z) (k : nat) (n : Z) : list Z :=
  match k with O => [] | S k' => n mod b :: le_digits b k' (n / b) end.
Definition be_digits (b : Z) (k : nat) (n : Z) : list Z := rev (le_digits b k n).

Definition digits_ok (b : Z) (ds : list Z) : Prop := Forall (fun d => 0 <= d < b) ds.

Section Base.
Context (b : Z) (Hb : 1 < b).

Lemma le_val_app l k : le_val b (l ++ k) = le_val b l + b ^ lenZ l * le_val b k.
Proof.
  induction l as [|d l IH]; cbn [app le_val foldr]; [change (le_val b k = 0 + 1 * le_val b k); lia|].
  fold (le_val b (l ++ k)) (le_val b l). rewrite IH, lenZ_cons, Z.pow_add_r by (try apply lenZ_nonneg; lia).
  rewrite Z.pow_1_r. ring.
Qed.

Lemma le_val_range l : digits_ok b l -> 0 <= le_val b l < b ^ lenZ l.
Proof.
  induction 1 as [|d l Hd Hl IH]; cbn [le_val foldr]; [done|]. fold (le_val b l).
  rewrite lenZ_cons, Z.pow_add_r, Z.pow_1_r by (try apply lenZ_nonneg; lia). nia.
Qed.

Lemma le_val_inj l k :
  digits_ok b l -> digits_ok b k -> length l = length k -> le_val b l = le_val b k -> l = k.
Proof.
  intros Hl. revert k. induction Hl as [|d l Hd Hl IH]; intros [|e k] Hk Hlen; try done.
  cbn [le_val foldr]. fold (le_val b l) (le_val b k). intros Hv. apply Forall_cons in Hk as [He Hk].
  assert (Hde : d = e).
  { apply (f_equal (fun z => z mod b)) in Hv. rewrite !(Z.mul_comm b), !Z_mod_plus_full in Hv.
    by rewrite !Z.mod_small in Hv by done. }
  subst e. f_equal. apply IH; [done|by injection Hlen|nia].
Qed.

Lemma le_digits_length k n : length (le_digits b k n) = k.
Proof. revert n. induction k as [|k IH]; intros n; cbn; [done|by rewrite IH]. Qed.

Lemma le_digits_ok k n : digits_ok b (le_digits b k n).
Proof.
  revert n. induction k as [|k IH]; intros n; cbn [le_digits]; constructor; [|apply IH].
  apply Z.mod_pos_bound. lia.
Qed.

Lemma le_val_digits k n : le_val b (le_digits b k n) = n mod b ^ Z.of_nat k.
Proof.
  revert n. induction k as [|k IH]; intros n; cbn [le_digits le_val foldr].
  { by rewrite Z.pow_0_r, Z.mod_1_r. }
  fold (le_val b (le_digits b k (n / b))). rewrite IH, Nat2Z.inj_succ, Z.pow_succ_r by lia.
  rewrite Z.rem_mul_r; [lia|lia|]. apply Z.pow_pos_nonneg; lia.
Qed.

Lemma be_val_app l k : be_val b (l ++ k) = be_val b l * b ^ lenZ k + be_val b k.
Proof.
  unfold be_val. rewrite rev_app_distr, le_val_app. unfold lenZ. rewrite length_rev. lia.
Qed.

Lemma be_val_cons d l : be_val b (d :: l) = d * b ^ lenZ l + be_val b l.
Proof. change (d :: l) with ([d] ++ l). rewrite be_val_app. unfold be_val at 1. cbn. lia. Qed.

Lemma digits_ok_rev l : digits_ok b (rev l) <-> digits_ok b l.
Proof. unfold digits_ok. rewrite !List.Forall_forall. by setoid_rewrite <-in_rev. Qed.

Lemma be_val_range l : digits_ok b l -> 0 <= be_val b l < b ^ lenZ l.
Proof.
  intros Hl. unfold be_val. pose proof (le_val_range (rev l) ltac:(by apply digits_ok_rev)) as Hr.
  unfold lenZ in *. by rewrite length_rev in Hr.
Qed.

Lemma be_val_inj l k :
  digits_ok b l -> digits_ok b k -> length l = length k -> be_val b l = be_val b k -> l = k.
Proof.
  intros Hl Hk Hlen Hv. rewrite <-(rev_involutive l), <-(rev_involutive k). f_equal.
  apply le_val_inj; [by apply digits_ok_rev|by apply digits_ok_rev|by rewrite !length_rev|done].
Qed.

Lemma be_digits_length k n : length (be_digits b k n) = k.
Proof. unfold be_digits. by rewrite length_rev, le_digits_length. Qed.
Lemma be_digits_ok k n : digits_ok b (be_digits b k n).
Proof. apply digits_ok_rev, le_digits_ok. Qed.
Lemma be_val_digits k n : be_val b (be_digits b k n) = n mod b ^ Z.of_nat k.
Proof. unfold be_val, be_digits. rewrite rev_involutive. apply le_val_digits. Qed.

(** Most significant first, one digit after the other. *)
Lemma be_digits_snoc k n : be_digits b (S k) n = be_digits b k (n / b) ++ [n mod b].
Proof. done. Qed.

Lemma be_digits_cons k n :
  be_digits b (S k) n = (n / b ^ Z.of_nat k) mod b :: be_digits b k n.
Proof.
  revert n. induction k as [|k IH]; intros n; [by rewrite Z.pow_0_r, Z.div_1_r|].
  rewrite be_digits_snoc, IH, (be_digits_snoc k n). cbn [app]. f_equal.
  rewrite Nat2Z.inj_succ, Z.pow_succ_r, Z.div_div by lia. done.
Qed.

(** Zeros in front do not count. *)
Lemma be_val_zeros m l : be_val b (replicate m 0 ++ l) = be_val b l.
Proof.
  induction m as [|m IH]; [done|]. cbn [replicate app]. by rewrite be_val_cons, IH.
Qed.

Lemma be_val_nonzero d l : digits_ok b (d :: l) -> d <> 0 -> b ^ lenZ l <= be_val b (d :: l).
Proof.
  intros [Hd Hl]%Forall_cons Hd0. rewrite be_val_cons. pose proof (be_val_range l Hl). nia.
Qed.

(** Two numbers without leading zeros and the same value have the same digits. *)
Definition head_ok (l : list Z) : Prop := match l with d :: _ => d <> 0 | [] => True end.

Lemma be_val_head_len l k :
  digits_ok b l -> digits_ok b k -> head_ok l -> be_val b l = be_val b k -> (length l <= length k)%nat.
Proof.
  intros Hl Hk Hh Hv. destruct l as [|d l]; [cbn; lia|]. pose proof (be_val_nonzero d l Hl Hh).
  pose proof (be_val_range k Hk). assert (lenZ l < lenZ k).
  { apply (Z.pow_lt_mono_r_iff b); [lia|apply lenZ_nonneg|lia]. }
  unfold lenZ in *. cbn. lia.
Qed.

Lemma be_val_head_inj l k :
  digits_ok b l -> digits_ok b k -> head_ok l -> head_ok k -> be_val b l = be_val b k -> l = k.
Proof.
  intros Hl Hk Hhl Hhk Hv. apply be_val_inj; [done|done| |done].
  apply Nat.le_antisymm; by apply be_val_head_len.
Qed.

Lemma le_val_take k l : digits_ok b l -> le_val b (take k l) = le_val b l mod b ^ Z.of_nat k.
Proof.
  intros Hl. destruct (decide (length l <= k)%nat) as [Hk|Hk].
  - rewrite take_ge by done. pose proof (le_val_range l Hl). symmetry. apply Z.mod_small. split; [lia|].
    eapply Z.lt_le_trans; [apply le_val_range, Hl|]. apply Z.pow_le_mono_r; unfold lenZ; lia.
  - rewrite <-(take_drop k l) at 2. rewrite le_val_app. unfold lenZ. rewrite length_take_le by lia.
    rewrite (Z.mul_comm (b ^ _)), Z_mod_plus_full. symmetry. apply Z.mod_small.
    assert (Ht : digits_ok b (take k l)) by (by apply Forall_take).
    pose proof (le_val_range _ Ht) as Hr. unfold lenZ in Hr. by rewrite length_take_le in Hr by lia.
Qed.

End Base.

(** Bytes are digits in base 256. *)
Lemma is_bytes_digits l : is_bytes l <-> digits_ok 256 l.
Proof. done. Qed.
