(* ===== verification/Rand.v ===== *)
(** Random numbers and the clock: [GetRand] and [GetRandInt], src/util.cpp 177-195.

    OpenSSL's generator is a parameter: [RAND_bytes p] is the value of the [p]-th block of eight
    bytes it delivers.  [GetRand] rejects the draws of the last, incomplete block of [nMax]
    values, so its [do ... while] loop has no bound of its own; the model takes fuel and
    [GetRand_terminates] gives the fuel that is enough.

    [Environment] is what the randomised components use: a state with an operation that draws
    an [int] below a bound and one that reads [GetAdjustedTime()].  [source_environment]
    implements it with [GetRandInt]. *)

From S2P Require Import Prelude.

Section GetRand.
Variable RAND_bytes : nat -> Z.

Definition uint64_max : Z := 2 ^ 64 - 1.

(** [nRange]: the largest multiple of [nMax] that [uint64_max] holds. *)
Definition rand_range (nMax : Z) : Z := uint64_max / nMax * nMax.

Fixpoint rand_loop (fuel : nat) (nRange : Z) (p : nat) : option (Z * nat) :=
  match fuel with
  | O => None
  | S fuel' =>
    let nRand := RAND_bytes p in
    if nRange <=? nRand then rand_loop fuel' nRange (S p) else Some (nRand, S p)
  end.

Definition GetRand (fuel : nat) (nMax : Z) (p : nat) : option (Z * nat) :=
  if nMax =? 0 then Some (0, p)
  else
    let nRange := rand_range nMax in
    match rand_loop fuel nRange p with
    | Some (nRand, p') => Some (nRand mod nMax, p')
    | None => None
    end.

(** The [int] argument converts to [uint64] and the result back. *)
Definition GetRandInt (fuel : nat) (nMax : Z) (p : nat) : option (Z * nat) :=
  match GetRand fuel (u64 nMax) p with
  | Some (r, p') => Some (s32 r, p')
  | None => None
  end.

Lemma rand_range_bounds nMax :
  0 < nMax < 2 ^ 64 -> 2 ^ 63 <= rand_range nMax <= uint64_max /\ uint64_max - nMax < rand_range nMax.
Proof.
  unfold rand_range, uint64_max. intros Hn.
  pose proof (Z.div_mod (2 ^ 64 - 1) nMax ltac:(lia)) as E.
  pose proof (Z.mod_pos_bound (2 ^ 64 - 1) nMax ltac:(lia)) as Hm.
  assert (Hq : 1 <= (2 ^ 64 - 1) / nMax) by (apply Z.div_le_lower_bound; lia).
  change (2 ^ 64) with (2 * 2 ^ 63) in *. nia.
Qed.

Lemma rand_loop_spec fuel nRange p r p' :
  rand_loop fuel nRange p = Some (r, p') ->
  r < nRange /\ exists k, (k < fuel)%nat /\ p' = S (p + k) /\ r = RAND_bytes (p + k) /\
    forall j, (j < k)%nat -> nRange <= RAND_bytes (p + j).
Proof.
  revert p. induction fuel as [|fuel IH]; intros p; [done|]. cbn [rand_loop].
  destr_if; zbool.
  - intros (Hr & k & Hk & -> & -> & Hj)%IH. split; [done|]. exists (S k).
    rewrite <-Nat.add_succ_comm. split_and!; [lia|done|done|].
    intros [|j] Hlt; [by rewrite Nat.add_0_r|]. rewrite <-Nat.add_succ_comm. apply Hj. lia.
  - intros [= <- <-]. split; [done|]. exists 0%nat. rewrite Nat.add_0_r.
    split_and!; [lia|done|done|]. intros j Hj. lia.
Qed.

(** The acceptance region splits into [uint64_max / nMax] full blocks of [nMax] values. *)
Lemma rand_range_residue nMax r x :
  0 < nMax -> 0 <= x -> 0 <= r < nMax ->
  ((x < rand_range nMax /\ x mod nMax = r)
   <-> exists q, 0 <= q < uint64_max / nMax /\ x = q * nMax + r).
Proof.
  intros Hn Hx Hr. unfold rand_range. split.
  - intros [Hlt <-]. exists (x / nMax). pose proof (Z.div_mod x nMax ltac:(lia)) as E.
    pose proof (Z.mod_pos_bound x nMax Hn) as Hm.
    split; [split; [by apply Z.div_pos|nia]|lia].
  - intros (q & Hq & ->). split; [nia|].
    rewrite Z.add_comm, Z_mod_plus_full. by apply Z.mod_small.
Qed.

(** [GetRand] returns a value below [nMax], taken from the first draw below the largest
    multiple of [nMax]; and it is unbiased: each result [r] stems from exactly the
    [uint64_max / nMax] draws [q * nMax + r], the same number for every [r]. *)
Theorem GetRand_unbiased fuel nMax p v p' :
  0 < nMax < 2 ^ 64 -> (forall n, in_u 64 (RAND_bytes n)) ->
  GetRand fuel nMax p = Some (v, p') ->
  0 <= v < nMax /\
  (exists k, p' = S (p + k) /\ RAND_bytes (p + k) < rand_range nMax /\ v = RAND_bytes (p + k) mod nMax /\
     forall j, (j < k)%nat -> rand_range nMax <= RAND_bytes (p + j)) /\
  (forall r x, 0 <= r < nMax -> in_u 64 x ->
     ((x < rand_range nMax /\ x mod nMax = r)
      <-> exists q, 0 <= q < uint64_max / nMax /\ x = q * nMax + r)).
Proof.
  intros Hn Hsrc. unfold GetRand. destruct (Z.eqb_spec nMax 0); [lia|].
  destruct (rand_loop _ _ _) as [[r q]|] eqn:E; [|done]. intros [= <- <-].
  apply rand_loop_spec in E as (Hr & k & _ & -> & -> & Hj). split_and!.
  - apply Z.mod_pos_bound. lia.
  - apply Z.mod_pos_bound. lia.
  - by exists k.
  - intros r x Hr' [Hx _]. apply rand_range_residue; lia.
Qed.

Lemma rand_loop_total fuel nRange p :
  (exists k, (k < fuel)%nat /\ RAND_bytes (p + k) < nRange) ->
  is_Some (rand_loop fuel nRange p).
Proof.
  revert p. induction fuel as [|fuel IH]; intros p (k & Hk & Hlt); [lia|]. cbn [rand_loop].
  destr_if; zbool; [|by eexists]. apply IH. destruct k as [|k].
  { rewrite Nat.add_0_r in Hlt. lia. }
  exists k. split; [lia|]. by rewrite Nat.add_succ_comm.
Qed.

(** [GetRand] returns as soon as one of the next [fuel] draws has its top bit clear,
    for every [nMax]: half of all draws end the loop. *)
Theorem GetRand_terminates fuel nMax p :
  in_u 64 nMax -> (exists k, (k < fuel)%nat /\ RAND_bytes (p + k) < 2 ^ 63) ->
  is_Some (GetRand fuel nMax p).
Proof.
  intros Hn (k & Hk & Hlt). unfold GetRand. destruct (Z.eqb_spec nMax 0); [by eexists|].
  destruct (rand_loop_total fuel (rand_range nMax) p) as [[r q] Hr].
  - exists k. split; [done|]. pose proof (rand_range_bounds nMax). unfold in_u in Hn. lia.
  - rewrite Hr. by eexists.
Qed.

End GetRand.

Definition sample_source (p : nat) : Z := if Nat.even p then 2 ^ 64 - 1 else 1000 + Z.of_nat p.

Lemma sample_source_range n : in_u 64 (sample_source (n mod 16)).
Proof.
  unfold sample_source, in_u. pose proof (Nat.mod_upper_bound n 16).
  destruct (Nat.even _); lia.
Qed.

Lemma GetRand_unbiased_witness :
  GetRand (fun n => sample_source (n mod 16)) 5 10 0 = Some (1, 2%nat) /\ 0 <= 1 < 10.
Proof.
  split; [by vm_compute|].
  by apply (GetRand_unbiased (fun n => sample_source (n mod 16)) 5 10 0 1 2 ltac:(lia) sample_source_range).
Defined.

Lemma GetRand_terminates_witness : is_Some (GetRand sample_source 2 (2 ^ 63 + 5) 0).
Proof.
  apply GetRand_terminates; [unfold in_u; lia|]. exists 1%nat. split; [lia|by vm_compute].
Defined.

(** ** The interface of the randomised components *)

Class Environment (E : Type) := {
  draw : Z -> E -> Z * E;
  clock : E -> Z * E;
  draw_range n e : 0 < n < 2 ^ 31 -> 0 <= fst (draw n e) < n;
}.

(** [GetRandInt] over a source that never delivers [K] draws in a row with the top bit set
    implements the interface; the second component counts the readings of the clock. *)
Section SourceEnvironment.
Context (RAND_bytes : nat -> Z) (K : nat) (time : nat -> Z).
Hypothesis source_fair : forall p, exists k, (k < K)%nat /\ RAND_bytes (p + k) < 2 ^ 63.

Definition source_draw (n : Z) (e : nat * nat) : Z * (nat * nat) :=
  match GetRandInt RAND_bytes K n e.1 with
  | Some (r, p') => (r, (p', e.2))
  | None => (0, e)
  end.

Lemma source_draw_range n e : 0 < n < 2 ^ 31 -> 0 <= fst (source_draw n e) < n.
Proof.
  intros Hn. unfold source_draw, GetRandInt.
  assert (Hu : u64 n = n) by (apply wrapu_small; unfold in_u; lia). rewrite Hu.
  unfold GetRand. destruct (Z.eqb_spec n 0); [lia|].
  destruct (rand_loop _ _ _ _) as [[r q]|]; [|cbn; lia].
  pose proof (Z.mod_pos_bound r n ltac:(lia)). cbn [fst].
  rewrite wraps_small; [done|lia|]. unfold in_s. change (2 ^ (32 - 1)) with (2 ^ 31). lia.
Qed.

Lemma source_draw_advances n e :
  in_u 31 n -> n <> 0 -> (e.1 < (source_draw n e).2.1)%nat.
Proof.
  intros Hn H0. unfold source_draw, GetRandInt.
  assert (Hu : u64 n = n) by (apply wrapu_small; unfold in_u in *; lia). rewrite Hu.
  destruct (GetRand_terminates RAND_bytes K n e.1) as [[v p'] Hv].
  { unfold in_u in *. lia. }
  { apply source_fair. }
  rewrite Hv. cbn. unfold GetRand in Hv. destruct (Z.eqb_spec n 0); [done|].
  destruct (rand_loop _ _ _ _) as [[r q]|] eqn:E; [|done]. injection Hv as <- <-.
  apply rand_loop_spec in E as (_ & k & _ & -> & _). lia.
Qed.

Definition source_environment : Environment (nat * nat) :=
  {| draw := source_draw; clock e := (time e.2, (e.1, S e.2)); draw_range := source_draw_range |}.

End SourceEnvironment.

(** A scripted environment for examples: a list of draws (used up, then 0) and a fixed time. *)
Definition script_draw (n : Z) (e : list Z * Z) : Z * (list Z * Z) :=
  match e.1 with
  | [] => (0, e)
  | x :: l => (x mod n, (l, e.2))
  end.

Lemma script_draw_range n e : 0 < n < 2 ^ 31 -> 0 <= fst (script_draw n e) < n.
Proof.
  intros Hn. unfold script_draw. destruct e as [[|x l] t]; cbn; [lia|].
  apply Z.mod_pos_bound. lia.
Qed.

Definition script_environment : Environment (list Z * Z) :=
  {| draw := script_draw; clock e := (e.2, e); draw_range := script_draw_range |}.
