(* ===== verification/Codec.v ===== *)
(** The text codecs of src/util.cpp.

    Module [Base64]: [EncodeBase64] (617-661) and [DecodeBase64] (668-749).
    Module [Base32]: [EncodeBase32] (757-814) and [DecodeBase32] (821-936).

    The loops are the automata of the source: a [mode], the bits [left_] over from the last
    character and the output so far.  A decoder returns the bytes and the value of
    [*pfInvalid] (the caller that passes no [pfInvalid] reads the first component only). *)

From S2P Require Import Prelude.

Module Base64.

Definition pbase64 : bytes :=
  lit "ABCDEFGHIJKLMNOPQRSTUVWXYZabcdefghijklmnopqrstuvwxyz0123456789+/".

(** One iteration of the encoder's [while]: state [(strRet, mode, left_)]. *)
Definition enc_step (st : bytes * Z * Z) (enc : Z) : bytes * Z * Z :=
  let '(strRet, mode, left_) := st in
  if mode =? 0 then
    (strRet ++ [pbase64.[Z.shiftr enc 2]], 1, Z.shiftl (Z.land enc 3) 4)
  else if mode =? 1 then
    (strRet ++ [pbase64.[Z.lor left_ (Z.shiftr enc 4)]], 2, Z.shiftl (Z.land enc 15) 2)
  else if mode =? 2 then
    (strRet ++ [pbase64.[Z.lor left_ (Z.shiftr enc 6)]; pbase64.[Z.land enc 63]], 0, left_)
  else st.

(** The code after the loop: the last digit and the padding. *)
Definition enc_finish (st : bytes * Z * Z) : bytes :=
  let '(strRet, mode, left_) := st in
  if mode =? 0 then strRet
  else strRet ++ [pbase64.[left_]] ++ lit "=" ++ (if mode =? 1 then lit "=" else []).

Definition EncodeBase64 (pch : bytes) : bytes := enc_finish (fold_left enc_step pch ([], 0, 0)).

Definition decode64_table : list Z :=
  [-1; -1; -1; -1; -1; -1; -1; -1; -1; -1; -1; -1; -1; -1; -1; -1; -1; -1; -1; -1;
   -1; -1; -1; -1; -1; -1; -1; -1; -1; -1; -1; -1; -1; -1; -1; -1; -1; -1; -1; -1;
   -1; -1; -1; 62; -1; -1; -1; 63; 52; 53; 54; 55; 56; 57; 58; 59; 60; 61; -1; -1;
   -1; -1; -1; -1; -1;  0;  1;  2;  3;  4;  5;  6;  7;  8;  9; 10; 11; 12; 13; 14;
   15; 16; 17; 18; 19; 20; 21; 22; 23; 24; 25; -1; -1; -1; -1; -1; -1; 26; 27; 28;
   29; 30; 31; 32; 33; 34; 35; 36; 37; 38; 39; 40; 41; 42; 43; 44; 45; 46; 47; 48;
   49; 50; 51] ++ repeat (-1) 133.

Definition decode64 (c : Z) : Z := nthZ (-1) decode64_table c.

(** The body of the decoder's [switch]: state [(vchRet, mode, left_)]. *)
Definition dec_step (st : bytes * Z * Z) (dec : Z) : bytes * Z * Z :=
  let '(vchRet, mode, left_) := st in
  if mode =? 0 then (vchRet, 1, dec)
  else if mode =? 1 then
    (vchRet ++ [u8 (Z.lor (Z.shiftl left_ 2) (Z.shiftr dec 4))], 2, Z.land dec 15)
  else if mode =? 2 then
    (vchRet ++ [u8 (Z.lor (Z.shiftl left_ 4) (Z.shiftr dec 2))], 3, Z.land dec 3)
  else if mode =? 3 then
    (vchRet ++ [u8 (Z.lor (Z.shiftl left_ 6) dec)], 0, left_)
  else st.

(** The decoder's [while (1)]: stops at the first character outside the table, the
    terminating NUL included; also returns the rest of the input. *)
Fixpoint dec_loop (p : bytes) (st : bytes * Z * Z) : bytes * (bytes * Z * Z) :=
  match p with
  | [] => ([], st)
  | c :: p' =>
    let dec := decode64 c in
    if dec =? -1 then (p, st) else dec_loop p' (dec_step st dec)
  end.

Definition EQ : Z := 61. (* '=' *)

(** The code after the loop: the value of [*pfInvalid]. *)
Definition dec_finish (r : bytes * (bytes * Z * Z)) : bytes * bool :=
  let '(p, (vchRet, mode, left_)) := r in
  let invalid :=
    if mode =? 1 then true
    else if mode =? 2 then
      negb (left_ =? 0) || negb (p.[0] =? EQ) || negb (p.[1] =? EQ)
      || negb (decode64 p.[2] =? -1)
    else if mode =? 3 then
      negb (left_ =? 0) || negb (p.[0] =? EQ) || negb (decode64 p.[1] =? -1)
    else false in
  (vchRet, invalid).

Definition DecodeBase64 (s : bytes) : bytes * bool := dec_finish (dec_loop s ([], 0, 0)).

(** ** The tables *)

Lemma decode64_pbase64 d : 0 <= d < 64 -> decode64 pbase64.[d] = d.
Proof.
  intros Hd. apply Z.eqb_eq.
  apply (range_forallb 64 (fun d => decode64 pbase64.[d] =? d)); [by vm_compute|done].
Qed.

Lemma decode64_cases c :
  in_u 8 c -> decode64 c = -1 \/ (0 <= decode64 c < 64 /\ pbase64.[decode64 c] = c).
Proof.
  intros Hc.
  assert (H : (decode64 c =? -1) || ((0 <=? decode64 c) && (decode64 c <? 64)
              && (pbase64.[decode64 c] =? c)) = true).
  { apply (byte_forallb (fun c => (decode64 c =? -1) || ((0 <=? decode64 c)
      && (decode64 c <? 64) && (pbase64.[decode64 c] =? c)))); [by vm_compute|done]. }
  apply orb_true_iff in H as [H|H]; zbool; auto.
Qed.


(** ** Regrouping 8-bit bytes as 6-bit digits *)

Lemma enc_step_app s t m lf b :
  enc_step (s ++ t, m, lf) b
  = let '(t', m', lf') := enc_step (t, m, lf) b in (s ++ t', m', lf').
Proof. unfold enc_step. repeat destr_if; by rewrite <-?app_assoc. Qed.

Lemma enc_fold_app l s t m lf :
  fold_left enc_step l (s ++ t, m, lf)
  = let '(t', m', lf') := fold_left enc_step l (t, m, lf) in (s ++ t', m', lf').
Proof.
  revert t m lf. induction l as [|b l IH]; intros t m lf; [done|].
  cbn [fold_left]. rewrite enc_step_app.
  destruct (enc_step (t, m, lf) b) as [[t' m'] lf']. apply IH.
Qed.

(** Three bytes give four digits and bring the encoder back to mode 0. *)
Definition digits3 (a b c : Z) : bytes :=
  [pbase64.[a / 4]; pbase64.[a mod 4 * 16 + b / 16];
   pbase64.[b mod 16 * 4 + c / 64]; pbase64.[c mod 64]].

Lemma glue_2 a b : in_u 8 b -> Z.lor (Z.shiftl (a mod 4) 4) (b / 16) = a mod 4 * 16 + b / 16.
Proof. intros Hb. rewrite lor_shiftl; [done|lia|zdm]. Qed.
Lemma glue_4 a b : in_u 8 b -> Z.lor (Z.shiftl (a mod 16) 2) (b / 64) = a mod 16 * 4 + b / 64.
Proof. intros Hb. rewrite lor_shiftl; [done|lia|zdm]. Qed.

Lemma enc_finish_app s t m lf : enc_finish (s ++ t, m, lf) = s ++ enc_finish (t, m, lf).
Proof. unfold enc_finish. destr_if; by rewrite <-?app_assoc. Qed.

Lemma enc_fold_mode0 l s lf :
  enc_finish (fold_left enc_step l (s, 0, lf)) = s ++ EncodeBase64 l.
Proof.
  unfold EncodeBase64. destruct l as [|b l]; [by cbn; rewrite app_nil_r|].
  rewrite <-(app_nil_r s) at 1. cbn [fold_left]. rewrite enc_step_app.
  change (enc_step ([], 0, lf) b) with (enc_step ([], 0, 0) b).
  destruct (enc_step ([], 0, 0) b) as [[t m] lf'].
  rewrite enc_fold_app. destruct (fold_left enc_step l (t, m, lf')) as [[t' m'] lf''].
  apply enc_finish_app.
Qed.

Lemma EncodeBase64_3 a b c l :
  in_u 8 a -> in_u 8 b -> in_u 8 c ->
  EncodeBase64 (a :: b :: c :: l) = digits3 a b c ++ EncodeBase64 l.
Proof.
  intros Ha Hb Hc. rewrite <-(enc_fold_mode0 l (digits3 a b c) (b mod 16 * 4)).
  unfold EncodeBase64. cbn [fold_left]. unfold enc_step at 2 3 4.
  cbn [Z.eqb Pos.eqb]. autorewrite with bits.
  rewrite glue_2, glue_4 by done. by rewrite Z.shiftl_mul_pow2.
Qed.

Lemma EncodeBase64_2 a b : in_u 8 a -> in_u 8 b ->
  EncodeBase64 [a; b]
  = [pbase64.[a / 4]; pbase64.[a mod 4 * 16 + b / 16]; pbase64.[b mod 16 * 4]] ++ lit "=".
Proof.
  intros Ha Hb. unfold EncodeBase64. cbn [fold_left]. unfold enc_step.
  cbn [Z.eqb Pos.eqb]. autorewrite with bits. rewrite glue_2 by done.
  by rewrite Z.shiftl_mul_pow2.
Qed.

Lemma EncodeBase64_1 a : in_u 8 a ->
  EncodeBase64 [a] = [pbase64.[a / 4]; pbase64.[a mod 4 * 16]] ++ lit "==".
Proof.
  intros Ha. unfold EncodeBase64. cbn [fold_left]. unfold enc_step.
  cbn [Z.eqb Pos.eqb]. autorewrite with bits. by rewrite Z.shiftl_mul_pow2.
Qed.

(** ** Decoding by groups of four digits *)

Lemma dec_step_app s t m lf d :
  dec_step (s ++ t, m, lf) d
  = let '(t', m', lf') := dec_step (t, m, lf) d in (s ++ t', m', lf').
Proof. unfold dec_step. repeat destr_if; by rewrite <-?app_assoc. Qed.

Lemma dec_loop_app l s t m lf :
  dec_loop l (s ++ t, m, lf)
  = let '(p, (t', m', lf')) := dec_loop l (t, m, lf) in (p, (s ++ t', m', lf')).
Proof.
  revert t m lf. induction l as [|c l IH]; intros t m lf; [done|].
  cbn [dec_loop]. destr_if; [done|]. rewrite dec_step_app.
  destruct (dec_step (t, m, lf) (decode64 c)) as [[t' m'] lf']. apply IH.
Qed.

Lemma dec_loop_mode0 l s lf :
  dec_finish (dec_loop l (s, 0, lf))
  = (s ++ fst (DecodeBase64 l), snd (DecodeBase64 l)).
Proof.
  unfold DecodeBase64. destruct l as [|c l]; [by cbn; rewrite app_nil_r|].
  rewrite <-(app_nil_r s) at 1. rewrite dec_loop_app.
  cbn [dec_loop]. destr_if; [done|].
  change (dec_step ([], 0, lf) (decode64 c)) with (dec_step ([], 0, 0) (decode64 c)).
  destruct (dec_loop l _) as [p [[t m] lf']]. done.
Qed.

Definition is_digit (c : Z) : Prop := 0 <= decode64 c < 64.

Lemma dec_loop_digit c l st :
  is_digit c -> dec_loop (c :: l) st = dec_loop l (dec_step st (decode64 c)).
Proof. intros Hc. cbn [dec_loop]. unfold is_digit in Hc. destr_if; [zbool; lia|done]. Qed.

Lemma dec_loop_stop p st : decode64 p.[0] = -1 -> dec_loop p st = (p, st).
Proof. destruct p as [|c p]; [done|]. rewrite nthZ_0. intros H. cbn [dec_loop]. by rewrite H. Qed.

Lemma unglue_2 d e n : 0 <= d < 2 ^ (8 - n) -> 0 <= e < 2 ^ n -> 0 <= n <= 8 ->
  u8 (Z.lor (Z.shiftl d n) e) = d * 2 ^ n + e.
Proof.
  intros Hd He Hn. rewrite lor_shiftl by lia. apply wrapu_small. unfold in_u.
  assert (2 ^ 8 = 2 ^ (8 - n) * 2 ^ n) by (rewrite <-Z.pow_add_r by lia; f_equal; lia). nia.
Qed.

(** Two bytes of a group overlap in one digit: the decoder's three glueing steps. *)
Lemma unglue_a d e : 0 <= d < 64 -> 0 <= e < 64 ->
  u8 (Z.lor (Z.shiftl d 2) (e / 16)) = d * 4 + e / 16.
Proof. intros. apply unglue_2; zdm. Qed.
Lemma unglue_b d e : 0 <= d < 64 -> 0 <= e < 64 ->
  u8 (Z.lor (Z.shiftl (d mod 16) 4) (e / 4)) = d mod 16 * 16 + e / 4.
Proof. intros. apply unglue_2; zdm. Qed.
Lemma unglue_c d e : 0 <= d < 64 -> 0 <= e < 64 ->
  u8 (Z.lor (Z.shiftl (d mod 4) 6) e) = d mod 4 * 64 + e.
Proof. intros. apply unglue_2; zdm. Qed.

Definition bytes3 (d0 d1 d2 d3 : Z) : bytes :=
  [d0 * 4 + d1 / 16; d1 mod 16 * 16 + d2 / 4; d2 mod 4 * 64 + d3].

Ltac dec_digits := rewrite !dec_loop_digit by done; unfold dec_step; cbn [Z.eqb Pos.eqb];
  autorewrite with bits; rewrite ?unglue_a, ?unglue_b, ?unglue_c by done.

Lemma DecodeBase64_4 c0 c1 c2 c3 s :
  is_digit c0 -> is_digit c1 -> is_digit c2 -> is_digit c3 ->
  DecodeBase64 (c0 :: c1 :: c2 :: c3 :: s)
  = (bytes3 (decode64 c0) (decode64 c1) (decode64 c2) (decode64 c3) ++ fst (DecodeBase64 s),
     snd (DecodeBase64 s)).
Proof.
  intros H0 H1 H2 H3. unfold DecodeBase64 at 1. dec_digits. apply dec_loop_mode0.
Qed.

Lemma DecodeBase64_3 c0 c1 c2 p :
  is_digit c0 -> is_digit c1 -> is_digit c2 -> decode64 p.[0] = -1 ->
  DecodeBase64 (c0 :: c1 :: c2 :: p)
  = ([decode64 c0 * 4 + decode64 c1 / 16; decode64 c1 mod 16 * 16 + decode64 c2 / 4],
     negb (decode64 c2 mod 4 =? 0) || negb (p.[0] =? EQ) || negb (decode64 p.[1] =? -1)).
Proof.
  intros H0 H1 H2 Hp. unfold DecodeBase64. dec_digits. by rewrite dec_loop_stop.
Qed.

Lemma DecodeBase64_2 c0 c1 p :
  is_digit c0 -> is_digit c1 -> decode64 p.[0] = -1 ->
  DecodeBase64 (c0 :: c1 :: p)
  = ([decode64 c0 * 4 + decode64 c1 / 16],
     negb (decode64 c1 mod 16 =? 0) || negb (p.[0] =? EQ) || negb (p.[1] =? EQ)
     || negb (decode64 p.[2] =? -1)).
Proof.
  intros H0 H1 Hp. unfold DecodeBase64. dec_digits. by rewrite dec_loop_stop.
Qed.

Lemma digit_cases c : in_u 8 c -> decode64 c = -1 \/ is_digit c.
Proof. intros [H|[H _]]%decode64_cases; auto. Qed.

Lemma digit_char c : in_u 8 c -> is_digit c -> pbase64.[decode64 c] = c.
Proof. intros [H|[_ H]]%decode64_cases Hd; [unfold is_digit in Hd; lia|done]. Qed.

Lemma pbase64_digit d : 0 <= d < 64 -> is_digit pbase64.[d].
Proof. intros Hd. unfold is_digit. by rewrite decode64_pbase64. Qed.

(** What may follow an encoded text: a character outside the alphabet, or the end. *)
Definition stops (rest : bytes) : Prop := decode64 rest.[0] = -1.

Lemma DecodeBase64_encode v rest :
  is_bytes v -> stops rest -> DecodeBase64 (EncodeBase64 v ++ rest) = (v, false).
Proof.
  intros Hv Hr. induction v as [v IH] using list_len_ind.
  unfold stops in *. destruct v as [|a [|b [|c v]]].
  - unfold DecodeBase64. change (EncodeBase64 []) with (@nil Z).
    cbn [app]. by rewrite dec_loop_stop.
  - apply is_bytes_cons in Hv as [Ha _]. rewrite EncodeBase64_1 by done.
    change (lit "==") with [EQ; EQ]. cbn [app].
    rewrite DecodeBase64_2 by (try done; apply pbase64_digit; zdm).
    rewrite !decode64_pbase64 by zdm. autorewrite with nthz. rewrite Hr.
    replace (a mod 4 * 16 mod 16) with 0 by zdm. cbn. do 2 f_equal. zdm.
  - apply is_bytes_cons in Hv as [Ha [Hb _]%is_bytes_cons].
    rewrite EncodeBase64_2 by done. change (lit "=") with [EQ]. cbn [app].
    rewrite DecodeBase64_3 by (try done; apply pbase64_digit; zdm).
    rewrite !decode64_pbase64 by zdm. autorewrite with nthz. rewrite Hr.
    replace (b mod 16 * 4 mod 4) with 0 by zdm. cbn. repeat f_equal; zdm.
  - apply is_bytes_cons in Hv as [Ha [Hb [Hc Hv]%is_bytes_cons]%is_bytes_cons].
    rewrite EncodeBase64_3 by done. unfold digits3. cbn [app].
    rewrite DecodeBase64_4 by (apply pbase64_digit; zdm).
    rewrite !decode64_pbase64 by zdm. rewrite IH by (done || (simpl; lia)).
    cbn [fst snd]. unfold bytes3. cbn [app]. repeat f_equal; zdm.
Qed.

(** The other direction, by the number of digits before the first other character. *)
Definition encodes (s v : bytes) : Prop :=
  is_bytes v /\ exists rest, s = EncodeBase64 v ++ rest /\ stops rest.

Lemma accept_2 c0 c1 p v :
  in_u 8 c0 -> in_u 8 c1 -> is_digit c0 -> is_digit c1 -> stops p ->
  DecodeBase64 (c0 :: c1 :: p) = (v, false) -> encodes (c0 :: c1 :: p) v.
Proof.
  intros Hc0 Hc1 D0 D1 Hp HD. rewrite DecodeBase64_2 in HD by done. injection HD as <- HI. zbool.
  pose proof (digit_char c0 Hc0 D0) as E0. pose proof (digit_char c1 Hc1 D1) as E1.
  unfold is_digit in *. set (d0 := decode64 c0) in *. set (d1 := decode64 c1) in *.
  destruct p as [|e0 [|e1 p]]; autorewrite with nthz in *; [done|done|]. subst e0 e1.
  split; [apply is_bytes_cons; split; [zdm|apply is_bytes_nil]|].
  exists p. split; [|done]. rewrite EncodeBase64_1 by zdm.
  replace ((d0 * 4 + d1 / 16) / 4) with d0 by zdm.
  replace ((d0 * 4 + d1 / 16) mod 4 * 16) with d1 by zdm. by rewrite E0, E1.
Qed.

Lemma accept_3 c0 c1 c2 p v :
  in_u 8 c0 -> in_u 8 c1 -> in_u 8 c2 -> is_digit c0 -> is_digit c1 -> is_digit c2 -> stops p ->
  DecodeBase64 (c0 :: c1 :: c2 :: p) = (v, false) -> encodes (c0 :: c1 :: c2 :: p) v.
Proof.
  intros Hc0 Hc1 Hc2 D0 D1 D2 Hp HD.
  rewrite DecodeBase64_3 in HD by done. injection HD as <- HI. zbool.
  pose proof (digit_char c0 Hc0 D0) as E0. pose proof (digit_char c1 Hc1 D1) as E1.
  pose proof (digit_char c2 Hc2 D2) as E2. unfold is_digit in *.
  set (d0 := decode64 c0) in *. set (d1 := decode64 c1) in *. set (d2 := decode64 c2) in *.
  destruct p as [|e0 p]; autorewrite with nthz in *; [done|]. subst e0.
  split; [rewrite !is_bytes_cons; split_and!; [zdm|zdm|apply is_bytes_nil]|].
  exists p. split; [|done]. rewrite EncodeBase64_2 by zdm.
  replace ((d0 * 4 + d1 / 16) / 4) with d0 by zdm.
  replace ((d0 * 4 + d1 / 16) mod 4 * 16 + (d1 mod 16 * 16 + d2 / 4) / 16) with d1 by zdm.
  replace ((d1 mod 16 * 16 + d2 / 4) mod 16 * 4) with d2 by zdm. by rewrite E0, E1, E2.
Qed.

Lemma accept_4 c0 c1 c2 c3 s v :
  in_u 8 c0 -> in_u 8 c1 -> in_u 8 c2 -> in_u 8 c3 ->
  is_digit c0 -> is_digit c1 -> is_digit c2 -> is_digit c3 -> encodes s v ->
  encodes (c0 :: c1 :: c2 :: c3 :: s)
    (bytes3 (decode64 c0) (decode64 c1) (decode64 c2) (decode64 c3) ++ v).
Proof.
  intros Hc0 Hc1 Hc2 Hc3 D0 D1 D2 D3 (Hv & rest & -> & Hst).
  pose proof (digit_char c0 Hc0 D0) as E0. pose proof (digit_char c1 Hc1 D1) as E1.
  pose proof (digit_char c2 Hc2 D2) as E2. pose proof (digit_char c3 Hc3 D3) as E3.
  unfold is_digit in *. set (d0 := decode64 c0) in *. set (d1 := decode64 c1) in *.
  set (d2 := decode64 c2) in *. set (d3 := decode64 c3) in *. unfold bytes3. cbn [app].
  split; [rewrite !is_bytes_cons; split_and!; [zdm|zdm|zdm|done]|].
  exists rest. split; [|done]. rewrite EncodeBase64_3 by zdm. unfold digits3. cbn [app].
  replace ((d0 * 4 + d1 / 16) / 4) with d0 by zdm.
  replace ((d0 * 4 + d1 / 16) mod 4 * 16 + (d1 mod 16 * 16 + d2 / 4) / 16) with d1 by zdm.
  replace ((d1 mod 16 * 16 + d2 / 4) mod 16 * 4 + (d2 mod 4 * 64 + d3) / 64) with d2 by zdm.
  replace ((d2 mod 4 * 64 + d3) mod 64) with d3 by zdm. by rewrite E0, E1, E2, E3.
Qed.

(** Split a text at its first non-digit; at most one case below is not a digit. *)
Lemma digit_split s :
  is_bytes s -> stops s \/ exists c k, s = c :: k /\ in_u 8 c /\ is_digit c /\ is_bytes k.
Proof.
  intros Hs. destruct s as [|c k]; [by left|]. apply is_bytes_cons in Hs as [Hc Hk].
  destruct (digit_cases c Hc) as [H|H]; [left; by unfold stops; rewrite nthZ_0|].
  right. by exists c, k.
Qed.

Lemma DecodeBase64_accept s v :
  is_bytes s -> DecodeBase64 s = (v, false) -> encodes s v.
Proof.
  revert v. induction s as [s IH] using list_len_ind. intros v Hs HD.
  destruct (digit_split s Hs) as [Hst|(c0 & k0 & -> & Hc0 & D0 & Hk0)].
  { unfold DecodeBase64 in HD. rewrite dec_loop_stop in HD by done. injection HD as <-.
    split; [apply is_bytes_nil|]. by exists s. }
  destruct (digit_split k0 Hk0) as [Hst|(c1 & k1 & -> & Hc1 & D1 & Hk1)].
  { unfold DecodeBase64 in HD. rewrite dec_loop_digit in HD by done. unfold dec_step in HD.
    cbn [Z.eqb] in HD. by rewrite dec_loop_stop in HD by done. }
  destruct (digit_split k1 Hk1) as [Hst|(c2 & k2 & -> & Hc2 & D2 & Hk2)].
  { by apply accept_2. }
  destruct (digit_split k2 Hk2) as [Hst|(c3 & k3 & -> & Hc3 & D3 & Hk3)].
  { by apply accept_3. }
  rewrite DecodeBase64_4 in HD by done. injection HD as <- HI.
  apply accept_4; try done. apply IH; [simpl; lia|done|].
  destruct (DecodeBase64 k3); simpl in *; congruence.
Qed.

(** [DecodeBase64] reports no error exactly on the texts [EncodeBase64] produces, up to the
    first character outside the alphabet, and then returns the bytes that were encoded. *)
Theorem DecodeBase64_exact s v :
  is_bytes s ->
  (DecodeBase64 s = (v, false) <->
   is_bytes v /\ exists rest, s = EncodeBase64 v ++ rest /\ decode64 rest.[0] = -1).
Proof.
  intros Hs. split; [by apply DecodeBase64_accept|].
  intros (Hv & rest & -> & Hr). by apply DecodeBase64_encode.
Qed.

Lemma DecodeBase64_exact_witness :
  is_bytes (lit "SGVsbG8=") /\ DecodeBase64 (lit "SGVsbG8=") = (lit "Hello", false).
Proof.
  split; [by vm_compute; repeat constructor|].
  apply (DecodeBase64_exact (lit "SGVsbG8=") (lit "Hello")).
  - apply (bool_decide_unpack _). by vm_compute.
  - split; [apply (bool_decide_unpack _); by vm_compute|].
    exists []. split; by vm_compute.
Defined.

End Base64.

Module Base32.

Definition pbase32 : bytes := lit "abcdefghijklmnopqrstuvwxyz234567".

(** One iteration of the encoder's [while]: state [(strRet, mode, left)]. *)
Definition enc_step (st : bytes * Z * Z) (enc : Z) : bytes * Z * Z :=
  let '(strRet, mode, left_) := st in
  if mode =? 0 then
    (strRet ++ [pbase32.[Z.shiftr enc 3]], 1, Z.shiftl (Z.land enc 7) 2)
  else if mode =? 1 then
    (strRet ++ [pbase32.[Z.lor left_ (Z.shiftr enc 6)]; pbase32.[Z.land (Z.shiftr enc 1) 31]],
     2, Z.shiftl (Z.land enc 1) 4)
  else if mode =? 2 then
    (strRet ++ [pbase32.[Z.lor left_ (Z.shiftr enc 4)]], 3, Z.shiftl (Z.land enc 15) 1)
  else if mode =? 3 then
    (strRet ++ [pbase32.[Z.lor left_ (Z.shiftr enc 7)]; pbase32.[Z.land (Z.shiftr enc 2) 31]],
     4, Z.shiftl (Z.land enc 3) 3)
  else if mode =? 4 then
    (strRet ++ [pbase32.[Z.lor left_ (Z.shiftr enc 5)]; pbase32.[Z.land enc 31]], 0, left_)
  else st.

Definition EQ : Z := 61. (* '=' *)

Definition nPadding : list Z := [0; 6; 4; 3; 1].

Definition enc_finish (st : bytes * Z * Z) : bytes :=
  let '(strRet, mode, left_) := st in
  if mode =? 0 then strRet
  else strRet ++ [pbase32.[left_]] ++ repeat EQ (Z.to_nat nPadding.[mode]).

Definition EncodeBase32 (pch : bytes) : bytes := enc_finish (fold_left enc_step pch ([], 0, 0)).

Definition decode32_table : list Z :=
  [-1; -1; -1; -1; -1; -1; -1; -1; -1; -1; -1; -1; -1; -1; -1; -1; -1; -1; -1; -1;
   -1; -1; -1; -1; -1; -1; -1; -1; -1; -1; -1; -1; -1; -1; -1; -1; -1; -1; -1; -1;
   -1; -1; -1; -1; -1; -1; -1; -1; -1; -1; 26; 27; 28; 29; 30; 31; -1; -1; -1; -1;
   -1; -1; -1; -1; -1;  0;  1;  2;  3;  4;  5;  6;  7;  8;  9; 10; 11; 12; 13; 14;
   15; 16; 17; 18; 19; 20; 21; 22; 23; 24; 25; -1; -1; -1; -1; -1; -1;  0;  1;  2;
    3;  4;  5;  6;  7;  8;  9; 10; 11; 12; 13; 14; 15; 16; 17; 18; 19; 20; 21; 22;
   23; 24; 25] ++ repeat (-1) 133.

Definition decode32 (c : Z) : Z := nthZ (-1) decode32_table c.

(** The body of the decoder's [switch]. *)
Definition dec_step (st : bytes * Z * Z) (dec : Z) : bytes * Z * Z :=
  let '(vchRet, mode, left_) := st in
  if mode =? 0 then (vchRet, 1, dec)
  else if mode =? 1 then
    (vchRet ++ [u8 (Z.lor (Z.shiftl left_ 3) (Z.shiftr dec 2))], 2, Z.land dec 3)
  else if mode =? 2 then (vchRet, 3, Z.lor (Z.shiftl left_ 5) dec)
  else if mode =? 3 then
    (vchRet ++ [u8 (Z.lor (Z.shiftl left_ 1) (Z.shiftr dec 4))], 4, Z.land dec 15)
  else if mode =? 4 then
    (vchRet ++ [u8 (Z.lor (Z.shiftl left_ 4) (Z.shiftr dec 1))], 5, Z.land dec 1)
  else if mode =? 5 then (vchRet, 6, Z.lor (Z.shiftl left_ 5) dec)
  else if mode =? 6 then
    (vchRet ++ [u8 (Z.lor (Z.shiftl left_ 2) (Z.shiftr dec 3))], 7, Z.land dec 7)
  else if mode =? 7 then
    (vchRet ++ [u8 (Z.lor (Z.shiftl left_ 5) dec)], 0, left_)
  else st.

Fixpoint dec_loop (p : bytes) (st : bytes * Z * Z) : bytes * (bytes * Z * Z) :=
  match p with
  | [] => ([], st)
  | c :: p' =>
    let dec := decode32 c in
    if dec =? -1 then (p, st) else dec_loop p' (dec_step st dec)
  end.

(** [p[0] != '=' || ... || p[n-1] != '=' || decode32_table[p[n]] != -1]. *)
Fixpoint bad_padding (n : nat) (p : bytes) : bool :=
  match n with
  | O => negb (decode32 p.[0] =? -1)
  | S n' => negb (p.[0] =? EQ) || bad_padding n' (tail p)
  end.

Definition dec_finish (r : bytes * (bytes * Z * Z)) : bytes * bool :=
  let '(p, (vchRet, mode, left_)) := r in
  let invalid :=
    if (mode =? 1) || (mode =? 3) || (mode =? 6) then true
    else if mode =? 2 then negb (left_ =? 0) || bad_padding 6 p
    else if mode =? 4 then negb (left_ =? 0) || bad_padding 4 p
    else if mode =? 5 then negb (left_ =? 0) || bad_padding 3 p
    else if mode =? 7 then negb (left_ =? 0) || bad_padding 1 p
    else false in
  (vchRet, invalid).

Definition DecodeBase32 (s : bytes) : bytes * bool := dec_finish (dec_loop s ([], 0, 0)).

(** ** The decoder follows the encoder

    [sim l e d]: after the bytes [l] the encoder is in state [e], and the decoder, fed the
    digits emitted so far, is in state [d].  In modes 1 to 4 one byte is half-way: the decoder
    holds its high bits, the encoder its low bits. *)

Lemma decode32_pbase32 d : 0 <= d < 32 -> decode32 pbase32.[d] = d.
Proof.
  intros Hd. apply Z.eqb_eq.
  apply (range_forallb 32 (fun d => decode32 pbase32.[d] =? d)); [by vm_compute|done].
Qed.

Definition chars (ds : list Z) : bytes := (fun d => pbase32.[d]) <$> ds.

Definition decs (ds : list Z) : bytes * Z * Z := fold_left dec_step ds ([], 0, 0).

Lemma dec_loop_chars ds p st :
  Forall (fun d => 0 <= d < 32) ds ->
  dec_loop (chars ds ++ p) st = dec_loop p (fold_left dec_step ds st).
Proof.
  intros Hds. revert st. induction Hds as [|d ds Hd _ IH]; intros st; [done|].
  unfold chars. cbn [fmap list_fmap app dec_loop fold_left].
  rewrite decode32_pbase32 by done. destr_if; [zbool; lia|apply IH].
Qed.

(** The bits of the pending byte still to be sent, by encoder mode; the decoder's mode. *)
Definition pend (m : Z) : Z := [0; 3; 1; 4; 2].[m].
Definition dmode (m : Z) : Z := [0; 1; 3; 4; 6].[m].

Definition sim (l : bytes) (e : bytes * Z * Z) (ds : list Z) : Prop :=
  let '(out, m, le) := e in
  let '(vch, md, ld) := decs ds in
  out = chars ds /\ Forall (fun d => 0 <= d < 32) ds /\ 0 <= m < 5 /\ md = dmode m /\
  if m =? 0 then vch = l
  else exists a, l = vch ++ [a] /\ in_u 8 a /\
       ld = a / 2 ^ pend m /\ le = a mod 2 ^ pend m * 2 ^ (5 - pend m).

Lemma decs_app ds ds' : decs (ds ++ ds') = fold_left dec_step ds' (decs ds).
Proof. unfold decs. apply fold_left_app. Qed.

Lemma chars_app ds ds' : chars (ds ++ ds') = chars ds ++ chars ds'.
Proof. apply fmap_app. Qed.

(** Two disjoint bit fields: the encoder's [left | x] and the decoder's [left << n | x]. *)
Lemma glue q n b k : b = k -> 0 <= n -> 0 <= k < 2 ^ n -> Z.lor (q * 2 ^ n) b = q * 2 ^ n + k.
Proof. intros -> Hn Hk. by apply lor_disjoint. Qed.

Lemma unglue q n x a :
  0 <= n -> 0 <= x < 2 ^ n -> in_u 8 a -> q * 2 ^ n + x = a -> u8 (Z.lor (Z.shiftl q n) x) = a.
Proof. intros Hn Hx Ha <-. rewrite lor_shiftl by done. by apply wrapu_small. Qed.

Ltac digits_ok := apply Forall_app; split; [done|]; repeat (apply Forall_cons; split; [zdm|]);
  exact (List.Forall_nil _).

Ltac mode_cases m :=
  let H := fresh in
  assert (H : m = 0 \/ m = 1 \/ m = 2 \/ m = 3 \/ m = 4) by lia;
  destruct H as [->|[->|[->|[->| ->]]]].

Ltac simp_bits :=
  unfold pend, dmode in *; autorewrite with nthz in *; cbn [Z.eqb Pos.eqb] in *;
  change (5 - 3) with 2 in *; change (5 - 1) with 4 in *; change (5 - 4) with 1 in *;
  change (5 - 2) with 3 in *; change (2 ^ 1) with 2 in *; change (2 ^ 2) with 4 in *;
  change (2 ^ 3) with 8 in *; change (2 ^ 4) with 16 in *.

Lemma sim_step l e ds b :
  sim l e ds -> in_u 8 b -> exists ds', sim (l ++ [b]) (enc_step e b) (ds ++ ds').
Proof.
  destruct e as [[out m] le]. unfold sim. destruct (decs ds) as [[vch md] ld] eqn:D.
  intros (-> & Hds & Hm & -> & Hst) Hb.
  mode_cases m; simp_bits; try (destruct Hst as (a & -> & Ha & -> & ->); simp_bits); try subst vch.
  - exists [b / 8]. rewrite decs_app, D. cbn. split_and!; [..|exists b; split_and!]; try done.
    + rewrite chars_app. by autorewrite with bits.
    + digits_ok.
    + by autorewrite with bits; rewrite Z.shiftl_mul_pow2.
  - exists [a mod 8 * 4 + b / 64; b / 2 mod 32]. rewrite decs_app, D. cbn -[Z.mul].
    autorewrite with bits.
    rewrite (unglue (a / 8) 3 _ a), (glue (a mod 8) 2 _ (b / 64)), lor_shiftl by zdm.
    split_and!; [by rewrite chars_app|digits_ok|done..|].
    exists b. rewrite Z.shiftl_mul_pow2 by lia. split_and!; try done. zdm.
  - exists [a mod 2 * 16 + b / 16]. rewrite decs_app, D. cbn -[Z.mul]. autorewrite with bits.
    rewrite (unglue (a / 2) 1 _ a), (glue (a mod 2) 4 _ (b / 16)) by zdm.
    split_and!; [by rewrite chars_app|digits_ok|done..|].
    exists b. rewrite Z.shiftl_mul_pow2 by lia. split_and!; try done. zdm.
  - exists [a mod 16 * 2 + b / 128; b / 4 mod 32]. rewrite decs_app, D. cbn -[Z.mul].
    autorewrite with bits.
    rewrite (unglue (a / 16) 4 _ a), (glue (a mod 16) 1 _ (b / 128)), lor_shiftl by zdm.
    split_and!; [by rewrite chars_app|digits_ok|done..|].
    exists b. rewrite Z.shiftl_mul_pow2 by lia. split_and!; try done. zdm.
  - exists [a mod 4 * 8 + b / 32; b mod 32]. rewrite decs_app, D. cbn -[Z.mul].
    autorewrite with bits.
    rewrite (unglue (a / 4) 2 _ a), (glue (a mod 4) 3 _ (b / 32)) by zdm.
    rewrite (unglue _ 5 (b mod 32) b) by zdm.
    split_and!; [by rewrite chars_app|digits_ok|done..|].
    by rewrite <-app_assoc.
Qed.

Lemma sim_run l : is_bytes l -> exists ds, sim l (fold_left enc_step l ([], 0, 0)) ds.
Proof.
  induction l as [|b l IH] using rev_ind; intros Hl.
  { exists []. cbn. split_and!; (done || constructor). }
  apply is_bytes_app in Hl as [Hl [Hb _]%is_bytes_cons]. destruct (IH Hl) as [ds Hds].
  rewrite fold_left_app. cbn [fold_left].
  destruct (sim_step _ _ _ _ Hds Hb) as [ds' Hds']. by exists (ds ++ ds').
Qed.

Lemma bad_padding_spec n rest :
  bad_padding n (repeat EQ n ++ rest) = negb (decode32 rest.[0] =? -1).
Proof. induction n as [|n IH]; [done|]. cbn [repeat app bad_padding tail]. by rewrite IH. Qed.

Lemma sim_finish l e ds rest :
  sim l e ds -> decode32 rest.[0] = -1 ->
  dec_finish (dec_loop (enc_finish e ++ rest) ([], 0, 0)) = (l, false).
Proof.
  destruct e as [[out m] le]. unfold sim. destruct (decs ds) as [[vch md] ld] eqn:D.
  intros (-> & Hds & Hm & -> & Hst) Hr.
  assert (Hstop : forall p st, decode32 p.[0] = -1 -> dec_loop p st = (p, st)).
  { intros [|c p] st; [done|]. rewrite nthZ_0. intros H. cbn. by rewrite H. }
  assert (Hpad : forall n st, dec_loop (repeat EQ n ++ rest) st = (repeat EQ n ++ rest, st)).
  { intros [|n] st; by apply Hstop. }
  assert (Hlast : forall x p, 0 <= x < 32 ->
    dec_loop ((chars ds ++ [pbase32.[x]] ++ p) ++ rest) ([], 0, 0)
    = dec_loop (p ++ rest) (dec_step (decs ds) x)).
  { intros x p Hx. change [pbase32.[x]] with (chars [x]).
    rewrite <-!app_assoc, app_assoc, <-chars_app, dec_loop_chars.
    - rewrite fold_left_app. done.
    - digits_ok. }
  unfold enc_finish.
  mode_cases m; simp_bits; try (destruct Hst as (a & -> & Ha & -> & ->); simp_bits); try subst vch.
  { rewrite dec_loop_chars by done. fold (decs ds). rewrite D, Hstop by done. done. }
  all: rewrite Hlast, D by zdm; unfold nPadding; autorewrite with nthz; rewrite Hpad;
    unfold dec_step; cbn [Z.eqb Pos.eqb]; autorewrite with bits; unfold dec_finish;
    cbn [Z.eqb Pos.eqb orb]; rewrite bad_padding_spec, Hr.
  - rewrite (unglue (a / 8) 3 _ a) by zdm. by replace (a mod 8 * 4 mod 4) with 0 by zdm.
  - rewrite (unglue (a / 2) 1 _ a) by zdm. by replace (a mod 2 * 16 mod 16) with 0 by zdm.
  - rewrite (unglue (a / 16) 4 _ a) by zdm. by replace (a mod 16 * 2 mod 2) with 0 by zdm.
  - rewrite (unglue (a / 4) 2 _ a) by zdm. by replace (a mod 4 * 8 mod 8) with 0 by zdm.
Qed.

(** [DecodeBase32] returns the bytes [EncodeBase32] encoded, whatever follows. *)
Theorem DecodeBase32_EncodeBase32 v rest :
  is_bytes v -> decode32 rest.[0] = -1 -> DecodeBase32 (EncodeBase32 v ++ rest) = (v, false).
Proof.
  intros Hv Hr. destruct (sim_run v Hv) as [ds Hds]. by apply (sim_finish v _ ds).
Qed.

Lemma DecodeBase32_EncodeBase32_witness :
  is_bytes (lit "tip") /\ DecodeBase32 (EncodeBase32 (lit "tip") ++ lit ".onion") = (lit "tip", false).
Proof.
  split; [apply (bool_decide_unpack _); by vm_compute|].
  apply DecodeBase32_EncodeBase32; [apply (bool_decide_unpack _); by vm_compute|by vm_compute].
Defined.

End Base32.
