(* ===== verification/NetAddr.v ===== *)
(** Network addresses: src/netbase.cpp 540-1110.

    A [CNetAddr] is its 16 bytes [ip] (IPv4 mapped into ::ffff:0:0/96, Tor into OnionCat's
    range); a [CService] adds a port.  [enum Network] is declared in netbase.h, which is not
    part of the tree: the enumerators are the constructors below and the numbers they stand
    for are the interface [NetworkEnum]. *)

From S2P Require Import Prelude Codec.

Inductive Network := NET_UNROUTABLE | NET_IPV4 | NET_IPV6 | NET_TOR.

#[global] Instance Network_eq_dec : EqDecision Network.
Proof. solve_decision. Defined.

(** The numeric values of the enumerators, as they are written into group identifiers. *)
Class NetworkEnum := {
  net_val : Network -> Z;
  net_val_range n : 0 <= net_val n < 255;
  net_val_inj n m : net_val n = net_val m -> n = m;
}.

Abbreviation CNetAddr := bytes.

(** What every [CNetAddr] object is: an array of 16 [unsigned char]. *)
Definition wf_addr (ip : CNetAddr) : Prop := length ip = 16%nat /\ is_bytes ip.

#[global] Instance wf_addr_dec ip : Decision (wf_addr ip).
Proof. unfold wf_addr. apply _. Defined.

(** [memcmp(a, b, n) == 0] and the sign of [memcmp]: bytewise lexicographic order. *)
Definition memeq (a b : bytes) : bool := bool_decide (a = b).

Fixpoint memlt (a b : bytes) : bool :=
  match a, b with
  | x :: a', y :: b' => (x <? y) || ((x =? y) && memlt a' b')
  | _, _ => false
  end.

Module CNetAddr.

Definition pchIPv4 : bytes := [0; 0; 0; 0; 0; 0; 0; 0; 0; 0; 0xff; 0xff].
Definition pchOnionCat : bytes := [0xFD; 0x87; 0xD8; 0x7E; 0xEB; 0x43].

Definition Init : CNetAddr := repeat 0 16.

Definition of_in_addr (ipv4 : bytes) : CNetAddr := pchIPv4 ++ ipv4.

(** [SetSpecial]: [Some ip'] when it returns true with the new contents, [None] for false. *)
Definition SetSpecial (strName : bytes) : option CNetAddr :=
  if (6 <? lenZ strName)
     && bool_decide (drop (length strName - 6) strName = lit ".onion") then
    let vchAddr := fst (Base32.DecodeBase32 (take (length strName - 6) strName)) in
    if negb (lenZ vchAddr =? 16 - lenZ pchOnionCat) then None
    else Some (pchOnionCat ++ vchAddr)
  else None.

Section Queries.
Variable ip : CNetAddr.

Definition GetByte (n : Z) : Z := ip.[15 - n].

Definition IsIPv4 : bool := memeq (take 12 ip) pchIPv4.
Definition IsTor : bool := memeq (take 6 ip) pchOnionCat.
Definition IsIPv6 : bool := negb IsIPv4 && negb IsTor.

Definition IsRFC1918 : bool :=
  IsIPv4 && (
    (GetByte 3 =? 10) ||
    ((GetByte 3 =? 192) && (GetByte 2 =? 168)) ||
    ((GetByte 3 =? 172) && ((16 <=? GetByte 2) && (GetByte 2 <=? 31)))).
Definition IsRFC3927 : bool := IsIPv4 && ((GetByte 3 =? 169) && (GetByte 2 =? 254)).
Definition IsRFC3849 : bool :=
  (GetByte 15 =? 0x20) && (GetByte 14 =? 0x01) && (GetByte 13 =? 0x0D) && (GetByte 12 =? 0xB8).
Definition IsRFC3964 : bool := (GetByte 15 =? 0x20) && (GetByte 14 =? 0x02).
Definition IsRFC6052 : bool := memeq (take 12 ip) [0; 0x64; 0xFF; 0x9B; 0; 0; 0; 0; 0; 0; 0; 0].
Definition IsRFC4380 : bool :=
  (GetByte 15 =? 0x20) && (GetByte 14 =? 0x01) && (GetByte 13 =? 0) && (GetByte 12 =? 0).
Definition IsRFC4862 : bool := memeq (take 8 ip) [0xFE; 0x80; 0; 0; 0; 0; 0; 0].
Definition IsRFC4193 : bool := Z.land (GetByte 15) 0xFE =? 0xFC.
Definition IsRFC6145 : bool := memeq (take 12 ip) [0; 0; 0; 0; 0; 0; 0; 0; 0xFF; 0xFF; 0; 0].
Definition IsRFC4843 : bool :=
  (GetByte 15 =? 0x20) && (GetByte 14 =? 0x01) && (GetByte 13 =? 0x00)
  && (Z.land (GetByte 12) 0xF0 =? 0x10).

Definition pchLocal : bytes := repeat 0 15 ++ [1].

Definition IsLocal : bool :=
  (IsIPv4 && ((GetByte 3 =? 127) || (GetByte 3 =? 0))) || memeq ip pchLocal.

Definition IsMulticast : bool :=
  (IsIPv4 && (Z.land (GetByte 3) 0xF0 =? 0xE0)) || (GetByte 15 =? 0xFF).

(** [INADDR_NONE] is 255.255.255.255. *)
Definition IsValid : bool :=
  if memeq (take 9 ip) (drop 3 pchIPv4) then false
  else if memeq ip (repeat 0 16) then false
  else if IsRFC3849 then false
  else if IsIPv4 then
    if memeq (drop 12 ip) [255; 255; 255; 255] then false
    else if memeq (drop 12 ip) [0; 0; 0; 0] then false
    else true
  else true.

Definition IsRoutable : bool :=
  IsValid && negb (IsRFC1918 || IsRFC3927 || IsRFC4862 || (IsRFC4193 && negb IsTor)
                   || IsRFC4843 || IsLocal).

Definition GetNetwork : Network :=
  if negb IsRoutable then NET_UNROUTABLE
  else if IsIPv4 then NET_IPV4
  else if IsTor then NET_TOR
  else NET_IPV6.

Definition GetInAddr : option bytes := if negb IsIPv4 then None else Some (drop 12 ip).

(** The [while (nBits >= 8)] loop and the final partial byte of [GetGroup]; [fuel] bounds the
    iterations, 8 is enough for every [nBits] the function uses. *)
Fixpoint group_bytes (fuel : nat) (nStartByte nBits : Z) : bytes :=
  match fuel with
  | O => []
  | S fuel' =>
    if 8 <=? nBits then GetByte (15 - nStartByte) :: group_bytes fuel' (nStartByte + 1) (nBits - 8)
    else if 0 <? nBits then
      [Z.lor (GetByte (15 - nStartByte)) (Z.shiftl 1 nBits - 1)]
    else []
  end.

(** The assignments to [nClass], [nStartByte] and [nBits], then the bytes they select. *)
Definition GetGroup `{NetworkEnum} : bytes :=
  let emit nClass nStartByte nBits := nClass :: group_bytes 8 nStartByte nBits in
  let '(nClass, nStartByte, nBits) :=
    if IsLocal then (255, 0, 0) else (net_val NET_IPV6, 0, 16) in
  if negb IsRoutable then emit (net_val NET_UNROUTABLE) nStartByte 0
  else if IsIPv4 || IsRFC6145 || IsRFC6052 then emit (net_val NET_IPV4) 12 nBits
  else if IsRFC3964 then emit (net_val NET_IPV4) 2 nBits
  else if IsRFC4380 then
    [net_val NET_IPV4; Z.lxor (GetByte 3) 0xFF; Z.lxor (GetByte 2) 0xFF]
  else if IsTor then emit (net_val NET_TOR) 6 4
  else if (GetByte 15 =? 0x20) && (GetByte 14 =? 0x11) && (GetByte 13 =? 0x04)
          && (GetByte 12 =? 0x70)
  then emit nClass nStartByte 36
  else emit nClass nStartByte 32.

End Queries.

(** [ToStringIP] on a Tor address (the other addresses are printed by [getnameinfo]). *)
Definition ToStringIP_tor (ip : CNetAddr) : bytes :=
  Base32.EncodeBase32 (take 10 (drop 6 ip)) ++ lit ".onion".

(** [GetExtNetwork]: the networks and its two private extensions. *)
Inductive ExtNetwork := Net (n : Network) | NET_UNKNOWN | NET_TEREDO.

Definition GetExtNetwork (addr : option CNetAddr) : ExtNetwork :=
  match addr with
  | None => NET_UNKNOWN
  | Some ip => if IsRFC4380 ip then NET_TEREDO else Net (GetNetwork ip)
  end.

(** [enum Reachability], in its order. *)
Definition REACH_UNREACHABLE := 0.
Definition REACH_DEFAULT := 1.
Definition REACH_TEREDO := 2.
Definition REACH_IPV6_WEAK := 3.
Definition REACH_IPV4 := 4.
Definition REACH_IPV6_STRONG := 5.
Definition REACH_PRIVATE := 6.

Definition GetReachabilityFrom (ip : CNetAddr) (paddrPartner : option CNetAddr) : Z :=
  if negb (IsRoutable ip) then REACH_UNREACHABLE
  else
    let ourNet := GetExtNetwork (Some ip) in
    let theirNet := GetExtNetwork paddrPartner in
    let fTunnel := IsRFC3964 ip || IsRFC6052 ip || IsRFC6145 ip in
    match theirNet, ourNet with
    | Net NET_IPV4, Net NET_IPV4 => REACH_IPV4
    | Net NET_IPV4, _ => REACH_DEFAULT
    | Net NET_IPV6, NET_TEREDO => REACH_TEREDO
    | Net NET_IPV6, Net NET_IPV4 => REACH_IPV4
    | Net NET_IPV6, Net NET_IPV6 => if fTunnel then REACH_IPV6_WEAK else REACH_IPV6_STRONG
    | Net NET_IPV6, _ => REACH_DEFAULT
    | Net NET_TOR, Net NET_IPV4 => REACH_IPV4
    | Net NET_TOR, Net NET_TOR => REACH_PRIVATE
    | Net NET_TOR, _ => REACH_DEFAULT
    | NET_TEREDO, NET_TEREDO => REACH_TEREDO
    | NET_TEREDO, Net NET_IPV6 => REACH_IPV6_WEAK
    | NET_TEREDO, Net NET_IPV4 => REACH_IPV4
    | NET_TEREDO, _ => REACH_DEFAULT
    | _, NET_TEREDO => REACH_TEREDO
    | _, Net NET_IPV6 => REACH_IPV6_WEAK
    | _, Net NET_IPV4 => REACH_IPV4
    | _, Net NET_TOR => REACH_PRIVATE
    | _, _ => REACH_DEFAULT
    end.

End CNetAddr.

Record CService := mkService { sv_ip : CNetAddr; port : Z }.

#[global] Instance CService_eq_dec : EqDecision CService.
Proof. solve_decision. Defined.

Module CService.

Definition eqb (a b : CService) : bool := memeq (sv_ip a) (sv_ip b) && (port a =? port b).
Definition neqb (a b : CService) : bool :=
  negb (memeq (sv_ip a) (sv_ip b)) || negb (port a =? port b).
Definition ltb (a b : CService) : bool :=
  memlt (sv_ip a) (sv_ip b) || (memeq (sv_ip a) (sv_ip b) && (port a <? port b)).

Definition GetKey (s : CService) : bytes :=
  take 16 (sv_ip s) ++ [u8 (port s / 0x100); u8 (Z.land (port s) 0x0FF)].

Definition wf (s : CService) : Prop := wf_addr (sv_ip s) /\ in_u 16 (port s).

End CService.

(** ** Orders and keys *)

Lemma memeq_true a b : memeq a b = true <-> a = b.
Proof. unfold memeq. apply bool_decide_eq_true. Qed.

Lemma memlt_irrefl a : memlt a a = false.
Proof. induction a as [|x a IH]; [done|]. cbn. by rewrite IH, Z.ltb_irrefl, andb_false_r. Qed.

Lemma memlt_cons x a y b :
  memlt (x :: a) (y :: b) = true <-> x < y \/ (x = y /\ memlt a b = true).
Proof. cbn. by rewrite orb_true_iff, andb_true_iff, Z.ltb_lt, Z.eqb_eq. Qed.

Lemma memlt_trans a b c : memlt a b = true -> memlt b c = true -> memlt a c = true.
Proof.
  revert b c. induction a as [|x a IH]; intros [|y b] [|z c]; try done.
  rewrite !memlt_cons. intros [?|[-> ?]] [?|[-> ?]]; first [left; lia|right; eauto].
Qed.

Lemma memlt_total a b : length a = length b -> memlt a b = true \/ a = b \/ memlt b a = true.
Proof.
  revert b. induction a as [|x a IH]; intros [|y b]; try done; [auto|].
  intros [= Hl]. rewrite !memlt_cons. destruct (Z.lt_total x y) as [?|[->|?]]; [auto| |auto].
  destruct (IH b Hl) as [?|[->|?]]; auto.
Qed.

Module ServiceOrder.
Import CService.

Lemma eqb_true a b : eqb a b = true <-> a = b.
Proof.
  unfold eqb. rewrite andb_true_iff, memeq_true, Z.eqb_eq. destruct a, b; cbn.
  split; [by intros [-> ->]|by intros [= -> ->]].
Qed.

Lemma neqb_false a b : neqb a b = false <-> a = b.
Proof. unfold neqb. rewrite <-negb_andb, negb_false_iff. apply eqb_true. Qed.

Lemma ltb_true a b :
  ltb a b = true
  <-> memlt (sv_ip a) (sv_ip b) = true \/ (sv_ip a = sv_ip b /\ port a < port b).
Proof. unfold ltb. by rewrite orb_true_iff, andb_true_iff, memeq_true, Z.ltb_lt. Qed.

Lemma ltb_irrefl a : ltb a a = false.
Proof. apply not_true_is_false. rewrite ltb_true, memlt_irrefl. intros [?|[_ ?]]; [done|lia]. Qed.

Lemma ltb_trans a b c : ltb a b = true -> ltb b c = true -> ltb a c = true.
Proof.
  rewrite !ltb_true. intros [H|[H ?]] [H'|[H' ?]].
  - left. by eapply memlt_trans.
  - left. by rewrite <-H'.
  - left. by rewrite H.
  - right. split; [congruence|lia].
Qed.

#[export] Instance ltb_strict : StrictOrder (fun a b => ltb a b = true).
Proof.
  split; [|exact ltb_trans]. intros a. unfold complement. by rewrite ltb_irrefl.
Qed.

(** The comparison operators of [CService] are coherent on services whose address is a
    16 byte array: [==] is equality and [!=] its negation, and [<] is a strict total order
    (irreflexive, transitive, any two services related by exactly one of [<], [==], [>]), which
    is what [std::map] and [std::set] keyed by services rely on. *)
Theorem operator_order a b c :
  wf a -> wf b ->
  (eqb a b = true <-> a = b) /\ neqb a b = negb (eqb a b) /\
  ltb a a = false /\ (ltb a b = true -> ltb b c = true -> ltb a c = true) /\
  (ltb a b = true -> ltb b a = false /\ eqb a b = false) /\
  (ltb a b = true \/ eqb a b = true \/ ltb b a = true).
Proof.
  intros [[Ha _] _] [[Hb _] _]. split_and!.
  - apply eqb_true.
  - unfold neqb, eqb. by rewrite negb_andb.
  - apply ltb_irrefl.
  - apply ltb_trans.
  - intros H. split; apply not_true_is_false; intros H'.
    + pose proof (ltb_trans _ _ _ H H') as E. by rewrite ltb_irrefl in E.
    + apply eqb_true in H' as ->. by rewrite ltb_irrefl in H.
  - rewrite !ltb_true, eqb_true.
    destruct (memlt_total (sv_ip a) (sv_ip b)) as [?|[E|?]]; [congruence|auto| |auto].
    destruct (Z.lt_total (port a) (port b)) as [?|[?|?]]; [auto| |auto].
    right; left. destruct a, b; simpl in *; congruence.
Qed.

Definition service_a : CService := mkService (CNetAddr.of_in_addr [8; 8; 8; 8]) 8333.
Definition service_b : CService := mkService (CNetAddr.of_in_addr [8; 8; 8; 8]) 8334.

Lemma operator_order_witness : wf service_a /\ wf service_b /\ ltb service_a service_b = true /\
  ltb service_b service_a = false.
Proof.
  assert (Ha : wf service_a) by (by repeat constructor).
  assert (Hb : wf service_b) by (by repeat constructor).
  assert (Hlt : ltb service_a service_b = true) by (by vm_compute).
  split_and!; [done|done|done|].
  apply (operator_order service_a service_b service_a Ha Hb). done.
Defined.

(** [GetKey] is injective on well-formed services: 18 bytes that determine the address
    and the port. *)
Theorem GetKey_inj a b :
  wf a -> wf b -> length (GetKey a) = 18%nat /\ is_bytes (GetKey a) /\
  (GetKey a = GetKey b -> a = b).
Proof.
  intros [[Ha Ha'] Hpa] [[Hb _] Hpb]. unfold GetKey.
  rewrite !take_ge by lia. split_and!.
  - rewrite length_app, Ha. done.
  - apply is_bytes_app. split; [done|]. repeat constructor; apply wrapu_range; lia.
  - intros [Hip Hp]%app_inj_1; [|congruence].
    destruct a as [ia pa], b as [ib pb]; simpl in *. subst ib. f_equal.
    change 0x0FF with (2 ^ 8 - 1) in Hp. rewrite !land_ones_mod in Hp by lia.
    injection Hp as H1 H2. revert H1 H2 Hpa Hpb. zdm.
Qed.

Lemma GetKey_inj_witness : wf service_a /\ wf service_b /\ GetKey service_a <> GetKey service_b.
Proof.
  assert (Ha : wf service_a) by (by repeat constructor).
  assert (Hb : wf service_b) by (by repeat constructor).
  split_and!; [done|done|]. intros H. by apply (GetKey_inj service_a service_b Ha Hb) in H.
Defined.

End ServiceOrder.

(** ** Tor addresses and their text *)

Module TorText.
Import CNetAddr.

Lemma EncodeBase32_nonempty v : is_bytes v -> v <> [] -> Base32.EncodeBase32 v <> [].
Proof.
  intros Hv Hne He. destruct (Base32.sim_run v Hv) as [ds Hds].
  pose proof (Base32.sim_finish v _ ds [] Hds eq_refl) as H.
  fold (Base32.EncodeBase32 v) in H. rewrite He in H. cbn in H. congruence.
Qed.

(** [SetSpecial] on an encoded name: what it decodes is what was encoded. *)
Lemma SetSpecial_onion v :
  is_bytes v -> v <> [] ->
  SetSpecial (Base32.EncodeBase32 v ++ lit ".onion")
  = if lenZ v =? 10 then Some (pchOnionCat ++ v) else None.
Proof.
  intros Hv Hne. unfold SetSpecial.
  set (s := Base32.EncodeBase32 v).
  assert (Hl : (length (s ++ lit ".onion") - 6)%nat = length s) by (rewrite length_app; simpl; lia).
  rewrite Hl, drop_app_length, take_app_length, bool_decide_true, andb_true_r by done.
  assert (0 < length s)%nat.
  { destruct s eqn:E; [|simpl; lia]. by apply EncodeBase32_nonempty in E. }
  assert (E6 : (6 <? lenZ (s ++ lit ".onion")) = true).
  { apply Z.ltb_lt. unfold lenZ. rewrite length_app. simpl. lia. }
  rewrite E6.
  destruct (Base32.sim_run v Hv) as [ds Hds].
  pose proof (Base32.sim_finish v _ ds [] Hds eq_refl) as Hdec.
  fold (Base32.EncodeBase32 v) in Hdec. fold s in Hdec. rewrite app_nil_r in Hdec.
  unfold Base32.DecodeBase32. rewrite Hdec. cbn [fst].
  change (16 - lenZ pchOnionCat) with 10. by destruct (_ =? 10).
Qed.

(** The text of a Tor address ([ToStringIP]: the base 32 encoding of the last ten bytes
    and ".onion") is read back by [SetSpecial] as the same address; and a name
    "<base32 of v>.onion" is accepted exactly when [v] has ten bytes. *)
Theorem SetSpecial_ToStringIP ip v :
  wf_addr ip -> IsTor ip = true -> is_bytes v -> v <> [] ->
  SetSpecial (ToStringIP_tor ip) = Some ip /\
  SetSpecial (Base32.EncodeBase32 v ++ lit ".onion")
  = if lenZ v =? 10 then Some (pchOnionCat ++ v) else None.
Proof.
  intros [Hl Hb] Ht%memeq_true Hv Hne. split; [|by apply SetSpecial_onion].
  unfold ToStringIP_tor.
  assert (Hd : length (drop 6 ip) = 10%nat) by (rewrite length_drop; lia).
  assert (Hip : ip = pchOnionCat ++ drop 6 ip) by (by rewrite <-Ht, take_drop).
  rewrite take_ge by lia. rewrite SetSpecial_onion.
  - unfold lenZ. rewrite Hd. by rewrite <-Hip.
  - rewrite Hip in Hb. by apply is_bytes_app in Hb as [_ ?].
  - intros E. by rewrite E in Hd.
Qed.

Definition tor_addr : CNetAddr := pchOnionCat ++ [1; 2; 3; 4; 5; 6; 7; 8; 9; 250].

Lemma SetSpecial_ToStringIP_witness :
  wf_addr tor_addr /\ SetSpecial (ToStringIP_tor tor_addr) = Some tor_addr /\
  SetSpecial (Base32.EncodeBase32 [7] ++ lit ".onion") = None.
Proof.
  assert (H : wf_addr tor_addr) by (apply (bool_decide_unpack _); by vm_compute).
  assert (H7 : is_bytes [7]) by (apply (bool_decide_unpack _); by vm_compute).
  destruct (SetSpecial_ToStringIP tor_addr [7] H eq_refl H7 ltac:(done)) as [H1 H2].
  split_and!; [exact H|exact H1|exact H2].
Defined.

End TorText.

(** ** Address groups *)

Module Group.
Import CNetAddr.

(** What [GetGroup] distinguishes: the top 16 bits of an IPv4 address, native or embedded in a
    mapped, translated, 6to4 or Teredo address; the top 4 bits of an onion address; the top 36
    bits of a Hurricane Electric address and the top 32 of the other IPv6 addresses. *)
Inductive group :=
  | g_unroutable
  | g_ipv4 (a b : Z)
  | g_tor (hi : Z)
  | g_he (hi : Z)
  | g_ipv6 (prefix : bytes).

Definition he_prefix : bytes := [0x20; 0x11; 0x04; 0x70].

Definition group_of (ip : CNetAddr) : group :=
  if negb (IsRoutable ip) then g_unroutable
  else if IsIPv4 ip || IsRFC6145 ip || IsRFC6052 ip then g_ipv4 ip.[12] ip.[13]
  else if IsRFC3964 ip then g_ipv4 ip.[2] ip.[3]
  else if IsRFC4380 ip then g_ipv4 (255 - ip.[12]) (255 - ip.[13])
  else if IsTor ip then g_tor (ip.[6] / 16)
  else if decide (take 4 ip = he_prefix) then g_he (ip.[4] / 16)
  else g_ipv6 (take 4 ip).

Section Enum.
Context `{NetworkEnum}.

Definition group_code (g : group) : bytes :=
  match g with
  | g_unroutable => [net_val NET_UNROUTABLE]
  | g_ipv4 a b => [net_val NET_IPV4; a; b]
  | g_tor hi => [net_val NET_TOR; hi * 16 + 15]
  | g_he hi => net_val NET_IPV6 :: he_prefix ++ [hi * 16 + 15]
  | g_ipv6 prefix => net_val NET_IPV6 :: prefix
  end.

Definition wf_group (g : group) : Prop :=
  match g with g_ipv6 prefix => length prefix = 4%nat | _ => True end.

Lemma group_code_inj g h : wf_group g -> wf_group h -> group_code g = group_code h -> g = h.
Proof.
  destruct g, h; cbn; intros Hg Hh E; try done;
    try (injection E as E; apply net_val_inj in E; done);
    try (injection E; intros; subst; done).
  - injection E; intros; f_equal; lia.
  - injection E; intros; f_equal; lia.
Qed.

Lemma lor_15 b : in_u 8 b -> Z.lor b 15 = b / 16 * 16 + 15.
Proof.
  intros Hb. apply Z.eqb_eq.
  apply (byte_forallb (fun b => Z.lor b 15 =? b / 16 * 16 + 15)); [by vm_compute|done].
Qed.

Lemma lxor_255 b : in_u 8 b -> Z.lxor b 255 = 255 - b.
Proof.
  intros Hb. apply Z.eqb_eq.
  apply (byte_forallb (fun b => Z.lxor b 255 =? 255 - b)); [by vm_compute|done].
Qed.

Lemma IsLocal_unroutable ip : IsLocal ip = true -> IsRoutable ip = false.
Proof.
  intros Hl. unfold IsRoutable. rewrite Hl, !orb_true_r. by rewrite andb_false_r.
Qed.

Lemma he_test a b c d :
  (a =? 0x20) && (b =? 0x11) && (c =? 0x04) && (d =? 0x70) = bool_decide ([a; b; c; d] = he_prefix).
Proof.
  case_bool_decide as Ehe; [by injection Ehe as -> -> -> ->|].
  apply not_true_is_false. intros Et. zbool. by subst.
Qed.

Lemma GetGroup_code ip : wf_addr ip -> GetGroup ip = group_code (group_of ip) /\ wf_group (group_of ip).
Proof.
  intros [Hl Hb]. do 16 (destruct ip as [|? ip]; [done|]). destruct ip; [|done]. clear Hl.
  unfold is_bytes in Hb. rewrite !Forall_cons in Hb. destruct_and!.
  unfold GetGroup, group_of.
  destruct (IsRoutable _) eqn:Er; cbn [negb]; [|by destruct (IsLocal _)].
  destruct (IsLocal _) eqn:Eloc; [by rewrite IsLocal_unroutable in Er|].
  destruct (_ || _ || _); [done|]. destruct (IsRFC3964 _); [done|].
  destruct (IsRFC4380 _). { cbn. by rewrite !lxor_255 by done. }
  destruct (IsTor _). { cbn. by rewrite lor_15 by done. }
  unfold GetByte. cbn [Z.sub nthZ nth Z.ltb Z.to_nat take Pos.to_nat].
  autorewrite with nthz. rewrite he_test. destruct (decide _) as [Ehe|Ehe].
  - injection Ehe as -> -> -> ->. cbn. by rewrite lor_15 by done.
  - by rewrite bool_decide_false.
Qed.

(** Two addresses have the same [GetGroup] exactly when they fall in the same group of
    the specification [group_of]: all unroutable addresses together, IPv4 addresses (native or
    tunnelled) by their top 16 bits, onion addresses by their top 4 bits, Hurricane Electric
    addresses by their top 36 bits and other IPv6 addresses by their top 32 bits. *)
Theorem GetGroup_spec a b :
  wf_addr a -> wf_addr b -> (GetGroup a = GetGroup b <-> group_of a = group_of b).
Proof.
  intros [-> Ha]%GetGroup_code [-> Hb]%GetGroup_code.
  split; [by apply group_code_inj|congruence].
Qed.

End Enum.

#[local] Program Instance enum0 : NetworkEnum :=
  {| net_val n := match n with NET_UNROUTABLE => 0 | NET_IPV4 => 1 | NET_IPV6 => 2 | NET_TOR => 3 end |}.
Next Obligation. by intros []. Qed.
Next Obligation. by intros [] []. Qed.

Lemma GetGroup_spec_witness :
  GetGroup (of_in_addr [8; 8; 8; 8]) = GetGroup ([0x20; 0x02; 8; 8] ++ repeat 1 12) /\
  GetGroup (of_in_addr [8; 8; 8; 8]) <> GetGroup (of_in_addr [8; 9; 8; 8]).
Proof.
  assert (H1 : wf_addr (of_in_addr [8; 8; 8; 8])) by (apply (bool_decide_unpack _); by vm_compute).
  assert (H2 : wf_addr (of_in_addr [8; 9; 8; 8])) by (apply (bool_decide_unpack _); by vm_compute).
  assert (H3 : wf_addr ([0x20; 0x02; 8; 8] ++ repeat 1 12))
    by (apply (bool_decide_unpack _); by vm_compute).
  split.
  - apply (GetGroup_spec _ _ H1 H3). by vm_compute.
  - intros E%(GetGroup_spec _ _ H1 H2). by vm_compute in E.
Defined.

End Group.
