(* ===== verification/AddrMan.v ===== *)
(** The stochastic address manager: src/addrman.h and src/addrman.cpp.

    State: record [CAddrMan] (the member variables of the class); an entry is a [CAddrInfo].
    [std::map<int, CAddrInfo>] and [std::map<CNetAddr, int>] are [gmap]s, the "tried" buckets
    are lists, the "new" buckets are [gset]s that the loops visit in ascending order.  The
    member functions run in the monad of Monad.v over the object and the environment of
    Rand.v; a failing [assert] is [None].

    Parameters: the digest [Hash(ss.begin(), ss.end()).Get64()] and the stream operators of
    CDataStream (class [Hasher]); the width of the field [CAddress::nTime] and the constant
    [NODE_NETWORK] (class [AddressTypes]), which are declared in headers that the tree does not
    have.  Identifiers and counters are [int]s of the source taken as unbounded integers. *)

From S2P Require Import Prelude Monad Rand Codec NetAddr.

Class Hasher := {
  Hash64 : bytes -> Z;          (* Hash(ss.begin(), ss.end()).Get64() *)
  ser_vector : bytes -> bytes;  (* ss << std::vector<unsigned char> *)
  ser_uint64 : Z -> bytes;      (* ss << uint64 *)
}.

Class AddressTypes := {
  as_nTime : Z -> Z;            (* conversion of an int64 to the type of CAddress::nTime *)
  NODE_NETWORK : Z;
}.

Record CAddress := mkAddress {
  ca_service : CService;
  nServices : Z;
  nTime : Z;
  nLastTry : Z;
}.

Record CAddrInfo := mkInfo {
  ca : CAddress;
  source : CNetAddr;
  nLastSuccess : Z;
  nAttempts : Z;
  nRefCount : Z;
  fInTried : bool;
  nRandomPos : Z;
}.

Definition ADDRMAN_TRIED_BUCKET_COUNT : Z := 64.
Definition ADDRMAN_TRIED_BUCKET_SIZE : Z := 64.
Definition ADDRMAN_NEW_BUCKET_COUNT : Z := 256.
Definition ADDRMAN_NEW_BUCKET_SIZE : Z := 64.
Definition ADDRMAN_TRIED_BUCKETS_PER_GROUP : Z := 4.
Definition ADDRMAN_NEW_BUCKETS_PER_SOURCE_GROUP : Z := 32.
Definition ADDRMAN_NEW_BUCKETS_PER_ADDRESS : Z := 4.
Definition ADDRMAN_TRIED_ENTRIES_INSPECT_ON_EVICT : Z := 4.
Definition ADDRMAN_HORIZON_DAYS : Z := 30.
Definition ADDRMAN_RETRIES : Z := 3.
Definition ADDRMAN_MAX_FAILURES : Z := 10.
Definition ADDRMAN_MIN_FAIL_DAYS : Z := 7.
Definition ADDRMAN_GETADDR_MAX_PCT : Z := 23.
Definition ADDRMAN_GETADDR_MAX : Z := 2500.

(** Assignments to one field. *)
Definition set_address (f : CAddress -> CAddress) (i : CAddrInfo) : CAddrInfo :=
  mkInfo (f (ca i)) (source i) (nLastSuccess i) (nAttempts i) (nRefCount i) (fInTried i) (nRandomPos i).
Definition set_nServices v := set_address (fun a => mkAddress (ca_service a) v (nTime a) (nLastTry a)).
Definition set_nTime v := set_address (fun a => mkAddress (ca_service a) (nServices a) v (nLastTry a)).
Definition set_nLastTry v := set_address (fun a => mkAddress (ca_service a) (nServices a) (nTime a) v).
Definition set_nLastSuccess v (i : CAddrInfo) : CAddrInfo :=
  mkInfo (ca i) (source i) v (nAttempts i) (nRefCount i) (fInTried i) (nRandomPos i).
Definition set_nAttempts v (i : CAddrInfo) : CAddrInfo :=
  mkInfo (ca i) (source i) (nLastSuccess i) v (nRefCount i) (fInTried i) (nRandomPos i).
Definition set_nRefCount v (i : CAddrInfo) : CAddrInfo :=
  mkInfo (ca i) (source i) (nLastSuccess i) (nAttempts i) v (fInTried i) (nRandomPos i).
Definition set_fInTried v (i : CAddrInfo) : CAddrInfo :=
  mkInfo (ca i) (source i) (nLastSuccess i) (nAttempts i) (nRefCount i) v (nRandomPos i).
Definition set_nRandomPos v (i : CAddrInfo) : CAddrInfo :=
  mkInfo (ca i) (source i) (nLastSuccess i) (nAttempts i) (nRefCount i) (fInTried i) v.

(** The [CNetAddr], the [CService] and the [CAddress::nTime] of an entry (base classes). *)
Definition service (i : CAddrInfo) : CService := ca_service (ca i).
Definition netaddr (i : CAddrInfo) : CNetAddr := sv_ip (service i).
Definition time (i : CAddrInfo) : Z := nTime (ca i).
Definition lastTry (i : CAddrInfo) : Z := nLastTry (ca i).

(** The constructors [CAddrInfo(addrIn, addrSource)] and [CAddrInfo()]. *)
Definition new_info (addrIn : CAddress) (addrSource : CNetAddr) : CAddrInfo :=
  mkInfo (mkAddress (ca_service addrIn) (nServices addrIn) (nTime addrIn) 0) addrSource 0 0 0 false (-1).

Definition default_address `{AddressTypes} : CAddress :=
  mkAddress (mkService CNetAddr.Init 0) NODE_NETWORK 100000000 0.
Definition default_info `{AddressTypes} : CAddrInfo := new_info default_address CNetAddr.Init.

Module CAddrInfo.
Section Buckets.
Context `{Hasher, NetworkEnum}.

Definition GetTriedBucket (i : CAddrInfo) (nKey : bytes) : Z :=
  let hash1 := Hash64 (ser_vector nKey ++ ser_vector (CService.GetKey (service i))) in
  let hash2 := Hash64 (ser_vector nKey ++ ser_vector (CNetAddr.GetGroup (netaddr i))
                       ++ ser_uint64 (hash1 mod ADDRMAN_TRIED_BUCKETS_PER_GROUP)) in
  hash2 mod ADDRMAN_TRIED_BUCKET_COUNT.

Definition GetNewBucket (i : CAddrInfo) (nKey : bytes) (src : CNetAddr) : Z :=
  let vchSourceGroupKey := CNetAddr.GetGroup src in
  let hash1 := Hash64 (ser_vector nKey ++ ser_vector (CNetAddr.GetGroup (netaddr i))
                       ++ ser_vector vchSourceGroupKey) in
  let hash2 := Hash64 (ser_vector nKey ++ ser_vector vchSourceGroupKey
                       ++ ser_uint64 (hash1 mod ADDRMAN_NEW_BUCKETS_PER_SOURCE_GROUP)) in
  hash2 mod ADDRMAN_NEW_BUCKET_COUNT.

(** The overload without a source address uses the entry's own. *)
Definition GetNewBucket_own (i : CAddrInfo) (nKey : bytes) : Z := GetNewBucket i nKey (source i).

End Buckets.

Definition IsTerrible (i : CAddrInfo) (nNow : Z) : bool :=
  if negb (lastTry i =? 0) && (nNow - 60 <=? lastTry i) then false
  else if nNow + 10 * 60 <? time i then true
  else if (time i =? 0) || (ADDRMAN_HORIZON_DAYS * 86400 <? nNow - time i) then true
  else if (nLastSuccess i =? 0) && (ADDRMAN_RETRIES <=? nAttempts i) then true
  else if (ADDRMAN_MIN_FAIL_DAYS * 86400 <? nNow - nLastSuccess i)
          && (ADDRMAN_MAX_FAILURES <=? nAttempts i) then true
  else false.

End CAddrInfo.

Record CAddrMan := mkMan {
  nKey : bytes;
  nIdCount : Z;
  mapInfo : gmap Z CAddrInfo;
  mapAddr : gmap CNetAddr Z;
  vRandom : list Z;
  nTried : Z;
  vvTried : list (list Z);
  nNew : Z;
  vvNew : list (gset Z);
}.

Definition set_mapInfo f (s : CAddrMan) : CAddrMan :=
  mkMan (nKey s) (nIdCount s) (f (mapInfo s)) (mapAddr s) (vRandom s) (nTried s) (vvTried s) (nNew s) (vvNew s).
Definition set_mapAddr f (s : CAddrMan) : CAddrMan :=
  mkMan (nKey s) (nIdCount s) (mapInfo s) (f (mapAddr s)) (vRandom s) (nTried s) (vvTried s) (nNew s) (vvNew s).
Definition set_vRandom f (s : CAddrMan) : CAddrMan :=
  mkMan (nKey s) (nIdCount s) (mapInfo s) (mapAddr s) (f (vRandom s)) (nTried s) (vvTried s) (nNew s) (vvNew s).
Definition set_nIdCount f (s : CAddrMan) : CAddrMan :=
  mkMan (nKey s) (f (nIdCount s)) (mapInfo s) (mapAddr s) (vRandom s) (nTried s) (vvTried s) (nNew s) (vvNew s).
Definition set_nTried f (s : CAddrMan) : CAddrMan :=
  mkMan (nKey s) (nIdCount s) (mapInfo s) (mapAddr s) (vRandom s) (f (nTried s)) (vvTried s) (nNew s) (vvNew s).
Definition set_nNew f (s : CAddrMan) : CAddrMan :=
  mkMan (nKey s) (nIdCount s) (mapInfo s) (mapAddr s) (vRandom s) (nTried s) (vvTried s) (f (nNew s)) (vvNew s).
Definition set_vTried (b : Z) (f : list Z -> list Z) (s : CAddrMan) : CAddrMan :=
  mkMan (nKey s) (nIdCount s) (mapInfo s) (mapAddr s) (vRandom s) (nTried s)
        (alter f (Z.to_nat b) (vvTried s)) (nNew s) (vvNew s).
Definition set_vNew (b : Z) (f : gset Z -> gset Z) (s : CAddrMan) : CAddrMan :=
  mkMan (nKey s) (nIdCount s) (mapInfo s) (mapAddr s) (vRandom s) (nTried s) (vvTried s)
        (nNew s) (alter f (Z.to_nat b) (vvNew s)).
Definition set_info (nId : Z) (f : CAddrInfo -> CAddrInfo) : CAddrMan -> CAddrMan :=
  set_mapInfo (alter f nId).

Definition vTried_at (s : CAddrMan) (b : Z) : list Z := nthZ [] (vvTried s) b.
Definition vNew_at (s : CAddrMan) (b : Z) : gset Z := nthZ ∅ (vvNew s) b.
Definition count (s : CAddrMan) (nId : Z) : bool := bool_decide (is_Some (mapInfo s !! nId)).

(** [std::set<int>] and [std::map<int, _>] are visited in ascending order. *)
Definition ascending (l : list Z) : list Z := merge_sort Z.le l.

Definition key_le {A} (a b : Z * A) : Prop := a.1 <= b.1.
#[global] Instance key_le_dec {A} (a b : Z * A) : Decision (key_le a b).
Proof. unfold key_le. apply _. Defined.
Definition by_key {A} (m : gmap Z A) : list (Z * A) := merge_sort key_le (map_to_list m).

(** The constructor; [key] is what [RAND_bytes] delivers. *)
Definition CAddrMan_new (key : bytes) : CAddrMan :=
  mkMan key 0 ∅ ∅ [] 0 (repeat [] (Z.to_nat ADDRMAN_TRIED_BUCKET_COUNT))
        0 (repeat ∅ (Z.to_nat ADDRMAN_NEW_BUCKET_COUNT)).

(** [CAddrMan::size()]. *)
Definition size (s : CAddrMan) : Z := lenZ (vRandom s).

(** ** The operations *)

Section Ops.
Context `{Hasher, AddressTypes, NetworkEnum, Env : Environment E}.

Abbreviation MM := (M (CAddrMan * E)).

Definition rd {A} (f : CAddrMan -> A) : MM A := fun s => Some (f s.1, s).
Definition upd (f : CAddrMan -> CAddrMan) : MM unit := fun s => Some (tt, (f s.1, s.2)).
Definition rand (n : Z) : MM Z := fun s => let '(r, e) := draw n s.2 in Some (r, (s.1, e)).
Definition now : MM Z := fun s => let '(t, e) := clock s.2 in Some (t, (s.1, e)).

(** [mapInfo[nId]]: [operator[]] inserts a default entry for a missing key.  [deref] reads
    through a pointer or reference to an entry and fails when the entry is gone. *)
Definition info_at (nId : Z) : MM CAddrInfo :=
  m <- rd mapInfo;;
  match m !! nId with
  | Some i => ret i
  | None => upd (set_mapInfo <[nId := default_info]>);;; ret default_info
  end.
Definition deref (nId : Z) : MM CAddrInfo :=
  m <- rd mapInfo;; match m !! nId with Some i => ret i | None => fail end.

Definition Find (addr : CNetAddr) (s : CAddrMan) : option Z :=
  match mapAddr s !! addr with
  | Some nId => if count s nId then Some nId else None
  | None => None
  end.

Definition Create (addr : CAddress) (addrSource : CNetAddr) : MM Z :=
  nId <- rd nIdCount;;
  upd (set_nIdCount (Z.add 1));;;
  upd (set_mapInfo <[nId := new_info addr addrSource]>);;;
  upd (set_mapAddr <[sv_ip (ca_service addr) := nId]>);;;
  pos <- rd size;;
  upd (set_info nId (set_nRandomPos pos));;;
  upd (set_vRandom (fun v => v ++ [nId]));;;
  ret nId.

(** The positions are [unsigned]: a negative [nRandomPos] converts to a number no vector of
    identifiers reaches, so it fails the range check like any other. *)
Definition SwapRandom (nRndPos1 nRndPos2 : Z) : MM unit :=
  if nRndPos1 =? nRndPos2 then ret tt
  else
    v <- rd vRandom;;
    assert_ ((0 <=? nRndPos1) && (nRndPos1 <? lenZ v) && ((0 <=? nRndPos2) && (nRndPos2 <? lenZ v)));;;
    let nId1 := v.[nRndPos1] in
    let nId2 := v.[nRndPos2] in
    c1 <- rd (fun s => count s nId1);;
    assert_ c1;;;
    c2 <- rd (fun s => count s nId2);;
    assert_ c2;;;
    upd (set_info nId1 (set_nRandomPos nRndPos2));;;
    upd (set_info nId2 (set_nRandomPos nRndPos1));;;
    upd (set_vRandom <[Z.to_nat nRndPos1 := nId2]>);;;
    upd (set_vRandom <[Z.to_nat nRndPos2 := nId1]>).

(** One iteration of [SelectTried]; the accumulator is [(nOldest, nOldestPos)]. *)
Definition SelectTried_step (nKBucket : Z) (acc : Z * Z) (i : Z) : MM (Z * Z) :=
  let '(nOldest, nOldestPos) := acc in
  vTried <- rd (fun s => vTried_at s nKBucket);;
  r <- rand (lenZ vTried - i);;
  let nPos := r + i in
  let nTemp := vTried.[nPos] in
  upd (set_vTried nKBucket (fun l => <[Z.to_nat i := nTemp]> (<[Z.to_nat nPos := vTried.[i]]> l)));;;
  c <- rd (fun s => count s nTemp);;
  assert_ ((nOldest =? -1) || c);;;
  older <- (if nOldest =? -1 then ret true
            else it <- info_at nTemp;; io <- info_at nOldest;;
                 ret (nLastSuccess it <? nLastSuccess io));;
  ret (if older : bool then (nTemp, nPos) else (nOldest, nOldestPos)).

Definition SelectTried (nKBucket : Z) : MM Z :=
  vTried <- rd (fun s => vTried_at s nKBucket);;
  acc <- foldM (SelectTried_step nKBucket)
           (seqZ 0 (Z.min ADDRMAN_TRIED_ENTRIES_INSPECT_ON_EVICT (lenZ vTried))) (-1, -1);;
  ret acc.2.

(** [if (--info.nRefCount == 0) { ... }], the same code at both exits of [ShrinkNew]. *)
Definition release (nId : Z) : MM unit :=
  upd (set_info nId (fun i => set_nRefCount (nRefCount i - 1) i));;;
  info <- deref nId;;
  if nRefCount info =? 0 then
    sz <- rd size;;
    SwapRandom (nRandomPos info) (sz - 1);;;
    upd (set_vRandom (fun v => removelast v));;;
    upd (set_mapAddr (delete (netaddr info)));;;
    upd (set_mapInfo (delete nId));;;
    upd (set_nNew (fun n => n - 1))
  else ret tt.

Definition erase_new (nUBucket nId : Z) : MM unit := upd (set_vNew nUBucket (fun b => b ∖ {[ nId ]})).
Definition insert_new (nUBucket nId : Z) : MM unit := upd (set_vNew nUBucket (fun b => {[ nId ]} ∪ b)).

(** The first loop: the first terrible entry is released; [true] when there was one. *)
Fixpoint ShrinkNew_scan (nUBucket : Z) (l : list Z) : MM bool :=
  match l with
  | [] => ret false
  | nId :: l' =>
    c <- rd (fun s => count s nId);;
    assert_ c;;;
    info <- info_at nId;;
    t <- now;;
    if CAddrInfo.IsTerrible info t then
      release nId;;; erase_new nUBucket nId;;; ret true
    else ShrinkNew_scan nUBucket l'
  end.

(** One iteration of the second loop; the accumulator is [(nI, nOldest)]. *)
Definition ShrinkNew_step (n : list Z) (acc : Z * Z) (nId : Z) : MM (Z * Z) :=
  let '(nI, nOldest) := acc in
  if existsb (Z.eqb nI) n then
    c <- rd (fun s => count s nId);;
    assert_ ((nOldest =? -1) || c);;;
    older <- (if nOldest =? -1 then ret true
              else it <- info_at nId;; io <- info_at nOldest;; ret (time it <? time io));;
    ret (nI + 1, if older : bool then nId else nOldest)
  else ret (nI + 1, nOldest).

Definition ShrinkNew (nUBucket : Z) : MM Z :=
  nb <- rd (fun s => lenZ (vvNew s));;
  assert_ ((0 <=? nUBucket) && (nUBucket <? nb));;;
  vNew <- rd (fun s => vNew_at s nUBucket);;
  let l := ascending (elements vNew) in
  deleted <- ShrinkNew_scan nUBucket l;;
  if deleted : bool then ret 0
  else
    let sz := Z.of_nat (base.size vNew) in
    n0 <- rand sz;; n1 <- rand sz;; n2 <- rand sz;; n3 <- rand sz;;
    acc <- foldM (ShrinkNew_step [n0; n1; n2; n3]) l (0, -1);;
    let nOldest := acc.2 in
    c <- rd (fun s => count s nOldest);;
    assert_ c;;;
    release nOldest;;; erase_new nUBucket nOldest;;; ret 1.

(** [MakeTried(info, nId, nOrigin)]; [info] refers to [mapInfo[nId]]. *)
Definition MakeTried_detach (nId : Z) : MM unit :=
  nb <- rd (fun s => lenZ (vvNew s));;
  foldM (fun _ b =>
    vNew <- rd (fun s => vNew_at s b);;
    if bool_decide (nId ∈ vNew) then
      erase_new b nId;;; upd (set_info nId (fun i => set_nRefCount (nRefCount i - 1) i))
    else ret tt) (seqZ 0 nb) tt.

Definition MakeTried_evict (nId nOrigin nKBucket : Z) : MM unit :=
  nPos <- SelectTried nKBucket;;
  vTried <- rd (fun s => vTried_at s nKBucket);;
  let nOld := vTried.[nPos] in
  c <- rd (fun s => count s nOld);;
  assert_ c;;;
  key <- rd nKey;;
  infoOld <- info_at nOld;;
  let nUBucket := CAddrInfo.GetNewBucket_own infoOld key in
  upd (set_info nOld (fun i => set_nRefCount 1 (set_fInTried false i)));;;
  vNew <- rd (fun s => vNew_at s nUBucket);;
  (if Z.of_nat (base.size vNew) <? ADDRMAN_NEW_BUCKET_SIZE then insert_new nUBucket nOld
   else insert_new nOrigin nOld);;;
  upd (set_nNew (Z.add 1));;;
  upd (set_vTried nKBucket <[Z.to_nat nPos := nId]>);;;
  upd (set_info nId (set_fInTried true)).

Definition MakeTried (nId nOrigin : Z) : MM unit :=
  o <- rd (fun s => vNew_at s nOrigin);;
  assert_ (bool_decide (nId ∈ o));;;
  MakeTried_detach nId;;;
  upd (set_nNew (fun n => n - 1));;;
  info <- deref nId;;
  assert_ (nRefCount info =? 0);;;
  key <- rd nKey;;
  let nKBucket := CAddrInfo.GetTriedBucket info key in
  vTried <- rd (fun s => vTried_at s nKBucket);;
  if lenZ vTried <? ADDRMAN_TRIED_BUCKET_SIZE then
    upd (set_vTried nKBucket (fun l => l ++ [nId]));;;
    upd (set_nTried (Z.add 1));;;
    upd (set_info nId (set_fInTried true))
  else MakeTried_evict nId nOrigin nKBucket.

(** [find a bucket it is in now], starting at bucket [nRnd]. *)
Definition find_bucket (s : CAddrMan) (nId nRnd : Z) : option Z :=
  let nb := lenZ (vvNew s) in
  List.find (fun nB => bool_decide (nId ∈ vNew_at s nB)) ((fun n => (n + nRnd) mod nb) <$> seqZ 0 nb).

Definition Good_ (addr : CService) (nTime : Z) : MM unit :=
  p <- rd (Find (sv_ip addr));;
  match p with
  | None => ret tt
  | Some nId =>
    info <- deref nId;;
    if CService.neqb (service info) addr then ret tt
    else
      upd (set_info nId (fun i => set_nAttempts 0 (set_nTime (as_nTime nTime)
             (set_nLastTry nTime (set_nLastSuccess nTime i)))));;;
      if fInTried info then ret tt
      else
        nb <- rd (fun s => lenZ (vvNew s));;
        nRnd <- rand nb;;
        b <- rd (fun s => find_bucket s nId nRnd);;
        match b with
        | None => ret tt
        | Some nUBucket => MakeTried nId nUBucket
        end
  end.

(** [Add_] on an entry that exists: [None] for [return false], otherwise the entry goes on to
    the choice of a bucket. *)
Definition Add_existing (nId : Z) (addr : CAddress) (nTimePenalty : Z) : MM (option (Z * bool)) :=
  t <- now;;
  let fCurrentlyOnline := t - nTime addr <? 24 * 60 * 60 in
  let nUpdateInterval := if fCurrentlyOnline then 60 * 60 else 24 * 60 * 60 in
  info <- deref nId;;
  (if negb (nTime addr =? 0)
      && ((time info =? 0) || (time info <? nTime addr - nUpdateInterval - nTimePenalty))
   then upd (set_info nId (set_nTime (as_nTime (Z.max 0 (nTime addr - nTimePenalty)))))
   else ret tt);;;
  upd (set_info nId (fun i => set_nServices (Z.lor (nServices (ca i)) (nServices addr)) i));;;
  info <- deref nId;;
  if (nTime addr =? 0) || (negb (time info =? 0) && (nTime addr <=? time info)) then ret None
  else if fInTried info then ret None
  else if nRefCount info =? ADDRMAN_NEW_BUCKETS_PER_ADDRESS then ret None
  else
    let nFactor := Nat.iter (Z.to_nat (nRefCount info)) (fun f => f * 2) 1 in
    if 1 <? nFactor then
      r <- rand nFactor;;
      ret (if r =? 0 then Some (nId, false) else None)
    else ret (Some (nId, false)).

Definition Add_fresh (addr : CAddress) (source : CNetAddr) (nTimePenalty : Z) : MM (option (Z * bool)) :=
  nId <- Create addr source;;
  upd (set_info nId (fun i => set_nTime (as_nTime (Z.max 0 (time i - nTimePenalty))) i));;;
  upd (set_nNew (Z.add 1));;;
  ret (Some (nId, true)).

(** The end of [Add_]: put [nId] into the bucket its source selects, making room first. *)
Definition Add_bucket (nId : Z) (source : CNetAddr) : MM unit :=
  info <- deref nId;;
  key <- rd nKey;;
  let nUBucket := CAddrInfo.GetNewBucket info key source in
  vNew <- rd (fun s => vNew_at s nUBucket);;
  if bool_decide (nId ∈ vNew) then ret tt
  else
    upd (set_info nId (fun i => set_nRefCount (nRefCount i + 1) i));;;
    (if Z.of_nat (base.size vNew) =? ADDRMAN_NEW_BUCKET_SIZE then ShrinkNew nUBucket else ret 0);;;
    insert_new nUBucket nId.

Definition Add_ (addr : CAddress) (source : CNetAddr) (nTimePenalty : Z) : MM bool :=
  if negb (CNetAddr.IsRoutable (sv_ip (ca_service addr))) then ret false
  else
    p <- rd (Find (sv_ip (ca_service addr)));;
    go <- match p with
          | Some nId => Add_existing nId addr nTimePenalty
          | None => Add_fresh addr source nTimePenalty
          end;;
    match go with
    | None => ret false
    | Some (nId, fNew) => Add_bucket nId source;;; ret fNew
    end.

(** [Add] of a vector: true when one of the addresses was new. *)
Definition Add_all (vAddr : list CAddress) (source : CNetAddr) (nTimePenalty : Z) : MM bool :=
  nAdd <- foldM (fun nAdd addr => r <- Add_ addr source nTimePenalty;;
                   ret (nAdd + if r : bool then 1 else 0)) vAddr 0;;
  ret (0 <? nAdd).

(** [Find] and the test that it is the same service (with the port). *)
Definition with_exact (addr : CService) (f : CAddrInfo -> CAddrInfo) : MM unit :=
  p <- rd (Find (sv_ip addr));;
  match p with
  | None => ret tt
  | Some nId =>
    info <- deref nId;;
    if CService.neqb (service info) addr then ret tt else upd (set_info nId f)
  end.

Definition Attempt_ (addr : CService) (nTime : Z) : MM unit :=
  with_exact addr (fun i => let i := set_nLastTry nTime i in set_nAttempts (nAttempts i + 1) i).

Definition Connected_ (addr : CService) (nTime : Z) : MM unit :=
  with_exact addr (fun i => let nUpdateInterval := 20 * 60 in
    if nUpdateInterval <? nTime - time i then set_nTime (as_nTime nTime) i else i).

Definition GetAddr_count (n : Z) : Z :=
  let nNodes := ADDRMAN_GETADDR_MAX_PCT * n / 100 in
  if ADDRMAN_GETADDR_MAX <? nNodes then ADDRMAN_GETADDR_MAX else nNodes.

Definition GetAddr_step (vAddr : list CAddress) (n : Z) : MM (list CAddress) :=
  sz <- rd size;;
  r <- rand (sz - n);;
  SwapRandom n (r + n);;;
  v <- rd vRandom;;
  c <- rd (fun s => count s v.[n]);;
  assert_ c;;;
  i <- info_at v.[n];;
  ret (vAddr ++ [ca i]).

Definition GetAddr_ : MM (list CAddress) :=
  sz <- rd size;;
  foldM GetAddr_step (seqZ 0 (GetAddr_count sz)) [].

End Ops.

(** [Check_] (compiled with DEBUG_ADDRMAN): the first inconsistency as a negative code, or 0.
    [mapAddr[info]] inserts 0 for a missing address, which the following entries see. *)
Section Check.
Variable s : CAddrMan.

Fixpoint Check_infos (l : list (Z * CAddrInfo)) (addrs : gmap CNetAddr Z)
    (setTried : gset Z) (mapNew : gmap Z Z) : Z + gset Z * gmap Z Z :=
  match l with
  | [] => inr (setTried, mapNew)
  | (n, info) :: l' =>
    let rest setTried mapNew :=
      let a := default 0 (addrs !! netaddr info) in
      let addrs := <[netaddr info := a]> addrs in
      if negb (a =? n) then inl (-5)
      else if (nRandomPos info <? 0) || (lenZ (vRandom s) <=? nRandomPos info)
              || negb ((vRandom s).[nRandomPos info] =? n) then inl (-14)
      else if lastTry info <? 0 then inl (-6)
      else if nLastSuccess info <? 0 then inl (-8)
      else Check_infos l' addrs setTried mapNew in
    if fInTried info then
      if nLastSuccess info =? 0 then inl (-1)
      else if negb (nRefCount info =? 0) then inl (-2)
      else rest ({[ n ]} ∪ setTried) mapNew
    else
      if (nRefCount info <? 0) || (ADDRMAN_NEW_BUCKETS_PER_ADDRESS <? nRefCount info) then inl (-3)
      else if nRefCount info =? 0 then inl (-4)
      else rest setTried (<[n := nRefCount info]> mapNew)
  end.

Fixpoint Check_tried (l : list Z) (setTried : gset Z) : Z + gset Z :=
  match l with
  | [] => inr setTried
  | n :: l' => if bool_decide (n ∈ setTried) then Check_tried l' (setTried ∖ {[ n ]}) else inl (-11)
  end.

Fixpoint Check_new (l : list Z) (mapNew : gmap Z Z) : Z + gmap Z Z :=
  match l with
  | [] => inr mapNew
  | n :: l' =>
    match mapNew !! n with
    | None => inl (-12)
    | Some r => Check_new l' (if r - 1 =? 0 then delete n mapNew else <[n := r - 1]> mapNew)
    end
  end.

Definition Check_ : Z :=
  if negb (lenZ (vRandom s) =? nTried s + nNew s) then -7
  else
    match Check_infos (by_key (mapInfo s)) (mapAddr s) ∅ ∅ with
    | inl err => err
    | inr (setTried, mapNew) =>
      if negb (Z.of_nat (base.size setTried) =? nTried s) then -9
      else if negb (Z.of_nat (base.size mapNew) =? nNew s) then -10
      else
        match Check_tried (concat (vvTried s)) setTried with
        | inl err => err
        | inr setTried =>
          match Check_new (concat ((fun b => ascending (elements b)) <$> vvNew s)) mapNew with
          | inl err => err
          | inr mapNew =>
            if negb (bool_decide (setTried = ∅)) then -13
            else if negb (bool_decide (mapNew = ∅)) then -15
            else 0
          end
        end
    end.

End Check.
