(* ===== verification/AddrManInv.v ===== *)
(** Consistency of the address manager: the invariant of [CAddrMan] (AddrMan.v) and its
    preservation by every operation.

    The six indexes of the object are related by [rnd_ok] (vRandom and nRandomPos), [adr_ok]
    (mapAddr), [tried_ok] (vvTried and fInTried) and [ref_ok] (vvNew and nRefCount), each stated
    on the projection of [mapInfo] to the one field it concerns, so that an assignment to
    another field leaves it untouched; [Inv] collects them with the bounds and the counters. *)

From S2P Require Import Prelude Monad Rand Codec NetAddr AddrMan.

(** ** Indexes as relations between maps and lists *)

Section MapLemmas.
Context {A B : Type}.
Implicit Types (f : A -> B) (m : gmap Z A).

Lemma fmap_alter_same f g id m : (forall i, f (g i) = f i) -> f <$> alter g id m = f <$> m.
Proof.
  intros Hfg. apply map_eq. intros j. rewrite !lookup_fmap.
  destruct (decide (id = j)) as [->|Hne]; [|by rewrite lookup_alter_ne].
  rewrite lookup_alter_eq. destruct (m !! j); cbn; [by rewrite Hfg|done].
Qed.

Lemma fmap_alter_to f g id i v m :
  m !! id = Some i -> f (g i) = v -> f <$> alter g id m = <[id := v]> (f <$> m).
Proof.
  intros Hi Hv. apply map_eq. intros j. rewrite lookup_fmap.
  destruct (decide (id = j)) as [->|Hne].
  - rewrite lookup_alter_eq, lookup_insert_eq, Hi. cbn. by rewrite Hv.
  - by rewrite lookup_alter_ne, lookup_insert_ne, lookup_fmap.
Qed.

Lemma fmap_eq_lookup f m m' id i :
  f <$> m' = f <$> m -> m !! id = Some i -> exists i', m' !! id = Some i' /\ f i' = f i.
Proof.
  intros E Hi. assert (H : (f <$> m') !! id = Some (f i)) by (by rewrite E, lookup_fmap, Hi).
  rewrite lookup_fmap in H. destruct (m' !! id) as [i'|]; [|done]. injection H as H. eauto.
Qed.
End MapLemmas.

(** [vRandom] and [nRandomPos] are inverse to each other. *)
Definition rnd_ok (m : gmap Z Z) (v : list Z) : Prop :=
  forall id p, m !! id = Some p <-> 0 <= p /\ v !! Z.to_nat p = Some id.

(** [mapAddr] is the inverse of the address of each entry. *)
Definition adr_ok (m : gmap Z CNetAddr) (a : gmap CNetAddr Z) : Prop :=
  forall ip id, a !! ip = Some id <-> m !! id = Some ip.

(** The entries of the tried buckets, each once, are those with [fInTried]. *)
Definition tried_ok (m : gmap Z bool) (l : list Z) : Prop :=
  NoDup l /\ forall id, id ∈ l <-> m !! id = Some true.

(** In how many new buckets an entry is. *)
Definition new_count (vv : list (gset Z)) (id : Z) : Z :=
  Z.of_nat (length (filter (fun b => id ∈ b) vv)).

(** The reference counts; [x id] references of [id] are taken but not yet in a bucket. *)
Definition ref_ok (x : Z -> Z) (m : gmap Z Z) (vv : list (gset Z)) : Prop :=
  forall id, match m !! id with
             | Some r => r = new_count vv id + x id
             | None => new_count vv id = 0
             end.

#[export] Instance tried_ok_perm m : Proper (Permutation ==> iff) (tried_ok m).
Proof.
  intros l l' E. unfold tried_ok. rewrite E.
  by setoid_rewrite E.
Qed.

Section Rnd.
Implicit Types (m : gmap Z Z) (v : list Z).

Lemma rnd_pos m v id p : rnd_ok m v -> m !! id = Some p -> 0 <= p < lenZ v /\ v.[p] = id.
Proof.
  intros Hr [H0 Hl]%Hr. pose proof (lookup_lt_Some _ _ _ Hl) as Hlt. unfold lenZ. split; [lia|].
  rewrite <-(Z2Nat.id p) by done. by apply nthZ_lookup.
Qed.

Lemma rnd_at m v p : rnd_ok m v -> 0 <= p < lenZ v -> m !! v.[p] = Some p.
Proof.
  unfold lenZ. intros Hr Hp. apply Hr. split; [lia|].
  destruct (lookup_lt_is_Some_2 v (Z.to_nat p)) as [id Hid]; [lia|].
  rewrite Hid. f_equal. rewrite <-(Z2Nat.id p) by lia. symmetry. by apply nthZ_lookup.
Qed.

Lemma rnd_NoDup m v : rnd_ok m v -> NoDup v.
Proof.
  intros Hr. apply NoDup_alt. intros i j id Hi Hj.
  assert (m !! id = Some (Z.of_nat i)) by (apply Hr; rewrite Nat2Z.id; split; [lia|done]).
  assert (m !! id = Some (Z.of_nat j)) by (apply Hr; rewrite Nat2Z.id; split; [lia|done]).
  simplify_eq. lia.
Qed.

Lemma rnd_elem m v id : rnd_ok m v -> id ∈ v <-> is_Some (m !! id).
Proof.
  intros Hr. rewrite list_elem_of_lookup. split.
  - intros [i Hi]. exists (Z.of_nat i). apply Hr. rewrite Nat2Z.id. split; [lia|done].
  - intros [p [_ Hp]%Hr]. eauto.
Qed.

Lemma rnd_push m v id : rnd_ok m v -> m !! id = None -> rnd_ok (<[id := lenZ v]> m) (v ++ [id]).
Proof.
  intros Hr Hid j p. unfold lenZ. destruct (decide (id = j)) as [->|Hne].
  - rewrite lookup_insert_eq. split.
    + intros [= <-]. rewrite Nat2Z.id. split; [lia|by apply list_lookup_middle].
    + intros [H0 Hl]. destruct (decide (Z.to_nat p < length v)%nat).
      * rewrite lookup_app_l in Hl by done. assert (m !! j = Some p) by (by apply Hr). congruence.
      * apply lookup_lt_Some in Hl. rewrite length_app in Hl. cbn in Hl. f_equal. lia.
  - rewrite lookup_insert_ne, (Hr j p) by done. split; intros [H0 Hl]; (split; [done|]).
    + by apply lookup_app_l_Some.
    + apply lookup_app_Some in Hl as [Hl|[Hl H1]]; [done|].
      destruct (Z.to_nat p - length v)%nat as [|[|]]; cbn in H1; congruence.
Qed.

Lemma rnd_pop m v id : rnd_ok m (v ++ [id]) -> rnd_ok (delete id m) v.
Proof.
  intros Hr. pose proof (rnd_NoDup _ _ Hr) as Hnd. apply NoDup_app in Hnd as (_ & Hni & _).
  intros j p. rewrite lookup_delete_Some, (Hr j p). split.
  - intros [Hne [H0 Hl]]. split; [done|]. apply lookup_app_Some in Hl as [Hl|[_ H1]]; [done|].
    destruct (Z.to_nat p - length v)%nat as [|[|]]; cbn in H1; congruence.
  - intros [H0 Hl]. split_and!; [|done|by apply lookup_app_l_Some].
    intros ->. eapply Hni; [by eapply list_elem_of_lookup_2|]. by apply list_elem_of_singleton.
Qed.

(** Exchanging two positions. *)
Definition swap (v : list Z) (p q : Z) : list Z :=
  <[Z.to_nat q := v.[p]]> (<[Z.to_nat p := v.[q]]> v).

Lemma swap_length v p q : length (swap v p q) = length v.
Proof. unfold swap. by rewrite !length_insert. Qed.

Lemma rnd_swap m v p q :
  rnd_ok m v -> 0 <= p < lenZ v -> 0 <= q < lenZ v -> p <> q ->
  rnd_ok (<[v.[q] := p]> (<[v.[p] := q]> m)) (swap v p q).
Proof.
  intros Hr Hp Hq Hpq j r.
  pose proof (rnd_at _ _ _ Hr Hp) as Ep. pose proof (rnd_at _ _ _ Hr Hq) as Eq.
  assert (Hne : v.[p] <> v.[q]) by (intros E; rewrite E in Ep; congruence).
  unfold swap, lenZ in *.
  destruct (decide (j = v.[q])) as [->|Hjq]; [|destruct (decide (j = v.[p])) as [->|Hjp]].
  - rewrite lookup_insert_eq. rewrite !list_lookup_insert_Some, length_insert. split.
    + intros [= <-]. split; [lia|]. right. split; [lia|]. left. split_and!; [done|done|lia].
    + intros [H0 [[? [? ?]]|[? [[? ?]|[? Hl]]]]]; [congruence|f_equal; lia|].
      assert (m !! v.[q] = Some r) by (apply Hr; split; done).
      congruence.
  - rewrite lookup_insert_ne, lookup_insert_eq by done.
    rewrite !list_lookup_insert_Some, length_insert. split.
    + intros [= <-]. split; [lia|]. left. split_and!; [done|done|lia].
    + intros [H0 [[? [? ?]]|[? [[? [? ?]]|[? Hl]]]]]; [f_equal; lia|done|].
      assert (m !! v.[p] = Some r) by (apply Hr; split; done).
      congruence.
  - rewrite !lookup_insert_ne, (Hr j r) by done.
    rewrite !list_lookup_insert_Some, length_insert. split.
    + intros [H0 Hl]. split; [done|].
      assert (Er : v.[r] = j).
      { rewrite <-(Z2Nat.id r) by done. by apply nthZ_lookup. }
      right. split; [intros E; apply Z2Nat.inj in E; [subst; congruence|lia|lia]|].
      right. split; [intros E; apply Z2Nat.inj in E; [subst; congruence|lia|lia]|done].
    + intros [H0 [[? [? ?]]|[? [[? [? ?]]|[? Hl]]]]]; [congruence|congruence|done].
Qed.
End Rnd.

(** ** The new buckets *)

Lemma swap_perm (v : list Z) p q : 0 <= p < lenZ v -> 0 <= q < lenZ v -> swap v p q ≡ₚ v.
Proof.
  unfold swap, lenZ. intros Hp Hq.
  assert (Hlp : v !! Z.to_nat p = Some v.[p]).
  { destruct (lookup_lt_is_Some_2 v (Z.to_nat p)) as [y Hy]; [lia|]. rewrite Hy.
    f_equal. symmetry. rewrite <-(Z2Nat.id p) by lia. by apply nthZ_lookup. }
  assert (Hlq : v !! Z.to_nat q = Some v.[q]).
  { destruct (lookup_lt_is_Some_2 v (Z.to_nat q)) as [y Hy]; [lia|]. rewrite Hy.
    f_equal. symmetry. rewrite <-(Z2Nat.id q) by lia. by apply nthZ_lookup. }
  set (a := Z.to_nat p) in *. set (c := Z.to_nat q) in *.
  apply Permutation_inj. split; [by rewrite !length_insert|].
  exists (fun k => if decide (k = a) then c else if decide (k = c) then a else k). split.
  - intros j k. repeat case_decide; congruence.
  - intros k. destruct (decide (k = c)) as [->|Hc].
    + rewrite list_lookup_insert_eq by (rewrite length_insert; lia).
      case_decide; [by subst; congruence|done].
    + rewrite list_lookup_insert_ne by done. case_decide as Ha; [subst k|].
      * rewrite list_lookup_insert_eq by lia. done.
      * by rewrite list_lookup_insert_ne.
Qed.

Lemma alter_const {A} (f : A -> A) (a : A) k (l : list A) :
  alter f k (alter (fun _ => a) k l) = alter (fun _ => f a) k l.
Proof.
  apply list_eq. intros j. destruct (decide (k = j)) as [->|Hne].
  - rewrite !list_lookup_alter_eq. by destruct (l !! j).
  - by rewrite !list_lookup_alter_ne.
Qed.

Section NewBuckets.
Implicit Types (vv : list (gset Z)) (id : Z).

Lemma new_count_nonneg vv id : 0 <= new_count vv id.
Proof. unfold new_count. lia. Qed.

Lemma new_count_app vv ww id : new_count (vv ++ ww) id = new_count vv id + new_count ww id.
Proof. unfold new_count. rewrite filter_app, length_app. lia. Qed.

Lemma new_count_cons b vv id :
  new_count (b :: vv) id = (if decide (id ∈ b) then 1 else 0) + new_count vv id.
Proof. unfold new_count. rewrite filter_cons. destruct (decide _); cbn [length]; lia. Qed.

Lemma new_count_alter f vv k b id :
  vv !! k = Some b ->
  new_count (alter f k vv) id
  = new_count vv id - (if decide (id ∈ b) then 1 else 0) + (if decide (id ∈ f b) then 1 else 0).
Proof.
  intros Hk. rewrite <-(take_drop_middle vv k b Hk) at 2.
  rewrite <-(take_drop_middle (alter f k vv) k (f b)) at 1 by (by rewrite list_lookup_alter_eq, Hk).
  rewrite take_alter_ge, drop_alter_lt by lia. rewrite !new_count_app, !new_count_cons. lia.
Qed.

Lemma new_count_pos vv k b id : vv !! k = Some b -> id ∈ b -> 1 <= new_count vv id.
Proof.
  intros Hk Hid. rewrite <-(take_drop_middle vv k b Hk), new_count_app, new_count_cons.
  rewrite decide_True by done. pose proof (new_count_nonneg (take k vv) id).
  pose proof (new_count_nonneg (drop (S k) vv) id). lia.
Qed.

Lemma new_count_witness vv id : 0 < new_count vv id -> exists k b, vv !! k = Some b /\ id ∈ b.
Proof.
  intros H. induction vv as [|b vv IH]; [done|]. rewrite new_count_cons in H.
  destruct (decide (id ∈ b)).
  - by exists 0%nat, b.
  - destruct IH as (k & b' & Hk & Hb'); [lia|]. by exists (S k), b'.
Qed.

Lemma new_count_empty n id : new_count (repeat ∅ n) id = 0.
Proof.
  induction n as [|n IH]; [done|]. cbn [repeat]. rewrite new_count_cons, IH.
  by rewrite decide_False by set_solver.
Qed.
End NewBuckets.

Lemma nthZ_Some {A} (d : A) l i x : 0 <= i -> l !! Z.to_nat i = Some x -> nthZ d l i = x.
Proof. intros Hi Hl. rewrite <-(Z2Nat.id i) by done. by apply nthZ_lookup. Qed.

Lemma nthZ_lookup_at {A} (d : A) l i : 0 <= i < lenZ l -> l !! Z.to_nat i = Some (nthZ d l i).
Proof.
  unfold lenZ. intros Hi. destruct (lookup_lt_is_Some_2 l (Z.to_nat i)) as [x Hx]; [lia|].
  by rewrite Hx, (nthZ_Some d l i x) by (done || lia).
Qed.

(** A bucket and the rest: what a change of one bucket does to the concatenation. *)
Lemma concat_alter {A} (l : list A) k (vv : list (list A)) :
  vv !! k = Some l ->
  exists rest, concat vv ≡ₚ l ++ rest /\ forall f, concat (alter f k vv) ≡ₚ f l ++ rest.
Proof.
  intros Hk. exists (concat (take k vv) ++ concat (drop (S k) vv)). split.
  - rewrite <-(take_drop_middle vv k l Hk) at 1. rewrite concat_app. cbn [concat].
    by rewrite Permutation_app_swap_app.
  - intros f. rewrite <-(take_drop_middle (alter f k vv) k (f l)) by (by rewrite list_lookup_alter_eq, Hk).
    rewrite take_alter_ge, drop_alter_lt by lia. rewrite concat_app. cbn [concat].
    by rewrite Permutation_app_swap_app.
Qed.

(** ** The invariant *)

Definition info_ok (i : CAddrInfo) : Prop :=
  0 <= lastTry i /\ 0 <= nLastSuccess i /\
  if fInTried i then nRefCount i = 0 /\ nLastSuccess i <> 0
  else 1 <= nRefCount i <= ADDRMAN_NEW_BUCKETS_PER_ADDRESS.

(** Everything but [vRandom]: stable under changes of [nRandomPos]. *)
Record InvR (x : Z -> Z) (s : CAddrMan) : Prop := {
  inv_adr : adr_ok (netaddr <$> mapInfo s) (mapAddr s);
  inv_ids : forall id, is_Some (mapInfo s !! id) -> 0 <= id < nIdCount s;
  inv_idc : 0 <= nIdCount s;
  inv_tried : tried_ok (fInTried <$> mapInfo s) (concat (vvTried s));
  inv_tlen : lenZ (vvTried s) = ADDRMAN_TRIED_BUCKET_COUNT;
  inv_tsize : Forall (fun b => lenZ b <= ADDRMAN_TRIED_BUCKET_SIZE) (vvTried s);
  inv_ref : ref_ok x (nRefCount <$> mapInfo s) (vvNew s);
  inv_nlen : lenZ (vvNew s) = ADDRMAN_NEW_BUCKET_COUNT;
  inv_nsize : Forall (fun b => Z.of_nat (base.size b) <= ADDRMAN_NEW_BUCKET_SIZE) (vvNew s);
  inv_info : map_Forall (fun _ => info_ok) (mapInfo s);
  inv_nTried : nTried s = lenZ (concat (vvTried s));
  inv_count : lenZ (vRandom s) = nTried s + nNew s;
}.

Definition Inv (x : Z -> Z) (s : CAddrMan) : Prop :=
  rnd_ok (nRandomPos <$> mapInfo s) (vRandom s) /\ InvR x s.

Definition no_pending (id : Z) : Z := 0.
Definition pending (nId : Z) (id : Z) : Z := if decide (id = nId) then 1 else 0.

(** The invariant of the object between two calls. *)
Abbreviation AddrInv := (Inv no_pending).

(** ** How the indexes follow a change *)

Section IndexSteps.
Implicit Types (vv : list (gset Z)) (id : Z).

Lemma ref_at x m vv id r : ref_ok x m vv -> m !! id = Some r -> r = new_count vv id + x id.
Proof. intros Hr Hid. specialize (Hr id). by rewrite Hid in Hr. Qed.

Lemma ref_in_bucket x m vv k b id : ref_ok x m vv -> vv !! k = Some b -> id ∈ b -> is_Some (m !! id).
Proof.
  intros Hr Hk Hid. specialize (Hr id). pose proof (new_count_pos _ _ _ _ Hk Hid).
  destruct (m !! id); [by eexists|lia].
Qed.

(** An entry leaves a bucket, and its count follows; at zero it goes away. *)
Lemma ref_dec x m vv k b id r :
  ref_ok x m vv -> m !! id = Some r -> vv !! k = Some b -> id ∈ b ->
  ref_ok x (<[id := r - 1]> m) (alter (fun c => c ∖ {[ id ]}) k vv).
Proof.
  intros Hr Hid Hk Hin j. specialize (Hr j). rewrite (new_count_alter _ _ _ _ _ Hk).
  destruct (decide (j = id)) as [->|Hne].
  - rewrite lookup_insert_eq. rewrite Hid in Hr. rewrite decide_True, decide_False by set_solver. lia.
  - rewrite lookup_insert_ne by done.
    assert (E : (if decide (j ∈ b ∖ {[ id ]}) then 1 else 0) = (if decide (j ∈ b) then 1 else 0) :> Z)
      by (destruct (decide (j ∈ b)); [rewrite decide_True by set_solver|rewrite decide_False by set_solver]; done).
    rewrite E. destruct (m !! j); lia.
Qed.

Lemma ref_delete x m vv k b id :
  ref_ok x m vv -> m !! id = Some 1 -> x id = 0 -> vv !! k = Some b -> id ∈ b ->
  ref_ok x (delete id m) (alter (fun c => c ∖ {[ id ]}) k vv).
Proof.
  intros Hr Hid Hx Hk Hin. pose proof (ref_dec _ _ _ _ _ _ _ Hr Hid Hk Hin) as Hd. intros j.
  specialize (Hd j). destruct (decide (j = id)) as [->|Hne].
  - rewrite lookup_delete_eq. rewrite lookup_insert_eq in Hd. lia.
  - by rewrite lookup_delete_ne, lookup_insert_ne in * by done.
Qed.

(** A pending reference is put into a bucket. *)
Lemma ref_put x y m vv k b id :
  ref_ok x m vv -> vv !! k = Some b -> id ∉ b -> is_Some (m !! id) ->
  (forall j, x j = y j + if decide (j = id) then 1 else 0) ->
  ref_ok y m (alter (fun c => {[ id ]} ∪ c) k vv).
Proof.
  intros Hr Hk Hin [r Hid] Hxy j. specialize (Hr j). specialize (Hxy j).
  rewrite (new_count_alter _ _ _ _ _ Hk). destruct (decide (j = id)) as [->|Hne].
  - rewrite Hid in *. rewrite decide_False, decide_True by set_solver. lia.
  - assert (E : (if decide (j ∈ {[ id ]} ∪ b) then 1 else 0) = (if decide (j ∈ b) then 1 else 0) :> Z)
      by (destruct (decide (j ∈ b)); [rewrite decide_True by set_solver|rewrite decide_False by set_solver]; done).
    rewrite E. destruct (m !! j); lia.
Qed.

Lemma adr_delete m a id ip : adr_ok m a -> m !! id = Some ip -> adr_ok (delete id m) (delete ip a).
Proof.
  intros Ha Hid ip' j. rewrite !lookup_delete_Some, (Ha ip' j).
  assert (Hip : a !! ip = Some id) by (by apply Ha).
  split; intros [Hne Hj]; (split; [|done]); intros ->.
  - rewrite Hid in Hj. congruence.
  - assert (a !! ip' = Some j) by (by apply Ha). congruence.
Qed.

Lemma adr_insert m a id ip :
  adr_ok m a -> m !! id = None -> a !! ip = None -> adr_ok (<[id := ip]> m) (<[ip := id]> a).
Proof.
  intros Ha Hid Hip ip' j. rewrite !lookup_insert_Some, (Ha ip' j).
  split; (intros [[<- <-]|[Hne Hj]]; [by left|right]); (split; [|done]); intros <-.
  - congruence.
  - apply Ha in Hj. congruence.
Qed.

Lemma tried_delete m l id : tried_ok m l -> m !! id = Some false -> tried_ok (delete id m) l.
Proof.
  intros [Hnd Ht] Hid. split; [done|]. intros j. rewrite lookup_delete_Some, (Ht j).
  split; [|by intros [_ ?]]. intros Hj. split; [|done]. intros ->. congruence.
Qed.

Lemma tried_fresh m l id : tried_ok m l -> m !! id = None -> tried_ok (<[id := false]> m) l.
Proof.
  intros [Hnd Ht] Hid. split; [done|]. intros j. rewrite lookup_insert_Some, (Ht j). split.
  - intros Hj. right. split; [|done]. intros ->. congruence.
  - by intros [[_ ?]|[_ ?]].
Qed.

(** An entry enters the tried table. *)
Lemma tried_push m l id :
  tried_ok m l -> m !! id = Some false -> tried_ok (<[id := true]> m) (id :: l).
Proof.
  intros [Hnd Ht] Hid. split.
  - constructor; [|done]. rewrite (Ht id). congruence.
  - intros j. rewrite elem_of_cons, lookup_insert_Some, (Ht j). split.
    + intros [->|Hj]; [by left|]. right. split; [|done]. intros ->. congruence.
    + intros [[<- _]|[_ ?]]; auto.
Qed.

(** ... and leaves it. *)
Lemma tried_pop m l id : tried_ok m (id :: l) -> tried_ok (<[id := false]> m) l.
Proof.
  intros [Hnd Ht]. apply NoDup_cons in Hnd as [Hni Hnd]. split; [done|]. intros j.
  specialize (Ht j). rewrite elem_of_cons in Ht. rewrite lookup_insert_Some. split.
  - intros Hj. right. split; [intros ->; done|]. apply Ht. by right.
  - intros [[_ ?]|[Hne Hj]]; [done|]. by destruct (proj2 Ht Hj) as [->|].
Qed.

Lemma size_diff_le (b : gset Z) id : (base.size (b ∖ {[ id ]}) <= base.size b)%nat.
Proof. apply subseteq_size. set_solver. Qed.
End IndexSteps.

(** ** Weakest preconditions of the basic operations *)

Section Basic.
Context `{Hasher, AddressTypes, NetworkEnum, Env : Environment E}.
Implicit Types (s t : CAddrMan) (e : E) (i : CAddrInfo).

Lemma wp_rd {A} (f : CAddrMan -> A) Q s e : Q (f s) (s, e) -> wp (rd f) Q (s, e).
Proof. done. Qed.
Lemma wp_upd f Q s e : Q tt (f s, e) -> wp (upd f) Q (s, e).
Proof. done. Qed.
Lemma wp_rand n (Q : Z -> CAddrMan * E -> Prop) s e :
  0 < n < 2 ^ 31 -> (forall r e', 0 <= r < n -> Q r (s, e')) -> wp (rand n) Q (s, e).
Proof.
  intros Hn HQ. unfold wp, rand. cbn [fst snd]. pose proof (draw_range n e Hn) as Hr.
  destruct (draw n e) as [r e']. by apply HQ.
Qed.
Lemma wp_now (Q : Z -> CAddrMan * E -> Prop) s e :
  (forall (z : Z) e', Q z (s, e')) -> wp now Q (s, e).
Proof. intros HQ. unfold wp, now. cbn [fst snd]. by destruct (clock e). Qed.
Lemma wp_info_at nId i Q s e : mapInfo s !! nId = Some i -> Q i (s, e) -> wp (info_at nId) Q (s, e).
Proof. intros Hi HQ. unfold wp, info_at, bind, rd. cbn [fst]. by rewrite Hi. Qed.
Lemma wp_deref nId i Q s e : mapInfo s !! nId = Some i -> Q i (s, e) -> wp (deref nId) Q (s, e).
Proof. intros Hi HQ. unfold wp, deref, bind, rd. cbn [fst]. by rewrite Hi. Qed.
Lemma wp_count nId i (Q : unit -> CAddrMan * E -> Prop) s e :
  mapInfo s !! nId = Some i -> Q tt (s, e) -> wp (assert_ (count s nId)) Q (s, e).
Proof. intros Hi. apply wp_assert. unfold count. rewrite Hi. by apply bool_decide_true. Qed.

End Basic.

Ltac stp1 := lazymatch goal with
  | |- wp (bind _ _) _ _ => apply wp_bind
  | |- wp (ret _) _ _ => apply wp_ret
  | |- wp (rd _) _ _ => apply wp_rd
  | |- wp (upd _) _ _ => apply wp_upd
  | |- wp (info_at _) _ _ => eapply wp_info_at; [eassumption|]
  | |- wp (deref _) _ _ => eapply wp_deref; [eassumption|]
  | |- wp (assert_ (count _ _)) _ _ => eapply wp_count; [eassumption|]
  end.
Ltac stp := repeat (stp1; cbn beta iota zeta).

Section Proofs.
Context `{Hasher, AddressTypes, NetworkEnum, Env : Environment E}.
Implicit Types (s t : CAddrMan) (e : E) (i : CAddrInfo).

(** An entry without its position in [vRandom]. *)
Definition strip : CAddrInfo -> CAddrInfo := set_nRandomPos 0.

(** [t] is [s] but for the order of [vRandom] and the positions that mirror it. *)
Definition same_but_random (s t : CAddrMan) : Prop :=
  exists m v, t = set_vRandom (fun _ => v) (set_mapInfo (fun _ => m) s) /\
    strip <$> m = strip <$> mapInfo s /\ length v = length (vRandom s).

Lemma strip_fmap {B} (f : CAddrInfo -> B) (m m' : gmap Z CAddrInfo) :
  (forall i, f (strip i) = f i) -> strip <$> m' = strip <$> m -> f <$> m' = f <$> m.
Proof.
  intros Hf E'. rewrite <-(map_fmap_ext (f ∘ strip) f m') by (intros; apply Hf).
  rewrite <-(map_fmap_ext (f ∘ strip) f m) by (intros; apply Hf).
  by rewrite !map_fmap_compose, E'.
Qed.

Lemma InvR_same_but_random x s t : same_but_random s t -> InvR x s -> InvR x t.
Proof.
  intros (m & v & -> & Em & Hv) [Iadr Iids Iidc Itried Itlen Itsize Iref Inlen Insize Iinfo InTried Icount].
  pose proof (strip_fmap netaddr _ _ (fun _ => eq_refl) Em) as En.
  pose proof (strip_fmap fInTried _ _ (fun _ => eq_refl) Em) as Et.
  pose proof (strip_fmap nRefCount _ _ (fun _ => eq_refl) Em) as Er.
  split; cbn; rewrite ?En, ?Et, ?Er; try done.
  - intros id [i Hi]. symmetry in Em. destruct (fmap_eq_lookup _ _ _ _ _ Em Hi) as (i' & Hi' & _).
    apply Iids. by eexists.
  - intros id i Hi. symmetry in Em. destruct (fmap_eq_lookup _ _ _ _ _ Em Hi) as (i' & Hi' & E').
    change (info_ok (strip i)). rewrite <-E'. apply (Iinfo id i' Hi').
  - unfold lenZ in *. congruence.
Qed.

Lemma SwapRandom_spec p q s e (Q : unit -> CAddrMan * E -> Prop) :
  rnd_ok (nRandomPos <$> mapInfo s) (vRandom s) ->
  0 <= p < lenZ (vRandom s) -> 0 <= q < lenZ (vRandom s) ->
  (forall t, same_but_random s t -> rnd_ok (nRandomPos <$> mapInfo t) (vRandom t) ->
     vRandom t = swap (vRandom s) p q -> Q tt (t, e)) ->
  wp (SwapRandom p q) Q (s, e).
Proof.
  intros Hr Hp Hq HQ. unfold SwapRandom. destruct (Z.eqb_spec p q) as [->|Hpq].
  { apply wp_ret, HQ; [|done|].
    - exists (mapInfo s), (vRandom s). by destruct s.
    - unfold swap. rewrite list_insert_insert_eq. symmetry. apply list_insert_id, nthZ_lookup_at. done. }
  pose proof (rnd_at _ _ _ Hr Hp) as Ep. pose proof (rnd_at _ _ _ Hr Hq) as Eq.
  rewrite lookup_fmap_Some in Ep, Eq. destruct Ep as (ip & Rp & Mp), Eq as (iq & Rq & Mq).
  stp. apply wp_assert; [lia|]. stp. apply HQ; cbn.
  - eexists _, _. split; [reflexivity|]. cbn. split; [|by rewrite !length_insert].
    by rewrite !fmap_alter_same.
  - fold (swap (vRandom s) p q).
    pose proof (rnd_swap _ _ _ _ Hr Hp Hq Hpq) as Hsw. revert Hsw.
    assert (Hne : (vRandom s).[p] <> (vRandom s).[q]) by (intros E'; rewrite E' in Mp; congruence).
    rewrite (fmap_alter_to nRandomPos _ _ iq p) by (done || by rewrite lookup_alter_ne).
    by rewrite (fmap_alter_to nRandomPos _ _ ip q).
  - done.
Qed.

(** ** Removing an entry from a new bucket *)

(** What the removal of [id] from bucket [b] leaves alone. *)
Definition dropped (b id : Z) (s t : CAddrMan) : Prop :=
  vvNew t = alter (fun c => c ∖ {[ id ]}) (Z.to_nat b) (vvNew s) /\
  nKey t = nKey s /\ vvTried t = vvTried s /\
  forall j, j <> id -> (strip <$> mapInfo t) !! j = (strip <$> mapInfo s) !! j.

Lemma InvR_untried x s id i b :
  InvR x s -> mapInfo s !! id = Some i -> 0 <= b < lenZ (vvNew s) -> id ∈ vNew_at s b -> x id = 0 ->
  fInTried i = false /\ 1 <= nRefCount i <= ADDRMAN_NEW_BUCKETS_PER_ADDRESS /\
  vvNew s !! Z.to_nat b = Some (vNew_at s b).
Proof.
  intros HI Hi Hb Hin Hx. pose proof (nthZ_lookup_at ∅ _ _ Hb) as Hk. split_and!; [..|exact Hk].
  all: pose proof (inv_info x s HI id i Hi) as (_ & _ & Hok);
    assert (Hr : (nRefCount <$> mapInfo s) !! id = Some (nRefCount i)) by (by rewrite lookup_fmap, Hi);
    pose proof (ref_at _ _ _ _ _ (inv_ref x s HI) Hr);
    pose proof (new_count_pos _ _ _ _ Hk Hin); destruct (fInTried i); done || lia.
Qed.

Lemma InvR_nsize_drop x s b id :
  InvR x s -> Forall (fun c => Z.of_nat (base.size c) <= ADDRMAN_NEW_BUCKET_SIZE)
                (alter (fun c => c ∖ {[ id ]}) b (vvNew s)).
Proof.
  intros HI. apply Forall_alter; [apply (inv_nsize x s HI)|]. intros c _ Hc.
  pose proof (size_diff_le c id). lia.
Qed.

(** The count drops and stays positive: the entry remains. *)
Definition unref (b id : Z) (s : CAddrMan) : CAddrMan :=
  set_vNew b (fun c => c ∖ {[ id ]}) (set_info id (fun i => set_nRefCount (nRefCount i - 1) i) s).

Lemma Inv_unref x s id i b :
  Inv x s -> mapInfo s !! id = Some i -> 0 <= b < lenZ (vvNew s) -> id ∈ vNew_at s b -> x id = 0 ->
  nRefCount i <> 1 -> Inv x (unref b id s) /\ dropped b id s (unref b id s).
Proof.
  intros [Hrnd HI] Hi Hb Hin Hx Hr1.
  destruct (InvR_untried _ _ _ _ _ HI Hi Hb Hin Hx) as (Hf & Hr & Hk).
  pose proof (InvR_nsize_drop _ _ (Z.to_nat b) id HI). destruct HI as [Iadr Iids Iidc Itried Itlen Itsize Iref Inlen Insize Iinfo InTried Icount].
  split; [split|].
  - cbn. by rewrite fmap_alter_same.
  - split; cbn; rewrite ?(fmap_alter_same netaddr), ?(fmap_alter_same fInTried) by done; try done.
    + intros j [i' Hj%lookup_alter_Some]. apply Iids.
      destruct Hj as [(<- & i0 & ? & _)|[_ ?]]; by eexists.
    + rewrite (fmap_alter_to nRefCount _ _ i (nRefCount i - 1)) by done.
      apply ref_dec with (vNew_at s b); try done. by rewrite lookup_fmap, Hi.
    + unfold lenZ in *. by rewrite length_alter.
    + intros j i' [(<- & i0 & Hi0 & ->)|[_ Hj]]%lookup_alter_Some; [|by apply (Iinfo j)].
      simplify_eq. pose proof (Iinfo id i Hi) as (? & ? & Hok). rewrite Hf in Hok.
      split_and!; [done|done|]. cbn. rewrite Hf. lia.
  - split_and!; try done. intros j Hj. cbn. by rewrite !lookup_fmap, lookup_alter_ne.
Qed.

(** The last reference: the entry goes away. *)
Definition forget (b id : Z) (i : CAddrInfo) (s : CAddrMan) : CAddrMan :=
  set_vNew b (fun c => c ∖ {[ id ]}) (set_nNew (fun n => n - 1) (set_mapInfo (delete id)
    (set_mapAddr (delete (netaddr i)) (set_vRandom (fun v => removelast v) s)))).

Lemma length_removelast {A} (l : list A) : length (removelast l) = (length l - 1)%nat.
Proof.
  destruct l as [|x l] using rev_ind; [done|]. rewrite removelast_last, length_app. cbn. lia.
Qed.

Lemma InvR_forget x s id i b :
  InvR x s -> mapInfo s !! id = Some i -> 0 <= b < lenZ (vvNew s) -> id ∈ vNew_at s b -> x id = 0 ->
  nRefCount i = 1 -> 0 < lenZ (vRandom s) -> InvR x (forget b id i s).
Proof.
  intros HI Hi Hb Hin Hx Hr1 Hne.
  destruct (InvR_untried _ _ _ _ _ HI Hi Hb Hin Hx) as (Hf & Hr & Hk).
  pose proof (InvR_nsize_drop _ _ (Z.to_nat b) id HI). destruct HI as [Iadr Iids Iidc Itried Itlen Itsize Iref Inlen Insize Iinfo InTried Icount].
  split; cbn; rewrite ?fmap_delete; try done.
  - apply adr_delete; [done|]. by rewrite lookup_fmap, Hi.
  - intros j [i' [_ Hj]%lookup_delete_Some]. apply Iids. by eexists.
  - apply tried_delete; [done|]. by rewrite lookup_fmap, Hi; cbn; rewrite Hf.
  - apply ref_delete with (vNew_at s b); try done. by rewrite lookup_fmap, Hi; cbn; rewrite Hr1.
  - unfold lenZ in *. by rewrite length_alter.
  - by apply map_Forall_delete.
  - unfold lenZ in *. rewrite length_removelast. lia.
Qed.

Lemma swap_last v p : 0 <= p < lenZ v -> swap v p (lenZ v - 1) = removelast (swap v p (lenZ v - 1)) ++ [v.[p]].
Proof.
  unfold lenZ. intros Hp. set (w := swap v p (Z.of_nat (length v) - 1)).
  assert (Hlen : length w = length v) by apply swap_length.
  assert (Hl : w !! (length w - 1)%nat = Some v.[p]).
  { rewrite Hlen. unfold w, swap. replace (length v - 1)%nat with (Z.to_nat (Z.of_nat (length v) - 1)) by lia.
    apply list_lookup_insert_eq. rewrite length_insert. lia. }
  clearbody w. destruct w as [|y w _] using rev_ind; [done|].
  rewrite removelast_last. f_equal. rewrite length_app in Hl. cbn in Hl.
  rewrite lookup_app_r in Hl by lia. replace (length w + 1 - 1 - length w)%nat with 0%nat in Hl by lia.
  cbn in Hl. congruence.
Qed.

Lemma release_spec x s id i b e (Q : unit -> CAddrMan * E -> Prop) :
  Inv x s -> mapInfo s !! id = Some i -> 0 <= b < lenZ (vvNew s) -> id ∈ vNew_at s b -> x id = 0 ->
  (forall t, Inv x (set_vNew b (fun c => c ∖ {[ id ]}) t) ->
     dropped b id s (set_vNew b (fun c => c ∖ {[ id ]}) t) -> Q tt (t, e)) ->
  wp (release id) Q (s, e).
Proof.
  intros HI Hi Hb Hin Hx HQ. unfold release. pose proof HI as [Hrnd HR].
  apply wp_bind, wp_upd, wp_bind.
  eapply wp_deref; [cbn; by rewrite lookup_alter_eq, Hi|]. cbn [nRefCount set_nRefCount].
  destruct (Z.eqb_spec (nRefCount i - 1) 0) as [Hz|Hz].
  2:{ apply wp_ret, HQ; fold (unref b id s); by eapply Inv_unref; try done; lia. }
  apply wp_bind, wp_rd, wp_bind. cbn [nRandomPos set_nRefCount].
  assert (Hpos : (nRandomPos <$> mapInfo s) !! id = Some (nRandomPos i)) by (by rewrite lookup_fmap, Hi).
  destruct (rnd_pos _ _ _ _ Hrnd Hpos) as [Hp Hat].
  change (size _) with (lenZ (vRandom s)).
  apply SwapRandom_spec; [by cbn; rewrite fmap_alter_same|done|cbn; lia|].
  intros t (m & v & -> & Em & Hv) Hrt Hvt. cbn in Em, Hv, Hrt, Hvt. subst v.
  stp. apply HQ.
  - split.
    + cbn. rewrite fmap_delete. apply rnd_pop. rewrite <-Hat at 1. by rewrite <-swap_last.
    + eapply InvR_same_but_random; [|by eapply (InvR_forget x s id i b); try done; lia].
      eexists (delete id m), _. split; [reflexivity|].
      cbn [mapInfo vRandom forget set_vNew set_nNew set_mapInfo set_mapAddr set_vRandom].
      split; [|by rewrite !length_removelast, swap_length].
      rewrite !fmap_delete, Em. apply map_eq. intros j.
      destruct (decide (j = id)) as [->|Hne]; [by rewrite !lookup_delete_eq|].
      by rewrite !lookup_delete_ne, !lookup_fmap, lookup_alter_ne.
  - split_and!; try done. intros j Hj. cbn.
    rewrite fmap_delete, lookup_delete_ne, Em, !lookup_fmap by done. by rewrite lookup_alter_ne.
Qed.

(** ** [ShrinkNew] *)

Lemma ascending_elem (l : list Z) id : id ∈ ascending l <-> id ∈ l.
Proof. unfold ascending. by rewrite merge_sort_Permutation. Qed.

Lemma ascending_length (l : list Z) : length (ascending l) = length l.
Proof. unfold ascending. by rewrite merge_sort_Permutation. Qed.

Lemma bucket_info x s b id :
  InvR x s -> 0 <= b < lenZ (vvNew s) -> id ∈ vNew_at s b ->
  exists i, mapInfo s !! id = Some i /\ 0 <= id.
Proof.
  intros HI Hb Hin. pose proof (nthZ_lookup_at ∅ _ _ Hb) as Hk.
  destruct (ref_in_bucket _ _ _ _ _ _ (inv_ref x s HI) Hk Hin) as [r Hr].
  rewrite lookup_fmap_Some in Hr. destruct Hr as (i & _ & Hi). exists i.
  split; [done|]. apply (inv_ids x s HI id). by eexists.
Qed.

Section Shrink.
Context (x : Z -> Z) (s : CAddrMan) (b : Z).
Hypothesis HI : Inv x s.
Hypothesis Hb : 0 <= b < lenZ (vvNew s).
Hypothesis Hx : forall id, id ∈ vNew_at s b -> x id = 0.

(** One entry [id] of the bucket is gone. *)
Definition shrunk (t : CAddrMan) : Prop := exists id, id ∈ vNew_at s b /\ Inv x t /\ dropped b id s t.

Lemma release_erase_spec {A} id e (k : M (CAddrMan * E) A) (Q : A -> CAddrMan * E -> Prop) :
  id ∈ vNew_at s b -> (forall t, shrunk t -> wp k Q (t, e)) ->
  wp (release id) (fun _ => wp (erase_new b id;;; k) Q) (s, e).
Proof.
  intros Hin HQ. destruct (bucket_info _ _ _ _ (proj2 HI) Hb Hin) as (i & Hi & _).
  apply (release_spec x s id i b); auto. intros t Ht Hd.
  unfold erase_new. stp. apply HQ. by exists id.
Qed.

Lemma ShrinkNew_scan_spec l e (Q : bool -> CAddrMan * E -> Prop) :
  (forall id, id ∈ l -> id ∈ vNew_at s b) ->
  (forall e', Q false (s, e')) -> (forall t e', shrunk t -> Q true (t, e')) ->
  wp (ShrinkNew_scan b l) Q (s, e).
Proof.
  intros Hl HQf HQt. revert e. induction l as [|id l IH]; intros e; [apply HQf|].
  cbn [ShrinkNew_scan]. assert (Hin : id ∈ vNew_at s b) by (apply Hl; set_solver).
  destruct (bucket_info _ _ _ _ (proj2 HI) Hb Hin) as (i & Hi & _). stp.
  apply wp_now. intros z e'. destruct (CAddrInfo.IsTerrible i z).
  - apply wp_bind, release_erase_spec; [done|]. intros t Ht. apply wp_ret. by apply HQt.
  - apply IH. intros j Hj. apply Hl. set_solver.
Qed.

(** The second loop visits an entry for each of the drawn positions. *)
Definition picked (n : list Z) (done_ : list Z) (acc : Z * Z) (st : CAddrMan * E) : Prop :=
  st.1 = s /\ acc.1 = lenZ done_ /\
  (acc.2 = -1 -> forall k, k ∈ n -> ~ 0 <= k < acc.1) /\ (acc.2 <> -1 -> acc.2 ∈ done_).

Lemma ShrinkNew_step_spec n done_ id acc st :
  (forall j, j ∈ done_ ++ [id] -> j ∈ vNew_at s b) -> picked n done_ acc st ->
  wp (ShrinkNew_step n acc id) (picked n (done_ ++ [id])) st.
Proof.
  destruct acc as [nI nOldest], st as [s' e]. intros Hin (Hs & Hn & Hnone & Hsome).
  cbn [fst snd] in *. subst s'. assert (Hid : id ∈ vNew_at s b) by (apply Hin; set_solver).
  destruct (bucket_info _ _ _ _ (proj2 HI) Hb Hid) as (i & Hi & Hpos).
  unfold ShrinkNew_step. destruct (existsb (Z.eqb nI) n) eqn:Ex.
  - stp. apply wp_assert.
    { unfold count. rewrite Hi. by rewrite bool_decide_true, orb_true_r by done. }
    destruct (Z.eqb_spec nOldest (-1)) as [->|Hne].
    + stp. unfold picked; cbn. rewrite lenZ_app, lenZ_cons, lenZ_nil. split_and!; [done|lia|lia|].
      intros _. set_solver.
    + assert (Hold : nOldest ∈ vNew_at s b) by (apply Hin; set_solver).
      destruct (bucket_info _ _ _ _ (proj2 HI) Hb Hold) as (io & Hio & _). stp.
      unfold picked; cbn. rewrite lenZ_app, lenZ_cons, lenZ_nil.
      destruct (_ <? _); split_and!; try done; try lia; set_solver.
  - stp. unfold picked; cbn. rewrite lenZ_app, lenZ_cons, lenZ_nil. split_and!; [done|lia| |set_solver].
    intros Hm k Hk Hlt. destruct (decide (k = nI)) as [->|Hki]; [|apply (Hnone Hm k Hk); lia].
    assert (existsb (Z.eqb nI) n = true) by (apply existsb_exists; exists nI; split;
      [by apply list_elem_of_In|apply Z.eqb_refl]). congruence.
Qed.

Lemma ShrinkNew_spec e (Q : Z -> CAddrMan * E -> Prop) :
  0 < Z.of_nat (base.size (vNew_at s b)) < 2 ^ 31 ->
  (forall r t e', shrunk t -> Q r (t, e')) ->
  wp (ShrinkNew b) Q (s, e).
Proof.
  intros Hsz HQ. unfold ShrinkNew. stp. apply wp_assert; [lia|]. stp.
  set (l := ascending (elements (vNew_at s b))).
  assert (Hl : forall id, id ∈ l <-> id ∈ vNew_at s b).
  { intros id. unfold l. by rewrite ascending_elem, elem_of_elements. }
  apply ShrinkNew_scan_spec; [by intros id; rewrite Hl| |].
  2:{ intros t e' Ht. apply wp_ret. by apply HQ. }
  intros e0. do 4 (stp; apply wp_rand; [done|]; intros ? ? ?). stp.
  eapply wp_mono.
  - apply (wp_foldM _ (picked [r; r0; r1; r2])).
    + unfold picked; cbn. split_and!; [done|done|lia|done].
    + intros done_ id rest acc st El Hacc. apply ShrinkNew_step_spec; [|done].
      intros j Hj. apply Hl. rewrite El. set_solver.
  - intros [nI nOldest] [s' ee] (Hs & Hn & Hnone & Hsome). cbn [fst snd] in *. subst s'.
    assert (Hlen : lenZ l = Z.of_nat (base.size (vNew_at s b))).
    { unfold lenZ, l. by rewrite ascending_length. }
    assert (Hold : nOldest ∈ vNew_at s b).
    { apply Hl, Hsome. intros ->. apply (Hnone eq_refl r); [set_solver|lia]. }
    destruct (bucket_info _ _ _ _ (proj2 HI) Hb Hold) as (io & Hio & _). stp.
    apply release_erase_spec; [done|]. intros t Ht. apply wp_ret. by apply HQ.
Qed.
End Shrink.

(** ** [Add_] *)

(** An assignment to the fields no index mirrors. *)
Definition index_neutral (f : CAddrInfo -> CAddrInfo) : Prop :=
  forall i, nRandomPos (f i) = nRandomPos i /\ netaddr (f i) = netaddr i /\
            fInTried (f i) = fInTried i /\ nRefCount (f i) = nRefCount i.

Lemma Inv_set_info x s id f i :
  index_neutral f -> mapInfo s !! id = Some i -> info_ok (f i) -> Inv x s -> Inv x (set_info id f s).
Proof.
  intros Hf Hi Hok [Hrnd [Iadr Iids Iidc Itried Itlen Itsize Iref Inlen Insize Iinfo InTried Icount]]. split; [|split]; cbn;
    rewrite ?(fmap_alter_same nRandomPos), ?(fmap_alter_same netaddr), ?(fmap_alter_same fInTried),
      ?(fmap_alter_same nRefCount) by (intros; apply Hf); try done.
  - intros j [i' Hj%lookup_alter_Some]. apply Iids.
    destruct Hj as [(<- & i0 & ? & _)|[_ ?]]; by eexists.
  - intros j i' [(<- & i0 & Hi0 & ->)|[_ Hj]]%lookup_alter_Some; [|by apply (Iinfo j)].
    by simplify_eq.
Qed.

Definition addref (i : CAddrInfo) : CAddrInfo := set_nRefCount (nRefCount i + 1) i.

(** A reference to an entry outside the tried table is taken. *)
Lemma Inv_addref s id i :
  AddrInv s -> mapInfo s !! id = Some i -> fInTried i = false ->
  nRefCount i <> ADDRMAN_NEW_BUCKETS_PER_ADDRESS -> Inv (pending id) (set_info id addref s).
Proof.
  intros [Hrnd [Iadr Iids Iidc Itried Itlen Itsize Iref Inlen Insize Iinfo InTried Icount]] Hi Hf Hr. split; [|split]; cbn;
    rewrite ?(fmap_alter_same nRandomPos), ?(fmap_alter_same netaddr), ?(fmap_alter_same fInTried)
      by done; try done.
  - intros j [i' Hj%lookup_alter_Some]. apply Iids.
    destruct Hj as [(<- & i0 & ? & _)|[_ ?]]; by eexists.
  - rewrite (fmap_alter_to nRefCount _ _ i (nRefCount i + 1)) by done. intros j.
    specialize (Iref j). unfold no_pending, pending in *. destruct (decide (j = id)) as [->|Hne].
    + rewrite lookup_insert_eq. rewrite lookup_fmap, Hi in Iref. cbn in Iref. lia.
    + by rewrite lookup_insert_ne.
  - intros j i' [(<- & i0 & Hi0 & ->)|[_ Hj]]%lookup_alter_Some; [|by apply (Iinfo j)].
    simplify_eq. pose proof (Iinfo id i Hi) as (? & ? & Hok). unfold info_ok. cbn.
    rewrite Hf in *. split_and!; try done. all: lia.
Qed.

(** [nId] can be put into a bucket: it holds one reference too few. *)
Definition addable (nId : Z) (t : CAddrMan) : Prop :=
  Inv (pending nId) (set_info nId addref t) /\
  (forall b, 0 <= b < lenZ (vvNew t) -> nId ∈ vNew_at t b -> AddrInv t).

Lemma Inv_put t b nId :
  Inv (pending nId) t -> 0 <= b < lenZ (vvNew t) -> nId ∉ vNew_at t b ->
  Z.of_nat (base.size (vNew_at t b)) < ADDRMAN_NEW_BUCKET_SIZE -> is_Some (mapInfo t !! nId) ->
  AddrInv (set_vNew b (fun c => {[ nId ]} ∪ c) t).
Proof.
  intros [Hrnd [Iadr Iids Iidc Itried Itlen Itsize Iref Inlen Insize Iinfo InTried Icount]] Hb Hni Hsz [i Hi]. pose proof (nthZ_lookup_at ∅ _ _ Hb) as Hk.
  split; [done|]. split; cbn; try done.
  - apply (ref_put (pending nId) _ _ _ _ (vNew_at t b)); try done.
    rewrite lookup_fmap, Hi. by eexists.
  - unfold lenZ in *. by rewrite length_alter.
  - apply Forall_alter; [done|]. intros c Hc Hle. change (vNew_at t b) with (nthZ ∅ (vvNew t) b) in *.
    rewrite Hk in Hc. injection Hc as <-. rewrite size_union, size_singleton by set_solver. lia.
Qed.

Lemma GetNewBucket_range i key src : 0 <= CAddrInfo.GetNewBucket i key src < ADDRMAN_NEW_BUCKET_COUNT.
Proof. apply Z.mod_pos_bound. done. Qed.

Lemma GetTriedBucket_range i key : 0 <= CAddrInfo.GetTriedBucket i key < ADDRMAN_TRIED_BUCKET_COUNT.
Proof. apply Z.mod_pos_bound. done. Qed.

Lemma vNew_at_alter s b f : 0 <= b < lenZ (vvNew s) -> vNew_at (set_vNew b f s) b = f (vNew_at s b).
Proof.
  intros Hb. unfold vNew_at. apply nthZ_Some; [lia|]. cbn.
  by rewrite list_lookup_alter_eq, (nthZ_lookup_at ∅ _ _ Hb).
Qed.

Lemma bucket_le x s b :
  InvR x s -> 0 <= b < lenZ (vvNew s) -> Z.of_nat (base.size (vNew_at s b)) <= ADDRMAN_NEW_BUCKET_SIZE.
Proof.
  intros HI Hb. pose proof (inv_nsize x s HI) as Hs. rewrite Forall_lookup in Hs.
  by eapply Hs, nthZ_lookup_at.
Qed.

(** [nId] has the address it had, and is in the bucket its source selects. *)
Definition in_new_table (nId : Z) (ip : CNetAddr) (b : Z) (t : CAddrMan) : Prop :=
  (netaddr <$> mapInfo t !! nId) = Some ip /\ nId ∈ vNew_at t b.

Lemma Add_bucket_spec nId i src t e (Q : unit -> CAddrMan * E -> Prop) :
  addable nId t -> mapInfo t !! nId = Some i ->
  (forall t' e', AddrInv t' -> in_new_table nId (netaddr i) (CAddrInfo.GetNewBucket i (nKey t) src) t' ->
     Q tt (t', e')) ->
  wp (Add_bucket nId src) Q (t, e).
Proof.
  intros [HI Hin] Hi HQ. unfold Add_bucket. stp.
  set (b := CAddrInfo.GetNewBucket i (nKey t) src) in *.
  assert (Hb : 0 <= b < lenZ (vvNew t)).
  { change (vvNew t) with (vvNew (set_info nId addref t)). rewrite (inv_nlen _ _ (proj2 HI)).
    apply GetNewBucket_range. }
  case_bool_decide as Hmem.
  { apply wp_ret, HQ; [by apply (Hin b)|]. split; [by rewrite Hi|done]. }
  stp. change (set_info nId _ t) with (set_info nId addref t).
  set (s := set_info nId addref t) in *.
  assert (Hsi : mapInfo s !! nId = Some (addref i)) by (cbn; by rewrite lookup_alter_eq, Hi).
  assert (Hx : forall id, id ∈ vNew_at s b -> pending nId id = 0).
  { intros id Hid. unfold pending. destruct (decide (id = nId)) as [->|]; [|done].
    by destruct Hmem. }
  pose proof (bucket_le _ _ b (proj2 HI) Hb) as Hle.
  change (vNew_at s b) with (vNew_at t b) in *.
  destruct (Z.eqb_spec (Z.of_nat (base.size (vNew_at t b))) ADDRMAN_NEW_BUCKET_SIZE) as [Hfull|Hroom].
  - eapply (ShrinkNew_spec (pending nId) s b); [done|done|done| |].
    { change (vNew_at s b) with (vNew_at t b). rewrite Hfull. done. }
    intros r t' e' (id & Hid & HI' & (Hv & _ & _ & Hsame)). unfold insert_new. stp.
    assert (Hne : nId <> id) by (intros ->; done).
    assert (Hb' : 0 <= b < lenZ (vvNew t')) by (rewrite Hv; unfold lenZ in *; by rewrite length_alter).
    assert (Hvb : vNew_at t' b = vNew_at t b ∖ {[ id ]}).
    { unfold vNew_at at 1. rewrite Hv. by apply (vNew_at_alter s b (fun c => c ∖ {[ id ]})). }
    specialize (Hsame nId Hne). rewrite !lookup_fmap, Hsi in Hsame.
    destruct (mapInfo t' !! nId) as [i'|] eqn:Hi'; [|done]. apply (inj Some) in Hsame.
    apply HQ; [apply Inv_put|split].
    + done.
    + done.
    + rewrite Hvb. set_solver.
    + rewrite Hvb, size_difference by set_solver. rewrite size_singleton. unfold ADDRMAN_NEW_BUCKET_SIZE in *. lia.
    + by eexists.
    + cbn. rewrite Hi'. cbn. f_equal.
      exact (f_equal netaddr Hsame).
    + rewrite vNew_at_alter by done. set_solver.
  - unfold insert_new. stp. apply HQ; [apply Inv_put|split]; try done.
    + change (vNew_at s b) with (vNew_at t b). lia.
    + cbn. by rewrite lookup_alter_eq, Hi.
    + rewrite vNew_at_alter by done. set_solver.
Qed.

Lemma Find_spec x s ip id :
  Inv x s -> (Find ip s = Some id <-> exists i, mapInfo s !! id = Some i /\ netaddr i = ip).
Proof.
  intros [_ HI]. pose proof (inv_adr x s HI ip id) as Ha. rewrite lookup_fmap_Some in Ha.
  assert (Hiff : mapAddr s !! ip = Some id <-> exists i, mapInfo s !! id = Some i /\ netaddr i = ip)
    by naive_solver.
  rewrite <-Hiff. unfold Find, count. split; intros Hf.
  - destruct (mapAddr s !! ip) as [id'|]; [|done]. by destruct (bool_decide _); simplify_eq.
  - pose proof (proj1 Hiff Hf) as (i & Hi & _). rewrite Hf, Hi. by rewrite bool_decide_true by eauto.
Qed.

Lemma Find_None x s ip : Inv x s -> Find ip s = None -> mapAddr s !! ip = None.
Proof.
  intros HI Hf. destruct (mapAddr s !! ip) as [id|] eqn:Ha; [|done].
  pose proof (inv_adr x s (proj2 HI) ip id) as Hiff. rewrite lookup_fmap_Some in Hiff.
  apply Hiff in Ha as (i & Hn & Hi). assert (Find ip s = Some id); [|congruence].
  apply (Find_spec x s ip id HI). by exists i.
Qed.

Lemma alter_insert_here {A} (f : A -> A) (a : A) (k : Z) (m : gmap Z A) :
  alter f k (<[k := a]> m) = <[k := f a]> m.
Proof.
  apply map_eq. intros j. destruct (decide (k = j)) as [->|Hne].
  - by rewrite lookup_alter_eq, !lookup_insert_eq.
  - by rewrite lookup_alter_ne, !lookup_insert_ne.
Qed.

Lemma wp_update_info x f nId i s e (Q : unit -> CAddrMan * E -> Prop) :
  index_neutral f -> Inv x s -> mapInfo s !! nId = Some i -> info_ok (f i) ->
  (Inv x (set_info nId f s) -> mapInfo (set_info nId f s) !! nId = Some (f i) ->
     Q tt (set_info nId f s, e)) ->
  wp (upd (set_info nId f)) Q (s, e).
Proof.
  intros Hf HI Hi Hok HQ. apply wp_upd, HQ; [by eapply Inv_set_info|].
  cbn. by rewrite lookup_alter_eq, Hi.
Qed.

(** What the part of [Add_] before the choice of a bucket establishes. *)
Definition add_ready (nId : Z) (ip : CNetAddr) (fNew : bool) (r : option (Z * bool)) (t : CAddrMan) : Prop :=
  match r with
  | None => fNew = false /\ AddrInv t
  | Some (id, b) => id = nId /\ b = fNew /\ addable nId t
  end /\ (netaddr <$> mapInfo t !! nId) = Some ip.

Lemma Add_existing_spec nId i addr pen s e :
  AddrInv s -> mapInfo s !! nId = Some i ->
  wp (Add_existing nId addr pen) (fun r st => add_ready nId (netaddr i) false r st.1) (s, e).
Proof.
  intros HI Hi. unfold Add_existing. stp. apply wp_now. intros z e'. stp.
  pose proof (inv_info _ _ (proj2 HI) nId i Hi) as Hok.
  assert (Hstep : forall i1 s1 e1, AddrInv s1 -> mapInfo s1 !! nId = Some i1 -> netaddr i1 = netaddr i ->
    wp (upd (set_info nId (fun i0 => set_nServices (Z.lor (nServices (ca i0)) (nServices addr)) i0));;;
        info <- deref nId;;
        if (nTime addr =? 0) || (negb (time info =? 0) && (nTime addr <=? time info)) then ret None
        else if fInTried info then ret None
        else if nRefCount info =? ADDRMAN_NEW_BUCKETS_PER_ADDRESS then ret None
        else
          let nFactor := Nat.iter (Z.to_nat (nRefCount info)) (fun f => f * 2) 1 in
          if 1 <? nFactor then r <- rand nFactor;; ret (if r =? 0 then Some (nId, false) else None)
          else ret (Some (nId, false)))
      (fun r st => add_ready nId (netaddr i) false r st.1) (s1, e1)).
  { intros i1 s1 e1 HI1 Hi1 Hip. pose proof (inv_info _ _ (proj2 HI1) nId i1 Hi1) as Hok1.
    apply wp_bind, (wp_update_info no_pending _ _ i1); [done|done|done|done|]. intros HI2 Hi2.
    set (s2 := set_info nId _ s1) in *. set (i2 := set_nServices _ i1) in *. stp.
    pose proof (inv_info _ _ (proj2 HI2) nId i2 Hi2) as (_ & _ & Hok2).
    assert (Hn : (netaddr <$> mapInfo s2 !! nId) = Some (netaddr i)) by (rewrite Hi2; exact (f_equal Some Hip)).
    destruct (_ || _); [by apply wp_ret|].
    destruct (fInTried i2) eqn:Hf; [by apply wp_ret|].
    destruct (Z.eqb_spec (nRefCount i2) ADDRMAN_NEW_BUCKETS_PER_ADDRESS) as [|Hr]; [by apply wp_ret|].
    assert (Hadd : addable nId s2) by (split; [by apply (Inv_addref s2 nId i2)|done]).
    assert (Hrc : nRefCount i2 = 1 \/ nRefCount i2 = 2 \/ nRefCount i2 = 3)
      by (unfold ADDRMAN_NEW_BUCKETS_PER_ADDRESS in *; lia).
    destruct (Z.ltb_spec 1 (Nat.iter (Z.to_nat (nRefCount i2)) (fun f => f * 2) 1)); [|by apply wp_ret].
    apply wp_bind, wp_rand; [split; [lia|]; by destruct Hrc as [->|[->| ->]]|].
    intros r e2 _. apply wp_ret. by destruct (r =? 0). }
  destruct (_ && _).
  - apply (wp_update_info no_pending _ _ i); [done|done|done|done|]. intros HI1 Hi1.
    by eapply Hstep.
  - apply wp_ret. by eapply Hstep.
Qed.

Lemma Add_fresh_spec addr src pen s e :
  AddrInv s -> Find (sv_ip (ca_service addr)) s = None ->
  wp (Add_fresh addr src pen)
     (fun r st => add_ready (nIdCount s) (sv_ip (ca_service addr)) true r st.1 /\
                  is_Some r /\ vvTried st.1 = vvTried s) (s, e).
Proof.
  intros HI Hf. pose proof (Find_None _ _ _ HI Hf) as Ha. destruct HI as [Hrnd [Iadr Iids Iidc Itried Itlen Itsize Iref Inlen Insize Iinfo InTried Icount]].
  assert (Hid : mapInfo s !! nIdCount s = None).
  { destruct (mapInfo s !! nIdCount s) eqn:E'; [|done]. specialize (Iids (nIdCount s)).
    rewrite E' in Iids. assert (0 <= nIdCount s < nIdCount s) by eauto. lia. }
  assert (Hcnt : new_count (vvNew s) (nIdCount s) = 0).
  { specialize (Iref (nIdCount s)). by rewrite lookup_fmap, Hid in Iref. }
  unfold Add_fresh, Create. stp. split_and!; [|by eexists|done].
  split; [|cbn; by rewrite !alter_insert_here, lookup_insert_eq]. split_and!; [done|done|]. split.
  2:{ intros b Hb Hin. cbn in Hb, Hin. exfalso.
      pose proof (new_count_pos _ _ _ _ (nthZ_lookup_at ∅ _ _ Hb) Hin). lia. }
  split; [|split]; cbn -[Z.add]; rewrite ?alter_insert_here, ?fmap_insert; cbn -[Z.add]; try done.
  - apply rnd_push; [done|]. by rewrite lookup_fmap, Hid.
  - apply adr_insert; [done| |done]. by rewrite lookup_fmap, Hid.
  - intros j [i [[<- _]|[_ Hj]]%lookup_insert_Some]; [lia|].
    specialize (Iids j (ex_intro _ i Hj)). lia.
  - lia.
  - apply tried_fresh; [done|]. by rewrite lookup_fmap, Hid.
  - intros j. specialize (Iref j). unfold pending. destruct (decide (j = nIdCount s)) as [->|Hne].
    + rewrite lookup_insert_eq. lia.
    + by rewrite lookup_insert_ne.
  - apply map_Forall_insert_2; [|done]. unfold info_ok, ADDRMAN_NEW_BUCKETS_PER_ADDRESS. cbn. lia.
  - rewrite lenZ_app, lenZ_cons, lenZ_nil. lia.
Qed.

(** [Add_] never aborts, keeps the object consistent, and reports a new address exactly when a
    routable address was not known; the address is then known. *)
Lemma Add_spec addr src pen s e :
  AddrInv s ->
  wp (Add_ addr src pen) (fun r st => AddrInv st.1 /\
    let ip := sv_ip (ca_service addr) in
    r = CNetAddr.IsRoutable ip && bool_decide (Find ip s = None) /\
    (CNetAddr.IsRoutable ip = true -> is_Some (Find ip st.1))) (s, e).
Proof.
  intros HI. unfold Add_. set (ip := sv_ip (ca_service addr)).
  destruct (CNetAddr.IsRoutable ip); cbn [negb andb]; [|by apply wp_ret].
  assert (Hknown : forall nId t, AddrInv t -> (netaddr <$> mapInfo t !! nId) = Some ip -> is_Some (Find ip t)).
  { intros nId t HIt Hn. destruct (mapInfo t !! nId) as [i|] eqn:Hi; [|done].
    injection Hn as Hn. exists nId. apply (Find_spec _ _ _ _ HIt). by exists i. }
  assert (Hgo : forall nId fNew r st, fNew = bool_decide (Find ip s = None) -> add_ready nId ip fNew r st.1 ->
    wp (match r with None => ret false | Some (nId, fNew) => Add_bucket nId src;;; ret fNew end)
       (fun r st => AddrInv st.1 /\ r = bool_decide (Find ip s = None) /\
         (true = true -> is_Some (Find ip st.1))) st).
  { intros nId fNew [[id b]|] [t e'] Hnew [Hr Hn].
    - destruct Hr as (-> & -> & Hadd). cbn [fst] in *.
      destruct (mapInfo t !! nId) as [i|] eqn:Hi; [|done]. injection Hn as Hn.
      apply wp_bind, (Add_bucket_spec nId i); [done|done|]. intros t' e'' HI' [Hn' _].
      apply wp_ret. split_and!; [done|done|]. intros _. apply (Hknown nId); [done|]. by rewrite <-Hn.
    - destruct Hr as [-> HIt]. apply wp_ret. split_and!; [done|done|]. intros _. by eapply Hknown. }
  stp. fold ip. destruct (Find ip s) as [nId|] eqn:Hf.
  - apply (Find_spec _ _ _ _ HI) in Hf as (i & Hi & <-).
    eapply wp_mono; [by apply Add_existing_spec|]. intros r t Hr. eapply Hgo; [|exact Hr]. by rewrite bool_decide_false.
  - eapply wp_mono; [by apply Add_fresh_spec|]. intros r t [Hr _]. eapply Hgo; [|exact Hr]. by rewrite bool_decide_true.
Qed.

End Proofs.
