(* ===== verification/AddrManTried.v ===== *)
(** The tried table of the address manager: [SelectTried], [MakeTried] and [Good_] preserve the
    invariant of AddrManInv.v, and [Good_] moves the entry to its tried bucket. *)

From S2P Require Import Prelude Monad Rand Codec NetAddr AddrMan AddrManInv.

Section Proofs.
Context `{Hasher, AddressTypes, NetworkEnum, Env : Environment E}.
Implicit Types (s t : CAddrMan) (e : E) (i : CAddrInfo).

(** ** [SelectTried] *)

Lemma set_vTried_same s b :
  0 <= b < lenZ (vvTried s) -> set_vTried b (fun _ => vTried_at s b) s = s.
Proof.
  intros Hb. destruct s as [k c m a v t vt n vn]. unfold set_vTried, vTried_at. cbn in *. f_equal.
  rewrite <-list_insert_alter. by apply list_insert_id, nthZ_lookup_at.
Qed.

Section Select.
Context (s : CAddrMan) (b : Z).
Hypothesis Hb : 0 <= b < lenZ (vvTried s).
Hypothesis Hin : forall id, id ∈ vTried_at s b -> is_Some (mapInfo s !! id) /\ 0 <= id.
Hypothesis Hlen : lenZ (vTried_at s b) < 2 ^ 31.

(** The bucket is shuffled; the accumulator names one of its positions. *)
Definition selected (done_ : list Z) (acc : Z * Z) (st : CAddrMan * E) : Prop :=
  exists l, l ≡ₚ vTried_at s b /\ st.1 = set_vTried b (fun _ => l) s /\
    (done_ = [] \/ (acc.1 ∈ l /\ 0 <= acc.2 < lenZ l)).

Lemma vTried_at_set l t : vvTried t = vvTried (set_vTried b (fun _ => l) s) -> vTried_at t b = l.
Proof.
  intros E'. unfold vTried_at. apply nthZ_Some; [lia|]. rewrite E'. cbn.
  by rewrite list_lookup_alter_eq, (nthZ_lookup_at [] _ _ Hb).
Qed.

Lemma SelectTried_step_spec done_ k acc st :
  0 <= k < lenZ (vTried_at s b) -> (done_ = [] -> acc.1 = -1) -> selected done_ acc st ->
  wp (SelectTried_step b acc k) (selected (done_ ++ [k])) st.
Proof.
  destruct acc as [nOldest nOldestPos], st as [s' e].
  intros Hk Hfirst (l & Hl & Hs & Hacc). cbn [fst snd] in *. subst s'.
  assert (Hll : lenZ l = lenZ (vTried_at s b)) by (unfold lenZ; by rewrite Hl).
  unfold SelectTried_step. stp. rewrite (vTried_at_set l) by done.
  apply wp_rand; [lia|]. intros r e' Hr. stp.
  set (w := swap l (r + k) k).
  assert (Hw : w ≡ₚ l) by (apply swap_perm; lia).
  assert (Htemp : l.[r + k] ∈ l).
  { eapply list_elem_of_lookup_2, nthZ_lookup_at. lia. }
  assert (Hs : set_vTried b (fun l0 => <[Z.to_nat k := l.[r + k]]> (<[Z.to_nat (r + k) := l.[k]]> l0))
             (set_vTried b (fun _ => l) s) = set_vTried b (fun _ => w) s).
  { unfold set_vTried; cbn. f_equal. apply alter_const. }
  rewrite Hs. clear Hs.
  destruct (Hin (l.[r + k])) as [[it Hit] Hpos]; [by rewrite <-Hl|].
  assert (Hend : forall a p, a ∈ l -> 0 <= p < lenZ l ->
            selected (done_ ++ [k]) (a, p) (set_vTried b (fun _ => w) s, e')).
  { intros a p Ha Hp. exists w. cbn. split_and!; [by rewrite Hw|done|]. right.
    split; [by rewrite Hw|]. unfold lenZ in *. by rewrite Hw. }
  apply wp_assert. { unfold count. cbn. rewrite Hit. by rewrite bool_decide_true, orb_true_r by done. }
  destruct (Z.eqb_spec nOldest (-1)) as [->|Hne].
  { stp. apply Hend; [done|lia]. }
  destruct Hacc as [->|[Ha Hp]]; [by destruct (Hne (Hfirst eq_refl))|].
  destruct (Hin nOldest) as [[io Hio] _]; [by rewrite <-Hl|]. stp.
  destruct (_ <? _); apply Hend; done || lia.
Qed.

Lemma SelectTried_spec e (Q : Z -> CAddrMan * E -> Prop) :
  0 < lenZ (vTried_at s b) ->
  (forall p l e', 0 <= p < lenZ l -> l ≡ₚ vTried_at s b -> Q p (set_vTried b (fun _ => l) s, e')) ->
  wp (SelectTried b) Q (s, e).
Proof.
  intros Hne HQ. unfold SelectTried. stp. set (n := Z.min _ _).
  assert (Hn : 0 < n <= lenZ (vTried_at s b)).
  { unfold n, ADDRMAN_TRIED_ENTRIES_INSPECT_ON_EVICT. lia. }
  eapply wp_mono.
  - apply (wp_foldM _ (fun done_ acc st => selected done_ acc st /\ (done_ = [] -> acc.1 = -1))).
    + split; [|done]. exists (vTried_at s b). split_and!; [done| |by left].
      cbn. symmetry. by apply set_vTried_same.
    + intros done_ k rest acc st El [Hsel Hfirst].
      assert (Hk : k ∈ seqZ 0 n) by (rewrite El; set_solver). apply elem_of_seqZ in Hk.
      eapply wp_mono; [apply SelectTried_step_spec; [lia|done|done]|].
      intros acc' st' Hsel'. split; [done|]. intros E'. by destruct done_.
  - intros [a p] [s' e'] [(l & Hl & Hs & Hacc) _]. cbn [fst snd] in *. subst s'. apply wp_ret.
    apply HQ; [|done]. destruct Hacc as [E'|[_ Hp]]; [|done].
    exfalso. assert (Hi : 0 ∈ seqZ 0 n) by (apply elem_of_seqZ; lia). rewrite E' in Hi. set_solver.
Qed.
End Select.

(** ** [MakeTried] *)

Definition without (id : Z) (c : gset Z) : gset Z := c ∖ {[ id ]}.

Lemma new_count_without vv id j :
  new_count (without id <$> vv) j = if decide (j = id) then 0 else new_count vv j.
Proof.
  induction vv as [|c vv IH]; [by destruct (decide _)|]. cbn [fmap list_fmap].
  rewrite !new_count_cons, IH. unfold without. destruct (decide (j = id)) as [->|Hne].
  - by rewrite decide_False by set_solver.
  - f_equal. destruct (decide (j ∈ c)); [by rewrite decide_True by set_solver|].
    by rewrite decide_False by set_solver.
Qed.

(** The state after the first [k] new buckets have dropped [nId]. *)
Definition detached (nId : Z) (i : CAddrInfo) (k : nat) (s : CAddrMan) : CAddrMan :=
  mkMan (nKey s) (nIdCount s)
    (<[nId := set_nRefCount (new_count (drop k (vvNew s)) nId) i]> (mapInfo s)) (mapAddr s)
    (vRandom s) (nTried s) (vvTried s) (nNew s)
    ((without nId <$> take k (vvNew s)) ++ drop k (vvNew s)).

Lemma detached_0 x s nId i :
  InvR x s -> x nId = 0 -> mapInfo s !! nId = Some i -> detached nId i 0 s = s.
Proof.
  intros HI Hx Hi. pose proof (inv_ref x s HI nId) as Hr. rewrite lookup_fmap, Hi in Hr. cbn in Hr.
  unfold detached. rewrite drop_0. destruct s as [key c m a v t vt n vn]; cbn in *. f_equal.
  apply insert_id. rewrite Hi. f_equal. unfold set_nRefCount. destruct i; cbn in *. f_equal. lia.
Qed.

Lemma detach_spec x s nId i e (Q : unit -> CAddrMan * E -> Prop) :
  InvR x s -> x nId = 0 -> mapInfo s !! nId = Some i ->
  Q tt (detached nId i (length (vvNew s)) s, e) -> wp (MakeTried_detach nId) Q (s, e).
Proof.
  intros HI Hx Hi HQ. unfold MakeTried_detach. stp.
  eapply wp_mono.
  - apply (wp_foldM _ (fun done_ (_ : unit) st => st = (detached nId i (length done_) s, e))).
    + by erewrite detached_0.
    + intros done_ k rest [] st El ->. set (d := length done_).
      assert (Hlk : seqZ 0 (lenZ (vvNew s)) !! d = Some k) by (rewrite El; by apply list_lookup_middle).
      apply lookup_seqZ in Hlk as [-> Hd]. cbn [Z.add] in *. unfold lenZ in Hd.
      destruct (lookup_lt_is_Some_2 (vvNew s) d) as [c Hc]; [lia|].
      assert (Hmid : (without nId <$> take d (vvNew s)) ++ drop d (vvNew s)
                     = (without nId <$> take d (vvNew s)) ++ c :: drop (S d) (vvNew s))
        by (f_equal; by apply drop_S).
      assert (Hlen : length (without nId <$> take d (vvNew s)) = d)
        by (rewrite length_fmap, length_take; lia).
      assert (Hat : vNew_at (detached nId i d s) (Z.of_nat d) = c).
      { unfold vNew_at. apply nthZ_Some; [lia|]. rewrite Nat2Z.id. cbn. rewrite Hmid.
        by apply list_lookup_middle. }
      assert (Hnext : (without nId <$> take (S d) (vvNew s)) ++ drop (S d) (vvNew s)
              = (without nId <$> take d (vvNew s)) ++ without nId c :: drop (S d) (vvNew s)).
      { rewrite (take_S_r _ _ c) by done. rewrite fmap_app, <-app_assoc. done. }
      assert (Hcnt : new_count (drop d (vvNew s)) nId
              = (if decide (nId ∈ c) then 1 else 0) + new_count (drop (S d) (vvNew s)) nId)
        by (by rewrite (drop_S _ c), new_count_cons).
      rewrite length_app, Nat.add_1_r. fold d. stp. rewrite !Z.add_0_l, Hat. case_bool_decide as Hmem.
      * unfold erase_new. stp. f_equal. unfold detached, set_info, set_mapInfo, set_vNew; cbn. f_equal.
        -- rewrite alter_insert_here. f_equal. unfold set_nRefCount; cbn. f_equal.
           rewrite Hcnt, decide_True by done. lia.
        -- rewrite Hnext, Hmid, Nat2Z.id, alter_app_r_alt by lia. by rewrite Hlen, Nat.sub_diag.
      * stp. f_equal. unfold detached; cbn. f_equal.
        -- f_equal. unfold set_nRefCount. f_equal. rewrite Hcnt, decide_False by done. lia.
        -- rewrite Hnext, Hmid. do 2 f_equal. unfold without. set_solver.
  - intros [] st ->. rewrite length_seqZ. unfold lenZ. by rewrite Nat2Z.id.
Qed.

Lemma fmap_insert_same {B} (f : CAddrInfo -> B) (m : gmap Z CAddrInfo) id i a :
  m !! id = Some i -> f a = f i -> f <$> <[id := a]> m = f <$> m.
Proof. intros Hi Hf. rewrite fmap_insert, Hf. apply insert_id. by rewrite lookup_fmap, Hi. Qed.

Lemma ref_detach x m vv id :
  ref_ok x m vv -> is_Some (m !! id) -> x id = 0 -> ref_ok x (<[id := 0]> m) (without id <$> vv).
Proof.
  intros Hr Hid Hx j. specialize (Hr j). rewrite new_count_without.
  destruct (decide (j = id)) as [->|Hne]; [rewrite lookup_insert_eq; lia|].
  by rewrite lookup_insert_ne.
Qed.

Lemma without_size vv id :
  Forall (fun c => Z.of_nat (base.size c) <= ADDRMAN_NEW_BUCKET_SIZE) vv ->
  Forall (fun c => Z.of_nat (base.size c) <= ADDRMAN_NEW_BUCKET_SIZE) (without id <$> vv).
Proof.
  intros Hs. apply Forall_fmap. eapply Forall_impl; [exact Hs|]. intros c Hc.
  cbn beta in Hc. pose proof (size_diff_le c id). unfold without, compose. lia.
Qed.

Definition to_tried (i : CAddrInfo) : CAddrInfo := set_fInTried true (set_nRefCount 0 i).
Definition to_new (i : CAddrInfo) : CAddrInfo := set_nRefCount 1 (set_fInTried false i).

Section Tried.
Context (s : CAddrMan) (nId : Z) (i : CAddrInfo) (b : Z).
Hypothesis HI : AddrInv s.
Hypothesis Hi : mapInfo s !! nId = Some i.
Hypothesis Hf : fInTried i = false.
Hypothesis Hls : nLastSuccess i <> 0.
Hypothesis Hb : 0 <= b < lenZ (vvTried s).

Lemma tried_elem_info b' id :
  0 <= b' < lenZ (vvTried s) -> id ∈ vTried_at s b' ->
  exists io, mapInfo s !! id = Some io /\ fInTried io = true /\ 0 <= id /\ id <> nId.
Proof.
  intros Hb' Hin. destruct (inv_tried _ _ (proj2 HI)) as [_ Ht].
  assert (Hc : id ∈ concat (vvTried s)).
  { apply list_elem_of_In, in_concat. exists (vTried_at s b').
    split; [|by apply list_elem_of_In]. apply list_elem_of_In.
    by eapply list_elem_of_lookup_2, nthZ_lookup_at. }
  apply Ht in Hc. rewrite lookup_fmap_Some in Hc. destruct Hc as (io & Hio & Hm).
  exists io. split_and!; [done|done| |by intros ->; simplify_eq; congruence].
  apply (inv_ids _ _ (proj2 HI) id). by eexists.
Qed.

(** There is place in the tried bucket. *)
Definition tried_room : CAddrMan :=
  mkMan (nKey s) (nIdCount s) (<[nId := to_tried i]> (mapInfo s)) (mapAddr s) (vRandom s)
    (1 + nTried s) (alter (fun l => l ++ [nId]) (Z.to_nat b) (vvTried s)) (nNew s - 1)
    (without nId <$> vvNew s).

Lemma Inv_tried_room :
  lenZ (vTried_at s b) < ADDRMAN_TRIED_BUCKET_SIZE -> AddrInv tried_room.
Proof.
  intros Hsz. pose proof (nthZ_lookup_at [] _ _ Hb) as Hk. fold (vTried_at s b) in Hk.
  destruct (concat_alter _ _ _ Hk) as (rest & Hc & Hca).
  assert (Hnew : concat (alter (fun l => l ++ [nId]) (Z.to_nat b) (vvTried s)) ≡ₚ nId :: concat (vvTried s)).
  { rewrite Hca, Hc, <-app_assoc. symmetry. apply Permutation_middle. }
  destruct HI as [Hrnd [Iadr Iids Iidc Itried Itlen Itsize Iref Inlen Insize Iinfo InTried Icount]].
  split; [|split]; cbn -[Z.add]; rewrite ?(fmap_insert_same nRandomPos _ _ i), ?(fmap_insert_same netaddr _ _ i) by done; try done.
  - intros j [i' [[<- _]|[_ Hj]]%lookup_insert_Some]; apply Iids; by eexists.
  - rewrite Hnew, fmap_insert. apply tried_push; [done|]. by rewrite lookup_fmap, Hi; cbn; rewrite Hf.
  - unfold lenZ in *. by rewrite length_alter.
  - apply Forall_alter; [done|]. intros l Hl _. rewrite Hk in Hl. injection Hl as <-.
    rewrite lenZ_app, lenZ_cons, lenZ_nil. lia.
  - rewrite fmap_insert. apply ref_detach; [done| |done]. rewrite lookup_fmap, Hi. by eexists.
  - unfold lenZ in *. by rewrite length_fmap.
  - by apply without_size.
  - apply map_Forall_insert_2; [|done]. destruct (Iinfo nId i Hi) as (? & ? & _). by split_and!.
  - unfold lenZ in *. rewrite Hnew. cbn [length]. lia.
  - lia.
Qed.

(** A full bucket: [old] at position [p] makes place and moves to new bucket [w]. *)
Definition tried_evict (l : list Z) (p w : Z) (old : Z) (io : CAddrInfo) : CAddrMan :=
  mkMan (nKey s) (nIdCount s) (<[nId := to_tried i]> (<[old := to_new io]> (mapInfo s))) (mapAddr s)
    (vRandom s) (nTried s) (alter (fun _ => <[Z.to_nat p := nId]> l) (Z.to_nat b) (vvTried s)) (nNew s)
    (alter (fun c => {[ old ]} ∪ c) (Z.to_nat w) (without nId <$> vvNew s)).

Lemma Inv_tried_evict l p w old io :
  l ≡ₚ vTried_at s b -> 0 <= p < lenZ l -> l.[p] = old -> mapInfo s !! old = Some io ->
  0 <= w < lenZ (vvNew s) ->
  Z.of_nat (base.size (without nId (vNew_at s w))) < ADDRMAN_NEW_BUCKET_SIZE ->
  AddrInv (tried_evict l p w old io).
Proof.
  intros Hl Hp Hold Hio Hw Hsz. pose proof (nthZ_lookup_at [] _ _ Hb) as Hk. fold (vTried_at s b) in Hk.
  pose proof (nthZ_lookup_at 0 _ _ Hp) as Hlp. rewrite Hold in Hlp.
  destruct (tried_elem_info b old Hb) as (io' & Hio' & Hft & _ & Hne).
  { rewrite <-Hl. by eapply list_elem_of_lookup_2. }
  simplify_eq. destruct (concat_alter _ _ _ Hk) as (rest & Hc & Hca).
  pose proof (take_drop_middle _ _ _ Hlp) as Hsplit.
  set (l1 := take (Z.to_nat p) l) in *. set (l2 := drop (S (Z.to_nat p)) l) in *.
  assert (Hins : <[Z.to_nat p := nId]> l = l1 ++ nId :: l2)
    by (apply insert_take_drop; unfold lenZ in Hp; lia).
  assert (Hcold : concat (vvTried s) ≡ₚ l.[p] :: (l1 ++ l2 ++ rest)).
  { rewrite Hc, <-Hl, <-Hsplit at 1. rewrite <-app_assoc. cbn. symmetry. apply Permutation_middle. }
  assert (Hcnew : concat (alter (fun _ => <[Z.to_nat p := nId]> l) (Z.to_nat b) (vvTried s))
                  ≡ₚ nId :: (l1 ++ l2 ++ rest)).
  { rewrite Hca, Hins, <-app_assoc. cbn. symmetry. apply Permutation_middle. }
  set (old := l.[p]) in *.
  destruct HI as [Hrnd [Iadr Iids Iidc Itried Itlen Itsize Iref Inlen Insize Iinfo InTried Icount]]. pose proof (Iinfo old io Hio) as (? & ? & Hok). rewrite Hft in Hok.
  assert (Hcount : new_count (vvNew s) old = 0).
  { specialize (Iref old). rewrite lookup_fmap, Hio in Iref. cbn in Iref.
    unfold no_pending in Iref. lia. }
  assert (Hi1 : <[old := to_new io]> (mapInfo s) !! nId = Some i) by (by rewrite lookup_insert_ne).
  split; [|split]; cbn -[Z.add]; rewrite ?(fmap_insert_same nRandomPos _ nId i), ?(fmap_insert_same netaddr _ nId i),
    ?(fmap_insert_same nRandomPos _ old io), ?(fmap_insert_same netaddr _ old io) by done; try done.
  - intros j [i' [[<- _]|[_ [[<- _]|[_ Hj]]%lookup_insert_Some]]%lookup_insert_Some];
      apply Iids; by eexists.
  - rewrite Hcnew, !fmap_insert. apply tried_push; [|].
    + apply tried_pop. by rewrite <-Hcold.
    + rewrite lookup_insert_ne, lookup_fmap, Hi by done. cbn. by rewrite Hf.
  - unfold lenZ in *. by rewrite length_alter.
  - apply Forall_alter; [done|]. intros l0 Hl0 Hle. rewrite Hk in Hl0. injection Hl0 as <-.
    unfold lenZ in *. by rewrite length_insert, Hl.
  - rewrite !fmap_insert. cbn. rewrite insert_insert_ne by done.
    apply (ref_put (pending old) _ _ _ _ (without nId (vNew_at s w))).
    + intros j. pose proof (ref_detach _ _ _ nId Iref) as Hd. rewrite lookup_fmap, Hi in Hd.
      specialize (Hd ltac:(by eexists) eq_refl j). unfold pending.
      destruct (decide (j = old)) as [->|Hjo].
      * rewrite lookup_insert_eq, new_count_without, decide_False by done. lia.
      * rewrite lookup_insert_ne by done. exact Hd.
    + rewrite list_lookup_fmap, (nthZ_lookup_at ∅ _ _ Hw). done.
    + intros Hm. unfold without in Hm. apply elem_of_difference in Hm as [Hm _].
      pose proof (new_count_pos _ _ _ _ (nthZ_lookup_at ∅ _ _ Hw) Hm). lia.
    + rewrite lookup_insert_eq. by eexists.
    + intros j. unfold pending, no_pending. destruct (decide _); lia.
  - unfold lenZ in *. by rewrite length_alter, length_fmap.
  - apply Forall_alter; [by apply without_size|]. intros c Hcw _.
    rewrite list_lookup_fmap, (nthZ_lookup_at ∅ _ _ Hw) in Hcw. injection Hcw as <-.
    fold (vNew_at s w). pose proof (size_union_alt {[ old ]} (without nId (vNew_at s w))) as Hu.
    rewrite Hu, size_singleton. pose proof (size_diff_le (without nId (vNew_at s w)) old). lia.
  - apply map_Forall_insert_2; [|apply map_Forall_insert_2; [|done]].
    + destruct (Iinfo nId i Hi) as (? & ? & _). by split_and!.
    + unfold info_ok, ADDRMAN_NEW_BUCKETS_PER_ADDRESS. cbn. split_and!; [done|done|lia|lia].
  - rewrite InTried. unfold lenZ. rewrite Hcnew, Hcold. done.
Qed.
End Tried.

Lemma detached_all nId i s :
  detached nId i (length (vvNew s)) s
  = mkMan (nKey s) (nIdCount s) (<[nId := set_nRefCount 0 i]> (mapInfo s)) (mapAddr s)
      (vRandom s) (nTried s) (vvTried s) (nNew s) (without nId <$> vvNew s).
Proof. unfold detached. by rewrite drop_all, firstn_all, app_nil_r. Qed.

(** [nId] is in the tried table, in the bucket [b], with what it had. *)
Definition promoted (nId : Z) (i : CAddrInfo) (b : Z) (t : CAddrMan) : Prop :=
  mapInfo t !! nId = Some (to_tried i) /\ nId ∈ vTried_at t b.

Lemma tried_at_alter (vv : list (list Z)) b f l :
  0 <= b -> vv !! Z.to_nat b = Some l -> nthZ [] (alter f (Z.to_nat b) vv) b = f l.
Proof. intros Hb Hl. apply nthZ_Some; [done|]. by rewrite list_lookup_alter_eq, Hl. Qed.

Lemma evict_maps (m : gmap Z CAddrInfo) nId old i io :
  nId <> old -> m !! old = Some io ->
  alter (set_fInTried true) nId (alter (fun i => set_nRefCount 1 (set_fInTried false i)) old
    (<[nId := set_nRefCount 0 i]> m)) = <[nId := to_tried i]> (<[old := to_new io]> m).
Proof.
  intros Hne Hio. apply map_eq. intros j. destruct (decide (nId = j)) as [<-|Hj].
  - by rewrite lookup_alter_eq, lookup_alter_ne, !lookup_insert_eq.
  - rewrite lookup_alter_ne, lookup_insert_ne by done. destruct (decide (old = j)) as [<-|Ho].
    + by rewrite lookup_alter_eq, lookup_insert_ne, Hio, lookup_insert_eq.
    + by rewrite lookup_alter_ne, !lookup_insert_ne.
Qed.

Lemma MakeTried_evict_spec nId nOrigin i b s e (Q : unit -> CAddrMan * E -> Prop) :
  AddrInv s -> mapInfo s !! nId = Some i -> fInTried i = false -> nLastSuccess i <> 0 ->
  0 <= nOrigin < lenZ (vvNew s) -> nId ∈ vNew_at s nOrigin ->
  0 <= b < lenZ (vvTried s) -> lenZ (vTried_at s b) = ADDRMAN_TRIED_BUCKET_SIZE ->
  (forall t e', AddrInv t -> promoted nId i b t -> Q tt (t, e')) ->
  wp (MakeTried_evict nId nOrigin b) Q
     (set_nNew (fun n => n - 1) (detached nId i (length (vvNew s)) s), e).
Proof.
  intros HI Hi Hf Hls Ho Hin Hb Hfull HQ. rewrite detached_all. unfold MakeTried_evict. apply wp_bind.
  pose proof (nthZ_lookup_at [] _ _ Hb) as Hk. fold (vTried_at s b) in Hk.
  apply SelectTried_spec; [done| | | |].
  2:{ change (lenZ (vTried_at s b) < 2 ^ 31). by rewrite Hfull. }
  2:{ change (0 < lenZ (vTried_at s b)). by rewrite Hfull. }
  { intros id Hid. destruct (tried_elem_info s nId i HI Hi Hf b id Hb Hid) as (io & Hio & _ & ? & Hne).
    split; [|done]. exists io. cbn. by rewrite lookup_insert_ne. }
  intros p l e' Hp Hl. stp. rewrite !(vTried_at_set s b Hb l) by done. set (old := l.[p]).
  destruct (tried_elem_info s nId i HI Hi Hf b old Hb) as (io & Hio & Hft & _ & Hne).
  { rewrite <-Hl. by eapply list_elem_of_lookup_2, nthZ_lookup_at. }
  assert (Hio' : mapInfo (set_vTried b (fun _ => l) (set_nNew (fun n => n - 1)
     (mkMan (nKey s) (nIdCount s) (<[nId := set_nRefCount 0 i]> (mapInfo s)) (mapAddr s)
      (vRandom s) (nTried s) (vvTried s) (nNew s) (without nId <$> vvNew s)))) !! old = Some io)
    by (cbn; by rewrite lookup_insert_ne).
  stp. set (u := CAddrInfo.GetNewBucket_own io _).
  assert (Hu : 0 <= u < lenZ (vvNew s)) by (rewrite (inv_nlen _ _ (proj2 HI)); apply GetNewBucket_range).
  assert (Hat : forall w, 0 <= w < lenZ (vvNew s) ->
            nthZ ∅ (without nId <$> vvNew s) w = without nId (vNew_at s w)).
  { intros w Hw. apply nthZ_Some; [lia|]. by rewrite list_lookup_fmap, (nthZ_lookup_at ∅ _ _ Hw). }
  assert (Hfin : forall w, 0 <= w < lenZ (vvNew s) ->
     Z.of_nat (base.size (without nId (vNew_at s w))) < ADDRMAN_NEW_BUCKET_SIZE ->
     Q tt (tried_evict s nId i b l p w old io, e')).
  { intros w Hw Hsz. apply HQ; [by eapply Inv_tried_evict; eauto|]. split.
    - cbn. by rewrite lookup_insert_eq.
    - unfold vTried_at. cbn. rewrite (tried_at_alter _ _ _ _ (proj1 Hb) Hk).
      apply list_elem_of_insert. unfold lenZ in Hp. lia. }
  assert (Hst : forall w, set_info nId (set_fInTried true) (set_vTried b <[Z.to_nat p := nId]>
      (set_nNew (Z.add 1) (set_vNew w (fun c => {[ old ]} ∪ c)
        (set_info old (fun i => set_nRefCount 1 (set_fInTried false i)) (set_vTried b (fun _ => l)
          (set_nNew (fun n => n - 1) (mkMan (nKey s) (nIdCount s) (<[nId := set_nRefCount 0 i]> (mapInfo s))
            (mapAddr s) (vRandom s) (nTried s) (vvTried s) (nNew s) (without nId <$> vvNew s))))))))
      = tried_evict s nId i b l p w old io).
  { intros w. unfold tried_evict.
    rewrite <-(evict_maps _ nId old i io), <-(alter_const <[Z.to_nat p := nId]> l) by done.
    assert (En : 1 + (nNew s - 1) = nNew s) by lia.
    exact (f_equal (fun n => mkMan (nKey s) (nIdCount s) _ (mapAddr s) (vRandom s) (nTried s) _ n _) En). }
  unfold vNew_at at 1. cbn [vvNew set_info set_mapInfo set_vTried set_nNew]. rewrite Hat by done.
  destruct (Z.ltb_spec (Z.of_nat (base.size (without nId (vNew_at s u)))) ADDRMAN_NEW_BUCKET_SIZE).
  - unfold insert_new. stp. rewrite Hst. by apply Hfin.
  - unfold insert_new. stp. rewrite Hst. apply Hfin; [done|].
    pose proof (bucket_le _ _ nOrigin (proj2 HI) Ho). unfold without.
    rewrite size_difference by set_solver. rewrite size_singleton.
    assert (base.size (vNew_at s nOrigin) <> 0%nat) by (apply size_non_empty_iff; set_solver). lia.
Qed.

Lemma MakeTried_spec nId nOrigin i s e (Q : unit -> CAddrMan * E -> Prop) :
  AddrInv s -> mapInfo s !! nId = Some i -> fInTried i = false -> nLastSuccess i <> 0 ->
  0 <= nOrigin < lenZ (vvNew s) -> nId ∈ vNew_at s nOrigin ->
  (forall t e', AddrInv t -> promoted nId i (CAddrInfo.GetTriedBucket i (nKey s)) t -> Q tt (t, e')) ->
  wp (MakeTried nId nOrigin) Q (s, e).
Proof.
  intros HI Hi Hf Hls Ho Hin HQ. unfold MakeTried. stp.
  apply wp_assert; [by apply bool_decide_true|]. stp.
  apply (detach_spec no_pending s nId i); [apply HI|done|done|]. stp.
  assert (Hdi : mapInfo (set_nNew (fun n => n - 1) (detached nId i (length (vvNew s)) s)) !! nId
                = Some (set_nRefCount 0 i)).
  { rewrite detached_all. cbn. by rewrite lookup_insert_eq. }
  stp. apply wp_assert; [done|]. stp.
  change (CAddrInfo.GetTriedBucket (set_nRefCount 0 i) _) with (CAddrInfo.GetTriedBucket i (nKey s)).
  set (b := CAddrInfo.GetTriedBucket i (nKey s)) in *.
  assert (Hb : 0 <= b < lenZ (vvTried s)) by (rewrite (inv_tlen _ _ (proj2 HI)); apply GetTriedBucket_range).
  pose proof (nthZ_lookup_at [] _ _ Hb) as Hk. fold (vTried_at s b) in Hk.
  assert (Hle : lenZ (vTried_at s b) <= ADDRMAN_TRIED_BUCKET_SIZE).
  { pose proof (inv_tsize _ _ (proj2 HI)) as Hs. rewrite Forall_lookup in Hs. by eapply Hs. }
  change (vTried_at (set_nNew _ _) b) with (vTried_at s b).
  destruct (Z.ltb_spec (lenZ (vTried_at s b)) ADDRMAN_TRIED_BUCKET_SIZE) as [Hroom|Hfull].
  - stp. rewrite detached_all.
    match goal with |- Q tt (?t, e) => assert (Ht : t = tried_room s nId i b) end.
    { unfold tried_room, to_tried.
      by rewrite <-(alter_insert_here (set_fInTried true) (set_nRefCount 0 i)). }
    rewrite Ht. apply HQ; [by apply Inv_tried_room|]. split; [cbn; by rewrite lookup_insert_eq|].
    unfold vTried_at. cbn. rewrite (tried_at_alter _ _ _ _ (proj1 Hb) Hk). set_solver.
  - eapply MakeTried_evict_spec; eauto. lia.
Qed.


(** ** [Good_], [Attempt_] and [Connected_] *)

Lemma find_bucket_Some s nId nRnd nB :
  0 < lenZ (vvNew s) -> find_bucket s nId nRnd = Some nB ->
  0 <= nB < lenZ (vvNew s) /\ nId ∈ vNew_at s nB.
Proof.
  intros Hn [Hin Hb]%find_some. apply list_elem_of_In, list_elem_of_fmap in Hin as (n & -> & _).
  split; [by apply Z.mod_pos_bound|]. by apply bool_decide_eq_true in Hb.
Qed.

Lemma find_bucket_None s nId nRnd b :
  find_bucket s nId nRnd = None -> 0 <= b < lenZ (vvNew s) -> nId ∉ vNew_at s b.
Proof.
  intros Hnone Hb Hin. set (nb := lenZ (vvNew s)) in *.
  pose proof (find_none _ _ Hnone b) as Hf. fold nb in Hf.
  assert (Hb' : List.In b ((fun n => (n + nRnd) mod nb) <$> seqZ 0 nb)).
  { apply list_elem_of_In, list_elem_of_fmap. exists ((b - nRnd) mod nb). split.
    - rewrite Zplus_mod_idemp_l. replace (b - nRnd + nRnd) with b by lia. by rewrite Z.mod_small.
    - apply elem_of_seqZ. pose proof (Z.mod_pos_bound (b - nRnd) nb). lia. }
  specialize (Hf Hb'). apply bool_decide_eq_false in Hf. done.
Qed.

Definition mark_good (nTime : Z) (i : CAddrInfo) : CAddrInfo :=
  set_nAttempts 0 (set_nTime (as_nTime nTime) (set_nLastTry nTime (set_nLastSuccess nTime i))).

Lemma Good_spec addr nTime s e :
  AddrInv s -> 0 < nTime ->
  wp (Good_ addr nTime) (fun _ st => AddrInv st.1 /\
    forall id i, mapInfo s !! id = Some i -> service i = addr ->
      mapInfo st.1 !! id = Some (if fInTried i then mark_good nTime i else to_tried (mark_good nTime i)) /\
      (fInTried i = false ->
       id ∈ vTried_at st.1 (CAddrInfo.GetTriedBucket i (nKey s)))) (s, e).
Proof.
  intros HI Ht. unfold Good_. stp. destruct (Find _ _) as [nId|] eqn:Hf.
  2:{ stp. split; [done|]. intros id i Hi <-. exfalso.
      assert (Find (netaddr i) s = Some id) by (apply (Find_spec _ _ _ _ HI); eauto).
      unfold netaddr in *. congruence. }
  apply (Find_spec _ _ _ _ HI) in Hf as (i & Hi & Hip). stp.
  assert (Hsame : forall id j, mapInfo s !! id = Some j -> service j = addr -> id = nId /\ j = i).
  { intros id j Hj <-. assert (Find (netaddr j) s = Some id) by (apply (Find_spec _ _ _ _ HI); eauto).
    assert (Find (netaddr j) s = Some nId) by (apply (Find_spec _ _ _ _ HI); eauto). by simplify_eq. }
  destruct (CService.neqb (service i) addr) eqn:Heq.
  { stp. split; [done|]. intros id j Hj Hs. destruct (Hsame id j Hj Hs) as [-> ->].
    apply ServiceOrder.neqb_false in Hs. congruence. }
  apply ServiceOrder.neqb_false in Heq.
  pose proof (inv_info _ _ (proj2 HI) nId i Hi) as (Hlt & Hls & Hok).
  apply wp_bind, (wp_update_info no_pending (mark_good nTime) _ i); [done|done|done| |].
  { unfold info_ok; cbn. split_and!; [lia|lia|]. destruct (fInTried i); [lia|done]. }
  intros HI1 Hi1. set (s1 := set_info nId (mark_good nTime) s) in *.
  destruct (fInTried i) eqn:Hft.
  { stp. split; [done|]. intros id j Hj Hs. destruct (Hsame id j Hj Hs) as [-> ->].
    by rewrite Hft. }
  assert (Hn : lenZ (vvNew s1) = 256) by apply (inv_nlen _ _ (proj2 HI1)).
  stp. apply wp_rand; [lia|]. intros nRnd e' _. stp.
  destruct (find_bucket s1 nId nRnd) as [nB|] eqn:Hfb.
  - apply find_bucket_Some in Hfb as [HnB Hin]; [|lia].
    apply (MakeTried_spec nId nB (mark_good nTime i)); try done; [cbn; lia|].
    intros t e'' HIt [Hti Htb]. split; [done|]. intros id j Hj Hs.
    destruct (Hsame id j Hj Hs) as [-> ->]. by rewrite Hft.
  - exfalso. pose proof (inv_ref _ _ (proj2 HI1) nId) as Hr. rewrite lookup_fmap, Hi1 in Hr.
    cbn in Hr. destruct (new_count_witness (vvNew s1) nId) as (k & c & Hk & Hc).
    { cbn. unfold no_pending in Hr. lia. }
    apply (find_bucket_None s1 nId nRnd (Z.of_nat k) Hfb).
    + pose proof (lookup_lt_Some _ _ _ Hk). unfold lenZ. lia.
    + unfold vNew_at. by rewrite (nthZ_lookup _ _ _ _ Hk).
Qed.

Lemma with_exact_spec addr f s e :
  AddrInv s -> index_neutral f -> (forall i, info_ok i -> info_ok (f i)) ->
  wp (with_exact addr f) (fun _ st => AddrInv st.1) (s, e).
Proof.
  intros HI Hf Hok. unfold with_exact. stp. destruct (Find _ _) as [nId|] eqn:Hfind; [|by stp].
  apply (Find_spec _ _ _ _ HI) in Hfind as (i & Hi & _). stp.
  destruct (CService.neqb _ _); [by stp|].
  apply (wp_update_info no_pending f _ i); auto.
  apply Hok, (inv_info _ _ (proj2 HI) nId i Hi).
Qed.

Lemma Attempt_spec addr nTime s e :
  AddrInv s -> 0 <= nTime -> wp (Attempt_ addr nTime) (fun _ st => AddrInv st.1) (s, e).
Proof.
  intros HI Ht. apply with_exact_spec; [done|done|]. intros i (_ & ? & ?). by split_and!.
Qed.

Lemma Connected_spec addr nTime s e :
  AddrInv s -> wp (Connected_ addr nTime) (fun _ st => AddrInv st.1) (s, e).
Proof.
  intros HI. apply with_exact_spec; [done| |]; intros i; cbn zeta; by destruct (_ <? _).
Qed.

End Proofs.
