(* ===== verification/AddrManThms.v ===== *)
(** What the address manager guarantees: no operation aborts and each keeps the indexes
    consistent ([Check_] finds nothing), whatever the random numbers and the clock; the tables
    are bounded; [GetAddr_] returns distinct known addresses; a good address ends up in its
    tried bucket.  And where the code departs from its comment: the entry [SelectTried] names. *)

From S2P Require Import Prelude Monad Rand Codec NetAddr AddrMan AddrManInv AddrManTried.

Section Proofs.
Context `{Hasher, AddressTypes, NetworkEnum, Env : Environment E}.
Implicit Types (s t : CAddrMan) (e : E) (i : CAddrInfo).

(** ** [GetAddr_] *)

Lemma same_but_random_refl s : same_but_random s s.
Proof. exists (mapInfo s), (vRandom s). by destruct s. Qed.

Lemma same_but_random_trans s t u :
  same_but_random s t -> same_but_random t u -> same_but_random s u.
Proof.
  intros (m & v & -> & Em & Hv) (m' & v' & -> & Em' & Hv'). cbn in *.
  exists m', v'. split_and!; [done|by rewrite Em'|by rewrite Hv'].
Qed.

(** The address of an entry does not depend on its position. *)
Definition address_of (s : CAddrMan) (id : Z) : option CAddress := ca <$> mapInfo s !! id.

Lemma address_of_same s t id : same_but_random s t -> address_of t id = address_of s id.
Proof.
  intros (m & v & -> & Em & _). unfold address_of; cbn.
  rewrite <-!lookup_fmap, (strip_fmap ca m (mapInfo s)); done.
Qed.

Lemma swap_take v n p (k := Z.to_nat n) : 0 <= n <= p -> take k (swap v p n) = take k v.
Proof.
  intros Hn. unfold swap. rewrite take_insert_ge by lia. apply take_insert_ge. lia.
Qed.

Lemma swap_take_l v n p (k := Z.to_nat n) : 0 <= n <= p -> take k (swap v n p) = take k v.
Proof.
  intros Hn. unfold swap. rewrite take_insert_ge by lia. apply take_insert_ge. lia.
Qed.

(** After [n] steps the first [n] places of [vRandom] hold what was returned. *)
Definition drawn (s : CAddrMan) (done_ : list Z) (vAddr : list CAddress) (st : CAddrMan * E) : Prop :=
  AddrInv st.1 /\ same_but_random s st.1 /\
  Some <$> vAddr = address_of s <$> take (length done_) (vRandom st.1).

Lemma GetAddr_step_spec s done_ n vAddr st :
  n = lenZ done_ -> n < lenZ (vRandom s) < 2 ^ 31 -> drawn s done_ vAddr st ->
  wp (GetAddr_step vAddr n) (drawn s (done_ ++ [n])) st.
Proof.
  destruct st as [t e]. intros Hn Hlen (HI & Hsame & Hv). cbn [fst] in *.
  assert (Hl : lenZ (vRandom t) = lenZ (vRandom s)).
  { destruct Hsame as (m & v & -> & _ & Hlv). unfold lenZ. cbn. by rewrite Hlv. }
  unfold GetAddr_step. stp. unfold size. apply wp_rand; [pose proof (lenZ_nonneg done_); lia|].
  intros r e' Hr. stp. pose proof (lenZ_nonneg done_).
  apply SwapRandom_spec; [apply HI|lia|lia|]. intros t' Hst Hrt Hvt.
  assert (HI' : AddrInv t') by (split; [done|by eapply InvR_same_but_random; [|apply HI]]).
  assert (Hl' : lenZ (vRandom t') = lenZ (vRandom s)) by (rewrite Hvt; unfold lenZ in *; by rewrite swap_length).
  pose proof (rnd_at _ _ n Hrt ltac:(lia)) as Hat. rewrite lookup_fmap_Some in Hat.
  destruct Hat as (i & _ & Hi). stp.
  assert (Hs' : same_but_random s t') by (by eapply same_but_random_trans).
  split_and!; [done|done|]. cbn [fst].
  rewrite fmap_app, Hv, length_app. cbn [length]. rewrite Nat.add_1_r.
  rewrite (take_S_r _ _ (vRandom t').[n]).
  2:{ replace (length done_) with (Z.to_nat n) by (unfold lenZ in *; lia). apply nthZ_lookup_at. lia. }
  rewrite fmap_app. f_equal.
  - f_equal. rewrite Hvt. replace (length done_) with (Z.to_nat n) by (unfold lenZ in *; lia).
    symmetry. apply swap_take_l. lia.
  - cbn. rewrite <-(address_of_same s t' _ Hs'). unfold address_of. by rewrite Hi.
Qed.

Lemma GetAddr_count_bounds n : 0 <= n -> 0 <= GetAddr_count n <= n.
Proof.
  intros Hn. unfold GetAddr_count, ADDRMAN_GETADDR_MAX_PCT, ADDRMAN_GETADDR_MAX.
  destruct (_ <? _) eqn:E'; zdm.
Qed.

Lemma GetAddr_spec s e :
  AddrInv s -> lenZ (vRandom s) < 2 ^ 31 ->
  wp GetAddr_ (fun vAddr st => exists done_, lenZ done_ = GetAddr_count (size s) /\ drawn s done_ vAddr st) (s, e).
Proof.
  intros HI Hlen. unfold GetAddr_. stp. set (n := GetAddr_count (size s)).
  pose proof (GetAddr_count_bounds (size s) (lenZ_nonneg _)) as Hn. fold n in Hn. unfold size in Hn.
  eapply wp_mono.
  - apply (wp_foldM _ (drawn s)).
    + split_and!; [done|apply same_but_random_refl|done].
    + intros done_ k rest vAddr st El Hd.
      assert (Hk : seqZ 0 n !! length done_ = Some k) by (rewrite El; by apply list_lookup_middle).
      apply lookup_seqZ in Hk as [-> Hk]. apply GetAddr_step_spec; [done| |done].
      split; [lia|done].
  - intros vAddr st Hd. exists (seqZ 0 n). split; [|done]. unfold lenZ. rewrite length_seqZ. lia.
Qed.

(** ** The size of the tables *)

Lemma concat_length_bound {A} (vv : list (list A)) (n : Z) :
  0 <= n -> Forall (fun b => lenZ b <= n) vv -> lenZ (concat vv) <= n * lenZ vv.
Proof.
  intros Hn. induction 1 as [|b vv Hb _ IH]; [unfold lenZ; cbn; lia|].
  cbn [concat]. rewrite lenZ_app, lenZ_cons. lia.
Qed.

(** The ids of all new buckets, one list after the other. *)
Definition new_ids (vv : list (gset Z)) : list Z := concat ((fun b => ascending (elements b)) <$> vv).

Lemma new_ids_elem vv id : id ∈ new_ids vv <-> 0 < new_count vv id.
Proof.
  unfold new_ids. induction vv as [|b vv IH]; [cbn; split; [set_solver|done]|].
  cbn [fmap list_fmap concat]. rewrite elem_of_app, ascending_elem, elem_of_elements, IH, new_count_cons.
  pose proof (new_count_nonneg vv id). destruct (decide (id ∈ b)); split; naive_solver lia.
Qed.

Lemma new_ids_length vv : 
  Forall (fun c => Z.of_nat (base.size c) <= ADDRMAN_NEW_BUCKET_SIZE) vv ->
  lenZ (new_ids vv) <= ADDRMAN_NEW_BUCKET_SIZE * lenZ vv.
Proof.
  intros Hs. unfold new_ids.
  replace (lenZ vv) with (lenZ ((fun b => ascending (elements b)) <$> vv))
    by (unfold lenZ; by rewrite length_fmap).
  apply concat_length_bound; [done|]. apply Forall_fmap. eapply Forall_impl; [exact Hs|].
  intros c Hc. unfold compose, lenZ. rewrite ascending_length. exact Hc.
Qed.

Lemma Inv_size s : AddrInv s -> size s <= ADDRMAN_TRIED_BUCKET_COUNT * ADDRMAN_TRIED_BUCKET_SIZE
                             + ADDRMAN_NEW_BUCKET_COUNT * ADDRMAN_NEW_BUCKET_SIZE.
Proof.
  intros [Hrnd HR]. unfold size.
  assert (Hsub : vRandom s ⊆+ concat (vvTried s) ++ new_ids (vvNew s)).
  { apply NoDup_submseteq; [by eapply rnd_NoDup|]. intros id Hid.
    apply (rnd_elem _ _ _ Hrnd) in Hid as [p Hp]. rewrite lookup_fmap_Some in Hp.
    destruct Hp as (i & _ & Hi). rewrite elem_of_app, new_ids_elem.
    pose proof (inv_info _ _ HR id i Hi) as (_ & _ & Hok). destruct (fInTried i) eqn:Hf.
    - left. apply (inv_tried _ _ HR). rewrite lookup_fmap, Hi. cbn. by rewrite Hf.
    - right. pose proof (inv_ref _ _ HR id) as Hr. rewrite lookup_fmap, Hi in Hr. cbn in Hr.
      unfold no_pending in Hr. lia. }
  apply submseteq_length in Hsub. rewrite length_app in Hsub.
  pose proof (concat_length_bound _ ADDRMAN_TRIED_BUCKET_SIZE ltac:(done) (inv_tsize _ _ HR)) as Ht.
  pose proof (new_ids_length _ (inv_nsize _ _ HR)) as Hn.
  rewrite (inv_tlen _ _ HR) in Ht. rewrite (inv_nlen _ _ HR) in Hn. unfold lenZ in *. lia.
Qed.

(** ** [Check_] *)

Lemma by_key_elem {A} (m : gmap Z A) id a : (id, a) ∈ by_key m <-> m !! id = Some a.
Proof. unfold by_key. rewrite merge_sort_Permutation. apply elem_of_map_to_list. Qed.

Lemma by_key_NoDup {A} (m : gmap Z A) : NoDup (by_key m).*1.
Proof. unfold by_key. rewrite merge_sort_Permutation. apply NoDup_fst_map_to_list. Qed.

Lemma Check_infos_spec s l T N :
  AddrInv s -> NoDup l.*1 -> (forall id i, (id, i) ∈ l -> mapInfo s !! id = Some i) ->
  exists T' N', Check_infos s l (mapAddr s) T N = inr (T', N') /\
    (forall id, id ∈ T' <-> id ∈ T \/ exists i, (id, i) ∈ l /\ fInTried i = true) /\
    (forall id r, N' !! id = Some r <->
       (exists i, (id, i) ∈ l /\ fInTried i = false /\ nRefCount i = r) \/
       (N !! id = Some r /\ forall i, (id, i) ∈ l -> fInTried i = true)).
Proof.
  intros HI. revert T N. induction l as [|[n i] l IH]; intros T N Hnd Hl.
  { exists T, N. split_and!; [done|set_solver|]. intros id r. split; [|intros [(? & ? & _)|[? _]]; [set_solver|done]].
    intros Hr. right. split; [done|]. set_solver. }
  cbn in Hnd. apply NoDup_cons in Hnd as [Hni Hnd].
  assert (Hi : mapInfo s !! n = Some i) by (apply Hl; set_solver).
  assert (Hfresh : forall j, (n, j) ∉ l) by (intros j Hj; apply Hni, list_elem_of_fmap; by exists (n, j)).
  pose proof HI as [Hrnd HR]. pose proof (inv_info _ _ HR n i Hi) as (Hlt & Hls & Hok).
  assert (Ha : mapAddr s !! netaddr i = Some n).
  { apply (inv_adr _ _ HR). by rewrite lookup_fmap, Hi. }
  assert (Hp : (nRandomPos <$> mapInfo s) !! n = Some (nRandomPos i)) by (by rewrite lookup_fmap, Hi).
  destruct (rnd_pos _ _ _ _ Hrnd Hp) as [Hpos Hat].
  assert (Hrest : forall T N, (let a := default 0 (mapAddr s !! netaddr i) in
      let addrs := <[netaddr i := a]> (mapAddr s) in
      if negb (a =? n) then inl (-5)
      else if (nRandomPos i <? 0) || (lenZ (vRandom s) <=? nRandomPos i)
              || negb ((vRandom s).[nRandomPos i] =? n) then inl (-14)
      else if lastTry i <? 0 then inl (-6)
      else if nLastSuccess i <? 0 then inl (-8)
      else Check_infos s l addrs T N) = Check_infos s l (mapAddr s) T N).
  { intros T0 N0. cbn zeta. rewrite Ha. cbn [default]. rewrite insert_id by done.
    rewrite Z.eqb_refl, Hat, Z.eqb_refl. cbn [negb].
    repeat (destruct (_ <? _) eqn:E'; [lia|]; clear E'). destruct (_ <=? _) eqn:E'; [lia|]. done. }
  cbn [Check_infos]. destruct (fInTried i) eqn:Hf.
  - destruct (Z.eqb_spec (nLastSuccess i) 0); [lia|]. destruct (Z.eqb_spec (nRefCount i) 0); [|lia].
    cbn [negb]. rewrite Hrest.
    destruct (IH ({[n]} ∪ T) N Hnd) as (T' & N' & -> & HT & HN); [set_solver|].
    exists T', N'. split_and!; [done| |].
    + intros id. rewrite HT. set_solver.
    + intros id r. rewrite HN. set_unfold. split.
      * intros [(j & ? & ? & ?)|[? Hall]]; [left; exists j; auto|right]. split; [done|].
        intros j [[= -> ->]|Hj]; auto.
      * intros [(j & [[= -> ->]|?] & ? & ?)|[? Hall]]; [congruence|left; eauto|right; eauto].
  - destruct ((nRefCount i <? 0) || (_ <? nRefCount i)) eqn:E'; [lia|].
    destruct (Z.eqb_spec (nRefCount i) 0); [lia|]. rewrite Hrest.
    destruct (IH T (<[n := nRefCount i]> N) Hnd) as (T' & N' & -> & HT & HN); [set_solver|].
    exists T', N'. split_and!; [done| |].
    + intros id. rewrite HT. set_unfold. split; [naive_solver|].
      intros [?|(j & [[= -> ->]|?] & ?)]; [auto|congruence|eauto].
    + intros id r. rewrite HN. rewrite lookup_insert_Some. set_unfold. split.
      * intros [(j & ? & ? & ?)|[[[<- <-]|[Hne ?]] Hall]]; [left; exists j; auto|left; exists i; auto|].
        right. split; [done|]. intros j [[= -> ->]|Hj]; [done|auto].
      * intros [(j & [[= -> ->]|?] & ? & ?)|[? Hall]].
        -- right. split; [auto|]. intros j Hj. by destruct (Hfresh j).
        -- left; eauto.
        -- right. split; [|eauto]. right. split; [|done]. intros <-.
           specialize (Hall i (or_introl eq_refl)). congruence.
Qed.

Lemma Check_tried_spec (l : list Z) (T : gset Z) :
  NoDup l -> (forall id, id ∈ T <-> id ∈ l) -> Check_tried l T = inr ∅.
Proof.
  revert T. induction l as [|n l IH]; intros T Hnd HT; cbn.
  - f_equal. set_solver.
  - apply NoDup_cons in Hnd as [Hni Hnd]. rewrite bool_decide_true by set_solver.
    apply IH; [done|]. set_solver.
Qed.

Definition occ (id : Z) (l : list Z) : Z := Z.of_nat (length (filter (fun j => j = id) l)).

Lemma occ_cons id n l : occ id (n :: l) = (if decide (n = id) then 1 else 0) + occ id l.
Proof. unfold occ. rewrite filter_cons. destruct (decide _); cbn [length]; lia. Qed.

Lemma occ_nonneg id l : 0 <= occ id l.
Proof. unfold occ. lia. Qed.

Lemma Check_new_spec (l : list Z) (N : gmap Z Z) :
  (forall id, N !! id = if occ id l =? 0 then None else Some (occ id l)) -> Check_new l N = inr ∅.
Proof.
  revert N. induction l as [|n l IH]; intros N HN; cbn [Check_new].
  - f_equal. apply map_eq. intros id. by rewrite HN, lookup_empty.
  - pose proof (HN n) as Hn. rewrite occ_cons, decide_True in Hn by done.
    pose proof (occ_nonneg n l). destruct (Z.eqb_spec (1 + occ n l) 0); [lia|]. rewrite Hn.
    apply IH. intros id. replace (1 + occ n l - 1) with (occ n l) by lia.
    specialize (HN id). rewrite occ_cons in HN. destruct (decide (n = id)) as [->|Hne].
    + destruct (Z.eqb_spec (occ id l) 0); [by rewrite lookup_delete_eq|by rewrite lookup_insert_eq].
    + rewrite Z.add_0_l in HN.
      destruct (occ n l =? 0); [by rewrite lookup_delete_ne|by rewrite lookup_insert_ne].
Qed.

Lemma occ_new_ids id vv : occ id (new_ids vv) = new_count vv id.
Proof.
  unfold new_ids. induction vv as [|b vv IH]; [done|]. cbn [fmap list_fmap concat].
  rewrite new_count_cons, <-IH. unfold occ. rewrite filter_app, length_app, Nat2Z.inj_add. f_equal.
  assert (Hp : filter (fun j => j = id) (ascending (elements b)) ≡ₚ filter (fun j => j = id) (elements b))
    by (unfold ascending; by rewrite merge_sort_Permutation).
  rewrite Hp. assert (Hnd : NoDup (filter (fun j => j = id) (elements b))) by apply NoDup_filter, NoDup_elements.
  destruct (decide (id ∈ b)) as [Hin|Hni].
  - assert (Hs : filter (fun j => j = id) (elements b) ≡ₚ [id]).
    { apply NoDup_Permutation; [done|apply NoDup_singleton|]. intros j.
      rewrite list_elem_of_filter, elem_of_elements, list_elem_of_singleton. naive_solver. }
    by rewrite Hs.
  - assert (Hnil : filter (fun j => j = id) (elements b) = []); [|by rewrite Hnil].
    apply elem_of_nil_inv. intros j. rewrite list_elem_of_filter, elem_of_elements. naive_solver.
Qed.

Lemma Inv_Check s : AddrInv s -> Check_ s = 0.
Proof.
  intros HI. pose proof HI as [Hrnd HR]. unfold Check_.
  destruct (Check_infos_spec s (by_key (mapInfo s)) ∅ ∅ HI) as (T & N & -> & HT & HN).
  { apply by_key_NoDup. }
  { intros id i. by rewrite by_key_elem. }
  rewrite (inv_count _ _ HR), Z.eqb_refl. cbn [negb].
  assert (HTl : forall id, id ∈ T <-> id ∈ concat (vvTried s)).
  { intros id. rewrite HT, (proj2 (inv_tried _ _ HR) id), lookup_fmap_Some. setoid_rewrite by_key_elem. set_solver. }
  assert (HNr : forall id r, N !! id = Some r <-> exists i, mapInfo s !! id = Some i /\ fInTried i = false /\ nRefCount i = r).
  { intros id r. rewrite HN, lookup_empty. setoid_rewrite by_key_elem.
    split; [intros [?|[? _]]; done|by left]. }
  assert (HTeq : T = list_to_set (concat (vvTried s))) by (apply set_eq; intros id; by rewrite HTl, elem_of_list_to_set).
  assert (HsT : Z.of_nat (base.size T) = nTried s).
  { rewrite HTeq, size_list_to_set by apply (inv_tried _ _ HR). symmetry. apply (inv_nTried _ _ HR). }
  assert (Hall : T ∪ dom N = list_to_set (vRandom s)).
  { apply set_eq. intros id. rewrite elem_of_union, elem_of_list_to_set, (rnd_elem _ _ _ Hrnd), elem_of_dom, HTl,
      (proj2 (inv_tried _ _ HR) id), !lookup_fmap. split.
    - intros [Hm|[r Hr]]; [destruct (mapInfo s !! id); [by eexists|done]|].
      apply HNr in Hr as (i & Hi & _). rewrite Hi. by eexists.
    - intros [p Hp]. destruct (mapInfo s !! id) as [i|] eqn:Hi; [|done].
      destruct (fInTried i) eqn:Hf; [left; cbn; by rewrite Hf|right].
      exists (nRefCount i). apply HNr. eauto. }
  assert (Hdis : T ## dom N).
  { intros id. rewrite elem_of_dom, HTl, (proj2 (inv_tried _ _ HR) id), lookup_fmap_Some.
    intros (i & Hf & Hi) [r (i' & Hi' & Hf' & _)%HNr]. simplify_eq. congruence. }
  assert (HsN : Z.of_nat (base.size N) = nNew s).
  { pose proof (inv_count _ _ HR) as Hc. unfold lenZ in Hc.
    pose proof (size_list_to_set (C := gset Z) _ (rnd_NoDup _ _ Hrnd)) as Hs.
    rewrite <-Hall, size_union, size_dom in Hs by done. lia. }
  rewrite HsT, HsN, !Z.eqb_refl. cbn [negb].
  rewrite Check_tried_spec by (done || apply (inv_tried _ _ HR)).
  fold (new_ids (vvNew s)). rewrite Check_new_spec.
  { by rewrite !bool_decide_true. }
  intros id. rewrite occ_new_ids. pose proof (inv_ref _ _ HR id) as Hr. rewrite lookup_fmap in Hr.
  specialize (HNr id). destruct (mapInfo s !! id) as [i|] eqn:Hi; cbn in Hr; unfold no_pending in Hr.
  - pose proof (inv_info _ _ HR id i Hi) as (_ & _ & Hok). destruct (fInTried i) eqn:Hf.
    + destruct (Z.eqb_spec (new_count (vvNew s) id) 0); [|lia].
      apply eq_None_not_Some. intros [r (i' & Hi' & Hf' & _)%HNr]. simplify_eq. congruence.
    + destruct (Z.eqb_spec (new_count (vvNew s) id) 0); [lia|]. apply HNr. exists i. split_and!; [done|done|lia].
  - rewrite Hr. cbn. apply eq_None_not_Some. by intros [r (i' & Hi' & _)%HNr].
Qed.

(** ** Sequences of calls *)

Lemma Inv_new key : AddrInv (CAddrMan_new key).
Proof.
  assert (Hc : concat (repeat (@nil Z) (Z.to_nat ADDRMAN_TRIED_BUCKET_COUNT)) = [])
    by (by vm_compute).
  split; [|split]; try done; cbn [mapInfo mapAddr vRandom nTried vvTried nNew vvNew CAddrMan_new nIdCount].
  - intros id p. rewrite fmap_empty, lookup_empty. split; [done|by intros [_ ?]].
  - intros id [i Hi]. by rewrite lookup_empty in Hi.
  - rewrite Hc, fmap_empty. split; [constructor|]. intros id. rewrite lookup_empty. set_solver.
  - apply Forall_forall. intros b Hb. apply list_elem_of_In, repeat_spec in Hb as ->. done.
  - apply Forall_forall. intros b Hb. apply list_elem_of_In, repeat_spec in Hb as ->. done.
Qed.

(** The public operations and their arguments. *)
Inductive Call :=
  | CAdd (addr : CAddress) (source : CNetAddr) (nTimePenalty : Z)
  | CAddAll (vAddr : list CAddress) (source : CNetAddr) (nTimePenalty : Z)
  | CGood (addr : CService) (nTime : Z)
  | CAttempt (addr : CService) (nTime : Z)
  | CConnected (addr : CService) (nTime : Z)
  | CGetAddr.

(** The times handed to [Good] and [Attempt] are times of the clock: not negative, and for
    [Good] not the value 0 that means "never". *)
Definition valid_call (c : Call) : Prop :=
  match c with CGood _ t => 0 < t | CAttempt _ t => 0 <= t | _ => True end.

Definition do_call (c : Call) : M (CAddrMan * E) unit :=
  match c with
  | CAdd addr source pen => Add_ addr source pen;;; ret tt
  | CAddAll vAddr source pen => Add_all vAddr source pen;;; ret tt
  | CGood addr t => Good_ addr t
  | CAttempt addr t => Attempt_ addr t
  | CConnected addr t => Connected_ addr t
  | CGetAddr => GetAddr_;;; ret tt
  end.

Definition run_calls (l : list Call) : M (CAddrMan * E) unit := foldM (fun _ c => do_call c) l tt.

Lemma Inv_size_small s : AddrInv s -> lenZ (vRandom s) < 2 ^ 31.
Proof.
  intros HI. pose proof (Inv_size s HI) as Hs. unfold size in Hs.
  change (_ + _) with 20480 in Hs. lia.
Qed.

Lemma do_call_spec c st :
  valid_call c -> AddrInv st.1 -> wp (do_call c) (fun _ st' => AddrInv st'.1) st.
Proof.
  destruct st as [s e]. intros Hc HI. cbn [fst] in HI. destruct c; cbn [do_call valid_call] in *.
  - apply wp_bind. eapply wp_mono; [by apply Add_spec|]. intros r st [HI' _]. by apply wp_ret.
  - apply wp_bind. unfold Add_all. apply wp_bind. eapply wp_mono.
    + apply (wp_foldM _ (fun _ _ st => AddrInv st.1)); [done|].
      intros _ a _ n [t e'] _ HIt. apply wp_bind. eapply wp_mono; [by apply Add_spec|].
      intros r st [HI' _]. by apply wp_ret.
    + intros n st HI'. by do 2 apply wp_ret.
  - eapply wp_mono; [by apply Good_spec|]. by intros r st [HI' _].
  - by apply Attempt_spec.
  - by apply Connected_spec.
  - apply wp_bind. eapply wp_mono; [apply GetAddr_spec; [done|by apply Inv_size_small]|].
    intros r st (d & _ & HI' & _). by apply wp_ret.
Qed.

Lemma run_calls_spec key e l :
  Forall valid_call l -> wp (run_calls l) (fun _ st => AddrInv st.1) (CAddrMan_new key, e).
Proof.
  intros Hl. unfold run_calls. apply (wp_foldM _ (fun _ _ st => AddrInv st.1)); [apply Inv_new|].
  intros done_ c rest [] st El HI. apply do_call_spec; [|done].
  rewrite Forall_forall in Hl. apply Hl. rewrite El. set_solver.
Qed.


(** [Add_] reports true exactly when the address is routable and was not known; a
    routable address is known afterwards, whatever had to be removed to make room for it. *)
Theorem Add_reports_new addr src pen s e :
  AddrInv s ->
  let ip := sv_ip (ca_service addr) in
  exists s' e', Add_ addr src pen (s, e)
    = Some (CNetAddr.IsRoutable ip && bool_decide (Find ip s = None), (s', e')) /\
    AddrInv s' /\ (CNetAddr.IsRoutable ip = true -> is_Some (Find ip s')).
Proof.
  intros HI ip. pose proof (Add_spec addr src pen s e HI) as Hw.
  apply wp_elim in Hw as (r & [s' e'] & Hr & HI' & -> & Hk). by exists s', e'.
Qed.

(** [Good_] on a service that is known with this very port: the entry is in the tried
    table afterwards, in the bucket its address selects, its last success is the given time and
    its failed attempts are forgotten, even when the bucket was full. *)
Theorem Good_moves_to_tried addr nTime s e id i :
  AddrInv s -> 0 < nTime -> mapInfo s !! id = Some i -> service i = addr -> fInTried i = false ->
  exists s' e' i', Good_ addr nTime (s, e) = Some (tt, (s', e')) /\ AddrInv s' /\
    mapInfo s' !! id = Some i' /\ service i' = addr /\ fInTried i' = true /\
    nLastSuccess i' = nTime /\ nAttempts i' = 0 /\
    id ∈ vTried_at s' (CAddrInfo.GetTriedBucket i (nKey s)).
Proof.
  intros HI Ht Hi Hs Hf. pose proof (Good_spec addr nTime s e HI Ht) as Hw.
  apply wp_elim in Hw as ([] & [s' e'] & Hr & HI' & Hg). destruct (Hg id i Hi Hs) as [Hi' Hb].
  rewrite Hf in Hi'. exists s', e', (to_tried (mark_good nTime i)). split_and!; auto.
Qed.

(** [GetAddr_] returns [min(2500, 23 percent)] of the known addresses: each one known,
    with pairwise different IP addresses, and it changes nothing but the order of [vRandom]. *)
Theorem GetAddr_distinct s e :
  AddrInv s ->
  exists s' e' vAddr, GetAddr_ (s, e) = Some (vAddr, (s', e')) /\
    AddrInv s' /\ same_but_random s s' /\
    lenZ vAddr = Z.min 2500 (23 * size s / 100) /\
    NoDup ((fun a => sv_ip (ca_service a)) <$> vAddr) /\
    (forall a, a ∈ vAddr -> exists id i, Find (sv_ip (ca_service a)) s = Some id /\
       mapInfo s !! id = Some i /\ ca i = a).
Proof.
  intros HI. pose proof (GetAddr_spec s e HI (Inv_size_small s HI)) as Hw.
  apply wp_elim in Hw as (vAddr & [s' e'] & Hr & done_ & Hd & HI' & Hsame & Hv). cbn [fst] in *.
  exists s', e', vAddr. set (ids := take (length done_) (vRandom s')) in *.
  assert (Hmem : forall k a, vAddr !! k = Some a ->
            exists id i, ids !! k = Some id /\ mapInfo s !! id = Some i /\ ca i = a).
  { intros k a Hk. assert (E' : (Some <$> vAddr) !! k = Some (Some a)) by (by rewrite list_lookup_fmap, Hk).
    rewrite Hv, list_lookup_fmap in E'. destruct (ids !! k) as [id|]; [|done].
    injection E' as E'. unfold address_of in E'. destruct (mapInfo s !! id) as [i|] eqn:Hi; [|done].
    injection E' as E'. by exists id, i. }
  assert (Hfind : forall id i, mapInfo s !! id = Some i -> Find (sv_ip (ca_service (ca i))) s = Some id).
  { intros id i Hi. apply (Find_spec _ _ _ _ HI). by exists i. }
  split_and!; try done.
  - assert (El : length vAddr = length ids) by (by rewrite <-(length_fmap Some vAddr), Hv, length_fmap).
    assert (Hls : lenZ (vRandom s') = size s).
    { destruct Hsame as (m & v & -> & _ & Hlv). unfold size, lenZ. cbn. by rewrite Hlv. }
    pose proof (GetAddr_count_bounds (size s) (lenZ_nonneg _)).
    unfold lenZ in *. rewrite El. unfold ids. rewrite length_take.
    replace (Z.of_nat (Nat.min (length done_) (length (vRandom s')))) with (GetAddr_count (size s)) by lia.
    unfold GetAddr_count, ADDRMAN_GETADDR_MAX, ADDRMAN_GETADDR_MAX_PCT. destruct (_ <? _) eqn:E'; lia.
  - apply NoDup_alt. intros k1 k2 ip. rewrite !list_lookup_fmap.
    destruct (vAddr !! k1) as [a1|] eqn:H1'; [|done]. destruct (vAddr !! k2) as [a2|] eqn:H2'; [|done].
    intros [= <-] [= E2]. destruct (Hmem _ _ H1') as (id1 & i1 & Hid1 & Hi1 & <-).
    destruct (Hmem _ _ H2') as (id2 & i2 & Hid2 & Hi2 & <-).
    apply Hfind in Hi1, Hi2. rewrite E2 in Hi2. assert (id1 = id2) by congruence. subst id2.
    assert (Hnd : NoDup ids) by (eapply sublist_NoDup; [exact (rnd_NoDup _ _ (proj1 HI'))|apply sublist_take]).
    by eapply NoDup_lookup.
  - intros a [k Hk]%list_elem_of_lookup. destruct (Hmem _ _ Hk) as (id & i & _ & Hi & <-).
    exists id, i. auto.
Qed.

(** ** The entry [SelectTried] names *)

Lemma wp_rand_draw n r e e' (Q : Z -> CAddrMan * E -> Prop) s :
  draw n e = (r, e') -> Q r (s, e') -> wp (rand n) Q (s, e).
Proof. intros Hd HQ. unfold wp, rand. cbn [fst snd]. by rewrite Hd. Qed.

(** [SelectTried] is meant to name the least recently tried of the inspected entries.
    It remembers the position the entry was drawn from, but has just swapped another entry
    there.  In a bucket [newer; older] whose first draw picks [older], the bucket ends as
    [older; newer] and the answer is position 1, so the more recently tried entry is the one
    that will be evicted. *)
Theorem SelectTried_names_newer s b newer older inew iold e e1 e2 :
  0 <= b < lenZ (vvTried s) -> vTried_at s b = [newer; older] -> older <> -1 ->
  mapInfo s !! newer = Some inew -> mapInfo s !! older = Some iold ->
  nLastSuccess iold < nLastSuccess inew ->
  draw 2 e = (1, e1) -> draw 1 e1 = (0, e2) ->
  exists s', SelectTried b (s, e) = Some (1, (s', e2)) /\ mapInfo s' = mapInfo s /\
    vTried_at s' b = [older; newer] /\ (vTried_at s' b).[1] = newer.
Proof.
  intros Hb Hbk Hne Hnew Hold Hlt Hd1 Hd2.
  assert (Hw : wp (SelectTried b) (fun p st => p = 1 /\ st.2 = e2 /\ mapInfo st.1 = mapInfo s /\
                 vTried_at st.1 b = [older; newer]) (s, e)).
  { unfold SelectTried. stp. rewrite Hbk.
    change (seqZ 0 (Z.min _ _)) with [0; 1]. cbn [foldM]. unfold SelectTried_step at 1. stp.
    rewrite Hbk. apply (wp_rand_draw _ 1 e e1); [done|]. stp.
    set (s1 := set_vTried b _ s).
    assert (Hbk1 : vTried_at s1 b = [older; newer]).
    { unfold vTried_at. pose proof (nthZ_lookup_at [] _ _ Hb) as Hk. fold (vTried_at s b) in Hk.
      rewrite Hbk in Hk. apply nthZ_Some; [lia|]. cbn. by rewrite list_lookup_alter_eq, Hk. }
    change ([newer; older].[1 + 0]) with older. apply wp_assert; [done|]. cbn [Z.eqb Pos.eqb]. stp.
    unfold SelectTried_step. stp. rewrite Hbk1. apply (wp_rand_draw _ 0 e1 e2); [done|]. stp.
    change ([older; newer].[0 + 1]) with newer.
    assert (Hn1 : mapInfo s1 !! newer = Some inew) by done.
    assert (Ho1 : mapInfo s1 !! older = Some iold) by done.
    apply wp_assert; [unfold count; cbn; rewrite Hnew; by rewrite bool_decide_true, orb_true_r by done|].
    destruct (Z.eqb_spec older (-1)); [done|]. stp.
    destruct (Z.ltb_spec (nLastSuccess inew) (nLastSuccess iold)); [lia|]. cbn.
    split_and!; [done|done|done|]. unfold vTried_at.
    apply nthZ_Some; [lia|]. cbn. rewrite !list_lookup_alter_eq.
    pose proof (nthZ_lookup_at [] _ _ Hb) as Hk. fold (vTried_at s b) in Hk. rewrite Hbk in Hk.
    by rewrite Hk. }
  apply wp_elim in Hw as (p & [s' e'] & Hr & -> & <- & Hm & Hv). exists s'.
  split_and!; [done|done|done|]. cbn [fst] in Hv. by rewrite Hv.
Qed.

End Proofs.

(** ** Examples *)

Module Examples.

#[local] Instance ex_hasher : Hasher :=
  {| Hash64 l := foldr Z.add 0 l; ser_vector l := lenZ l :: l; ser_uint64 z := [z] |}.
#[local] Instance ex_types : AddressTypes := {| as_nTime := wrapu 32; NODE_NETWORK := 1 |}.
#[local] Existing Instance Group.enum0.
#[local] Existing Instance script_environment.

Definition ex_address (b p t : Z) : CAddress :=
  mkAddress (mkService (CNetAddr.of_in_addr [8; 8; 8; b]) p) 1 t 0.
Definition ex_source : CNetAddr := CNetAddr.of_in_addr [9; 9; 9; 9].
Definition ex_calls : list Call :=
  [CAdd (ex_address 1 8333 1000000) ex_source 0; CAdd (ex_address 2 8333 1000000) ex_source 0;
   CGood (ca_service (ex_address 1 8333 0)) 1000100; CAttempt (ca_service (ex_address 2 8333 0)) 1000200;
   CGetAddr].
Definition ex_env : list Z * Z := ([3; 1; 4; 1; 5; 9; 2; 6], 1000000).

Lemma ex_valid n : Forall valid_call (take n ex_calls).
Proof.
  apply Forall_take. unfold ex_calls. repeat (apply Forall_cons; split; [done|]). by apply Forall_nil.
Qed.


Definition ex_run (l : list Call) : CAddrMan :=
  match run_calls l (CAddrMan_new [1; 2; 3], ex_env) with
  | Some (_, (s, _)) => s
  | None => CAddrMan_new []
  end.

(** The state after the two [Add]s satisfies the invariant. *)
Lemma ex_Inv : AddrInv (ex_run (take 2 ex_calls)).
Proof.
  pose proof (run_calls_spec [1; 2; 3] ex_env _ (ex_valid 2)) as Hw.
  apply wp_elim in Hw as (u & [s' e'] & Hr & HI). unfold ex_run. rewrite Hr. exact HI.
Qed.

Lemma Add_reports_new_witness : exists s' e',
  Add_ (ex_address 3 8333 5) ex_source 0 (ex_run (take 2 ex_calls), ex_env) = Some (true, (s', e')).
Proof.
  destruct (Add_reports_new (ex_address 3 8333 5) ex_source 0 _ ex_env ex_Inv) as (s' & e' & Hr & _).
  exists s', e'. rewrite Hr. by vm_compute.
Defined.

Lemma Good_moves_to_tried_witness : exists s' e',
  Good_ (ca_service (ex_address 1 8333 0)) 77 (ex_run (take 2 ex_calls), ex_env) = Some (tt, (s', e')).
Proof.
  destruct (mapInfo (ex_run (take 2 ex_calls)) !! 0) as [i|] eqn:Hi; [|by vm_compute in Hi].
  destruct (Good_moves_to_tried (ca_service (ex_address 1 8333 0)) 77 _ ex_env 0 i ex_Inv)
    as (s' & e' & i' & Hr & _); [done| | | |exists s', e'; exact Hr].
  - exact Hi.
  - vm_compute in Hi. by injection Hi as <-.
  - vm_compute in Hi. by injection Hi as <-.
Defined.

Lemma GetAddr_distinct_witness : exists s' e' vAddr,
  GetAddr_ (ex_run (take 2 ex_calls), ex_env) = Some (vAddr, (s', e')) /\ lenZ vAddr = 0.
Proof.
  destruct (GetAddr_distinct _ ex_env ex_Inv) as (s' & e' & vAddr & Hr & _ & _ & Hl & _).
  exists s', e', vAddr. split; [exact Hr|]. rewrite Hl. by vm_compute.
Defined.

(** Two tried entries, tried at 200 and at 100. *)
Definition ex_tried : CAddrMan :=
  let info b t := set_nLastSuccess t (set_fInTried true (new_info (ex_address b 8333 0) ex_source)) in
  mkMan [] 2 {[ 0 := info 1 200; 1 := info 2 100 ]} ∅ [0; 1] 2 [[0; 1]] 0 [].

Lemma SelectTried_names_newer_witness : exists s' e',
  SelectTried 0 (ex_tried, ([1; 0], 0)) = Some (1, (s', e')) /\ (vTried_at s' 0).[1] = 0 /\
  nLastSuccess <$> mapInfo ex_tried !! 0 = Some 200 /\ nLastSuccess <$> mapInfo ex_tried !! 1 = Some 100.
Proof.
  destruct (mapInfo ex_tried !! 0) as [i0|] eqn:H0; [|by vm_compute in H0].
  destruct (mapInfo ex_tried !! 1) as [i1|] eqn:H1; [|by vm_compute in H1].
  pose proof H0 as E0. pose proof H1 as E1. vm_compute in E0, E1. injection E0 as E0. injection E1 as E1.
  destruct (SelectTried_names_newer ex_tried 0 0 1 i0 i1 ([1; 0], 0) ([0], 0) ([], 0))
    as (s' & Hr & _ & _ & Hv); try done; [by subst|].
  exists s', ([], 0). split_and!; [exact Hr|exact Hv|by subst|by subst].
Defined.

End Examples.
