(* ===== verification/Core.v ===== *)
(** Transactions, spent-output records and block headers: src/core.h.

    [uint256] values are [Z]s, a [CScript] is its bytes.  [CCoins] is the record of a
    transaction's unspent outputs: [Cleanup], [CalcMaskSize], the serialization with its
    availability bit mask, and [Spend].

    Not in the tree, hence parameters (class [CoinCodec]): the VARINT stream operator of
    serialize.h, [CScriptCompressor] of script.h, and [CompressAmount]/[DecompressAmount],
    declared in core.h but defined nowhere (core.cpp is empty); each with the law that reading
    returns what was written. *)

From S2P Require Import Prelude.

Abbreviation uint256 := Z.
Abbreviation CScript := bytes.

Definition uint_max : Z := 2 ^ 32 - 1.

(** ** Outpoints, inputs, outputs, transactions *)

Record COutPoint := mkOutPoint { hash : uint256; op_n : Z }.
Record CTxIn := mkTxIn { prevout : COutPoint; scriptSig : CScript; nSequence : Z }.
Record CTxOut := mkTxOut { nValue : Z; scriptPubKey : CScript }.
Record CTransaction := mkTx {
  tx_nVersion : Z; vin : list CTxIn; vout : list CTxOut; nLockTime : Z }.

#[global] Instance COutPoint_eq_dec : EqDecision COutPoint.
Proof. solve_decision. Defined.
#[global] Instance CTxIn_eq_dec : EqDecision CTxIn.
Proof. solve_decision. Defined.
#[global] Instance CTxOut_eq_dec : EqDecision CTxOut.
Proof. solve_decision. Defined.
#[global] Instance CTransaction_eq_dec : EqDecision CTransaction.
Proof. solve_decision. Defined.

Module COutPoint.
Definition SetNull : COutPoint := mkOutPoint 0 uint_max.
Definition IsNull (o : COutPoint) : bool := (hash o =? 0) && (op_n o =? uint_max).
Definition ltb (a b : COutPoint) : bool :=
  (hash a <? hash b) || ((hash a =? hash b) && (op_n a <? op_n b)).
Definition eqb (a b : COutPoint) : bool := (hash a =? hash b) && (op_n a =? op_n b).
End COutPoint.

Module CTxIn.
Definition IsFinal (i : CTxIn) : bool := nSequence i =? uint_max.
End CTxIn.

Module CTxOut.
Definition SetNull : CTxOut := mkTxOut (-1) [].
Definition IsNull (o : CTxOut) : bool := nValue o =? -1.
(** [size] is [GetSerializeSize(SER_DISK, 0)]; the division truncates. *)
Definition IsDust (size : CTxOut -> Z) (o : CTxOut) (nMinRelayTxFee : Z) : bool :=
  Z.quot (nValue o * 1000) (3 * (size o + 148)) <? nMinRelayTxFee.
End CTxOut.

Module CTransaction.
Definition CURRENT_VERSION : Z := 1.
Definition SetNull : CTransaction := mkTx CURRENT_VERSION [] [] 0.
Definition IsNull (t : CTransaction) : bool :=
  bool_decide (vin t = []) && bool_decide (vout t = []).

(** One iteration of the second loop of [IsNewerThan]; the accumulator is
    [(fNewer, nLowest)]. *)
Definition newer_step (acc : bool * Z) (p : CTxIn * CTxIn) : bool * Z :=
  let '(fNewer, nLowest) := acc in
  let '(a, o) := p in
  if nSequence a =? nSequence o then (fNewer, nLowest)
  else
    let '(fNewer, nLowest) :=
      if nSequence a <=? nLowest then (false, nSequence a) else (fNewer, nLowest) in
    if nSequence o <? nLowest then (true, nSequence o) else (fNewer, nLowest).

Definition IsNewerThan (t old : CTransaction) : bool :=
  if negb (lenZ (vin t) =? lenZ (vin old)) then false
  else if existsb (fun p => negb (COutPoint.eqb (prevout p.1) (prevout p.2))) (zip (vin t) (vin old))
  then false
  else (fold_left newer_step (zip (vin t) (vin old)) (false, uint_max)).1.

Definition IsCoinBase (t : CTransaction) : bool :=
  match vin t with [i] => COutPoint.IsNull (prevout i) | _ => false end.
End CTransaction.

(** ** Unspent outputs *)

Class CoinCodec := {
  ser_varint : Z -> bytes;
  unser_varint : bytes -> option (Z * bytes);
  CompressAmount : Z -> Z;
  DecompressAmount : Z -> Z;
  ser_script : CScript -> bytes;
  unser_script : bytes -> option (CScript * bytes);
  unser_ser_varint n rest : in_u 64 n -> unser_varint (ser_varint n ++ rest) = Some (n, rest);
  unser_ser_script s rest : unser_script (ser_script s ++ rest) = Some (s, rest);
  CompressAmount_range n : in_u 64 n -> in_u 64 (CompressAmount n);
  Decompress_Compress n : in_u 63 n -> DecompressAmount (CompressAmount n) = n;
}.

Module CTxOutCompressor.
Section Codec.
Context `{CoinCodec}.

Definition Serialize (o : CTxOut) : bytes :=
  ser_varint (CompressAmount (u64 (nValue o))) ++ ser_script (scriptPubKey o).

Definition Unserialize (s : bytes) : option (CTxOut * bytes) :=
  '(nVal, s) ← unser_varint s;
  '(script, s) ← unser_script s;
  Some (mkTxOut (DecompressAmount nVal) script, s).

Definition GetSerializeSize (o : CTxOut) : Z := lenZ (Serialize o).
End Codec.
End CTxOutCompressor.

Record CTxInUndo := mkUndo {
  undo_txout : CTxOut; undo_fCoinBase : bool; undo_nHeight : Z; undo_nVersion : Z }.

#[global] Instance CTxInUndo_eq_dec : EqDecision CTxInUndo.
Proof. solve_decision. Defined.

Module CTxInUndo.
Section Codec.
Context `{CoinCodec}.

Definition new (o : CTxOut) : CTxInUndo := mkUndo o false 0 0.

Definition header (u : CTxInUndo) : Z := u32 (undo_nHeight u * 2 + (if undo_fCoinBase u then 1 else 0)).

Definition GetSerializeSize (u : CTxInUndo) : Z :=
  lenZ (ser_varint (header u))
  + (if 0 <? undo_nHeight u then lenZ (ser_varint (undo_nVersion u)) else 0)
  + CTxOutCompressor.GetSerializeSize (undo_txout u).

Definition Serialize (u : CTxInUndo) : bytes :=
  ser_varint (header u)
  ++ (if 0 <? undo_nHeight u then ser_varint (undo_nVersion u) else [])
  ++ CTxOutCompressor.Serialize (undo_txout u).

(** Reads into the object [u], which keeps its version when none is stored. *)
Definition Unserialize (u : CTxInUndo) (s : bytes) : option (CTxInUndo * bytes) :=
  '(nCode, s) ← unser_varint s;
  let nCode := u32 nCode in
  let nHeight := nCode / 2 in
  let fCoinBase := Z.testbit nCode 0 in
  '(nVersion, s) ← (if 0 <? nHeight then '(v, s) ← unser_varint s; Some (s32 v, s)
                    else Some (undo_nVersion u, s));
  '(txout, s) ← CTxOutCompressor.Unserialize s;
  Some (mkUndo txout fCoinBase nHeight nVersion, s).
End Codec.
End CTxInUndo.

Record CCoins := mkCoins {
  fCoinBase : bool; cc_vout : list CTxOut; cc_nHeight : Z; cc_nVersion : Z }.

#[global] Instance CCoins_eq_dec : EqDecision CCoins.
Proof. solve_decision. Defined.

Module CCoins.
Section Coins.
Context `{CoinCodec}.

Definition of_tx (tx : CTransaction) (nHeightIn : Z) : CCoins :=
  mkCoins (CTransaction.IsCoinBase tx) (vout tx) nHeightIn (tx_nVersion tx).

Definition empty : CCoins := mkCoins false [] 0 0.

(** [while (vout.size() > 0 && vout.back().IsNull()) vout.pop_back()], from the back. *)
Fixpoint pop_nulls (back_first : list CTxOut) : list CTxOut :=
  match back_first with
  | o :: r => if CTxOut.IsNull o then pop_nulls r else back_first
  | [] => []
  end.

Definition Cleanup_vout (v : list CTxOut) : list CTxOut := rev (pop_nulls (rev v)).

Definition set_vout (v : list CTxOut) (c : CCoins) : CCoins :=
  mkCoins (fCoinBase c) v (cc_nHeight c) (cc_nVersion c).

Definition Cleanup (c : CCoins) : CCoins := set_vout (Cleanup_vout (cc_vout c)) c.

(** The outputs of mask byte [b]: [vout[2+b*8+i]] for [i < 8], as far as they exist. *)
Definition mask_outs (v : list CTxOut) (b : nat) : list CTxOut := take 8 (drop (2 + b * 8) v).

(** The loop over [b] of [CalcMaskSize]; [2+b*8 < vout.size()] fails before [fuel] ends when
    [fuel] is the number of outputs. *)
Fixpoint CalcMaskSize_loop (fuel : nat) (v : list CTxOut) (b : nat) (nLastUsedByte nNonzeroBytes : Z) : Z * Z :=
  match fuel with
  | O => (nLastUsedByte, nNonzeroBytes)
  | S fuel' =>
    if Z.of_nat (2 + b * 8) <? lenZ v then
      let fZero := forallb CTxOut.IsNull (mask_outs v b) in
      if fZero then CalcMaskSize_loop fuel' v (S b) nLastUsedByte nNonzeroBytes
      else CalcMaskSize_loop fuel' v (S b) (Z.of_nat b + 1) (nNonzeroBytes + 1)
    else (nLastUsedByte, nNonzeroBytes)
  end.

(** Added to the two arguments, which every caller sets to 0. *)
Definition CalcMaskSize (v : list CTxOut) : Z * Z := CalcMaskSize_loop (length v) v 0 0 0.

Definition fFirst (v : list CTxOut) : bool :=
  match v with o :: _ => negb (CTxOut.IsNull o) | _ => false end.
Definition fSecond (v : list CTxOut) : bool :=
  match v with _ :: o :: _ => negb (CTxOut.IsNull o) | _ => false end.

Definition nCode (c : CCoins) (nMaskCode : Z) : Z :=
  let v := cc_vout c in
  u32 (8 * (u32 (nMaskCode - (if fFirst v || fSecond v then 0 else 1)))
       + (if fCoinBase c then 1 else 0) + (if fFirst v then 2 else 0) + (if fSecond v then 4 else 0)).

(** [chAvail]: bit [i] tells whether output [i] of the byte is unspent. *)
Fixpoint chAvail (i : Z) (outs : list CTxOut) : Z :=
  match outs with
  | [] => 0
  | o :: outs' =>
    if CTxOut.IsNull o then chAvail (i + 1) outs'
    else Z.lor (Z.shiftl 1 i) (chAvail (i + 1) outs')
  end.

Definition unspent (v : list CTxOut) : list CTxOut := filter (fun o => CTxOut.IsNull o = false) v.

(** [None]: the assertion that something is unspent fails. *)
Definition GetSerializeSize (c : CCoins) : option Z :=
  let v := cc_vout c in
  let '(nMaskSize, nMaskCode) := CalcMaskSize v in
  if fFirst v || fSecond v || negb (nMaskCode =? 0) then
    Some (lenZ (ser_varint (cc_nVersion c)) + lenZ (ser_varint (nCode c nMaskCode)) + nMaskSize
          + foldr Z.add 0 (CTxOutCompressor.GetSerializeSize <$> unspent v)
          + lenZ (ser_varint (cc_nHeight c)))
  else None.

Definition Serialize (c : CCoins) : option bytes :=
  let v := cc_vout c in
  let '(nMaskSize, nMaskCode) := CalcMaskSize v in
  if fFirst v || fSecond v || negb (nMaskCode =? 0) then
    Some (ser_varint (cc_nVersion c) ++ ser_varint (nCode c nMaskCode)
          ++ ((fun b => chAvail 0 (mask_outs v b)) <$> seq 0 (Z.to_nat nMaskSize))
          ++ concat (CTxOutCompressor.Serialize <$> unspent v)
          ++ ser_varint (cc_nHeight c))
  else None.

(** The eight flags of a mask byte. *)
Definition mask_bits (ch : Z) : list bool := Z.testbit ch <$> seqZ 0 8.

(** [while (nMaskCode > 0)]: each iteration takes a byte off the stream. *)
Fixpoint read_mask (s : bytes) (nMaskCode : Z) (vAvail : list bool) : option (list bool * bytes) :=
  if 0 <? nMaskCode then
    match s with
    | [] => None
    | ch :: s' =>
      read_mask s' (if negb (ch =? 0) then nMaskCode - 1 else nMaskCode) (vAvail ++ mask_bits ch)
    end
  else Some (vAvail, s).

Fixpoint read_outs (vAvail : list bool) (s : bytes) : option (list CTxOut * bytes) :=
  match vAvail with
  | [] => Some ([], s)
  | f :: vAvail' =>
    '(o, s) ← (if f : bool then CTxOutCompressor.Unserialize s else Some (CTxOut.SetNull, s));
    '(v, s) ← read_outs vAvail' s;
    Some (o :: v, s)
  end.

Definition Unserialize (s : bytes) : option (CCoins * bytes) :=
  '(nVersion, s) ← unser_varint s;
  '(code, s) ← unser_varint s;
  let code := u32 code in
  let vAvail := [Z.testbit code 1; Z.testbit code 2] in
  let nMaskCode := code / 8 + (if negb (Z.land code 6 =? 0) then 0 else 1) in
  '(vAvail, s) ← read_mask s nMaskCode vAvail;
  '(v, s) ← read_outs vAvail s;
  '(nHeight, s) ← unser_varint s;
  Some (Cleanup (mkCoins (Z.testbit code 0) v (s32 nHeight) (s32 nVersion)), s).

(** [Spend(out, undo)]: the result, the object after it and the value of [undo] after it. *)
Definition Spend (c : CCoins) (n : Z) (undo : CTxInUndo) : bool * CCoins * CTxInUndo :=
  if lenZ (cc_vout c) <=? n then (false, c, undo)
  else
    let o := nthZ CTxOut.SetNull (cc_vout c) n in
    if CTxOut.IsNull o then (false, c, undo)
    else
      let c' := Cleanup (set_vout (<[Z.to_nat n := CTxOut.SetNull]> (cc_vout c)) c) in
      let undo := CTxInUndo.new o in
      (true, c',
       if lenZ (cc_vout c') =? 0 then mkUndo o (fCoinBase c) (cc_nHeight c) (cc_nVersion c) else undo).

(** [Spend(int nPos)]. *)
Definition Spend_pos (c : CCoins) (nPos : Z) : bool * CCoins :=
  let '(ok, c', _) := Spend c (u32 nPos) (mkUndo CTxOut.SetNull false 0 0) in (ok, c').

Definition IsAvailable (c : CCoins) (nPos : Z) : bool :=
  (nPos <? lenZ (cc_vout c)) && negb (CTxOut.IsNull (nthZ CTxOut.SetNull (cc_vout c) nPos)).

Definition IsPruned (c : CCoins) : bool := forallb CTxOut.IsNull (cc_vout c).

End Coins.
End CCoins.

(** ** Block headers *)

Record CBlockHeader := mkHeader {
  bh_nVersion : Z; hashPrevBlock : uint256; hashMerkleRoot : uint256;
  bh_nTime : Z; nBits : Z; nNonce : Z }.

Module CBlockHeader.
Definition CURRENT_VERSION : Z := 2.
Definition SetNull : CBlockHeader := mkHeader CURRENT_VERSION 0 0 0 0 0.
Definition IsNull (h : CBlockHeader) : bool := nBits h =? 0.
Definition GetBlockTime (h : CBlockHeader) : Z := bh_nTime h.
End CBlockHeader.
