(* ===== verification/CoreThms.v ===== *)
(** Theorems about core.h: the serialization of [CCoins] and [CTxInUndo] is read back, [Spend]
    takes exactly one output, and [IsNewerThan] compares the lowest differing sequence numbers. *)

From S2P Require Import Prelude Core.

Section Coins.
Context `{CoinCodec}.

(** ** Availability by position *)

(** Beyond its end an output vector reads as spent. *)
Definition out_at (v : list CTxOut) (j : nat) : CTxOut := default CTxOut.SetNull (v !! j).
Definition avail_at (v : list CTxOut) (j : nat) : bool := negb (CTxOut.IsNull (out_at v j)).

Definition mask_byte (v : list CTxOut) (b : nat) : Z := CCoins.chAvail 0 (CCoins.mask_outs v b).

Lemma chAvail_testbit outs i j :
  0 <= i -> 0 <= j ->
  Z.testbit (CCoins.chAvail i outs) j = (i <=? j) && avail_at outs (Z.to_nat (j - i)).
Proof.
  revert i. induction outs as [|o outs IH]; intros i Hi Hj; cbn [CCoins.chAvail].
  { rewrite Z.bits_0. unfold avail_at, out_at. rewrite lookup_nil. cbn. by rewrite andb_false_r. }
  assert (Hrest : i <> j -> (i + 1 <=? j) && avail_at outs (Z.to_nat (j - (i + 1)))
                  = (i <=? j) && avail_at (o :: outs) (Z.to_nat (j - i))).
  { intros Hne. destruct (Z.leb_spec (i + 1) j), (Z.leb_spec i j); try lia.
    replace (Z.to_nat (j - i)) with (S (Z.to_nat (j - (i + 1)))) by lia. done. }
  assert (Hhere : i = j -> (i + 1 <=? j) = false /\ Z.to_nat (j - i) = 0%nat) by lia.
  destruct (decide (i = j)) as [Heq|Hne].
  - destruct (Hhere Heq) as [E1 E2]. subst j. rewrite Z.leb_refl, E2.
    unfold avail_at at 1, out_at at 1; cbn [lookup list_lookup default from_option id].
    destruct (CTxOut.IsNull o).
    + by rewrite IH, E1 by lia.
    + by rewrite Z.lor_spec, Z.shiftl_spec, Z.sub_diag.
  - rewrite <-Hrest by done. destruct (CTxOut.IsNull o); [apply IH; lia|].
    rewrite Z.lor_spec, IH by lia. rewrite Z.shiftl_spec by lia.
    destruct (decide (j < i)); [by rewrite Z.testbit_neg_r by lia|].
    change 1 with (2 ^ 0) at 1. by rewrite Z.pow2_bits_false by lia.
Qed.

Lemma mask_byte_bits v b : CCoins.mask_bits (mask_byte v b) = avail_at v <$> seq (2 + b * 8) 8.
Proof.
  apply list_eq. intros k. unfold CCoins.mask_bits. rewrite !list_lookup_fmap.
  destruct (decide (k < 8)%nat) as [Hk|Hk].
  - rewrite lookup_seqZ_lt, lookup_seq_lt by lia. cbn [fmap option_fmap option_map]. f_equal.
    unfold mask_byte. rewrite chAvail_testbit by lia.
    replace (Z.to_nat (0 + Z.of_nat k - 0)) with k by lia.
    destruct (Z.leb_spec 0 (0 + Z.of_nat k)); [cbn [andb]|lia].
    unfold avail_at, out_at, CCoins.mask_outs. by rewrite lookup_take_lt, lookup_drop by lia.
  - rewrite lookup_seqZ_ge, lookup_seq_ge by lia. done.
Qed.

Lemma mask_byte_zero v b :
  mask_byte v b = 0 <-> forall j, (2 + b * 8 <= j < 2 + b * 8 + 8)%nat -> avail_at v j = false.
Proof.
  split.
  - intros Hz j Hj. pose proof (mask_byte_bits v b) as Hb. rewrite Hz in Hb.
    assert (Hl : (avail_at v <$> seq (2 + b * 8) 8) !! (j - (2 + b * 8))%nat = Some (avail_at v j)).
    { rewrite list_lookup_fmap, lookup_seq_lt by lia. cbn. do 2 f_equal. lia. }
    rewrite <-Hb in Hl. unfold CCoins.mask_bits in Hl. rewrite list_lookup_fmap in Hl.
    rewrite lookup_seqZ_lt in Hl by lia. cbn [fmap option_fmap option_map] in Hl.
    rewrite Z.bits_0 in Hl. by injection Hl as <-.
  - intros Hj. apply Z.bits_inj_0. intros k. destruct (decide (0 <= k)); [|apply Z.testbit_neg_r; lia].
    unfold mask_byte. rewrite chAvail_testbit by lia. rewrite Z.sub_0_r.
    destruct (decide (k < 8)).
    + specialize (Hj (2 + b * 8 + Z.to_nat k)%nat ltac:(lia)). unfold avail_at, out_at, CCoins.mask_outs in *.
      rewrite lookup_take_lt, lookup_drop by lia. rewrite Hj. apply andb_false_r.
    + unfold avail_at, out_at, CCoins.mask_outs. rewrite lookup_take_ge by lia. apply andb_false_r.
Qed.

Lemma mask_outs_null v b :
  forallb CTxOut.IsNull (CCoins.mask_outs v b) = true <-> mask_byte v b = 0.
Proof.
  rewrite forallb_forall, mask_byte_zero. unfold CCoins.mask_outs. split.
  - intros Hall j Hj. unfold avail_at, out_at. destruct (v !! j) as [o|] eqn:Ho; [|done].
    cbn. rewrite Hall; [done|]. apply list_elem_of_In, list_elem_of_lookup.
    exists (j - (2 + b * 8))%nat. rewrite lookup_take_lt, lookup_drop by lia.
    by replace (2 + b * 8 + (j - (2 + b * 8)))%nat with j by lia.
  - intros Hall o Ho. apply list_elem_of_In, list_elem_of_lookup in Ho as [k Hk].
    apply lookup_take_Some in Hk as [Hk Hlt]. rewrite lookup_drop in Hk.
    specialize (Hall (2 + b * 8 + k)%nat ltac:(lia)). unfold avail_at, out_at in Hall.
    rewrite Hk in Hall. cbn in Hall. by destruct (CTxOut.IsNull o).
Qed.

(** ** The size of the mask *)

Definition nonzero (l : list Z) : Z := Z.of_nat (length (filter (fun x => x <> 0) l)).

Lemma nonzero_app l k : nonzero (l ++ k) = nonzero l + nonzero k.
Proof. unfold nonzero. rewrite filter_app, length_app. lia. Qed.
Lemma nonzero_cons x l : nonzero (x :: l) = (if x =? 0 then 0 else 1) + nonzero l.
Proof.
  unfold nonzero. rewrite filter_cons. destruct (Z.eqb_spec x 0).
  - rewrite decide_False by (intros Hx; by apply Hx). lia.
  - rewrite decide_True by done. cbn [length]. lia.
Qed.
Lemma nonzero_zeros l : Forall (fun x => x = 0) l -> nonzero l = 0.
Proof. induction 1 as [|x l -> _ IH]; [done|]. by rewrite nonzero_cons, IH. Qed.

(** [L] mask bytes are enough, and [L] is the least such number. *)
Definition mask_upto (v : list CTxOut) (L : nat) : Prop :=
  (L = 0%nat \/ mask_byte v (L - 1) <> 0) /\ forall b, (L <= b)%nat -> mask_byte v b = 0.

Definition mask_list (v : list CTxOut) (L : nat) : list Z := mask_byte v <$> seq 0 L.

Lemma mask_list_S v L : mask_list v (S L) = mask_list v L ++ [mask_byte v L].
Proof. unfold mask_list. by rewrite seq_S, fmap_app. Qed.

Lemma mask_list_length v L : length (mask_list v L) = L.
Proof. unfold mask_list. by rewrite length_fmap, length_seq. Qed.

Lemma mask_list_zeros v L b :
  (L <= b)%nat -> (forall b', (L <= b' < b)%nat -> mask_byte v b' = 0) ->
  nonzero (mask_list v b) = nonzero (mask_list v L).
Proof.
  intros HL. induction b as [|b IH]; intros Hz; [by replace L with 0%nat by lia|].
  destruct (decide (L = S b)) as [->|]; [done|].
  rewrite mask_list_S, nonzero_app, IH by (intros; try apply Hz; lia).
  rewrite Hz, nonzero_cons by lia. cbn. unfold nonzero at 2. cbn. lia.
Qed.

Lemma CalcMaskSize_loop_spec fuel v b L :
  (length v <= fuel + b)%nat -> (L <= b)%nat -> (L = 0%nat \/ mask_byte v (L - 1) <> 0) ->
  (forall b', (L <= b' < b)%nat -> mask_byte v b' = 0) ->
  exists L', CCoins.CalcMaskSize_loop fuel v b (Z.of_nat L) (nonzero (mask_list v L))
             = (Z.of_nat L', nonzero (mask_list v L')) /\ mask_upto v L'.
Proof.
  assert (Hend : forall b', (length v <= 2 + b' * 8)%nat -> mask_byte v b' = 0).
  { intros b' Hb'. apply mask_byte_zero. intros j Hj. unfold avail_at, out_at.
    by rewrite lookup_ge_None_2 by lia. }
  revert b L. induction fuel as [|fuel IH]; intros b L Hf HL Hlast Hz; cbn [CCoins.CalcMaskSize_loop].
  - exists L. split; [done|]. split; [done|]. intros b' Hb'.
    destruct (decide (b' < b)%nat); [apply Hz; lia|apply Hend; lia].
  - destruct (Z.ltb_spec (Z.of_nat (2 + b * 8)) (lenZ v)) as [Hlt|Hge]; unfold lenZ in *.
    + destruct (forallb _ _) eqn:Ez.
      * apply mask_outs_null in Ez. apply IH; [lia|lia|done|]. intros b' Hb'.
        destruct (decide (b' = b)) as [->|]; [done|apply Hz; lia].
      * assert (Hnz : mask_byte v b <> 0) by (rewrite <-mask_outs_null; congruence).
        replace (Z.of_nat b + 1) with (Z.of_nat (S b)) by lia.
        replace (nonzero (mask_list v L) + 1) with (nonzero (mask_list v (S b))).
        { apply IH; [lia|lia|right|intros; lia]. by replace (S b - 1)%nat with b by lia. }
        rewrite mask_list_S, nonzero_app, (mask_list_zeros v L b) by (done || lia).
        rewrite nonzero_cons. destruct (Z.eqb_spec (mask_byte v b) 0); [done|]. by cbn.
    + exists L. split; [done|]. split; [done|]. intros b' Hb'.
      destruct (decide (b' < b)%nat); [apply Hz; lia|apply Hend; lia].
Qed.

Lemma CalcMaskSize_spec v :
  exists L, CCoins.CalcMaskSize v = (Z.of_nat L, nonzero (mask_list v L)) /\ mask_upto v L.
Proof.
  apply (CalcMaskSize_loop_spec (length v) v 0 0); [lia|lia|by left|intros; lia].
Qed.

Lemma mask_upto_len v L : mask_upto v L -> (L * 8 <= length v + 8)%nat.
Proof.
  intros [[->|Hnz] _]; [lia|]. destruct (decide (L * 8 <= length v + 8)%nat); [done|].
  exfalso. apply Hnz, mask_byte_zero. intros j Hj. unfold avail_at, out_at.
  by rewrite lookup_ge_None_2 by lia.
Qed.

Lemma nonzero_le l : 0 <= nonzero l <= Z.of_nat (length l).
Proof. unfold nonzero. pose proof (length_filter (fun x => x <> 0) l). lia. Qed.

(** ** Reading the mask and the outputs back *)

Lemma nonzero_last l : l <> [] -> List.last l 0 <> 0 -> 0 < nonzero l.
Proof.
  intros Hne Hlast. destruct l as [|x l _] using rev_ind; [done|].
  rewrite last_last in Hlast. rewrite nonzero_app, nonzero_cons.
  destruct (Z.eqb_spec x 0); [done|]. pose proof (nonzero_le l). unfold nonzero at 2. cbn. lia.
Qed.

Lemma read_mask_spec l s acc :
  (l = [] \/ List.last l 0 <> 0) ->
  CCoins.read_mask (l ++ s) (nonzero l) acc = Some (acc ++ concat (CCoins.mask_bits <$> l), s).
Proof.
  revert acc. induction l as [|x l IH]; intros acc Hlast.
  { cbn [app concat fmap list_fmap]. rewrite app_nil_r. by destruct s. }
  assert (Hpos : 0 < nonzero (x :: l)) by (apply nonzero_last; [done|]; by destruct Hlast).
  cbn [app CCoins.read_mask]. destruct (Z.ltb_spec 0 (nonzero (x :: l))); [|lia].
  replace (if negb (x =? 0) then nonzero (x :: l) - 1 else nonzero (x :: l)) with (nonzero l)
    by (rewrite nonzero_cons; destruct (x =? 0); cbn [negb]; lia).
  rewrite IH.
  - cbn [fmap list_fmap concat]. by rewrite <-app_assoc.
  - destruct l as [|y l]; [by left|right]. destruct Hlast as [?|Hlast]; [done|]. exact Hlast.
Qed.

Definition txout_ok (o : CTxOut) : Prop := in_u 63 (nValue o).

(** Spent outputs are cleared, the others have an amount that the compressed form can hold. *)
Definition canonical (o : CTxOut) : Prop := o = CTxOut.SetNull \/ txout_ok o.

Lemma txout_ok_nonnull o : txout_ok o -> CTxOut.IsNull o = false.
Proof. unfold txout_ok, in_u, CTxOut.IsNull. lia. Qed.

Lemma txout_roundtrip o s :
  txout_ok o -> CTxOutCompressor.Unserialize (CTxOutCompressor.Serialize o ++ s) = Some (o, s).
Proof.
  intros Ho. unfold CTxOutCompressor.Unserialize, CTxOutCompressor.Serialize. rewrite <-app_assoc.
  assert (Hu : in_u 64 (nValue o)) by (unfold txout_ok, in_u in *; lia).
  rewrite (wrapu_small 64) by done. rewrite unser_ser_varint by (by apply CompressAmount_range).
  cbn. rewrite unser_ser_script. cbn. rewrite Decompress_Compress by done. by destruct o.
Qed.

Lemma unspent_cons o v :
  CCoins.unspent (o :: v) = if CTxOut.IsNull o then CCoins.unspent v else o :: CCoins.unspent v.
Proof.
  unfold CCoins.unspent. rewrite filter_cons. destruct (CTxOut.IsNull o).
  - by rewrite decide_False.
  - by rewrite decide_True.
Qed.

Lemma read_outs_spec v a k s :
  Forall canonical v -> (forall j, (a + k <= j)%nat -> avail_at v j = false) ->
  CCoins.read_outs (avail_at v <$> seq a k)
    (concat (CTxOutCompressor.Serialize <$> CCoins.unspent (drop a v)) ++ s)
  = Some (out_at v <$> seq a k, s).
Proof.
  intros Hc. revert a. induction k as [|k IH]; intros a Hrest.
  - cbn [seq fmap list_fmap CCoins.read_outs]. replace (CCoins.unspent (drop a v)) with (@nil CTxOut); [done|].
    symmetry. apply elem_of_nil_inv. intros o [Hn [j Hj]%list_elem_of_lookup]%list_elem_of_filter.
    rewrite lookup_drop in Hj. specialize (Hrest (a + j)%nat ltac:(lia)).
    unfold avail_at, out_at in Hrest. rewrite Hj in Hrest. cbn in Hrest. by rewrite Hn in Hrest.
  - cbn [seq fmap list_fmap CCoins.read_outs].
    assert (IH' := IH (S a) ltac:(intros; apply Hrest; lia)).
    destruct (v !! a) as [o|] eqn:Ho.
    + assert (Eo : out_at v a = o) by (unfold out_at; by rewrite Ho).
      assert (Ea : avail_at v a = negb (CTxOut.IsNull o)) by (unfold avail_at; by rewrite Eo).
      rewrite Ea, Eo, (drop_S _ _ _ Ho), unspent_cons.
      rewrite Forall_lookup in Hc. destruct (Hc a o Ho) as [->|Hok].
      * cbn [CTxOut.IsNull negb CTxOut.SetNull nValue Z.eqb Pos.eqb mbind option_bind]. by rewrite IH'.
      * pose proof (txout_ok_nonnull o Hok) as Hn. rewrite Hn. cbn [negb].
        cbn [fmap list_fmap concat]. rewrite <-app_assoc, txout_roundtrip by done. cbn [mbind option_bind].
        by rewrite IH'.
    + assert (Eo : out_at v a = CTxOut.SetNull) by (unfold out_at; by rewrite Ho).
      assert (Ea : avail_at v a = false) by (unfold avail_at; by rewrite Eo).
      rewrite Ea, Eo. assert (Hd : drop a v = drop (S a) v).
      { apply lookup_ge_None in Ho. rewrite !drop_ge by lia. done. }
      rewrite Hd. cbn [mbind option_bind]. by rewrite IH'.
Qed.

Lemma mask_list_bits v L :
  concat (CCoins.mask_bits <$> mask_list v L) = avail_at v <$> seq 2 (L * 8).
Proof.
  induction L as [|L IH]; [done|].
  rewrite mask_list_S, fmap_app, concat_app, IH. cbn [fmap list_fmap concat].
  rewrite app_nil_r, mask_byte_bits. replace (S L * 8)%nat with (L * 8 + 8)%nat by lia.
  by rewrite seq_app, fmap_app.
Qed.

(** ** [Cleanup] *)

Lemma pop_nulls_split r :
  exists d, r = d ++ CCoins.pop_nulls r /\ Forall (fun o => CTxOut.IsNull o = true) d /\
    (CCoins.pop_nulls r = [] \/ exists o k, CCoins.pop_nulls r = o :: k /\ CTxOut.IsNull o = false).
Proof.
  induction r as [|o r IH]; cbn [CCoins.pop_nulls]; [by exists []; auto|].
  destruct (CTxOut.IsNull o) eqn:Ho.
  - destruct IH as (d & Hd & Hn & Hr). exists (o :: d). split_and!; [by rewrite Hd at 1| |done].
    by constructor.
  - exists []. split_and!; [done|constructor|]. right. by exists o, r.
Qed.

(** The outputs that remain and the spent ones dropped from the end. *)
Lemma Cleanup_split v :
  exists d, v = CCoins.Cleanup_vout v ++ d /\ Forall (fun o => CTxOut.IsNull o = true) d /\
    (CCoins.Cleanup_vout v = [] \/ exists k o, CCoins.Cleanup_vout v = k ++ [o] /\ CTxOut.IsNull o = false).
Proof.
  unfold CCoins.Cleanup_vout. destruct (pop_nulls_split (rev v)) as (d & Hd & Hn & Hr).
  exists (rev d). split_and!.
  - by rewrite <-rev_app_distr, <-Hd, rev_involutive.
  - by apply Forall_rev.
  - destruct Hr as [->|(o & k & -> & Ho)]; [by left|right]. by exists (rev k), o.
Qed.

Lemma Cleanup_out_at v j : Forall canonical v -> out_at (CCoins.Cleanup_vout v) j = out_at v j.
Proof.
  intros Hc. destruct (Cleanup_split v) as (d & Hv & Hd & _). set (w := CCoins.Cleanup_vout v) in *.
  unfold out_at. rewrite Hv at 1. destruct (decide (j < length w)%nat) as [Hj|Hj].
  - by rewrite lookup_app_l.
  - rewrite (lookup_ge_None_2 w) by lia. rewrite lookup_app_r by lia.
    destruct (d !! (j - length w)%nat) as [o|] eqn:Ho; [|done]. cbn [default from_option id].
    rewrite Forall_lookup in Hd. pose proof (Hd _ _ Ho) as Hn.
    assert (Hin : o ∈ v) by (rewrite Hv; apply elem_of_app; right; by eapply list_elem_of_lookup_2).
    rewrite Forall_forall in Hc. destruct (Hc o Hin) as [->|Hok]; [done|].
    apply txout_ok_nonnull in Hok. congruence.
Qed.

Lemma Cleanup_last v k :
  length (CCoins.Cleanup_vout v) = S k -> avail_at (CCoins.Cleanup_vout v) k = true.
Proof.
  intros Hl. destruct (Cleanup_split v) as (d & _ & _ & [E|(k' & o & E & Ho)]); rewrite E in *; [done|].
  rewrite length_app in Hl. cbn in Hl. unfold avail_at, out_at.
  rewrite lookup_app_r by lia. replace (k - length k')%nat with 0%nat by lia. cbn. by rewrite Ho.
Qed.

(** [Cleanup] depends on the contents by position only. *)
Lemma Cleanup_ext v w :
  Forall canonical v -> Forall canonical w -> (forall j, out_at v j = out_at w j) ->
  CCoins.Cleanup_vout v = CCoins.Cleanup_vout w.
Proof.
  intros Hv Hw Hext.
  assert (Hj : forall j, out_at (CCoins.Cleanup_vout v) j = out_at (CCoins.Cleanup_vout w) j).
  { intros j. rewrite !Cleanup_out_at; auto. }
  set (a := CCoins.Cleanup_vout v) in *. set (b := CCoins.Cleanup_vout w) in *.
  assert (Hbeyond : forall x j, (length x <= j)%nat -> avail_at x j = false).
  { intros x j Hl. unfold avail_at, out_at. by rewrite lookup_ge_None_2. }
  assert (Hav : forall j, avail_at a j = avail_at b j) by (intros j; unfold avail_at; by rewrite Hj).
  assert (Hlen : length a = length b).
  { destruct (lt_eq_lt_dec (length a) (length b)) as [[Hlt|?]|Hlt]; [|done|].
    - pose proof (Cleanup_last w (length b - 1) ltac:(unfold b in *; lia)) as Hl. fold b in Hl.
      rewrite <-Hav, Hbeyond in Hl by lia. done.
    - pose proof (Cleanup_last v (length a - 1) ltac:(unfold a in *; lia)) as Hl. fold a in Hl.
      rewrite Hav, Hbeyond in Hl by lia. done. }
  apply list_eq_same_length with (length a); [done|done|]. intros j x y Hlt Hx Hy.
  specialize (Hj j). unfold out_at in Hj. rewrite Hx, Hy in Hj. exact Hj.
Qed.

(** ** The header code *)

Lemma low_bits m c i : 0 <= c < 8 -> 0 <= i < 3 -> Z.testbit (8 * m + c) i = Z.testbit c i.
Proof.
  intros Hc Hi. rewrite <-(Z.mod_pow2_bits_low (8 * m + c) 3 i) by lia.
  f_equal. change (2 ^ 3) with 8. rewrite Z.add_comm, Z.mul_comm, Z_mod_plus_full. by apply Z.mod_small.
Qed.

Lemma code_fields (m : Z) (c f g : bool) (code := 8 * m + ((if c then 1 else 0) + (if f then 2 else 0) + (if g then 4 else 0))) :
  Z.testbit code 0 = c /\ Z.testbit code 1 = f /\ Z.testbit code 2 = g /\ code / 8 = m /\
  negb (Z.land code 6 =? 0) = f || g.
Proof.
  unfold code. clear code.
  assert (H6 : Z.land (8 * m + ((if c then 1 else 0) + (if f then 2 else 0) + (if g then 4 else 0))) 6
          = Z.land ((if c then 1 else 0) + (if f then 2 else 0) + (if g then 4 else 0)) 6).
  { change 6 with (Z.land 7 6). rewrite !Z.land_assoc. f_equal.
    rewrite !(land_ones_mod _ 3) by lia. change (2 ^ 3) with 8.
    rewrite Z.add_comm, Z.mul_comm, Z_mod_plus_full. done. }
  rewrite H6. split_and!; [rewrite low_bits..| |]; try (destruct c, f, g; (done || lia)).
  destruct c, f, g; zdm.
Qed.

(** What may be serialized: canonical outputs and fields the stream formats can hold. *)
Definition coins_ok (c : CCoins) : Prop :=
  Forall canonical (cc_vout c) /\ lenZ (cc_vout c) < 2 ^ 31 /\
  in_u 31 (cc_nHeight c) /\ in_u 31 (cc_nVersion c).

Lemma mask_none v L :
  mask_upto v L -> CCoins.fFirst v = false -> CCoins.fSecond v = false ->
  nonzero (mask_list v L) = 0 -> forall j, avail_at v j = false.
Proof.
  intros [HL Hz] H1 H2 Hn j.
  assert (HL0 : L = 0%nat).
  { destruct HL as [?|HL]; [done|]. destruct L as [|L]; [done|]. exfalso.
    rewrite mask_list_S, nonzero_app, nonzero_cons in Hn. replace (S L - 1)%nat with L in HL by lia.
    pose proof (nonzero_le (mask_list v L)). destruct (Z.eqb_spec (mask_byte v L) 0); [done|].
    pose proof (nonzero_le []). lia. }
  subst L. destruct j as [|[|j]].
  - unfold avail_at, out_at. by destruct v as [|o v].
  - unfold avail_at, out_at. by destruct v as [|o [|o' v]].
  - pose proof (Hz (j / 8)%nat ltac:(lia)) as Hb. rewrite mask_byte_zero in Hb. apply Hb.
    pose proof (Nat.div_mod j 8). pose proof (Nat.mod_upper_bound j 8). lia.
Qed.

Lemma first_two v : [CCoins.fFirst v; CCoins.fSecond v] = avail_at v <$> seq 0 2.
Proof. by destruct v as [|o [|o' v]]. Qed.

Lemma IsPruned_avail c : CCoins.IsPruned c = true <-> forall j, avail_at (cc_vout c) j = false.
Proof.
  unfold CCoins.IsPruned. rewrite forallb_forall. split.
  - intros Hall j. unfold avail_at, out_at. destruct (cc_vout c !! j) as [o|] eqn:Ho; [|done].
    cbn. rewrite Hall; [done|]. by eapply list_elem_of_In, list_elem_of_lookup_2.
  - intros Hall o [j Hj]%list_elem_of_In%list_elem_of_lookup. specialize (Hall j).
    unfold avail_at, out_at in Hall. rewrite Hj in Hall. cbn in Hall. by destruct (CTxOut.IsNull o).
Qed.

Lemma Cleanup_prefix v m :
  Forall canonical v -> (forall j, (m <= j)%nat -> avail_at v j = false) ->
  CCoins.Cleanup_vout (out_at v <$> seq 0 m) = CCoins.Cleanup_vout v.
Proof.
  intros Hc Hbeyond. apply Cleanup_ext; [|done|].
  - apply Forall_fmap, Forall_forall. intros j _. unfold compose, out_at.
    destruct (v !! j) as [o|] eqn:Ho; [|by left]. rewrite Forall_lookup in Hc. by eapply Hc.
  - intros j. unfold out_at at 1. rewrite list_lookup_fmap. destruct (decide (j < m)%nat).
    + by rewrite lookup_seq_lt.
    + rewrite lookup_seq_ge by lia. cbn. pose proof (Hbeyond j ltac:(lia)) as Hn.
      unfold avail_at in Hn. unfold out_at in *. destruct (v !! j) as [o|] eqn:Ho; [|done]. cbn in *.
      rewrite Forall_lookup in Hc. destruct (Hc j o Ho) as [->|Hok]; [done|].
      apply txout_ok_nonnull in Hok. by rewrite Hok in Hn.
Qed.

Lemma in_u_31_64 n : in_u 31 n -> in_u 64 n.
Proof. unfold in_u. lia. Qed.
Lemma in_u_32_64 n : in_u 32 n -> in_u 64 n.
Proof. unfold in_u. lia. Qed.
Lemma s32_small n : in_u 31 n -> s32 n = n.
Proof. intros Hn. apply wraps_small; [done|]. unfold in_u, in_s in *. lia. Qed.

(** The serialization of an unspent-output record is total on records that are not
    fully spent (and fails its assertion exactly on the others), has the length
    [GetSerializeSize] announces, and [Unserialize] reads back the record, cleaned of the spent
    outputs at its end, leaving what follows in the stream. *)
Theorem CCoins_roundtrip c rest :
  coins_ok c ->
  (CCoins.Serialize c = None <-> CCoins.IsPruned c = true) /\
  forall s, CCoins.Serialize c = Some s ->
    CCoins.GetSerializeSize c = Some (lenZ s) /\
    CCoins.Unserialize (s ++ rest) = Some (CCoins.Cleanup c, rest).
Proof.
  intros (Hc & Hlen & Hh & Hv). unfold CCoins.Serialize, CCoins.GetSerializeSize.
  destruct (CalcMaskSize_spec (cc_vout c)) as (L & -> & HL). set (v := cc_vout c) in *.
  pose proof (mask_upto_len v L HL) as HLl. pose proof (nonzero_le (mask_list v L)) as HK.
  rewrite mask_list_length in HK. unfold lenZ in Hlen.
  destruct (CCoins.fFirst v || CCoins.fSecond v || negb (nonzero (mask_list v L) =? 0)) eqn:Hass.
  2:{ split; [|done]. split; [intros _|done]. apply IsPruned_avail. fold v.
      apply orb_false_iff in Hass as [[H1 H2]%orb_false_iff H3].
      apply (mask_none v L HL H1 H2). lia. }
  split.
  { split; [done|]. intros Hp. exfalso. rewrite IsPruned_avail in Hp. fold v in Hp.
    assert (Hm : forall b, mask_byte v b = 0) by (intros b; apply mask_byte_zero; auto).
    pose proof (first_two v) as Hf. cbn [seq fmap list_fmap] in Hf. rewrite !Hp in Hf. injection Hf as E1 E2.
    rewrite E1, E2, nonzero_zeros in Hass; [done|]. apply Forall_fmap, Forall_forall. intros b _. apply Hm. }
  set (K := nonzero (mask_list v L)) in *. set (z := if CCoins.fFirst v || CCoins.fSecond v then 0 else 1) in *.
  assert (Hz : 0 <= K - z < 2 ^ 29).
  { unfold z. destruct (CCoins.fFirst v || CCoins.fSecond v); cbn [orb] in Hass; lia. }
  assert (Hcode : CCoins.nCode c K = 8 * (K - z) + ((if fCoinBase c then 1 else 0)
     + (if CCoins.fFirst v then 2 else 0) + (if CCoins.fSecond v then 4 else 0))).
  { unfold CCoins.nCode. fold v. fold z. rewrite (wrapu_small 32 (K - z)) by (unfold in_u; lia).
    rewrite wrapu_small; [lia|]. unfold in_u. destruct (fCoinBase c), (CCoins.fFirst v), (CCoins.fSecond v); lia. }
  destruct (code_fields (K - z) (fCoinBase c) (CCoins.fFirst v) (CCoins.fSecond v)) as (B0 & B1 & B2 & Bd & B6).
  rewrite <-Hcode in *.
  assert (Hu : in_u 32 (CCoins.nCode c K)).
  { rewrite Hcode. unfold in_u. destruct (fCoinBase c), (CCoins.fFirst v), (CCoins.fSecond v); lia. }
  rewrite Nat2Z.id. fold (mask_byte v). fold (mask_list v L).
  intros s [= <-]. split.
  - f_equal. rewrite !lenZ_app.
    assert (E1 : lenZ (mask_list v L) = Z.of_nat L) by (unfold lenZ; by rewrite mask_list_length).
    assert (E2 : forall l, foldr Z.add 0 (CTxOutCompressor.GetSerializeSize <$> l)
                 = lenZ (concat (CTxOutCompressor.Serialize <$> l))).
    { induction l as [|o l IH]; [done|]. cbn [fmap list_fmap foldr concat]. rewrite lenZ_app, IH. done. }
    rewrite E2. change ((fun b => CCoins.chAvail 0 (CCoins.mask_outs v b)) <$> seq 0 L) with (mask_list v L).
    rewrite E1. lia.
  - unfold CCoins.Unserialize. rewrite <-!app_assoc, unser_ser_varint by eauto using in_u_31_64. cbn [mbind option_bind].
    rewrite unser_ser_varint by eauto using in_u_32_64. cbn [mbind option_bind].
    rewrite (wrapu_small 32 (CCoins.nCode c K)) by done. rewrite B0, B1, B2, Bd, B6.
    replace (K - z + (if CCoins.fFirst v || CCoins.fSecond v then 0 else 1)) with K by (unfold z; lia).
    change ((fun b => CCoins.chAvail 0 (CCoins.mask_outs v b)) <$> seq 0 L) with (mask_list v L).
    unfold K. rewrite read_mask_spec.
    2:{ destruct L as [|L]; [by left|right]. destruct HL as [[?|HL] _]; [done|].
        rewrite mask_list_S, last_last. by replace (S L - 1)%nat with L in HL by lia. }
    cbn [mbind option_bind]. rewrite mask_list_bits, first_two, <-fmap_app, <-seq_app.
    assert (Hbeyond : forall j, (0 + (2 + L * 8) <= j)%nat -> avail_at v j = false).
    { intros j Hj. pose proof (proj2 HL ((j - 2) / 8)%nat) as Hb. rewrite mask_byte_zero in Hb.
      pose proof (Nat.div_mod (j - 2) 8). pose proof (Nat.mod_upper_bound (j - 2) 8).
      apply Hb; [|lia]. apply Nat.div_le_lower_bound; lia. }
    pose proof (read_outs_spec v 0 (2 + L * 8) (ser_varint (cc_nHeight c) ++ rest) Hc Hbeyond) as Hro.
    change (drop 0 v) with v in Hro. rewrite Hro. cbn [mbind option_bind].
    rewrite unser_ser_varint by eauto using in_u_31_64. cbn [mbind option_bind].
    unfold CCoins.Cleanup, CCoins.set_vout. rewrite !s32_small by done.
    cbn [fCoinBase cc_vout cc_nHeight cc_nVersion]. do 3 f_equal. by apply Cleanup_prefix.
Qed.

(** ** [Spend] *)

Lemma nthZ_out_at v n : 0 <= n -> nthZ CTxOut.SetNull v n = out_at v (Z.to_nat n).
Proof.
  intros Hn. unfold nthZ, out_at. destruct (Z.ltb_spec n 0); [lia|]. by rewrite nth_lookup.
Qed.

Lemma IsAvailable_at c n : 0 <= n -> CCoins.IsAvailable c n = avail_at (cc_vout c) (Z.to_nat n).
Proof.
  intros Hn. unfold CCoins.IsAvailable, avail_at. rewrite nthZ_out_at by done.
  destruct (Z.ltb_spec n (lenZ (cc_vout c))) as [|Hge]; [done|]. unfold lenZ in Hge.
  unfold out_at. by rewrite lookup_ge_None_2 by lia.
Qed.

Lemma Cleanup_pruned v :
  Forall canonical v -> (forall j, avail_at v j = false) -> CCoins.Cleanup_vout v = [].
Proof.
  intros Hc Hall. apply (Cleanup_ext v [] Hc (List.Forall_nil _)). intros j.
  unfold avail_at in Hall. specialize (Hall j). unfold out_at in *.
  destruct (v !! j) as [o|] eqn:Ho; [|done]. cbn in *. rewrite Forall_lookup in Hc.
  destruct (Hc j o Ho) as [->|Hok]; [done|]. apply txout_ok_nonnull in Hok. by rewrite Hok in Hall.
Qed.

(** [Spend] succeeds exactly on an available output.  It then clears that output and no
    other, hands the spent output to the undo record, and adds the record's height, version and
    coinbase flag exactly when no output is left, in which case the vector is empty.  On any
    other position nothing changes. *)
Theorem Spend_spec c n undo ok c' undo' :
  Forall canonical (cc_vout c) -> 0 <= n -> CCoins.Spend c n undo = (ok, c', undo') ->
  ok = CCoins.IsAvailable c n /\
  (ok = false -> c' = c /\ undo' = undo) /\
  (ok = true ->
     (forall m, out_at (cc_vout c') m
        = if decide (m = Z.to_nat n) then CTxOut.SetNull else out_at (cc_vout c) m) /\
     (fCoinBase c', cc_nHeight c', cc_nVersion c') = (fCoinBase c, cc_nHeight c, cc_nVersion c) /\
     (CCoins.IsPruned c' = true -> cc_vout c' = []) /\
     undo' = if CCoins.IsPruned c'
             then mkUndo (out_at (cc_vout c) (Z.to_nat n)) (fCoinBase c) (cc_nHeight c) (cc_nVersion c)
             else CTxInUndo.new (out_at (cc_vout c) (Z.to_nat n))).
Proof.
  intros Hc Hn. rewrite IsAvailable_at by done. unfold CCoins.Spend. rewrite nthZ_out_at by done.
  set (k := Z.to_nat n). set (v := cc_vout c) in *.
  destruct (Z.leb_spec (lenZ v) n) as [Hge|Hlt]; unfold lenZ in *.
  { intros [= <- <- <-]. split_and!; [|done|done].
    unfold avail_at, out_at. by rewrite lookup_ge_None_2 by (unfold k; lia). }
  destruct (CTxOut.IsNull (out_at v k)) eqn:Hnull.
  { intros [= <- <- <-]. split_and!; [|done|done]. unfold avail_at. by rewrite Hnull. }
  set (w := <[k := CTxOut.SetNull]> v). intros [= <- <- <-].
  assert (Hw : Forall canonical w) by (apply Forall_insert; [done|by left]).
  assert (Hout : forall m, out_at (CCoins.Cleanup_vout w) m
            = if decide (m = k) then CTxOut.SetNull else out_at v m).
  { intros m. rewrite Cleanup_out_at by done. unfold out_at, w. destruct (decide (m = k)) as [->|Hne].
    - by rewrite list_lookup_insert_eq by (unfold k; lia).
    - by rewrite list_lookup_insert_ne. }
  split_and!; [unfold avail_at; by rewrite Hnull|done|]. intros _.
  cbn [CCoins.Cleanup CCoins.set_vout cc_vout fCoinBase cc_nHeight cc_nVersion].
  assert (Hempty : CCoins.IsPruned (CCoins.set_vout (CCoins.Cleanup_vout w) c) = true ->
            CCoins.Cleanup_vout w = []).
  { rewrite IsPruned_avail. cbn. intros Hall. apply Cleanup_pruned; [done|]. intros j.
    specialize (Hall j). unfold avail_at in *. by rewrite Cleanup_out_at in Hall. }
  split_and!; [done|done|done|].
  unfold CCoins.Cleanup, CCoins.set_vout in *. cbn [cc_vout fCoinBase cc_nHeight cc_nVersion] in *.
  destruct (CCoins.IsPruned _) eqn:Hp.
  - by rewrite (Hempty eq_refl).
  - destruct (Z.eqb_spec (Z.of_nat (length (CCoins.Cleanup_vout w))) 0) as [E|]; [|done].
    destruct (CCoins.Cleanup_vout w); [done|cbn in E; lia].
Qed.

(** The undo record of an input is read back from its serialization, whose length is
    [GetSerializeSize]; a record of height 0, which stores no version, needs version 0. *)
Theorem CTxInUndo_roundtrip u rest :
  txout_ok (undo_txout u) -> in_u 31 (undo_nHeight u) -> in_u 31 (undo_nVersion u) ->
  (undo_nHeight u = 0 -> undo_nVersion u = 0) ->
  CTxInUndo.Unserialize (mkUndo CTxOut.SetNull false 0 0) (CTxInUndo.Serialize u ++ rest) = Some (u, rest) /\
  CTxInUndo.GetSerializeSize u = lenZ (CTxInUndo.Serialize u).
Proof.
  destruct u as [o cb h ver]; cbn [undo_txout undo_nHeight undo_nVersion]. intros Ho Hh Hv H0.
  unfold CTxInUndo.Unserialize, CTxInUndo.Serialize, CTxInUndo.GetSerializeSize, CTxInUndo.header.
  cbn [undo_txout undo_nHeight undo_nVersion undo_fCoinBase].
  assert (Hu : in_u 32 (h * 2 + (if cb then 1 else 0))) by (unfold in_u in *; destruct cb; lia).
  rewrite (wrapu_small 32) by done. split.
  - rewrite <-!app_assoc, unser_ser_varint by (unfold in_u in *; lia). cbn [mbind option_bind].
    rewrite !(wrapu_small 32) by done.
    assert (Ediv : (h * 2 + (if cb then 1 else 0)) / 2 = h) by (destruct cb; zdm).
    assert (Ebit : Z.testbit (h * 2 + (if cb then 1 else 0)) 0 = cb).
    { rewrite Z.mul_comm. destruct cb; [apply Z.testbit_odd_0|rewrite Z.add_0_r; apply Z.testbit_even_0]. }
    rewrite Ediv, Ebit. destruct (Z.ltb_spec 0 h).
    + rewrite unser_ser_varint by eauto using in_u_31_64. cbn [mbind option_bind].
      by rewrite txout_roundtrip, s32_small.
    + cbn [app mbind option_bind]. rewrite txout_roundtrip by done. cbn [mbind option_bind].
      assert (h = 0) by (unfold in_u in *; lia). by rewrite H0.
  - rewrite !lenZ_app. unfold CTxOutCompressor.GetSerializeSize.
    destruct (0 <? h); autorewrite with tt; lia.
Qed.

End Coins.

(** ** Transaction replacement *)

Section Newer.
Implicit Types (l : list (CTxIn * CTxIn)).

Definition differ (p : CTxIn * CTxIn) : Prop := nSequence p.1 <> nSequence p.2.
Definition seq_ok (p : CTxIn * CTxIn) : Prop := nSequence p.1 <= uint_max /\ nSequence p.2 <= uint_max.

(** What the accumulator of the second loop holds after the pairs [l]. *)
Definition newer_inv l (acc : bool * Z) : Prop :=
  let '(fNewer, nLowest) := acc in
  (forall p, p ∈ l -> differ p -> nLowest <= nSequence p.1 /\ nLowest <= nSequence p.2) /\
  (nLowest = uint_max \/ exists p, p ∈ l /\ differ p /\ (nSequence p.1 = nLowest \/ nSequence p.2 = nLowest)) /\
  (fNewer = true <-> exists p, p ∈ l /\ differ p /\ nSequence p.2 = nLowest /\
     forall q, q ∈ l -> differ q -> nLowest < nSequence q.1).

Lemma newer_step_inv l acc p :
  seq_ok p -> newer_inv l acc -> newer_inv (l ++ [p]) (CTransaction.newer_step acc p).
Proof.
  destruct acc as [fNewer nLowest], p as [a o]. intros [Ha Ho] (Hle & Hach & Hiff). cbn [fst snd] in *.
  unfold CTransaction.newer_step.
  assert (Hin : forall q, q ∈ l ++ [(a, o)] <-> q ∈ l \/ q = (a, o)) by set_solver.
  destruct (Z.eqb_spec (nSequence a) (nSequence o)) as [Heq|Hne].
  { assert (Hd : forall q, q ∈ l ++ [(a, o)] /\ differ q <-> q ∈ l /\ differ q).
    { intros q. rewrite Hin. unfold differ. split; [|naive_solver]. intros [[?| ->] ?]; [done|]. done. }
    split_and!.
    - intros q Hq Hdq. apply Hle; [|done]. by apply Hd.
    - destruct Hach as [?|(q & Hq & Hdq & ?)]; [by left|right]. exists q. split_and!; [|done|done]. by apply Hd.
    - rewrite Hiff. split; intros (q & Hq & Hdq & Ho' & Hall); exists q; (split_and!; [by apply Hd|done|done|]);
        intros r Hr Hdr; apply Hall; try done; by apply Hd. }
  assert (Hp : (a, o) ∈ l ++ [(a, o)]) by (apply Hin; by right).
  assert (Hpd : differ (a, o)) by done.
  destruct (Z.leb_spec (nSequence a) nLowest); cbn beta iota;
    match goal with |- context [?x <? ?y] => destruct (Z.ltb_spec x y) end; split_and!.
  - intros q [Hq| ->]%Hin Hdq; [destruct (Hle q Hq Hdq)|]; cbn; lia.
  - right. exists (a, o). split_and!; [done|done|by right].
  - split; [|done]. intros _. exists (a, o). split_and!; [done|done|done|].
    intros q [Hq| ->]%Hin Hdq; [destruct (Hle q Hq Hdq)|]; cbn; lia.
  - intros q [Hq| ->]%Hin Hdq; [destruct (Hle q Hq Hdq)|]; cbn; lia.
  - right. exists (a, o). split_and!; [done|done|by left].
  - split; [done|]. intros (q & _ & _ & _ & Hall). specialize (Hall _ Hp Hpd). cbn in Hall. lia.
  - intros q [Hq| ->]%Hin Hdq; [destruct (Hle q Hq Hdq)|]; cbn; lia.
  - right. exists (a, o). split_and!; [done|done|by right].
  - split; [|done]. intros _. exists (a, o). split_and!; [done|done|done|].
    intros q [Hq| ->]%Hin Hdq; [destruct (Hle q Hq Hdq)|]; cbn; lia.
  - intros q [Hq| ->]%Hin Hdq; [destruct (Hle q Hq Hdq)|]; cbn; lia.
  - destruct Hach as [?|(q & ? & ? & ?)]; [by left|right]. exists q. split_and!; [|done|done]. apply Hin. by left.
  - rewrite Hiff. split.
    + intros (q & Hq & Hdq & Hoq & Hall). exists q. split_and!; [apply Hin; by left|done|done|].
      intros r [Hr| ->]%Hin Hdr; [by apply Hall|done].
    + intros (q & [Hq| ->]%Hin & Hdq & Hoq & Hall).
      * exists q. split_and!; [done|done|done|]. intros r Hr Hdr. apply Hall; [apply Hin; by left|done].
      * destruct Hach as [?|(r & Hr & Hdr & Hlow)]; [lia|].
        pose proof (Hall r ltac:(apply Hin; by left) Hdr). exists r. split_and!; [done|done|lia|].
        intros r' Hr' Hdr'. apply Hall; [apply Hin; by left|done].
Qed.

Lemma newer_fold l :
  Forall seq_ok l -> newer_inv l (fold_left CTransaction.newer_step l (false, uint_max)).
Proof.
  induction l as [|p l IH] using rev_ind.
  - intros _. cbn. split_and!; [set_solver|by left|]. split; [done|]. intros (p & Hp & _). set_solver.
  - intros [Hl Hp]%Forall_app. rewrite fold_left_app. cbn [fold_left]. apply newer_step_inv; [|by apply IH].
    by apply Forall_cons in Hp as [? _].
Qed.

Lemma newer_fold_spec l :
  Forall seq_ok l ->
  ((fold_left CTransaction.newer_step l (false, uint_max)).1 = true <->
   exists p, p ∈ l /\ differ p /\ forall q, q ∈ l -> differ q -> nSequence p.2 < nSequence q.1).
Proof.
  intros Hl. pose proof (newer_fold l Hl) as Hinv.
  destruct (fold_left _ _ _) as [fNewer nLowest]. destruct Hinv as (Hle & Hach & Hiff). cbn [fst].
  rewrite Hiff. split.
  - intros (p & Hp & Hd & Ho & Hall). exists p. split_and!; [done|done|]. intros q Hq Hdq. rewrite Ho. auto.
  - intros (p & Hp & Hd & Hall). destruct (Hle p Hp Hd) as [_ H2]. pose proof (Hall p Hp Hd).
    rewrite Forall_forall in Hl. destruct (Hl p Hp) as [Hm _].
    destruct Hach as [?|(q & Hq & Hdq & [Hlow|Hlow])]; [lia| |].
    + pose proof (Hall q Hq Hdq). lia.
    + exists q. split_and!; [done|done|done|]. intros r Hr Hdr. pose proof (Hall r Hr Hdr). lia.
Qed.

Definition tx_seq_ok (t : CTransaction) : Prop := Forall (fun i => nSequence i <= uint_max) (vin t).

Lemma zip_seq_ok (t u : CTransaction) : tx_seq_ok t -> tx_seq_ok u -> Forall seq_ok (zip (vin t) (vin u)).
Proof.
  intros Ht Hu. apply Forall_forall. intros [a b] Hab. unfold tx_seq_ok in *. rewrite Forall_forall in Ht, Hu.
  split; [apply Ht; by eapply elem_of_zip_l|apply Hu; by eapply elem_of_zip_r].
Qed.

Lemma eqb_outpoint a b : COutPoint.eqb a b = true <-> a = b.
Proof. unfold COutPoint.eqb. destruct a, b; cbn. rewrite andb_true_iff, !Z.eqb_eq. naive_solver. Qed.

Lemma existsb_prevout (v w : list CTxIn) :
  length v = length w ->
  (existsb (fun p => negb (COutPoint.eqb (prevout p.1) (prevout p.2))) (zip v w) = false
   <-> prevout <$> v = prevout <$> w).
Proof.
  revert w. induction v as [|a v IH]; intros [|b w]; try done. intros [= Hl].
  cbn [zip zip_with existsb fmap list_fmap fst snd]. rewrite orb_false_iff, negb_false_iff, eqb_outpoint.
  fold (zip v w). rewrite IH by done. split; [by intros [-> ->]|by intros [= -> ->]].
Qed.

Lemma IsNewerThan_iff (t old : CTransaction) :
  tx_seq_ok t -> tx_seq_ok old ->
  (CTransaction.IsNewerThan t old = true <->
   prevout <$> vin t = prevout <$> vin old /\
   exists p, p ∈ zip (vin t) (vin old) /\ differ p /\
     forall q, q ∈ zip (vin t) (vin old) -> differ q -> nSequence p.2 < nSequence q.1).
Proof.
  intros Ht Ho. unfold CTransaction.IsNewerThan.
  destruct (Z.eqb_spec (lenZ (vin t)) (lenZ (vin old))) as [Hl|Hl]; cbn [negb].
  2:{ split; [done|]. intros [E _]. destruct Hl. unfold lenZ. f_equal.
      by rewrite <-(length_fmap prevout (vin t)), E, length_fmap. }
  assert (Hl' : length (vin t) = length (vin old)) by (unfold lenZ in Hl; lia).
  rewrite <-(existsb_prevout _ _ Hl'). destruct (existsb _ _); [split; [done|by intros [? _]]|].
  rewrite newer_fold_spec by (by apply zip_seq_ok). naive_solver.
Qed.

(** [IsNewerThan] holds exactly when both transactions spend the same outpoints in the
    same order and, among the inputs whose sequence numbers differ, some number of the old
    transaction is below all numbers of the new one; so of two transactions at most one is
    newer than the other, and none is newer than itself. *)
Theorem IsNewerThan_spec (t old : CTransaction) :
  tx_seq_ok t -> tx_seq_ok old ->
  (CTransaction.IsNewerThan t old = true <->
   prevout <$> vin t = prevout <$> vin old /\
   exists p, p ∈ zip (vin t) (vin old) /\ differ p /\
     forall q, q ∈ zip (vin t) (vin old) -> differ q -> nSequence p.2 < nSequence q.1) /\
  (CTransaction.IsNewerThan t old = true -> CTransaction.IsNewerThan old t = false) /\
  CTransaction.IsNewerThan t t = false.
Proof.
  intros Ht Ho. split_and!; [by apply IsNewerThan_iff| |].
  - rewrite (IsNewerThan_iff t old Ht Ho). intros (Hp & [a o] & Hin & Hd & Hall).
    apply not_true_is_false. rewrite (IsNewerThan_iff old t Ho Ht).
    intros (_ & [o' a'] & Hin' & Hd' & Hall'). unfold differ in *. cbn [fst snd] in *.
    assert (Hflip : forall x y, (x, y) ∈ zip (vin t) (vin old) <-> (y, x) ∈ zip (vin old) (vin t)).
    { intros x y. rewrite !list_elem_of_lookup. setoid_rewrite lookup_zip_with_Some. naive_solver. }
    specialize (Hall (a', o') ltac:(by apply Hflip) ltac:(cbn; congruence)).
    specialize (Hall' (o, a) ltac:(by apply Hflip) ltac:(cbn; congruence)). cbn in *. lia.
  - apply not_true_is_false. rewrite (IsNewerThan_iff t t Ht Ht). intros (_ & [a o] & Hin & Hd & _).
    rewrite list_elem_of_lookup in Hin. destruct Hin as [i Hi]. apply lookup_zip_with_Some in Hi.
    unfold differ in Hd. naive_solver.
Qed.
End Newer.

(** ** A concrete coin codec, and the theorems at concrete records *)

Module Examples.

(** Eight bytes, least significant first. *)
Fixpoint le (k : nat) (n : Z) : bytes :=
  match k with O => [] | S k' => n mod 256 :: le k' (n / 256) end.
Fixpoint unle (k : nat) (s : bytes) : option (Z * bytes) :=
  match k with
  | O => Some (0, s)
  | S k' => match s with [] => None | b :: s' => '(n, r) ← unle k' s'; Some (b + 256 * n, r) end
  end.

Lemma unle_le k n rest : 0 <= n < 256 ^ Z.of_nat k -> unle k (le k n ++ rest) = Some (n, rest).
Proof.
  revert n. induction k as [|k IH]; intros n Hn; cbn [le unle app].
  - assert (n = 0) by lia. by subst.
  - rewrite IH; [cbn; do 2 f_equal; zdm|]. rewrite Nat2Z.inj_succ, Z.pow_succ_r in Hn by lia.
    split; [zdm|]. apply Z.div_lt_upper_bound; lia.
Qed.

(** Every byte is announced by a 1, the end by a 0. *)
Fixpoint marked (s : CScript) : bytes := match s with [] => [0] | b :: s' => 1 :: b :: marked s' end.
Fixpoint unmark (fuel : nat) (s : bytes) : option (CScript * bytes) :=
  match fuel, s with
  | S fuel', m :: s1 =>
    if m =? 0 then Some ([], s1)
    else match s1 with b :: s2 => '(r, s3) ← unmark fuel' s2; Some (b :: r, s3) | [] => None end
  | _, _ => None
  end.

Lemma unmark_marked s rest fuel : (length s < fuel)%nat -> unmark fuel (marked s ++ rest) = Some (s, rest).
Proof.
  revert fuel. induction s as [|b s IH]; intros [|fuel] Hf; cbn in Hf; try lia; cbn; [done|].
  by rewrite IH by lia.
Qed.

Lemma unmark_ser s rest : unmark (length (marked s ++ rest)) (marked s ++ rest) = Some (s, rest).
Proof.
  apply unmark_marked. rewrite length_app. induction s as [|b s IH]; cbn; lia.
Qed.

#[local] Instance codec : CoinCodec.
Proof.
  refine {| ser_varint := le 8; unser_varint := unle 8; CompressAmount := id; DecompressAmount := id;
            ser_script := marked; unser_script := fun s => unmark (length s) s;
            unser_ser_script := unmark_ser |}.
  - intros n rest Hn. apply unle_le. unfold in_u in Hn. lia.
  - done.
  - done.
Defined.

Definition o1 : CTxOut := mkTxOut 5 [1; 2].
Definition o2 : CTxOut := mkTxOut 7 [].
Definition coins : CCoins := mkCoins true [CTxOut.SetNull; o1; CTxOut.SetNull; o2; CTxOut.SetNull] 10 1.

Lemma coins_good : coins_ok coins.
Proof.
  unfold coins_ok. split_and!; [|done|vm_compute; intuition congruence|vm_compute; intuition congruence].
  unfold coins. cbn [cc_vout]. repeat (apply Forall_cons; split); try apply Forall_nil; trivial;
    try (by left); right; vm_compute; intuition congruence.
Qed.

(** The amount 0 of a third output, spent, and the two outputs left. *)
Lemma CCoins_roundtrip_witness :
  exists s, CCoins.Serialize coins = Some s /\
            CCoins.Unserialize (s ++ [42]) = Some (CCoins.Cleanup coins, [42]).
Proof.
  destruct (CCoins_roundtrip coins [42] coins_good) as [_ Hr].
  eexists. split; [vm_compute; reflexivity|]. apply Hr. vm_compute. reflexivity.
Defined.

Lemma Spend_spec_witness :
  exists c' undo', CCoins.Spend coins 3 (mkUndo CTxOut.SetNull false 0 0) = (true, c', undo') /\
    undo_txout undo' = o2 /\
    forall m, out_at (cc_vout c') m = if decide (m = 3%nat) then CTxOut.SetNull else out_at (cc_vout coins) m.
Proof.
  destruct (CCoins.Spend coins 3 (mkUndo CTxOut.SetNull false 0 0)) as [[ok c'] undo'] eqn:E.
  destruct (Spend_spec coins 3 (mkUndo CTxOut.SetNull false 0 0) ok c' undo' (proj1 coins_good)
              ltac:(lia) E) as (Hok & _ & Ht).
  assert (Htrue : ok = true) by (rewrite Hok; reflexivity). subst ok.
  exists c', undo'. split; [reflexivity|]. split; [|exact (proj1 (Ht eq_refl))].
  vm_compute in E. injection E as _ <-. reflexivity.
Defined.

Lemma CTxInUndo_roundtrip_witness :
  CTxInUndo.Unserialize (mkUndo CTxOut.SetNull false 0 0) (CTxInUndo.Serialize (mkUndo o1 true 10 1) ++ [42])
    = Some (mkUndo o1 true 10 1, [42]).
Proof.
  apply (CTxInUndo_roundtrip (mkUndo o1 true 10 1) [42]); cbn; try lia; vm_compute; intuition congruence.
Defined.

Definition t_old : CTransaction :=
  mkTx 1 [mkTxIn (mkOutPoint 1 0) [] 5; mkTxIn (mkOutPoint 2 1) [] uint_max] [] 0.
Definition t_new : CTransaction :=
  mkTx 1 [mkTxIn (mkOutPoint 1 0) [] 6; mkTxIn (mkOutPoint 2 1) [] uint_max] [] 0.

Lemma IsNewerThan_spec_witness :
  CTransaction.IsNewerThan t_new t_old = true /\ CTransaction.IsNewerThan t_old t_new = false.
Proof.
  assert (Hn : tx_seq_ok t_new) by (repeat constructor; vm_compute; congruence).
  assert (Ho : tx_seq_ok t_old) by (repeat constructor; vm_compute; congruence).
  destruct (IsNewerThan_spec t_new t_old Hn Ho) as (_ & Hanti & _).
  split; [reflexivity|]. apply Hanti. reflexivity.
Defined.

End Examples.
