(* ===== verification/Block.v ===== *)
(** Blocks and their Merkle trees: src/dust_coin/bitcoin_block.h.

    A block is its header, its transactions and the mutable [vMerkleTree].  The double SHA-256
    of two concatenated hashes ([Hash], hash.h over OpenSSL) and the hash of a transaction are
    parameters.  Reading and writing blocks on disk is not modelled. *)

From S2P Require Import Prelude Core.

Class Hashing := { Hash2 : uint256 -> uint256 -> uint256; TxHash : CTransaction -> uint256 }.

Record CBlock := mkBlock {
  header : CBlockHeader; vtx : list CTransaction; vMerkleTree : list uint256 }.

Module CBlock.
Section Hash.
Context `{Hashing}.

Definition SetNull : CBlock := mkBlock CBlockHeader.SetNull [] [].
Definition of_header (h : CBlockHeader) : CBlock := mkBlock h [] [].
Definition GetBlockHeader (b : CBlock) : CBlockHeader := header b.

(** The inner loop: [i = 0, 2, 4, ...] below [nSize], over the nodes from index [j] on. *)
Definition level_step (j nSize : Z) (tree : list uint256) (i : Z) : list uint256 :=
  let i2 := Z.min (i + 1) (nSize - 1) in
  tree ++ [Hash2 tree.[j + i] tree.[j + i2]].

Definition evens (nSize : Z) : list Z := Z.mul 2 <$> seqZ 0 ((nSize + 1) / 2).

(** The outer loop; [nSize] shrinks, so [fuel = vtx.size()] suffices. *)
Fixpoint Build_loop (fuel : nat) (nSize j : Z) (tree : list uint256) : list uint256 :=
  match fuel with
  | O => tree
  | S fuel' =>
    if 1 <? nSize then
      Build_loop fuel' ((nSize + 1) / 2) (s32 (j + nSize))
                 (fold_left (level_step j nSize) (evens nSize) tree)
    else tree
  end.

(** The root and the block with its tree filled in. *)
Definition BuildMerkleTree (b : CBlock) : uint256 * CBlock :=
  let leaves := TxHash <$> vtx b in
  let tree := Build_loop (length (vtx b)) (s32 (lenZ (vtx b))) 0 leaves in
  (default 0 (last tree), mkBlock (header b) (vtx b) tree).

(** [None]: an assertion fails. *)
Definition GetTxHash (b : CBlock) (nIndex : Z) : option uint256 :=
  if (0 <? lenZ (vMerkleTree b)) && (nIndex <? lenZ (vtx b)) then Some (vMerkleTree b).[nIndex]
  else None.

Fixpoint Branch_loop (fuel : nat) (tree : list uint256) (nSize j nIndex : Z) : list uint256 :=
  match fuel with
  | O => []
  | S fuel' =>
    if 1 <? nSize then
      let i := Z.min (Z.lxor nIndex 1) (nSize - 1) in
      tree.[j + i] :: Branch_loop fuel' tree ((nSize + 1) / 2) (s32 (j + nSize)) (Z.shiftr nIndex 1)
    else []
  end.

Definition GetMerkleBranch (b : CBlock) (nIndex : Z) : list uint256 * CBlock :=
  let b := match vMerkleTree b with [] => (BuildMerkleTree b).2 | _ => b end in
  (Branch_loop (length (vtx b)) (vMerkleTree b) (s32 (lenZ (vtx b))) 0 nIndex, b).

Definition Check_step (acc : uint256 * Z) (otherside : uint256) : uint256 * Z :=
  let '(h, nIndex) := acc in
  ((if negb (Z.land nIndex 1 =? 0) then Hash2 otherside h else Hash2 h otherside), Z.shiftr nIndex 1).

Definition CheckMerkleBranch (h : uint256) (vMerkleBranch : list uint256) (nIndex : Z) : uint256 :=
  if nIndex =? -1 then 0 else (fold_left Check_step vMerkleBranch (h, nIndex)).1.

End Hash.
End CBlock.

(** ** The reference: levels of a tree *)

Section Reference.
Context `{Hashing}.

(** The level above: neighbours are hashed together, an odd last node with itself. *)
Fixpoint up (l : list uint256) : list uint256 :=
  match l with
  | a :: b :: r => Hash2 a b :: up r
  | [a] => [Hash2 a a]
  | [] => []
  end.

Fixpoint levels (fuel : nat) (l : list uint256) : list uint256 :=
  match fuel with
  | O => l
  | S fuel' => if 1 <? lenZ l then l ++ levels fuel' (up l) else l
  end.

Fixpoint root (fuel : nat) (l : list uint256) : uint256 :=
  match fuel with
  | O => l.[0]
  | S fuel' => if 1 <? lenZ l then root fuel' (up l) else l.[0]
  end.

Definition merkle_root (l : list uint256) : uint256 := root (length l) l.

Lemma up_len l : lenZ (up l) = (lenZ l + 1) / 2.
Proof.
  induction l as [l IH] using list_len_ind. destruct l as [|a [|b r]]; [done..|].
  cbn [up]. autorewrite with tt. rewrite IH by (cbn; lia). zdm.
Qed.

Lemma up_nth l k : 0 <= k < (lenZ l + 1) / 2 ->
  (up l).[k] = Hash2 l.[2 * k] l.[Z.min (2 * k + 1) (lenZ l - 1)].
Proof.
  revert k. induction l as [l IH] using list_len_ind. intros k Hk.
  destruct l as [|a [|b r]]; [unfold lenZ in Hk; cbn [length] in Hk; zdm| |].
  { unfold lenZ in Hk; cbn [length] in Hk. assert (k = 0) by zdm. by subst. }
  cbn [up]. destruct (decide (k = 0)) as [->|Hk0].
  { autorewrite with tt. pose proof (lenZ_nonneg r). by replace (Z.min _ _) with 1 by lia. }
  autorewrite with tt in *. rewrite (nthZ_cons _ _ _ k), IH by (try (cbn; lia); zdm).
  rewrite (nthZ_cons _ a _ (2 * k)), (nthZ_cons _ b), (nthZ_cons _ a _ (Z.min _ _)), (nthZ_cons _ b) by zdm.
  do 2 f_equal; lia.
Qed.

End Reference.

(** ** The tree and its branches *)

Section Trees.
Context `{Hashing}.

Lemma level_fold pre l m :
  Z.of_nat m <= (lenZ l + 1) / 2 ->
  fold_left (CBlock.level_step (lenZ pre) (lenZ l)) (Z.mul 2 <$> seqZ 0 (Z.of_nat m)) (pre ++ l)
    = pre ++ l ++ take m (up l).
Proof.
  induction m as [|m IH]; intros Hm; [by rewrite take_0, app_nil_r|].
  rewrite Nat2Z.inj_succ, <-Z.add_1_r, seqZ_app, fmap_app, fold_left_app, IH by lia.
  assert (Hup : (m < length (up l))%nat).
  { pose proof (up_len l) as Hl. unfold lenZ in Hl at 1. lia. }
  replace (seqZ (0 + Z.of_nat m) 1) with [Z.of_nat m] by (by rewrite seqZ_cons).
  cbn [fmap list_fmap fold_left]. unfold CBlock.level_step.
  assert (Hin : forall i, 0 <= i < lenZ l -> (pre ++ l ++ take m (up l)).[lenZ pre + i] = l.[i]).
  { intros i Hi. rewrite nthZ_app_r by lia. rewrite Z.add_simpl_l. by apply nthZ_app_l. }
  rewrite !Hin by zdm. rewrite <-up_nth by lia. rewrite <-!app_assoc. do 2 f_equal.
  destruct (lookup_lt_is_Some_2 _ _ Hup) as [x Hx]. by rewrite (take_S_r _ _ x), (nthZ_lookup _ _ _ x).
Qed.

Lemma level_all pre l :
  fold_left (CBlock.level_step (lenZ pre) (lenZ l)) (CBlock.evens (lenZ l)) (pre ++ l) = (pre ++ l) ++ up l.
Proof.
  unfold CBlock.evens. assert (Hl : Z.of_nat (length (up l)) = (lenZ l + 1) / 2) by apply up_len.
  pose proof (level_fold pre l (length (up l))) as Hf.
  rewrite firstn_all, Hl in Hf. by rewrite Hf, app_assoc.
Qed.

Lemma s32_len z : 0 <= z < 2 ^ 31 -> s32 z = z.
Proof. intros Hz. apply wraps_small; unfold in_s; lia. Qed.

Lemma Build_levels fuel pre l :
  lenZ pre + 3 * lenZ l < 2 ^ 31 ->
  CBlock.Build_loop fuel (lenZ l) (lenZ pre) (pre ++ l) = pre ++ levels fuel l.
Proof.
  revert pre l. induction fuel as [|fuel IH]; intros pre l Hlen; [done|].
  cbn [CBlock.Build_loop levels]. destruct (Z.ltb_spec 1 (lenZ l)); [|done].
  pose proof (lenZ_nonneg pre). rewrite level_all, <-up_len, s32_len, <-lenZ_app by lia.
  rewrite IH, <-app_assoc; [done|]. rewrite lenZ_app, up_len. zdm.
Qed.

Lemma levels_last fuel l : last (levels fuel l) <> None \/ l = [].
Proof.
  revert l. induction fuel as [|fuel IH]; intros l; cbn [levels]; [|destruct (1 <? lenZ l) eqn:Hl].
  1, 3: destruct l; [by right|left; rewrite last_cons; by destruct (last l)].
  destruct (IH (up l)) as [Hne| He]; left; rewrite last_app.
  - by destruct (last (levels fuel (up l))).
  - exfalso. pose proof (up_len l) as Hu. rewrite He in Hu. unfold lenZ at 1 in Hu. cbn [length] in Hu. zdm.
Qed.

Lemma levels_root fuel l :
  lenZ l <= Z.of_nat fuel -> default 0 (last (levels fuel l)) = root fuel l.
Proof.
  assert (Hshort : forall l : list Z, lenZ l <= 1 -> default 0 (last l) = l.[0]).
  { intros [|a [|b r]]; [done..|]. autorewrite with tt. pose proof (lenZ_nonneg r). lia. }
  revert l. induction fuel as [|fuel IH]; intros l Hl; cbn [levels root]; [apply Hshort; lia|].
  destruct (Z.ltb_spec 1 (lenZ l)); [|by apply Hshort]. rewrite <-IH by (rewrite up_len; zdm).
  rewrite last_app. destruct (levels_last fuel (up l)) as [Hne|He].
  - by destruct (last (levels fuel (up l))).
  - pose proof (up_len l) as Hu. rewrite He in Hu. unfold lenZ at 1 in Hu. cbn [length] in Hu. zdm.
Qed.

Lemma Build_root b :
  lenZ (vtx b) < 2 ^ 29 ->
  CBlock.BuildMerkleTree b =
    (merkle_root (TxHash <$> vtx b), mkBlock (header b) (vtx b) (levels (length (vtx b)) (TxHash <$> vtx b))).
Proof.
  intros Hlen. unfold CBlock.BuildMerkleTree.
  assert (Hl : lenZ (vtx b) = lenZ (TxHash <$> vtx b)) by (unfold lenZ; by rewrite length_fmap).
  pose proof (lenZ_nonneg (vtx b)). rewrite s32_len by lia.
  pose proof (Build_levels (length (vtx b)) [] (TxHash <$> vtx b)) as Hb.
  cbn [app] in Hb. change (lenZ (@nil uint256)) with 0 in Hb. rewrite <-Hl in Hb.
  rewrite Hb by lia. f_equal. rewrite levels_root by (rewrite <-Hl; unfold lenZ; lia).
  unfold merkle_root. by rewrite length_fmap.
Qed.

(** The sibling of node [i] of a level. *)
Definition sibling (l : list uint256) (i : Z) : uint256 := l.[Z.min (Z.lxor i 1) (lenZ l - 1)].

Fixpoint branch (fuel : nat) (l : list uint256) (i : Z) : list uint256 :=
  match fuel with
  | O => []
  | S fuel' => if 1 <? lenZ l then sibling l i :: branch fuel' (up l) (i / 2) else []
  end.

Lemma lxor_1 i : Z.lxor i 1 = if Z.odd i then i - 1 else i + 1.
Proof.
  assert (Heven : forall j, Z.odd j = false -> Z.lxor j 1 = j + 1).
  { intros j Hj. symmetry. apply Z.add_nocarry_lxor. by rewrite land_1, Zmod_odd, Hj. }
  destruct (Z.odd i) eqn:Ho; [|by apply Heven].
  assert (Hp : Z.odd (i - 1) = false) by (by rewrite Z.odd_sub, Ho).
  apply Heven in Hp. rewrite Z.sub_add in Hp. rewrite <-Hp at 1.
  by rewrite Z.lxor_assoc, Z.lxor_nilpotent, Z.lxor_0_r.
Qed.

Lemma levels_prefix fuel l : exists r, levels fuel l = l ++ r.
Proof.
  destruct fuel as [|fuel]; cbn [levels]; [|destruct (1 <? lenZ l)]; try (exists []; by rewrite app_nil_r).
  by eexists.
Qed.

Lemma sibling_range (l : list uint256) i :
  0 <= i < lenZ l -> 1 < lenZ l -> 0 <= Z.min (Z.lxor i 1) (lenZ l - 1) < lenZ l.
Proof. intros Hi Hl. rewrite lxor_1. destruct (Z.odd i) eqn:Ho; [|lia]. destruct (decide (i = 0)) as [->|]; [done|lia]. Qed.

Lemma half_range (l : list uint256) i : 0 <= i < lenZ l -> 0 <= i / 2 < lenZ (up l).
Proof. rewrite up_len. zdm. Qed.

Lemma Branch_levels fuel pre l i :
  0 <= i < lenZ l -> lenZ pre + 3 * lenZ l < 2 ^ 31 ->
  CBlock.Branch_loop fuel (pre ++ levels fuel l) (lenZ l) (lenZ pre) i = branch fuel l i.
Proof.
  revert pre l i. induction fuel as [|fuel IH]; intros pre l i Hi Hlen; [done|].
  cbn [CBlock.Branch_loop branch]. destruct (Z.ltb_spec 1 (lenZ l)) as [Hl|]; [|done].
  pose proof (lenZ_nonneg pre). pose proof (sibling_range l i Hi Hl). f_equal.
  - destruct (levels_prefix (S fuel) l) as [r ->].
    rewrite nthZ_app_r, Z.add_simpl_l, nthZ_app_l by lia. done.
  - cbn [levels]. destruct (Z.ltb_spec 1 (lenZ l)); [|lia].
    rewrite s32_len, <-lenZ_app, app_assoc, <-up_len, shiftr_1 by lia. apply IH; [by apply half_range|].
    rewrite lenZ_app, up_len. zdm.
Qed.

(** One step up, from a node and its sibling to the parent. *)
Lemma Check_step_parent l i :
  0 <= i < lenZ l -> 1 < lenZ l ->
  CBlock.Check_step (l.[i], i) (sibling l i) = ((up l).[i / 2], i / 2).
Proof.
  intros Hi Hl. unfold CBlock.Check_step, sibling.
  pose proof (half_range l i Hi) as Hh. rewrite up_len in Hh.
  rewrite shiftr_1, up_nth by lia. rewrite land_1, Zmod_odd, lxor_1. f_equal.
  assert (Hdiv : i = 2 * (i / 2) + if Z.odd i then 1 else 0).
  { rewrite (Z.div_mod i 2) at 1 by done. by rewrite Zmod_odd. }
  destruct (Z.odd i) eqn:Ho; cbn [negb Z.eqb]; do 2 f_equal; lia.
Qed.

Lemma Check_branch fuel l i :
  0 <= i < lenZ l -> lenZ l <= Z.of_nat fuel ->
  (fold_left CBlock.Check_step (branch fuel l i) (l.[i], i)).1 = root fuel l.
Proof.
  revert l i. induction fuel as [|fuel IH]; intros l i Hi Hf; [lia|].
  cbn [branch root]. destruct (Z.ltb_spec 1 (lenZ l)); cbn [fold_left fst].
  - rewrite Check_step_parent by done. apply IH; [by apply half_range|]. rewrite up_len. zdm.
  - f_equal. lia.
Qed.

(** Two different pairs of hashes with the same hash. *)
Definition collision : Prop := exists a b c d, (a, b) <> (c, d) /\ Hash2 a b = Hash2 c d.

Lemma Check_branch_sound fuel l i h br :
  0 <= i < lenZ l -> lenZ l <= Z.of_nat fuel -> length br = length (branch fuel l i) ->
  (fold_left CBlock.Check_step br (h, i)).1 = root fuel l -> h = l.[i] \/ collision.
Proof.
  revert l i h br. induction fuel as [|fuel IH]; intros l i h br Hi Hf Hbr Hr; [lia|].
  cbn [branch root] in *. destruct (Z.ltb_spec 1 (lenZ l)) as [Hl|Hl].
  - destruct br as [|s br]; [done|]. injection Hbr as Hbr. cbn [fold_left] in Hr.
    pose proof (Check_step_parent l i Hi Hl) as Hp. unfold CBlock.Check_step in Hr, Hp.
    rewrite shiftr_1 in Hr, Hp. injection Hp as Hp.
    destruct (IH (up l) (i / 2) _ br ltac:(by apply half_range) ltac:(rewrite up_len; zdm) Hbr Hr) as [Hh|]; [|by right].
    rewrite <-Hp in Hh. destruct (negb (Z.land i 1 =? 0)); unfold collision.
    + destruct (decide ((s, h) = (sibling l i, l.[i]))) as [[= _ ?]|]; [by left|right; by eexists _, _, _, _].
    + destruct (decide ((h, s) = (l.[i], sibling l i))) as [[= ? _]|]; [by left|right; by eexists _, _, _, _].
  - destruct br; [|done]. cbn [fold_left fst] in Hr. left. rewrite Hr. f_equal. lia.
Qed.

(** A block whose tree was built. *)
Definition built (b : CBlock) : CBlock := (CBlock.BuildMerkleTree b).2.

Lemma Branch_built b i :
  vMerkleTree b = [] \/ vMerkleTree b = vMerkleTree (built b) ->
  lenZ (vtx b) < 2 ^ 29 -> 0 <= i < lenZ (vtx b) ->
  (CBlock.GetMerkleBranch b i).1 = branch (length (vtx b)) (TxHash <$> vtx b) i.
Proof.
  intros Hb Hlen Hi. unfold CBlock.GetMerkleBranch.
  assert (Hl : lenZ (TxHash <$> vtx b) = lenZ (vtx b)) by (unfold lenZ; by rewrite length_fmap).
  unfold built in Hb. rewrite Build_root in * by done. cbn [snd vMerkleTree] in Hb.
  set (b' := match vMerkleTree b with [] => _ | _ => b end).
  assert (Hb' : vtx b' = vtx b /\ vMerkleTree b' = levels (length (vtx b)) (TxHash <$> vtx b)).
  { unfold b'. destruct (vMerkleTree b) as [|x r] eqn:Hv; [done|]. destruct Hb as [|Hb]; [done|]. by rewrite Hv. }
  destruct Hb' as [-> ->]. cbn [fst]. rewrite s32_len, <-Hl by lia.
  apply (Branch_levels _ [] (TxHash <$> vtx b) i); rewrite Hl; [done|]. change (lenZ (@nil uint256)) with 0. lia.
Qed.

(** C40 For every transaction of a block, the branch [GetMerkleBranch] returns leads
    [CheckMerkleBranch] from the hash of the transaction to the root [BuildMerkleTree] computes,
    which is the root of the reference tree; and any other hash that a branch of that length
    leads to the root from exhibits a collision of the hash function. *)
Theorem MerkleBranch_correct b i :
  vMerkleTree b = [] \/ vMerkleTree b = vMerkleTree (built b) ->
  lenZ (vtx b) < 2 ^ 29 -> 0 <= i < lenZ (vtx b) ->
  let rt := (CBlock.BuildMerkleTree b).1 in
  rt = merkle_root (TxHash <$> vtx b) /\
  CBlock.GetTxHash (built b) i = Some (TxHash <$> vtx b).[i] /\
  CBlock.CheckMerkleBranch (TxHash <$> vtx b).[i] (CBlock.GetMerkleBranch b i).1 i = rt /\
  (forall h br, length br = length (CBlock.GetMerkleBranch b i).1 ->
     CBlock.CheckMerkleBranch h br i = rt -> h = (TxHash <$> vtx b).[i] \/ collision).
Proof.
  intros Hb Hlen Hi rt. subst rt. rewrite (Branch_built b i Hb Hlen Hi).
  unfold CBlock.CheckMerkleBranch, built, CBlock.GetTxHash. rewrite Build_root by done. cbn [fst snd vtx vMerkleTree].
  assert (Hl : lenZ (TxHash <$> vtx b) = lenZ (vtx b)) by (unfold lenZ; by rewrite length_fmap).
  unfold merkle_root. rewrite length_fmap. destruct (Z.eqb_spec i (-1)); [lia|]. split_and!; [done| | |].
  - destruct (levels_prefix (length (vtx b)) (TxHash <$> vtx b)) as [r ->].
    pose proof (lenZ_nonneg r). rewrite lenZ_app, nthZ_app_l by lia.
    destruct (Z.ltb_spec 0 (lenZ (TxHash <$> vtx b) + lenZ r)), (Z.ltb_spec i (lenZ (vtx b))); try lia. done.
  - apply Check_branch; rewrite Hl; [done|]. unfold lenZ. lia.
  - intros h br Hbr Hr. eapply Check_branch_sound; [by rewrite Hl| |exact Hbr|exact Hr]. rewrite Hl. unfold lenZ. lia.
Qed.

(** ** The ambiguity of odd levels *)

Lemma up_dup l x : Z.odd (lenZ l) = true -> last l = Some x -> up (l ++ [x]) = up l.
Proof.
  induction l as [l IH] using list_len_ind. destruct l as [|a [|c r]]; [done| |].
  - by intros _ [= ->].
  - intros Ho Hx. cbn [app up]. rewrite IH; [done|cbn; lia| |].
    + rewrite !lenZ_cons in Ho. rewrite Z.add_assoc in Ho. by rewrite Z.odd_add in Ho; destruct (Z.odd (lenZ r)).
    + rewrite !last_cons in Hx. destruct r as [|e r]; [done|]. rewrite last_cons in *. by destruct (last r).
Qed.

Lemma root_fuel fuel fuel' l :
  lenZ l <= Z.of_nat fuel -> lenZ l <= Z.of_nat fuel' -> root fuel l = root fuel' l.
Proof.
  revert fuel' l. induction fuel as [|fuel IH]; intros [|fuel'] l Hf Hf'; cbn [root]; try done;
    try (destruct (Z.ltb_spec 1 (lenZ l)); [lia|done]).
  destruct (Z.ltb_spec 1 (lenZ l)); [|done]. apply IH; rewrite up_len; zdm.
Qed.

(** A block with an odd number of transactions, more than one, has the same Merkle root as
    the block with the last transaction repeated: the root does not determine the
    transactions, so that [CheckBlock] has to reject repeated transactions itself. *)
Theorem BuildMerkleTree_duplicate h v tx t1 t2 :
  lenZ (v ++ [tx; tx]) < 2 ^ 29 -> Z.odd (lenZ (v ++ [tx])) = true -> 1 < lenZ (v ++ [tx]) ->
  (CBlock.BuildMerkleTree (mkBlock h (v ++ [tx; tx]) t1)).1 = (CBlock.BuildMerkleTree (mkBlock h (v ++ [tx]) t2)).1.
Proof.
  intros Hlen Ho H1. assert (Hlen' : lenZ (v ++ [tx]) < 2 ^ 29) by (autorewrite with tt in *; lia).
  rewrite !Build_root by done. cbn [fst vtx].
  replace (TxHash <$> v ++ [tx; tx]) with ((TxHash <$> v ++ [tx]) ++ [TxHash tx])
    by (by rewrite !fmap_app, <-app_assoc).
  set (l := TxHash <$> v ++ [tx]).
  assert (Hl : lenZ l = lenZ (v ++ [tx])) by (unfold l, lenZ; by rewrite length_fmap).
  assert (Hx : last l = Some (TxHash tx)) by (unfold l; rewrite fmap_app; apply last_snoc).
  unfold merkle_root. rewrite length_app. cbn [length]. rewrite Nat.add_1_r.
  destruct (length l) as [|n] eqn:Hn; [unfold lenZ in *; lia|].
  cbn [root]. rewrite lenZ_app, up_dup by (by rewrite ?Hl).
  change (lenZ [TxHash tx]) with 1.
  destruct (Z.ltb_spec 1 (lenZ l + 1)), (Z.ltb_spec 1 (lenZ l)); try lia.
  assert (lenZ (up l) <= Z.of_nat n) by (rewrite up_len; unfold lenZ in *; zdm).
  by apply (root_fuel (S n) n); [lia|].
Qed.

End Trees.

(** ** The theorems at a block of three transactions *)

Module Examples.

#[local] Instance hashing : Hashing := {| Hash2 a b := a * 1000 + b; TxHash t := nLockTime t |}.

Definition tx (n : Z) : CTransaction := mkTx 1 [] [] n.
Definition b3 : CBlock := mkBlock CBlockHeader.SetNull [tx 1; tx 2; tx 3] [].

Lemma MerkleBranch_correct_witness :
  (CBlock.GetMerkleBranch b3 1).1 = [1; 3003] /\
  CBlock.CheckMerkleBranch 2 [1; 3003] 1 = (CBlock.BuildMerkleTree b3).1.
Proof.
  split; [reflexivity|].
  exact (proj1 (proj2 (proj2 (MerkleBranch_correct b3 1 (or_introl eq_refl) ltac:(reflexivity)
                                ltac:(split; [lia|reflexivity]))))).
Defined.

Lemma BuildMerkleTree_duplicate_witness :
  (CBlock.BuildMerkleTree (mkBlock CBlockHeader.SetNull [tx 1; tx 2; tx 3; tx 3] [])).1
    = (CBlock.BuildMerkleTree b3).1.
Proof.
  apply (BuildMerkleTree_duplicate CBlockHeader.SetNull [tx 1; tx 2] (tx 3) [] []); reflexivity.
Defined.

End Examples.
