(* ===== verification/Checkpoints.v ===== *)
(** Checkpoints: src/checkpoints.cpp.

    The compiled-in block hashes per height, the check of a block against them and the search of
    the last known one.  [GuessVerificationProgress] is floating point and not modelled. *)

From S2P Require Import Prelude Core.

(** A [std::map<int, uint256>]: sorted by height. *)
Abbreviation MapCheckpoints := (list (Z * uint256)).

Record CCheckpointData := mkCheckpointData {
  mapCheckpoints : MapCheckpoints; nTimeLastCheckpoint : Z; nTransactionsLastCheckpoint : Z }.

Module Checkpoints.

Definition mapMain : MapCheckpoints :=
  [(11111, 0x0000000069e244f73d78e8fd29ba2fd2ed618bd6fa2ee92559f542fdb26e7c1d);
   (33333, 0x000000002dd5588a74784eaa7ab0507a18ad16a236e7b1ce69f00d7ddfb5d0a6);
   (74000, 0x0000000000573993a3c9e41ce34471c079dcf5f52a0e824a81e7f953b8661a20);
   (105000, 0x00000000000291ce28027faea320c8d2b054b2e0fe44a773f3eefb151d6bdc97);
   (134444, 0x00000000000005b12ffd4cd315cd34ffd4a594f430ac814c91184a0d42d2b0fe);
   (168000, 0x000000000000099e61ea72015e79632f216fe6cb33d7899acb35b75c8303b763);
   (193000, 0x000000000000059f452a5f7340de6682a977387c17010ff6e6c3bd83ca8b1317);
   (210000, 0x000000000000048b95347e83192f69cf0366076336c639f9b7228e9ba171342e);
   (216116, 0x00000000000001b4f4b433e81ee46494af945cf96014816a4e2370f11b23df4e);
   (225430, 0x00000000000001c108384350f74090433e7fcf79a606b8e797f065b130575932)].

Definition data : CCheckpointData := mkCheckpointData mapMain 1363044259 14264869.

Definition mapTestnet : MapCheckpoints :=
  [(546, 0x000000002a936ca763904c3c35fce2f3556c559c0214345d31b1bcebf76acb70)].

Definition dataTestnet : CCheckpointData := mkCheckpointData mapTestnet 1338180505 16341.

Definition Checkpoints (fTestNet : bool) : CCheckpointData := if fTestNet then dataTestnet else data.

Fixpoint find (nHeight : Z) (m : MapCheckpoints) : option uint256 :=
  match m with
  | [] => None
  | (h, x) :: m' => if h =? nHeight then Some x else find nHeight m'
  end.

Definition CheckBlock (fEnabled fTestNet : bool) (nHeight : Z) (hash : uint256) : bool :=
  if negb fEnabled then true
  else
    match find nHeight (mapCheckpoints (Checkpoints fTestNet)) with
    | None => true
    | Some x => hash =? x
    end.

Definition GetTotalBlocksEstimate (fEnabled fTestNet : bool) : Z :=
  if negb fEnabled then 0
  else match last (mapCheckpoints (Checkpoints fTestNet)) with Some (h, _) => h | None => 0 end.

(** From the highest checkpoint down, the first one [mapBlockIndex] knows. *)
Fixpoint last_known {A} (mapBlockIndex : gmap uint256 A) (downwards : MapCheckpoints) : option A :=
  match downwards with
  | [] => None
  | (_, hash) :: r =>
    match mapBlockIndex !! hash with
    | Some pindex => Some pindex
    | None => last_known mapBlockIndex r
    end
  end.

Definition GetLastCheckpoint {A} (fEnabled fTestNet : bool) (mapBlockIndex : gmap uint256 A) : option A :=
  if negb fEnabled then None
  else last_known mapBlockIndex (rev (mapCheckpoints (Checkpoints fTestNet))).

End Checkpoints.

(** * Theorems *)

Import Checkpoints.

Lemma find_In m h x : NoDup m.*1 -> (find h m = Some x <-> (h, x) ∈ m).
Proof.
  induction m as [|[h' x'] m IH]; cbn [fmap list_fmap find fst]; [by rewrite elem_of_nil|].
  intros [Hn Hd]%NoDup_cons. rewrite elem_of_cons. destruct (Z.eqb_spec h' h) as [->|Hne].
  - split; [intros [= ->]; by left|]. intros [[= ->]|Hin]; [done|].
    destruct Hn. apply list_elem_of_fmap. by exists (h, x).
  - rewrite IH by done. naive_solver.
Qed.

Lemma checkpoints_sorted t : StronglySorted Z.lt (mapCheckpoints (Checkpoints t)).*1.
Proof. destruct t; cbn; repeat (constructor; [|repeat constructor]); repeat constructor. Qed.

Lemma sorted_nodup (l : list Z) : StronglySorted Z.lt l -> NoDup l.
Proof.
  induction 1 as [|x l Hs IH Hx]; constructor; [|done]. intros Hin.
  rewrite List.Forall_forall in Hx. specialize (Hx x ltac:(by apply list_elem_of_In)). lia.
Qed.

Lemma last_known_app {A} (m : gmap uint256 A) l k :
  last_known m (l ++ k) = match last_known m l with Some p => Some p | None => last_known m k end.
Proof. induction l as [|[h x] l IH]; [done|]. cbn [app last_known]. by destruct (m !! x). Qed.

Lemma last_known_None {A} (m : gmap uint256 A) l :
  last_known m l = None <-> forall h x, (h, x) ∈ l -> m !! x = None.
Proof.
  induction l as [|[h x] l IH]; cbn [last_known]; [split; [intros _ h x []%elem_of_nil|done]|].
  destruct (m !! x) as [q|] eqn:Hx.
  - split; [done|]. intros Hall. specialize (Hall h x ltac:(set_solver)). congruence.
  - rewrite IH. split.
    + intros Hall h' x' [[= -> ->]|Hin]%elem_of_cons; [done|by apply (Hall h')].
    + intros Hall h' x' Hin. apply (Hall h'). set_solver.
Qed.

Lemma last_known_rev {A} (m : gmap uint256 A) l p :
  StronglySorted Z.lt l.*1 ->
  (last_known m (rev l) = Some p <->
   exists h x, (h, x) ∈ l /\ m !! x = Some p /\ forall h' x', (h', x') ∈ l -> h < h' -> m !! x' = None).
Proof.
  induction l as [|[h x] l IH]; cbn [fmap list_fmap rev fst].
  { intros _. split; [done|]. by intros (h & x & []%elem_of_nil & _). }
  intros [Hs Hh]%StronglySorted_inv. rewrite last_known_app. specialize (IH Hs).
  assert (Hlow : forall h' x', (h', x') ∈ l -> h < h').
  { intros h' x' Hin. rewrite List.Forall_forall in Hh. apply Hh, list_elem_of_In, list_elem_of_fmap. by exists (h', x'). }
  destruct (last_known m (rev l)) as [q|] eqn:Hq.
  - rewrite IH. split.
    + intros (h1 & x1 & Hin & Hm & Hall). exists h1, x1. split_and!; [set_solver|done|].
      intros h' x' [[= -> ->]|Hin']%elem_of_cons Hlt; [|by apply (Hall h')]. specialize (Hlow _ _ Hin). lia.
    + intros (h1 & x1 & [[= -> ->]|Hin]%elem_of_cons & Hm & Hall).
      * exfalso. assert (Hno : last_known m (rev l) = None); [|congruence].
        apply last_known_None. intros h' x' Hin. apply list_elem_of_In, in_rev, list_elem_of_In in Hin.
        apply (Hall h'); [set_solver|by eapply Hlow].
      * exists h1, x1. split_and!; [done|done|]. intros h' x' Hin' Hlt. apply (Hall h'); [set_solver|done].
  - assert (Hno : forall h' x', (h', x') ∈ l -> m !! x' = None).
    { intros h' x' Hin. rewrite last_known_None in Hq. apply (Hq h').
      by apply list_elem_of_In; apply -> in_rev; apply list_elem_of_In. }
    cbn [last_known]. destruct (m !! x) as [q|] eqn:Hx.
    + split.
      * intros [= ->]. exists h, x. split_and!; [set_solver|done|].
        intros h' x' [[= -> ->]|Hin]%elem_of_cons Hlt; [lia|by apply (Hno h')].
      * intros (h1 & x1 & [[= -> ->]|Hin]%elem_of_cons & Hm & _); [congruence|]. specialize (Hno _ _ Hin). congruence.
    + split; [done|]. intros (h1 & x1 & [[= -> ->]|Hin]%elem_of_cons & Hm & _); [congruence|].
      specialize (Hno _ _ Hin). congruence.
Qed.

(** With checkpoints enabled a block is refused exactly when its height is a
    checkpoint with another hash; the estimate of the chain length is the highest checkpoint;
    and the last checkpoint found is the known one above which no checkpoint is known. *)
Theorem Checkpoints_spec {A} t (m : gmap uint256 A) :
  (forall nHeight hash, CheckBlock true t nHeight hash = true <->
     forall x, (nHeight, x) ∈ mapCheckpoints (Checkpoints t) -> hash = x) /\
  (forall h x, (h, x) ∈ mapCheckpoints (Checkpoints t) -> h <= GetTotalBlocksEstimate true t) /\
  (forall p, GetLastCheckpoint true t m = Some p <->
     exists h x, (h, x) ∈ mapCheckpoints (Checkpoints t) /\ m !! x = Some p /\
       forall h' x', (h', x') ∈ mapCheckpoints (Checkpoints t) -> h < h' -> m !! x' = None).
Proof.
  split_and!.
  - intros nHeight hash. unfold CheckBlock. cbn [negb].
    pose proof (fun x => find_In _ nHeight x (sorted_nodup _ (checkpoints_sorted t))) as Hf.
    destruct (find nHeight _) as [y|] eqn:Hy.
    + rewrite Z.eqb_eq. split; [|intros Hall; apply Hall, Hf; done].
      intros -> x Hin. apply Hf in Hin. congruence.
    + split; [|done]. intros _ x Hin. apply Hf in Hin. congruence.
  - intros h x Hin. assert (Hall : Forall (fun p => p.1 <= GetTotalBlocksEstimate true t) (mapCheckpoints (Checkpoints t))).
    { destruct t; repeat constructor; cbn; lia. }
    rewrite Forall_forall in Hall. by apply (Hall (h, x)).
  - intros p. apply last_known_rev, checkpoints_sorted.
Qed.
