(* ===== verification/BigNum.v ===== *)
(** Big numbers: src/bignum.h over OpenSSL's BIGNUM.

    OpenSSL is not part of the repository: class [OpenSSL] has its functions as operations, each
    with the behaviour its manual documents, stated through the number [BN_value] a BIGNUM
    stands for.  Allocation failures, on which the wrapper throws, are not modelled.
    [BN_ULONG] is the 64-bit [unsigned long] of the LP64 platforms.  [CBigNum] is a BIGNUM, its
    member functions are definitions here. *)

From S2P Require Import Prelude Digits.

(** ** The MPI format of OpenSSL

    Four bytes of length, then the absolute value, most significant byte first, whose top bit
    is the sign; a further byte holds the sign when that bit is taken. *)
Definition mpi_body_val (body : bytes) : Z :=
  match body with
  | [] => 0
  | c :: r => if 128 <=? c then - be_val 256 (c - 128 :: r) else be_val 256 (c :: r)
  end.

Definition mpi_minimal (body : bytes) : Prop :=
  match body with
  | [] => True
  | [c] => c mod 128 <> 0
  | c :: d :: _ => c mod 128 = 0 -> 128 <= d
  end.

(** The size of the body in front of it. *)
Definition mpi_size (n : Z) : bytes := be_digits 256 4 n.

Class OpenSSL := {
  BN : Type;
  BN_value : BN -> Z;
  BN_set_word : Z -> BN;
  BN_get_word : BN -> Z;
  BN_set_negative : BN -> bool -> BN;
  BN_is_negative : BN -> bool;
  BN_num_bytes : BN -> Z;
  BN_lshift : BN -> Z -> BN;
  BN_rshift : BN -> Z -> BN;
  BN_add : BN -> BN -> BN;
  BN_sub : BN -> BN -> BN;
  BN_mul : BN -> BN -> BN;
  BN_div : BN -> BN -> option (BN * BN);
  BN_cmp : BN -> BN -> Z;
  BN_mpi2bn : bytes -> BN;
  BN_bn2mpi : BN -> bytes;
  BN_set_word_value w : in_u 64 w -> BN_value (BN_set_word w) = w;
  BN_get_word_value a : BN_get_word a = Z.min (Z.abs (BN_value a)) (2 ^ 64 - 1);
  BN_set_negative_value a f : BN_value (BN_set_negative a f) = if f then - Z.abs (BN_value a) else Z.abs (BN_value a);
  BN_is_negative_value a : BN_is_negative a = (BN_value a <? 0);
  BN_num_bytes_nonneg a : 0 <= BN_num_bytes a;
  BN_num_bytes_le a n : 0 <= n -> (BN_num_bytes a <= n <-> Z.abs (BN_value a) < 256 ^ n);
  BN_lshift_value a n : 0 <= n -> BN_value (BN_lshift a n) = BN_value a * 2 ^ n;
  BN_rshift_value a n : 0 <= n -> BN_value (BN_rshift a n) = Z.quot (BN_value a) (2 ^ n);
  BN_add_value a b : BN_value (BN_add a b) = BN_value a + BN_value b;
  BN_sub_value a b : BN_value (BN_sub a b) = BN_value a - BN_value b;
  BN_mul_value a b : BN_value (BN_mul a b) = BN_value a * BN_value b;
  BN_div_value a b : BN_value b <> 0 -> exists q r, BN_div a b = Some (q, r) /\
    BN_value q = Z.quot (BN_value a) (BN_value b) /\ BN_value r = Z.rem (BN_value a) (BN_value b);
  BN_cmp_value a b : BN_cmp a b = match BN_value a ?= BN_value b with Lt => -1 | Eq => 0 | Gt => 1 end;
  BN_mpi2bn_value body : is_bytes body -> lenZ body < 2 ^ 32 ->
    BN_value (BN_mpi2bn (mpi_size (lenZ body) ++ body)) = mpi_body_val body;
  BN_bn2mpi_value a : exists body, BN_bn2mpi a = mpi_size (lenZ body) ++ body /\
    is_bytes body /\ mpi_minimal body /\ mpi_body_val body = BN_value a;
}.

Module CBigNum.
Section OpenSSL.
Context `{OpenSSL}.

(** The number [BN_init] makes. *)
Definition zero : BN := BN_set_word 0.

Definition setulong (n : Z) : BN := BN_set_word n.
Definition getulong (a : BN) : Z := BN_get_word a.
Definition getuint (a : BN) : Z := u32 (BN_get_word a).

Definition INT_MAX : Z := 2 ^ 31 - 1.
Definition INT_MIN : Z := - 2 ^ 31.

Definition getint (a : BN) : Z :=
  let n := BN_get_word a in
  if negb (BN_is_negative a) then (if INT_MAX <? n then INT_MAX else n)
  else (if INT_MAX <? n then INT_MIN else - n).

(** The loop over the bytes, most significant first: zeros in front are left out and the sign
    goes into the top bit of the first byte or into a byte of its own. *)
Fixpoint put_bytes (fNegative fLeadingZeroes : bool) (cs : bytes) : bytes :=
  match cs with
  | [] => []
  | c :: cs' =>
    if fLeadingZeroes then
      if c =? 0 then put_bytes fNegative true cs'
      else if negb (Z.land c 128 =? 0) then
        (if fNegative then 128 else 0) :: c :: put_bytes fNegative false cs'
      else (if fNegative then Z.lor c 128 else c) :: put_bytes fNegative false cs'
    else c :: put_bytes fNegative false cs'
  end.

(** [c = (n >> 56) & 0xff; n <<= 8], [k] times. *)
Fixpoint top_bytes (k : nat) (n : Z) : bytes :=
  match k with
  | O => []
  | S k' => Z.land (Z.shiftr n 56) 255 :: top_bytes k' (u64 (Z.shiftl n 8))
  end.

(** The size as [nSize >> 24], [nSize >> 16], [nSize >> 8] and [nSize], each [& 0xff]. *)
Definition put_size (nSize : Z) : bytes :=
  [Z.land (Z.shiftr nSize 24) 255; Z.land (Z.shiftr nSize 16) 255;
   Z.land (Z.shiftr nSize 8) 255; Z.land nSize 255].

Definition from_body (body : bytes) : BN := BN_mpi2bn (put_size (u32 (lenZ body)) ++ body).

Definition setint64 (sn : Z) : BN :=
  let '(n, fNegative) :=
    if sn <? 0 then (u64 (u64 (- (sn + 1)) + 1), true) else (u64 sn, false) in
  from_body (put_bytes fNegative true (top_bytes 8 n)).

Definition setuint64 (n : Z) : BN := from_body (put_bytes false true (top_bytes 8 n)).

(** The 32 bytes of the object [n] are little-endian; the loop reads them from the end. *)
Definition setuint256 (n : Z) : BN := from_body (put_bytes false true (rev (le_digits 256 32 n))).

(** The loop that fills the result from byte [j] of [vch] downwards. *)
Definition getuint256 (a : BN) : Z :=
  let vch := BN_bn2mpi a in
  if lenZ vch <? 4 then 0
  else
    let body := drop 4 vch in
    let body := match body with c :: r => Z.land c 127 :: r | [] => [] end in
    le_val 256 (take 32 (rev body)).

Definition setvch (vch : bytes) : BN := BN_mpi2bn (put_size (u32 (lenZ vch)) ++ rev vch).

Definition getvch (a : BN) : bytes :=
  let vch := BN_bn2mpi a in
  if lenZ vch <=? 4 then [] else rev (drop 4 vch).

(** The constructors from the integer types. *)
Definition of_int (n : Z) : BN := if 0 <=? n then setulong n else setint64 n.
Definition of_int64 (n : Z) : BN := setint64 n.
Definition of_uint (n : Z) : BN := setulong n.

Definition SetCompact (nCompact : Z) : BN :=
  let nSize := Z.shiftr nCompact 24 in
  let fNegative := negb (Z.land nCompact 0x00800000 =? 0) in
  let nWord := Z.land nCompact 0x007fffff in
  let a :=
    if nSize <=? 3 then BN_set_word (Z.shiftr nWord (8 * (3 - nSize)))
    else BN_lshift (BN_set_word nWord) (8 * (nSize - 3)) in
  BN_set_negative a fNegative.

Definition GetCompact (a : BN) : Z :=
  let nSize := BN_num_bytes a in
  let nCompact :=
    if nSize <=? 3 then u32 (u64 (Z.shiftl (BN_get_word a) (8 * (3 - nSize))))
    else u32 (BN_get_word (BN_rshift a (8 * (nSize - 3)))) in
  let '(nCompact, nSize) :=
    if negb (Z.land nCompact 0x00800000 =? 0) then (Z.shiftr nCompact 8, u32 (nSize + 1))
    else (nCompact, nSize) in
  let nCompact := Z.lor nCompact (u32 (Z.shiftl nSize 24)) in
  Z.lor nCompact (if BN_is_negative a then 0x00800000 else 0).

Definition add (a b : BN) : BN := BN_add a b.
Definition sub (a b : BN) : BN := BN_sub a b.
Definition mul (a b : BN) : BN := BN_mul a b.
Definition opp (a : BN) : BN := BN_set_negative a (negb (BN_is_negative a)).
(** [None]: [BN_div] reports an error (a zero divisor) and the wrapper throws. *)
Definition div (a b : BN) : option BN := fst <$> BN_div a b.
Definition rem (a b : BN) : option BN := snd <$> BN_div a b.
Definition shl (a : BN) (shift : Z) : BN := BN_lshift a shift.
Definition shr (a : BN) (shift : Z) : BN :=
  let p := shl (of_int 1) shift in
  if 0 <? BN_cmp p a then of_int 0 else BN_rshift a shift.
Definition incr (a : BN) : BN := BN_add a (BN_set_word 1).
Definition decr (a : BN) : BN := BN_sub a (BN_set_word 1).

Definition eqb (a b : BN) : bool := BN_cmp a b =? 0.
Definition neqb (a b : BN) : bool := negb (BN_cmp a b =? 0).
Definition leb (a b : BN) : bool := BN_cmp a b <=? 0.
Definition geb (a b : BN) : bool := 0 <=? BN_cmp a b.
Definition ltb (a b : BN) : bool := BN_cmp a b <? 0.
Definition gtb (a b : BN) : bool := 0 <? BN_cmp a b.

(** *** Texts *)

Definition HEX : bytes := lit "0123456789abcdef".

(** [while (bn > 0)]: the digits of [bn] from [table], least significant first; each division at
    least halves it, so [8 * BN_num_bytes] rounds are enough.  [None]: a division fails. *)
Fixpoint digits_loop (table : bytes) (fuel : nat) (bnBase bn : BN) : option bytes :=
  match fuel with
  | O => None
  | S fuel' =>
    if 0 <? BN_cmp bn (of_int 0) then
      '(dv, rm) ← BN_div bn bnBase;
      let c := u32 (getulong rm) in
      rest ← digits_loop table fuel' bnBase dv;
      Some (table.[c] :: rest)
    else Some []
  end.

Definition rounds (bn : BN) : nat := S (Z.to_nat (8 * BN_num_bytes bn)).

Definition ToString (nBase : Z) (a : BN) : option bytes :=
  let bn := BN_set_negative a false in
  if BN_cmp bn (of_int 0) =? 0 then Some (lit "0")
  else
    str ← digits_loop HEX (rounds bn) (of_int nBase) bn;
    Some (rev (str ++ (if BN_is_negative a then lit "-" else []))).

Definition GetHex (a : BN) : option bytes := ToString 16 a.

Definition isxdigit (c : Z) : bool :=
  isdigit c || ((65 <=? c) && (c <=? 70)) || ((97 <=? c) && (c <=? 102)).

(** The table of [SetHex]: the value of a hexadecimal digit. *)
Definition hex_table : list Z :=
  replicate 48 0 ++ [0;1;2;3;4;5;6;7;8;9;0;0;0;0;0;0; 0;0xa;0xb;0xc;0xd;0xe;0xf;0;0;0;0;0;0;0;0;0]
  ++ replicate 16 0 ++ [0;0xa;0xb;0xc;0xd;0xe;0xf;0;0;0;0;0;0;0;0;0].

Fixpoint skip_space (psz : bytes) : bytes :=
  match psz with c :: r => if isspace c then skip_space r else psz | [] => [] end.

Fixpoint SetHex_loop (psz : bytes) (a : BN) : BN :=
  match psz with
  | c :: r => if isxdigit c then SetHex_loop r (add (shl a 4) (of_int hex_table.[c])) else a
  | [] => a
  end.

Definition SetHex (str : bytes) : BN :=
  let psz := skip_space str in
  let '(fNegative, psz) := match psz with 45 :: r => (true, r) | _ => (false, psz) end in
  let psz := match psz with
             | 48 :: c :: r => if (c =? 120) || (c =? 88) then r else psz
             | _ => psz
             end in
  let psz := skip_space psz in
  let a := SetHex_loop psz (of_int 0) in
  if fNegative then sub (of_int 0) a else a.

End OpenSSL.
End CBigNum.
