(* ===== verification/BigNumThms.v ===== *)
(** Theorems about bignum.h: the conversions between machine integers, byte vectors, texts and
    the compact form keep the number, and what the compact form and the shifts lose. *)

From S2P Require Import Prelude Digits BigNum.

Import CBigNum.

Section OpenSSL.
Context `{OpenSSL}.

(** ** Bytes and bodies *)

Lemma land_255 a : Z.land a 255 = a mod 256.
Proof. apply (land_ones_mod a 8). lia. Qed.

Lemma put_size_mpi n : in_u 32 n -> put_size n = mpi_size n.
Proof.
  intros Hn. unfold put_size, mpi_size. rewrite !be_digits_cons by lia. cbn [be_digits le_digits rev app].
  rewrite !land_255, !Z.shiftr_div_pow2 by lia. by rewrite Z.pow_0_r, Z.div_1_r.
Qed.

Lemma from_body_value body :
  is_bytes body -> lenZ body < 2 ^ 32 -> BN_value (from_body body) = mpi_body_val body.
Proof.
  intros Hb Hl. unfold from_body. pose proof (lenZ_nonneg body).
  rewrite wrapu_small, put_size_mpi by (unfold in_u; lia). by apply BN_mpi2bn_value.
Qed.

Lemma top_bytes_digits k n :
  in_u 64 n -> (k <= 8)%nat -> top_bytes k n = be_digits 256 k (n / 256 ^ (8 - Z.of_nat k)).
Proof.
  revert n. induction k as [|k IH]; intros n Hn Hk; [done|]. unfold in_u in Hn.
  cbn [top_bytes]. rewrite land_255, Z.shiftr_div_pow2, be_digits_cons by lia. f_equal.
  - rewrite Z.div_div by (try lia; apply Z.pow_nonzero || apply Z.pow_pos_nonneg; lia).
    rewrite <-Z.pow_add_r by lia. f_equal. replace (8 - Z.of_nat (S k) + Z.of_nat k) with 7 by lia. done.
  - assert (Hu : in_u 64 (u64 (Z.shiftl n 8))) by (apply wrapu_range; lia).
    rewrite IH by (done || lia). rewrite Z.shiftl_mul_pow2 by lia. unfold wrapu.
    apply (be_val_inj 256); try apply be_digits_ok; try lia; [by rewrite !be_digits_length|].
    rewrite !be_val_digits by lia.
    set (m := 8 - Z.of_nat (S k)). replace (8 - Z.of_nat k) with (1 + m) by (subst m; lia).
    rewrite (Z.pow_add_r 256) by (subst m; lia). change (2 ^ 8) with 256. change (256 ^ 1) with 256.
    rewrite <-Z.div_div by (try lia; apply Z.pow_pos_nonneg; subst m; lia).
    replace (2 ^ 64) with (256 * 256 ^ 7) by done. rewrite (Z.mul_comm n), Z.mul_mod_distr_l by lia.
    rewrite (Z.mul_comm 256), Z.div_mul by lia.
    replace (256 ^ 7) with (256 ^ m * 256 ^ Z.of_nat k) by (rewrite <-Z.pow_add_r by (subst m; lia); f_equal; subst m; lia).
    rewrite Z.rem_mul_r by (try apply Z.pow_nonzero; try apply Z.pow_pos_nonneg; subst m; lia).
    rewrite (Z.mul_comm (256 ^ m)), Z.div_add by (apply Z.pow_nonzero; subst m; lia).
    rewrite (Z.div_small (n mod _)) by (apply Z.mod_pos_bound, Z.pow_pos_nonneg; subst m; lia).
    by rewrite Z.add_0_l, Z.mod_mod by (apply Z.pow_nonzero; lia).
Qed.

Lemma top_bytes_8 n : in_u 64 n -> top_bytes 8 n = be_digits 256 8 n.
Proof. intros Hn. rewrite top_bytes_digits by (done || lia). by rewrite Z.div_1_r. Qed.

Lemma put_bytes_false neg cs : put_bytes neg false cs = cs.
Proof. induction cs as [|c cs IH]; cbn; [done|by rewrite IH]. Qed.

Lemma land_128 c : in_u 8 c -> (Z.land c 128 =? 0) = (c <? 128).
Proof.
  intros Hc. apply Bool.eqb_prop. revert c Hc. by apply byte_forallb.
Qed.
Lemma lor_128 c : 0 <= c < 128 -> Z.lor c 128 = c + 128.
Proof.
  intros Hc. rewrite Z.lor_comm. pose proof (lor_disjoint 1 c 7 ltac:(lia) ltac:(lia)) as Hl. change (1 * 2 ^ 7) with 128 in Hl. lia.
Qed.

Lemma put_bytes_spec neg cs :
  is_bytes cs ->
  is_bytes (put_bytes neg true cs) /\ lenZ (put_bytes neg true cs) <= 1 + lenZ cs /\
  mpi_body_val (put_bytes neg true cs) = if neg then - be_val 256 cs else be_val 256 cs.
Proof.
  induction 1 as [|c cs Hc Hcs (IH1 & IH2 & IH3)]; [cbn; split_and!; [apply is_bytes_nil|done|by destruct neg]|]. fold (is_bytes cs) in Hcs.
  cbn [put_bytes]. rewrite land_128, put_bytes_false by done. pose proof (lenZ_nonneg cs).
  destruct (Z.eqb_spec c 0) as [->|Hc0].
  { autorewrite with tt. rewrite IH3, be_val_cons by lia. split_and!; [done|lia|by rewrite Z.mul_0_l]. }
  unfold in_u in Hc. destruct (Z.ltb_spec c 128); cbn [negb]; destruct neg; autorewrite with tt;
    rewrite ?is_bytes_cons, ?lor_128 by lia; unfold mpi_body_val, in_u; split_and!; try done; try lia.
  - destruct (Z.leb_spec 128 (c + 128)); [|lia]. by rewrite Z.add_simpl_r.
  - by destruct (Z.leb_spec 128 c); [lia|].
  - cbn [Z.leb Z.compare Pos.compare Pos.compare_cont]. by rewrite be_val_cons by lia.
  - cbn [Z.leb Z.compare]. by rewrite be_val_cons by lia.
Qed.

Lemma put_bytes_value neg cs :
  is_bytes cs -> lenZ cs < 2 ^ 31 ->
  BN_value (from_body (put_bytes neg true cs)) = if neg then - be_val 256 cs else be_val 256 cs.
Proof.
  intros Hcs Hl. destruct (put_bytes_spec neg cs Hcs) as (H1 & H2 & H3).
  rewrite from_body_value; [done|done|lia].
Qed.

Lemma put_word_value neg n :
  in_u 64 n -> BN_value (from_body (put_bytes neg true (top_bytes 8 n))) = if neg then - n else n.
Proof.
  intros Hn. rewrite top_bytes_8 by done. rewrite put_bytes_value.
  - rewrite be_val_digits, Z.mod_small by (unfold in_u in Hn; lia). done.
  - apply be_digits_ok. lia.
  - unfold lenZ. by rewrite be_digits_length.
Qed.

Lemma setint64_eq sn : in_s 64 sn -> BN_value (setint64 sn) = sn.
Proof.
  intros Hs. unfold setint64. unfold in_s in Hs. destruct (Z.ltb_spec sn 0).
  - rewrite (wrapu_small 64 (- (sn + 1))), wrapu_small by (unfold in_u; lia).
    rewrite put_word_value by (unfold in_u; lia). lia.
  - rewrite wrapu_small, put_word_value by (unfold in_u; lia). done.
Qed.

Lemma setuint64_eq n : in_u 64 n -> BN_value (setuint64 n) = n.
Proof. intros Hn. unfold setuint64. by rewrite put_word_value. Qed.

Lemma of_int_eq n : in_s 32 n -> BN_value (of_int n) = n.
Proof.
  unfold in_s, of_int, setulong. intros Hn. destruct (Z.leb_spec 0 n).
  - apply BN_set_word_value. unfold in_u. lia.
  - apply setint64_eq. unfold in_s. lia.
Qed.

Lemma getint_eq a : getint a = Z.max INT_MIN (Z.min (BN_value a) INT_MAX).
Proof.
  unfold getint, INT_MIN, INT_MAX. rewrite BN_is_negative_value, BN_get_word_value.
  destruct (Z.ltb_spec (BN_value a) 0); cbn [negb];
    match goal with |- context [?x <? ?y] => destruct (Z.ltb_spec x y) end; lia.
Qed.

(** Every [int64] and [uint64] becomes the big number of that value (the smallest
    [int64], whose opposite is no [int64], included), every [int] is read back, and [getint]
    clamps any other number to the range of [int]. *)
Theorem CBigNum_integers :
  (forall sn, in_s 64 sn -> BN_value (setint64 sn) = sn) /\
  (forall n, in_u 64 n -> BN_value (setuint64 n) = n) /\
  (forall n, in_s 32 n -> BN_value (of_int n) = n /\ getint (of_int n) = n) /\
  (forall a, getint a = Z.max INT_MIN (Z.min (BN_value a) INT_MAX)).
Proof.
  split_and!; [apply setint64_eq|apply setuint64_eq| |apply getint_eq].
  intros n Hn. rewrite getint_eq, of_int_eq by done. split; [done|].
  unfold in_s, INT_MIN, INT_MAX in *. lia.
Qed.

(** ** Byte vectors *)

(** The absolute value of a body: its sign bit taken off. *)
Definition body_abs (body : bytes) : bytes :=
  match body with c :: r => c mod 128 :: r | [] => [] end.

Lemma body_abs_ok body : is_bytes body -> digits_ok 256 (body_abs body).
Proof.
  destruct body as [|c r]; [done|]. intros [Hc Hr]%is_bytes_cons. cbn [body_abs].
  apply Forall_cons. split; [unfold in_u in Hc; zdm|done].
Qed.

Lemma mpi_body_abs body :
  is_bytes body ->
  Z.abs (mpi_body_val body) = be_val 256 (body_abs body) /\
  (mpi_body_val body < 0 -> exists c r, body = c :: r /\ 128 <= c) /\
  (0 < mpi_body_val body -> exists c r, body = c :: r /\ c < 128).
Proof.
  intros Hb. pose proof (be_val_range 256 ltac:(lia) _ (body_abs_ok body Hb)) as Hr.
  destruct body as [|c r]; [cbn; lia|]. apply is_bytes_cons in Hb as [Hc _].
  unfold mpi_body_val, body_abs, in_u in *. destruct (Z.leb_spec 128 c) as [Hcc|Hcc].
  - replace (c mod 128) with (c - 128) in * by zdm. split_and!; [lia| |lia]. intros _. by exists c, r.
  - replace (c mod 128) with c in * by zdm. split_and!; [lia|lia|]. intros _. by exists c, r.
Qed.

Lemma minimal_bounds body :
  is_bytes body -> mpi_minimal body -> body <> [] ->
  256 ^ (lenZ body - 1) <= 2 * Z.abs (mpi_body_val body) < 256 ^ lenZ body.
Proof.
  intros Hb Hm Hne. destruct (mpi_body_abs body Hb) as [-> _].
  pose proof (body_abs_ok body Hb) as Habs. destruct body as [|c r]; [done|].
  cbn [body_abs] in *. apply Forall_cons in Habs as [_ Hr].
  rewrite be_val_cons, lenZ_cons by lia. replace (1 + lenZ r - 1) with (lenZ r) by lia.
  pose proof (be_val_range 256 ltac:(lia) r Hr) as Hrr. pose proof (lenZ_nonneg r).
  pose proof (Z.mod_pos_bound c 128 ltac:(lia)). rewrite Z.pow_add_r, Z.pow_1_r by lia.
  split; [|nia]. destruct (decide (c mod 128 = 0)) as [Hc0|]; [|nia].
  destruct r as [|d r]; [cbn in Hm; lia|]. cbn in Hm. rewrite Hc0, be_val_cons, lenZ_cons in * by lia.
  specialize (Hm eq_refl). pose proof (lenZ_nonneg r).
  apply Forall_cons in Hr as [_ Hr]. pose proof (be_val_range 256 ltac:(lia) r Hr).
  rewrite (Z.add_comm 1), Z.pow_add_r, Z.pow_1_r by lia. nia.
Qed.

Lemma mpi_body_inj b1 b2 :
  is_bytes b1 -> is_bytes b2 -> mpi_minimal b1 -> mpi_minimal b2 ->
  mpi_body_val b1 = mpi_body_val b2 -> b1 = b2.
Proof.
  intros H1 H2 M1 M2 Hv.
  assert (Hzero : forall b, is_bytes b -> mpi_minimal b -> mpi_body_val b = 0 -> b = []).
  { intros b Hb Mb Hv0. destruct (decide (b = [])) as [|Hne]; [done|].
    pose proof (minimal_bounds b Hb Mb Hne) as Hbd. rewrite Hv0 in Hbd. pose proof (lenZ_nonneg b).
    assert (0 < 256 ^ (lenZ b - 1)); [|cbn in *; lia].
    apply Z.pow_pos_nonneg; [lia|]. destruct b as [|x b]; [done|]. rewrite lenZ_cons. pose proof (lenZ_nonneg b). lia. }
  destruct (decide (mpi_body_val b1 = 0)) as [Hv0|Hv0].
  { rewrite (Hzero b1 H1 M1 Hv0). rewrite Hv in Hv0. by rewrite (Hzero b2 H2 M2 Hv0). }
  assert (Hne1 : b1 <> []) by (by intros ->). assert (Hne2 : b2 <> []) by (intros ->; by rewrite Hv in Hv0).
  pose proof (minimal_bounds b1 H1 M1 Hne1) as B1. pose proof (minimal_bounds b2 H2 M2 Hne2) as B2.
  rewrite <-Hv in B2. pose proof (lenZ_nonneg b1). pose proof (lenZ_nonneg b2).
  assert (lenZ b1 - 1 < lenZ b2) by (apply (Z.pow_lt_mono_r_iff 256); lia).
  assert (lenZ b2 - 1 < lenZ b1) by (apply (Z.pow_lt_mono_r_iff 256); lia).
  assert (Hlen : length b1 = length b2) by (unfold lenZ in *; lia).
  destruct (mpi_body_abs b1 H1) as (A1 & N1 & P1). destruct (mpi_body_abs b2 H2) as (A2 & N2 & P2).
  rewrite Hv, A2 in A1. rewrite <-Hv in N2, P2.
  assert (Habs : body_abs b1 = body_abs b2).
  { apply (be_val_inj 256); [lia|by apply body_abs_ok|by apply body_abs_ok| |done].
    by destruct b1, b2. }
  destruct b1 as [|c1 r1], b2 as [|c2 r2]; try done. cbn in Habs. injection Habs as Hc Hr. subst r2. f_equal.
  apply is_bytes_cons in H1 as [Hc1 _]. apply is_bytes_cons in H2 as [Hc2 _]. unfold in_u in *.
  destruct (decide (mpi_body_val (c1 :: r1) < 0)) as [Hneg|Hpos].
  - destruct (N1 Hneg) as (? & ? & [= <- <-] & ?), (N2 Hneg) as (? & ? & [= <- <-] & ?). zdm.
  - destruct (P1 ltac:(lia)) as (? & ? & [= <- <-] & ?), (P2 ltac:(lia)) as (? & ? & [= <- <-] & ?). zdm.
Qed.

Lemma mpi_size_length n : length (mpi_size n) = 4%nat.
Proof. apply be_digits_length. Qed.

Lemma bn2mpi_body a :
  exists body, BN_bn2mpi a = mpi_size (lenZ body) ++ body /\ drop 4 (BN_bn2mpi a) = body /\
    lenZ (BN_bn2mpi a) = 4 + lenZ body /\ is_bytes body /\ mpi_minimal body /\ mpi_body_val body = BN_value a.
Proof.
  destruct (BN_bn2mpi_value a) as (body & -> & Hb & Hm & Hv). exists body.
  split_and!; [done| | |done|done|done].
  - by rewrite <-(mpi_size_length (lenZ body)), drop_app_length.
  - rewrite lenZ_app. unfold lenZ at 1. by rewrite mpi_size_length.
Qed.

Lemma getvch_body a :
  is_bytes (getvch a) /\ mpi_minimal (rev (getvch a)) /\ mpi_body_val (rev (getvch a)) = BN_value a.
Proof.
  destruct (bn2mpi_body a) as (body & _ & Hd & Hl & Hb & Hm & Hv). unfold getvch. rewrite Hl, Hd.
  destruct (Z.leb_spec (4 + lenZ body) 4).
  - destruct body; [done|]. rewrite lenZ_cons in *. pose proof (lenZ_nonneg body). lia.
  - rewrite rev_involutive. split_and!; [|done|done]. by apply (digits_ok_rev 256).
Qed.

Lemma setvch_value v : is_bytes v -> lenZ v < 2 ^ 32 -> BN_value (setvch v) = mpi_body_val (rev v).
Proof.
  intros Hv Hl. unfold setvch. assert (Hr : lenZ v = lenZ (rev v)) by (unfold lenZ; by rewrite length_rev).
  rewrite Hr in *. apply from_body_value; [|done]. by apply (digits_ok_rev 256).
Qed.

(** A big number is read back from its byte vector, and a byte vector with no
    superfluous sign byte is what its number is written as. *)
Theorem CBigNum_vch_roundtrip :
  (forall a, lenZ (getvch a) < 2 ^ 32 -> BN_value (setvch (getvch a)) = BN_value a) /\
  (forall v, is_bytes v -> lenZ v < 2 ^ 32 -> mpi_minimal (rev v) -> getvch (setvch v) = v).
Proof.
  split.
  - intros a Hl. destruct (getvch_body a) as (Hb & _ & Hv). by rewrite setvch_value.
  - intros v Hb Hl Hm. destruct (getvch_body (setvch v)) as (Hb' & Hm' & Hv').
    rewrite setvch_value in Hv' by done.
    assert (E : rev (getvch (setvch v)) = rev v); [|by apply (f_equal (@rev Z)) in E; rewrite !rev_involutive in E].
    apply mpi_body_inj; [by apply (digits_ok_rev 256)..|done|done|done].
Qed.

Lemma land_127 c : Z.land c 127 = c mod 128.
Proof. apply (land_ones_mod c 7). lia. Qed.

Lemma getuint256_value a : getuint256 a = Z.abs (BN_value a) mod 2 ^ 256.
Proof.
  destruct (bn2mpi_body a) as (body & _ & Hd & Hl & Hb & _ & Hv). unfold getuint256. rewrite Hl, Hd.
  pose proof (lenZ_nonneg body). destruct (Z.ltb_spec (4 + lenZ body) 4); [lia|].
  destruct (mpi_body_abs body Hb) as [Habs _]. rewrite <-Hv, Habs.
  replace (match body with [] => [] | c :: r => Z.land c 127 :: r end) with (body_abs body)
    by (destruct body; [done|cbn; by rewrite land_127]).
  unfold be_val. rewrite le_val_take; [done|lia|]. by apply digits_ok_rev, body_abs_ok.
Qed.

Lemma setuint256_value n : in_u 256 n -> BN_value (setuint256 n) = n.
Proof.
  intros Hn. unfold setuint256. fold (be_digits 256 32 n). rewrite put_bytes_value.
  - rewrite be_val_digits by lia. by apply Z.mod_small.
  - apply be_digits_ok. lia.
  - unfold lenZ. by rewrite be_digits_length.
Qed.

(** Every 256-bit hash becomes the big number of that value and is read back;
    [getuint256] takes the absolute value modulo [2^256] of any other number. *)
Theorem CBigNum_uint256 :
  (forall n, in_u 256 n -> BN_value (setuint256 n) = n /\ getuint256 (setuint256 n) = n) /\
  (forall a, getuint256 a = Z.abs (BN_value a) mod 2 ^ 256).
Proof.
  split; [|apply getuint256_value]. intros n Hn. rewrite getuint256_value, setuint256_value by done.
  split; [done|]. unfold in_u in Hn. rewrite Z.abs_eq by lia. by apply Z.mod_small.
Qed.

(** ** The compact form *)

Lemma land_bit n k : 0 <= k -> (Z.land n (2 ^ k) =? 0) = negb (Z.testbit n k).
Proof.
  intros Hk. destruct (Z.testbit n k) eqn:Hb; cbn [negb].
  - apply Z.eqb_neq. intros Hz. apply (f_equal (fun z => Z.testbit z k)) in Hz.
    by rewrite Z.land_spec, Hb, Z.pow2_bits_true, Z.bits_0 in Hz by done.
  - apply Z.eqb_eq. apply Z.bits_inj'. intros i Hi. rewrite Z.land_spec, Z.bits_0.
    destruct (decide (i = k)) as [->|]; [by rewrite Hb|]. by rewrite Z.pow2_bits_false, andb_false_r by lia.
Qed.

Lemma land_sign n : (Z.land n 0x00800000 =? 0) = negb (Z.testbit n 23).
Proof. apply (land_bit n 23). done. Qed.
Lemma land_mant n : Z.land n 0x007fffff = n mod 2 ^ 23.
Proof. apply (land_ones_mod n 23). done. Qed.

(** The number the comment of [SetCompact] assigns to a compact form. *)
Definition compact_value (size mant : Z) (neg : bool) : Z :=
  let v := if size <=? 3 then mant / 256 ^ (3 - size) else mant * 256 ^ (size - 3) in
  if neg then - v else v.

Lemma pow_256 k : 0 <= k -> 2 ^ (8 * k) = 256 ^ k.
Proof. intros Hk. by rewrite Z.pow_mul_r by lia. Qed.

Lemma SetCompact_value n :
  in_u 32 n -> BN_value (SetCompact n) = compact_value (n / 2 ^ 24) (n mod 2 ^ 23) (Z.testbit n 23).
Proof.
  intros Hn. unfold SetCompact, compact_value.
  rewrite BN_set_negative_value, land_sign, land_mant, negb_involutive, Z.shiftr_div_pow2 by lia.
  assert (Hs : 0 <= n / 2 ^ 24) by (unfold in_u in Hn; zdm).
  assert (Hm : 0 <= n mod 2 ^ 23 < 2 ^ 23) by (apply Z.mod_pos_bound; lia).
  destruct (Z.leb_spec (n / 2 ^ 24) 3).
  - rewrite Z.shiftr_div_pow2, pow_256 by lia.
    assert (0 < 256 ^ (3 - n / 2 ^ 24)) by (apply Z.pow_pos_nonneg; lia).
    assert (0 <= n mod 2 ^ 23 / 256 ^ (3 - n / 2 ^ 24) <= n mod 2 ^ 23).
    { split; [apply Z.div_pos; lia|]. apply Z.div_le_upper_bound; nia. }
    rewrite BN_set_word_value by (unfold in_u; lia). by rewrite Z.abs_eq by lia.
  - rewrite BN_lshift_value, pow_256, BN_set_word_value by (unfold in_u; lia).
    rewrite Z.abs_eq; [done|]. pose proof (Z.pow_nonneg 256 (n / 2 ^ 24 - 3)). nia.
Qed.

Lemma compact_fields size mant (neg : bool) :
  0 <= mant < 2 ^ 23 -> 0 <= size < 256 ->
  let n := Z.lor (Z.lor mant (u32 (Z.shiftl size 24))) (if neg then 0x00800000 else 0) in
  in_u 32 n /\ n / 2 ^ 24 = size /\ n mod 2 ^ 23 = mant /\ Z.testbit n 23 = neg.
Proof.
  intros Hm Hs. cbv zeta.
  assert (Hu : u32 (Z.shiftl size 24) = size * 2 ^ 24).
  { rewrite Z.shiftl_mul_pow2 by lia. apply wrapu_small. unfold in_u. lia. }
  set (n := Z.lor _ _). assert (Hn : n = size * 2 ^ 24 + ((if neg then 1 else 0) * 2 ^ 23 + mant)).
  { unfold n. rewrite Hu. replace (if neg then 0x00800000 else 0) with ((if neg then 1 else 0) * 2 ^ 23) by (by destruct neg).
    rewrite (Z.lor_comm mant), <-Z.lor_assoc, (Z.lor_comm mant), (lor_disjoint _ mant 23) by lia.
    rewrite lor_disjoint; [done|lia|destruct neg; lia]. }
  clearbody n. subst n. split_and!.
  - unfold in_u. destruct neg; lia.
  - destruct neg; zdm.
  - destruct neg; zdm.
  - rewrite Z.testbit_eqb by lia.
    replace ((size * 2 ^ 24 + ((if neg then 1 else 0) * 2 ^ 23 + mant)) / 2 ^ 23) with (2 * size + (if neg then 1 else 0))
      by (destruct neg; zdm).
    destruct neg; zdm.
Qed.

(** The three top bytes of the absolute value. *)
Definition top3 (a : BN) : Z :=
  let nb := BN_num_bytes a in
  if nb <=? 3 then Z.abs (BN_value a) * 256 ^ (3 - nb) else Z.abs (BN_value a) / 256 ^ (nb - 3).

Lemma num_bytes_bounds a :
  let nb := BN_num_bytes a in
  Z.abs (BN_value a) < 256 ^ nb /\ (0 < nb -> 256 ^ (nb - 1) <= Z.abs (BN_value a)).
Proof.
  cbv zeta. pose proof (BN_num_bytes_nonneg a). split; [by apply BN_num_bytes_le|].
  intros Hp. pose proof (BN_num_bytes_le a (BN_num_bytes a - 1) ltac:(lia)). lia.
Qed.

Lemma top3_range a : 0 <= top3 a < 2 ^ 24.
Proof.
  pose proof (num_bytes_bounds a) as [Hu _]. pose proof (BN_num_bytes_nonneg a). unfold top3.
  destruct (Z.leb_spec (BN_num_bytes a) 3).
  - pose proof (Z.pow_pos_nonneg 256 (3 - BN_num_bytes a) ltac:(lia) ltac:(lia)).
    assert (256 ^ BN_num_bytes a * 256 ^ (3 - BN_num_bytes a) = 256 ^ 3)
      by (rewrite <-Z.pow_add_r by lia; f_equal; lia). nia.
  - assert (256 ^ BN_num_bytes a = 256 ^ (BN_num_bytes a - 3) * 2 ^ 24)
      by (change (2 ^ 24) with (256 ^ 3); rewrite <-Z.pow_add_r by lia; f_equal; lia).
    split; [apply Z.div_pos; [lia|apply Z.pow_pos_nonneg; lia]|].
    apply Z.div_lt_upper_bound; [apply Z.pow_pos_nonneg; lia|lia].
Qed.

Lemma quot_abs v k : 0 < k -> Z.abs (Z.quot v k) = Z.abs v / k.
Proof.
  intros Hk. rewrite <-Z.quot_abs by lia. rewrite (Z.abs_eq k) by lia. apply Z.quot_div_nonneg; lia.
Qed.

Lemma GetCompact_top a :
  GetCompact a =
    let '(m, nb) := if 2 ^ 23 <=? top3 a then (top3 a / 256, u32 (BN_num_bytes a + 1)) else (top3 a, BN_num_bytes a) in
    Z.lor (Z.lor m (u32 (Z.shiftl nb 24))) (if BN_value a <? 0 then 0x00800000 else 0).
Proof.
  pose proof (top3_range a) as Ht. pose proof (num_bytes_bounds a) as [Hu _].
  pose proof (BN_num_bytes_nonneg a). unfold GetCompact. rewrite BN_is_negative_value.
  set (m := if BN_num_bytes a <=? 3 then _ else _). assert (Hm : m = top3 a).
  { unfold m, top3 in *. destruct (Z.leb_spec (BN_num_bytes a) 3).
    - assert (Hlt : Z.abs (BN_value a) < 2 ^ 24).
      { eapply Z.lt_le_trans; [exact Hu|]. change (2 ^ 24) with (256 ^ 3). by apply Z.pow_le_mono_r. }
      rewrite BN_get_word_value, Z.min_l, Z.shiftl_mul_pow2, pow_256 by lia.
      rewrite (wrapu_small 64), wrapu_small by (unfold in_u; lia). done.
    - rewrite BN_get_word_value, BN_rshift_value, pow_256, quot_abs by (try apply Z.pow_pos_nonneg; lia).
      rewrite Z.min_l, wrapu_small by (unfold in_u; lia). done. }
  clearbody m. subst m. rewrite land_sign, negb_involutive, Z.shiftr_div_pow2 by lia. change (2 ^ 8) with 256.
  replace (Z.testbit (top3 a) 23) with (2 ^ 23 <=? top3 a); [by destruct (2 ^ 23 <=? top3 a)|].
  rewrite Z.testbit_eqb by lia. zdm.
Qed.

(** How many of the low bytes [GetCompact] drops: all but the two or three top ones. *)
Definition compact_dropped (a : BN) : Z :=
  Z.max 0 (BN_num_bytes a - (if 2 ^ 23 <=? top3 a then 2 else 3)).

Lemma mul_div_pow v j k : 0 <= j -> 0 <= k -> (v * 256 ^ (j + k)) / 256 ^ k = v * 256 ^ j.
Proof.
  intros Hj Hk. rewrite Z.pow_add_r, Z.mul_assoc by lia. apply Z.div_mul. apply Z.pow_nonzero; lia.
Qed.

Lemma compact_value_quot a size m :
  let v := Z.abs (BN_value a) in
  let nb := BN_num_bytes a in
  (size, m) = (if 2 ^ 23 <=? top3 a then (nb + 1, top3 a / 256) else (nb, top3 a)) ->
  (if size <=? 3 then m / 256 ^ (3 - size) else m * 256 ^ (size - 3))
    = v / 256 ^ compact_dropped a * 256 ^ compact_dropped a.
Proof.
  cbv zeta. pose proof (BN_num_bytes_nonneg a) as Hnb. unfold compact_dropped.
  set (v := Z.abs (BN_value a)). set (nb := BN_num_bytes a) in *.
  assert (Ht : top3 a = if nb <=? 3 then v * 256 ^ (3 - nb) else v / 256 ^ (nb - 3)) by done.
  rewrite Ht. clear Ht. set (t := if nb <=? 3 then _ else _).
  destruct (Z.leb_spec (2 ^ 23) t) as [Hb|Hb]; intros [= -> ->]; subst t.
  - destruct (Z.leb_spec nb 3), (Z.leb_spec (nb + 1) 3); try lia.
    + rewrite Z.max_l by lia. rewrite Z.div_1_r, Z.mul_1_r. change 256 with (256 ^ 1) at 2.
      replace (3 - nb) with (3 - (nb + 1) + 1) at 1 by lia. rewrite mul_div_pow by lia.
      pose proof (mul_div_pow v 0 (3 - (nb + 1)) ltac:(lia) ltac:(lia)) as Hd.
      by rewrite Z.add_0_l, Z.mul_1_r in Hd.
    + assert (Enb : nb = 3) by lia. rewrite Enb. change (3 - 3) with 0. rewrite Z.mul_1_r. done.
    + rewrite Z.max_r by lia. replace (nb + 1 - 3) with (nb - 2) by lia. f_equal.
      rewrite Z.div_div by (try apply Z.pow_nonzero; lia).
      replace (256 ^ (nb - 3) * 256) with (256 ^ (nb - 2)); [done|].
      replace (nb - 2) with (nb - 3 + 1) by lia. by rewrite Z.pow_add_r by lia.
  - destruct (Z.leb_spec nb 3).
    + rewrite Z.max_l by lia. rewrite Z.div_1_r, Z.mul_1_r.
      pose proof (mul_div_pow v 0 (3 - nb) ltac:(lia) ltac:(lia)) as Hd. by rewrite Z.add_0_l, Z.mul_1_r in Hd.
    + by rewrite Z.max_r by lia.
Qed.

(** A compact form stands for mantissa times a power of 256, with its sign;
    [GetCompact] keeps the sign and all but the bytes behind the two or three top ones of a
    number of less than 255 bytes: read back, the dropped bytes are zero. *)
Theorem CBigNum_compact :
  (forall n, in_u 32 n ->
     BN_value (SetCompact n) = compact_value (n / 2 ^ 24) (n mod 2 ^ 23) (Z.testbit n 23)) /\
  (forall a, BN_num_bytes a < 255 ->
     in_u 32 (GetCompact a) /\
     0 <= compact_dropped a <= Z.max 0 (BN_num_bytes a - 2) /\
     BN_value (SetCompact (GetCompact a))
       = Z.quot (BN_value a) (256 ^ compact_dropped a) * 256 ^ compact_dropped a).
Proof.
  split; [apply SetCompact_value|]. intros a Hnb. pose proof (BN_num_bytes_nonneg a).
  pose proof (top3_range a) as Ht. pose proof (GetCompact_top a) as Hg.
  destruct (if 2 ^ 23 <=? top3 a then _ else _) as [m nb] eqn:Hf.
  assert (Hmn : 0 <= m < 2 ^ 23 /\ 0 <= nb < 256 /\
    (nb, m) = if 2 ^ 23 <=? top3 a then (BN_num_bytes a + 1, top3 a / 256) else (BN_num_bytes a, top3 a)).
  { destruct (Z.leb_spec (2 ^ 23) (top3 a)); injection Hf as <- <-.
    - rewrite wrapu_small by (unfold in_u; lia). split_and!; try done; zdm.
    - split_and!; try done; lia. }
  destruct Hmn as (Hm & Hn & Hsel).
  destruct (compact_fields nb m (BN_value a <? 0) Hm Hn) as (Hu & F1 & F2 & F3). rewrite <-Hg in *.
  split; [done|]. split; [unfold compact_dropped; destruct (_ <=? _); lia|].
  rewrite SetCompact_value, F1, F2, F3 by done. unfold compact_value.
  rewrite (compact_value_quot a nb m Hsel).
  assert (Hk : 0 < 256 ^ compact_dropped a) by (apply Z.pow_pos_nonneg; unfold compact_dropped; lia).
  destruct (Z.ltb_spec (BN_value a) 0).
  - rewrite Z.abs_neq by lia. rewrite <-(Z.opp_involutive (BN_value a)) at 2.
    rewrite Z.quot_opp_l, Z.quot_div_nonneg by lia. lia.
  - rewrite Z.abs_eq by lia. by rewrite Z.quot_div_nonneg by lia.
Qed.

(** The right shift of a number that is not negative divides by the power of two; of any
    negative number, however large, it is 0, since the size test of the operator compares with
    the sign. *)
Theorem CBigNum_shr a shift :
  0 <= shift -> BN_value (shr a shift) = if BN_value a <? 0 then 0 else BN_value a / 2 ^ shift.
Proof.
  intros Hs. unfold shr, shl. rewrite BN_cmp_value, BN_lshift_value by done.
  assert (Hp : 0 < 2 ^ shift) by (apply Z.pow_pos_nonneg; lia).
  assert (Hi : forall n, 0 <= n <= 1 -> BN_value (of_int n) = n) by (intros n Hn; apply of_int_eq; unfold in_s; lia).
  rewrite !Hi, Z.mul_1_l by lia.
  destruct (Z.compare_spec (2 ^ shift) (BN_value a)) as [E|E|E]; cbn [Z.ltb Z.compare];
    destruct (Z.ltb_spec (BN_value a) 0); try lia; rewrite ?BN_rshift_value by done.
  - apply Z.quot_div_nonneg; lia.
  - apply Z.quot_div_nonneg; lia.
  - by rewrite Hi by lia.
  - rewrite Hi by lia. symmetry. apply Z.div_small. lia.
Qed.

(** ** Texts *)

Lemma digits_loop_spec table fuel nBase bn :
  2 <= BN_value nBase < 2 ^ 32 -> 0 <= BN_value bn < 2 ^ Z.of_nat fuel ->
  exists ds, digits_loop table (S fuel) nBase bn = Some (map (nthZ 0 table) ds) /\
    digits_ok (BN_value nBase) ds /\ le_val (BN_value nBase) ds = BN_value bn /\
    head_ok (rev ds).
Proof.
  intros Hb. revert bn. induction fuel as [|fuel IH]; intros bn Hv; cbn [digits_loop];
    rewrite BN_cmp_value, (of_int_eq 0) by done.
  { assert (BN_value bn = 0) as -> by lia. exists []. split_and!; [done|apply List.Forall_nil|done|done]. }
  destruct (Z.compare_spec (BN_value bn) 0) as [E|E|E]; [|lia|]; cbn [Z.ltb Z.compare].
  { rewrite E. exists []. split_and!; [done|apply List.Forall_nil|done|done]. }
  destruct (BN_div_value bn nBase ltac:(lia)) as (q & r & -> & Hq & Hr). cbn [mbind option_bind].
  set (b := BN_value nBase) in *. rewrite Z.quot_div_nonneg in Hq by lia. rewrite Z.rem_mod_nonneg in Hr by lia.
  pose proof (Z.mod_pos_bound (BN_value bn) b ltac:(lia)).
  assert (Hq' : 0 <= BN_value q < 2 ^ Z.of_nat fuel).
  { rewrite Hq. split; [apply Z.div_pos; lia|]. rewrite Nat2Z.inj_succ, Z.pow_succ_r in Hv by lia.
    apply Z.div_lt_upper_bound; [lia|]. assert (0 < 2 ^ Z.of_nat fuel) by (apply Z.pow_pos_nonneg; lia). nia. }
  destruct (IH q Hq') as (ds & Hds & Hok & Hval & Hhead). cbn [digits_loop] in Hds. rewrite Hds.
  cbn [mbind option_bind]. exists (BN_value bn mod b :: ds).
  unfold getulong. rewrite BN_get_word_value, Hr, Z.abs_eq, Z.min_l by lia.
  rewrite wrapu_small by (unfold in_u; lia). split_and!; [done|by apply Forall_cons| |].
  - cbn [le_val foldr]. fold (le_val b ds). rewrite Hval, Hq. symmetry. rewrite Z.add_comm. apply Z.div_mod. lia.
  - cbn [rev]. destruct (rev ds) as [|d r'] eqn:Hrd; [|done]. cbn.
    assert (ds = []) as -> by (by rewrite <-(rev_involutive ds), Hrd). cbn in Hval.
    rewrite <-Hval in Hq. symmetry in Hq. apply Z.div_small_iff in Hq; [|lia]. rewrite Z.mod_small; lia.
Qed.

Lemma digits_of table nBase bn :
  2 <= BN_value nBase < 2 ^ 32 -> 0 <= BN_value bn ->
  exists ds, digits_loop table (rounds bn) nBase bn = Some (map (nthZ 0 table) (rev ds)) /\
    digits_ok (BN_value nBase) ds /\ be_val (BN_value nBase) ds = BN_value bn /\ head_ok ds.
Proof.
  intros Hb Hv. pose proof (num_bytes_bounds bn) as [Hu _]. pose proof (BN_num_bytes_nonneg bn).
  rewrite <-pow_256 in Hu by lia.
  destruct (digits_loop_spec table (Z.to_nat (8 * BN_num_bytes bn)) nBase bn) as (ds & Hd & Hok & Hval & Hh);
    [done|rewrite Z2Nat.id by lia; lia|].
  exists (rev ds). unfold be_val. rewrite rev_involutive. split_and!; try done. by apply digits_ok_rev.
Qed.

(** The text of a number: its digits without zeros in front, after the sign. *)
Lemma ToString_spec nBase a :
  2 <= nBase <= 16 ->
  exists ds, digits_ok nBase ds /\ head_ok ds /\ be_val nBase ds = Z.abs (BN_value a) /\
    ToString nBase a =
      Some (if BN_value a =? 0 then lit "0"
            else (if BN_value a <? 0 then lit "-" else []) ++ map (nthZ 0 HEX) ds).
Proof.
  intros Hb. unfold ToString. rewrite BN_cmp_value, BN_set_negative_value, (of_int_eq 0) by done.
  assert (Hbase : BN_value (of_int nBase) = nBase) by (apply of_int_eq; unfold in_s; lia).
  destruct (Z.eqb_spec (BN_value a) 0) as [Ha|Ha].
  { exists []. rewrite Ha. split_and!; [apply List.Forall_nil|done|done|done]. }
  replace (Z.abs (BN_value a) ?= 0) with Gt by (symmetry; apply Z.compare_gt_iff; lia).
  cbn [Z.eqb].
  destruct (digits_of HEX (of_int nBase) (BN_set_negative a false)) as (ds & -> & Hok & Hval & Hhead).
  { rewrite Hbase. lia. }
  { rewrite BN_set_negative_value. lia. }
  rewrite Hbase, BN_set_negative_value in *. cbn [mbind option_bind]. exists ds. split_and!; [done..|].
  rewrite BN_is_negative_value, rev_app_distr, <-map_rev, rev_involutive. by destruct (_ <? 0).
Qed.

Lemma HEX_facts d : 0 <= d < 16 ->
  isxdigit HEX.[d] = true /\ hex_table.[HEX.[d]] = d /\ isspace HEX.[d] = false /\ HEX.[d] <> 45 /\
  (HEX.[d] = 48 -> d = 0).
Proof.
  intros Hd.
  assert (Hall : forall z, 0 <= z < 16 ->
    isxdigit HEX.[z] && (hex_table.[HEX.[z]] =? z) && negb (isspace HEX.[z]) && negb (HEX.[z] =? 45)
      && (negb (HEX.[z] =? 48) || (z =? 0)) = true) by (by apply (range_forallb 16)).
  specialize (Hall d Hd). rewrite !andb_true_iff in Hall. destruct Hall as ((((H1 & H2) & H3) & H4) & H5).
  apply Z.eqb_eq in H2. apply negb_true_iff in H3, H4. apply Z.eqb_neq in H4. split_and!; try done.
  intros E. rewrite E in H5. cbn in H5. by apply Z.eqb_eq in H5.
Qed.

Lemma SetHex_loop_spec ds a :
  digits_ok 16 ds ->
  BN_value (SetHex_loop (map (nthZ 0 HEX) ds) a) = BN_value a * 16 ^ lenZ ds + be_val 16 ds.
Proof.
  intros Hok. revert a. induction Hok as [|d ds Hd Hok IH]; intros a.
  { cbn [map SetHex_loop]. change (lenZ (@nil Z)) with 0. unfold be_val. cbn. lia. }
  cbn [map SetHex_loop]. destruct (HEX_facts d Hd) as (-> & -> & _). rewrite IH.
  unfold add, shl. rewrite BN_add_value, BN_lshift_value, of_int_eq, be_val_cons, lenZ_cons by (unfold in_s; lia).
  rewrite Z.pow_add_r by (try apply lenZ_nonneg; lia). change (2 ^ 4) with 16. change (16 ^ 1) with 16. ring.
Qed.

(** [SetHex] on digits without zeros in front, past the sign. *)
Lemma SetHex_digits ds (neg : bool) :
  digits_ok 16 ds -> head_ok ds ->
  BN_value (SetHex ((if neg then lit "-" else []) ++ map (nthZ 0 HEX) ds))
    = if neg then - be_val 16 ds else be_val 16 ds.
Proof.
  intros Hok Hhead.
  assert (Hval : BN_value (SetHex_loop (map (nthZ 0 HEX) ds) (of_int 0)) = be_val 16 ds).
  { rewrite SetHex_loop_spec, of_int_eq by done. lia. }
  assert (Hsp : skip_space (map (nthZ 0 HEX) ds) = map (nthZ 0 HEX) ds).
  { destruct Hok as [|d ds Hd]; [done|]. cbn [map skip_space]. by destruct (HEX_facts d Hd) as (_ & _ & -> & _). }
  assert (Hx : forall z, match map (nthZ 0 HEX) ds with 48 :: c :: r => z c r | _ => map (nthZ 0 HEX) ds end
                         = map (nthZ 0 HEX) ds).
  { intros z. destruct Hok as [|d ds Hd]; [done|]. cbn [map head_ok] in *. destruct (HEX_facts d Hd) as (_ & _ & _ & _ & H48).
    destruct (decide (HEX.[d] = 48)) as [E|E]; [by apply H48 in E|]. by repeat case_match. }
  unfold SetHex. destruct neg.
  - change (skip_space (lit "-" ++ map (nthZ 0 HEX) ds)) with (45 :: map (nthZ 0 HEX) ds). cbn iota.
    rewrite Hx, Hsp. unfold sub. by rewrite BN_sub_value, Hval, of_int_eq by done.
  - cbn [app]. rewrite Hsp.
    replace (match map (nthZ 0 HEX) ds with 45 :: r => (true, r) | _ => (false, map (nthZ 0 HEX) ds) end)
      with (false, map (nthZ 0 HEX) ds).
    + by rewrite Hx, Hsp, Hval.
    + destruct Hok as [|d ds Hd]; [done|]. cbn [map]. destruct (HEX_facts d Hd) as (_ & _ & _ & H45 & _).
      by repeat case_match.
Qed.

(** [GetHex] ends for every number, with a text that [SetHex] reads back. *)
Theorem CBigNum_hex_roundtrip a :
  exists str, GetHex a = Some str /\ BN_value (SetHex str) = BN_value a.
Proof.
  destruct (ToString_spec 16 a ltac:(lia)) as (ds & Hok & Hhead & Hval & Hs).
  unfold GetHex. rewrite Hs. eexists. split; [done|].
  destruct (Z.eqb_spec (BN_value a) 0) as [Ha|Ha].
  - rewrite Ha. change (SetHex (lit "0")) with (SetHex_loop (map (nthZ 0 HEX) [0]) (of_int 0)).
    rewrite SetHex_loop_spec, of_int_eq; [done|done|]. by apply Forall_singleton.
  - destruct (Z.ltb_spec (BN_value a) 0) as [Hn|Hn].
    + rewrite (SetHex_digits ds true Hok Hhead), Hval. lia.
    + rewrite (SetHex_digits ds false Hok Hhead), Hval. lia.
Qed.

End OpenSSL.

(** ** A library of integers that satisfies the manual, and the theorems there *)

Module IntegerBN.

Definition num_bytes (z : Z) : Z := if z =? 0 then 0 else Z.log2 (Z.abs z) / 8 + 1.

Definition body (z : Z) : bytes :=
  match be_digits 256 (Z.to_nat (num_bytes z)) (Z.abs z) with
  | [] => []
  | c :: r =>
    if 128 <=? c then (if z <? 0 then 128 else 0) :: c :: r
    else (if z <? 0 then c + 128 else c) :: r
  end.

Lemma num_bytes_le z n : 0 <= n -> (num_bytes z <= n <-> Z.abs z < 256 ^ n).
Proof.
  intros Hn. unfold num_bytes. rewrite <-pow_256 by done. destruct (Z.eqb_spec z 0) as [->|Hz].
  - assert (0 < 2 ^ (8 * n)) by (apply Z.pow_pos_nonneg; lia). lia.
  - rewrite Z.log2_lt_pow2 by lia. zdm.
Qed.

Lemma body_spec z : is_bytes (body z) /\ mpi_minimal (body z) /\ mpi_body_val (body z) = z.
Proof.
  unfold body. pose proof (be_digits_ok 256 ltac:(lia) (Z.to_nat (num_bytes z)) (Z.abs z)) as Hok.
  pose proof (be_val_digits 256 ltac:(lia) (Z.to_nat (num_bytes z)) (Z.abs z)) as Hv.
  assert (Hnb : 0 <= num_bytes z).
  { unfold num_bytes. destruct (z =? 0); [done|]. pose proof (Z.log2_nonneg (Z.abs z)). zdm. }
  rewrite Z2Nat.id, Z.mod_small in Hv by (try split; try apply Z.abs_nonneg; try apply num_bytes_le; lia).
  pose proof (be_digits_length 256 (Z.to_nat (num_bytes z)) (Z.abs z)) as Hlen.
  destruct (be_digits _ _ _) as [|c r].
  { unfold be_val in Hv. cbn in Hv. split_and!; [apply is_bytes_nil|done|]. cbn. lia. }
  assert (Hc0 : c <> 0).
  { intros ->. rewrite be_val_cons in Hv by lia. apply Forall_cons in Hok as [_ Hr].
    pose proof (be_val_range 256 ltac:(lia) r Hr). cbn in Hlen.
    pose proof (proj2 (num_bytes_le z (lenZ r) (lenZ_nonneg r)) ltac:(lia)). unfold lenZ in *. lia. }
  pose proof Hok as Hok'. apply Forall_cons in Hok' as [Hc Hr].
  destruct (Z.leb_spec 128 c), (Z.ltb_spec z 0); rewrite ?is_bytes_cons; unfold mpi_body_val; cbn [mpi_minimal].
  - split_and!; [unfold in_u; lia|unfold in_u; lia|done|by intros|].
    cbn [Z.leb Z.compare Pos.compare Pos.compare_cont]. rewrite be_val_cons by lia. lia.
  - split_and!; [unfold in_u; lia|unfold in_u; lia|done|by intros|].
    cbn [Z.leb Z.compare]. rewrite be_val_cons by lia. lia.
  - split_and!; [unfold in_u; lia|done|destruct r; zdm|].
    destruct (Z.leb_spec 128 (c + 128)); [|lia]. rewrite Z.add_simpl_r. lia.
  - split_and!; [unfold in_u; lia|done|destruct r; zdm|]. destruct (Z.leb_spec 128 c); lia.
Qed.

#[local] Instance integers : OpenSSL.
Proof.
  refine {| BN := Z; BN_value := id; BN_set_word := id; BN_get_word a := Z.min (Z.abs a) (2 ^ 64 - 1);
    BN_set_negative a f := if f : bool then - Z.abs a else Z.abs a; BN_is_negative a := a <? 0;
    BN_num_bytes := num_bytes; BN_lshift a n := a * 2 ^ n; BN_rshift a n := Z.quot a (2 ^ n);
    BN_add := Z.add; BN_sub := Z.sub; BN_mul := Z.mul;
    BN_div a b := if b =? 0 then None else Some (Z.quot a b, Z.rem a b);
    BN_cmp a b := match a ?= b with Lt => -1 | Eq => 0 | Gt => 1 end;
    BN_mpi2bn s := mpi_body_val (drop 4 s);
    BN_bn2mpi a := mpi_size (lenZ (body a)) ++ body a;
    BN_num_bytes_le := num_bytes_le |}; try done.
  - intros a. unfold num_bytes. destruct (a =? 0); [done|]. pose proof (Z.log2_nonneg (Z.abs a)). zdm.
  - intros a b Hb. unfold id in *. destruct (Z.eqb_spec b 0); [done|]. by eexists _, _.
  - intros a. exists (body a). destruct (body_spec a) as (? & ? & ?). done.
Defined.

Definition bn (z : Z) : BN := z.

Lemma CBigNum_integers_witness :
  BN_value (setint64 (- 2 ^ 63)) = - 2 ^ 63 /\ getint (setint64 (- 2 ^ 63)) = INT_MIN.
Proof.
  destruct (@CBigNum_integers integers) as (H1 & _ & _ & H4). split; [by apply H1|]. by rewrite H4, H1.
Defined.

Lemma CBigNum_vch_roundtrip_witness : getvch (setvch [0; 255; 0]) = [0; 255; 0].
Proof.
  apply CBigNum_vch_roundtrip; [by apply (bool_decide_unpack _); vm_compute|done|cbn; lia].
Defined.

Lemma CBigNum_uint256_witness : getuint256 (setuint256 (2 ^ 255)) = 2 ^ 255.
Proof. apply CBigNum_uint256. split; [discriminate|reflexivity]. Defined.

(** The sign bit of 0x92340000 moves its top byte into a further one. *)
Lemma CBigNum_compact_witness :
  GetCompact (bn (0x92345678)) = 0x05009234 /\ BN_value (SetCompact (GetCompact (bn (0x92345678)))) = 0x92340000.
Proof.
  destruct (@CBigNum_compact integers) as [_ Hc]. destruct (Hc (bn (0x92345678)) ltac:(reflexivity)) as (_ & _ & Hv).
  split; [reflexivity|]. rewrite Hv. reflexivity.
Defined.

Lemma CBigNum_shr_witness : BN_value (shr (bn (1000)) 3) = 125 /\ BN_value (shr (bn (- 1000)) 3) = 0.
Proof. split; rewrite CBigNum_shr by lia; reflexivity. Defined.

Lemma CBigNum_hex_roundtrip_witness :
  exists str, GetHex (bn (- 0xc0de)) = Some str /\ BN_value (SetHex str) = - 0xc0de.
Proof. apply (CBigNum_hex_roundtrip (bn (- 0xc0de))). Defined.

End IntegerBN.
