(* ===== verification/Validation.v ===== *)
(** Validation of transactions and blocks: src/dust_coin/bitcoin_messages_handlers.cpp
    ([IsFinalTx] to [CheckBlock] and [ComputeMinWork]).

    What the checks report through [CValidationState] (main.h, not in the tree) is the value
    [Verdict]: which of its reporting functions was called, with which DoS level; every such
    path returns false, [Accept] is the path that returns true.  [error] only prints.

    Not in the tree, hence parameters (class [Chain]): the serialized sizes, the hash of a
    header, the operation count and the integer push of scripts, the consensus constants and
    [MoneyRange] of main.h, and [GetMedianTimePast]. *)

From S2P Require Import Prelude Core Block BigNum Checkpoints.

Inductive Verdict := Accept | DoS (level : Z) | Invalid.

#[global] Instance Verdict_eq_dec : EqDecision Verdict.
Proof. solve_decision. Defined.

(** Checks in the order of the source: the first that reports decides. *)
Definition and_then (v : Verdict) (k : Verdict) : Verdict := match v with Accept => k | _ => v end.
Notation "v >>> k" := (and_then v k) (at level 88, right associativity) : tt_scope.
Definition reject (b : bool) (v : Verdict) : Verdict := if b then v else Accept.

(** A block index entry; [pprev] is the key of the previous entry. *)
Record CBlockIndex := mkIndex {
  bi_hash : uint256; pprev : option uint256; nHeight : Z; bi_nTime : Z; bi_nBits : Z; bi_nVersion : Z }.

#[global] Instance CBlockIndex_eq_dec : EqDecision CBlockIndex.
Proof. solve_decision. Defined.

Abbreviation BlockIndexMap := (gmap uint256 CBlockIndex).

Class Chain := {
  chain_hashing :: Hashing;
  tx_size : CTransaction -> Z;
  block_size : CBlock -> Z;
  header_hash : CBlockHeader -> uint256;
  GetSigOpCount : CScript -> Z;
  push_int : Z -> CScript;
  GetMedianTimePast : CBlockIndex -> Z;
  MAX_BLOCK_SIZE : Z;
  MAX_BLOCK_SIGOPS : Z;
  MAX_MONEY : Z;
  LOCKTIME_THRESHOLD : Z;
  MoneyRange : Z -> bool;
  MAX_BLOCK_SIZE_small : MAX_BLOCK_SIZE < 2 ^ 29;
  MAX_MONEY_range : 0 < MAX_MONEY < 2 ^ 62;
  MoneyRange_spec n : MoneyRange n = true <-> 0 <= n <= MAX_MONEY;
}.

(** The global variables the checks read. *)
Record Globals := mkGlobals {
  nBestHeight : Z; AdjustedTime : Z; fTestNet : bool; fCheckpoints : bool; mapBlockIndex : BlockIndexMap }.

Definition nTargetSpacing : Z := 10 * 60.
Definition nTargetTimespan : Z := 14 * 24 * 60 * 60.
Definition hashGenesisBlock : uint256 :=
  0x000000000019d6689c085ae165831e934ff763ae46a2a6c172b3f1b60a8ce26f.

Section Chain.
Context `{Chain}.

Definition IsFinalTx (g : Globals) (tx : CTransaction) (nBlockHeight nBlockTime : Z) : bool :=
  if nLockTime tx =? 0 then true
  else
    let nBlockHeight := if nBlockHeight =? 0 then nBestHeight g else nBlockHeight in
    let nBlockTime := if nBlockTime =? 0 then AdjustedTime g else nBlockTime in
    if nLockTime tx <? (if nLockTime tx <? LOCKTIME_THRESHOLD then nBlockHeight else nBlockTime) then true
    else forallb CTxIn.IsFinal (vin tx).

(** [nFound] counts the entries of at least [minVersion] among at most [nToCheck] from
    [pstart] back; the loop stops when it found enough. *)
Fixpoint SuperMajority_loop (m : BlockIndexMap) (minVersion nRequired : Z) (nToCheck : nat)
    (nFound : Z) (pstart : option CBlockIndex) : Z :=
  match nToCheck, pstart with
  | S n, Some p =>
    if nFound <? nRequired then
      SuperMajority_loop m minVersion nRequired n
        (if minVersion <=? bi_nVersion p then nFound + 1 else nFound)
        (h ← pprev p; m !! h)
    else nFound
  | _, _ => nFound
  end.

Definition IsSuperMajority (m : BlockIndexMap) (minVersion : Z) (pstart : option CBlockIndex)
    (nRequired nToCheck : Z) : bool :=
  nRequired <=? SuperMajority_loop m minVersion nRequired (Z.to_nat nToCheck) 0 pstart.

(** The loop over the outputs: the running total [nValueOut]. *)
Fixpoint check_outputs (nValueOut : Z) (vout : list CTxOut) : Verdict :=
  match vout with
  | [] => Accept
  | txout :: r =>
    reject (nValue txout <? 0) (DoS 100) >>>
    reject (MAX_MONEY <? nValue txout) (DoS 100) >>>
    let nValueOut := s64 (nValueOut + nValue txout) in
    reject (negb (MoneyRange nValueOut)) (DoS 100) >>>
    check_outputs nValueOut r
  end.

(** The loop over the inputs with the set of the outpoints seen. *)
Fixpoint check_duplicates (vInOutPoints : list COutPoint) (vin : list CTxIn) : Verdict :=
  match vin with
  | [] => Accept
  | txin :: r =>
    reject (existsb (COutPoint.eqb (prevout txin)) vInOutPoints) (DoS 100) >>>
    check_duplicates (prevout txin :: vInOutPoints) r
  end.

Definition CheckTransaction (tx : CTransaction) : Verdict :=
  reject (bool_decide (vin tx = [])) (DoS 10) >>>
  reject (bool_decide (vout tx = [])) (DoS 10) >>>
  reject (MAX_BLOCK_SIZE <? tx_size tx) (DoS 100) >>>
  check_outputs 0 (vout tx) >>>
  check_duplicates [] (vin tx) >>>
  if CTransaction.IsCoinBase tx then
    let size := match vin tx with i :: _ => lenZ (scriptSig i) | [] => 0 end in
    reject ((size <? 2) || (100 <? size)) (DoS 100)
  else reject (existsb (fun i => COutPoint.IsNull (prevout i)) (vin tx)) (DoS 10).

Definition GetLegacySigOpCount (tx : CTransaction) : Z :=
  let n := fold_left (fun n i => u32 (n + GetSigOpCount (scriptSig i))) (vin tx) 0 in
  fold_left (fun n o => u32 (n + GetSigOpCount (scriptPubKey o))) (vout tx) n.

(** [std::equal(expect.begin(), expect.end(), sig.begin())]; [None]: it reads past the end
    of [sig]. *)
Fixpoint std_equal (expect sig : bytes) : option bool :=
  match expect, sig with
  | [], _ => Some true
  | e :: expect', s :: sig' => if e =? s then std_equal expect' sig' else Some false
  | _ :: _, [] => None
  end.

Definition majority (g : Globals) (pindexPrev : CBlockIndex) (nMain nMainOf nTest nTestOf : Z) : bool :=
  (negb (fTestNet g) && IsSuperMajority (mapBlockIndex g) 2 (Some pindexPrev) nMain nMainOf)
  || (fTestNet g && IsSuperMajority (mapBlockIndex g) 2 (Some pindexPrev) nTest nTestOf).

(** The checks on a block with a known previous block.  [None]: undefined behaviour. *)
Definition AcceptBlock_prev (g : Globals) (b : CBlock) (hash : uint256) (pindexPrev : CBlockIndex) : option Verdict :=
  let nHeight := nHeight pindexPrev + 1 in
  let early :=
    reject (CBlockHeader.GetBlockTime (header b) <=? GetMedianTimePast pindexPrev) Invalid >>>
    reject (negb (forallb (fun tx => IsFinalTx g tx nHeight (CBlockHeader.GetBlockTime (header b))) (vtx b))) (DoS 10) >>>
    reject (negb (Checkpoints.CheckBlock (fCheckpoints g) (fTestNet g) nHeight hash)) (DoS 100) >>>
    reject ((bh_nVersion (header b) <? 2) && majority g pindexPrev 950 1000 75 100) Invalid in
  match early with
  | Accept =>
    if (2 <=? bh_nVersion (header b)) && majority g pindexPrev 750 1000 51 100 then
      match vtx b with
      | coinbase :: _ =>
        match vin coinbase with
        | i :: _ => ok ← std_equal (push_int nHeight) (scriptSig i); Some (reject (negb ok) (DoS 100))
        | [] => None
        end
      | [] => None
      end
    else Some Accept
  | v => Some v
  end.

Definition AcceptBlock (g : Globals) (b : CBlock) : option Verdict :=
  let hash := header_hash (header b) in
  match mapBlockIndex g !! hash with
  | Some _ => Some Invalid
  | None =>
    if hash =? hashGenesisBlock then Some Accept
    else
      match mapBlockIndex g !! hashPrevBlock (header b) with
      | None => Some (DoS 10)
      | Some pindexPrev => AcceptBlock_prev g b hash pindexPrev
      end
  end.

Section Work.
Context `{OpenSSL}.
Import CBigNum.

(** [~uint256(0) >> 32]. *)
Definition bnProofOfWorkLimit : BN := setuint256 (Z.shiftr (2 ^ 256 - 1) 32).

Definition CheckProofOfWork (hash : uint256) (nBits : Z) : bool :=
  let bnTarget := SetCompact nBits in
  if leb bnTarget (of_int 0) || gtb bnTarget bnProofOfWorkLimit then false
  else if getuint256 bnTarget <? hash then false
  else true.

(** The loop; each round takes four target timespans off [nTime], so [nTime] rounds suffice. *)
Fixpoint MinWork_loop (fuel : nat) (bnResult : BN) (nTime : Z) : BN :=
  match fuel with
  | O => bnResult
  | S fuel' =>
    if (0 <? nTime) && ltb bnResult bnProofOfWorkLimit then
      MinWork_loop fuel' (BN_mul bnResult (of_int 4)) (nTime - nTargetTimespan * 4)
    else bnResult
  end.

Definition ComputeMinWork (fTestNet : bool) (nBase nTime : Z) : Z :=
  if fTestNet && (nTargetSpacing * 2 <? nTime) then GetCompact bnProofOfWorkLimit
  else
    let bnResult := MinWork_loop (Z.to_nat nTime) (SetCompact nBase) nTime in
    let bnResult := if gtb bnResult bnProofOfWorkLimit then bnProofOfWorkLimit else bnResult in
    GetCompact bnResult.

(** The checks of the transactions one by one. *)
Fixpoint check_all {A} (f : A -> Verdict) (l : list A) : Verdict :=
  match l with [] => Accept | x :: r => f x >>> check_all f r end.

(** [None]: an assertion of [GetTxHash] fails. *)
Definition CheckBlock (g : Globals) (b : CBlock) (fCheckPOW fCheckMerkleRoot : bool) : option Verdict :=
  let early :=
    reject (bool_decide (vtx b = []) || (MAX_BLOCK_SIZE <? lenZ (vtx b)) || (MAX_BLOCK_SIZE <? block_size b)) (DoS 100) >>>
    reject (fCheckPOW && negb (CheckProofOfWork (header_hash (header b)) (nBits (header b)))) (DoS 50) >>>
    reject (AdjustedTime g + 2 * 60 * 60 <? CBlockHeader.GetBlockTime (header b)) Invalid >>>
    reject (match vtx b with [] => true | tx :: _ => negb (CTransaction.IsCoinBase tx) end) (DoS 100) >>>
    reject (existsb CTransaction.IsCoinBase (drop 1 (vtx b))) (DoS 100) >>>
    check_all CheckTransaction (vtx b) in
  match early with
  | Accept =>
    let '(_, b) := CBlock.BuildMerkleTree b in
    uniqueTx ← mapM (CBlock.GetTxHash b) (seqZ 0 (lenZ (vtx b)));
    Some (
      reject (negb (lenZ (remove_dups uniqueTx) =? lenZ (vtx b))) (DoS 100) >>>
      let nSigOps := fold_left (fun n tx => u32 (n + GetLegacySigOpCount tx)) (vtx b) 0 in
      reject (MAX_BLOCK_SIGOPS <? nSigOps) (DoS 100) >>>
      reject (fCheckMerkleRoot && negb (hashMerkleRoot (header b) =? (CBlock.BuildMerkleTree b).1)) (DoS 100))
  | v => Some v
  end.

End Work.
End Chain.
