(* ===== verification/ValidationThms.v ===== *)
(** Theorems about the validation rules: which transactions and blocks pass the checks, what
    the proof-of-work checks compute, and a read past the end in [AcceptBlock]. *)

From S2P Require Import Prelude Core Block BigNum BigNumThms Checkpoints Validation.

Lemma and_then_Accept v k : (v >>> k) = Accept <-> v = Accept /\ k = Accept.
Proof. destruct v; cbn; split; intros; naive_solver. Qed.
Lemma reject_Accept b v : v <> Accept -> (reject b v = Accept <-> b = false).
Proof. intros Hv. destruct b; cbn; split; naive_solver. Qed.

(** [passes]: turn "the checks accept" into the conjunction of the conditions. *)
Ltac passes := rewrite ?and_then_Accept, ?reject_Accept by done.

Section Chain.
Context `{Chain}.

(** ** Transactions *)

Definition sum_values (l : list CTxOut) : Z := foldr (fun o a => nValue o + a) 0 l.

Lemma check_outputs_spec l acc : 0 <= acc <= MAX_MONEY ->
  (check_outputs acc l = Accept <->
   Forall (fun o => 0 <= nValue o <= MAX_MONEY) l /\ acc + sum_values l <= MAX_MONEY).
Proof.
  pose proof MAX_MONEY_range. revert acc. induction l as [|o l IH]; intros acc Hacc; cbn [check_outputs].
  { unfold sum_values. cbn. split; [|done]. intros _. split; [apply List.Forall_nil|lia]. }
  passes. rewrite Forall_cons, negb_false_iff, Z.ltb_ge, Z.ltb_ge, MoneyRange_spec.
  unfold sum_values. cbn [foldr]. fold (sum_values l).
  destruct (decide (0 <= nValue o <= MAX_MONEY)) as [Ho|Ho]; [|split; [lia|intros [[? _] _]; lia]].
  rewrite wraps_small by (unfold in_s; lia).
  assert (Hpos : Forall (fun o => 0 <= nValue o <= MAX_MONEY) l -> 0 <= sum_values l).
  { clear IH. unfold sum_values. induction 1 as [|o2 l2 Ho2 _ IH2]; cbn [foldr]; [lia|]. cbn beta in Ho2. lia. }
  destruct (decide (acc + nValue o <= MAX_MONEY)) as [Hs|Hs].
  - rewrite IH by lia. unfold sum_values. intuition lia.
  - split; [lia|]. intros [[_ Hl] Hsum]. specialize (Hpos Hl). lia.
Qed.

Lemma COutPoint_eqb a b : COutPoint.eqb a b = true <-> a = b.
Proof. unfold COutPoint.eqb. destruct a, b; cbn. rewrite andb_true_iff, !Z.eqb_eq. naive_solver. Qed.

Lemma check_duplicates_spec l seen :
  check_duplicates seen l = Accept <-> NoDup (prevout <$> l) /\ Forall (fun i => prevout i ∉ seen) l.
Proof.
  revert seen. induction l as [|i l IH]; intros seen; cbn [check_duplicates fmap list_fmap].
  { split; [intros _|done]. split; [constructor|apply List.Forall_nil]. }
  passes. rewrite IH, NoDup_cons, Forall_cons, <-not_true_iff_false, existsb_exists.
  setoid_rewrite COutPoint_eqb. setoid_rewrite <-list_elem_of_In.
  assert (Hsplit : Forall (fun j => prevout j ∉ prevout i :: seen) l
          <-> prevout i ∉ prevout <$> l /\ Forall (fun j => prevout j ∉ seen) l).
  { rewrite !Forall_forall, list_elem_of_fmap. split.
    - intros Hall. split; [intros (j & Ej & Hj)|intros j Hj Hs]; apply (Hall j Hj); [rewrite Ej|]; set_solver.
    - intros [Hn Hall] j Hj [Ej|Hs]%elem_of_cons; [apply Hn; by exists j|by apply (Hall j)]. }
  rewrite Hsplit. naive_solver.
Qed.

Lemma existsb_false {A} (f : A -> bool) l : existsb f l = false <-> Forall (fun x => f x = false) l.
Proof.
  rewrite <-not_true_iff_false, existsb_exists, Forall_forall. setoid_rewrite <-list_elem_of_In.
  split; [|intros Hall (x & Hx & Hf); by rewrite (Hall x Hx) in Hf]. intros Hn x Hx. apply not_true_is_false. intros Hf. apply Hn. by exists x.
Qed.

(** What a transaction has to satisfy without its context. *)
Definition tx_valid (tx : CTransaction) : Prop :=
  vin tx <> [] /\ vout tx <> [] /\ tx_size tx <= MAX_BLOCK_SIZE /\
  Forall (fun o => 0 <= nValue o <= MAX_MONEY) (vout tx) /\ sum_values (vout tx) <= MAX_MONEY /\
  NoDup (prevout <$> vin tx) /\
  if CTransaction.IsCoinBase tx
  then exists i, vin tx = [i] /\ 2 <= lenZ (scriptSig i) <= 100
  else Forall (fun i => COutPoint.IsNull (prevout i) = false) (vin tx).

Lemma CheckTransaction_iff tx : CheckTransaction tx = Accept <-> tx_valid tx.
Proof.
  pose proof MAX_MONEY_range. unfold CheckTransaction, tx_valid. rewrite !and_then_Accept, !reject_Accept by done.
  rewrite check_outputs_spec, check_duplicates_spec, !bool_decide_eq_false, Z.ltb_ge, Z.add_0_l by lia.
  assert (Hnil : Forall (fun i => prevout i ∉ []) (vin tx)) by (apply Forall_forall; set_solver).
  assert (Hcb : (if CTransaction.IsCoinBase tx
     then reject ((match vin tx with i :: _ => lenZ (scriptSig i) | [] => 0 end <? 2)
             || (100 <? match vin tx with i :: _ => lenZ (scriptSig i) | [] => 0 end)) (DoS 100)
     else reject (existsb (fun i => COutPoint.IsNull (prevout i)) (vin tx)) (DoS 10)) = Accept <->
     if CTransaction.IsCoinBase tx then exists i, vin tx = [i] /\ 2 <= lenZ (scriptSig i) <= 100
     else Forall (fun i => COutPoint.IsNull (prevout i) = false) (vin tx)).
  { destruct (CTransaction.IsCoinBase tx) eqn:Hc; rewrite reject_Accept by done.
    - unfold CTransaction.IsCoinBase in Hc. destruct (vin tx) as [|i [|? ?]]; [done| |done].
      rewrite orb_false_iff, !Z.ltb_ge. naive_solver lia.
    - by rewrite existsb_false. }
  cbv zeta. rewrite Hcb. tauto.
Qed.

Definition reported (v : Verdict) : Prop := v = Accept \/ v = DoS 10 \/ v = DoS 100.

Lemma reported_then v k : reported v -> reported k -> reported (v >>> k).
Proof. by destruct v. Qed.
Lemma reported_reject b m : m = 10 \/ m = 100 -> reported (reject b (DoS m)).
Proof. unfold reported. destruct b; cbn; [|tauto]. intros [-> | ->]; tauto. Qed.

Lemma CheckTransaction_reported tx : reported (CheckTransaction tx).
Proof.
  unfold CheckTransaction.
  repeat (apply reported_then; [apply reported_reject; tauto|]). apply reported_then.
  - generalize 0. induction (vout tx) as [|o l IH]; intros acc; cbn [check_outputs]; [by left|].
    repeat (apply reported_then; [apply reported_reject; tauto|]). apply IH.
  - apply reported_then; [|destruct (CTransaction.IsCoinBase tx); apply reported_reject; tauto].
    generalize (@nil COutPoint). induction (vin tx) as [|i l IH]; intros acc; cbn [check_duplicates]; [by left|].
    apply reported_then; [apply reported_reject; tauto|]. apply IH.
Qed.

(** C9 [CheckTransaction] accepts exactly the transactions that satisfy the
    context-free rules, the sum of the outputs being computed without overflow; what it
    refuses it reports with DoS level 10 or 100. *)
Theorem CheckTransaction_spec tx :
  (CheckTransaction tx = Accept <-> tx_valid tx) /\
  (CheckTransaction tx = Accept \/ CheckTransaction tx = DoS 10 \/ CheckTransaction tx = DoS 100).
Proof. split; [apply CheckTransaction_iff|apply CheckTransaction_reported]. Qed.

(** ** Super-majority *)

(** The first [n] entries from [p] back. *)
Fixpoint ancestors (m : BlockIndexMap) (n : nat) (p : option CBlockIndex) : list CBlockIndex :=
  match n, p with
  | S n', Some b => b :: ancestors m n' (h ← pprev b; m !! h)
  | _, _ => []
  end.

Definition upgraded (minVersion : Z) (l : list CBlockIndex) : Z :=
  lenZ (List.filter (fun b => minVersion <=? bi_nVersion b) l).

Lemma SuperMajority_loop_spec m minVersion nRequired n nFound p :
  (nRequired <= SuperMajority_loop m minVersion nRequired n nFound p <->
   nRequired <= nFound + upgraded minVersion (ancestors m n p)).
Proof.
  revert nFound p. induction n as [|n IH]; intros nFound p; cbn [SuperMajority_loop ancestors].
  { unfold upgraded, lenZ. cbn. lia. }
  destruct p as [b|]; [|unfold upgraded, lenZ; cbn; lia].
  unfold upgraded. cbn [List.filter]. set (rest := ancestors _ _ _) in *. fold (upgraded minVersion rest).
  assert (Hpos : 0 <= upgraded minVersion rest) by apply lenZ_nonneg.
  destruct (Z.ltb_spec nFound nRequired) as [Hlt|Hge].
  - rewrite IH. fold rest. unfold upgraded in *. destruct (minVersion <=? bi_nVersion b); autorewrite with tt; lia.
  - unfold upgraded in *. destruct (minVersion <=? bi_nVersion b); autorewrite with tt; lia.
Qed.

(** [IsSuperMajority] holds exactly when at least [nRequired] of the last [nToCheck]
    blocks (or of all, if there are fewer) have the version; the early end of its loop changes
    nothing. *)
Theorem IsSuperMajority_spec m minVersion pstart nRequired nToCheck :
  IsSuperMajority m minVersion pstart nRequired nToCheck = true <->
  nRequired <= upgraded minVersion (ancestors m (Z.to_nat nToCheck) pstart).
Proof. unfold IsSuperMajority. rewrite Z.leb_le, SuperMajority_loop_spec. by rewrite Z.add_0_l. Qed.

(** ** Proof of work *)

Section Work.
Context `{OpenSSL}.
Import CBigNum.

Definition limit : Z := 2 ^ 224 - 1.

Lemma limit_value : BN_value bnProofOfWorkLimit = limit.
Proof.
  unfold bnProofOfWorkLimit. rewrite setuint256_value; [reflexivity|].
  unfold in_u. split; [discriminate|reflexivity].
Qed.

Lemma cmp_lt a b : (BN_cmp a b <? 0) = (BN_value a <? BN_value b).
Proof. rewrite BN_cmp_value. unfold Z.ltb. by destruct (BN_value a ?= BN_value b). Qed.
Lemma cmp_gt a b : (0 <? BN_cmp a b) = (BN_value b <? BN_value a).
Proof.
  rewrite BN_cmp_value. unfold Z.ltb. rewrite (Z.compare_antisym (BN_value a) (BN_value b)).
  by destruct (BN_value a ?= BN_value b).
Qed.
Lemma cmp_le a b : (BN_cmp a b <=? 0) = (BN_value a <=? BN_value b).
Proof. rewrite BN_cmp_value. unfold Z.leb. by destruct (BN_value a ?= BN_value b). Qed.

(** The target a compact form stands for. *)
Definition target (nBits : Z) : Z := compact_value (nBits / 2 ^ 24) (nBits mod 2 ^ 23) (Z.testbit nBits 23).

(** A hash meets the proof of work of [nBits] exactly when the target [nBits] stands for
    is positive, does not exceed the limit of the chain, and is not below the hash. *)
Theorem CheckProofOfWork_spec hash nBits :
  in_u 32 nBits ->
  (CheckProofOfWork hash nBits = true <-> 0 < target nBits <= limit /\ hash <= target nBits).
Proof.
  intros Hb. unfold CheckProofOfWork, leb, gtb. rewrite cmp_le, cmp_gt, limit_value, (of_int_eq 0) by done.
  rewrite getuint256_value, SetCompact_value by done. fold (target nBits).
  destruct (Z.leb_spec (target nBits) 0), (Z.ltb_spec limit (target nBits)); cbn [orb]; try (split; [done|lia]).
  assert (Hlim : limit < 2 ^ 256) by done. rewrite Z.abs_eq, Z.mod_small by lia.
  destruct (Z.ltb_spec (target nBits) hash); split; try done; lia.
Qed.

Definition period : Z := nTargetTimespan * 4.

(** The rounds the loop makes when it is not cut off by the limit. *)
Definition rounds_for (nTime : Z) : Z := Z.max 0 ((nTime + period - 1) / period).

Lemma MinWork_loop_spec fuel r nTime :
  nTime <= Z.of_nat fuel ->
  exists j, 0 <= j <= rounds_for nTime /\
    BN_value (MinWork_loop fuel r nTime) = BN_value r * 4 ^ j /\
    (j = rounds_for nTime \/ limit <= BN_value r * 4 ^ j).
Proof.
  assert (Hp : period = 4838400) by done.
  revert r nTime. induction fuel as [|fuel IH]; intros r nTime Hf; cbn [MinWork_loop].
  { exists 0. assert (E : rounds_for nTime = 0) by (unfold rounds_for; rewrite Hp; zdm). rewrite E.
    rewrite Z.mul_1_r. split_and!; [lia|lia|done|by left]. }
  unfold ltb. rewrite cmp_lt, limit_value.
  destruct (Z.ltb_spec 0 nTime) as [Ht|Ht]; cbn [andb].
  2:{ exists 0. assert (E : rounds_for nTime = 0) by (unfold rounds_for; rewrite Hp; zdm). rewrite E.
      rewrite Z.mul_1_r. split_and!; [lia|lia|done|by left]. }
  assert (Hr : rounds_for nTime = 1 + rounds_for (nTime - nTargetTimespan * 4)).
  { unfold rounds_for. fold period. rewrite Hp. zdm. }
  assert (Hnn : 0 <= rounds_for (nTime - nTargetTimespan * 4)) by (unfold rounds_for; lia).
  destruct (Z.ltb_spec (BN_value r) limit) as [Hl|Hl].
  - destruct (IH (BN_mul r (of_int 4)) (nTime - nTargetTimespan * 4)) as (j & Hj & Hv & Hend).
    { unfold nTargetTimespan. lia. }
    exists (1 + j). rewrite BN_mul_value, of_int_eq in Hv, Hend by (unfold in_s; lia).
    rewrite Z.pow_add_r, Z.pow_1_r, Z.mul_assoc, Hr by lia.
    split_and!; [lia|lia|done|]. destruct Hend as [->|]; [by left|by right].
  - exists 0. rewrite Z.mul_1_r. split_and!; [lia|lia|done|by right].
Qed.

(** [ComputeMinWork] ends and gives the compact form of the base target times four
    for every started period of eight weeks, cut off at the limit of the chain; on the test
    network the limit itself after twenty minutes. *)
Theorem ComputeMinWork_spec t nBase nTime :
  in_u 32 nBase ->
  if t && (nTargetSpacing * 2 <? nTime) then ComputeMinWork t nBase nTime = GetCompact bnProofOfWorkLimit
  else exists r, BN_value r = Z.min (target nBase * 4 ^ rounds_for nTime) limit /\
                 ComputeMinWork t nBase nTime = GetCompact r.
Proof.
  intros Hb. unfold ComputeMinWork. destruct (t && _); [done|].
  destruct (MinWork_loop_spec (Z.to_nat nTime) (SetCompact nBase) nTime) as (j & Hj & Hv & Hend).
  { destruct (Z.leb_spec 0 nTime); lia. }
  rewrite SetCompact_value in Hv, Hend by done. fold (target nBase) in Hv, Hend.
  set (m := MinWork_loop _ _ _) in *. eexists. split; [|done].
  assert (Hlim : 0 < limit) by done.
  assert (Hpow : limit <= target nBase * 4 ^ j -> limit <= target nBase * 4 ^ rounds_for nTime).
  { intros Hl. assert (4 ^ j <= 4 ^ rounds_for nTime) by (apply Z.pow_le_mono_r; lia).
    assert (0 < 4 ^ j) by (apply Z.pow_pos_nonneg; lia). nia. }
  unfold gtb. rewrite cmp_gt, limit_value, Hv.
  destruct (Z.ltb_spec limit (target nBase * 4 ^ j)).
  - rewrite limit_value. lia.
  - rewrite Hv. destruct Hend as [->|Hge]; lia.
Qed.

(** ** Blocks *)

Lemma remove_dups_len (l : list uint256) : (length (remove_dups l) <= length l)%nat.
Proof. induction l as [|x l IH]; cbn; [done|]. case_decide; cbn; lia. Qed.

Lemma remove_dups_NoDup (l : list uint256) : length (remove_dups l) = length l <-> NoDup l.
Proof.
  induction l as [|x l IH]; cbn; [split; [constructor|done]|]. rewrite NoDup_cons.
  pose proof (remove_dups_len l). case_decide; cbn.
  - split; [lia|]. intros [? _]. done.
  - rewrite <-IH. split; [intros [= ->]; done|intros [_ ->]; done].
Qed.

Lemma GetTxHash_built b : lenZ (vtx b) < 2 ^ 29 ->
  mapM (CBlock.GetTxHash (built b)) (seqZ 0 (lenZ (vtx b))) = Some (TxHash <$> vtx b).
Proof.
  intros Hlen. apply mapM_Some. apply Forall2_same_length_lookup. unfold lenZ. split.
  { rewrite length_seqZ, length_fmap. lia. }
  intros i x y Hx Hy. apply lookup_seqZ in Hx as [-> Hi]. rewrite Z.add_0_l.
  unfold CBlock.GetTxHash, built. rewrite Build_root by done. cbn [snd vMerkleTree vtx].
  destruct (levels_prefix (length (vtx b)) (TxHash <$> vtx b)) as [r ->].
  assert (Hl : lenZ (TxHash <$> vtx b) = lenZ (vtx b)) by (unfold lenZ; by rewrite length_fmap).
  pose proof (lenZ_nonneg r). rewrite lenZ_app, nthZ_app_l by (rewrite Hl; unfold lenZ; lia).
  destruct (Z.ltb_spec 0 (lenZ (TxHash <$> vtx b) + lenZ r)), (Z.ltb_spec (Z.of_nat i) (lenZ (vtx b)));
    unfold lenZ in *; try lia. cbn [andb]. f_equal. by apply nthZ_lookup.
Qed.

Lemma check_all_spec {A} (f : A -> Verdict) l : check_all f l = Accept <-> Forall (fun x => f x = Accept) l.
Proof. induction l as [|x l IH]; cbn [check_all]; [by split|]. by rewrite and_then_Accept, IH, Forall_cons. Qed.

Definition nSigOps (b : CBlock) : Z := fold_left (fun n tx => u32 (n + GetLegacySigOpCount tx)) (vtx b) 0.

(** What a block has to satisfy without its context. *)
Definition block_valid (g : Globals) (b : CBlock) (fCheckPOW fCheckMerkleRoot : bool) : Prop :=
  lenZ (vtx b) <= MAX_BLOCK_SIZE /\ block_size b <= MAX_BLOCK_SIZE /\
  (fCheckPOW = true -> CheckProofOfWork (header_hash (header b)) (nBits (header b)) = true) /\
  CBlockHeader.GetBlockTime (header b) <= AdjustedTime g + 2 * 60 * 60 /\
  (exists coinbase r, vtx b = coinbase :: r /\ CTransaction.IsCoinBase coinbase = true /\
     Forall (fun tx => CTransaction.IsCoinBase tx = false) r) /\
  Forall (fun tx => CheckTransaction tx = Accept) (vtx b) /\
  NoDup (TxHash <$> vtx b) /\
  nSigOps b <= MAX_BLOCK_SIGOPS /\
  (fCheckMerkleRoot = true -> hashMerkleRoot (header b) = merkle_root (TxHash <$> vtx b)).

(** The checks before the Merkle tree is built. *)
Definition early_valid (g : Globals) (b : CBlock) (fCheckPOW : bool) : Prop :=
  lenZ (vtx b) <= MAX_BLOCK_SIZE /\ block_size b <= MAX_BLOCK_SIZE /\
  (fCheckPOW = true -> CheckProofOfWork (header_hash (header b)) (nBits (header b)) = true) /\
  CBlockHeader.GetBlockTime (header b) <= AdjustedTime g + 2 * 60 * 60 /\
  (exists coinbase r, vtx b = coinbase :: r /\ CTransaction.IsCoinBase coinbase = true /\
     Forall (fun tx => CTransaction.IsCoinBase tx = false) r) /\
  Forall (fun tx => CheckTransaction tx = Accept) (vtx b).

Lemma early_iff g b fCheckPOW :
  (reject (bool_decide (vtx b = []) || (MAX_BLOCK_SIZE <? lenZ (vtx b)) || (MAX_BLOCK_SIZE <? block_size b)) (DoS 100) >>>
   reject (fCheckPOW && negb (CheckProofOfWork (header_hash (header b)) (nBits (header b)))) (DoS 50) >>>
   reject (AdjustedTime g + 2 * 60 * 60 <? CBlockHeader.GetBlockTime (header b)) Invalid >>>
   reject (match vtx b with [] => true | tx :: _ => negb (CTransaction.IsCoinBase tx) end) (DoS 100) >>>
   reject (existsb CTransaction.IsCoinBase (drop 1 (vtx b))) (DoS 100) >>>
   check_all CheckTransaction (vtx b)) = Accept <-> early_valid g b fCheckPOW.
Proof.
  rewrite !and_then_Accept, !reject_Accept by done.
  rewrite check_all_spec, existsb_false, !orb_false_iff, andb_false_iff, negb_false_iff, !Z.ltb_ge, bool_decide_eq_false.
  unfold early_valid. destruct (vtx b) as [|coinbase r]; [naive_solver|]. cbn [drop].
  rewrite negb_false_iff. split.
  - intros ((( _ & ?) & ?) & Hpow & ? & ? & ? & ?). split_and!; try done; [by destruct Hpow as [->|]|].
    by exists coinbase, r.
  - intros (? & ? & Hpow & ? & (c & r' & [= <- <-] & ? & ?) & ?). split_and!; try done.
    destruct fCheckPOW; [right; by apply Hpow|by left].
Qed.

Lemma CheckBlock_iff g b fCheckPOW fCheckMerkleRoot :
  exists v, CheckBlock g b fCheckPOW fCheckMerkleRoot = Some v /\
    (v = Accept <-> block_valid g b fCheckPOW fCheckMerkleRoot).
Proof.
  pose proof MAX_BLOCK_SIZE_small as Hmax. pose proof (early_iff g b fCheckPOW) as He. unfold CheckBlock.
  destruct (reject (bool_decide (vtx b = []) || _ || _) _ >>> _) as [|n|] eqn:Hv.
  - destruct He as [He _]. specialize (He eq_refl). pose proof He as (Hl & _).
    pose proof (Build_root b ltac:(lia)) as Hroot. pose proof (GetTxHash_built b ltac:(lia)) as Hhash.
    unfold built in Hhash. destruct (CBlock.BuildMerkleTree b) as [rt b'] eqn:Hb.
    cbn [snd] in Hhash. injection Hroot as -> Hb'.
    assert (Hvtx : vtx b' = vtx b) by (by rewrite Hb'). assert (Hhdr : header b' = header b) by (by rewrite Hb').
    rewrite Hvtx, Hhash. cbn [mbind option_bind]. eexists. split; [done|].
    assert (Hroot' : (CBlock.BuildMerkleTree b').1 = merkle_root (TxHash <$> vtx b)).
    { rewrite Build_root by (rewrite Hvtx; lia). by rewrite Hvtx. }
    rewrite !and_then_Accept, !reject_Accept, Hroot', Hhdr by done. fold (nSigOps b).
    rewrite negb_false_iff, Z.eqb_eq, Z.ltb_ge, andb_false_iff, negb_false_iff, Z.eqb_eq.
    assert (Hdup : lenZ (remove_dups (TxHash <$> vtx b)) = lenZ (vtx b) <-> NoDup (TxHash <$> vtx b)).
    { rewrite <-remove_dups_NoDup, length_fmap. unfold lenZ. lia. }
    rewrite Hdup. unfold block_valid. unfold early_valid in He. destruct fCheckMerkleRoot; naive_solver.
  - eexists. split; [done|]. split; [done|]. intros (H1 & H2 & H3 & H4 & H5 & H6 & _).
    assert (DoS n = Accept) by (by apply He). done.
  - eexists. split; [done|]. split; [done|]. intros (H1 & H2 & H3 & H4 & H5 & H6 & _).
    assert (Invalid = Accept) by (by apply He). done.
Qed.

(** C1 [CheckBlock] runs without a failing assertion and accepts exactly the blocks
    that satisfy the context-free rules; in particular no two transactions of an accepted block
    have the same hash, which the Merkle root alone would not show. *)
Theorem CheckBlock_spec g b fCheckPOW fCheckMerkleRoot :
  exists v, CheckBlock g b fCheckPOW fCheckMerkleRoot = Some v /\
    (v = Accept <-> block_valid g b fCheckPOW fCheckMerkleRoot).
Proof. apply CheckBlock_iff. Qed.

End Work.

(** ** The coinbase height *)

Lemma std_equal_prefix expect sig k : expect = sig ++ k -> k <> [] -> std_equal expect sig = None.
Proof.
  revert expect. induction sig as [|s sig IH]; intros expect -> Hk; cbn [app std_equal].
  - by destruct k.
  - rewrite Z.eqb_refl. by apply IH.
Qed.

(** When the blocks before are mostly version 2 and a version 2 block passes the other
    checks with a coinbase script that is a proper prefix of the expected height, [AcceptBlock]
    reads past the end of that script: [std::equal] is given no length for it. *)
Theorem AcceptBlock_overread g b coinbase r i k pindexPrev :
  let height := nHeight pindexPrev + 1 in
  mapBlockIndex g !! header_hash (header b) = None -> header_hash (header b) <> hashGenesisBlock ->
  mapBlockIndex g !! hashPrevBlock (header b) = Some pindexPrev ->
  GetMedianTimePast pindexPrev < CBlockHeader.GetBlockTime (header b) ->
  forallb (fun tx => IsFinalTx g tx height (CBlockHeader.GetBlockTime (header b))) (vtx b) = true ->
  Checkpoints.CheckBlock (fCheckpoints g) (fTestNet g) height (header_hash (header b)) = true ->
  2 <= bh_nVersion (header b) -> majority g pindexPrev 750 1000 51 100 = true ->
  vtx b = coinbase :: r -> vin coinbase = [i] ->
  push_int height = scriptSig i ++ k -> k <> [] ->
  AcceptBlock g b = None.
Proof.
  intros height Hnew Hgen Hprev Htime Hfinal Hcp Hver Hmaj Hvtx Hvin Hpush Hk.
  unfold AcceptBlock. rewrite Hnew, (proj2 (Z.eqb_neq _ _) Hgen), Hprev. unfold AcceptBlock_prev.
  fold height. rewrite Hfinal, Hcp, Hmaj, Hvtx, Hvin.
  destruct (Z.leb_spec (CBlockHeader.GetBlockTime (header b)) (GetMedianTimePast pindexPrev)); [lia|].
  destruct (Z.ltb_spec (bh_nVersion (header b)) 2); [lia|]. destruct (Z.leb_spec 2 (bh_nVersion (header b))); [|lia].
  cbn [reject negb and_then andb]. by rewrite (std_equal_prefix _ _ k).
Qed.

End Chain.

(** ** The theorems on a small chain *)

Module Examples.

#[local] Existing Instance IntegerBN.integers.

#[local] Instance hashing : Hashing := {| Hash2 a b := a * 1000 + b; TxHash t := lenZ (vout t) * 10 + nLockTime t |}.

(** The constants of the Bitcoin chain; scripts push a number in two bytes after a length. *)
#[local] Instance chain : Chain.
Proof.
  refine {| tx_size tx := 100 * lenZ (vin tx) + 50 * lenZ (vout tx); block_size b := 100 * lenZ (vtx b);
    header_hash h := nNonce h; GetSigOpCount s := lenZ s; push_int n := [2; n mod 256; n / 256];
    GetMedianTimePast := bi_nTime; MAX_BLOCK_SIZE := 1000000; MAX_BLOCK_SIGOPS := 20000;
    MAX_MONEY := 2100000000000000; LOCKTIME_THRESHOLD := 500000000;
    MoneyRange n := (0 <=? n) && (n <=? 2100000000000000) |}; try done; lia.
Defined.

Definition coinbase : CTransaction :=
  mkTx 1 [mkTxIn COutPoint.SetNull [2; 5] uint_max] [mkTxOut 5000000000 []] 0.
Definition spend : CTransaction :=
  mkTx 1 [mkTxIn (mkOutPoint 7 0) [] uint_max] [mkTxOut 1 []; mkTxOut 2 []] 0.

Lemma CheckTransaction_spec_witness : CheckTransaction spend = Accept /\ tx_valid spend.
Proof.
  assert (Ha : CheckTransaction spend = Accept) by (vm_compute; reflexivity).
  split; [exact Ha|]. apply (CheckTransaction_spec spend). exact Ha.
Defined.

Definition easy_bits : Z := 0x1d00ffff.

Lemma CheckProofOfWork_spec_witness : CheckProofOfWork (2 ^ 200) easy_bits = true.
Proof.
  apply (CheckProofOfWork_spec (2 ^ 200) easy_bits).
  - split; [discriminate|reflexivity].
  - split; [split; [reflexivity|discriminate]|discriminate].
Defined.

Lemma ComputeMinWork_spec_witness :
  exists r, BN_value r = Z.min (target 0x1b00ffff * 4) limit /\ ComputeMinWork false 0x1b00ffff 100 = CBigNum.GetCompact r.
Proof.
  apply (ComputeMinWork_spec false 0x1b00ffff 100). split; [discriminate|reflexivity].
Defined.

Definition h (v n t prev : Z) : CBlockHeader := mkHeader v prev 10 t easy_bits n.
Definition b2 : CBlock := mkBlock (mkHeader 2 5 (10 * 1000 + 20) 600 easy_bits 6) [coinbase; spend] [].
Definition g0 : Globals := mkGlobals 5 1000 false false {[5 := mkIndex 5 None 4 500 easy_bits 2]}.

Lemma CheckBlock_spec_witness : CheckBlock g0 b2 true true = Some Accept /\ block_valid g0 b2 true true.
Proof.
  assert (Ha : CheckBlock g0 b2 true true = Some Accept) by (vm_compute; reflexivity).
  split; [exact Ha|]. destruct (CheckBlock_spec g0 b2 true true) as (v & Hv & Hiff).
  rewrite Ha in Hv. injection Hv as <-. apply Hiff. reflexivity.
Defined.

Lemma IsSuperMajority_spec_witness :
  IsSuperMajority (mapBlockIndex g0) 2 (mapBlockIndex g0 !! 5) 1 1000 = true.
Proof. apply IsSuperMajority_spec. vm_compute. discriminate. Defined.

(** A test chain of 60 version 2 blocks, the next coinbase script is two bytes long. *)
Definition chain60 : BlockIndexMap :=
  list_to_map ((fun k => (k, mkIndex k (if k =? 0 then None else Some (k - 1)) k 500 easy_bits 2)) <$> seqZ 0 60).
Definition g60 : Globals := mkGlobals 59 1000 true false chain60.
Definition short_coinbase : CTransaction :=
  mkTx 1 [mkTxIn COutPoint.SetNull [2; 60] uint_max] [mkTxOut 5000000000 []] 0.
Definition b60 : CBlock := mkBlock (mkHeader 2 59 10 600 easy_bits 100) [short_coinbase] [].

Lemma AcceptBlock_overread_witness : CheckTransaction short_coinbase = Accept /\ AcceptBlock g60 b60 = None.
Proof.
  split; [vm_compute; reflexivity|].
  apply (AcceptBlock_overread g60 b60 short_coinbase [] (mkTxIn COutPoint.SetNull [2; 60] uint_max) [0]
           (mkIndex 59 (Some 58) 59 500 easy_bits 2)); try (vm_compute; reflexivity); discriminate.
Defined.

End Examples.
