(* ===== verification/Key.v ===== *)
(** Keys as data: src/key.h and the parts of src/key.cpp that are not OpenSSL calls.

    [CPubKey] is its 65-byte buffer, whose first byte tells the length; [CKey] is its flags and
    its 32-byte buffer.  The elliptic-curve operations ([CECKey] and below) are parameters where
    a definition needs them.  [LockObject]/[UnlockObject] concern paging only. *)

From S2P Require Import Prelude Digits.

(** [memcmp] as the comparison of unsigned bytes. *)
Fixpoint memcmp (a b : bytes) : comparison :=
  match a, b with
  | x :: a', y :: b' => match x ?= y with Eq => memcmp a' b' | c => c end
  | _, _ => Eq
  end.

Record CPubKey := mkPub { pub_vch : bytes }.
Record CKey := mkKey { fValid : bool; fCompressed : bool; key_vch : bytes }.

#[global] Instance CPubKey_eq_dec : EqDecision CPubKey.
Proof. solve_decision. Defined.
#[global] Instance CKey_eq_dec : EqDecision CKey.
Proof. solve_decision. Defined.

Module CPubKey.

Definition GetLen (chHeader : Z) : Z :=
  if (chHeader =? 2) || (chHeader =? 3) then 33
  else if (chHeader =? 4) || (chHeader =? 6) || (chHeader =? 7) then 65
  else 0.

Definition Invalidate (p : CPubKey) : CPubKey := mkPub (<[0%nat := 0xFF]> (pub_vch p)).

(** [memcpy(vch, pbegin, len)]: the bytes behind stay. *)
Definition Set_ (p : CPubKey) (s : bytes) : CPubKey :=
  let len := match s with [] => 0 | c :: _ => GetLen c end in
  if negb (len =? 0) && (len =? lenZ s) then mkPub (s ++ drop (length s) (pub_vch p))
  else Invalidate p.

(** The constructors, on the buffer [raw] the object is built in. *)
Definition new (raw : bytes) : CPubKey := Invalidate (mkPub raw).
Definition of_bytes (raw s : bytes) : CPubKey := Set_ (mkPub raw) s.

Definition size (p : CPubKey) : Z := GetLen (pub_vch p).[0].
(** The bytes from [begin()] to [end()]. *)
Definition data (p : CPubKey) : bytes := take (Z.to_nat (size p)) (pub_vch p).
Definition at_ (p : CPubKey) (pos : Z) : Z := (pub_vch p).[pos].

Definition cmp_data (a b : CPubKey) : comparison :=
  memcmp (take (Z.to_nat (size a)) (pub_vch a)) (take (Z.to_nat (size a)) (pub_vch b)).

Definition eqb (a b : CPubKey) : bool :=
  (at_ a 0 =? at_ b 0) && match cmp_data a b with Eq => true | _ => false end.
Definition neqb (a b : CPubKey) : bool := negb (eqb a b).
Definition ltb (a b : CPubKey) : bool :=
  (at_ a 0 <? at_ b 0) || ((at_ a 0 =? at_ b 0) && match cmp_data a b with Lt => true | _ => false end).

Definition GetSerializeSize (p : CPubKey) : Z := size p + 1.

Definition IsValid (p : CPubKey) : bool := 0 <? size p.
Definition IsCompressed (p : CPubKey) : bool := size p =? 33.

Section Hash.
Context (Hash160 Hash : bytes -> Z).
Definition GetID (p : CPubKey) : Z := Hash160 (data p).
Definition GetHash (p : CPubKey) : Z := Hash (data p).
End Hash.

(** The decoding of the stream format; [ReadCompactSize] and its inverse are serialize.h. *)
Section Stream.
Context (WriteCompactSize : Z -> bytes) (ReadCompactSize : bytes -> option (Z * bytes)).

Definition Serialize (p : CPubKey) : bytes := WriteCompactSize (size p) ++ take (Z.to_nat (size p)) (pub_vch p).

(** [s.read] fails at the end of the stream. *)
Definition Unserialize (p : CPubKey) (s : bytes) : option (CPubKey * bytes) :=
  '(len, s) ← ReadCompactSize s;
  if lenZ s <? len then None
  else if len <=? 65 then
    Some (mkPub (take (Z.to_nat len) s ++ drop (Z.to_nat len) (pub_vch p)), drop (Z.to_nat len) s)
  else Some (Invalidate p, drop (Z.to_nat len) s).
End Stream.

End CPubKey.

Module CKey.

Definition vchMax : bytes :=
  [0xFF;0xFF;0xFF;0xFF;0xFF;0xFF;0xFF;0xFF; 0xFF;0xFF;0xFF;0xFF;0xFF;0xFF;0xFF;0xFE;
   0xBA;0xAE;0xDC;0xE6;0xAF;0x48;0xA0;0x3B; 0xBF;0xD2;0x5E;0x8C;0xD0;0x36;0x41;0x40].

(** The second loop: the first differing byte decides. *)
Fixpoint below_max (vch max : bytes) : bool :=
  match vch, max with
  | x :: vch', m :: max' => if x <? m then true else if m <? x then false else below_max vch' max'
  | _, _ => true
  end.

Definition Check (vch : bytes) : bool :=
  let fIsZero := forallb (Z.eqb 0) (take 32 vch) in
  if fIsZero then false else below_max vch vchMax.

Definition new (raw : bytes) (compressed : bool) : CKey := mkKey false compressed raw.

Definition Set_ (k : CKey) (s : bytes) (fCompressedIn : bool) : CKey :=
  if negb (lenZ s =? 32) then mkKey false (fCompressed k) (key_vch k)
  else if Check s then mkKey true fCompressedIn s
  else mkKey false (fCompressed k) (key_vch k).

Definition size (k : CKey) : Z := if fValid k then 32 else 0.
Definition IsValid (k : CKey) : bool := fValid k.
Definition IsCompressed (k : CKey) : bool := fCompressed k.
Definition data (k : CKey) : bytes := take (Z.to_nat (size k)) (key_vch k).

(** The rejection loop over the draws [RAND_bytes] makes; [None]: the draws end first. *)
Fixpoint MakeNewKey (draws : list bytes) (fCompressedIn : bool) : option CKey :=
  match draws with
  | [] => None
  | vch :: draws' => if Check vch then Some (mkKey true fCompressedIn vch) else MakeNewKey draws' fCompressedIn
  end.

End CKey.

(** ** Compact signatures: the header byte *)

(** The curve below [CECKey]: signing with the recovery number among 0 to 3, recovering a key. *)
Class Curve := {
  ec_sign : bytes -> Z -> option (bytes * Z);
  ec_recover : Z -> bytes -> Z -> option bytes;
  ec_point : bytes -> bool -> CPubKey;
}.

Module Compact.
Section Curve.
Context `{Curve}.

(** [CKey::SignCompact]; [rec] is -1 only when the assertion fails. *)
Definition SignCompact (k : CKey) (hash : Z) : option bytes :=
  if negb (fValid k) then None
  else
    '(p64, rec) ← ec_sign (key_vch k) hash;
    Some (u8 (27 + rec + (if fCompressed k then 4 else 0)) :: p64).

(** [CECKey::Recover]. *)
Definition Recover (hash : Z) (p64 : bytes) (rec : Z) : option bytes :=
  if (rec <? 0) || (3 <=? rec) then None else ec_recover hash p64 rec.

(** [(vchSig[0] - 27) & ~4] and [(vchSig[0] - 27) & 4], on [int]. *)
Definition rec_of (h : Z) : Z := Z.land (h - 27) (Z.lnot 4).
Definition compressed_of (h : Z) : bool := negb (Z.land (h - 27) 4 =? 0).

Definition RecoverCompact (hash : Z) (vchSig : bytes) : option CPubKey :=
  if negb (lenZ vchSig =? 65) then None
  else
    match vchSig with
    | h :: p64 => pt ← Recover hash p64 (rec_of h); Some (ec_point pt (compressed_of h))
    | [] => None
    end.

Definition VerifyCompact (p : CPubKey) (hash : Z) (vchSig : bytes) : bool :=
  if negb (CPubKey.IsValid p) then false
  else if negb (lenZ vchSig =? 65) then false
  else
    match vchSig with
    | h :: p64 =>
      match Recover hash p64 (rec_of h) with
      | None => false
      | Some pt => negb (CPubKey.neqb p (ec_point pt (CPubKey.IsCompressed p)))
      end
    | [] => false
    end.

End Curve.
End Compact.

(** * Theorems *)

(** The order of the group of secp256k1. *)
Definition order : Z := 0xFFFFFFFFFFFFFFFFFFFFFFFFFFFFFFFEBAAEDCE6AF48A03BBFD25E8CD0364141.

Lemma below_max_val l k :
  digits_ok 256 l -> digits_ok 256 k -> length l = length k ->
  CKey.below_max l k = (be_val 256 l <=? be_val 256 k).
Proof.
  intros Hl. revert k. induction Hl as [|x l Hx Hl IH]; intros [|y k] Hk Hlen; try done.
  apply Forall_cons in Hk as [Hy Hk]. injection Hlen as Hlen. cbn [CKey.below_max].
  rewrite IH, !be_val_cons by (done || lia).
  pose proof (be_val_range 256 ltac:(lia) l Hl). pose proof (be_val_range 256 ltac:(lia) k Hk).
  assert (Hlk : lenZ l = lenZ k) by (unfold lenZ; lia). rewrite Hlk in *.
  destruct (Z.ltb_spec x y); [|destruct (Z.ltb_spec y x)]; symmetry.
  - apply Z.leb_le. nia.
  - apply Z.leb_gt. nia.
  - assert (x = y) as -> by lia. apply Bool.eq_iff_eq_true. rewrite !Z.leb_le. lia.
Qed.

Lemma all_zero l : digits_ok 256 l -> (forallb (Z.eqb 0) l = true <-> be_val 256 l = 0).
Proof.
  induction 1 as [|x l Hx Hl IH]; [done|]. cbn [forallb]. rewrite andb_true_iff, IH, be_val_cons by lia.
  pose proof (be_val_range 256 ltac:(lia) l Hl).
  assert (0 < 256 ^ lenZ l) by (apply Z.pow_pos_nonneg; [lia|apply lenZ_nonneg]). rewrite Z.eqb_eq. nia.
Qed.

(** [CKey::Check] accepts a 32-byte buffer exactly when the number it holds, most
    significant byte first, is a secret key of secp256k1: between 1 and the group order less 1. *)
Theorem Check_range vch :
  is_bytes vch -> length vch = 32%nat -> (CKey.Check vch = true <-> 1 <= be_val 256 vch < order).
Proof.
  intros Hb Hlen. unfold CKey.Check. rewrite take_ge by lia.
  pose proof (be_val_range 256 ltac:(lia) vch Hb) as Hr. pose proof (all_zero vch Hb) as Hz.
  destruct (forallb _ vch).
  - destruct Hz as [Hz _]. specialize (Hz eq_refl). split; [done|lia].
  - rewrite below_max_val; [|done|by apply (bool_decide_unpack _); vm_compute|by rewrite Hlen].
    change (be_val 256 CKey.vchMax) with (order - 1).
    assert (be_val 256 vch <> 0) by (intros E; by apply Hz in E). lia.
Qed.

Lemma Check_range_witness :
  CKey.Check (replicate 31 0 ++ [1]) = true /\ CKey.Check (be_digits 256 32 order) = false.
Proof.
  assert (Hb : is_bytes (replicate 31 0 ++ [1])) by (apply (bool_decide_unpack _); vm_compute; exact I).
  assert (Ho : is_bytes (be_digits 256 32 order)) by (apply (be_digits_ok 256); lia).
  split.
  - apply (Check_range _ Hb eq_refl). vm_compute. split; [discriminate|reflexivity].
  - apply not_true_is_false. intros Hc. apply (Check_range _ Ho eq_refl) in Hc as [_ Hc].
    vm_compute in Hc. discriminate.
Defined.

(** ** Public keys *)

Lemma memcmp_val l k :
  digits_ok 256 l -> digits_ok 256 k -> length l = length k ->
  memcmp l k = (be_val 256 l ?= be_val 256 k).
Proof.
  intros Hl. revert k. induction Hl as [|x l Hx Hl IH]; intros [|y k] Hk Hlen; try done.
  apply Forall_cons in Hk as [Hy Hk]. injection Hlen as Hlen. cbn [memcmp].
  rewrite IH, !be_val_cons by (done || lia).
  pose proof (be_val_range 256 ltac:(lia) l Hl). pose proof (be_val_range 256 ltac:(lia) k Hk).
  assert (Hlk : lenZ l = lenZ k) by (unfold lenZ; lia). rewrite Hlk in *.
  destruct (Z.compare_spec x y) as [->|Hlt|Hgt]; symmetry.
  - apply Z.add_compare_mono_l.
  - apply Z.compare_lt_iff. nia.
  - apply Z.compare_gt_iff. nia.
Qed.

(** The buffer of every [CPubKey]. *)
Definition pub_ok (p : CPubKey) : Prop := is_bytes (pub_vch p) /\ length (pub_vch p) = 65%nat.

Lemma GetLen_cases c : CPubKey.GetLen c = 0 \/ CPubKey.GetLen c = 33 \/ CPubKey.GetLen c = 65.
Proof. unfold CPubKey.GetLen. destruct (_ || _); [tauto|]. destruct (_ || _); tauto. Qed.

Lemma data_ok p : pub_ok p ->
  digits_ok 256 (CPubKey.data p) /\ lenZ (CPubKey.data p) = CPubKey.size p.
Proof.
  intros [Hb Hl]. unfold CPubKey.data. split; [by apply Forall_take|].
  pose proof (GetLen_cases (pub_vch p).[0]). unfold CPubKey.size, lenZ. rewrite length_take. lia.
Qed.

Lemma cmp_data_val p q : pub_ok p -> pub_ok q -> CPubKey.at_ p 0 = CPubKey.at_ q 0 ->
  CPubKey.cmp_data p q = (be_val 256 (CPubKey.data p) ?= be_val 256 (CPubKey.data q)).
Proof.
  intros Hp Hq Hat. unfold CPubKey.cmp_data.
  assert (Hs : CPubKey.size p = CPubKey.size q) by (unfold CPubKey.size, CPubKey.at_ in *; by rewrite Hat).
  rewrite Hs at 2. fold (CPubKey.data p) (CPubKey.data q).
  destruct (data_ok p Hp) as [Dp Lp], (data_ok q Hq) as [Dq Lq].
  apply memcmp_val; [done|done|]. unfold lenZ in *. lia.
Qed.

Lemma Invalidate_ok p : pub_ok p -> pub_ok (CPubKey.Invalidate p).
Proof.
  intros [Hb Hl]. split; cbn; [|by rewrite length_insert]. apply Forall_insert; [done|]. unfold in_u. lia.
Qed.

Lemma Set_ok p s : pub_ok p -> is_bytes s -> pub_ok (CPubKey.Set_ p s).
Proof.
  intros Hp Hs. unfold CPubKey.Set_. destruct (negb _ && _) eqn:Hc; [|by apply Invalidate_ok].
  apply andb_true_iff in Hc as [Hn Hl%Z.eqb_eq]. destruct Hp as [Hb Hlen]. split; cbn.
  - apply is_bytes_app. split; [done|by apply Forall_drop].
  - rewrite length_app, length_drop, Hlen. destruct s as [|c s]; [done|].
    pose proof (GetLen_cases c). unfold lenZ in Hl. lia.
Qed.

(** The texts [Set] takes: a length that fits the first byte. *)
Definition pub_wf (s : bytes) : Prop := exists c r, s = c :: r /\ CPubKey.GetLen c = lenZ s.

Lemma Set_data p s :
  pub_ok p -> is_bytes s ->
  (CPubKey.IsValid (CPubKey.Set_ p s) = true <-> pub_wf s) /\
  (pub_wf s -> CPubKey.data (CPubKey.Set_ p s) = s).
Proof.
  intros [Hb Hlen] Hs. unfold CPubKey.Set_, pub_wf.
  destruct s as [|c r]; cbn iota.
  { cbn [Z.eqb negb andb]. split; [|by intros (? & ? & ? & _)]. split; [|by intros (? & ? & ? & _)].
    unfold CPubKey.IsValid, CPubKey.size, CPubKey.Invalidate. cbn [pub_vch]. by destruct (pub_vch p). }
  destruct (negb _ && _) eqn:Hc.
  - apply andb_true_iff in Hc as [Hn Hl%Z.eqb_eq]. unfold CPubKey.IsValid, CPubKey.data, CPubKey.size. cbn [pub_vch app].
    rewrite nthZ_0, Hl. pose proof (lenZ_nonneg r). split.
    + split; [by eexists _, _|]. intros _. rewrite lenZ_cons. lia.
    + intros _. unfold lenZ. rewrite Nat2Z.id. apply (take_app_length (c :: r)).
  - assert (Hno : ~ exists c' r', c :: r = c' :: r' /\ CPubKey.GetLen c' = lenZ (c :: r)).
    { intros (? & ? & [= <- <-] & Hl). rewrite Hl in Hc. pose proof (lenZ_nonneg r). rewrite lenZ_cons in Hc. lia. }
    split; [|by intros ?]. split; [|by intros ?].
    unfold CPubKey.IsValid, CPubKey.size, CPubKey.Invalidate. cbn [pub_vch]. by destruct (pub_vch p).
Qed.

Lemma and_iff_l (P Q R : Prop) : (P -> (Q <-> R)) -> (P /\ Q <-> P /\ R).
Proof. tauto. Qed.

Lemma data_inj p q : pub_ok p -> pub_ok q -> CPubKey.at_ p 0 = CPubKey.at_ q 0 ->
  be_val 256 (CPubKey.data p) = be_val 256 (CPubKey.data q) -> CPubKey.data p = CPubKey.data q.
Proof.
  intros Hp Hq Hat. destruct (data_ok p Hp) as [Dp Lp], (data_ok q Hq) as [Dq Lq].
  assert (CPubKey.size p = CPubKey.size q) by (unfold CPubKey.size, CPubKey.at_ in *; by rewrite Hat).
  apply be_val_inj; [lia|done|done|]. unfold lenZ in *. lia.
Qed.

Lemma pub_eqb p q : pub_ok p -> pub_ok q ->
  (CPubKey.eqb p q = true <-> CPubKey.at_ p 0 = CPubKey.at_ q 0 /\ CPubKey.data p = CPubKey.data q).
Proof.
  intros Hp Hq. unfold CPubKey.eqb. rewrite andb_true_iff, Z.eqb_eq. apply and_iff_l. intros Hat.
  rewrite cmp_data_val by done. pose proof (data_inj p q Hp Hq Hat) as Hi.
  destruct (Z.compare_spec (be_val 256 (CPubKey.data p)) (be_val 256 (CPubKey.data q))) as [E|E|E]; split; try done.
  - intros _. by apply Hi.
  - intros E'. rewrite E' in E. lia.
  - intros E'. rewrite E' in E. lia.
Qed.

Lemma pub_ltb p q : pub_ok p -> pub_ok q ->
  (CPubKey.ltb p q = true <-> CPubKey.at_ p 0 < CPubKey.at_ q 0 \/
     CPubKey.at_ p 0 = CPubKey.at_ q 0 /\ be_val 256 (CPubKey.data p) < be_val 256 (CPubKey.data q)).
Proof.
  intros Hp Hq. unfold CPubKey.ltb. rewrite orb_true_iff, andb_true_iff, Z.eqb_eq, Z.ltb_lt.
  apply or_iff_compat_l, and_iff_l. intros Hat. rewrite cmp_data_val by done.
  destruct (Z.compare_spec (be_val 256 (CPubKey.data p)) (be_val 256 (CPubKey.data q))); split; try done; lia.
Qed.

(** [Set] keeps exactly the byte strings whose length fits their first byte, and makes
    the key invalid otherwise; [==] is equality of the stored bytes and [<] a strict total
    order of them, first by the first byte. *)
Theorem CPubKey_spec p q s :
  pub_ok p -> pub_ok q -> is_bytes s ->
  (CPubKey.IsValid (CPubKey.Set_ p s) = true <-> pub_wf s) /\
  (pub_wf s -> CPubKey.data (CPubKey.Set_ p s) = s) /\
  pub_ok (CPubKey.Set_ p s) /\
  (CPubKey.eqb p q = true <-> CPubKey.at_ p 0 = CPubKey.at_ q 0 /\ CPubKey.data p = CPubKey.data q) /\
  (CPubKey.ltb p q = true <-> CPubKey.at_ p 0 < CPubKey.at_ q 0 \/
     CPubKey.at_ p 0 = CPubKey.at_ q 0 /\ be_val 256 (CPubKey.data p) < be_val 256 (CPubKey.data q)) /\
  (CPubKey.ltb p q = true \/ CPubKey.eqb p q = true \/ CPubKey.ltb q p = true).
Proof.
  intros Hp Hq Hs. destruct (Set_data p s Hp Hs) as [S1 S2].
  split_and!; [done|done|by apply Set_ok|by apply pub_eqb|by apply pub_ltb|].
  rewrite !pub_ltb, pub_eqb by done. pose proof (data_inj p q Hp Hq) as Hi.
  destruct (Z.lt_trichotomy (CPubKey.at_ p 0) (CPubKey.at_ q 0)) as [|[Hat|]]; [tauto| |tauto].
  destruct (Z.lt_trichotomy (be_val 256 (CPubKey.data p)) (be_val 256 (CPubKey.data q))) as [|[Hv|]]; auto.
Qed.

Definition pub_a : CPubKey := mkPub (2 :: replicate 64 1).
Definition pub_b : CPubKey := mkPub (2 :: replicate 64 3).

Lemma CPubKey_spec_witness :
  CPubKey.IsValid (CPubKey.Set_ pub_a (3 :: replicate 32 7)) = true /\ CPubKey.ltb pub_a pub_b = true.
Proof.
  assert (Hok : forall p, bool_decide (is_bytes (pub_vch p)) = true -> length (pub_vch p) = 65%nat -> pub_ok p).
  { intros p Hb Hl. split; [by apply bool_decide_eq_true in Hb|done]. }
  destruct (CPubKey_spec pub_a pub_b (3 :: replicate 32 7)) as (H1 & _ & _ & _ & H5 & _).
  - apply Hok; reflexivity.
  - apply Hok; reflexivity.
  - apply (bool_decide_unpack _). vm_compute. exact I.
  - split.
    + apply H1. exists 3, (replicate 32 7). split; reflexivity.
    + apply H5. right. split; vm_compute; reflexivity.
Defined.

(** ** Compact signatures *)

Section Curve.
Context `{Curve}.

Lemma header_fields rec (c : bool) :
  0 <= rec < 4 ->
  let h := u8 (27 + rec + (if c then 4 else 0)) in
  Compact.rec_of h = rec /\ Compact.compressed_of h = c.
Proof.
  intros Hr. assert (Hcase : rec = 0 \/ rec = 1 \/ rec = 2 \/ rec = 3) by lia.
  by destruct Hcase as [->|[->|[->| ->]]], c.
Qed.

(** A compact signature carries the recovery number and the compression flag of its
    key in the header byte.  [RecoverCompact] recovers the key from it for the numbers 0 to 2;
    a signature with the number 3, which signing can produce, is always refused. *)
Theorem RecoverCompact_signed k hash p64 rec :
  fValid k = true -> ec_sign (key_vch k) hash = Some (p64, rec) -> 0 <= rec < 4 -> length p64 = 64%nat ->
  exists sig, Compact.SignCompact k hash = Some sig /\
    Compact.RecoverCompact hash sig =
      if rec =? 3 then None
      else (fun pt => ec_point pt (fCompressed k)) <$> ec_recover hash p64 rec.
Proof.
  intros Hv Hs Hr Hl. unfold Compact.SignCompact. rewrite Hv, Hs. cbn [negb mbind option_bind].
  eexists. split; [done|]. unfold Compact.RecoverCompact.
  replace (lenZ (_ :: p64)) with 65 by (rewrite lenZ_cons; unfold lenZ; lia). cbn [Z.eqb Pos.eqb negb].
  destruct (header_fields rec (fCompressed k) Hr) as [-> ->]. unfold Compact.Recover.
  destruct (Z.eqb_spec rec 3) as [->|Hn]; [done|].
  destruct (Z.ltb_spec rec 0), (Z.leb_spec 3 rec); try lia. cbn [orb].
  by destruct (ec_recover hash p64 rec).
Qed.
End Curve.

(** A curve that signs with recovery number 3. *)
#[local] Instance curve3 : Curve :=
  {| ec_sign _ _ := Some (replicate 64 1, 3); ec_recover _ _ _ := Some [2]; ec_point s _ := mkPub s |}.

Lemma RecoverCompact_signed_witness :
  exists sig, Compact.SignCompact (mkKey true true (replicate 32 1)) 5 = Some sig /\
    Compact.RecoverCompact 5 sig = None.
Proof.
  apply (RecoverCompact_signed (mkKey true true (replicate 32 1)) 5 (replicate 64 1) 3); (reflexivity || lia).
Defined.
