(* ===== verification/Util.v ===== *)
(** Texts, amounts of money and the clock: src/util.cpp, [ParseString], [FormatMoney],
    [ParseMoney], [IsHex], [ParseHex], [WildcardMatch], [GetAdjustedTime], [AddTimeData],
    [FormatVersion] and [FormatSubVersion].

    util.h is not in the tree.  Parameters: the constants [COIN] and [CENT] and [atoi64] (class
    [Money]), the filter [CMedianFilter] with a window of 200 (class [MedianFilter]).  A [char*]
    is the list of its characters, its end is the NUL. *)

From S2P Require Import Prelude Digits NetAddr.

(** ** Splitting *)

(** The parts between the separators; [acc] is the part read so far. *)
Fixpoint split_at (c : Z) (acc : bytes) (str : bytes) : list bytes :=
  match str with
  | [] => [acc]
  | x :: r => if x =? c then acc :: split_at c [] r else split_at c (acc ++ [x]) r
  end.

Definition ParseString (str : bytes) (c : Z) (v : list bytes) : list bytes :=
  match str with [] => v | _ => v ++ split_at c [] str end.

(** ** Money *)

Class Money := {
  COIN : Z;
  CENT : Z;
  atoi64 : bytes -> Z;
  COIN_value : COIN = 100000000;
  CENT_value : CENT = 1000000;
  atoi64_digits ds : digits_ok 10 ds -> lenZ ds <= 18 -> atoi64 ((fun d => 48 + d) <$> ds) = be_val 10 ds;
}.

Fixpoint drop_zeros (ds : list Z) : list Z :=
  match ds with
  | d :: r => match r with [] => ds | _ => if d =? 0 then drop_zeros r else ds end
  | [] => []
  end.

(** [%d] of a number that is not negative, below 10^20, and [%08d]. *)
Definition decimal (n : Z) : bytes := (fun d => 48 + d) <$> drop_zeros (be_digits 10 20 n).
Definition decimal8 (n : Z) : bytes := (fun d => 48 + d) <$> be_digits 10 8 n.

(** The loop over [i], on the text backwards: a 0 goes while the character two before it is a digit. *)
Fixpoint trim_zeros (r : bytes) : bytes :=
  match r with
  | x :: r' => if (x =? 48) && match r' with _ :: y :: _ => isdigit y | _ => false end then trim_zeros r' else r
  | [] => []
  end.

Section Money.
Context `{Money}.

Definition FormatMoney (n : Z) (fPlus : bool) : bytes :=
  let n_abs := if 0 <? n then n else s64 (- n) in
  let quotient := Z.quot n_abs COIN in
  let remainder := Z.rem n_abs COIN in
  let str := decimal quotient ++ [46] ++ decimal8 remainder in
  let str := rev (trim_zeros (rev str)) in
  if n <? 0 then 45 :: str else if fPlus && (0 <? n) then 43 :: str else str.

Fixpoint skip_space (p : bytes) : bytes :=
  match p with c :: r => if isspace c then skip_space r else p | [] => [] end.

(** Behind the point. *)
Fixpoint parse_units (p : bytes) (nMult nUnits : Z) : Z * bytes :=
  match p with
  | c :: r => if isdigit c && (0 <? nMult) then parse_units r (Z.quot nMult 10) (nUnits + nMult * (c - 48)) else (nUnits, p)
  | [] => (nUnits, [])
  end.

(** Up to the point: the digits, the units and the rest of the text; [None]: return false. *)
Fixpoint parse_whole (p : bytes) (strWhole : bytes) : option (bytes * Z * bytes) :=
  match p with
  | [] => Some (strWhole, 0, [])
  | c :: r =>
    if c =? 46 then let '(nUnits, rest) := parse_units r (CENT * 10) 0 in Some (strWhole, nUnits, rest)
    else if isspace c then Some (strWhole, 0, p)
    else if negb (isdigit c) then None
    else parse_whole r (strWhole ++ [c])
  end.

Definition ParseMoney (pszIn : bytes) : option Z :=
  '(strWhole, nUnits, rest) ← parse_whole (skip_space pszIn) [];
  if negb (forallb isspace rest) then None
  else if 10 <? lenZ strWhole then None
  else if (nUnits <? 0) || (COIN <? nUnits) then None
  else Some (s64 (s64 (atoi64 strWhole * COIN) + nUnits)).

End Money.

(** ** Hexadecimal *)

(** The table, row by row. *)
Definition phexdigit : list Z :=
  repeat (-1) 48 ++ [0;1;2;3;4;5;6;7;8;9] ++ repeat (-1) 6 ++
  [-1; 0xa; 0xb; 0xc; 0xd; 0xe; 0xf] ++ repeat (-1) 25 ++
  [-1; 0xa; 0xb; 0xc; 0xd; 0xe; 0xf] ++ repeat (-1) 153.

Definition IsHex (str : bytes) : bool :=
  forallb (fun c => negb (phexdigit.[c] <? 0)) str && (0 <? lenZ str) && (lenZ str mod 2 =? 0).

(** One round per pair of digits; the NUL at the end has no digit. *)
Fixpoint ParseHex_loop (fuel : nat) (psz vch : bytes) : bytes :=
  match fuel with
  | O => vch
  | S fuel' =>
    match skip_space psz with
    | c1 :: c2 :: r =>
      if phexdigit.[c1] =? -1 then vch
      else if phexdigit.[c2] =? -1 then vch
      else ParseHex_loop fuel' r (vch ++ [Z.lor (u8 (Z.shiftl phexdigit.[c1] 4)) phexdigit.[c2]])
    | _ => vch
    end
  end.

(** Every round but the last consumes two characters. *)
Definition ParseHex (psz : bytes) : bytes := ParseHex_loop (S (length psz)) psz [].

(** ** Wildcards *)

(** [mask] is consumed in every round but those of the star. *)
Fixpoint WildcardMatch (psz mask : bytes) {struct mask} : bool :=
  match mask with
  | [] => match psz with [] => true | _ => false end
  | m :: mask' =>
    if m =? 42 then
      (fix star psz := WildcardMatch psz mask' || match psz with [] => false | _ :: psz' => star psz' end) psz
    else match psz with
         | [] => false
         | c :: psz' => if (m =? 63) || (c =? m) then WildcardMatch psz' mask' else false
         end
  end.

(** ** The clock *)

Class MedianFilter := {
  Filter : Type;
  input : Z -> Filter -> Filter;
  size : Filter -> Z;
  median : Filter -> Z;
  sorted_values : Filter -> list Z;
  size_input x f : size (input x f) = Z.min 200 (size f + 1);
}.

Section Time.
Context `{MedianFilter}.

Record TimeData := mkTimeData {
  setKnown : gset CNetAddr; vTimeOffsets : Filter; nTimeOffset : Z; fDone : bool }.

Definition GetAdjustedTime (now : Z) (s : TimeData) : Z := s64 (now + nTimeOffset s).

(** [fDone] is set with the warning to the user. *)
Definition AddTimeData (now : Z) (ip : CNetAddr) (nTime : Z) (s : TimeData) : TimeData :=
  let nOffsetSample := s64 (nTime - now) in
  if bool_decide (ip ∈ setKnown s) then s
  else
    let f := input nOffsetSample (vTimeOffsets s) in
    let s := mkTimeData ({[ip]} ∪ setKnown s) f (nTimeOffset s) (fDone s) in
    if (5 <=? size f) && (size f mod 2 =? 1) then
      let nMedian := median f in
      if Z.abs nMedian <? 70 * 60 then mkTimeData (setKnown s) f nMedian (fDone s)
      else
        let fMatch := existsb (fun nOffset => negb (nOffset =? 0) && (Z.abs nOffset <? 5 * 60)) (sorted_values f) in
        mkTimeData (setKnown s) f 0 (fDone s || negb fMatch)
    else s.

End Time.

(** ** Versions *)

Definition FormatVersion (nVersion : Z) : bytes :=
  let part n := decimal (Z.rem n 100) in
  decimal (Z.quot nVersion 1000000) ++ [46] ++ part (Z.quot nVersion 10000) ++ [46] ++ part (Z.quot nVersion 100)
  ++ if Z.rem nVersion 100 =? 0 then [] else [46] ++ part nVersion.

(** [boost::algorithm::join]. *)
Fixpoint join (sep : bytes) (l : list bytes) : bytes :=
  match l with [] => [] | [x] => x | x :: r => x ++ sep ++ join sep r end.

Definition FormatSubVersion (name : bytes) (nClientVersion : Z) (comments : list bytes) : bytes :=
  lit "/" ++ name ++ lit ":" ++ FormatVersion nClientVersion
  ++ (match comments with [] => [] | _ => lit "(" ++ join (lit "; ") comments ++ lit ")" end) ++ lit "/".

Example versions : FormatSubVersion (lit "Satoshi") 80100 [lit "a"; lit "b"] = lit "/Satoshi:0.8.1(a; b)/" /\ FormatVersion 80101 = lit "0.8.1.1".
Proof. by vm_compute. Qed.
