(* ===== verification/Alert.v ===== *)
(** Alerts (src/alert.h, src/alert.cpp): signed texts for the users of old versions.

    [CUnsignedAlert], [CAlert] and their members; the global [mapAlerts] is a list sorted by the
    hash, as [std::map] walks it; the notifications of the user interface and the commands run for
    [-alertnotify] are recorded in order.  [ProcessAlert] runs in the monad [X]: reading a message
    that is too short throws.  Its result is [None] for [false]; for [true] it is the alert, whose
    fields [CheckSignature] has read from the signed message (it casts [const] away).

    Parameters (class [AlertEnv]): the hash and the signature check below [CPubKey::Verify], the
    stream operators of serialize.h, PROTOCOL_VERSION and CLIENT_VERSION of version.h, [fTestNet]
    and the argument [-alertnotify].  [now] is [GetAdjustedTime()], one reading per call.  Locks
    and the printed texts are left out. *)

From S2P Require Import Prelude Monad Core Digits Key Util.

Definition maxInt : Z := 2 ^ 31 - 1.

Record CUnsignedAlert := mkUnsigned {
  nVersion : Z; nRelayUntil : Z; nExpiration : Z; nID : Z; nCancel : Z; setCancel : list Z;
  nMinVer : Z; nMaxVer : Z; setSubVer : list bytes; nPriority : Z;
  strComment : bytes; strStatusBar : bytes; strReserved : bytes }.

Record CAlert := mkAlert { unsigned :> CUnsignedAlert; vchMsg : bytes; vchSig : bytes }.

#[global] Instance CUnsignedAlert_eq_dec : EqDecision CUnsignedAlert.
Proof. solve_decision. Defined.
#[global] Instance CAlert_eq_dec : EqDecision CAlert.
Proof. solve_decision. Defined.

Inductive ChangeType := CT_NEW | CT_DELETED.

Record AlertState := mkAlerts {
  mapAlerts : list (uint256 * CAlert);
  notified : list (uint256 * ChangeType);
  commands : list bytes }.

Class AlertEnv := {
  HashMsg : bytes -> uint256;
  ECDSA_verify : bytes -> uint256 -> bytes -> bool;    (* of a public key that parses *)
  rd_i32 : bytes -> option (Z * bytes);
  rd_i64 : bytes -> option (Z * bytes);
  rd_ints : bytes -> option (list Z * bytes);          (* std::set<int> *)
  rd_str : bytes -> option (bytes * bytes);
  rd_strs : bytes -> option (list bytes * bytes);      (* std::set<std::string> *)
  wr_i32 : Z -> bytes;
  wr_i64 : Z -> bytes;
  wr_ints : list Z -> bytes;
  wr_str : bytes -> bytes;
  wr_strs : list bytes -> bytes;
  PROTOCOL_VERSION : Z;
  CLIENT_VERSION : Z;
  fTestNet : bool;
  alertnotify : bytes;
  rd_i32_range b n r : rd_i32 b = Some (n, r) -> in_s 32 n;
  rd_i64_range b n r : rd_i64 b = Some (n, r) -> in_s 64 n;
  rd_ints_range b l r : rd_ints b = Some (l, r) -> Forall (in_s 32) l;
}.

Definition pszMainKey : bytes := lit "04fc9702847840aaf195de8442ebecedf5b095cdbb9bc716bda9110971b28a49e0ead8564ff0db22209e0374782c093bb899692d524e9d6a6956e7c5ecbcd68284".
Definition pszTestKey : bytes := lit "04302390343f91cc401d56d68b123028bf52e5fca1939df127f63c6467cdf9c8e2c14b61104cf817d0b780da337893ecc4aaff1309e536162dabbdb45200ca2b0a".

(** version.cpp. *)
Definition CLIENT_NAME : bytes := lit "Satoshi".

(** [boost::replace_all(s, "%s", by)]. *)
Fixpoint replace_all (s by_ : bytes) : bytes :=
  match s with
  | [] => []
  | c :: r =>
    match r with
    | d :: r' => if (c =? 37) && (d =? 115) then by_ ++ replace_all r' by_ else c :: replace_all r by_
    | [] => [c]
    end
  end.

Definition safeChars : bytes :=
  lit "abcdefghijklmnopqrstuvwxyzABCDEFGHIJKLMNOPQRSTUVWXYZ01234567890 .,;_/:?@".
Definition is_safe (c : Z) : bool := existsb (Z.eqb c) safeChars.

Module CUnsignedAlert.
Section Env.
Context `{AlertEnv}.

Definition SetNull : CUnsignedAlert := mkUnsigned 1 0 0 0 0 [] 0 0 [] 0 [] [] [].

(** [IMPLEMENT_SERIALIZE], writing and reading. *)
Definition Serialize (a : CUnsignedAlert) : bytes :=
  wr_i32 (nVersion a) ++ wr_i64 (nRelayUntil a) ++ wr_i64 (nExpiration a) ++ wr_i32 (nID a) ++
  wr_i32 (nCancel a) ++ wr_ints (setCancel a) ++ wr_i32 (nMinVer a) ++ wr_i32 (nMaxVer a) ++
  wr_strs (setSubVer a) ++ wr_i32 (nPriority a) ++
  wr_str (strComment a) ++ wr_str (strStatusBar a) ++ wr_str (strReserved a).

Definition Unserialize (s : bytes) : option (CUnsignedAlert * bytes) :=
  '(version, s) ← rd_i32 s; '(relay, s) ← rd_i64 s; '(expiration, s) ← rd_i64 s; '(id, s) ← rd_i32 s;
  '(cancel, s) ← rd_i32 s; '(setcancel, s) ← rd_ints s; '(minver, s) ← rd_i32 s; '(maxver, s) ← rd_i32 s;
  '(subver, s) ← rd_strs s; '(priority, s) ← rd_i32 s;
  '(comment, s) ← rd_str s; '(status, s) ← rd_str s; '(reserved, s) ← rd_str s;
  Some (mkUnsigned version relay expiration id cancel setcancel minver maxver subver priority
          comment status reserved, s).

End Env.
End CUnsignedAlert.

Module CAlert.
Section Env.
Context `{AlertEnv}.

Definition SetNull : CAlert := mkAlert CUnsignedAlert.SetNull [] [].

Definition IsNull (a : CAlert) : bool := nExpiration a =? 0.

Definition GetHash (a : CAlert) : uint256 := HashMsg (vchMsg a).

Definition Serialize (a : CAlert) : bytes := wr_str (vchMsg a) ++ wr_str (vchSig a).

(** [>>] on a [CAlert] that is null: the constructor has run. *)
Definition Unserialize (s : bytes) : option (CAlert * bytes) :=
  '(msg, s) ← rd_str s; '(sig, s) ← rd_str s; Some (mkAlert CUnsignedAlert.SetNull msg sig, s).

Definition IsInEffect (now : Z) (a : CAlert) : bool := now <? nExpiration a.

(** The part of [Cancels] that does not depend on the clock. *)
Definition covers (a b : CUnsignedAlert) : bool :=
  (nID b <=? nCancel a) || existsb (Z.eqb (nID b)) (setCancel a).

Definition Cancels (now : Z) (this alert : CAlert) : bool :=
  if negb (IsInEffect now this) then false else covers this alert.

Definition AppliesTo (now : Z) (a : CAlert) (version : Z) (strSubVerIn : bytes) : bool :=
  IsInEffect now a && (nMinVer a <=? version) && (version <=? nMaxVer a) &&
  (match setSubVer a with [] => true | _ => bool_decide (strSubVerIn ∈ setSubVer a) end).

Definition AppliesToMe (now : Z) (a : CAlert) : bool :=
  AppliesTo now a PROTOCOL_VERSION (FormatSubVersion CLIENT_NAME CLIENT_VERSION []).

(** Of the node: its version, its sub-version and [setKnown].  The result says whether the alert is
    pushed to it. *)
Definition RelayTo (now : Z) (a : CAlert) (version : Z) (strSubVer : bytes) (setKnown : gset uint256) :
    bool * gset uint256 :=
  if negb (IsInEffect now a) then (false, setKnown)
  else if bool_decide (GetHash a ∈ setKnown) then (false, setKnown)
  else (AppliesTo now a version strSubVer || AppliesToMe now a || (now <? nRelayUntil a),
        {[GetHash a]} ∪ setKnown).

(** The bytes of a [CPubKey] without a value are those of [raw]. *)
Definition AlertKey (raw : bytes) : CPubKey :=
  CPubKey.of_bytes raw (ParseHex (if fTestNet then pszTestKey else pszMainKey)).

(** [CPubKey::Verify] (key.cpp). *)
Definition Verify (key : CPubKey) (hash : uint256) (sig : bytes) : bool :=
  if negb (CPubKey.IsValid key) then false else ECDSA_verify (CPubKey.data key) hash sig.

Definition CheckSignature (a : CAlert) : X AlertState (option CAlert) :=
  if negb (Verify (AlertKey (replicate 65 0)) (HashMsg (vchMsg a)) (vchSig a)) then X.ret None
  else match CUnsignedAlert.Unserialize (vchMsg a) with
       | None => X.throw
       | Some (u, _) => X.ret (Some (mkAlert u (vchMsg a) (vchSig a)))
       end.

Definition getAlertByHash (hash : uint256) (s : AlertState) : CAlert :=
  match list_find (fun p => p.1 = hash) (mapAlerts s) with
  | Some (_, (_, a)) => a
  | None => SetNull
  end.

(** The guard for [nID == maxInt]. *)
Definition final_ok (a : CUnsignedAlert) : bool :=
  (nExpiration a =? maxInt) && (nCancel a =? maxInt - 1) && (nMinVer a =? 0) && (nMaxVer a =? maxInt) &&
  (match setSubVer a with [] => true | _ => false end) && (nPriority a =? maxInt) &&
  bool_decide (strStatusBar a = lit "URGENT: Alert key compromised, upgrade required").

Definition set_map (m : list (uint256 * CAlert)) (s : AlertState) : AlertState :=
  mkAlerts m (notified s) (commands s).
Definition notify (h : uint256) (c : ChangeType) : X AlertState unit :=
  X.modify (fun s => mkAlerts (mapAlerts s) (notified s ++ [(h, c)]) (commands s)).
Definition runCommand (strCmd : bytes) : X AlertState unit :=
  X.modify (fun s => mkAlerts (mapAlerts s) (notified s) (commands s ++ [strCmd])).

(** The first loop over [mapAlerts]: what is left of it. *)
Fixpoint cancel_loop (now : Z) (a : CAlert) (m : list (uint256 * CAlert)) :
    X AlertState (list (uint256 * CAlert)) :=
  match m with
  | [] => X.ret []
  | (h, alert) :: r =>
    if Cancels now a alert then notify h CT_DELETED ;~ cancel_loop now a r
    else if negb (IsInEffect now alert) then notify h CT_DELETED ;~ cancel_loop now a r
    else rest <~ cancel_loop now a r ;; X.ret ((h, alert) :: rest)
  end.

(** [std::map::insert]: an entry under the same key stays. *)
Fixpoint map_insert (h : uint256) (a : CAlert) (m : list (uint256 * CAlert)) : list (uint256 * CAlert) :=
  match m with
  | [] => [(h, a)]
  | (k, b) :: r => if h <? k then (h, a) :: m else if h =? k then m else (k, b) :: map_insert h a r
  end.

Definition safeStatus (a : CUnsignedAlert) : bytes := [39] ++ filter is_safe (strStatusBar a) ++ [39].

Definition notify_me (now : Z) (a : CAlert) : X AlertState unit :=
  if AppliesToMe now a then
    notify (GetHash a) CT_NEW ;~
    match alertnotify with
    | [] => X.ret tt
    | strCmd => runCommand (replace_all strCmd (safeStatus a))
    end
  else X.ret tt.

Definition ProcessAlert (now : Z) (alert : CAlert) : X AlertState (option CAlert) :=
  checked <~ CheckSignature alert ;;
  match checked with
  | None => X.ret None
  | Some this =>
    if negb (IsInEffect now this) then X.ret None
    else if (nID this =? maxInt) && negb (final_ok this) then X.ret None
    else
      m <~ X.gets mapAlerts ;;
      rest <~ cancel_loop now this m ;;
      X.modify (set_map rest) ;~
      if existsb (fun p => Cancels now p.2 this) rest then X.ret None
      else
        X.modify (set_map (map_insert (GetHash this) this rest)) ;~
        notify_me now this ;~
        X.ret (Some this)
  end.

End Env.
End CAlert.
