(* ===== verification/AlertThms.v ===== *)
(** Theorems on alerts (Alert.v): the invariant of [mapAlerts], what one call of [ProcessAlert] does on
    every branch, the alert of a compromised key, the text given to the shell, the wire format. *)

From S2P Require Import Prelude Monad Core Digits Key Util Alert.

Section Env.
Context `{AlertEnv}.
Implicit Types (now : Z) (a b : CAlert) (m : list (uint256 * CAlert)) (s : AlertState).
Import CAlert.

(** ** One call *)

(** What the first loop keeps. *)
Definition keeps now a (p : uint256 * CAlert) : bool :=
  negb (Cancels now a p.2) && IsInEffect now p.2.

Definition deleted (l : list (uint256 * CAlert)) : list (uint256 * ChangeType) :=
  (fun p => (p.1, CT_DELETED)) <$> l.

Lemma cancel_loop_run now a m s :
  cancel_loop now a m s =
  (Done (filter (keeps now a) m),
   mkAlerts (mapAlerts s) (notified s ++ deleted (filter (fun p => negb (keeps now a p)) m)) (commands s)).
Proof.
  revert s. induction m as [|[h b] m IH]; intros s.
  - cbn. by rewrite app_nil_r; destruct s.
  - cbn [cancel_loop]. rewrite (filter_bool_cons (keeps now a)), (filter_bool_cons (fun p => negb (keeps now a p))).
    change (keeps now a (h, b)) with (negb (Cancels now a b) && IsInEffect now b).
    unfold X.bind, notify, X.modify.
    destruct (Cancels now a b), (IsInEffect now b); cbn [negb andb]; rewrite IH; cbn; rewrite <-?app_assoc; done.
Qed.

(** The alert that passes the checks before the map is looked at. *)
Definition checked now a : option CAlert :=
  if Verify (AlertKey (replicate 65 0)) (HashMsg (vchMsg a)) (vchSig a) then
    '(u, _) ← CUnsignedAlert.Unserialize (vchMsg a);
    let this := mkAlert u (vchMsg a) (vchSig a) in
    if IsInEffect now this && (negb (nID this =? maxInt) || final_ok this) then Some this else None
  else None.

Definition throws a : bool :=
  Verify (AlertKey (replicate 65 0)) (HashMsg (vchMsg a)) (vchSig a) &&
  match CUnsignedAlert.Unserialize (vchMsg a) with Some _ => false | None => true end.

(** The map without what the alert cancels and what has expired. *)
Definition left_over now a s : list (uint256 * CAlert) := filter (keeps now a) (mapAlerts s).
Definition swept now a s : AlertState :=
  mkAlerts (left_over now a s)
    (notified s ++ deleted (filter (fun p => negb (keeps now a p)) (mapAlerts s))) (commands s).
Definition overruled now a s : bool := existsb (fun p => Cancels now p.2 a) (left_over now a s).

Definition told now a s : AlertState :=
  if AppliesToMe now a then
    mkAlerts (mapAlerts s) (notified s ++ [(GetHash a, CT_NEW)])
      (match alertnotify with [] => commands s | c => commands s ++ [replace_all c (safeStatus a)] end)
  else s.

Lemma notify_me_run now a s : notify_me now a s = (Done tt, told now a s).
Proof.
  unfold notify_me, told. destruct (AppliesToMe now a); [|done].
  by destruct alertnotify.
Qed.

Lemma ProcessAlert_run now a s :
  ProcessAlert now a s =
  match checked now a with
  | None => if throws a then (Thrown, s) else (Done None, s)
  | Some this =>
    if overruled now this s then (Done None, swept now this s)
    else (Done (Some this),
          told now this (set_map (map_insert (GetHash this) this (left_over now this s)) (swept now this s)))
  end.
Proof.
  unfold ProcessAlert, checked, throws, CheckSignature.
  unfold X.bind at 1. destruct (Verify _ _ _); cbn [negb andb]; [|done].
  destruct (CUnsignedAlert.Unserialize (vchMsg a)) as [[u r]|]; cbn; [|done].
  set (this := mkAlert u (vchMsg a) (vchSig a)).
  destruct (IsInEffect now this) eqn:Ei; cbn; [|done].
  destruct (nID u =? maxInt) eqn:Em; cbn; [destruct (final_ok u) eqn:Ef; cbn; [|done]|].
  all: unfold X.bind at 1, X.gets; cbn; unfold X.bind at 1; rewrite cancel_loop_run;
    unfold X.bind at 1; cbn; fold (left_over now this s); fold (overruled now this s);
    destruct (overruled now this s); [done|];
    unfold X.bind; by rewrite notify_me_run.
Qed.

Lemma ProcessAlert_returns now a s : (ProcessAlert now a s).1 <> Stuck.
Proof.
  rewrite ProcessAlert_run. destruct (checked now a) as [this|]; [by destruct (overruled now this s)|by destruct (throws a)].
Qed.

Lemma checked_spec now a this :
  checked now a = Some this <->
  Verify (AlertKey (replicate 65 0)) (HashMsg (vchMsg a)) (vchSig a) = true /\
  (exists u r, CUnsignedAlert.Unserialize (vchMsg a) = Some (u, r) /\ this = mkAlert u (vchMsg a) (vchSig a)) /\
  IsInEffect now this = true /\ (nID this = maxInt -> final_ok this = true).
Proof.
  unfold checked. destruct (Verify _ _ _); [|split; [done|by intros (? & _)]].
  destruct (CUnsignedAlert.Unserialize (vchMsg a)) as [[u r]|]; cbn;
    [|split; [done|intros (_ & (u & r & [=] & _) & _)]].
  set (t := mkAlert u (vchMsg a) (vchSig a)).
  destruct (IsInEffect now t && _) eqn:Eb.
  - apply andb_prop in Eb as [Ei Ef]. split.
    + intros [= <-]. split_and!; [done|by exists u, r|done|]. intros Em. cbn in Em. by rewrite Em, Z.eqb_refl in Ef.
    + intros (_ & (u' & r' & [= <- <-] & ->) & _). done.
  - split; [done|]. intros (_ & (u' & r' & [= <- <-] & ->) & Ei & Ef). fold t in Ei, Ef. rewrite Ei in Eb. cbn in Eb, Ef.
    destruct (Z.eqb_spec (nID u) maxInt); [rewrite Ef in Eb by done|]; done.
Qed.

(** ** The invariant *)

(** The members keep to their machine types. *)
Definition typed (u : CUnsignedAlert) : Prop :=
  Forall (in_s 32) [nVersion u; nID u; nCancel u; nMinVer u; nMaxVer u; nPriority u] /\
  Forall (in_s 64) [nRelayUntil u; nExpiration u] /\ Forall (in_s 32) (setCancel u).

Lemma Unserialize_typed msg u r : CUnsignedAlert.Unserialize msg = Some (u, r) -> typed u.
Proof.
  unfold CUnsignedAlert.Unserialize, typed. intros E.
  repeat (apply bind_Some in E as ([? ?] & ?%symmetry & E); cbn in E).
  simplify_eq. repeat match goal with
  | E : Some _ = rd_i32 _ |- _ => symmetry in E; apply rd_i32_range in E
  | E : Some _ = rd_i64 _ |- _ => symmetry in E; apply rd_i64_range in E
  | E : Some _ = rd_ints _ |- _ => symmetry in E; apply rd_ints_range in E
  end.
  cbn. by rewrite !Forall_cons, !Forall_nil.
Qed.

Definition entry_ok (p : uint256 * CAlert) : Prop :=
  p.1 = GetHash p.2 /\
  Verify (AlertKey (replicate 65 0)) (HashMsg (vchMsg p.2)) (vchSig p.2) = true /\
  (exists r, CUnsignedAlert.Unserialize (vchMsg p.2) = Some (unsigned p.2, r)) /\ typed p.2 /\
  (nID p.2 = maxInt -> final_ok p.2 = true).

(** Sorted as [std::map] is; every entry signed, read from its message into its machine types and,
    with the reserved number, the prescribed one; no entry covers another. *)
Definition AlertsInv s : Prop :=
  StronglySorted Z.lt ((mapAlerts s).*1) /\
  Forall entry_ok (mapAlerts s) /\
  (forall p q : uint256 * CAlert, p ∈ mapAlerts s -> q ∈ mapAlerts s -> p.1 <> q.1 -> covers p.2 q.2 = false).

Definition no_alerts : AlertState := mkAlerts [] [] [].

Lemma AlertsInv_init : AlertsInv no_alerts.
Proof. split_and!; [constructor|constructor|]. intros p q Hp. by apply elem_of_nil in Hp. Qed.

Lemma filter_keys_sorted (f : uint256 * CAlert -> bool) m :
  StronglySorted Z.lt (m.*1) -> StronglySorted Z.lt ((filter f m).*1).
Proof.
  induction m as [|p m IH]; [done|]. intros Hs. apply StronglySorted_inv in Hs as [Hs Hp].
  rewrite filter_bool_cons. destruct (f p); [|by apply IH]. constructor; [by apply IH|].
  apply Forall_fmap, Forall_forall. intros q [_ Hq]%list_elem_of_filter.
  apply (proj1 (Forall_fmap _ _ _)) in Hp. rewrite Forall_forall in Hp. by apply Hp.
Qed.

Lemma elem_of_map_insert h a m p :
  p ∈ map_insert h a m -> p = (h, a) \/ p ∈ m.
Proof.
  induction m as [|[k b] m IH]; cbn [map_insert]; [by intros ->%list_elem_of_singleton; left|].
  destruct (h <? k); [by intros [->|Hp]%elem_of_cons; auto|].
  destruct (h =? k); [by auto|]. intros [->|Hp]%elem_of_cons; [right; left|].
  destruct (IH Hp); [by left|]. by right; right.
Qed.

Lemma map_insert_old h a m p : p ∈ m -> p ∈ map_insert h a m.
Proof.
  induction m as [|[k b] m IH]; cbn [map_insert]; [by intros ?%elem_of_nil|].
  intros Hp. destruct (h <? k); [by right|]. destruct (h =? k); [done|].
  apply elem_of_cons in Hp as [->|Hp]; [left|right; auto].
Qed.

Lemma map_insert_new h a m : exists b, (h, b) ∈ map_insert h a m /\ (b = a \/ (h, b) ∈ m).
Proof.
  induction m as [|[k b] m IH]; cbn [map_insert]; [exists a; split; [left|by left]|].
  destruct (h <? k); [exists a; split; [left|by left]|].
  destruct (Z.eqb_spec h k) as [->|]; [exists b; split; [left|right; left]|].
  destruct IH as (c & Hc & Hd). exists c. split; [by right|]. destruct Hd; [by left|by right; right].
Qed.

Lemma map_insert_keys h a m x : x ∈ (map_insert h a m).*1 -> x = h \/ x ∈ m.*1.
Proof.
  intros (p & -> & Hp)%list_elem_of_fmap.
  apply elem_of_map_insert in Hp as [->|Hp]; [by left|right]. apply list_elem_of_fmap. eauto.
Qed.

Lemma map_insert_sorted h a m : StronglySorted Z.lt (m.*1) -> StronglySorted Z.lt ((map_insert h a m).*1).
Proof.
  induction m as [|[k b] m IH]; cbn [map_insert]; [intros; repeat constructor|].
  intros Hs. pose proof Hs as Hs'. rewrite fmap_cons in Hs'. apply StronglySorted_inv in Hs' as [Hm Hk]. cbn in Hk.
  destruct (Z.ltb_spec h k).
  - constructor; [done|]. constructor; [done|]. eapply Forall_impl; [exact Hk|]. cbn. lia.
  - destruct (Z.eqb_spec h k); [done|]. constructor; [by apply IH|].
    apply Forall_forall. intros x Hx%map_insert_keys. rewrite Forall_forall in Hk.
    destruct Hx as [->|Hx]; [cbn; lia|by apply Hk].
Qed.

Lemma elem_of_left_over now a s (p : uint256 * CAlert) :
  p ∈ left_over now a s <-> keeps now a p = true /\ p ∈ mapAlerts s.
Proof. unfold left_over. rewrite list_elem_of_filter. by rewrite Is_true_true. Qed.

Lemma swept_inv now a s : AlertsInv s -> AlertsInv (swept now a s).
Proof.
  intros (Hs & He & Hc). split_and!; cbn [mapAlerts swept].
  - by apply filter_keys_sorted.
  - unfold left_over. apply Forall_forall. intros p [_ Hp]%list_elem_of_filter. rewrite Forall_forall in He. by apply He.
  - intros p q [_ Hp]%elem_of_left_over [_ Hq]%elem_of_left_over. by apply Hc.
Qed.

Lemma checked_entry now a this : checked now a = Some this -> entry_ok (GetHash this, this).
Proof.
  intros (Hv & (u & r & Hu & ->) & _ & Hf)%checked_spec. split_and!; cbn; [done|done|by exists r| |done].
  by eapply Unserialize_typed.
Qed.

Lemma accepted_inv now a this s :
  AlertsInv s -> checked now a = Some this -> overruled now this s = false ->
  AlertsInv (set_map (map_insert (GetHash this) this (left_over now this s)) (swept now this s)).
Proof.
  intros HI Hc Ho. pose proof (checked_entry _ _ _ Hc) as Hok. apply checked_spec in Hc as (_ & _ & Hi & _).
  destruct (swept_inv now this s HI) as (Hs & He & Ha). cbn [mapAlerts swept] in *.
  split_and!; cbn [mapAlerts set_map].
  - by apply map_insert_sorted.
  - apply Forall_forall. rewrite Forall_forall in He. intros p [->|Hp]%elem_of_map_insert; auto.
  - assert (Hnew : forall p : uint256 * CAlert, p ∈ left_over now this s -> covers this p.2 = false /\ covers p.2 this = false).
    { intros p Hp. apply elem_of_left_over in Hp as Hk. destruct Hk as [Hk _]. unfold keeps, Cancels in Hk.
      rewrite Hi in Hk. cbn in Hk. apply andb_prop in Hk as [Hk1 Hk2]. apply negb_true_iff in Hk1. split; [done|].
      unfold overruled in Ho. apply not_true_iff_false in Ho. destruct (covers p.2 this) eqn:Ec; [|done].
      destruct Ho. apply existsb_exists. exists p. split; [by apply list_elem_of_In|].
      unfold Cancels. by rewrite Hk2. }
    intros p q [->|Hp]%elem_of_map_insert [->|Hq]%elem_of_map_insert Hne; cbn [fst snd] in *; [done| | |by apply Ha].
    + by apply Hnew.
    + by apply Hnew.
Qed.

Lemma told_map now a s : mapAlerts (told now a s) = mapAlerts s.
Proof. unfold told. by destruct (AppliesToMe now a). Qed.

Lemma AlertsInv_map s s' : mapAlerts s = mapAlerts s' -> AlertsInv s -> AlertsInv s'.
Proof. unfold AlertsInv. by intros ->. Qed.

Lemma ProcessAlert_inv now a s : AlertsInv s -> AlertsInv (ProcessAlert now a s).2.
Proof.
  intros HI. rewrite ProcessAlert_run. destruct (checked now a) as [this|] eqn:Ec; [|by destruct (throws a)].
  destruct (overruled now this s) eqn:Eo; [by apply swept_inv|].
  eapply AlertsInv_map; [|by eapply accepted_inv]. cbn [snd]. by rewrite told_map.
Qed.

(** The state after messages have come in, each at its time. *)
Definition after (calls : list (Z * CAlert)) s : AlertState :=
  foldl (fun s p => (ProcessAlert p.1 p.2 s).2) s calls.

(** C20 Whatever alerts come in at whatever times, [mapAlerts] stays sorted by distinct hashes, each
    alert in it has been signed by the alert key and holds what its signed message says, within
    the machine types, the reserved number belongs to the prescribed alert only, and no
    alert in the map cancels another one. *)
Theorem Alerts_invariant calls :
  let m := mapAlerts (after calls no_alerts) in
  StronglySorted Z.lt (m.*1) /\
  (forall h a, (h, a) ∈ m ->
     h = GetHash a /\ Verify (AlertKey (replicate 65 0)) (HashMsg (vchMsg a)) (vchSig a) = true /\
     (exists r, CUnsignedAlert.Unserialize (vchMsg a) = Some (unsigned a, r)) /\ typed a /\
     (nID a = maxInt -> final_ok a = true)) /\
  (forall h a k b now, (h, a) ∈ m -> (k, b) ∈ m -> h <> k -> Cancels now a b = false).
Proof.
  assert (HI : AlertsInv (after calls no_alerts)).
  { unfold after. generalize AlertsInv_init. generalize no_alerts.
    induction calls as [|[now a] calls IH]; intros s Hs; [done|]. apply IH. by apply ProcessAlert_inv. }
  destruct HI as (Hs & He & Hc). split_and!; [done| |].
  - intros h a Ha. rewrite Forall_forall in He. by apply (He (h, a)).
  - intros h a k b now Ha Hb Hne. unfold Cancels. destruct (negb _); [done|]. by apply (Hc (h, a) (k, b)).
Qed.

(** ** The alert of a compromised key *)

Lemma final_ok_spec (u : CUnsignedAlert) : final_ok u = true ->
  nExpiration u = maxInt /\ nCancel u = maxInt - 1 /\
  strStatusBar u = lit "URGENT: Alert key compromised, upgrade required".
Proof.
  unfold final_ok. rewrite !andb_true_iff, bool_decide_eq_true. intros [[[[[[? ?] ?] ?] ?] ?] ?].
  by split_and!; [lia|lia|].
Qed.

Lemma left_over_not_covered now a s (p : uint256 * CAlert) :
  IsInEffect now a = true -> p ∈ left_over now a s -> covers a p.2 = false /\ p ∈ mapAlerts s.
Proof.
  intros Hi [Hk Hp]%elem_of_left_over. split; [|done]. unfold keeps, Cancels in Hk. rewrite Hi in Hk.
  cbn in Hk. apply andb_prop in Hk as [Hk _]. by apply negb_true_iff.
Qed.

(** An alert with the reserved number leaves no others. *)
Lemma left_over_final now f s (p : uint256 * CAlert) :
  AlertsInv s -> IsInEffect now f = true -> final_ok f = true -> p ∈ left_over now f s ->
  nID p.2 = maxInt /\ strStatusBar p.2 = lit "URGENT: Alert key compromised, upgrade required".
Proof.
  intros (_ & He & _) Hi Hf Hp. apply final_ok_spec in Hf as (_ & Hc & _).
  apply left_over_not_covered in Hp as [Hcov Hp]; [|done]. rewrite Forall_forall in He.
  destruct (He p Hp) as (_ & _ & _ & Ht & Hm).
  assert (nID p.2 = maxInt).
  { apply orb_false_iff in Hcov as [Hle _]. destruct Ht as [Ht _]. rewrite !Forall_cons in Ht.
    destruct Ht as (_ & Hr & _). unfold in_s in Hr. unfold maxInt in *. lia. }
  split; [done|]. by apply final_ok_spec, Hm.
Qed.

Lemma after_mapAlerts now a s this : checked now a = Some this ->
  mapAlerts (ProcessAlert now a s).2 =
  if overruled now this s then left_over now this s
  else map_insert (GetHash this) this (left_over now this s).
Proof.
  intros Hc. rewrite ProcessAlert_run, Hc. destruct (overruled now this s); [done|]. cbn [snd]. by rewrite told_map.
Qed.

(** An alert with the reserved number that passes the checks leaves alerts with the prescribed text
    only, and at least one.  As long as such an alert is known and has not expired, a message that
    passes the checks either covers it, and then it is dropped, whatever the number of the
    message and even when the message is then refused; or it stays, and the message is refused unless it
    has the reserved number itself. *)
Theorem final_alert now a s :
  AlertsInv s -> now < maxInt ->
  let m' := mapAlerts (ProcessAlert now a s).2 in
  (forall f, checked now a = Some f -> nID f = maxInt ->
     m' <> [] /\
     forall h (b : CAlert), (h, b) ∈ m' ->
       nID b = maxInt /\ strStatusBar b = lit "URGENT: Alert key compromised, upgrade required") /\
  (forall h (f : CAlert), (h, f) ∈ mapAlerts s -> nID f = maxInt ->
     match checked now a with
     | None => (h, f) ∈ m'
     | Some b =>
       if covers b f then nID b <> maxInt -> (h, f) ∉ m'
       else (h, f) ∈ m' /\ (nID b <> maxInt -> (ProcessAlert now a s).1 = Done None)
     end).
Proof.
  intros HI Hnow m'. split.
  - intros f Hc Hm. pose proof (checked_entry _ _ _ Hc) as (_ & _ & _ & _ & Hf). specialize (Hf Hm). cbn in Hf.
    pose proof Hc as (_ & _ & Hi & _)%checked_spec.
    assert (Hleft : forall p : uint256 * CAlert, p ∈ left_over now f s -> nID p.2 = maxInt /\ strStatusBar p.2 = lit "URGENT: Alert key compromised, upgrade required").
    { intros p. by apply left_over_final. }
    subst m'. rewrite (after_mapAlerts _ _ _ _ Hc). destruct (overruled now f s) eqn:Eo.
    + split; [|by intros h b Hb%Hleft]. unfold overruled in Eo. by intros E; rewrite E in Eo.
    + split; [by destruct (map_insert_new (GetHash f) f (left_over now f s)) as (b & Hb & _); intros E; rewrite E in Hb; apply elem_of_nil in Hb|].
      intros h b [[= -> ->]|Hb]%elem_of_map_insert; [|by apply Hleft in Hb].
      split; [done|]. by apply final_ok_spec.
  - intros h f Hin Hm. destruct (checked now a) as [b|] eqn:Hc.
    2:{ subst m'. rewrite ProcessAlert_run, Hc. by destruct (throws a). }
    pose proof Hc as (_ & _ & Hi & _)%checked_spec. destruct HI as (_ & He & _). rewrite Forall_forall in He.
    destruct (He (h, f) Hin) as (_ & _ & _ & _ & Hf). specialize (Hf Hm). cbn [snd] in Hf.
    apply final_ok_spec in Hf as (Hex & Hcan & _). subst m'. rewrite (after_mapAlerts _ _ _ _ Hc).
    destruct (covers b f) eqn:Ecov.
    + intros Hid Hout.
      assert (Hnot : (h, f) ∉ left_over now b s).
      { intros Hl. apply left_over_not_covered in Hl as [Hl _]; [|done]. cbn in Hl. congruence. }
      destruct (overruled now b s); [done|]. apply elem_of_map_insert in Hout as [[= _ ->]|Hout]; done.
    + assert (Hl : (h, f) ∈ left_over now b s).
      { apply elem_of_left_over. split; [|done]. unfold keeps, Cancels. rewrite Hi. cbn. rewrite Ecov. cbn.
        unfold IsInEffect. lia. }
      split; [destruct (overruled now b s); [done|by apply map_insert_old]|].
      intros Hid. pose proof (checked_entry _ _ _ Hc) as (_ & _ & _ & Ht & _). cbn [snd] in Ht.
      rewrite ProcessAlert_run, Hc. replace (overruled now b s) with true; [done|].
      symmetry. apply existsb_exists. exists (h, f). split; [by apply list_elem_of_In|].
      unfold Cancels, IsInEffect, covers. cbn [snd]. rewrite Hex, Hcan.
      replace (now <? maxInt) with true by lia. cbn [negb]. apply orb_true_iff. left.
      destruct Ht as [Ht _]. rewrite !Forall_cons in Ht. destruct Ht as (_ & Hr & _). unfold in_s, maxInt in *. lia.
Qed.

(** ** The command of -alertnotify *)

Lemma elem_of_replace_all (str t : bytes) c : c ∈ replace_all str t -> c ∈ str \/ c ∈ t.
Proof.
  induction str as [[|x [|y str]] IH] using list_len_ind; cbn [replace_all]; [by left|by left|].
  destruct ((x =? 37) && (y =? 115)).
  - intros [Hc|Hc]%elem_of_app; [by right|]. apply IH in Hc as [Hc|Hc]; [left; by do 2 right|by right|cbn; lia].
  - intros [->|Hc]%elem_of_cons; [left; left|]. apply (IH (y :: str)) in Hc as [Hc|Hc]; [left; by right|by right|cbn; lia].
Qed.

(** A message makes at most one command run, and only when it is accepted and applies to this version.
    The command is the argument with each %s replaced by a quoted text without any quote or other
    character outside the safe ones, so that every other character of the command is one of the
    argument. *)
Theorem alert_command now a s :
  let s' := (ProcessAlert now a s).2 in
  commands s' = commands s \/
  exists this t,
    (ProcessAlert now a s).1 = Done (Some this) /\ AppliesToMe now this = true /\ alertnotify <> [] /\
    t = filter is_safe (strStatusBar this) /\ Forall (fun c => c ∈ safeChars /\ c <> 39) t /\
    commands s' = commands s ++ [replace_all alertnotify ([39] ++ t ++ [39])] /\
    (forall c, c ∈ replace_all alertnotify ([39] ++ t ++ [39]) -> c ∈ alertnotify \/ c ∈ safeChars \/ c = 39).
Proof.
  cbn zeta. rewrite ProcessAlert_run. destruct (checked now a) as [this|]; [|left; by destruct (throws a)].
  destruct (overruled now this s); [by left|]. cbn [snd fst]. unfold told. destruct (AppliesToMe now this) eqn:Ea; [|by left].
  cbn [commands]. destruct alertnotify as [|c0 cmd] eqn:En; [by left|]. right.
  assert (Hsafe : forall c, Is_true (is_safe c) -> c ∈ safeChars /\ c <> 39).
  { intros c Hc%Is_true_true. apply existsb_exists in Hc as (d & Hd & ->%Z.eqb_eq).
    apply list_elem_of_In in Hd. split; [done|]. intros ->. revert Hd. apply (bool_decide_unpack _). by vm_compute. }
  exists this, (filter is_safe (strStatusBar this)). split_and!; try done.
  - apply Forall_forall. intros c [Hc _]%list_elem_of_filter. by apply Hsafe.
  - intros c [Hc|Hc]%elem_of_replace_all; [by left|right]. rewrite !elem_of_app, !list_elem_of_singleton in Hc.
    destruct Hc as [->|[Hc| ->]]; [by right| |by right]. left. apply list_elem_of_filter in Hc as [Hc _]. by apply Hsafe.
Qed.

(** ** Relaying *)

(** An alert goes to a node at most once: afterwards the node knows it, and neither this alert nor another
    one with its hash is pushed to the node again. *)
Lemma RelayTo_once now a version sub known fPush known' :
  RelayTo now a version sub known = (fPush, known') ->
  known ⊆ known' /\
  (fPush = true -> IsInEffect now a = true /\ GetHash a ∉ known /\ GetHash a ∈ known') /\
  (forall now' version' sub' b, GetHash b ∈ known' -> RelayTo now' b version' sub' known' = (false, known')).
Proof.
  unfold RelayTo. intros E. split_and!.
  - destruct (IsInEffect now a); [|by simplify_eq/=]. cbn in E.
    case_bool_decide; simplify_eq/=; set_solver.
  - destruct (IsInEffect now a); [|by simplify_eq/=]. cbn in E. case_bool_decide; simplify_eq/=; [done|]. set_solver.
  - intros now' version' sub' b Hb. destruct (IsInEffect now' b); [|done]. cbn. by rewrite bool_decide_true.
Qed.

(** ** The wire format *)

(** The stream operators read what they have written; [int_set] and [str_set] are the lists that
    stand for sets. *)
Class AlertStream := {
  int_set : list Z -> Prop;
  str_set : list bytes -> Prop;
  rd_wr_i32 n r : in_s 32 n -> rd_i32 (wr_i32 n ++ r) = Some (n, r);
  rd_wr_i64 n r : in_s 64 n -> rd_i64 (wr_i64 n ++ r) = Some (n, r);
  rd_wr_ints l r : int_set l -> rd_ints (wr_ints l ++ r) = Some (l, r);
  rd_wr_str l r : rd_str (wr_str l ++ r) = Some (l, r);
  rd_wr_strs l r : str_set l -> rd_strs (wr_strs l ++ r) = Some (l, r);
}.

Lemma CUnsignedAlert_roundtrip `{AlertStream} (u : CUnsignedAlert) r :
  typed u -> int_set (setCancel u) -> str_set (setSubVer u) ->
  CUnsignedAlert.Unserialize (CUnsignedAlert.Serialize u ++ r) = Some (u, r).
Proof.
  intros (H32 & H64 & _) Hi Hs. rewrite !Forall_cons in H32. rewrite !Forall_cons in H64.
  destruct H32 as (? & ? & ? & ? & ? & ? & _), H64 as (? & ? & _).
  unfold CUnsignedAlert.Unserialize, CUnsignedAlert.Serialize. rewrite <-!app_assoc.
  repeat (first [rewrite rd_wr_i32 by done | rewrite rd_wr_i64 by done | rewrite rd_wr_ints by done
                |rewrite rd_wr_strs by done | rewrite rd_wr_str]; cbn [mbind option_bind]).
  by destruct u.
Qed.

(** What the holder of the alert key writes and signs is what every node reads. *)
Lemma signed_alert_read `{AlertStream} (u : CUnsignedAlert) sig r s :
  typed u -> int_set (setCancel u) -> str_set (setSubVer u) ->
  Verify (AlertKey (replicate 65 0)) (HashMsg (CUnsignedAlert.Serialize u)) sig = true ->
  exists a, Unserialize (Serialize (mkAlert u (CUnsignedAlert.Serialize u) sig) ++ r) = Some (a, r) /\
    CheckSignature a s = (Done (Some (mkAlert u (CUnsignedAlert.Serialize u) sig)), s).
Proof.
  intros Ht Hi Hs Hv. eexists. split.
  - unfold Unserialize, Serialize. cbn [vchMsg vchSig]. rewrite <-!app_assoc, rd_wr_str. cbn. by rewrite rd_wr_str.
  - unfold CheckSignature. cbn [vchMsg vchSig]. rewrite Hv. cbn [negb].
    pose proof (CUnsignedAlert_roundtrip u [] Ht Hi Hs) as Hr. rewrite app_nil_r in Hr. by rewrite Hr.
Qed.

End Env.

(** * A concrete run *)

Module AlertExamples.

Definition rd_le (k : nat) (b : bytes) : option (Z * bytes) :=
  if (length b <? k)%nat then None else Some (wraps (8 * Z.of_nat k) (le_val 256 (take k b)), drop k b).
Definition rd_list {A} (rd : bytes -> option (A * bytes)) (b : bytes) : option (list A * bytes) :=
  match b with
  | [] => None
  | n :: r => (fix go (k : nat) (b : bytes) := match k with
      | O => Some ([], b)
      | S k' => '(x, b) ← rd b; '(l, b) ← go k' b; Some (x :: l, b) end) (Z.to_nat n) r
  end.
Definition rd_text (b : bytes) : option (bytes * bytes) :=
  match b with [] => None | n :: r => if lenZ r <? n then None else Some (take (Z.to_nat n) r, drop (Z.to_nat n) r) end.
Definition wr_text (l : bytes) : bytes := lenZ l :: l.

Lemma rd_le_range k b n r : (0 < k)%nat -> rd_le k b = Some (n, r) -> in_s (8 * Z.of_nat k) n.
Proof. intros Hk. unfold rd_le. destruct (_ <? _)%nat; [done|]. intros [= <- _]. apply wraps_range. lia. Qed.

Lemma rd_list_range b l r : rd_list (rd_le 4) b = Some (l, r) -> Forall (in_s 32) l.
Proof.
  unfold rd_list. destruct b as [|n b]; [done|]. generalize (Z.to_nat n) as k. intros k.
  revert b l. induction k as [|k IH]; intros b l; [by intros [= <- _]|].
  intros ([x b'] & E & Hr)%bind_Some. apply bind_Some in Hr as ([l' b''] & E' & [= <- <-]). constructor; [|by eapply IH].
  change 32 with (8 * Z.of_nat 4). eapply rd_le_range; [|by eauto]. lia.
Qed.

#[local] Instance env : AlertEnv.
Proof.
  refine {| HashMsg := foldr (fun x a => x + 257 * a + 1) 0; ECDSA_verify _ _ sig := bool_decide (sig = [7]);
    rd_i32 := rd_le 4; rd_i64 := rd_le 8; rd_ints := rd_list (rd_le 4); rd_str := rd_text; rd_strs := rd_list rd_text;
    wr_i32 n := le_digits 256 4 (n mod 2 ^ 32); wr_i64 n := le_digits 256 8 (n mod 2 ^ 64);
    wr_ints l := lenZ l :: mjoin ((fun n => le_digits 256 4 (n mod 2 ^ 32)) <$> l); wr_str := wr_text;
    wr_strs l := lenZ l :: mjoin (wr_text <$> l);
    PROTOCOL_VERSION := 70001; CLIENT_VERSION := 80100; fTestNet := false; alertnotify := lit "echo %s" |}.
  - intros b n r. apply (rd_le_range 4). lia.
  - intros b n r. apply (rd_le_range 8). lia.
  - apply rd_list_range.
Defined.

Definition text (nID nCancel : Z) (cancels : list Z) (status : bytes) : CUnsignedAlert :=
  mkUnsigned 1 2000 3000 nID nCancel cancels 0 80000 [] 10 [] status [].
Definition final : CUnsignedAlert :=
  mkUnsigned 1 maxInt maxInt maxInt (maxInt - 1) [] 0 maxInt [] maxInt []
    (lit "URGENT: Alert key compromised, upgrade required") [].
Definition signed (u : CUnsignedAlert) : CAlert := mkAlert CUnsignedAlert.SetNull (CUnsignedAlert.Serialize u) [7].

Example key_sizes : lenZ (ParseHex pszMainKey) = 65 /\ lenZ (ParseHex pszTestKey) = 65.
Proof. by vm_compute. Qed.

Definition hello := text 1 0 [] (lit "it's time; `rm -rf ~`").

Example command_run : commands (CAlert.ProcessAlert 1000 (signed hello) no_alerts).2 = [lit "echo 'its time; rm rf '"].
Proof. by vm_compute. Qed.

Definition nIDs (s : AlertState) : list Z := (fun p => nID (unsigned p.2)) <$> mapAlerts s.

(** The final alert sweeps others; one more key holder's message takes it away again. *)
Example final_swept :
  nIDs (after [(1000, signed hello); (1001, signed final)] no_alerts) = [maxInt] /\
  nIDs (after [(1000, signed final); (1001, signed (text 5 maxInt [] []))] no_alerts) = [5].
Proof. by vm_compute. Qed.

(** A message that has been cancelled is refused, but what it cancels is gone. *)
Example refused_sweeps :
  let s := after [(1000, signed (text 9 3 [] [])); (1001, signed (text 7 0 [] []))] no_alerts in
  (CAlert.ProcessAlert 1002 (signed (text 2 0 [7] [])) s).1 = Done None /\
  nIDs s = [7; 9] /\ nIDs (CAlert.ProcessAlert 1002 (signed (text 2 0 [7] [])) s).2 = [9].
Proof. by vm_compute. Qed.

Lemma final_alert_witness :
  let s := after [(1000, signed final)] no_alerts in
  (CAlert.ProcessAlert 1001 (signed hello) s).1 = Done None /\
  (nIDs s = [maxInt] /\ AlertsInv s).
Proof.
  split; [|split; [by vm_compute|]].
  2:{ apply (ProcessAlert_inv 1000 (signed final)), AlertsInv_init. }
  assert (HI : AlertsInv (after [(1000, signed final)] no_alerts)).
  { apply (ProcessAlert_inv 1000 (signed final)), AlertsInv_init. }
  destruct (final_alert 1001 (signed hello) _ HI) as [_ Hf]; [done|].
  destruct (mapAlerts (after [(1000, signed final)] no_alerts)) as [|[h f] m] eqn:Em; [by vm_compute in Em|].
  specialize (Hf h f ltac:(left)). vm_compute in Em. injection Em as <- <- <-.
  specialize (Hf eq_refl). vm_compute (checked _ _) in Hf. apply Hf. by vm_compute.
Defined.

End AlertExamples.
