(* ===== verification/Node.v ===== *)
(** The data of the message handlers of src/dust_coin/bitcoin_messages_handlers.cpp: nodes,
    global variables, payloads and the calls a handler makes; Messages.v has the handlers.

    A handler runs on a node ([CNode]), the global variables ([World]) and the payload still to
    be read, in the monad [X]: an exception of [CDataStream] leaves what was assigned before.
    Calls of functions and methods of other components are recorded in order as [Action]s
    (class [CNode] itself and net.h are not in the tree).

    Parameters (class [Wire]): the stream operators of serialize.h, the constants of protocol.h,
    version.h and main.h, hashes of payload objects, and how much a pushed message adds to the
    send buffer.  Locks and interruption points are left out: a handler runs under [cs_main]. *)

From S2P Require Import Prelude Monad Alert NetAddr AddrMan Core Block BigNum Checkpoints Validation.

Record CInv := mkInv { inv_type : Z; inv_hash : uint256 }.
#[global] Instance CInv_eq_dec : EqDecision CInv.
Proof. solve_decision. Defined.

(** What [PushMessage] sends. *)
Inductive OutMsg :=
| OVerack | OGetaddr | OPing (nonce : option Z) | OPong (nonce : Z)
| OGetblocks (pindexBegin : option uint256) (hashEnd : uint256)
| OGetdata (vInv : list CInv) | ONotfound (vInv : list CInv).

(** The calls a handler makes. *)
Inductive Action :=
| Misbehaving (howmuch : Z)
| PushMessage (m : OutMsg)
| PushVersion
| SetSendVersion (v : Z)
| SetRecvVersion (v : Z)
| PushAddress (addr : CAddress)
| ClearAddrToSend
| RelayAddress (pnode : Z) (addr : CAddress)
| AddAddressKnown (addr : CAddress)
| ClearAddrKnown (pnode : Z)
| AddInventoryKnown (inv : CInv)
| AskFor (inv : CInv)
| SeenLocal (addr : CAddress)
| AddTimeData (addr : CAddress) (nTime : Z)
| AddrGood (addr : CAddress)
| AddrAdd (addr source : CAddress)
| AddrAddAll (vAddr : list CAddress) (source : CAddress) (nTimePenalty : Z)
| AddressCurrentlyConnected (addr : CAddress)
| RelayAlert (a : CAlert) (pnode : option Z)
| InputBlockCount (n : Z)
| GateAddBlock (b : CBlock)
| FilterInsert (vData : bytes).

Record CNode := mkNode {
  n_addr : CAddress;
  n_nVersion : Z; n_nServices : Z; n_strSubVer : bytes; n_nStartingHeight : Z;
  n_fInbound : bool; n_fNetworkNode : bool; n_fClient : bool; n_fOneShot : bool;
  n_fDisconnect : bool; n_fSuccessfullyConnected : bool; n_fGetAddr : bool; n_fStartSync : bool;
  n_fRelayTxes : bool; n_addrLocal : option CAddress;
  n_LastGetBlocksBegin : option uint256; n_hashLastGetBlocksEnd : uint256;
  n_setKnown : gset uint256; n_vRecvGetData : list CInv; n_pfilter : option bytes;
  n_nSendSize : Z; n_nLastSend : Z; n_sendEmpty : bool; n_mapAskFor : list (Z * CInv);
  n_nMisbehavior : Z }.

(** Nodes of [vNodes]: the low 32 bits of the pointer, the version and the address. *)
Record Peer := mkPeer { p_pointer : Z; p_nVersion : Z; p_addr : CAddress }.

Record World := mkWorld {
  w_globals : Globals;
  w_time : Z;
  w_mapOrphanBlocks : gmap uint256 CBlock;
  w_mapOrphanBlocksByPrev : list (uint256 * uint256);
  w_hashBestChain : uint256;
  w_pindexBest : option uint256;
  w_nLocalHostNonce : Z;
  w_fImporting : bool; w_fReindex : bool; w_fNoListen : bool;
  w_mapAlreadyAskedFor : list CInv;
  w_alerts : AlertState;
  w_addrmanSize : Z;
  w_addrmanGetAddr : list CAddress;
  w_hashSalt : uint256; w_freshSalt : uint256; w_freshNonce : Z;
  w_vNodes : list Peer;
  w_LocalAddress : CAddress -> CAddress;
  w_IsReachable : CNetAddr -> bool;
  w_dropmessagestest : option Z;
  w_nLastRebroadcast : Z;
  w_setBanned : gmap CNetAddr Z; w_banscore : Z; w_bantime : Z }.

(** Node, globals, unread payload and the calls made so far, the latest last. *)
Record St := mkSt { st_node : CNode; st_world : World; st_vRecv : bytes; st_trace : list Action }.

Abbreviation H := (X St).

Class Wire := {
  rd_int : bytes -> option (Z * bytes);
  rd_int64 : bytes -> option (Z * bytes);
  rd_uint64 : bytes -> option (Z * bytes);
  rd_bool : bytes -> option (bool * bytes);
  rd_string : bytes -> option (bytes * bytes);
  rd_vch : bytes -> option (bytes * bytes);
  rd_addr : bytes -> option (CAddress * bytes);
  rd_vaddr : bytes -> option (list CAddress * bytes);
  rd_vinv : bytes -> option (list CInv * bytes);
  rd_tx : bytes -> option (CTransaction * bytes);
  rd_block : bytes -> option (CBlock * bytes);
  rd_filter : bytes -> option (bytes * bytes);
  wire_alerts :: AlertEnv;
  IsWithinSizeConstraints : bytes -> bool;
  HashData : bytes -> uint256;
  Hash256 : uint256 -> uint256;
  addr_hash : CAddress -> Z;
  dos_of : Verdict -> option Z;
  send_size : Z -> OutMsg -> Z;
  MSG_TX : Z; MSG_BLOCK : Z;
  MIN_PROTO_VERSION : Z; CADDR_TIME_VERSION : Z; BIP0031_VERSION : Z;
  MAX_INV_SZ : Z; MAX_SCRIPT_ELEMENT_SIZE : Z; SendBufferSize : Z;
  MSG_distinct : MSG_TX <> MSG_BLOCK;
  MIN_PROTO_range : 0 < MIN_PROTO_VERSION <= 300;
  dos_Accept : dos_of Accept = None;
  dos_DoS n : dos_of (DoS n) = Some n;
}.

(** ** Assignments *)

Definition set_node (f : CNode -> CNode) (s : St) : St := mkSt (f (st_node s)) (st_world s) (st_vRecv s) (st_trace s).
Definition set_world (f : World -> World) (s : St) : St := mkSt (st_node s) (f (st_world s)) (st_vRecv s) (st_trace s).

(** The fields the handlers assign: the other components stay. *)

Module Node.
Definition set_nVersion (v : Z) (r : CNode) : CNode :=
  let (x1, _, x3, x4, x5, x6, x7, x8, x9, x10, x11, x12, x13, x14, x15, x16, x17, x18, x19, x20, x21, x22, x23, x24, x25) := r in
  mkNode x1 v x3 x4 x5 x6 x7 x8 x9 x10 x11 x12 x13 x14 x15 x16 x17 x18 x19 x20 x21 x22 x23 x24 x25.
Definition set_nServices (v : Z) (r : CNode) : CNode :=
  let (x1, x2, _, x4, x5, x6, x7, x8, x9, x10, x11, x12, x13, x14, x15, x16, x17, x18, x19, x20, x21, x22, x23, x24, x25) := r in
  mkNode x1 x2 v x4 x5 x6 x7 x8 x9 x10 x11 x12 x13 x14 x15 x16 x17 x18 x19 x20 x21 x22 x23 x24 x25.
Definition set_strSubVer (v : bytes) (r : CNode) : CNode :=
  let (x1, x2, x3, _, x5, x6, x7, x8, x9, x10, x11, x12, x13, x14, x15, x16, x17, x18, x19, x20, x21, x22, x23, x24, x25) := r in
  mkNode x1 x2 x3 v x5 x6 x7 x8 x9 x10 x11 x12 x13 x14 x15 x16 x17 x18 x19 x20 x21 x22 x23 x24 x25.
Definition set_nStartingHeight (v : Z) (r : CNode) : CNode :=
  let (x1, x2, x3, x4, _, x6, x7, x8, x9, x10, x11, x12, x13, x14, x15, x16, x17, x18, x19, x20, x21, x22, x23, x24, x25) := r in
  mkNode x1 x2 x3 x4 v x6 x7 x8 x9 x10 x11 x12 x13 x14 x15 x16 x17 x18 x19 x20 x21 x22 x23 x24 x25.
Definition set_fClient (v : bool) (r : CNode) : CNode :=
  let (x1, x2, x3, x4, x5, x6, x7, _, x9, x10, x11, x12, x13, x14, x15, x16, x17, x18, x19, x20, x21, x22, x23, x24, x25) := r in
  mkNode x1 x2 x3 x4 x5 x6 x7 v x9 x10 x11 x12 x13 x14 x15 x16 x17 x18 x19 x20 x21 x22 x23 x24 x25.
Definition set_fDisconnect (v : bool) (r : CNode) : CNode :=
  let (x1, x2, x3, x4, x5, x6, x7, x8, x9, _, x11, x12, x13, x14, x15, x16, x17, x18, x19, x20, x21, x22, x23, x24, x25) := r in
  mkNode x1 x2 x3 x4 x5 x6 x7 x8 x9 v x11 x12 x13 x14 x15 x16 x17 x18 x19 x20 x21 x22 x23 x24 x25.
Definition set_fSuccessfullyConnected (v : bool) (r : CNode) : CNode :=
  let (x1, x2, x3, x4, x5, x6, x7, x8, x9, x10, _, x12, x13, x14, x15, x16, x17, x18, x19, x20, x21, x22, x23, x24, x25) := r in
  mkNode x1 x2 x3 x4 x5 x6 x7 x8 x9 x10 v x12 x13 x14 x15 x16 x17 x18 x19 x20 x21 x22 x23 x24 x25.
Definition set_fGetAddr (v : bool) (r : CNode) : CNode :=
  let (x1, x2, x3, x4, x5, x6, x7, x8, x9, x10, x11, _, x13, x14, x15, x16, x17, x18, x19, x20, x21, x22, x23, x24, x25) := r in
  mkNode x1 x2 x3 x4 x5 x6 x7 x8 x9 x10 x11 v x13 x14 x15 x16 x17 x18 x19 x20 x21 x22 x23 x24 x25.
Definition set_fStartSync (v : bool) (r : CNode) : CNode :=
  let (x1, x2, x3, x4, x5, x6, x7, x8, x9, x10, x11, x12, _, x14, x15, x16, x17, x18, x19, x20, x21, x22, x23, x24, x25) := r in
  mkNode x1 x2 x3 x4 x5 x6 x7 x8 x9 x10 x11 x12 v x14 x15 x16 x17 x18 x19 x20 x21 x22 x23 x24 x25.
Definition set_fRelayTxes (v : bool) (r : CNode) : CNode :=
  let (x1, x2, x3, x4, x5, x6, x7, x8, x9, x10, x11, x12, x13, _, x15, x16, x17, x18, x19, x20, x21, x22, x23, x24, x25) := r in
  mkNode x1 x2 x3 x4 x5 x6 x7 x8 x9 x10 x11 x12 x13 v x15 x16 x17 x18 x19 x20 x21 x22 x23 x24 x25.
Definition set_addrLocal (v : option CAddress) (r : CNode) : CNode :=
  let (x1, x2, x3, x4, x5, x6, x7, x8, x9, x10, x11, x12, x13, x14, _, x16, x17, x18, x19, x20, x21, x22, x23, x24, x25) := r in
  mkNode x1 x2 x3 x4 x5 x6 x7 x8 x9 x10 x11 x12 x13 x14 v x16 x17 x18 x19 x20 x21 x22 x23 x24 x25.
Definition set_LastGetBlocksBegin (v : option uint256) (r : CNode) : CNode :=
  let (x1, x2, x3, x4, x5, x6, x7, x8, x9, x10, x11, x12, x13, x14, x15, _, x17, x18, x19, x20, x21, x22, x23, x24, x25) := r in
  mkNode x1 x2 x3 x4 x5 x6 x7 x8 x9 x10 x11 x12 x13 x14 x15 v x17 x18 x19 x20 x21 x22 x23 x24 x25.
Definition set_hashLastGetBlocksEnd (v : uint256) (r : CNode) : CNode :=
  let (x1, x2, x3, x4, x5, x6, x7, x8, x9, x10, x11, x12, x13, x14, x15, x16, _, x18, x19, x20, x21, x22, x23, x24, x25) := r in
  mkNode x1 x2 x3 x4 x5 x6 x7 x8 x9 x10 x11 x12 x13 x14 x15 x16 v x18 x19 x20 x21 x22 x23 x24 x25.
Definition set_setKnown (v : gset uint256) (r : CNode) : CNode :=
  let (x1, x2, x3, x4, x5, x6, x7, x8, x9, x10, x11, x12, x13, x14, x15, x16, x17, _, x19, x20, x21, x22, x23, x24, x25) := r in
  mkNode x1 x2 x3 x4 x5 x6 x7 x8 x9 x10 x11 x12 x13 x14 x15 x16 x17 v x19 x20 x21 x22 x23 x24 x25.
Definition set_vRecvGetData (v : list CInv) (r : CNode) : CNode :=
  let (x1, x2, x3, x4, x5, x6, x7, x8, x9, x10, x11, x12, x13, x14, x15, x16, x17, x18, _, x20, x21, x22, x23, x24, x25) := r in
  mkNode x1 x2 x3 x4 x5 x6 x7 x8 x9 x10 x11 x12 x13 x14 x15 x16 x17 x18 v x20 x21 x22 x23 x24 x25.
Definition set_pfilter (v : option bytes) (r : CNode) : CNode :=
  let (x1, x2, x3, x4, x5, x6, x7, x8, x9, x10, x11, x12, x13, x14, x15, x16, x17, x18, x19, _, x21, x22, x23, x24, x25) := r in
  mkNode x1 x2 x3 x4 x5 x6 x7 x8 x9 x10 x11 x12 x13 x14 x15 x16 x17 x18 x19 v x21 x22 x23 x24 x25.
Definition set_nSendSize (v : Z) (r : CNode) : CNode :=
  let (x1, x2, x3, x4, x5, x6, x7, x8, x9, x10, x11, x12, x13, x14, x15, x16, x17, x18, x19, x20, _, x22, x23, x24, x25) := r in
  mkNode x1 x2 x3 x4 x5 x6 x7 x8 x9 x10 x11 x12 x13 x14 x15 x16 x17 x18 x19 x20 v x22 x23 x24 x25.
Definition set_mapAskFor (v : list (Z * CInv)) (r : CNode) : CNode :=
  let (x1, x2, x3, x4, x5, x6, x7, x8, x9, x10, x11, x12, x13, x14, x15, x16, x17, x18, x19, x20, x21, x22, x23, _, x25) := r in
  mkNode x1 x2 x3 x4 x5 x6 x7 x8 x9 x10 x11 x12 x13 x14 x15 x16 x17 x18 x19 x20 x21 x22 x23 v x25.
Definition set_nMisbehavior (v : Z) (r : CNode) : CNode :=
  let (x1, x2, x3, x4, x5, x6, x7, x8, x9, x10, x11, x12, x13, x14, x15, x16, x17, x18, x19, x20, x21, x22, x23, x24, _) := r in
  mkNode x1 x2 x3 x4 x5 x6 x7 x8 x9 x10 x11 x12 x13 x14 x15 x16 x17 x18 x19 x20 x21 x22 x23 x24 v.
End Node.

Module Glob.
Definition set_alerts (v : AlertState) (r : World) : World :=
  let (x1, x2, x3, x4, x5, x6, x7, x8, x9, x10, x11, _, x13, x14, x15, x16, x17, x18, x19, x20, x21, x22, x23, x24, x25) := r in
  mkWorld x1 x2 x3 x4 x5 x6 x7 x8 x9 x10 x11 v x13 x14 x15 x16 x17 x18 x19 x20 x21 x22 x23 x24 x25.
Definition set_mapOrphanBlocks (v : gmap uint256 CBlock) (r : World) : World :=
  let (x1, x2, _, x4, x5, x6, x7, x8, x9, x10, x11, x12, x13, x14, x15, x16, x17, x18, x19, x20, x21, x22, x23, x24, x25) := r in
  mkWorld x1 x2 v x4 x5 x6 x7 x8 x9 x10 x11 x12 x13 x14 x15 x16 x17 x18 x19 x20 x21 x22 x23 x24 x25.
Definition set_mapOrphanBlocksByPrev (v : list (uint256 * uint256)) (r : World) : World :=
  let (x1, x2, x3, _, x5, x6, x7, x8, x9, x10, x11, x12, x13, x14, x15, x16, x17, x18, x19, x20, x21, x22, x23, x24, x25) := r in
  mkWorld x1 x2 x3 v x5 x6 x7 x8 x9 x10 x11 x12 x13 x14 x15 x16 x17 x18 x19 x20 x21 x22 x23 x24 x25.
Definition set_nLocalHostNonce (v : Z) (r : World) : World :=
  let (x1, x2, x3, x4, x5, x6, _, x8, x9, x10, x11, x12, x13, x14, x15, x16, x17, x18, x19, x20, x21, x22, x23, x24, x25) := r in
  mkWorld x1 x2 x3 x4 x5 x6 v x8 x9 x10 x11 x12 x13 x14 x15 x16 x17 x18 x19 x20 x21 x22 x23 x24 x25.
Definition set_mapAlreadyAskedFor (v : list CInv) (r : World) : World :=
  let (x1, x2, x3, x4, x5, x6, x7, x8, x9, x10, _, x12, x13, x14, x15, x16, x17, x18, x19, x20, x21, x22, x23, x24, x25) := r in
  mkWorld x1 x2 x3 x4 x5 x6 x7 x8 x9 x10 v x12 x13 x14 x15 x16 x17 x18 x19 x20 x21 x22 x23 x24 x25.
Definition set_hashSalt (v : uint256) (r : World) : World :=
  let (x1, x2, x3, x4, x5, x6, x7, x8, x9, x10, x11, x12, x13, x14, _, x16, x17, x18, x19, x20, x21, x22, x23, x24, x25) := r in
  mkWorld x1 x2 x3 x4 x5 x6 x7 x8 x9 x10 x11 x12 x13 x14 v x16 x17 x18 x19 x20 x21 x22 x23 x24 x25.
Definition set_nLastRebroadcast (v : Z) (r : World) : World :=
  let (x1, x2, x3, x4, x5, x6, x7, x8, x9, x10, x11, x12, x13, x14, x15, x16, x17, x18, x19, x20, x21, _, x23, x24, x25) := r in
  mkWorld x1 x2 x3 x4 x5 x6 x7 x8 x9 x10 x11 x12 x13 x14 x15 x16 x17 x18 x19 x20 x21 v x23 x24 x25.
Definition set_setBanned (v : gmap CNetAddr Z) (r : World) : World :=
  let (x1, x2, x3, x4, x5, x6, x7, x8, x9, x10, x11, x12, x13, x14, x15, x16, x17, x18, x19, x20, x21, x22, _, x24, x25) := r in
  mkWorld x1 x2 x3 x4 x5 x6 x7 x8 x9 x10 x11 x12 x13 x14 x15 x16 x17 x18 x19 x20 x21 x22 v x24 x25.
End Glob.
