(* ===== verification/Messages.v ===== *)
(** The message handlers of the Bitcoin side: src/dust_coin/bitcoin_messages_handlers.cpp
    ([GetOrphanRoot], [AlreadyHave], [ProcessMessages] to [ProcessMessage]) and the misbehaviour
    score of src/net.cpp, on the data of Node.v.  The order of the assignments and calls is the
    order of the source.  In the monad [X] an exception of [CDataStream] is [Thrown]; a failed assertion and
    the walk along a cycle of orphans, which never ends, are [Stuck]. *)

From S2P Require Import Prelude Monad Alert NetAddr AddrMan Core Block BigNum Checkpoints Validation Node.

(** [map::count] of a key. *)
Definition count {A} (m : gmap uint256 A) (k : uint256) : bool :=
  match m !! k with Some _ => true | None => false end.

Section Handlers.
Context `{Chain, OpenSSL, AddressTypes, Wire}.

(** ** Reading, assigning, calling *)

Definition node {A} (f : CNode -> A) : H A := X.gets (fun s => f (st_node s)).
Definition world {A} (f : World -> A) : H A := X.gets (fun s => f (st_world s)).
Definition upd (f : CNode -> CNode) : H unit := X.modify (set_node f).
Definition updw (f : World -> World) : H unit := X.modify (set_world f).
Definition act (a : Action) : H unit :=
  X.modify (fun s => mkSt (st_node s) (st_world s) (st_vRecv s) (st_trace s ++ [a])).

(** [vRecv >> x]. *)
Definition read {A} (rd : bytes -> option (A * bytes)) : H A := fun s =>
  match rd (st_vRecv s) with
  | Some (a, rest) => (Done a, mkSt (st_node s) (st_world s) rest (st_trace s))
  | None => (Thrown, s)
  end.
(** [vRecv.empty()]. *)
Definition at_end : H bool := X.gets (fun s => match st_vRecv s with [] => true | _ => false end).

Definition unless (b : bool) (m : H unit) : H unit := if b then X.ret tt else m.
Definition whenb (b : bool) (m : H unit) : H unit := if b then m else X.ret tt.

Definition Push (m : OutMsg) : H unit :=
  act (PushMessage m) ;~ upd (fun n => Node.set_nSendSize (send_size (n_nSendSize n) m) n).

(** ** Misbehaviour: src/net.cpp *)

(** [CNode::Misbehaving]; [CloseSocketDisconnect] sets [fDisconnect]. *)
Definition Misbehave (howmuch : Z) : H bool :=
  act (Misbehaving howmuch) ;~
  addr <~ node (fun n => sv_ip (ca_service (n_addr n))) ;;
  if CNetAddr.IsLocal addr then X.ret false
  else
    upd (fun n => Node.set_nMisbehavior (n_nMisbehavior n + howmuch) n) ;~
    score <~ node n_nMisbehavior ;;
    banscore <~ world w_banscore ;;
    if banscore <=? score then
      banTime <~ world (fun w => w_time w + w_bantime w) ;;
      updw (fun w =>
        if default 0 (w_setBanned w !! addr) <? banTime
        then Glob.set_setBanned (<[addr := banTime]> (w_setBanned w)) w
        else Glob.set_setBanned (<[addr := default 0 (w_setBanned w !! addr)]> (w_setBanned w)) w) ;~
      upd (Node.set_fDisconnect true) ;~
      X.ret true
    else X.ret false.

Definition IsBanned (w : World) (ip : CNetAddr) : bool :=
  match w_setBanned w !! ip with Some t => w_time w <? t | None => false end.

Definition ClearBanned (w : World) : World := Glob.set_setBanned ∅ w.

(** ** Blocks *)

Definition IsInitialBlockDownload : bool := true.

Definition ProcessGetData : H unit := Push (ONotfound []).

(** Back to the first block of the orphan chain.  The chain has at most as many blocks as the
    map, so its size plus one rounds end every chain without a cycle. *)
Fixpoint OrphanRoot_loop (fuel : nat) (m : gmap uint256 CBlock) (pblock : CBlock) : option uint256 :=
  match fuel with
  | O => None
  | S fuel' =>
    match m !! hashPrevBlock (header pblock) with
    | Some prev => OrphanRoot_loop fuel' m prev
    | None => Some (header_hash (header pblock))
    end
  end.

Definition GetOrphanRoot (m : gmap uint256 CBlock) (pblock : CBlock) : option uint256 :=
  OrphanRoot_loop (S (base.size m)) m pblock.

Definition AlreadyHave (w : World) (inv : CInv) : bool :=
  if inv_type inv =? MSG_TX then true
  else if inv_type inv =? MSG_BLOCK then
    count (mapBlockIndex (w_globals w)) (inv_hash inv)
    || count (w_mapOrphanBlocks w) (inv_hash inv)
  else true.

Definition PushGetBlocks (pindexBegin : option uint256) (hashEnd : uint256) : H unit :=
  same <~ node (fun n => bool_decide (pindexBegin = n_LastGetBlocksBegin n) && (hashEnd =? n_hashLastGetBlocksEnd n)) ;;
  unless same (
    upd (Node.set_LastGetBlocksBegin pindexBegin) ;~
    upd (Node.set_hashLastGetBlocksEnd hashEnd) ;~
    Push (OGetblocks pindexBegin hashEnd)).

(** The checks against the last checkpoint. *)
Definition checkpoint_checks (w : World) (b : CBlock) : Verdict :=
  let g := w_globals w in
  match Checkpoints.GetLastCheckpoint (fCheckpoints g) (fTestNet g) (mapBlockIndex g) with
  | Some pcheckpoint =>
    if negb (hashPrevBlock (header b) =? w_hashBestChain w) then
      let deltaTime := CBlockHeader.GetBlockTime (header b) - bi_nTime pcheckpoint in
      if deltaTime <? 0 then DoS 100
      else
        let bnNewBlock := CBigNum.SetCompact (nBits (header b)) in
        let bnRequired := CBigNum.SetCompact (ComputeMinWork (fTestNet g) (bi_nBits pcheckpoint) deltaTime) in
        reject (CBigNum.gtb bnNewBlock bnRequired) (DoS 100)
    else Accept
  | None => Accept
  end.

(** An orphan is kept, and its node asked for the blocks before it. *)
Definition keep_orphan (b : CBlock) : H unit :=
  let hash := header_hash (header b) in
  updw (fun w => Glob.set_mapOrphanBlocks (<[hash := b]> (w_mapOrphanBlocks w)) w) ;~
  updw (fun w => Glob.set_mapOrphanBlocksByPrev
                   (w_mapOrphanBlocksByPrev w ++ [(hashPrevBlock (header b), hash)]) w) ;~
  w <~ world id ;;
  root <~ X.lift (GetOrphanRoot (w_mapOrphanBlocks w) b) ;;
  PushGetBlocks (w_pindexBest w) root.

(** What follows the checks. *)
Definition checked_block (b : CBlock) (v : Verdict) : H Verdict :=
  match v with
  | Accept =>
    w <~ world id ;;
    (if negb (hashPrevBlock (header b) =? 0)
        && negb (count (mapBlockIndex (w_globals w)) (hashPrevBlock (header b)))
     then keep_orphan b
     else act (GateAddBlock b)) ;~
    X.ret Accept
  | v => X.ret v
  end.

(** The verdict it reports; it returns true exactly when the verdict is [Accept].  [pfrom] is
    the node of the state; its only caller passes one. *)
Definition ProcessBlock (b : CBlock) : H Verdict :=
  let hash := header_hash (header b) in
  w <~ world id ;;
  if count (mapBlockIndex (w_globals w)) hash then X.ret Invalid
  else if count (w_mapOrphanBlocks w) hash then X.ret Invalid
  else
    v <~ X.lift (CheckBlock (w_globals w) b true true) ;;
    checked_block b (v >>> checkpoint_checks w b).

(** ** Handlers

    [Some r]: the handler returns [r]; [None]: it goes on behind the chain of commands. *)

Definition cmd (strCommand : bytes) (s : String.string) : bool := bool_decide (strCommand = lit s).

(** What follows the check of the version [v]. *)
Definition greet (v : Z) (addrMe : CAddress) (nTime : Z) : H (option bool) :=
  whenb (v =? 10300) (upd (Node.set_nVersion 300)) ;~
  e1 <~ at_end ;;
  fromNonce <~ (if e1 : bool then X.ret (default_address, 1)
                else addrFrom <~ read rd_addr ;; nonce <~ read rd_uint64 ;; X.ret (addrFrom, nonce)) ;;
  let '(addrFrom, nNonce) := fromNonce in
  e2 <~ at_end ;; unless e2 (sub <~ read rd_string ;; upd (Node.set_strSubVer sub)) ;~
  e3 <~ at_end ;; unless e3 (ht <~ read rd_int ;; upd (Node.set_nStartingHeight ht)) ;~
  e4 <~ at_end ;;
  relay <~ (if e4 : bool then X.ret true else read rd_bool) ;; upd (Node.set_fRelayTxes relay) ;~
  inbound <~ node n_fInbound ;;
  whenb (inbound && CNetAddr.IsRoutable (sv_ip (ca_service addrMe)))
    (upd (Node.set_addrLocal (Some addrMe)) ;~ act (SeenLocal addrMe)) ;~
  localNonce <~ world w_nLocalHostNonce ;;
  if (nNonce =? localNonce) && (1 <? nNonce) then upd (Node.set_fDisconnect true) ;~ X.ret (Some true)
  else
    whenb inbound (act PushVersion ;~ updw (fun w => Glob.set_nLocalHostNonce (w_freshNonce w) w)) ;~
    upd (fun n => Node.set_fClient (Z.land (n_nServices n) NODE_NETWORK =? 0) n) ;~
    addr <~ node n_addr ;;
    act (AddTimeData addr nTime) ;~
    Push OVerack ;~
    ver <~ node n_nVersion ;; act (SetSendVersion (Z.min ver PROTOCOL_VERSION)) ;~
    (if inbound : bool then
       whenb (memeq (sv_ip (ca_service addr)) (sv_ip (ca_service addrFrom)))
         (act (AddrAdd addrFrom addrFrom) ;~ act (AddrGood addrFrom))
     else
       noListen <~ world w_fNoListen ;;
       whenb (negb noListen && negb IsInitialBlockDownload)
         (local <~ world (fun w => w_LocalAddress w addr) ;;
          whenb (CNetAddr.IsRoutable (sv_ip (ca_service local))) (act (PushAddress local))) ;~
       oneShot <~ node n_fOneShot ;; size <~ world w_addrmanSize ;;
       whenb (oneShot || (CADDR_TIME_VERSION <=? ver) || (size <? 1000))
         (Push OGetaddr ;~ upd (Node.set_fGetAddr true)) ;~
       act (AddrGood addr)) ;~
    alerts <~ world (fun w => mapAlerts (w_alerts w)) ;;
    X.each (fun p => act (RelayAlert p.2 None)) alerts ;~
    upd (Node.set_fSuccessfullyConnected true) ;~
    ht <~ node n_nStartingHeight ;; act (InputBlockCount ht) ;~
    X.ret None.

Definition handle_version : H (option bool) :=
  v0 <~ node n_nVersion ;;
  if negb (v0 =? 0) then Misbehave 1 ;~ X.ret (Some false)
  else
    v <~ read rd_int ;; upd (Node.set_nVersion v) ;~
    sv <~ read rd_uint64 ;; upd (Node.set_nServices sv) ;~
    nTime <~ read rd_int64 ;;
    addrMe <~ read rd_addr ;;
    if v <? MIN_PROTO_VERSION then upd (Node.set_fDisconnect true) ;~ X.ret (Some false)
    else greet v addrMe nTime.

(** The nodes an address goes to: every node of a version that knows timed addresses, in the
    order of a hash of the salt, the address, the day and the node ([std::multimap]: sorted by
    key, equal keys in the order of insertion). *)
Fixpoint mix_insert (k : uint256) (p : Peer) (mapMix : list (uint256 * Peer)) : list (uint256 * Peer) :=
  match mapMix with
  | [] => [(k, p)]
  | (k', p') :: r => if k <? k' then (k, p) :: mapMix else (k', p') :: mix_insert k p r
  end.

Definition relay_mix (hashSalt : uint256) (now : Z) (addr : CAddress) (vNodes : list Peer) : list (uint256 * Peer) :=
  let hashAddr := addr_hash addr in
  let hashRand := Hash256 (Z.lxor (Z.lxor hashSalt (u64 (Z.shiftl hashAddr 32))) (u64 (now + hashAddr) / (24 * 60 * 60))) in
  fold_left (fun mapMix p =>
    if p_nVersion p <? CADDR_TIME_VERSION then mapMix
    else mix_insert (Hash256 (Z.lxor hashRand (p_pointer p))) p mapMix) vNodes [].

Definition relay_address (addr : CAddress) (fReachable : bool) : H unit :=
  salt <~ world w_hashSalt ;; fresh <~ world w_freshSalt ;;
  whenb (salt =? 0) (updw (Glob.set_hashSalt fresh)) ;~
  salt <~ world w_hashSalt ;; now <~ world w_time ;; peers <~ world w_vNodes ;;
  let nRelayNodes := if fReachable then 2%nat else 1%nat in
  X.each (fun kp => act (RelayAddress (p_pointer kp.2) addr)) (take nRelayNodes (relay_mix salt now addr peers)).

Definition set_time (t : Z) (a : CAddress) : CAddress :=
  mkAddress (ca_service a) (AddrMan.nServices a) t (nLastTry a).

(** One address of the message: kept when it is reachable. *)
Definition one_address (nNow : Z) (count : Z) (vAddrOk : list CAddress) (addr : CAddress) : H (list CAddress) :=
  let addr := if (nTime addr <=? 100000000) || (nNow + 10 * 60 <? nTime addr)
              then set_time (as_nTime (nNow - 5 * 24 * 60 * 60)) addr else addr in
  act (AddAddressKnown addr) ;~
  fReachable <~ world (fun w => w_IsReachable w (sv_ip (ca_service addr))) ;;
  fGetAddr <~ node n_fGetAddr ;;
  whenb ((nNow - 10 * 60 <? nTime addr) && negb fGetAddr && (count <=? 10)
         && CNetAddr.IsRoutable (sv_ip (ca_service addr)))
    (relay_address addr fReachable) ;~
  X.ret (if fReachable : bool then vAddrOk ++ [addr] else vAddrOk).

Fixpoint all_addresses (nNow count : Z) (vAddrOk vAddr : list CAddress) : H (list CAddress) :=
  match vAddr with
  | [] => X.ret vAddrOk
  | a :: r => ok <~ one_address nNow count vAddrOk a ;; all_addresses nNow count ok r
  end.

Definition handle_addr : H (option bool) :=
  vAddr <~ read rd_vaddr ;;
  ver <~ node n_nVersion ;; size <~ world w_addrmanSize ;;
  if (ver <? CADDR_TIME_VERSION) && (1000 <? size) then X.ret (Some true)
  else if 1000 <? lenZ vAddr then Misbehave 20 ;~ X.ret (Some false)
  else
    nNow <~ world (fun w => AdjustedTime (w_globals w)) ;;
    vAddrOk <~ all_addresses nNow (lenZ vAddr) [] vAddr ;;
    addr <~ node n_addr ;;
    act (AddrAddAll vAddrOk addr (2 * 60 * 60)) ;~
    whenb (lenZ vAddr <? 1000) (upd (Node.set_fGetAddr false)) ;~
    oneShot <~ node n_fOneShot ;;
    whenb oneShot (upd (Node.set_fDisconnect true)) ;~
    X.ret None.

(** The index of the last block of the inventory, -1 as an unsigned number when there is none. *)
Fixpoint last_block_from_end (i : Z) (rev_inv : list CInv) : Z :=
  match rev_inv with
  | [] => uint_max
  | inv :: r => if inv_type inv =? MSG_BLOCK then i else last_block_from_end (i - 1) r
  end.
Definition nLastBlock (vInv : list CInv) : Z := last_block_from_end (lenZ vInv - 1) (rev vInv).

Definition one_inv (nLast nInv : Z) (inv : CInv) : H unit :=
  act (AddInventoryKnown inv) ;~
  w <~ world id ;;
  if negb (AlreadyHave w inv) then
    unless (w_fImporting w || w_fReindex w) (act (AskFor inv))
  else
    match w_mapOrphanBlocks w !! inv_hash inv with
    | Some orphan =>
      if inv_type inv =? MSG_BLOCK then
        root <~ X.lift (GetOrphanRoot (w_mapOrphanBlocks w) orphan) ;;
        PushGetBlocks (w_pindexBest w) root
      else whenb (nInv =? nLast) (PushGetBlocks (Some (inv_hash inv)) 0)
    | None => whenb (nInv =? nLast) (PushGetBlocks (Some (inv_hash inv)) 0)
    end.

Fixpoint all_inv (nLast nInv : Z) (vInv : list CInv) : H unit :=
  match vInv with
  | [] => X.ret tt
  | inv :: r => one_inv nLast nInv inv ;~ all_inv nLast (nInv + 1) r
  end.

Definition handle_inv : H (option bool) :=
  vInv <~ read rd_vinv ;;
  if MAX_INV_SZ <? lenZ vInv then Misbehave 20 ;~ X.ret (Some false)
  else all_inv (nLastBlock vInv) 0 vInv ;~ X.ret None.

Definition handle_getdata : H (option bool) :=
  vInv <~ read rd_vinv ;;
  if MAX_INV_SZ <? lenZ vInv then Misbehave 20 ;~ X.ret (Some false)
  else
    upd (fun n => Node.set_vRecvGetData (n_vRecvGetData n ++ vInv) n) ;~
    ProcessGetData ;~ X.ret None.

Definition forget_asked (inv : CInv) : H unit :=
  updw (fun w => Glob.set_mapAlreadyAskedFor (List.filter (fun i => negb (bool_decide (i = inv))) (w_mapAlreadyAskedFor w)) w).

Definition handle_tx : H (option bool) :=
  tx <~ read rd_tx ;;
  let inv := mkInv MSG_TX (TxHash tx) in
  act (AddInventoryKnown inv) ;~ forget_asked inv ;~ X.ret None.

Definition handle_block : H (option bool) :=
  b <~ read rd_block ;;
  let inv := mkInv MSG_BLOCK (header_hash (header b)) in
  act (AddInventoryKnown inv) ;~
  v <~ ProcessBlock b ;;
  whenb (bool_decide (v = Accept)) (forget_asked inv) ;~
  match dos_of v with
  | Some nDoS => Misbehave nDoS ;~ X.ret None
  | None => X.ret None
  end.

Definition handle_getaddr : H (option bool) :=
  act ClearAddrToSend ;~
  vAddr <~ world w_addrmanGetAddr ;;
  X.each (fun addr => act (PushAddress addr)) vAddr ;~ X.ret None.

Definition handle_ping : H (option bool) :=
  ver <~ node n_nVersion ;;
  whenb (BIP0031_VERSION <? ver) (nonce <~ read rd_uint64 ;; Push (OPong nonce)) ;~ X.ret None.

(** [ProcessAlert] of Alert.v on the global alerts. *)
Definition process_alert (alert : CAlert) : H (option CAlert) := fun s =>
  let w := st_world s in
  match CAlert.ProcessAlert (AdjustedTime (w_globals w)) alert (w_alerts w) with
  | (o, al) => (o, set_world (Glob.set_alerts al) s)
  end.

Definition handle_alert : H (option bool) :=
  alert <~ read CAlert.Unserialize ;;
  let alertHash := CAlert.GetHash alert in
  known <~ node (fun n => bool_decide (alertHash ∈ n_setKnown n)) ;;
  unless known (
    accepted <~ process_alert alert ;;
    match accepted with
    | Some alert =>
      upd (fun n => Node.set_setKnown ({[alertHash]} ∪ n_setKnown n) n) ;~
      peers <~ world w_vNodes ;;
      X.each (fun p => act (RelayAlert alert (Some (p_pointer p)))) peers
    | None => Misbehave 10 ;~ X.ret tt
    end) ;~ X.ret None.

Definition handle_filterload : H (option bool) :=
  filter <~ read rd_filter ;;
  (if negb (IsWithinSizeConstraints filter) then Misbehave 100 ;~ X.ret tt
   else upd (Node.set_pfilter (Some filter))) ;~
  upd (Node.set_fRelayTxes true) ;~ X.ret None.

Definition handle_filteradd : H (option bool) :=
  vData <~ read rd_vch ;;
  (if MAX_SCRIPT_ELEMENT_SIZE <? lenZ vData then Misbehave 100 ;~ X.ret tt
   else
     pfilter <~ node n_pfilter ;;
     match pfilter with
     | Some _ => act (FilterInsert vData)
     | None => Misbehave 100 ;~ X.ret tt
     end) ;~ X.ret None.

Definition handle_filterclear : H (option bool) :=
  upd (Node.set_pfilter None) ;~ upd (Node.set_fRelayTxes true) ;~ X.ret None.

(** What happens when the handler returns: a value, or the closing brace of [ProcessMessage],
    which has no return statement there (undefined behaviour for the caller). *)
Inductive Ret := Returned (b : bool) | FellOff.

Definition handler (strCommand : bytes) (nVersion : Z) (fIgnoreBlocks : bool) : H (option bool) :=
  if cmd strCommand "version" then handle_version
  else if nVersion =? 0 then Misbehave 1 ;~ X.ret (Some false)
  else if cmd strCommand "verack" then
    ver <~ node n_nVersion ;; act (SetRecvVersion (Z.min ver PROTOCOL_VERSION)) ;~ X.ret None
  else if cmd strCommand "addr" then handle_addr
  else if cmd strCommand "inv" then handle_inv
  else if cmd strCommand "getdata" then handle_getdata
  else if cmd strCommand "getblocks" then X.ret None
  else if cmd strCommand "getheaders" then X.ret None
  else if cmd strCommand "tx" then handle_tx
  else if cmd strCommand "block" && negb fIgnoreBlocks then handle_block
  else if cmd strCommand "getaddr" then handle_getaddr
  else if cmd strCommand "mempool" then X.ret None
  else if cmd strCommand "ping" then handle_ping
  else if cmd strCommand "alert" then handle_alert
  else if cmd strCommand "filterload" then handle_filterload
  else if cmd strCommand "filteradd" then handle_filteradd
  else if cmd strCommand "filterclear" then handle_filterclear
  else X.ret None.

(** The update of the last seen time behind the chain of commands. *)
Definition epilogue (strCommand : bytes) : H unit :=
  net <~ node n_fNetworkNode ;; addr <~ node n_addr ;;
  whenb (net && (cmd strCommand "version" || cmd strCommand "addr" || cmd strCommand "inv"
                 || cmd strCommand "getdata" || cmd strCommand "ping"))
    (act (AddressCurrentlyConnected addr)).

Definition ProcessMessage (strCommand : bytes) : H Ret :=
  drop <~ world w_dropmessagestest ;;
  if bool_decide (drop = Some 0) then X.ret (Returned true)
  else
    ver <~ node n_nVersion ;; ignore <~ world (fun w => w_fImporting w || w_fReindex w) ;;
    r <~ handler strCommand ver ignore ;;
    match r with
    | Some b => X.ret (Returned b)
    | None => epilogue strCommand ;~ X.ret FellOff
    end.

(** ** The queue of received messages *)

Record CNetMessage := mkNetMessage {
  m_complete : bool; m_startOk : bool; m_hdrValid : bool; m_command : bytes;
  m_nMessageSize : Z; m_nChecksum : Z; m_vRecv : bytes }.

(** The first four bytes of the hash, as an [unsigned int]. *)
Definition nChecksum (m : CNetMessage) : Z := u32 (HashData (take (Z.to_nat (m_nMessageSize m)) (m_vRecv m))).

(** The messages are handled in the order of the queue.  The result is [fOk], the node and the
    globals, and what is left of the queue; an exception of a handler is caught.  [None]: a
    handler does not return. *)
Fixpoint Process_loop (queue : list CNetMessage) (s : St) : option (bool * St * list CNetMessage) :=
  match queue with
  | [] => Some (true, s, [])
  | msg :: rest =>
    if n_fDisconnect (st_node s) then Some (true, s, queue)
    else if SendBufferSize <=? n_nSendSize (st_node s) then Some (true, s, queue)
    else if negb (m_complete msg) then Some (true, s, queue)
    else if negb (m_startOk msg) then Some (false, s, rest)
    else if negb (m_hdrValid msg) then Process_loop rest s
    else if negb (nChecksum msg =? m_nChecksum msg) then Process_loop rest s
    else
      let s := mkSt (st_node s) (st_world s) (m_vRecv msg) (st_trace s) in
      match ProcessMessage (m_command msg) s with
      | (Stuck, _) => None
      | (_, s') => Process_loop rest s'
      end
  end.

(** What is left of the queue; [None] in the last place: it is not touched, since the node was
    disconnected (and its queue perhaps wiped). *)
Definition ProcessMessages (vRecvMsg : list CNetMessage) (s : St) : option (bool * St * option (list CNetMessage)) :=
  let s := match n_vRecvGetData (st_node s) with [] => s | _ => (ProcessGetData s).2 end in
  '(fOk, s, rest) ← Process_loop vRecvMsg s;
  Some (fOk, s, if n_fDisconnect (st_node s) then None else Some rest).

(** ** Sending *)

(** The due requests of [mapAskFor], in batches of 1000. *)
Fixpoint ask_loop (nNow : Z) (mapAskFor : list (Z * CInv)) (vGetData : list CInv) : H (list CInv) :=
  match mapAskFor with
  | [] => X.ret vGetData
  | (t, inv) :: r =>
    if t <=? nNow then
      w <~ world id ;;
      vGetData <~ (if negb (AlreadyHave w inv) then
                     let v := vGetData ++ [inv] in
                     if 1000 <=? lenZ v then Push (OGetdata v) ;~ X.ret [] else X.ret v
                   else X.ret vGetData) ;;
      upd (Node.set_mapAskFor r) ;~
      ask_loop nNow r vGetData
    else X.ret vGetData
  end.

Definition rebroadcast : H unit :=
  last <~ world w_nLastRebroadcast ;; peers <~ world w_vNodes ;; noListen <~ world w_fNoListen ;;
  X.each (fun p =>
    whenb (negb (last =? 0)) (act (ClearAddrKnown (p_pointer p))) ;~
    unless noListen (
      local <~ world (fun w => w_LocalAddress w (p_addr p)) ;;
      whenb (CNetAddr.IsRoutable (sv_ip (ca_service local))) (act (RelayAddress (p_pointer p) local)))) peers ;~
  updw (fun w => Glob.set_nLastRebroadcast (w_time w) w).

(** [lockMain]: whether [TRY_LOCK] got the lock. *)
Definition SendMessages (lockMain : bool) : H unit :=
  ver <~ node n_nVersion ;;
  if negb lockMain || (ver =? 0) then X.ret tt
  else
    now <~ world w_time ;;
    stale <~ node (fun n => negb (n_nLastSend n =? 0) && (30 * 60 <? now - n_nLastSend n) && n_sendEmpty n) ;;
    whenb stale (Push (OPing (if BIP0031_VERSION <? ver then Some 0 else None))) ;~
    busy <~ world (fun w => w_fImporting w || w_fReindex w) ;;
    start <~ node n_fStartSync ;;
    whenb (start && negb busy)
      (upd (Node.set_fStartSync false) ;~ best <~ world w_pindexBest ;; PushGetBlocks best 0) ;~
    last <~ world w_nLastRebroadcast ;;
    whenb (negb IsInitialBlockDownload && (24 * 60 * 60 <? now - last)) rebroadcast ;~
    asks <~ node n_mapAskFor ;;
    vGetData <~ ask_loop (now * 1000000) asks [] ;;
    whenb (bool_decide (vGetData <> [])) (Push (OGetdata vGetData)).

End Handlers.
