(* ===== verification/MessagesThms.v ===== *)
(** Theorems about the message handlers: what a node may do before its version message and what
    a connected node has negotiated, the walk to the root of an orphan chain, what becomes of a
    received block, what is asked for, and which messages reach a handler. *)

From S2P Require Import Prelude Monad Alert NetAddr AddrMan Core Block BigNum Checkpoints Validation ValidationThms Node Messages.

Section Handlers.
Context `{Chain, OpenSSL, AddressTypes, Wire}.

(** ** The walk to the root of an orphan chain *)

(** [rank] falls along the chain from [pblock] and from every block of the map. *)
Definition ranked (m : gmap uint256 CBlock) (rank : CBlock -> nat) (pblock : CBlock) : Prop :=
  forall b b', b = pblock \/ (exists h, m !! h = Some b) ->
    m !! hashPrevBlock (header b) = Some b' -> (rank b' < rank b)%nat.

(** The keys of the blocks below [pblock]. *)
Definition below (m : gmap uint256 CBlock) (rank : CBlock -> nat) (pblock : CBlock) : gset uint256 :=
  dom (filter (fun kb => (rank kb.2 < rank pblock)%nat) m).

Lemma elem_of_below m rank pblock k :
  k ∈ below m rank pblock <-> exists b, m !! k = Some b /\ (rank b < rank pblock)%nat.
Proof.
  unfold below. rewrite elem_of_dom. unfold is_Some. by setoid_rewrite map_lookup_filter_Some.
Qed.

Lemma OrphanRoot_loop_ends m rank fuel pblock :
  ranked m rank pblock -> (base.size (below m rank pblock) < fuel)%nat ->
  exists b, OrphanRoot_loop fuel m pblock = Some (header_hash (header b)) /\
    m !! hashPrevBlock (header b) = None /\ (b = pblock \/ exists h, m !! h = Some b).
Proof.
  revert pblock. induction fuel as [|fuel IH]; intros pblock Hr Hf; [lia|]. cbn [OrphanRoot_loop].
  destruct (m !! hashPrevBlock (header pblock)) as [prev|] eqn:Hp.
  - assert (Hlt : (rank prev < rank pblock)%nat) by (apply Hr; [by left|done]).
    destruct (IH prev) as (b & Hb & Hn & Hm).
    + intros b b' [->|Hin] Hb'; apply Hr; eauto.
    + assert (Hsub : below m rank prev ⊂ below m rank pblock); [|apply subset_size in Hsub; lia].
      split.
      * intros k. rewrite !elem_of_below. intros (b & ? & ?). exists b. split; [done|lia].
      * intros Hall. specialize (Hall (hashPrevBlock (header pblock))). rewrite !elem_of_below in Hall.
        destruct Hall as (b & Hb & Hl); [by exists prev|]. rewrite Hp in Hb. injection Hb as ->. lia.
    + exists b. split_and!; [done|done|]. right. destruct Hm as [->|]; [by eexists|done].
  - exists pblock. split_and!; [done|done|by left].
Qed.

Lemma GetOrphanRoot_ends m rank pblock :
  ranked m rank pblock ->
  exists b, GetOrphanRoot m pblock = Some (header_hash (header b)) /\
    m !! hashPrevBlock (header b) = None /\ (b = pblock \/ exists h, m !! h = Some b).
Proof.
  intros Hr. apply (OrphanRoot_loop_ends m rank); [done|].
  assert (Hle : below m rank pblock ⊆ dom m) by (apply dom_filter_subseteq).
  apply subseteq_size in Hle. rewrite size_dom in Hle. lia.
Qed.

Lemma OrphanRoot_cycle m fuel pblock :
  (forall b, b = pblock \/ (exists h, m !! h = Some b) -> is_Some (m !! hashPrevBlock (header b))) ->
  OrphanRoot_loop fuel m pblock = None.
Proof.
  intros Hc. revert pblock Hc. induction fuel as [|fuel IH]; intros pblock Hc; [done|]. cbn [OrphanRoot_loop].
  destruct (Hc pblock (or_introl eq_refl)) as [prev Hp]. rewrite Hp. apply IH.
  intros b [->|Hb]; apply Hc; right; eauto.
Qed.

(** When the orphan blocks have no cycle [GetOrphanRoot] ends at a block whose
    previous block is not an orphan, within as many steps as there are orphans; when the chain
    closes on itself it never ends, whatever the number of steps. *)
Theorem GetOrphanRoot_spec m pblock :
  (forall rank, ranked m rank pblock ->
     exists b, GetOrphanRoot m pblock = Some (header_hash (header b)) /\
       m !! hashPrevBlock (header b) = None /\ (b = pblock \/ exists h, m !! h = Some b)) /\
  ((forall b, b = pblock \/ (exists h, m !! h = Some b) -> is_Some (m !! hashPrevBlock (header b))) ->
     forall fuel, OrphanRoot_loop fuel m pblock = None).
Proof.
  split; [intros rank; apply GetOrphanRoot_ends|]. intros Hc fuel. by apply OrphanRoot_cycle.
Qed.

(** ** Received blocks *)

(** The block is not known yet and passes all checks. *)
Definition acceptable (w : World) (b : CBlock) : Prop :=
  mapBlockIndex (w_globals w) !! header_hash (header b) = None /\
  w_mapOrphanBlocks w !! header_hash (header b) = None /\
  CheckBlock (w_globals w) b true true = Some Accept /\ checkpoint_checks w b = Accept.

Definition is_orphan (w : World) (b : CBlock) : Prop :=
  hashPrevBlock (header b) <> 0 /\ mapBlockIndex (w_globals w) !! hashPrevBlock (header b) = None.

#[local] Instance is_orphan_dec w b : Decision (is_orphan w b).
Proof. unfold is_orphan. apply _. Defined.

(** The maps after an orphan was stored. *)
Definition with_orphan (w : World) (b : CBlock) : World :=
  Glob.set_mapOrphanBlocksByPrev (w_mapOrphanBlocksByPrev w ++ [(hashPrevBlock (header b), header_hash (header b))])
    (Glob.set_mapOrphanBlocks (<[header_hash (header b) := b]> (w_mapOrphanBlocks w)) w).

Definition same_request (n : CNode) (pindexBegin : option uint256) (hashEnd : uint256) : bool :=
  bool_decide (pindexBegin = n_LastGetBlocksBegin n) && (hashEnd =? n_hashLastGetBlocksEnd n).

Lemma PushGetBlocks_run pb he s :
  exists n, PushGetBlocks pb he s =
    (Done tt, mkSt n (st_world s) (st_vRecv s)
       (st_trace s ++ (if same_request (st_node s) pb he then [] else [PushMessage (OGetblocks pb he)]))).
Proof.
  destruct s as [n w r t]. unfold PushGetBlocks, X.bind, node, X.gets. cbn [st_node].
  fold (same_request n pb he). destruct (same_request n pb he); cbn [unless].
  - exists n. unfold X.ret. cbn. by rewrite app_nil_r.
  - eexists. cbn. reflexivity.
Qed.

Lemma ProcessBlock_checked b s :
  ProcessBlock b s =
    if count (mapBlockIndex (w_globals (st_world s))) (header_hash (header b))
       || count (w_mapOrphanBlocks (st_world s)) (header_hash (header b))
    then (Done Invalid, s)
    else match CheckBlock (w_globals (st_world s)) b true true with
         | Some v => checked_block b (v >>> checkpoint_checks (st_world s) b) s
         | None => (Stuck, s)
         end.
Proof.
  unfold ProcessBlock, X.bind, world, X.gets, id. destruct (count _ _); [done|]. cbn [orb].
  destruct (count _ _); [done|]. unfold X.lift. by destruct (CheckBlock _ _ _ _).
Qed.

Lemma keep_orphan_run b s root :
  GetOrphanRoot (<[header_hash (header b) := b]> (w_mapOrphanBlocks (st_world s))) b = Some root ->
  exists n, keep_orphan b s =
    (Done tt, mkSt n (with_orphan (st_world s) b) (st_vRecv s)
       (st_trace s ++ (if same_request (st_node s) (w_pindexBest (st_world s)) root then []
                       else [PushMessage (OGetblocks (w_pindexBest (st_world s)) root)]))).
Proof.
  intros Hroot. destruct s as [n w r t]. cbn [st_world st_node st_vRecv st_trace] in *.
  unfold keep_orphan, X.bind, updw, X.modify, world, X.gets, X.lift, id, set_world.
  cbn [st_world st_node st_vRecv st_trace].
  replace (Glob.set_mapOrphanBlocksByPrev _ _) with (with_orphan w b) by (by destruct w).
  replace (w_mapOrphanBlocks (with_orphan w b)) with (<[header_hash (header b) := b]> (w_mapOrphanBlocks w)) by (by destruct w).
  replace (w_pindexBest (with_orphan w b)) with (w_pindexBest w) by (by destruct w).
  rewrite Hroot. apply (PushGetBlocks_run _ _ (mkSt n (with_orphan w b) r t)).
Qed.

Lemma orphan_test w b :
  negb (hashPrevBlock (header b) =? 0) && negb (count (mapBlockIndex (w_globals w)) (hashPrevBlock (header b)))
  = bool_decide (is_orphan w b).
Proof.
  apply Bool.eq_iff_eq_true. rewrite bool_decide_eq_true, andb_true_iff, !negb_true_iff, Z.eqb_neq.
  unfold is_orphan, count. destruct (_ !! _); naive_solver.
Qed.

(** C2 [ProcessBlock] reports acceptance exactly for a block that is new and passes the
    checks.  An accepted block whose previous block is known goes to the gate and nothing else
    changes; an accepted orphan is stored in both orphan maps and does not reach the gate, and
    the blocks before it are asked for; a refused block changes nothing.  It ends when the
    orphans have no cycle. *)
Theorem ProcessBlock_spec b s rank :
  let w := st_world s in
  ranked (<[header_hash (header b) := b]> (w_mapOrphanBlocks w)) rank b ->
  exists v s', ProcessBlock b s = (Done v, s') /\
    (v = Accept <-> acceptable w b) /\
    (v <> Accept -> s' = s) /\
    (v = Accept -> ~ is_orphan w b -> s' = mkSt (st_node s) w (st_vRecv s) (st_trace s ++ [GateAddBlock b])) /\
    (v = Accept -> is_orphan w b ->
       st_world s' = with_orphan w b /\
       exists root, GetOrphanRoot (w_mapOrphanBlocks (st_world s')) b = Some root /\
         st_trace s' = st_trace s ++ (if same_request (st_node s) (w_pindexBest w) root then []
                                      else [PushMessage (OGetblocks (w_pindexBest w) root)])).
Proof.
  intros w Hr. rewrite ProcessBlock_checked. fold w.
  assert (Hcount : forall A (m : gmap uint256 A) k, count m k = false <-> m !! k = None)
    by (intros A m k; unfold count; by destruct (m !! k)).
  destruct (count _ _ || count _ _) eqn:Hknown.
  { exists Invalid, s. split_and!; try done. split; [done|]. intros (H1' & H2' & _).
    apply Hcount in H1', H2'. by rewrite H1', H2' in Hknown. }
  apply orb_false_iff in Hknown as [K1 K2]. apply Hcount in K1, K2.
  destruct (CheckBlock_iff (w_globals w) b true true) as (v & Hv & _). rewrite Hv.
  assert (Hacc : (v >>> checkpoint_checks w b) = Accept <-> acceptable w b).
  { unfold acceptable. rewrite Hv, and_then_Accept. naive_solver. }
  setoid_rewrite <-Hacc. destruct (v >>> checkpoint_checks w b) as [|n|]; cbn [checked_block].
  2,3: eexists _, s; (split; [reflexivity|]); split_and!; done.
  unfold X.bind at 1, world, X.gets, id. fold w. rewrite orphan_test.
  destruct (decide (is_orphan w b)) as [Ho|Ho].
  - rewrite bool_decide_eq_true_2 by done.
    destruct (GetOrphanRoot_ends _ rank b Hr) as (bb & Hroot & _).
    destruct (keep_orphan_run b s _ Hroot) as (n & Hk). unfold X.bind. rewrite Hk.
    eexists _, _. split; [reflexivity|]. split_and!; try done. intros _ _. cbn [st_world st_trace]. split; [done|].
    eexists. split; [|done]. fold w. by destruct w.
  - rewrite bool_decide_eq_false_2 by done. eexists _, _. split; [reflexivity|]. by split_and!.
Qed.

End Handlers.
