(* ===== verification/PeerThms.v ===== *)
(** Theorems about the conversation with a peer: what is negotiated by the version message, what
    happens before it, bans, and which messages of the queue reach a handler. *)

From S2P Require Import Prelude Monad Alert AlertThms NetAddr AddrMan Core Block BigNum Checkpoints Validation ValidationThms Node Messages MessagesThms.

Section Peer.
Context `{Chain, OpenSSL, AddressTypes, Wire}.

(** ** What the steps of a handler leave alone *)

(** Before and after agree on [f]. *)
Definition same {A} (f : St -> A) (s s' : St) : Prop := f s' = f s.

#[global] Instance same_preorder {A} (f : St -> A) : PreOrder (same f).
Proof. unfold same. split; [done|]. intros s1 s2 s3 E1 E2. by rewrite E2. Qed.

(** What the version message settles. *)
Definition negotiated (n : CNode) :=
  (n_nVersion n, n_nServices n, n_strSubVer n, n_nStartingHeight n, n_fSuccessfullyConnected n).

Notation settled := (same (fun s => negotiated (st_node s))).

Lemma read_settled {A} (rd : bytes -> option (A * bytes)) : X.keeps settled (read rd).
Proof. intros s. unfold same, read. by destruct (rd (st_vRecv s)) as [[a r]|]. Qed.
Lemma upd_settled f : (forall n, negotiated (f n) = negotiated n) -> X.keeps settled (upd f).
Proof. intros Hf s. apply Hf. Qed.
Lemma updw_settled f : X.keeps settled (updw f).
Proof. intros s. reflexivity. Qed.
Lemma act_settled a : X.keeps settled (act a).
Proof. intros s. reflexivity. Qed.

Create HintDb settled.
#[local] Hint Resolve read_settled updw_settled act_settled : settled.

(** Walks through a handler. *)
Ltac settle :=
  repeat first
    [ solve [auto with settled]
    | apply X.keeps_ret; apply _ | apply X.keeps_gets; apply _ | apply X.keeps_lift; apply _
    | apply X.keeps_throw; apply _
    | apply upd_settled; by intros []
    | apply X.keeps_each; [apply _|intros ?]
    | apply X.keeps_bind; [apply _| |intros ?]
    | match goal with |- X.keeps _ (match ?x with _ => _ end) => destruct x end ].

Lemma Push_settled m : X.keeps settled (Push m).
Proof. unfold Push. settle. Qed.
#[local] Hint Resolve Push_settled : settled.
Lemma Misbehave_settled h : X.keeps settled (Misbehave h).
Proof. unfold Misbehave, node, world. settle. Qed.
#[local] Hint Resolve Misbehave_settled : settled.
Lemma PushGetBlocks_settled p h : X.keeps settled (PushGetBlocks p h).
Proof. unfold PushGetBlocks, unless, node. settle. Qed.
#[local] Hint Resolve PushGetBlocks_settled : settled.
Lemma ProcessBlock_settled b : X.keeps settled (ProcessBlock b).
Proof. unfold ProcessBlock, checked_block, keep_orphan, world. settle. Qed.
#[local] Hint Resolve ProcessBlock_settled : settled.
Lemma process_alert_run a s :
  exists al, process_alert a s = ((CAlert.ProcessAlert (AdjustedTime (w_globals (st_world s))) a (w_alerts (st_world s))).1,
                                  set_world (Glob.set_alerts al) s).
Proof. unfold process_alert. destruct (CAlert.ProcessAlert _ a _) as [o al]. by exists al. Qed.
Lemma process_alert_settled a : X.keeps settled (process_alert a).
Proof. intros s. by destruct (process_alert_run a s) as [al ->]. Qed.
#[local] Hint Resolve process_alert_settled : settled.
Lemma all_addresses_settled nNow n ok l : X.keeps settled (all_addresses nNow n ok l).
Proof.
  revert ok. induction l as [|a l IH]; intros ok; cbn [all_addresses]; [settle|].
  unfold one_address, relay_address, whenb, world, node. settle.
Qed.
#[local] Hint Resolve all_addresses_settled : settled.
Lemma all_inv_settled l n vInv : X.keeps settled (all_inv l n vInv).
Proof.
  revert n. induction vInv as [|i r IH]; intros n; cbn [all_inv]; [settle|].
  unfold one_inv, unless, whenb, world. settle.
Qed.
#[local] Hint Resolve all_inv_settled : settled.

Lemma epilogue_settled c : X.keeps settled (epilogue c).
Proof. unfold epilogue, whenb, node. settle. Qed.
#[local] Hint Resolve epilogue_settled : settled.

(** No command but the first version message touches what is settled. *)
Lemma handler_settled c v ign :
  (cmd c "version" = false) -> X.keeps settled (handler c v ign).
Proof.
  intros Hc. unfold handler. rewrite Hc.
  unfold handle_addr, handle_inv, handle_getdata, handle_tx, handle_block, handle_getaddr, handle_ping,
    handle_alert, handle_filterload, handle_filteradd, handle_filterclear, ProcessGetData, forget_asked,
    whenb, unless, node, world.
  settle.
Qed.

Lemma handle_version_again : X.keeps (fun s s' => n_nVersion (st_node s) <> 0 -> settled s s') handle_version.
Proof.
  intros s Hs. unfold handle_version, X.bind at 1, node, X.gets at 1.
  rewrite (proj2 (Z.eqb_neq _ _) Hs). cbn [negb].
  assert (K : X.keeps settled (Misbehave 1;~ X.ret (Some false))) by settle. apply K.
Qed.

(** ** The handshake *)

(** A connected node has a version this node talks to. *)
Definition handshaken (n : CNode) : Prop :=
  n_fSuccessfullyConnected n = true -> MIN_PROTO_VERSION <= n_nVersion n.

Definition keeps_inv {A} (P : CNode -> Prop) (m : H A) : Prop :=
  X.keeps (fun s s' => P (st_node s) -> P (st_node s')) m.

#[global] Instance inv_preorder (P : CNode -> Prop) : PreOrder (fun s s' => P (st_node s) -> P (st_node s')).
Proof. split; [by intros ?|]. intros s1 s2 s3; tauto. Qed.

Lemma settled_inv {A} (P : CNode -> Prop) (m : H A) :
  (forall n n', negotiated n' = negotiated n -> P n -> P n') -> X.keeps settled m -> keeps_inv P m.
Proof. intros HP Hm s Hs. eapply HP; [apply Hm|done]. Qed.

Definition current (n : CNode) : Prop := MIN_PROTO_VERSION <= n_nVersion n.

Lemma upd_current f : (forall n, n_nVersion (f n) = n_nVersion n) -> keeps_inv current (upd f).
Proof. intros Hf s Hs. unfold current, upd, X.modify, set_node. cbn. by rewrite Hf. Qed.
Lemma upd_300_current b : keeps_inv current (whenb b (upd (Node.set_nVersion 300))).
Proof.
  pose proof MIN_PROTO_range. destruct b; [|intros s; done].
  intros s _. unfold current. cbn. destruct (st_node s). cbn. lia.
Qed.

Lemma greet_current v addrMe nTime : keeps_inv current (greet v addrMe nTime).
Proof.
  unfold greet, unless, whenb, node, world, at_end, keeps_inv.
  repeat first
    [ apply X.keeps_bind; [apply _| |intros ?]
    | apply upd_current; by intros []
    | match goal with |- X.keeps _ (match ?x with _ => _ end) => destruct x end
    | solve [apply (settled_inv current); [by intros n n' [= Hv _ _ _ _]; unfold current; rewrite Hv|settle]] ].
  all: apply (upd_300_current true).
Qed.

Lemma settled_handshaken n n' : negotiated n' = negotiated n -> handshaken n -> handshaken n'.
Proof. intros [= Ev _ _ _ Ec]. unfold handshaken. by rewrite Ev, Ec. Qed.

Definition unconnected (n : CNode) : Prop := n_fSuccessfullyConnected n = false.

Lemma unconnected_handshaken n : unconnected n -> handshaken n.
Proof. unfold unconnected, handshaken. by intros ->. Qed.

(** A step between two predicates, whatever its outcome. *)
Lemma bind_read {A B} (rd : bytes -> option (A * bytes)) (k : A -> H B) (P Q : CNode -> Prop) s :
  P (st_node s) -> (forall n, P n -> Q n) -> (forall a s', P (st_node s') -> Q (st_node (k a s').2)) ->
  Q (st_node ((a <~ read rd ;; k a) s).2).
Proof.
  intros Hs HPQ Hk. unfold X.bind, read. destruct (rd (st_vRecv s)) as [[a r]|]; [|by apply HPQ].
  by apply Hk.
Qed.

Lemma handle_version_handshaken : keeps_inv handshaken handle_version.
Proof.
  pose proof MIN_PROTO_range. intros s Hs. destruct (Z.eq_dec (n_nVersion (st_node s)) 0) as [E|E].
  2: { apply (settled_handshaken (st_node s)); [by apply handle_version_again|done]. }
  assert (Hun : unconnected (st_node s)).
  { unfold unconnected, handshaken in *. destruct (n_fSuccessfullyConnected _); [|done]. rewrite E in Hs.
    specialize (Hs eq_refl). lia. }
  unfold handle_version, node. unfold X.bind at 1, X.gets at 1. rewrite E. cbn [Z.eqb negb].
  apply (bind_read _ _ unconnected); [done|apply unconnected_handshaken|]. intros v s1 H1'.
  unfold X.bind at 1, upd at 1, X.modify at 1.
  set (P := fun n => unconnected n /\ n_nVersion n = v).
  assert (HP : forall n, P n -> handshaken n) by (intros n [? _]; by apply unconnected_handshaken).
  apply (bind_read _ _ P); [by destruct s1 as [[] ? ? ?]|done|]. intros sv s2 H2'.
  unfold X.bind at 1, upd at 1, X.modify at 1.
  apply (bind_read _ _ P); [by destruct s2 as [[] ? ? ?]|done|]. intros nTime s3 H3'.
  apply (bind_read _ _ P); [done|done|]. intros addrMe s4 [H4' Hv].
  destruct (Z.ltb_spec v MIN_PROTO_VERSION).
  - apply unconnected_handshaken. by destruct s4 as [[] ? ? ?].
  - intros _. apply greet_current. unfold current. by rewrite Hv.
Qed.

Lemma handler_handshaken c v ign : keeps_inv handshaken (handler c v ign).
Proof.
  destruct (cmd c "version") eqn:Hc.
  - unfold handler. rewrite Hc. apply handle_version_handshaken.
  - apply settled_inv; [apply settled_handshaken|]. by apply handler_settled.
Qed.

(** The steps of [ProcessMessage] around the handler. *)
Lemma ProcessMessage_run c s :
  ProcessMessage c s =
    if bool_decide (w_dropmessagestest (st_world s) = Some 0) then (Done (Returned true), s)
    else (r <~ handler c (n_nVersion (st_node s)) (w_fImporting (st_world s) || w_fReindex (st_world s)) ;;
          match r with Some b => X.ret (Returned b) | None => epilogue c ;~ X.ret FellOff end) s.
Proof. unfold ProcessMessage, world, node. unfold X.bind at 1, X.gets at 1. by destruct (bool_decide _). Qed.

Lemma ProcessMessage_keeps c (R : St -> St -> Prop) `{!PreOrder R} s :
  R s (handler c (n_nVersion (st_node s)) (w_fImporting (st_world s) || w_fReindex (st_world s)) s).2 ->
  X.keeps R (epilogue c) -> R s (ProcessMessage c s).2.
Proof.
  intros Hh He. rewrite ProcessMessage_run. destruct (bool_decide _); [by apply reflexivity|]. unfold X.bind at 1.
  destruct (handler _ _ _ _) as [[[b|]| |] s']; cbn [snd] in *; try done.
  etransitivity; [exact Hh|]. assert (K : X.keeps R (epilogue c;~ X.ret FellOff)); [|apply K].
  apply X.keeps_bind; [apply _|done|]. intros _ s0. reflexivity.
Qed.

Lemma ProcessMessage_handshaken c : keeps_inv handshaken (ProcessMessage c).
Proof.
  intros s. apply (ProcessMessage_keeps c (fun s s' => handshaken (st_node s) -> handshaken (st_node s'))).
  - apply handler_handshaken.
  - apply settled_inv; [apply settled_handshaken|apply epilogue_settled].
Qed.

Lemma ProcessMessage_settled c s : n_nVersion (st_node s) <> 0 -> settled s (ProcessMessage c s).2.
Proof.
  intros Hs. apply (ProcessMessage_keeps c settled); [|apply epilogue_settled].
  destruct (cmd c "version") eqn:Hc; [|by apply handler_settled].
  unfold handler. rewrite Hc. by apply handle_version_again.
Qed.

(** ** The queue *)

(** A relation that every message of the queue respects holds of the whole queue. *)
Lemma Process_loop_keeps (R : St -> St -> Prop) `{!PreOrder R} queue s fOk s' rest :
  (forall s r, R s (mkSt (st_node s) (st_world s) r (st_trace s))) ->
  Forall (fun msg => forall s, R s (ProcessMessage (m_command msg) s).2) queue ->
  Process_loop queue s = Some (fOk, s', rest) -> R s s'.
Proof.
  intros Hr Hq. revert s. induction Hq as [|msg queue HR _ IH]; intros s; cbn [Process_loop].
  { intros [= <- <- <-]. reflexivity. }
  repeat case_match; try (intros [= <- <- <-]; reflexivity); try done; try apply IH.
  all: intros Hl; etransitivity; [apply Hr|]; etransitivity; [apply HR|].
  all: match goal with E : ProcessMessage _ _ = _ |- _ => rewrite E end; cbn [snd]; eauto.
Qed.

Lemma Push_run m s :
  exists n, Push m s = (Done tt, mkSt n (st_world s) (st_vRecv s) (st_trace s ++ [PushMessage m])) /\
    negotiated n = negotiated (st_node s).
Proof. destruct s as [n w r t]. eexists. split; [reflexivity|]. by destruct n. Qed.

(** ** No handler is stuck *)

(** The orphans are stored under their hash, and hashes have no cycles. *)
Definition keyed (s : St) : Prop :=
  forall h b, w_mapOrphanBlocks (st_world s) !! h = Some b -> header_hash (header b) = h.

Definition hash_ranked (rank : CBlock -> nat) : Prop :=
  forall b b', hashPrevBlock (header b) = header_hash (header b') -> (rank b' < rank b)%nat.

Definition runs {A} (m : H A) : Prop := forall s, keyed s -> (m s).1 <> Stuck /\ keyed (m s).2.

Lemma runs_bind {A B} (m : H A) (f : A -> H B) : runs m -> (forall a, runs (f a)) -> runs (X.bind m f).
Proof.
  intros Hm Hf s Hs. unfold X.bind. specialize (Hm s Hs). destruct (m s) as [[a| |] s'], Hm as [H1' H2'];
    cbn [fst snd] in *; [by apply Hf|done|done].
Qed.
Lemma runs_world {A} (m : H A) : (forall s, (m s).1 <> Stuck) -> X.keeps (same (fun s => w_mapOrphanBlocks (st_world s))) m -> runs m.
Proof. intros H1' H2' s Hs. split; [done|]. unfold keyed. by rewrite (H2' s). Qed.

Lemma runs_read {A} (rd : bytes -> option (A * bytes)) : runs (read rd).
Proof. apply runs_world; intros s; unfold read, same; by destruct (rd (st_vRecv s)) as [[]|]. Qed.
Lemma runs_upd f : runs (upd f).
Proof. by apply runs_world. Qed.
Lemma runs_updw f : (forall w, w_mapOrphanBlocks (f w) = w_mapOrphanBlocks w) -> runs (updw f).
Proof. intros Hf. apply runs_world; [done|]. intros s. apply Hf. Qed.
Lemma runs_act a : runs (act a).
Proof. by apply runs_world. Qed.
Lemma runs_ret {A} (a : A) : runs (X.ret a).
Proof. by apply runs_world. Qed.
Lemma runs_gets {A} (f : St -> A) : runs (X.gets f).
Proof. by apply runs_world. Qed.
Lemma runs_each {A} (f : A -> H unit) l : (forall a, runs (f a)) -> runs (X.each f l).
Proof. intros Hf. induction l as [|x l IH]; [apply runs_ret|]. by apply runs_bind. Qed.

Lemma keyed_ranked rank s b : hash_ranked rank -> keyed s -> ranked (w_mapOrphanBlocks (st_world s)) rank b.
Proof. intros Hrank Hs b0 b' _ Hb'. apply Hrank. symmetry. by eapply Hs. Qed.

Lemma runs_root rank b (k : uint256 -> H unit) s :
  hash_ranked rank -> (forall root, runs (k root)) -> keyed s ->
  let r := (root <~ X.lift (GetOrphanRoot (w_mapOrphanBlocks (st_world s)) b) ;; k root) s in
  r.1 <> Stuck /\ keyed r.2.
Proof.
  intros Hrank Hk Hs. destruct (GetOrphanRoot_ends _ rank b (keyed_ranked rank s b Hrank Hs)) as (b' & Hb & _).
  unfold X.bind, X.lift. rewrite Hb. by apply Hk.
Qed.

Lemma runs_with_world {A} (k : World -> H A) :
  (forall s, keyed s -> (k (st_world s) s).1 <> Stuck /\ keyed (k (st_world s) s).2) -> runs (w <~ world id ;; k w).
Proof. intros Hk s Hs. apply (Hk s Hs). Qed.

#[local] Hint Resolve runs_read runs_upd runs_act runs_ret runs_gets : runs.

Ltac running :=
  repeat first
    [ solve [auto with runs]
    | apply runs_bind; [|intros ?]
    | apply runs_updw; intros []; by repeat case_match
    | apply runs_each; intros ?
    | match goal with |- runs (match ?x with _ => _ end) => destruct x end ].

Lemma runs_Push m : runs (Push m).
Proof. unfold Push. running. Qed.
#[local] Hint Resolve runs_Push : runs.
Lemma runs_Misbehave h : runs (Misbehave h).
Proof. unfold Misbehave, node, world. running. Qed.
#[local] Hint Resolve runs_Misbehave : runs.
Lemma runs_PushGetBlocks p h : runs (PushGetBlocks p h).
Proof. unfold PushGetBlocks, unless, node. running. Qed.
#[local] Hint Resolve runs_PushGetBlocks : runs.
Lemma runs_process_alert a : runs (process_alert a).
Proof.
  apply runs_world; intros s; destruct (process_alert_run a s) as [al ->]; [by apply ProcessAlert_returns|].
  unfold same. cbn. by destruct (st_world s).
Qed.
#[local] Hint Resolve runs_process_alert : runs.
Lemma runs_all_addresses nNow n ok l : runs (all_addresses nNow n ok l).
Proof.
  revert ok. induction l as [|a l IH]; intros ok; cbn [all_addresses]; [running|].
  unfold one_address, relay_address, whenb, world, node. running.
Qed.
#[local] Hint Resolve runs_all_addresses : runs.

Section Ranked.
Context (rank : CBlock -> nat) (Hrank : hash_ranked rank).

Lemma runs_keep_orphan b : runs (keep_orphan b).
Proof.
  intros s Hs. unfold keep_orphan, updw. unfold X.bind at 1 2 3, X.modify, world, X.gets, id.
  match goal with |- context [set_world ?f (set_world ?g s)] => set (s' := set_world f (set_world g s)) end.
  apply (runs_root rank b _ s' Hrank).
  - intros root. apply runs_PushGetBlocks.
  - intros h b'. subst s'. destruct s as [n [] r t]. cbn. rewrite lookup_insert_Some.
    intros [[<- <-]|[_ Hl]]; [done|by apply Hs].
Qed.
#[local] Hint Resolve runs_keep_orphan : runs.

Lemma runs_ProcessBlock b : runs (ProcessBlock b).
Proof.
  intros s Hs. rewrite ProcessBlock_checked. destruct (count _ _ || count _ _); [done|].
  destruct (CheckBlock_iff (w_globals (st_world s)) b true true) as (v & -> & _).
  set (v' := v >>> checkpoint_checks (st_world s) b). clearbody v'.
  assert (K : runs (checked_block b v')); [|by apply K].
  unfold checked_block, world. destruct v'; running.
Qed.
#[local] Hint Resolve runs_ProcessBlock : runs.

Lemma runs_one_inv l n i : runs (one_inv l n i).
Proof.
  unfold one_inv. apply runs_bind; [running|intros _]. apply runs_with_world. intros s Hs.
  assert (K1 : runs (unless (w_fImporting (st_world s) || w_fReindex (st_world s)) (act (AskFor i)))) by (unfold unless; running).
  destruct (negb _); [by apply K1|].
  assert (K : runs (whenb (n =? l) (PushGetBlocks (Some (inv_hash i)) 0))) by (unfold whenb; running).
  destruct (w_mapOrphanBlocks (st_world s) !! inv_hash i) as [b|]; [|by apply K].
  destruct (inv_type i =? MSG_BLOCK); [|by apply K]. apply (runs_root rank b _ s Hrank); [|done].
  intros root. apply runs_PushGetBlocks.
Qed.

Lemma runs_all_inv l n vInv : runs (all_inv l n vInv).
Proof.
  revert n. induction vInv as [|i r IH]; intros n; cbn [all_inv]; [running|]. apply runs_bind; [apply runs_one_inv|done].
Qed.
#[local] Hint Resolve runs_all_inv : runs.

Lemma runs_handler c v ign : runs (handler c v ign).
Proof.
  unfold handler, handle_version, greet, handle_addr, handle_inv, handle_getdata, handle_tx, handle_block,
    handle_getaddr, handle_ping, handle_alert, handle_filterload, handle_filteradd, handle_filterclear,
    ProcessGetData, forget_asked, whenb, unless, node, world, at_end.
  running.
Qed.

Lemma runs_ProcessMessage c : runs (ProcessMessage c).
Proof.
  unfold ProcessMessage, epilogue, whenb, node, world. running. apply runs_handler.
Qed.

Lemma Process_loop_runs queue s : keyed s -> exists r, Process_loop queue s = Some r.
Proof.
  revert s. induction queue as [|msg queue IH]; intros s Hs; cbn [Process_loop]; [by eexists|].
  repeat case_match; try (by eexists); try by apply IH.
  all: pose proof (runs_ProcessMessage (m_command msg) (mkSt (st_node s) (st_world s) (m_vRecv msg) (st_trace s)) Hs) as K.
  all: match goal with E : ProcessMessage _ _ = _ |- _ => rewrite E in K end.
  all: cbn [fst snd] in K; destruct K; try done; by apply IH.
Qed.
End Ranked.

(** C7 When the orphans are stored under their hash and hashes have no cycle,
    [ProcessMessages] returns, for every queue.  It keeps the invariant that a connected node
    has sent a version this node talks to, and once a node has named its version nothing of what
    the version message settles changes any more, whatever it sends. *)
Theorem ProcessMessages_handshake queue s rank :
  hash_ranked rank -> keyed s ->
  exists fOk s' rest, ProcessMessages queue s = Some (fOk, s', rest) /\
    (handshaken (st_node s) -> handshaken (st_node s')) /\
    (n_nVersion (st_node s) <> 0 -> negotiated (st_node s') = negotiated (st_node s)).
Proof.
  intros Hrank Hs. unfold ProcessMessages.
  set (s0 := match n_vRecvGetData (st_node s) with [] => s | _ => _ end).
  assert (H0' : settled s s0 /\ keyed s0).
  { subst s0. destruct (n_vRecvGetData _); [done|]. split; [apply Push_settled|by apply runs_Push]. }
  clearbody s0. destruct H0' as [Hset Hk].
  destruct (Process_loop_runs rank Hrank queue s0 Hk) as [[[fOk s'] rest] Hl]. rewrite Hl. cbn.
  eexists _, _, _. split; [reflexivity|]. split.
  - intros Hh. apply (Process_loop_keeps (fun s s' => handshaken (st_node s) -> handshaken (st_node s')) queue s0 fOk s' rest); try done.
    + apply Forall_forall. intros msg _ s1. apply ProcessMessage_handshaken.
    + by apply (settled_handshaken (st_node s)).
  - intros Hv. rewrite <-Hset. assert (Hv0 : n_nVersion (st_node s0) <> 0) by (by injection Hset as -> _ _ _ _).
    revert Hv0. set (R := fun s s' : St => n_nVersion (st_node s) <> 0 -> settled s s').
    assert (HR : PreOrder R).
    { split; [by intros ? _|]. intros s1 s2 s3 E1 E2 Hn. specialize (E1 Hn). etransitivity; [exact E1|].
      apply E2. by injection E1 as -> _ _ _ _. }
    apply (Process_loop_keeps R queue s0 fOk s' rest); try done.
    apply Forall_forall. intros msg _ s1. unfold R. apply ProcessMessage_settled.
Qed.

(** ** Before the version message *)

(** All of a node, and all of the globals, that a refused message leaves alone. *)
Definition apart_from_score (n : CNode) : CNode := Node.set_fDisconnect false (Node.set_nMisbehavior 0 n).
Definition apart_from_bans (w : World) : World := Glob.set_setBanned ∅ w.

Definition scolded (s s' : St) : Prop :=
  n_nVersion (st_node s) = 0 ->
  apart_from_score (st_node s') = apart_from_score (st_node s) /\
  apart_from_bans (st_world s') = apart_from_bans (st_world s) /\
  exists k, st_trace s' = st_trace s ++ replicate k (Misbehaving 1).

Lemma apart_version n n' : apart_from_score n' = apart_from_score n -> n_nVersion n' = n_nVersion n.
Proof. destruct n, n'. intros E. by injection E. Qed.

#[local] Instance scolded_preorder : PreOrder scolded.
Proof.
  split; [intros s _; split_and!; [done|done|exists 0%nat; by rewrite app_nil_r]|].
  intros s1 s2 s3 E1 E2 Hv. destruct (E1 Hv) as (N1 & W1 & k1 & T1).
  destruct E2 as (N2 & W2 & k2 & T2); [by rewrite (apart_version _ _ N1)|].
  split_and!; [congruence|congruence|]. exists (k1 + k2)%nat. by rewrite T2, T1, replicate_add, app_assoc.
Qed.

(** [Misbehaving] at once: the score, and the ban when it is reached. *)
Lemma Misbehave_run h s :
  let n := st_node s in let w := st_world s in let addr := sv_ip (ca_service (n_addr n)) in
  let t := st_trace s ++ [Misbehaving h] in let score := n_nMisbehavior n + h in
  Misbehave h s =
    if CNetAddr.IsLocal addr then (Done false, mkSt n w (st_vRecv s) t)
    else if w_banscore w <=? score then
      (Done true, mkSt (Node.set_fDisconnect true (Node.set_nMisbehavior score n))
                    (Glob.set_setBanned (<[addr := Z.max (default 0 (w_setBanned w !! addr)) (w_time w + w_bantime w)]> (w_setBanned w)) w)
                    (st_vRecv s) t)
    else (Done false, mkSt (Node.set_nMisbehavior score n) w (st_vRecv s) t).
Proof.
  destruct s as [[] [] r t]. cbn -[CNetAddr.IsLocal Z.add Z.leb Z.ltb Z.max]. unfold Misbehave, X.bind.
  cbn -[CNetAddr.IsLocal Z.add Z.leb Z.ltb Z.max]. destruct (CNetAddr.IsLocal _); [done|].
  cbn -[CNetAddr.IsLocal Z.add Z.leb Z.ltb Z.max]. destruct (_ <=? _); [|done].
  cbn -[CNetAddr.IsLocal Z.add Z.leb Z.ltb Z.max]. unfold updw, X.modify, set_world.
  cbn -[CNetAddr.IsLocal Z.add Z.leb Z.ltb Z.max]. match goal with |- context [if ?x <? ?y then _ else _] => destruct (Z.ltb_spec x y) end.
  - by rewrite Z.max_r by lia.
  - by rewrite Z.max_l by lia.
Qed.

Lemma Misbehave_done h s :
  exists b s', Misbehave h s = (Done b, s') /\ st_trace s' = st_trace s ++ [Misbehaving h].
Proof. rewrite Misbehave_run. cbv zeta. repeat case_match; by eexists _, _. Qed.

Lemma Misbehave_scolds s : scolded s (Misbehave 1 s).2.
Proof.
  intros _. rewrite Misbehave_run.
  assert (T : exists k, st_trace s ++ [Misbehaving 1] = st_trace s ++ replicate k (Misbehaving 1)) by by exists 1%nat.
  cbv zeta. destruct s as [[] [] r t]. repeat case_match; by split_and!.
Qed.

Lemma ProcessMessage_scolds c s : cmd c "version" = false -> scolded s (ProcessMessage c s).2.
Proof.
  intros Hc. rewrite ProcessMessage_run. destruct (bool_decide _); [reflexivity|]. intros Hv.
  unfold handler. rewrite Hc, Hv. cbn [Z.eqb]. pose proof (Misbehave_scolds s Hv) as K.
  unfold X.bind, X.ret. destruct (Misbehave 1 s) as [[b| |] s']; exact K.
Qed.

(** Whatever a node sends before its version message, it only raises its misbehaviour
    score: no other call is made, nothing else of the node changes but its score and whether it
    is disconnected, and nothing of the globals but the bans. *)
Theorem ProcessMessages_early queue s fOk s' rest :
  n_nVersion (st_node s) = 0 -> n_vRecvGetData (st_node s) = [] ->
  Forall (fun msg => m_command msg <> lit "version") queue ->
  ProcessMessages queue s = Some (fOk, s', rest) ->
  apart_from_score (st_node s') = apart_from_score (st_node s) /\
  apart_from_bans (st_world s') = apart_from_bans (st_world s) /\
  exists k, st_trace s' = st_trace s ++ replicate k (Misbehaving 1).
Proof.
  intros Hv Hg Hq. unfold ProcessMessages. rewrite Hg.
  destruct (Process_loop queue s) as [[[f s1] r]|] eqn:Hl; [|done]. cbn. intros [= <- <- <-].
  apply (Process_loop_keeps scolded queue s f s1 r); try done.
  - intros s0 r0 _. split_and!; [done|done|exists 0%nat; by rewrite app_nil_r].
  - eapply Forall_impl; [exact Hq|]. intros msg Hm s0. apply ProcessMessage_scolds. by apply bool_decide_eq_false_2.
Qed.

(** ** The order of the queue *)

(** A message that is skipped: complete, but its header or its checksum is wrong. *)
Definition skipped (msg : CNetMessage) : bool :=
  m_complete msg && m_startOk msg && (negb (m_hdrValid msg) || negb (nChecksum msg =? m_nChecksum msg)).

Definition sound (queue : list CNetMessage) : list CNetMessage := List.filter (fun msg => negb (skipped msg)) queue.

Lemma Process_loop_stops queue s :
  n_fDisconnect (st_node s) || (SendBufferSize <=? n_nSendSize (st_node s)) = true ->
  Process_loop queue s = Some (true, s, queue).
Proof. intros Hs. apply orb_prop in Hs. destruct queue; [done|]. cbn [Process_loop]. destruct (n_fDisconnect _); [done|]. by destruct Hs as [| ->]. Qed.

Lemma sound_cons msg queue : sound (msg :: queue) = if skipped msg then sound queue else msg :: sound queue.
Proof. unfold sound. cbn [List.filter]. by destruct (skipped msg). Qed.

Lemma Process_loop_sound queue s :
  Process_loop (sound queue) s = (fun r => (r.1, sound r.2)) <$> Process_loop queue s.
Proof.
  revert s. induction queue as [|msg queue IH]; intros s; [done|].
  destruct (n_fDisconnect (st_node s) || (SendBufferSize <=? n_nSendSize (st_node s))) eqn:Hstop.
  { by rewrite !Process_loop_stops. }
  pose proof (sound_cons msg queue) as Hhead. rewrite Hhead. apply orb_false_iff in Hstop as [Hd Hb].
  unfold skipped in *. cbn [Process_loop].
  destruct (m_complete msg) eqn:Ec, (m_startOk msg) eqn:Es, (m_hdrValid msg) eqn:Eh, (nChecksum msg =? m_nChecksum msg) eqn:En;
    cbn [andb orb negb Process_loop] in *; rewrite ?Hd, ?Hb, ?Ec, ?Es, ?Eh, ?En; cbn -[sound ProcessMessage]; rewrite ?Hhead; try done; try apply IH.
  case_match; case_match; try done; apply IH.
Qed.

Lemma Process_loop_rest queue s fOk s' rest :
  Process_loop queue s = Some (fOk, s', rest) ->
  exists handled, queue = handled ++ rest /\ Forall (fun msg => m_complete msg = true) handled /\
    (fOk = false -> exists l msg, handled = l ++ [msg] /\ m_startOk msg = false) /\
    (fOk = true -> forall msg r, rest = msg :: r ->
       n_fDisconnect (st_node s') = true \/ SendBufferSize <= n_nSendSize (st_node s') \/ m_complete msg = false).
Proof.
  revert s. induction queue as [|msg queue IH]; intros s; cbn [Process_loop].
  { intros [= <- <- <-]. exists []. split_and!; try done. }
  destruct (n_fDisconnect (st_node s)) eqn:Hd; [|destruct (Z.leb_spec SendBufferSize (n_nSendSize (st_node s)));
    [|destruct (m_complete msg) eqn:Hc]]; cbn [negb].
  1,2,4: intros [= <- <- <-]; exists []; split_and!; try done; intros _ msg' r Er; injection Er as <- <-; auto.
  assert (Hnext : forall s0, Process_loop queue s0 = Some (fOk, s', rest) ->
    exists handled, msg :: queue = handled ++ rest /\ Forall (fun msg => m_complete msg = true) handled /\
    (fOk = false -> exists l msg, handled = l ++ [msg] /\ m_startOk msg = false) /\
    (fOk = true -> forall msg r, rest = msg :: r ->
       n_fDisconnect (st_node s') = true \/ SendBufferSize <= n_nSendSize (st_node s') \/ m_complete msg = false)).
  { intros s0 Hl. destruct (IH _ Hl) as (h & -> & Hall & Hf & Ht). exists (msg :: h). split_and!; [done|by constructor| |done].
    intros E. destruct (Hf E) as (l & m & -> & Hm). by exists (msg :: l), m. }
  destruct (m_startOk msg) eqn:Hs; cbn [negb].
  2: { intros [= <- <- <-]. exists [msg]. split_and!; try done; [by constructor|]. intros _. by exists [], msg. }
  repeat case_match; try done; apply Hnext.
Qed.


(** ** The missing return *)

Definition returns {A} (P : A -> Prop) (m : H A) : Prop := forall s a s', m s = (Done a, s') -> P a.

Lemma returns_bind {A B} (P : B -> Prop) (m : H A) (f : A -> H B) : (forall a, returns P (f a)) -> returns P (X.bind m f).
Proof. intros Hf s b s'. unfold X.bind. destruct (m s) as [[a| |] s1]; [apply Hf|done|done]. Qed.
Lemma returns_ret {A} (P : A -> Prop) (a : A) : P a -> returns P (X.ret a).
Proof. intros Ha s a' s' [= <- <-]. done. Qed.

Ltac returning :=
  repeat first
    [ apply returns_bind; intros ?
    | apply returns_ret; done
    | match goal with |- returns _ (match ?x with _ => _ end) => destruct x end ].

Lemma handler_never_true c v ign :
  cmd c "version" = false -> cmd c "addr" = false -> returns (fun r => r <> Some true) (handler c v ign).
Proof.
  intros Hv Ha. unfold handler. rewrite Hv, Ha.
  unfold handle_inv, handle_getdata, handle_tx, handle_block, handle_getaddr, handle_ping,
    handle_alert, handle_filterload, handle_filteradd, handle_filterclear.
  returning.
Qed.

(** Handlers that only call and assign. *)
Definition completes {A} (m : H A) : Prop := forall s, exists a s', m s = (Done a, s').

Lemma completes_bind {A B} (m : H A) (f : A -> H B) : completes m -> (forall a, completes (f a)) -> completes (X.bind m f).
Proof. intros Hm Hf s. unfold X.bind. destruct (Hm s) as (a & s' & ->). apply Hf. Qed.
Lemma completes_each {A} (f : A -> H unit) l : (forall a, completes (f a)) -> completes (X.each f l).
Proof. intros Hf. induction l as [|x l IH]; [by intros s; eexists _, _|]. by apply completes_bind. Qed.

Lemma epilogue_completes c : completes (epilogue c).
Proof. unfold epilogue, whenb. repeat (apply completes_bind; [intros ?; by eexists _, _|intros ?]). intros s. by case_match; eexists _, _. Qed.

Lemma getaddr_completes s : exists s', handle_getaddr s = (Done None, s').
Proof.
  unfold handle_getaddr, X.bind, act, X.modify, world, X.gets.
  match goal with |- context [X.each ?f ?l] => pose proof (completes_each f l ltac:(by intros ? ?; eexists _, _)) as K end.
  match goal with |- context [X.each ?f ?l ?s] => destruct (K s) as (a & s' & ->) end. by eexists.
Qed.

Lemma falls_off c s :
  n_nVersion (st_node s) <> 0 -> w_dropmessagestest (st_world s) <> Some 0 ->
  (forall ign, exists s', handler c (n_nVersion (st_node s)) ign s = (Done None, s')) ->
  exists s', ProcessMessage c s = (Done FellOff, s').
Proof.
  intros Hv Hd Hh. rewrite ProcessMessage_run, bool_decide_eq_false_2 by done. unfold X.bind.
  edestruct Hh as (s1 & ->). destruct (epilogue_completes c s1) as (u & s2 & ->). by eexists.
Qed.

(** [ProcessMessage] returns true only to drop a message, for a connection to itself
    and for addresses of an old node: a message that is handled to the end leaves the function
    at its closing brace, without a value. *)
Theorem ProcessMessage_falls_off c s :
  (forall s', ProcessMessage c s = (Done (Returned true), s') ->
     w_dropmessagestest (st_world s) = Some 0 \/ c = lit "version" \/ c = lit "addr") /\
  (c ∈ lit <$> ["verack"; "getblocks"; "getheaders"; "mempool"; "getaddr"; "filterclear"]%string ->
   n_nVersion (st_node s) <> 0 -> w_dropmessagestest (st_world s) <> Some 0 ->
   exists s', ProcessMessage c s = (Done FellOff, s')).
Proof.
  split.
  - intros s'. rewrite ProcessMessage_run. destruct (bool_decide _) eqn:Hd.
    { intros _. left. by apply bool_decide_eq_true_1 in Hd. }
    intros Hr. right. destruct (cmd c "version") eqn:Hv; [left; by apply bool_decide_eq_true_1 in Hv|].
    destruct (cmd c "addr") eqn:Ha; [right; by apply bool_decide_eq_true_1 in Ha|]. exfalso. unfold X.bind in Hr.
    destruct (handler _ _ _ s) as [[[b|]| |] s1] eqn:Hh; [|by case_match; repeat case_match; simplify_eq/=|done|done].
    injection Hr as -> <-. by apply (handler_never_true c _ _ Hv Ha) in Hh.
  - intros Hc Hv Hd. apply falls_off; [done|done|]. intros ign.
    apply Z.eqb_neq in Hv. repeat (apply elem_of_cons in Hc as [->|Hc]); [..|by apply elem_of_nil in Hc].
    all: unfold handler, cmd; rewrite Hv; cbn -[handle_getaddr handle_filterclear].
    all: try (by eexists). apply getaddr_completes.
Qed.

(** ** Bans *)

(** [Misbehaving] reports a ban exactly when the score of a node that is not local reaches
    the limit.  The node is then disconnected and its address banned at least for the ban time,
    an earlier ban is never cut short and no other address is touched; without a ban the globals
    stay as they are.  [ClearBanned] lifts every ban. *)
Theorem Misbehave_spec h s banned s' :
  let addr := sv_ip (ca_service (n_addr (st_node s))) in
  let w := st_world s in let w' := st_world s' in
  Misbehave h s = (Done banned, s') ->
  (banned = true <-> CNetAddr.IsLocal addr = false /\ w_banscore w <= n_nMisbehavior (st_node s) + h) /\
  n_nMisbehavior (st_node s') = n_nMisbehavior (st_node s) + (if CNetAddr.IsLocal addr then 0 else h) /\
  (banned = false -> w' = w /\ n_fDisconnect (st_node s') = n_fDisconnect (st_node s)) /\
  (banned = true ->
     n_fDisconnect (st_node s') = true /\ (0 < w_bantime w -> IsBanned w' addr = true) /\
     (exists until, w_setBanned w' !! addr = Some until /\ w_time w + w_bantime w <= until) /\
     (forall ip, IsBanned w ip = true -> IsBanned w' ip = true) /\
     (forall ip, ip <> addr -> w_setBanned w' !! ip = w_setBanned w !! ip)) /\
  (forall ip, IsBanned (ClearBanned w') ip = false).
Proof.
  intros addr w w'. subst w'. rewrite Misbehave_run. fold w addr.
  assert (Hclear : forall w0 ip, IsBanned (ClearBanned w0) ip = false).
  { intros w0 ip. unfold IsBanned, ClearBanned. destruct w0. cbn. by rewrite lookup_empty. }
  destruct (CNetAddr.IsLocal addr).
  { intros [= <- <-]. split_and!; try done; cbn; lia || naive_solver. }
  destruct (Z.leb_spec (w_banscore w) (n_nMisbehavior (st_node s) + h)); intros [= <- <-].
  2: { split_and!; try done; [split; [done|lia]|by destruct (st_node s)|by destruct (st_node s)]. }
  set (until := Z.max _ _).
  assert (Hset : w_setBanned (Glob.set_setBanned (<[addr := until]> (w_setBanned w)) w) = <[addr := until]> (w_setBanned w)) by (by destruct w).
  assert (Htime : w_time (Glob.set_setBanned (<[addr := until]> (w_setBanned w)) w) = w_time w) by (by destruct w).
  split_and!; try done; [by destruct (st_node s)|]. intros _. cbn [st_node st_world]. unfold IsBanned. rewrite Hset, Htime.
  split_and!.
  - by destruct (st_node s).
  - intros Ht. rewrite lookup_insert_eq. lia.
  - exists until. rewrite lookup_insert_eq. split; [done|lia].
  - intros ip. destruct (decide (ip = addr)) as [->|Hne]; [|by rewrite lookup_insert_ne].
    rewrite lookup_insert_eq. destruct (w_setBanned w !! addr) as [t|] eqn:Ht; [|done]. cbn in until. lia.
  - intros ip Hne. by rewrite lookup_insert_ne.
Qed.

End Peer.
