(* ===== verification/InvThms.v ===== *)
(** Theorems about inventories: what a node is asked for when it announces objects, and what is
    requested from it when the requests are due. *)

From S2P Require Import Prelude Monad Alert NetAddr AddrMan Core Block BigNum Checkpoints Validation ValidationThms Node Messages MessagesThms PeerThms.

Section Inv.
Context `{Chain, OpenSSL, AddressTypes, Wire}.

(** ** Reading a trace *)

Definition asked (t : list Action) : list CInv :=
  omap (fun a => match a with AskFor i => Some i | _ => None end) t.
Definition announced (t : list Action) : list CInv :=
  omap (fun a => match a with AddInventoryKnown i => Some i | _ => None end) t.
Definition getdatas (t : list Action) : list (list CInv) :=
  omap (fun a => match a with PushMessage (OGetdata v) => Some v | _ => None end) t.
(** Nothing but inventory bookkeeping and requests for blocks. *)
Definition inv_action (a : Action) : Prop :=
  match a with AddInventoryKnown _ | AskFor _ | PushMessage (OGetblocks _ _) => True | _ => False end.

Definition busy (w : World) : bool := w_fImporting w || w_fReindex w.

(** The last request for blocks. *)
Definition last_request (n : CNode) : option uint256 * uint256 := (n_LastGetBlocksBegin n, n_hashLastGetBlocksEnd n).

Lemma PushGetBlocks_requests pb he s :
  exists n, PushGetBlocks pb he s =
    (Done tt, mkSt n (st_world s) (st_vRecv s)
       (st_trace s ++ (if same_request (st_node s) pb he then [] else [PushMessage (OGetblocks pb he)]))) /\
    last_request n = (pb, he).
Proof.
  destruct s as [n w r t]. unfold PushGetBlocks, X.bind, node, X.gets. cbn [st_node].
  fold (same_request n pb he). destruct (same_request n pb he) eqn:E; cbn [unless].
  - exists n. unfold X.ret. cbn. rewrite app_nil_r. split; [done|]. unfold same_request in E.
    apply andb_prop in E as [E1 E2]. apply bool_decide_eq_true_1 in E1. apply Z.eqb_eq in E2.
    unfold last_request. by rewrite <-E1, E2.
  - eexists. split; [reflexivity|]. by destruct n.
Qed.

Section Ranked.
Context (rank : CBlock -> nat) (Hrank : hash_ranked rank).

(** What one announced object leads to. *)
Definition inv_effect (w : World) (nLast nInv : Z) (inv : CInv) (n n' : CNode) (new : list Action) : Prop :=
  if negb (AlreadyHave w inv) then n' = n /\ new = if busy w then [] else [AskFor inv]
  else if bool_decide (inv_type inv = MSG_BLOCK /\ is_Some (w_mapOrphanBlocks w !! inv_hash inv)) then
    Forall inv_action new /\ asked new = [] /\ announced new = []
  else if nInv =? nLast then
    Forall inv_action new /\ asked new = [] /\ announced new = [] /\ last_request n' = (Some (inv_hash inv), 0)
  else n' = n /\ new = [].

Lemma one_inv_run nLast nInv inv s :
  keyed s ->
  exists n new, one_inv nLast nInv inv s =
    (Done tt, mkSt n (st_world s) (st_vRecv s) (st_trace s ++ AddInventoryKnown inv :: new)) /\
    inv_effect (st_world s) nLast nInv inv (st_node s) n new.
Proof.
  intros Hk. unfold one_inv, inv_effect.
  set (s1 := mkSt (st_node s) (st_world s) (st_vRecv s) (st_trace s ++ [AddInventoryKnown inv])).
  assert (Hreq : forall pb he, exists n new, PushGetBlocks pb he s1 =
    (Done tt, mkSt n (st_world s) (st_vRecv s) (st_trace s ++ AddInventoryKnown inv :: new)) /\
    Forall inv_action new /\ asked new = [] /\ announced new = [] /\ last_request n = (pb, he)).
  { intros pb he. destruct (PushGetBlocks_requests pb he s1) as (n & -> & Hn). exists n.
    eexists. split; [subst s1; cbn; by rewrite <-app_assoc|]. destruct (same_request _ _ _); by repeat constructor. }
  match goal with |- context [X.bind (act _) ?k s] => change (X.bind (act (AddInventoryKnown inv)) k s) with (k tt s1) end.
  cbv beta. match goal with |- context [X.bind (world id) ?k s1] => change (X.bind (world id) k s1) with (k (st_world s) s1) end.
  cbv beta. destruct (AlreadyHave (st_world s) inv); cbn [negb].
  2: { fold (busy (st_world s)). destruct (busy _); cbn [unless].
       - exists (st_node s), []. by split.
       - exists (st_node s), [AskFor inv]. split; [|done]. unfold act, X.modify. subst s1. cbn. by rewrite <-app_assoc. }
  assert (Hlast : exists n new, whenb (nInv =? nLast) (PushGetBlocks (Some (inv_hash inv)) 0) s1 =
    (Done tt, mkSt n (st_world s) (st_vRecv s) (st_trace s ++ AddInventoryKnown inv :: new)) /\
    if nInv =? nLast then Forall inv_action new /\ asked new = [] /\ announced new = [] /\ last_request n = (Some (inv_hash inv), 0)
    else n = st_node s /\ new = []).
  { destruct (nInv =? nLast); cbn [whenb]; [apply Hreq|]. by exists (st_node s), []. }
  destruct (w_mapOrphanBlocks (st_world s) !! inv_hash inv) as [b|] eqn:Hb.
  2: { rewrite bool_decide_eq_false_2; [done|]. intros [_ [? ?]]. congruence. }
  destruct (Z.eqb_spec (inv_type inv) MSG_BLOCK) as [E|E].
  2: { rewrite bool_decide_eq_false_2; [done|]. by intros [? _]. }
  rewrite bool_decide_eq_true_2 by (split; [done|by eexists]).
  destruct (GetOrphanRoot_ends _ rank b (keyed_ranked rank s b Hrank Hk)) as (b' & Hroot & _).
  unfold X.bind, X.lift. rewrite Hroot. destruct (Hreq (w_pindexBest (st_world s)) (header_hash (header b'))) as (n & new & -> & ? & ? & ? & _).
  by exists n, new.
Qed.

Lemma inv_effect_actions w nLast nInv inv n n' new :
  inv_effect w nLast nInv inv n n' new ->
  Forall inv_action new /\ announced new = [] /\
  asked new = if negb (AlreadyHave w inv) && negb (busy w) then [inv] else [].
Proof.
  unfold inv_effect. destruct (AlreadyHave w inv); cbn [negb andb].
  - destruct (bool_decide _); [tauto|]. destruct (nInv =? nLast); [tauto|]. intros [_ ->]. by repeat constructor.
  - intros [_ ->]. destruct (busy w); by repeat constructor.
Qed.

Lemma AlreadyHave_other w inv : inv_type inv <> MSG_BLOCK -> AlreadyHave w inv = true.
Proof. intros Hi. unfold AlreadyHave. destruct (inv_type inv =? MSG_TX); [done|]. by rewrite (proj2 (Z.eqb_neq _ _) Hi). Qed.

Lemma inv_effect_other w nLast nInv inv n n' new :
  inv_effect w nLast nInv inv n n' new -> inv_type inv <> MSG_BLOCK -> nLast < nInv -> n' = n.
Proof.
  unfold inv_effect. intros Heff Hi Hl. rewrite AlreadyHave_other, bool_decide_eq_false_2 in Heff by tauto.
  destruct (Z.eqb_spec nInv nLast); [lia|]. by destruct Heff.
Qed.

Lemma all_inv_run nLast nInv vInv s :
  keyed s ->
  exists n new, all_inv nLast nInv vInv s = (Done tt, mkSt n (st_world s) (st_vRecv s) (st_trace s ++ new)) /\
    Forall inv_action new /\ announced new = vInv /\
    asked new = (if busy (st_world s) then [] else List.filter (fun i => negb (AlreadyHave (st_world s) i)) vInv) /\
    (Forall (fun i => inv_type i <> MSG_BLOCK) vInv -> nLast < nInv -> n = st_node s) /\
    (forall pre inv post, vInv = pre ++ inv :: post -> nLast = nInv + lenZ pre ->
       Forall (fun i => inv_type i <> MSG_BLOCK) post -> inv_type inv = MSG_BLOCK ->
       AlreadyHave (st_world s) inv = true -> w_mapOrphanBlocks (st_world s) !! inv_hash inv = None ->
       last_request n = (Some (inv_hash inv), 0)).
Proof.
  revert nInv s. induction vInv as [|inv r IH]; intros nInv s Hk; cbn [all_inv].
  { exists (st_node s), []. unfold X.ret. rewrite app_nil_r. destruct s as [? w ? ?]. cbn [st_world].
    split_and!; try done; [by destruct (busy w)|]. intros [|? pre] inv post; discriminate. }
  destruct (one_inv_run nLast nInv inv s Hk) as (n1 & new1 & Hrun & Heff).
  set (s1 := mkSt n1 (st_world s) (st_vRecv s) (st_trace s ++ AddInventoryKnown inv :: new1)) in *.
  destruct (IH (nInv + 1) s1 Hk) as (n2 & new2 & Hrun2 & Ha2 & Hn2 & Hask2 & Hkeep2 & Hlast2). cbn [st_world s1] in *.
  destruct (inv_effect_actions _ _ _ _ _ _ _ Heff) as (Ha1 & Hn1 & Hask1).
  exists n2, (AddInventoryKnown inv :: new1 ++ new2). unfold X.bind. rewrite Hrun. split_and!.
  - rewrite Hrun2. subst s1. cbn. by rewrite <-app_assoc.
  - constructor; [done|]. by apply Forall_app.
  - unfold announced in *. cbn. rewrite omap_app, Hn1, Hn2. done.
  - unfold asked in *. cbn. rewrite omap_app, Hask1, Hask2.
    destruct (busy _), (AlreadyHave (st_world s) inv); done.
  - intros Hall Hl. inversion Hall as [|? ? Hi Hr]; subst. rewrite Hkeep2 by (done || lia). by eapply inv_effect_other.
  - intros [|i pre] inv' post E Hl Hpost Ht Hh Ho; injection E as -> ->.
    + change (lenZ (@nil CInv)) with 0 in Hl. rewrite Hkeep2 by (done || lia). cbn [st_node s1].
      unfold inv_effect in Heff. rewrite Hh, bool_decide_eq_false_2 in Heff by (rewrite Ho; by intros [_ [? ?]]).
      destruct (Z.eqb_spec nInv nLast); [|lia]. cbn in Heff. tauto.
    + apply (Hlast2 pre inv' post); try done. rewrite lenZ_cons in Hl. lia.
Qed.

Lemma last_block_skips i l r inv :
  Forall (fun x => inv_type x <> MSG_BLOCK) l -> inv_type inv = MSG_BLOCK ->
  last_block_from_end i (l ++ inv :: r) = i - lenZ l.
Proof.
  intros Hl Hi. revert i. induction Hl as [|x l Hx _ IH]; intros i; cbn.
  - rewrite Hi, Z.eqb_refl. change (lenZ (@nil CInv)) with 0. lia.
  - rewrite (proj2 (Z.eqb_neq _ _) Hx), IH, lenZ_cons. lia.
Qed.

Lemma nLastBlock_at pre inv post :
  Forall (fun x => inv_type x <> MSG_BLOCK) post -> inv_type inv = MSG_BLOCK ->
  nLastBlock (pre ++ inv :: post) = lenZ pre.
Proof.
  intros Hp Hi. unfold nLastBlock. rewrite rev_app_distr. cbn [rev]. rewrite <-app_assoc. cbn [app].
  rewrite last_block_skips; [|by apply Forall_rev|done].
  rewrite lenZ_app, lenZ_cons. unfold lenZ. rewrite length_rev. lia.
Qed.

(** C11 An inventory is refused, with 20 points, exactly when it is too long.  Otherwise every
    announced object is noted, the node is asked exactly for those that are not known yet, in
    their order (for none while blocks are imported), nothing else happens but requests for
    blocks, and if the last announced block is stored already the request continues behind it. *)
Theorem handle_inv_spec s vInv r :
  keyed s -> rd_vinv (st_vRecv s) = Some (vInv, r) ->
  if MAX_INV_SZ <? lenZ vInv then
    (handle_inv s).1 = Done (Some false) /\ st_trace (handle_inv s).2 = st_trace s ++ [Misbehaving 20]
  else
    exists n new, handle_inv s = (Done None, mkSt n (st_world s) r (st_trace s ++ new)) /\
      Forall inv_action new /\ announced new = vInv /\
      asked new = (if busy (st_world s) then [] else List.filter (fun i => negb (AlreadyHave (st_world s) i)) vInv) /\
      (forall pre inv post, vInv = pre ++ inv :: post ->
         Forall (fun i => inv_type i <> MSG_BLOCK) post -> inv_type inv = MSG_BLOCK ->
         AlreadyHave (st_world s) inv = true -> w_mapOrphanBlocks (st_world s) !! inv_hash inv = None ->
         last_request n = (Some (inv_hash inv), 0)).
Proof.
  intros Hk Hr. unfold handle_inv, X.bind, read. rewrite Hr.
  destruct (Z.ltb_spec MAX_INV_SZ (lenZ vInv)).
  { by destruct (Misbehave_done 20 (mkSt (st_node s) (st_world s) r (st_trace s))) as (b & s' & -> & ?). }
  destruct (all_inv_run (nLastBlock vInv) 0 vInv (mkSt (st_node s) (st_world s) r (st_trace s)) Hk)
    as (n & new & -> & Ha & Hn & Hask & _ & Hlast).
  exists n, new. split_and!; try done. intros pre inv post -> Hp Hi Hh Ho. apply (Hlast pre inv post); try done.
  by rewrite nLastBlock_at.
Qed.

End Ranked.

(** ** Requests that are due *)

Definition due (now : Z) (m : list (Z * CInv)) : list (Z * CInv) := List.filter (fun p => p.1 <=? now) m.
Definition later (now : Z) (m : list (Z * CInv)) : list (Z * CInv) := List.filter (fun p => now <? p.1) m.

(** The order of a multimap. *)
Definition by_time (m : list (Z * CInv)) : Prop := StronglySorted (fun p q => p.1 <= q.1) m.

Lemma later_all now t inv m : by_time ((t, inv) :: m) -> now < t -> due now ((t, inv) :: m) = [] /\ later now ((t, inv) :: m) = (t, inv) :: m.
Proof.
  intros Hs Ht. unfold due, later. assert (Hall : Forall (fun p => now < p.1) ((t, inv) :: m)).
  { inversion Hs as [|? ? _ Hm]; subst. constructor; [done|]. eapply Forall_impl; [exact Hm|]. intros p. cbn. lia. }
  clear Hs Ht. induction Hall as [|p l Hp _ [IHd IHl]]; [done|]. cbn [List.filter].
  rewrite IHd, IHl. destruct (Z.leb_spec p.1 now), (Z.ltb_spec now p.1); (done || lia).
Qed.

Lemma due_cons now t inv m : t <= now -> due now ((t, inv) :: m) = (t, inv) :: due now m /\ later now ((t, inv) :: m) = later now m.
Proof.
  intros Ht. unfold due, later. cbn [List.filter fst].
  destruct (Z.leb_spec t now), (Z.ltb_spec now t); (done || lia).
Qed.

Definition wanted (w : World) (now : Z) (m : list (Z * CInv)) : list CInv :=
  List.filter (fun i => negb (AlreadyHave w i)) (due now m).*2.

Lemma ask_loop_run now m acc s :
  by_time m -> n_mapAskFor (st_node s) = m -> lenZ acc < 1000 ->
  exists n batches left,
    ask_loop now m acc s =
      (Done left, mkSt n (st_world s) (st_vRecv s) (st_trace s ++ ((fun v => PushMessage (OGetdata v)) <$> batches))) /\
    n_mapAskFor n = later now m /\ acc ++ wanted (st_world s) now m = concat batches ++ left /\
    Forall (fun v => lenZ v = 1000) batches /\ lenZ left < 1000.
Proof.
  intros Hsort. revert acc s. induction m as [|[t inv] m IH]; intros acc s Hm Hacc; cbn [ask_loop].
  { exists (st_node s), [], acc. split_and!; try done; [|apply app_nil_r]. unfold X.ret. cbn. rewrite app_nil_r. by destruct s. }
  destruct (Z.leb_spec t now) as [Ht|Ht].
  2: { destruct (later_all now t inv m Hsort Ht) as [Hd Hl]. exists (st_node s), [], acc. rewrite Hl. unfold wanted. rewrite Hd.
       split_and!; try done; [|apply app_nil_r]. unfold X.ret. cbn. rewrite app_nil_r. by destruct s. }
  destruct (due_cons now t inv m Ht) as [Hd Hl]. rewrite Hl. apply StronglySorted_inv in Hsort as [Hsort _].
  assert (Hstep : forall acc' n b, n_mapAskFor n = (t, inv) :: m -> lenZ acc' < 1000 -> Forall (fun v => lenZ v = 1000) b ->
    acc ++ wanted (st_world s) now ((t, inv) :: m) = concat b ++ acc' ++ wanted (st_world s) now m ->
    exists n' batches left,
    (upd (Node.set_mapAskFor m) ;~ ask_loop now m acc') (mkSt n (st_world s) (st_vRecv s) (st_trace s ++ ((fun v => PushMessage (OGetdata v)) <$> b))) =
      (Done left, mkSt n' (st_world s) (st_vRecv s) (st_trace s ++ ((fun v => PushMessage (OGetdata v)) <$> batches))) /\
    n_mapAskFor n' = later now m /\ acc ++ wanted (st_world s) now ((t, inv) :: m) = concat batches ++ left /\
    Forall (fun v => lenZ v = 1000) batches /\ lenZ left < 1000).
  { intros acc' n b Hn Hacc' Hb Hw.
    match goal with |- context [X.bind (upd ?f) ?k ?s0] => change (X.bind (upd f) k s0) with (k tt (set_node f s0)) end. cbv beta.
    destruct (IH Hsort acc' (set_node (Node.set_mapAskFor m) (mkSt n (st_world s) (st_vRecv s) (st_trace s ++ ((fun v => PushMessage (OGetdata v)) <$> b)))))
      as (n' & batches & left & Hrun & Hn' & Hcat & Hall & Hleft); [by destruct n|done|].
    exists n', (b ++ batches), left. rewrite Hrun. cbn [st_world st_vRecv st_trace set_node] in *. split_and!; try done.
    - by rewrite fmap_app, app_assoc.
    - rewrite Hw, Hcat, concat_app. by rewrite app_assoc.
    - by apply Forall_app. }
  match goal with |- context [X.bind (world id) ?k ?s0] => change (X.bind (world id) k s0) with (k (st_world s0) s0) end. cbv beta.
  unfold wanted in *. rewrite Hd in *. cbn [fmap list_fmap snd List.filter] in *.
  destruct (AlreadyHave (st_world s) inv) eqn:Hhave; cbn [negb] in *.
  - destruct (Hstep acc (st_node s) []) as (n' & b & left & Hrun & ?); try done. exists n', b, left. split; [|done].
    rewrite <-Hrun. cbn [fmap list_fmap]. rewrite app_nil_r. by destruct s.
  - assert (Hlen : lenZ (acc ++ [inv]) = lenZ acc + 1) by (rewrite lenZ_app, lenZ_cons; change (lenZ (@nil CInv)) with 0; lia).
    destruct (Z.leb_spec 1000 (lenZ (acc ++ [inv]))).
    + set (n1 := Node.set_nSendSize (send_size (n_nSendSize (st_node s)) (OGetdata (acc ++ [inv]))) (st_node s)).
      destruct (Hstep [] n1 [acc ++ [inv]]) as (n' & b & left & Hrun & ?); [by subst n1; destruct (st_node s)|done|constructor; [lia|constructor]| |].
      { cbn. by rewrite app_nil_r, <-app_assoc. }
      exists n', b, left. split; [|done]. exact Hrun.
    + destruct (Hstep (acc ++ [inv]) (st_node s) []) as (n' & b & left & Hrun & ?); [done|lia|done| |].
      { cbn. by rewrite <-app_assoc. }
      exists n', b, left. split; [|done]. rewrite <-Hrun. cbn [fmap list_fmap]. rewrite app_nil_r. by destruct s.
Qed.

(** Steps that leave the due requests alone. *)
Definition quiet (s s' : St) : Prop :=
  st_world s' = st_world s /\ n_mapAskFor (st_node s') = n_mapAskFor (st_node s) /\
  exists new, st_trace s' = st_trace s ++ new /\ getdatas new = [].

#[local] Instance quiet_preorder : PreOrder quiet.
Proof.
  split; [intros s; split_and!; [done|done|exists []; by rewrite app_nil_r]|].
  intros s1 s2 s3 (W1 & M1 & n1 & T1 & G1) (W2 & M2 & n2 & T2 & G2). split_and!; [congruence|congruence|].
  exists (n1 ++ n2). split; [by rewrite T2, T1, app_assoc|]. unfold getdatas in *. by rewrite omap_app, G1, G2.
Qed.

Definition calm {A} (m : H A) : Prop := forall s, exists a s', m s = (Done a, s') /\ quiet s s'.

Lemma calm_ret {A} (a : A) : calm (X.ret a).
Proof. intros s. by exists a, s. Qed.
Lemma calm_gets {A} (f : St -> A) : calm (X.gets f).
Proof. intros s. by exists (f s), s. Qed.
Lemma calm_bind {A B} (m : H A) (f : A -> H B) : calm m -> (forall a, calm (f a)) -> calm (X.bind m f).
Proof.
  intros Hm Hf s. unfold X.bind. destruct (Hm s) as (a & s1 & -> & Q1). destruct (Hf a s1) as (b & s2 & -> & Q2).
  exists b, s2. split; [done|]. by etransitivity.
Qed.
Lemma calm_upd f : (forall n, n_mapAskFor (f n) = n_mapAskFor n) -> calm (upd f).
Proof. intros Hf s. eexists _, _. split; [reflexivity|]. split_and!; [done|apply Hf|exists []; by rewrite app_nil_r]. Qed.
Lemma calm_act a : getdatas [a] = [] -> calm (act a).
Proof. intros Ha s. eexists _, _. split; [reflexivity|]. split_and!; [done|done|by exists [a]]. Qed.

(** Through a calm step to what follows. *)
Lemma calm_then {A B} (m : H A) (k : A -> H B) (Q : Outcome B * St -> Prop) s :
  calm m -> (forall a s', quiet s s' -> Q (k a s')) -> Q (X.bind m k s).
Proof. intros Hm Hk. unfold X.bind. destruct (Hm s) as (a & s' & -> & Hq). by apply Hk. Qed.

Lemma calm_PushGetBlocks p h : calm (PushGetBlocks p h).
Proof.
  unfold PushGetBlocks, Push, unless. apply calm_bind; [apply calm_gets|intros b].
  destruct b; [apply calm_ret|]. repeat (apply calm_bind; [|intros _]); try (apply calm_upd; by intros []). by apply calm_act.
Qed.

Lemma wanted_batches w now m batches left s n r t :
  wanted w now m = concat batches ++ left -> Forall (fun v => lenZ v = 1000) batches -> lenZ left < 1000 ->
  n_mapAskFor n = later now m -> getdatas t = [] ->
  let s1 := mkSt n w r (st_trace s ++ t ++ ((fun v => PushMessage (OGetdata v)) <$> batches)) in
  exists s' new, whenb (bool_decide (left <> [])) (Push (OGetdata left)) s1 = (Done tt, s') /\
    st_world s' = w /\ n_mapAskFor (st_node s') = later now m /\ st_trace s' = st_trace s ++ new /\
    concat (getdatas new) = wanted w now m /\ Forall (fun v => 1 <= lenZ v <= 1000) (getdatas new).
Proof.
  intros Hw Hb Hl Hn Ht s1.
  assert (Hget : forall bs, getdatas ((fun v => PushMessage (OGetdata v)) <$> bs) = bs) by (intros bs; unfold getdatas; induction bs; cbn; congruence).
  assert (Hb' : Forall (fun v => 1 <= lenZ v <= 1000) batches) by (eapply Forall_impl; [exact Hb|]; cbn; lia).
  assert (Happ : forall u, getdatas (t ++ u) = getdatas u) by (intros u; unfold getdatas in *; by rewrite omap_app, Ht).
  destruct left as [|x left].
  - exists s1, (t ++ ((fun v => PushMessage (OGetdata v)) <$> batches)). rewrite app_nil_r in Hw. rewrite Happ, Hget. by split_and!.
  - rewrite bool_decide_eq_true_2 by done. cbn [whenb].
    exists (set_node (fun n => Node.set_nSendSize (send_size (n_nSendSize n) (OGetdata (x :: left))) n)
              (mkSt n w r (st_trace s1 ++ [PushMessage (OGetdata (x :: left))]))),
      (t ++ ((fun v => PushMessage (OGetdata v)) <$> (batches ++ [x :: left]))).
    rewrite Happ, Hget. split_and!; try done.
    + by rewrite <-Hn; destruct n.
    + subst s1. cbn. by rewrite fmap_app, !app_assoc.
    + rewrite concat_app, Hw. cbn. by rewrite app_nil_r.
    + apply Forall_app. split; [done|]. constructor; [|constructor]. rewrite lenZ_cons in *. unfold lenZ in *. lia.
Qed.

(** C12 When [SendMessages] gets the lock and knows the version of the node, the getdata
    messages it sends ask, in batches of at most 1000 and in the order of the requests, exactly
    for those due objects that are not known yet; exactly the due requests are forgotten. *)
Theorem SendMessages_getdata s :
  n_nVersion (st_node s) <> 0 -> by_time (n_mapAskFor (st_node s)) ->
  let now := w_time (st_world s) * 1000000 in
  exists s' new, SendMessages true s = (Done tt, s') /\
    st_world s' = st_world s /\ n_mapAskFor (st_node s') = later now (n_mapAskFor (st_node s)) /\
    st_trace s' = st_trace s ++ new /\
    concat (getdatas new) = wanted (st_world s) now (n_mapAskFor (st_node s)) /\
    Forall (fun v => 1 <= lenZ v <= 1000) (getdatas new).
Proof.
  intros Hv Hsort now. unfold SendMessages.
  match goal with |- context [X.bind (node n_nVersion) ?k s] => change (X.bind (node n_nVersion) k s) with (k (n_nVersion (st_node s)) s) end.
  cbv beta. rewrite (proj2 (Z.eqb_neq _ _) Hv). cbn [negb orb andb IsInitialBlockDownload].
  match goal with |- context [X.bind (world w_time) ?k s] => change (X.bind (world w_time) k s) with (k (w_time (st_world s)) s) end.
  cbv beta. fold now.
  set (Q := fun r : Outcome unit * St => exists s' new, r = (Done tt, s') /\ st_world s' = st_world s /\
    n_mapAskFor (st_node s') = later now (n_mapAskFor (st_node s)) /\ st_trace s' = st_trace s ++ new /\
    concat (getdatas new) = wanted (st_world s) now (n_mapAskFor (st_node s)) /\ Forall (fun v => 1 <= lenZ v <= 1000) (getdatas new)).
  match goal with |- exists s' new, ?m = _ /\ _ => change (Q m) end.
  apply calm_then; [apply calm_gets|]. intros stale s1 Q1.
  apply calm_then. { destruct stale; [|apply calm_ret]. apply calm_bind; [by apply calm_act|intros _]. apply calm_upd. by intros []. }
  intros _ s2 Q2. apply calm_then; [apply calm_gets|]. intros b s3 Q3. apply calm_then; [apply calm_gets|]. intros st s4 Q4.
  apply calm_then.
  { destruct (st && negb b); [|apply calm_ret]. cbn [whenb]. apply calm_bind; [apply calm_upd; by intros []|intros _].
    apply calm_bind; [apply calm_gets|intros ?]. apply calm_PushGetBlocks. }
  intros _ s5 Q5. apply calm_then; [apply calm_gets|]. intros last s6 Q6. apply calm_then; [apply calm_ret|]. intros _ s7 Q7.
  assert (Hq : quiet s s7) by (repeat (etransitivity; [eassumption|]); reflexivity). clear - Hq Hsort.
  destruct Hq as (Hw & Hm & t & Htr & Ht).
  match goal with |- context [X.bind (node n_mapAskFor) ?k s7] => change (X.bind (node n_mapAskFor) k s7) with (k (n_mapAskFor (st_node s7)) s7) end.
  cbv beta. rewrite Hm. unfold X.bind.
  destruct (ask_loop_run now (n_mapAskFor (st_node s)) [] s7 Hsort Hm ltac:(done)) as (n & batches & left & -> & Hn & Hcat & Hall & Hleft).
  rewrite Hw in *. cbn [app] in Hcat. subst Q. cbv beta. rewrite Htr, <-app_assoc. by apply wanted_batches.
Qed.

End Inv.
