(* ===== verification/Session.v ===== *)
(** The theorems about messages and peers on one small chain: concrete instances of the
    parameters, in which the hash of a header grows along the chain, and a few nodes. *)

From S2P Require Import Prelude Monad Alert AlertThms NetAddr AddrMan Core Block BigNum BigNumThms Checkpoints Validation ValidationThms Node Messages MessagesThms PeerThms InvThms.

#[local] Existing Instance IntegerBN.integers.

#[local] Instance hashing : Hashing := {| Hash2 a b := a * 1000 + b; TxHash t := lenZ (vout t) * 10 + nLockTime t |}.

#[local] Instance chain : Chain.
Proof.
  refine {| tx_size tx := 100 * lenZ (vin tx) + 50 * lenZ (vout tx); block_size b := 100 * lenZ (vtx b);
    header_hash h := Z.max 0 (hashPrevBlock h) + 1 + Z.abs (nNonce h); GetSigOpCount s := lenZ s;
    push_int n := [2; n mod 256; n / 256];
    GetMedianTimePast := bi_nTime; MAX_BLOCK_SIZE := 1000000; MAX_BLOCK_SIGOPS := 20000;
    MAX_MONEY := 2100000000000000; LOCKTIME_THRESHOLD := 500000000;
    MoneyRange n := (0 <=? n) && (n <=? 2100000000000000) |}; try done; lia.
Defined.

#[local] Instance types : AddressTypes := {| as_nTime := wrapu 32; NODE_NETWORK := 1 |}.

(** Numbers and objects of one byte; a block of three bytes, an inventory of pairs of bytes. *)
Definition rd_byte (b : bytes) : option (Z * bytes) := match b with x :: r => Some (x, r) | [] => None end.
Fixpoint pairs (b : bytes) : list CInv := match b with t :: h :: r => mkInv t h :: pairs r | _ => [] end.

Definition coinbase : CTransaction :=
  mkTx 1 [mkTxIn COutPoint.SetNull [2; 5] uint_max] [mkTxOut 5000000000 []] 0.
Definition easy_bits : Z := 0x1d00ffff.
Definition block (prev nonce : Z) : CBlock := mkBlock (mkHeader 2 prev 10 600 easy_bits nonce) [coinbase] [].

#[local] Instance wire : Wire.
Proof.
  refine {| rd_int := rd_byte; rd_int64 := rd_byte; rd_uint64 := rd_byte;
    rd_bool b := (fun p => (negb (p.1 =? 0), p.2)) <$> rd_byte b;
    rd_string b := Some (b, []); rd_vch b := Some (b, []);
    rd_addr b := (fun p => (default_address, p.2)) <$> rd_byte b;
    rd_vaddr b := Some ((fun _ => default_address) <$> b, []);
    rd_vinv b := Some (pairs b, []);
    rd_tx b := (fun p => (coinbase, p.2)) <$> rd_byte b;
    rd_block b := match b with p :: n :: r => Some (block p n, r) | _ => None end;
    rd_filter b := Some (b, []);
    wire_alerts := AlertExamples.env; IsWithinSizeConstraints f := lenZ f <=? 36000;
    HashData := foldr Z.add 0; Hash256 h := h; addr_hash a := nTime a;
    dos_of v := match v with DoS n => Some n | Accept => None | Invalid => Some 0 end;
    send_size n _ := n + 24; MSG_TX := 1; MSG_BLOCK := 2;
    MIN_PROTO_VERSION := 209; CADDR_TIME_VERSION := 31402; BIP0031_VERSION := 60000;
    MAX_INV_SZ := 50000; MAX_SCRIPT_ELEMENT_SIZE := 520; SendBufferSize := 1000000 |}; done || lia.
Defined.

Definition rank (b : CBlock) : nat := Z.to_nat (header_hash (header b)).

Lemma ranks : hash_ranked rank.
Proof. intros b b'. unfold rank. cbn. lia. Qed.

Module Examples.

(** A routable node, 8.8.8.8. *)
Definition peer_addr : CAddress := mkAddress (mkService (CNetAddr.of_in_addr [8; 8; 8; 8]) 8333) 1 100000000 0.

Definition new_node : CNode :=
  mkNode peer_addr 0 0 [] 0 true true false false false false false false false None None 0 ∅ [] None 0 0 true [] 0.
(** After a version message of version 209. *)
Definition known_node (asks : list (Z * CInv)) : CNode :=
  mkNode peer_addr 209 1 [] 0 true true false false false true false false true None None 0 ∅ [] None 0 0 true asks 0.

Definition globals : Globals := mkGlobals 5 1000 false false {[5 := mkIndex 5 None 4 500 easy_bits 2]}.
Definition world0 (orphans : gmap uint256 CBlock) : World :=
  mkWorld globals 1000 orphans [] 5 (Some 5) 77 false false false [] no_alerts 0 [] 0 99 98 [] (fun a => a) (fun _ => true) None 0 ∅ 100 86400.

Definition st (n : CNode) (orphans : gmap uint256 CBlock) (payload : bytes) : St := mkSt n (world0 orphans) payload [].

(** Two orphans, one on top of the other. *)
Definition orphan1 : CBlock := block 40 0.
Definition orphan2 : CBlock := block 41 1.
Definition orphans : gmap uint256 CBlock := {[41 := orphan1; 43 := orphan2]}.

Lemma orphans_keyed n r : keyed (st n orphans r).
Proof.
  intros h b. change (orphans !! h = Some b -> header_hash (header b) = h). unfold orphans.
  rewrite lookup_insert_Some, lookup_singleton_Some. intros [[<- <-]|[_ [<- <-]]]; reflexivity.
Qed.

Lemma GetOrphanRoot_spec_witness :
  exists b, GetOrphanRoot orphans orphan2 = Some (header_hash (header b)) /\
    orphans !! hashPrevBlock (header b) = None /\ (b = orphan2 \/ exists h, orphans !! h = Some b).
Proof.
  apply (GetOrphanRoot_spec orphans orphan2) with (rank := rank).
  refine (keyed_ranked rank (st new_node orphans []) orphan2 ranks _). apply orphans_keyed.
Defined.

(** A third orphan is stored and the root of its chain asked for. *)
Lemma ProcessBlock_spec_witness :
  exists s', ProcessBlock (block 43 0) (st new_node orphans []) = (Done Accept, s') /\
    st_world s' = with_orphan (world0 orphans) (block 43 0) /\ is_orphan (world0 orphans) (block 43 0).
Proof.
  set (s := st new_node orphans []).
  assert (Ho : is_orphan (world0 orphans) (block 43 0)) by (split; [discriminate|reflexivity]).
  assert (Hr : ranked (<[header_hash (header (block 43 0)) := block 43 0]> (w_mapOrphanBlocks (st_world s))) rank (block 43 0)).
  { refine (keyed_ranked rank (st new_node (<[header_hash (header (block 43 0)) := block 43 0]> orphans) []) (block 43 0) ranks _).
    intros h b. change (<[44 := block 43 0]> orphans !! h = Some b -> header_hash (header b) = h).
    rewrite lookup_insert_Some. intros [[<- <-]|[_ Hl]]; [reflexivity|]. by apply (orphans_keyed new_node []). }
  destruct (ProcessBlock_spec (block 43 0) s rank Hr) as (v & s' & Hrun & Hacc & _ & _ & Horph).
  assert (Hv : v = Accept). { apply Hacc. repeat split; vm_compute; reflexivity. }
  subst v. destruct (Horph eq_refl Ho) as [Hw _]. exists s'. split; [exact Hrun|]. split; [exact Hw|exact Ho].
Defined.

Definition message (c : String.string) (payload : bytes) : CNetMessage :=
  mkNetMessage true true true (lit c) (lenZ payload) (foldr Z.add 0 payload) payload.

(** A session: pong before version, version 209, inventory, a second version. *)
Definition queue : list CNetMessage :=
  [message "pong" []; message "version" [209; 1; 0; 0; 0; 5]; message "inv" [2; 43; 2; 99; 1; 7];
   message "version" [250; 1; 0; 0]].

Lemma ProcessMessages_handshake_witness :
  exists fOk s' rest, ProcessMessages queue (st new_node orphans []) = Some (fOk, s', rest) /\ handshaken (st_node s').
Proof.
  destruct (ProcessMessages_handshake queue (st new_node orphans []) rank ranks (orphans_keyed _ _)) as (f & s' & r & Hrun & Hh & _).
  exists f, s', r. split; [exact Hrun|]. apply Hh. intros E. discriminate E.
Defined.

Lemma ProcessMessages_early_witness :
  exists fOk s' rest k, ProcessMessages [message "ping" [1]; message "inv" []] (st new_node orphans []) = Some (fOk, s', rest) /\
    st_trace s' = replicate k (Misbehaving 1).
Proof.
  destruct (ProcessMessages [message "ping" [1]; message "inv" []] (st new_node orphans [])) as [[[f s'] r]|] eqn:E;
    [|vm_compute in E; discriminate E].
  destruct (ProcessMessages_early [message "ping" [1]; message "inv" []] (st new_node orphans []) f s' r) as (_ & _ & k & Hk); try reflexivity.
  - repeat constructor; discriminate.
  - exact E.
  - exists f, s', r, k. split; [reflexivity|exact Hk].
Defined.

Lemma handle_inv_spec_witness :
  exists n new, handle_inv (st (known_node []) orphans [2; 43; 2; 99; 1; 7; 2; 5]) = (Done None, mkSt n (world0 orphans) [] new) /\
    asked new = [mkInv 2 99] /\ last_request n = (Some 5, 0).
Proof.
  pose proof (handle_inv_spec rank ranks (st (known_node []) orphans [2; 43; 2; 99; 1; 7; 2; 5]) _ [] (orphans_keyed _ _) eq_refl) as K.
  destruct K as (n & new & Hrun & _ & _ & Hask & Hlast). exists n, new. split; [exact Hrun|]. split; [exact Hask|].
  apply (Hlast [mkInv 2 43; mkInv 2 99; mkInv 1 7] (mkInv 2 5) []); try reflexivity. constructor.
Defined.

Lemma SendMessages_getdata_witness :
  exists s' new, SendMessages true (st (known_node [(5, mkInv 2 8); (6, mkInv 2 5); (9000000000, mkInv 2 9)]) orphans []) = (Done tt, s') /\
    st_trace s' = new /\ concat (getdatas new) = [mkInv 2 8].
Proof.
  destruct (SendMessages_getdata (st (known_node [(5, mkInv 2 8); (6, mkInv 2 5); (9000000000, mkInv 2 9)]) orphans []))
    as (s' & new & Hrun & _ & _ & Htr & Hcat & _); [discriminate|repeat constructor; discriminate|].
  exists s', new. split; [exact Hrun|]. split; [exact Htr|exact Hcat].
Defined.

Lemma Misbehave_spec_witness :
  exists s', Misbehave 100 (st new_node orphans []) = (Done true, s') /\
    IsBanned (st_world s') (sv_ip (ca_service peer_addr)) = true.
Proof.
  destruct (Misbehave 100 (st new_node orphans [])) as [[b| |] s'] eqn:E; [|vm_compute in E; discriminate E..].
  destruct (Misbehave_spec 100 (st new_node orphans []) b s' E) as (Hb & _ & _ & Hban & _).
  assert (Ht : b = true) by (apply Hb; split; [vm_compute; reflexivity|discriminate]). subst b.
  exists s'. split; [reflexivity|]. destruct (Hban eq_refl) as (_ & Hip & _). apply Hip. reflexivity.
Defined.

Lemma ProcessMessage_falls_off_witness :
  exists s', ProcessMessage (lit "verack") (st (known_node []) orphans []) = (Done FellOff, s').
Proof.
  apply (ProcessMessage_falls_off (lit "verack") (st (known_node []) orphans [])); [|discriminate|discriminate].
  apply elem_of_cons. left. reflexivity.
Defined.

End Examples.
