(* ===== verification/Sync.v ===== *)
(** The detection of lock orders that may deadlock (src/sync.cpp, DEBUG_LOCKORDER).

    [push_lock] notes for every lock a thread holds that it comes before the one the thread asks
    for, and reports when the same two locks have been taken in the other order before.  [dd_mutex]
    makes each call one step; a history is the sequence of the calls of all threads.  A lock is
    the number of its address.  Left out: the texts printed, and sync.h, which is not in the tree: it calls
    [EnterCritical] before it waits for a lock and [LeaveCritical] when it gives one back. *)

From S2P Require Import Prelude.

Record CLockLocation := mkLocation { mutexName : bytes; sourceFile : bytes; sourceLine : Z }.
#[global] Instance CLockLocation_eq_dec : EqDecision CLockLocation.
Proof. solve_decision. Defined.

Abbreviation LockStack := (list (Z * CLockLocation)).

(** [lockstack] of each thread, [None] before its first lock; the reports in order. *)
Record LockState := mkLocks {
  lockorders : gmap (Z * Z) LockStack;
  lockstack : gmap nat LockStack;
  reports : list ((Z * Z) * LockStack * LockStack) }.

Definition no_locks : LockState := mkLocks ∅ ∅ [].

(** The loop over the stack, the new entry included: [stack] is what is still to be visited. *)
Fixpoint order_loop (c : Z) (whole stack : LockStack)
    (lo : gmap (Z * Z) LockStack) (rep : list ((Z * Z) * LockStack * LockStack)) :
    gmap (Z * Z) LockStack * list ((Z * Z) * LockStack * LockStack) :=
  match stack with
  | [] => (lo, rep)
  | (i, _) :: r =>
    if i =? c then (lo, rep)
    else
      let p1 := (i, c) in
      if bool_decide (is_Some (lo !! p1)) then order_loop c whole r lo rep
      else
        let lo := <[p1 := whole]> lo in
        let p2 := (c, i) in
        match lo !! p2 with
        | Some other => (lo, rep ++ [(p1, other, whole)])
        | None => order_loop c whole r lo rep
        end
  end.

Definition stack_of (t : nat) (s : LockState) : LockStack := default [] (lockstack s !! t).

Definition push_lock (t : nat) (c : Z) (loc : CLockLocation) (fTry : bool) (s : LockState) : LockState :=
  let stack := stack_of t s ++ [(c, loc)] in
  let '(lo, rep) := if fTry then (lockorders s, reports s)
                    else order_loop c stack stack (lockorders s) (reports s) in
  mkLocks lo (<[t := stack]> (lockstack s)) rep.

(** [None]: [pop_back] on an empty vector or a null pointer. *)
Definition pop_lock (t : nat) (s : LockState) : option LockState :=
  match lockstack s !! t with
  | None | Some [] => None
  | Some stack => Some (mkLocks (lockorders s) (<[t := removelast stack]> (lockstack s)) (reports s))
  end.

Definition EnterCritical (t : nat) (pszName pszFile : bytes) (nLine : Z) (cs : Z) (fTry : bool) (s : LockState) : LockState :=
  push_lock t cs (mkLocation pszName pszFile nLine) fTry s.
Definition LeaveCritical (t : nat) (s : LockState) : option LockState := pop_lock t s.

Inductive Call :=
| Enter (t : nat) (pszName pszFile : bytes) (nLine : Z) (cs : Z) (fTry : bool)
| Leave (t : nat).

Definition thread_of (e : Call) : nat := match e with Enter t _ _ _ _ _ => t | Leave t => t end.

Definition call (e : Call) (s : LockState) : option LockState :=
  match e with
  | Enter t name file line cs fTry => Some (EnterCritical t name file line cs fTry s)
  | Leave t => LeaveCritical t s
  end.

Fixpoint calls (l : list Call) (s : LockState) : option LockState :=
  match l with [] => Some s | e :: r => s' ← call e s; calls r s' end.

(** * Theorems *)

Lemma calls_app l k s : calls (l ++ k) s = (s' ← calls l s; calls k s').
Proof.
  revert s. induction l as [|e l IH]; intros s; cbn; [done|]. destruct (call e s); cbn; [apply IH|done].
Qed.

(** Nothing that was noted or reported is forgotten. *)
Definition grows (s s' : LockState) : Prop :=
  (forall p, is_Some (lockorders s !! p) -> is_Some (lockorders s' !! p)) /\
  (reports s <> [] -> reports s' <> []).

#[global] Instance grows_preorder : PreOrder grows.
Proof. split; [by split|]. intros s1 s2 s3 [A1 B1] [A2 B2]. split; auto. Qed.

(** No two locks in both orders, unless it was reported. *)
Definition antisymmetric (lo : gmap (Z * Z) LockStack) : Prop :=
  forall a b, is_Some (lo !! (a, b)) -> is_Some (lo !! (b, a)) -> False.

Lemma order_loop_spec c whole stack lo rep lo' rep' :
  order_loop c whole stack lo rep = (lo', rep') ->
  (forall p, is_Some (lo !! p) -> is_Some (lo' !! p)) /\ (rep <> [] -> rep' <> []) /\
  ((rep = [] -> antisymmetric lo) -> rep' = [] -> antisymmetric lo') /\
  (rep' = [] -> forall a, a ∈ stack.*1 -> c ∉ stack.*1 \/ (exists l r, stack.*1 = l ++ c :: r /\ a ∈ l /\ c ∉ l) ->
     is_Some (lo' !! (a, c))).
Proof.
  revert lo rep. induction stack as [|[i loc] stack IH]; intros lo rep; cbn [order_loop].
  { intros [= <- <-]. split_and!; [done|done|done|]. intros _ a Ha. by apply elem_of_nil in Ha. }
  destruct (Z.eqb_spec i c) as [->|Hne].
  { intros [= <- <-]. split_and!; [done|done|done|]. intros _ a _ [Hc|(l & r & E & Ha & Hc)].
    - destruct Hc. left.
    - destruct l as [|x l]; [by apply elem_of_nil in Ha|]. injection E as <- _. destruct Hc. left. }
  assert (Htail : forall a, a ∈ (i :: stack.*1) ->
    (c ∉ i :: stack.*1 \/ (exists l r, i :: stack.*1 = l ++ c :: r /\ a ∈ l /\ c ∉ l)) ->
    a = i \/ a ∈ stack.*1 /\ (c ∉ stack.*1 \/ (exists l r, stack.*1 = l ++ c :: r /\ a ∈ l /\ c ∉ l))).
  { intros a [->|Ha]%elem_of_cons Hor; [by left|]. destruct (decide (a = i)); [by left|right]. split; [done|].
    destruct Hor as [Hc|(l & r & E & Hl & Hc)]; [left; set_solver|right].
    destruct l as [|x l]; [injection E as <- _; done|]. injection E as <- ->. exists l, r. set_solver. }
  case_bool_decide as Hin.
  - intros E. destruct (IH _ _ E) as (H1 & H2 & H3 & H4). split_and!; [done|done|done|].
    intros Hr a Ha Hor. destruct (Htail a Ha Hor) as [->|[Ha' Hor']]; [by apply H1|by apply H4].
  - set (lo1 := <[(i, c) := whole]> lo).
    assert (Hmono : forall p, is_Some (lo !! p) -> is_Some (lo1 !! p)).
    { intros p Hp. unfold lo1. destruct (decide (p = (i, c))) as [->|]; [by rewrite lookup_insert_eq|by rewrite lookup_insert_ne]. }
    destruct (lo1 !! (c, i)) as [other|] eqn:Eo.
    + intros [= <- <-]. split_and!; [done| | |]; try (intros; by destruct rep). 
    + intros E. destruct (IH _ _ E) as (H1 & H2 & H3 & H4). split_and!; [auto|done| |].
      * intros Hanti. apply H3. intros Hrep a b Ha Hb. unfold lo1 in Ha, Hb, Eo.
        destruct (decide ((a, b) = (i, c))) as [[= -> ->]|Ha1]; [rewrite Eo in Hb; by destruct Hb|].
        destruct (decide ((b, a) = (i, c))) as [[= -> ->]|Hb1]; [rewrite Eo in Ha; by destruct Ha|].
        rewrite lookup_insert_ne in Ha by done. rewrite lookup_insert_ne in Hb by done. by apply (Hanti Hrep a b).
      * intros Hr a Ha Hor. destruct (Htail a Ha Hor) as [->|[Ha' Hor']]; [|by apply H4].
        apply H1. unfold lo1. by rewrite lookup_insert_eq.
Qed.

Definition quiet (s : LockState) : Prop := reports s = [] -> antisymmetric (lockorders s).

Lemma push_lock_spec t c loc fTry s :
  grows s (push_lock t c loc fTry s) /\ (quiet s -> quiet (push_lock t c loc fTry s)) /\
  lockstack (push_lock t c loc fTry s) = <[t := stack_of t s ++ [(c, loc)]]> (lockstack s) /\
  (fTry = false -> reports (push_lock t c loc fTry s) = [] -> c ∉ (stack_of t s).*1 ->
   forall a, a ∈ (stack_of t s).*1 -> is_Some (lockorders (push_lock t c loc fTry s) !! (a, c))).
Proof.
  unfold push_lock. destruct fTry; [by split_and!|].
  destruct (order_loop _ _ _ _ _) as [lo rep] eqn:E. destruct (order_loop_spec _ _ _ _ _ _ _ E) as (H1 & H2 & H3 & H4).
  cbn [lockorders reports lockstack]. split_and!; [by split|exact H3|done|].
  intros _ Hr Hc a Ha. apply (H4 Hr).
  - rewrite fmap_app. set_solver.
  - right. exists ((stack_of t s).*1), []. by rewrite fmap_app.
Qed.

Lemma call_grows e s s' : call e s = Some s' ->
  grows s s' /\ (quiet s -> quiet s') /\ forall t, t <> thread_of e -> lockstack s' !! t = lockstack s !! t.
Proof.
  destruct e as [t name file line c fTry|t]; cbn [call thread_of].
  - intros [= <-]. destruct (push_lock_spec t c (mkLocation name file line) fTry s) as (Hg & Hq & Hs & _).
    unfold EnterCritical. split_and!; [done|done|]. intros t' Ht. rewrite Hs. by rewrite lookup_insert_ne.
  - unfold LeaveCritical, pop_lock. destruct (lockstack s !! t) as [[|x st]|]; [done| |done]. intros [= <-].
    split_and!; [by split|done|]. intros t' Ht. cbn [lockstack]. by rewrite lookup_insert_ne.
Qed.

Lemma calls_grows l s s' : calls l s = Some s' ->
  grows s s' /\ (quiet s -> quiet s') /\
  forall t, Forall (fun e => thread_of e <> t) l -> lockstack s' !! t = lockstack s !! t.
Proof.
  revert s. induction l as [|e l IH]; intros s; cbn [calls]; [by intros [= <-]|].
  intros (s1 & Hc & Hl)%bind_Some. destruct (call_grows _ _ _ Hc) as (G1 & Q1 & S1). destruct (IH _ Hl) as (G2 & Q2 & S2).
  split_and!; [by etransitivity|auto|]. intros t [Ht Hr]%Forall_cons. rewrite S2 by done. by apply S1.
Qed.

(** The last call of thread [t] asked for lock [c] without being content with a failure, and
    the thread holds the other locks of its stack. *)
Definition waits (history : list Call) (t : nat) (c : Z) : Prop :=
  exists before name file line rest,
    history = before ++ Enter t name file line c false :: rest /\ Forall (fun e => thread_of e <> t) rest.

Lemma waits_noted history s t a c :
  calls history no_locks = Some s -> waits history t c ->
  a ∈ (removelast (stack_of t s)).*1 -> c ∉ (removelast (stack_of t s)).*1 ->
  reports s = [] -> is_Some (lockorders s !! (a, c)).
Proof.
  intros Hrun (before & name & file & line & rest & -> & Hrest) Ha Hc Hr.
  rewrite calls_app in Hrun. apply bind_Some in Hrun as (s0 & H0 & Hrun). cbn [calls call] in Hrun.
  unfold EnterCritical in Hrun. cbn [mbind option_bind] in Hrun.
  set (loc := mkLocation name file line) in Hrun.
  destruct (push_lock_spec t c loc false s0) as (_ & _ & Hs & Hp).
  destruct (calls_grows _ _ _ Hrun) as ([G1 G2] & _ & S2). specialize (S2 t Hrest).
  assert (Hstack : stack_of t s = stack_of t s0 ++ [(c, loc)]).
  { unfold stack_of at 1. rewrite S2, Hs, lookup_insert_eq. done. }
  rewrite Hstack, removelast_last in Ha, Hc. apply G1, Hp; [done| |done|done].
  destruct (decide (reports (push_lock t c loc false s0) = [])) as [|Hne]; [done|]. by destruct (G2 Hne).
Qed.

(** C21 In whatever order the threads make their calls: when two threads wait for each other - each asks for a
    lock it does not hold and the other holds - the lock orders have been reported as a potential
    deadlock. *)
Theorem deadlock_reported history s t1 t2 a b :
  calls history no_locks = Some s ->
  waits history t1 b -> a ∈ (removelast (stack_of t1 s)).*1 -> b ∉ (removelast (stack_of t1 s)).*1 ->
  waits history t2 a -> b ∈ (removelast (stack_of t2 s)).*1 -> a ∉ (removelast (stack_of t2 s)).*1 ->
  reports s <> [].
Proof.
  intros Hrun W1 A1 B1 W2 B2 A2 Hr.
  pose proof (waits_noted _ _ _ _ _ Hrun W1 A1 B1 Hr) as L1. pose proof (waits_noted _ _ _ _ _ Hrun W2 B2 A2 Hr) as L2.
  destruct (calls_grows _ _ _ Hrun) as (_ & Q & _). apply (Q ltac:(intros _ x y Hx; by destruct Hx) Hr a b L1 L2).
Qed.

Module SyncExamples.

Definition lk (t : nat) (c : Z) : Call := Enter t [] [] 0 c false.

(** The first scenario of the comment: A, B, C and D, C, A. *)
Definition abc_dca : list Call := [lk 1 1; lk 1 2; lk 2 4; lk 2 3; lk 2 1; lk 1 3].

Lemma deadlock_reported_witness : exists s, calls abc_dca no_locks = Some s /\ reports s <> [] /\ length (reports s) = 1%nat.
Proof.
  destruct (calls abc_dca no_locks) as [s|] eqn:E; [|by vm_compute in E]. exists s. split; [done|].
  pose proof E as Es. vm_compute in Es. injection Es as <-.
  split; [|done].
  apply (deadlock_reported abc_dca _ 1 2 1 3 E); try (apply (bool_decide_unpack _); by vm_compute).
  - exists [lk 1 1; lk 1 2; lk 2 4; lk 2 3; lk 2 1], [], [], 0, []. by split.
  - exists [lk 1 1; lk 1 2; lk 2 4; lk 2 3], [], [], 0, [lk 1 3]. split; [done|]. by repeat constructor.
Defined.

(** Three threads in a circle are not reported: only pairs are compared. *)
Example circle_unreported :
  (fun s => reports s) <$> calls [lk 1 1; lk 2 2; lk 3 3; lk 1 2; lk 2 3; lk 3 1] no_locks = Some [].
Proof. by vm_compute. Qed.

End SyncExamples.
