(* ===== verification/CheckQueue.v ===== *)
(** The queue of verifications: src/checkqueue.h, [CCheckQueue] and [CCheckQueueControl].

    Threads interleave: what a thread does while it holds the mutex is one step, every check it
    runs without the mutex is a step of its own.  [step l c] is the configuration after the step
    with label [l], [None] when the thread cannot make it.  [cond.wait] releases the mutex and
    ends when the condition was notified; a [Spurious] step ends it for no reason, as boost
    allows.  The queue is used as a stack, its back is the head of the list.  One thread is the
    master, as the comment of the class demands: it alone calls [Add] and [Wait]. *)

From S2P Require Import Prelude.

Section CheckQueue.
Context {T : Type} (check : T -> bool).

(** The members behind the mutex. *)
Record CCheckQueue := mkQueue {
  queue : list T; nIdle : Z; nTotal : Z; fAllOk : bool; nTodo : Z; fQuit : bool; nBatchSize : Z }.

Definition CCheckQueue_new (nBatchSizeIn : Z) : CCheckQueue := mkQueue [] 0 0 true 0 false nBatchSizeIn.

(** Where a thread is in [Loop], with its local variables. *)
Inductive Thread :=
| Outside                                            (* not in [Loop] *)
| Entering                                           (* before the first iteration *)
| Waiting (notified : bool)                          (* in [cond.wait] *)
| Working (vChecks : list T) (nNow : Z) (fOk : bool) (* without the mutex *)
| Returned (fRet : bool).

(** The clean-up of the previous loop run; the last component: [condMaster] is notified. *)
Definition cleanup (fMaster : bool) (nNow : Z) (fOk : bool) (q : CCheckQueue) : CCheckQueue * bool :=
  if nNow =? 0 then
    (mkQueue (queue q) (nIdle q) (nTotal q + 1) (fAllOk q) (nTodo q) (fQuit q) (nBatchSize q), false)
  else
    let nTodo' := u32 (nTodo q - nNow) in
    (mkQueue (queue q) (nIdle q) (nTotal q) (fAllOk q && fOk) nTodo' (fQuit q) (nBatchSize q),
     (nTodo' =? 0) && negb fMaster).

Definition batch_size (q : CCheckQueue) : Z :=
  Z.max 1 (Z.min (nBatchSize q) (u32 (lenZ (queue q)) / u32 (nTotal q + nIdle q + 1))).

(** From the head of the inner loop to the next release of the mutex. *)
Definition loop_head (fMaster : bool) (q : CCheckQueue) : CCheckQueue * Thread :=
  match queue q with
  | [] =>
    if (fMaster || fQuit q) && (nTodo q =? 0) then
      (mkQueue [] (nIdle q) (nTotal q - 1) (if fMaster then true else fAllOk q) (nTodo q) (fQuit q) (nBatchSize q),
       Returned (fAllOk q))
    else (mkQueue [] (nIdle q + 1) (nTotal q) (fAllOk q) (nTodo q) (fQuit q) (nBatchSize q), Waiting false)
  | _ =>
    let nNow := batch_size q in
    (mkQueue (drop (Z.to_nat nNow) (queue q)) (nIdle q) (nTotal q) (fAllOk q) (nTodo q) (fQuit q) (nBatchSize q),
     Working (take (Z.to_nat nNow) (queue q)) nNow (fAllOk q))
  end.

(** Behind [cond.wait]. *)
Definition woken (q : CCheckQueue) : CCheckQueue :=
  mkQueue (queue q) (nIdle q - 1) (nTotal q) (fAllOk q) (nTodo q) (fQuit q) (nBatchSize q).

(** One step of a thread inside [Loop]; the last component: [condMaster] is notified. *)
Definition loop_step (fMaster spurious : bool) (th : Thread) (q : CCheckQueue) : option (CCheckQueue * Thread * bool) :=
  match th with
  | Entering => let '(q, n) := cleanup fMaster 0 true q in Some (loop_head fMaster q, n)
  | Waiting notified => if notified || spurious then Some (loop_head fMaster (woken q), false) else None
  | Working (c :: r) nNow fOk => Some (q, Working r nNow (if fOk then check c else false), false)
  | Working [] nNow fOk => let '(q, n) := cleanup fMaster nNow fOk q in Some (loop_head fMaster q, n)
  | Outside | Returned _ => None
  end.

(** [Add] without its notifications. *)
Definition push_all (vChecks : list T) (q : CCheckQueue) : CCheckQueue :=
  mkQueue (rev vChecks ++ queue q) (nIdle q) (nTotal q) (fAllOk q) (u32 (nTodo q + lenZ vChecks)) (fQuit q) (nBatchSize q).

(** ** All threads *)

Definition notify (th : Thread) : Thread := match th with Waiting _ => Waiting true | th => th end.
Definition waits (th : Thread) : bool := match th with Waiting false => true | _ => false end.

(** [notify_one]: one of the threads that wait, the system chooses which. *)
Definition notify_one (pick : nat) (workers : list Thread) : option (list Thread) :=
  if existsb waits workers then
    match workers !! pick with
    | Some th => if waits th then Some (<[pick := notify th]> workers) else None
    | None => None
    end
  else Some workers.

(** The last two components are not in the code: the checks added since the master last
    returned, and what every [Wait] so far was for and returned. *)
Record Config := mkConfig {
  shared : CCheckQueue; master : Thread; workers : list Thread;
  added : list T; results : list (list T * bool) }.

Inductive Label :=
| Add (vChecks : list T) (pick : nat)  (* the master adds a batch *)
| Wait                                 (* the master calls [Wait] *)
| Return                               (* [Wait] has returned *)
| Step (worker : option nat)           (* a thread in [Loop] goes on; [None]: the master *)
| Spurious (worker : option nat).

Definition thread_step (spurious : bool) (who : option nat) (c : Config) : option Config :=
  match who with
  | None =>
    '(q, th, _) ← loop_step true spurious (master c) (shared c);
    Some (mkConfig q th (workers c) (added c) (results c))
  | Some i =>
    th ← workers c !! i;
    '(q, th, n) ← loop_step false spurious th (shared c);
    Some (mkConfig q (if n : bool then notify (master c) else master c) (<[i := th]> (workers c)) (added c) (results c))
  end.

Definition step (l : Label) (c : Config) : option Config :=
  match l, master c with
  | Add vChecks pick, Outside =>
    let n := lenZ vChecks in
    ws ← (if n =? 1 then notify_one pick (workers c)
          else Some (if 1 <? n then notify <$> workers c else workers c));
    Some (mkConfig (push_all vChecks (shared c)) Outside ws (added c ++ vChecks) (results c))
  | Wait, Outside => Some (mkConfig (shared c) Entering (workers c) (added c) (results c))
  | Return, Returned fRet => Some (mkConfig (shared c) Outside (workers c) [] (results c ++ [(added c, fRet)]))
  | Step who, _ => thread_step false who c
  | Spurious who, _ => thread_step true who c
  | _, _ => None
  end.

(** [n] worker threads about to enter [Loop]. *)
Definition start (nBatchSizeIn : Z) (n : nat) : Config :=
  mkConfig (CCheckQueue_new nBatchSizeIn) Outside (replicate n Entering) [] [].

Fixpoint run (ls : list Label) (c : Config) : option Config :=
  match ls with [] => Some c | l :: r => c' ← step l c; run r c' end.

(** The assertions of the constructor of [CCheckQueueControl]. *)
Definition control_asserts (q : CCheckQueue) : bool :=
  (nTotal q =? nIdle q) && (nTodo q =? 0) && Bool.eqb (fAllOk q) true.

End CheckQueue.
