(* ===== verification/CheckQueueThms.v ===== *)
(** Theorems about the queue of verifications: [Wait] returns whether every check added passes,
    whatever the threads do in between, and it returns. *)

From S2P Require Import Prelude CheckQueue.

Section CheckQueue.
Context {T : Type} (check : T -> bool).
Notation Thread := (@Thread T).
Notation CCheckQueue := (@CCheckQueue T).
Notation Config := (@Config T).

Definition is_waiting (th : Thread) : Z := match th with Waiting _ => 1 | _ => 0 end.
Definition is_inside (th : Thread) : Z := match th with Waiting _ | Working _ _ _ => 1 | _ => 0 end.

(** The thread holds the batch [b]; as long as all is well its result is that of what it did. *)
Definition holds_batch (allOk : bool) (th : Thread) (b : list T) : Prop :=
  match th with
  | Working vChecks nNow fOk => nNow = lenZ b /\ b <> [] /\
      exists done_, b = done_ ++ vChecks /\ (allOk = true -> fOk = forallb check done_)
  | _ => b = []
  end.

(** An upper bound on the steps a thread can still make. *)
Definition weight (th : Thread) : nat :=
  match th with Entering => 2 | Waiting true => 1 | Working v _ _ => 3 + length v | _ => 0 end.
Definition effort (q : CCheckQueue) : nat := 6 * length (queue q).

(** The queue as the threads other than the one that moves leave it: they hold [others]
    unfinished checks. *)
Definition fits (others : Z) (q : CCheckQueue) (b : list T) : Prop :=
  nTodo q = lenZ b + others + lenZ (queue q) /\ 0 <= others /\ nTodo q < 2 ^ 32 /\ fQuit q = false /\ 0 <= nBatchSize q.

Definition crowd (q : CCheckQueue) : Prop := 0 <= nTotal q /\ 0 <= nIdle q /\ nTotal q + nIdle q + 1 < 2 ^ 32.

Lemma batch_size_range q : crowd q -> queue q <> [] -> lenZ (queue q) < 2 ^ 32 -> 1 <= batch_size q <= lenZ (queue q).
Proof.
  intros (H0 & H1 & H2) Hq Hl. unfold batch_size, u32, wrapu. change (2 ^ 32) with 4294967296 in *.
  rewrite (Z.mod_small (nTotal q + nIdle q + 1)) by lia.
  assert (1 <= lenZ (queue q)) by (destruct (queue q); [done|]; rewrite lenZ_cons; pose proof (lenZ_nonneg l); lia).
  rewrite Z.mod_small by lia.
  assert (lenZ (queue q) / (nTotal q + nIdle q + 1) <= lenZ (queue q)) by (apply Z.div_le_upper_bound; nia). lia.
Qed.

(** What a passage to the next release of the mutex does. *)
Record passage (fMaster : bool) (others : Z) (q q' : CCheckQueue) (th' : Thread) (b' : list T) : Prop := {
  p_items : b' ++ queue q' ≡ₚ queue q;
  p_fits : fits others q' b';
  p_batch : holds_batch (fAllOk q') th' b';
  p_ok : match th' with
         | Returned r => fMaster = true /\ r = fAllOk q /\ fAllOk q' = true /\ queue q' = [] /\ nTodo q' = 0
         | Outside | Entering => False
         | _ => fAllOk q' = fAllOk q
         end;
  p_idle : nIdle q' = nIdle q + is_waiting th';
  p_total : nTotal q' = nTotal q + is_inside th' - 1;
  p_todo : nTodo q' = nTodo q;
  p_sleep : th' = Waiting false -> queue q' = [] /\ (fMaster = true -> nTodo q' <> 0);
  p_effort : (effort q' + weight th' <= effort q)%nat;
  p_waiting : th' <> Waiting true }.

Lemma loop_head_passage fMaster others q q' th' :
  fits others q [] -> crowd q -> loop_head fMaster q = (q', th') ->
  exists b', passage fMaster others q q' th' b'.
Proof.
  intros (Htodo & Ho & Hlt & Hquit & Hbs) Hcrowd. unfold loop_head. change (lenZ (@nil T)) with 0 in Htodo.
  destruct (queue q) as [|x l] eqn:Hq.
  - change (lenZ (@nil T)) with 0 in Htodo. rewrite Hquit, orb_false_r.
    destruct (fMaster && (nTodo q =? 0)) eqn:E; intros [= <- <-]; exists [].
    + apply andb_prop in E as [-> E]. apply Z.eqb_eq in E.
      split; cbn; try done; rewrite ?Hq; try done; try lia.
    + split; cbn; try done; rewrite ?Hq; try done; try lia.
      intros _. split; [done|]. intros ->. cbn in E. lia.
  - intros [= <- <-]. assert (Hl : lenZ (queue q) < 2 ^ 32) by (rewrite Hq; lia).
    destruct (batch_size_range q Hcrowd ltac:(by rewrite Hq) Hl) as [Hb1 Hb2]. rewrite Hq in Hb2.
    exists (take (Z.to_nat (batch_size q)) (x :: l)).
    assert (Hlen : length (take (Z.to_nat (batch_size q)) (x :: l)) = Z.to_nat (batch_size q)).
    { rewrite length_take. unfold lenZ in Hb2. lia. }
    assert (Hd : length (drop (Z.to_nat (batch_size q)) (x :: l)) = (length (x :: l) - Z.to_nat (batch_size q))%nat) by apply length_drop.
    split; cbn [queue nTodo nIdle nTotal fAllOk fQuit nBatchSize is_waiting is_inside]; try done; try lia.
    + by rewrite take_drop, Hq.
    + unfold fits. cbn [queue nTodo fQuit nBatchSize]. unfold lenZ in *. rewrite Hlen, Hd. cbn [length] in *. lia.
    + cbn. split_and!; [unfold lenZ; rewrite Hlen; lia| |by exists []].
      intros E. apply (f_equal length) in E. rewrite Hlen in E. cbn in E. lia.
    + unfold effort. cbn [queue weight]. rewrite Hlen, Hd, Hq. unfold lenZ in Hb2. lia.
Qed.

(** The thread counts, with room for one more. *)
Definition room (th : Thread) (q : CCheckQueue) : Prop :=
  0 <= nTotal q - is_inside th /\ 0 <= nIdle q - is_waiting th /\ nTotal q + nIdle q + 2 < 2 ^ 32.

(** What one step of a thread does: it reports the checks [rep], and holds [b'] afterwards. *)
Record movement (fMaster spurious : bool) (others : Z) (q q' : CCheckQueue) (th th' : Thread) (n : bool)
    (rep b b' : list T) : Prop := {
  m_items : rep ++ b' ++ queue q' ≡ₚ b ++ queue q;
  m_fits : fits others q' b';
  m_batch : holds_batch (fAllOk q') th' b';
  m_ok : match th' with
         | Returned r => fMaster = true /\ r = fAllOk q && forallb check rep /\ fAllOk q' = true /\ queue q' = [] /\ nTodo q' = 0
         | Outside | Entering => False
         | _ => fAllOk q' = fAllOk q && forallb check rep
         end;
  m_idle : nIdle q' - is_waiting th' = nIdle q - is_waiting th;
  m_total : nTotal q' - is_inside th' = nTotal q - is_inside th;
  m_sleep : th' = Waiting false -> queue q' = [] /\ (fMaster = true -> nTodo q' <> 0);
  m_notify : n = negb fMaster && negb (nTodo q =? 0) && (nTodo q' =? 0);
  m_queue : queue q = [] -> queue q' = [];
  m_effort : spurious = false -> (effort q' + weight th' + (if n then 1 else 0) < effort q + weight th)%nat;
  m_waiting : th' <> Waiting true }.

Lemma fits_nil others q : fits others q [] -> nTodo q = others + lenZ (queue q) /\ 0 <= others.
Proof. intros (E & Ho & _). change (lenZ (@nil T)) with 0 in E. lia. Qed.

Lemma passage_queue fMaster others q q' th' b' : passage fMaster others q q' th' b' -> queue q = [] -> queue q' = [].
Proof. intros P E. pose proof (p_items _ _ _ _ _ _ P) as Hp. rewrite E in Hp. apply Permutation_sym, Permutation_nil in Hp. by apply app_eq_nil in Hp as [_ ->]. Qed.

Lemma holds_batch_idle ok th b : is_inside th = is_waiting th -> holds_batch ok th b -> b = [].
Proof. by destruct th. Qed.

(** A step that begins with [rep] reported and then passes the head of the loop. *)
Lemma passage_movement fMaster spurious others q q1 q' th th' n rep b b' :
  passage fMaster others q1 q' th' b' -> fits others q b ->
  rep ≡ₚ b -> queue q1 = queue q -> fAllOk q1 = fAllOk q && forallb check rep ->
  nIdle q1 = nIdle q - is_waiting th -> nTotal q1 = nTotal q - is_inside th + 1 ->
  nTodo q1 = nTodo q - lenZ b -> n = negb fMaster && negb (lenZ b =? 0) && (nTodo q1 =? 0) ->
  (spurious = false -> ((if n then 1 else 0) < weight th)%nat) ->
  movement fMaster spurious others q q' th th' n rep b b'.
Proof.
  intros P Hfits Hrep Hq Hok Hi Ht Htodo Hn Hw. pose proof P as [Pi Pf Pb Po Pid Pt Ptd Ps Pe Pw].
  split; try done; try lia.
  - by rewrite Pi, Hq, Hrep.
  - destruct th'; try done; rewrite ?Hok in Po; naive_solver.
  - intros Eq. eapply passage_queue; [exact P|congruence].
  - intros Hs. specialize (Hw Hs). unfold effort in *. rewrite Hq in Pe. lia.
Qed.

Lemma loop_step_movement fMaster spurious others th q q' th' n b :
  fits others q b -> holds_batch (fAllOk q) th b -> room th q ->
  loop_step check fMaster spurious th q = Some (q', th', n) ->
  exists rep b', movement fMaster spurious others q q' th th' n rep b b'.
Proof.
  intros Hfits Hb (R1 & R2 & R3) Hstep.
  assert (Hpass : forall q1 q2 th2, fits others q1 [] -> crowd q1 -> loop_head fMaster q1 = (q2, th2) ->
            exists b', passage fMaster others q1 q2 th2 b') by (intros; by eapply loop_head_passage).
  destruct th as [| |w|vs nNow fOk|]; cbn [loop_step] in Hstep; try done.
  - cbn in Hb. subst b. unfold cleanup in Hstep. cbn [Z.eqb] in Hstep.
    destruct (loop_head _ _) as [q2 th2] eqn:Hh. injection Hstep as <- <- <-.
    apply Hpass in Hh as [b' P]; [|by destruct Hfits as (?&?&?&?&?)|unfold crowd; cbn in *; lia].
    exists [], b'. eapply passage_movement; try exact P; try done; cbn; rewrite ?andb_true_r, ?andb_false_r, ?lenZ_nil; cbn in *; try done; try lia.
  - cbn in Hb. subst b. destruct (w || spurious) eqn:Hw; [|done].
    destruct (loop_head _ _) as [q2 th2] eqn:Hh. injection Hstep as <- <- <-.
    apply Hpass in Hh as [b' P]; [|by destruct Hfits as (?&?&?&?&?)|unfold crowd; cbn in *; lia].
    exists [], b'. eapply passage_movement; try exact P; try done; cbn; rewrite ?andb_true_r, ?andb_false_r, ?lenZ_nil; cbn in *; try done; try lia.
    intros ->. rewrite orb_false_r in Hw. rewrite Hw. lia.
  - destruct Hb as (-> & Hne & done_ & -> & Hok). destruct vs as [|c vs].
    + rewrite app_nil_r in *. unfold cleanup in Hstep.
      assert (Hpos : 1 <= lenZ done_) by (destruct done_; [done|]; rewrite lenZ_cons; pose proof (lenZ_nonneg done_); lia).
      destruct (Z.eqb_spec (lenZ done_) 0); [lia|]. destruct Hfits as (E & Ho & Hlt & Hquit & Hbs).
      pose proof (lenZ_nonneg (queue q)).
      assert (Hsub : u32 (nTodo q - lenZ done_) = nTodo q - lenZ done_) by (apply Z.mod_small; lia). rewrite Hsub in Hstep.
      destruct (loop_head _ _) as [q2 th2] eqn:Hh. injection Hstep as <- <- <-.
      apply Hpass in Hh as [b' P]; [|unfold fits; cbn [nTodo fQuit nBatchSize queue]; change (lenZ (@nil T)) with 0; lia|unfold crowd; cbn in *; lia].
      exists done_, b'. eapply passage_movement; try exact P; try done; cbn in *; try lia.
      intros _. case_match; lia.
    + injection Hstep as <- <- <-. exists [], (done_ ++ c :: vs). split; cbn; try done; rewrite ?andb_true_r; try done; try lia.
      * split_and!; [done|done|]. exists (done_ ++ [c]). rewrite <-app_assoc. split; [done|]. intros Ha.
        rewrite forallb_app, Hok by done. cbn. rewrite andb_true_r. by destruct (forallb check done_).
Qed.

(** ** All threads *)

Definition sumZ {A} (f : A -> Z) (l : list A) : Z := foldr (fun x n => f x + n) 0 l.

Lemma sumZ_cons {A} (f : A -> Z) x l : sumZ f (x :: l) = f x + sumZ f l.
Proof. done. Qed.

Lemma sumZ_insert {A} (f : A -> Z) l i x y : l !! i = Some x -> sumZ f (<[i:=y]> l) = sumZ f l - f x + f y.
Proof.
  revert i. induction l as [|z l IH]; intros [|i] Hi; [done|done| |].
  - injection Hi as ->. change (<[0%nat:=y]> (x :: l)) with (y :: l). rewrite !sumZ_cons. lia.
  - specialize (IH i Hi). change (<[S i:=y]> (z :: l)) with (z :: <[i:=y]> l). rewrite !sumZ_cons. lia.
Qed.
Lemma sumZ_nonneg {A} (f : A -> Z) l : (forall x, 0 <= f x) -> 0 <= sumZ f l.
Proof. intros Hf. induction l as [|x l IH]; [done|]. rewrite sumZ_cons. pose proof (Hf x). lia. Qed.
Lemma sumZ_lookup {A} (f : A -> Z) l i x : (forall x, 0 <= f x) -> l !! i = Some x -> f x <= sumZ f l.
Proof.
  intros Hf Hi. apply list_elem_of_lookup_2 in Hi. induction Hi as [y l|y z l Hi IH]; rewrite sumZ_cons.
  - pose proof (sumZ_nonneg f l Hf). lia.
  - pose proof (Hf z). lia.
Qed.
Lemma sumZ_le {A} (f : A -> Z) l : (forall x, f x <= 1) -> sumZ f l <= lenZ l.
Proof. intros Hf. induction l as [|x l IH]; [done|]. rewrite sumZ_cons, lenZ_cons. pose proof (Hf x). lia. Qed.
Lemma sumZ_fmap {A} (f : A -> Z) (g : A -> A) l : (forall x, f (g x) = f x) -> sumZ f (g <$> l) = sumZ f l.
Proof. intros Hf. induction l as [|x l IH]; [done|]. rewrite fmap_cons, !sumZ_cons, Hf. lia. Qed.

Lemma concat_insert {A} (l : list (list A)) i b b' :
  l !! i = Some b -> concat l ≡ₚ b ++ concat (delete i l) /\ concat (<[i:=b']> l) ≡ₚ b' ++ concat (delete i l).
Proof.
  revert i. induction l as [|z l IH]; intros [|i] Hi; [done|done| |].
  - by injection Hi as ->.
  - destruct (IH i Hi) as [E1 E2]. cbn. split.
    + rewrite E1. by rewrite !app_assoc, (Permutation_app_comm z).
    + change (z ++ concat (<[i:=b']> l) ≡ₚ b' ++ z ++ concat (delete i l)). rewrite E2.
      by rewrite !app_assoc, (Permutation_app_comm z).
Qed.

Lemma lenZ_perm {A} (l k : list A) : l ≡ₚ k -> lenZ l = lenZ k.
Proof. intros E. unfold lenZ. by rewrite E. Qed.

Lemma forallb_perm {A} (f : A -> bool) l k : l ≡ₚ k -> forallb f l = forallb f k.
Proof.
  intros E. apply Bool.eq_iff_eq_true. rewrite !forallb_forall. setoid_rewrite <-list_elem_of_In. by setoid_rewrite E.
Qed.

Lemma holds_batch_mono a a' th b : (a' = true -> a = true) -> holds_batch a th b -> holds_batch a' th b.
Proof. intros Ha. destruct th; cbn; try done. intros (-> & Hne & d & -> & Hd). split_and!; [done|done|]. exists d. naive_solver. Qed.

Lemma holds_batch_empty a a' th : holds_batch a th [] -> holds_batch a' th [].
Proof. destruct th; cbn; try done. by intros (_ & ? & _). Qed.

Lemma holds_batch_all_empty a a' ws wb :
  Forall2 (holds_batch a) ws wb -> lenZ (concat wb) = 0 -> Forall2 (holds_batch a') ws wb.
Proof.
  intros Hw. induction Hw as [|th b ws wb Hb Hw IH]; [constructor|]. cbn. rewrite lenZ_app.
  pose proof (lenZ_nonneg b). pose proof (lenZ_nonneg (concat wb)). intros E.
  assert (b = []) as -> by (destruct b; [done|]; rewrite lenZ_cons in *; pose proof (lenZ_nonneg b); lia).
  constructor; [by eapply holds_batch_empty|]. apply IH. lia.
Qed.

Definition thread_ok (th : Thread) : Prop := match th with Outside | Returned _ => False | _ => True end.

(** The invariant: [rep] is what was reported, [mb] and [wb] what the master and the workers hold. *)
Record inv (c : Config) (rep mb : list T) (wb : list (list T)) : Prop := {
  i_items : rep ++ mb ++ concat wb ++ queue (shared c) ≡ₚ added c;
  i_master : holds_batch (fAllOk (shared c)) (master c) mb;
  i_workers : Forall2 (holds_batch (fAllOk (shared c))) (workers c) wb;
  i_todo : nTodo (shared c) = lenZ mb + lenZ (concat wb) + lenZ (queue (shared c));
  i_ok : match master c with
         | Returned r => r = forallb check rep /\ fAllOk (shared c) = true /\ queue (shared c) = [] /\ nTodo (shared c) = 0
         | _ => fAllOk (shared c) = forallb check rep
         end;
  i_idle : nIdle (shared c) = is_waiting (master c) + sumZ is_waiting (workers c);
  i_total : nTotal (shared c) = is_inside (master c) + sumZ is_inside (workers c);
  i_sleep : master c = Waiting false -> queue (shared c) = [] /\ nTodo (shared c) <> 0;
  i_bound : lenZ (added c) < 2 ^ 32;
  i_size : 0 <= nBatchSize (shared c);
  i_quit : fQuit (shared c) = false;
  i_threads : Forall thread_ok (workers c);
  i_crowd : lenZ (workers c) < 2 ^ 30;
  i_results : Forall (fun r => r.2 = forallb check r.1) (results c) }.

Lemma is_waiting_range th : 0 <= is_waiting th <= 1.
Proof. destruct th; cbn; lia. Qed.
Lemma is_inside_range th : 0 <= is_inside th <= 1.
Proof. destruct th; cbn; lia. Qed.

Lemma inv_counts c rep mb wb : inv c rep mb wb ->
  0 <= sumZ is_waiting (workers c) <= lenZ (workers c) /\ 0 <= sumZ is_inside (workers c) <= lenZ (workers c) /\
  nTodo (shared c) < 2 ^ 32.
Proof.
  intros I. split_and!.
  - apply sumZ_nonneg. intros x. apply is_waiting_range.
  - apply sumZ_le. intros x. apply is_waiting_range.
  - apply sumZ_nonneg. intros x. apply is_inside_range.
  - apply sumZ_le. intros x. apply is_inside_range.
  - pose proof (i_bound _ _ _ _ I). pose proof (lenZ_perm _ _ (i_items _ _ _ _ I)) as E. rewrite !lenZ_app in E.
    rewrite (i_todo _ _ _ _ I). pose proof (lenZ_nonneg rep). lia.
Qed.

Lemma inv_master c rep mb wb :
  inv c rep mb wb -> fits (lenZ (concat wb)) (shared c) mb /\ room (master c) (shared c).
Proof.
  intros I. destruct (inv_counts _ _ _ _ I) as (Cw & Ci & Clt). destruct I as [Ii Im Iw It Io Iid Itt Isl Ib Isz Iq Ith Icr Ir].
  pose proof (is_waiting_range (master c)). pose proof (is_inside_range (master c)). pose proof (lenZ_nonneg (concat wb)).
  unfold fits, room. split_and!; (done || lia).
Qed.

Lemma inv_step_master spurious c c' rep mb wb :
  inv c rep mb wb -> thread_step check spurious None c = Some c' -> exists rep' mb', inv c' rep' mb' wb.
Proof.
  intros I Hs. destruct (inv_master _ _ _ _ I) as [Hfits Hroom].
  destruct I as [Ii Im Iw It Io Iid Itt Isl Ib Isz Iq Ith Icr Ir].
  unfold thread_step in Hs. destruct (loop_step _ _ _ _ _) as [[[q th] n]|] eqn:Hl; [|done]. injection Hs as <-.
  assert (Hmaster : match master c with Returned _ => False | _ => True end) by (by destruct (master c)).
  destruct (loop_step_movement true spurious _ _ _ _ _ _ mb Hfits Im Hroom Hl) as (r' & b' & M). clear Hfits Hroom.
  destruct M as [Mi (Mt & _ & _ & Mq & Mb) Mh Mo Mid Mtt Ms _ _ _ _]. exists (rep ++ r'), b'.
  assert (Hok : fAllOk (shared c) = forallb check rep) by (by destruct (master c)).
  split; cbn [shared master workers added results]; try done; try lia.
  - rewrite <-Ii, <-!app_assoc. f_equiv. rewrite (Permutation_app_comm (concat wb) (queue q)), (Permutation_app_comm (concat wb) (queue (shared c))).
    rewrite !app_assoc, <-(app_assoc r'), Mi. done.
  - assert (Hz : match th with Returned _ => lenZ (concat wb) = 0 | _ => fAllOk q = true -> fAllOk (shared c) = true end).
    { destruct th; try done; try (rewrite Mo; by destruct (fAllOk (shared c))). destruct Mo as (_ & _ & _ & _ & Hz).
      pose proof (lenZ_nonneg b'). pose proof (lenZ_nonneg (queue q)). pose proof (lenZ_nonneg (concat wb)). lia. }
    destruct th; try (eapply Forall2_impl; [exact Iw|]; intros w b; by apply holds_batch_mono).
    by eapply holds_batch_all_empty.
  - rewrite forallb_app, <-Hok. destruct th; naive_solver.
  - intros Hth. destruct (Ms Hth) as [? Hn0]. split; [done|]. by apply Hn0.
Qed.

Lemma notify_same a (th : Thread) b : (holds_batch a (notify th) b <-> holds_batch a th b) /\ is_waiting (notify th) = is_waiting th /\
  is_inside (notify th) = is_inside th.
Proof. by destruct th. Qed.

Lemma notify_returned (th : Thread) r : notify th = Returned r <-> th = Returned r.
Proof. by destruct th. Qed.

Lemma inv_worker c rep mb wb i th :
  inv c rep mb wb -> workers c !! i = Some th ->
  exists b, wb !! i = Some b /\ fits (lenZ mb + lenZ (concat (delete i wb))) (shared c) b /\
    holds_batch (fAllOk (shared c)) th b /\ room th (shared c).
Proof.
  intros I Hi. destruct (inv_counts _ _ _ _ I) as (Cw & Ci & Clt). destruct I as [Ii Im Iw It Io Iid Itt Isl Ib Isz Iq Ith Icr Ir].
  destruct (Forall2_lookup_l _ _ _ _ _ Iw Hi) as (b & Hbi & Hb). exists b.
  pose proof (is_waiting_range (master c)). pose proof (is_inside_range (master c)).
  pose proof (sumZ_lookup is_waiting _ _ _ (fun x => proj1 (is_waiting_range x)) Hi).
  pose proof (sumZ_lookup is_inside _ _ _ (fun x => proj1 (is_inside_range x)) Hi).
  destruct (concat_insert wb i b [] Hbi) as [Eb _]. pose proof (lenZ_perm _ _ Eb) as Lb. rewrite lenZ_app in Lb.
  pose proof (lenZ_nonneg mb). pose proof (lenZ_nonneg (concat (delete i wb))).
  pose proof (is_waiting_range th). pose proof (is_inside_range th).
  unfold fits, room. split_and!; (done || lia).
Qed.

Lemma inv_step_worker spurious i c c' rep mb wb :
  inv c rep mb wb -> thread_step check spurious (Some i) c = Some c' -> exists rep' wb', inv c' rep' mb wb'.
Proof.
  intros I Hs. unfold thread_step in Hs. destruct (workers c !! i) as [th0|] eqn:Hi; [|done]. cbn [mbind option_bind] in Hs.
  destruct (loop_step _ _ _ _ _) as [[[q th] n]|] eqn:Hl; [|done]. injection Hs as <-.
  destruct (inv_worker _ _ _ _ _ _ I Hi) as (b & Hbi & Hfits & Hb & Hroom).
  destruct (loop_step_movement false spurious _ _ _ _ _ _ b Hfits Hb Hroom Hl) as (r' & b' & M).
  destruct I as [Ii Im Iw It Io Iid Itt Isl Ib Isz Iq Ith Icr Ir]. clear Hfits Hroom.
  destruct (concat_insert wb i b [] Hbi) as [Eb _]. pose proof (lenZ_perm _ _ Eb) as Lb. rewrite lenZ_app in Lb.
  pose proof (lenZ_nonneg mb). pose proof (lenZ_nonneg (concat (delete i wb))).
  destruct M as [Mi (Mt & _ & _ & Mq & Mb) Mh Mo Mid Mtt Ms Mn Mqq _ Mw]. exists (rep ++ r'), (<[i:=b']> wb).
  assert (Hok : fAllOk q = fAllOk (shared c) && forallb check r' /\ thread_ok th) by (destruct th; naive_solver).
  destruct Hok as [Hok Hth]. destruct (concat_insert wb i b b' Hbi) as [_ Eb']. pose proof (lenZ_perm _ _ Eb') as Lb'. rewrite lenZ_app in Lb'.
  set (m' := if n : bool then notify (master c) else master c).
  assert (Hm : is_waiting m' = is_waiting (master c) /\ is_inside m' = is_inside (master c) /\ holds_batch (fAllOk (shared c)) m' mb).
  { subst m'. destruct (notify_same (fAllOk (shared c)) (master c) mb) as (E1 & E2 & E3). destruct n; [|done]. split_and!; [done|done|by apply E1]. }
  destruct Hm as (Hm1 & Hm2 & Hm3).
  assert (Hmono : fAllOk q = true -> fAllOk (shared c) = true) by (rewrite Hok; by destruct (fAllOk (shared c))).
  split; cbn [shared master workers added results]; try done; try (rewrite ?(sumZ_insert _ _ i th0) by done; lia).
  - rewrite <-Ii, Eb', Eb, <-!app_assoc. f_equiv.
    transitivity (mb ++ concat (delete i wb) ++ (r' ++ b' ++ queue q)); [solve_Permutation|]. rewrite Mi. solve_Permutation.
  - by eapply holds_batch_mono.
  - apply Forall2_insert; [|done]. eapply Forall2_impl; [exact Iw|]. intros w x. by apply holds_batch_mono.
  - rewrite forallb_app. assert (Hret : forall r, m' = Returned r <-> master c = Returned r).
    { intros r. subst m'. destruct n; [apply notify_returned|done]. }
    destruct (master c) as [| |w|v nn o|r] eqn:Hmc.
    5: { rewrite (proj2 (Hret r) eq_refl). destruct Io as (-> & Ho & Hq & Hz). rewrite Ho in Hok. rewrite Hq in Mi.
         assert (b = []) as -> by (destruct b; [done|]; rewrite lenZ_cons in *; pose proof (lenZ_nonneg b); pose proof (lenZ_nonneg (queue (shared c))); lia).
         apply Permutation_sym, Permutation_nil in Mi. apply app_eq_nil in Mi as [-> Mi]. apply app_eq_nil in Mi as [-> Mi].
         cbn in *. rewrite Hok, andb_true_r. split_and!; try done. rewrite Hz, Hq, Mi in *. change (lenZ (@nil T)) with 0 in *. lia. }
    all: subst m'; destruct n; cbn [notify]; by rewrite Hok, Io.
  - subst m'. destruct n; [by destruct (master c)|]. intros Hms. destruct (Isl Hms) as [Hq Hz]. split; [by apply Mqq|].
    intros Hz'. rewrite Hz' in Mn. apply Z.eqb_neq in Hz. by rewrite Hz in Mn.
  - by apply Forall_insert.
  - unfold lenZ. by rewrite length_insert.
Qed.

(** Notifications change nothing but who is notified. *)
Lemma notified_workers a (ws ws' : list Thread) wb :
  Forall2 (fun w w' => w' = w \/ w' = notify w) ws ws' ->
  Forall2 (holds_batch a) ws wb -> Forall thread_ok ws ->
  Forall2 (holds_batch a) ws' wb /\ Forall thread_ok ws' /\ sumZ is_waiting ws' = sumZ is_waiting ws /\
  sumZ is_inside ws' = sumZ is_inside ws /\ lenZ ws' = lenZ ws.
Proof.
  intros Hn Hb Hok. revert wb Hb. induction Hn as [|w w' ws ws' Hw _ IH]; intros wb Hb.
  { inversion Hb. by split_and!. }
  inversion Hb as [|? b ? wb' Hb1 Hb2]; subst. apply Forall_cons in Hok as [Hok1 Hok2].
  destruct (IH Hok2 wb' Hb2) as (E1 & E2 & E3 & E4 & E5). rewrite !sumZ_cons, !lenZ_cons, E3, E4, E5.
  destruct Hw as [-> | ->]; [by split_and!; try constructor|]. destruct (notify_same a w b) as (N1 & N2 & N3).
  rewrite N2, N3. split_and!; try done; constructor; try done; [by apply N1|by destruct w].
Qed.

Lemma notify_one_workers pick (ws ws' : list Thread) : notify_one pick ws = Some ws' -> Forall2 (fun w w' => w' = w \/ w' = notify w) ws ws'.
Proof.
  assert (Hrefl : Forall2 (fun w w' : Thread => w' = w \/ w' = notify w) ws ws) by (apply Forall2_same_length_lookup_2; [done|naive_solver]).
  unfold notify_one. destruct (existsb _ _); [|by intros [= <-]].
  destruct (ws !! pick) as [th|] eqn:Hp; [|done]. destruct (waits th); [|done]. intros [= <-].
  apply Forall2_same_length_lookup_2; [by rewrite length_insert|]. intros i w w' Hw Hw'.
  destruct (decide (i = pick)) as [->|Hne].
  - rewrite list_lookup_insert_eq in Hw' by (by eapply lookup_lt_Some). naive_solver.
  - rewrite list_lookup_insert_ne in Hw' by done. naive_solver.
Qed.

Lemma inv_step l c c' rep mb wb :
  inv c rep mb wb -> step check l c = Some c' -> lenZ (added c') < 2 ^ 32 -> exists rep' mb' wb', inv c' rep' mb' wb'.
Proof.
  intros I Hs Hbound. destruct l as [vs pick| | |who|who]; unfold step in Hs.
  4,5: destruct who as [i|]; [destruct (inv_step_worker _ _ _ _ _ _ _ I Hs) as (? & ? & ?)|destruct (inv_step_master _ _ _ _ _ _ I Hs) as (? & ? & ?)]; by eexists _, _, _.
  all: destruct (master c) as [| | | |r] eqn:Hm; try done; pose proof I as [Ii Im Iw It Io Iid Itt Isl Ib Isz Iq Ith Icr Ir].
  - destruct (if lenZ vs =? 1 then _ else _) as [ws|] eqn:Hws; [|done]. injection Hs as <-.
    assert (Hn : Forall2 (fun w w' : Thread => w' = w \/ w' = notify w) (workers c) ws).
    { destruct (lenZ vs =? 1); [by eapply notify_one_workers|]. injection Hws as <-.
      assert (Hmap : forall g : Thread -> Thread, (forall w, g w = w \/ g w = notify w) -> Forall2 (fun w w' => w' = w \/ w' = notify w) (workers c) (g <$> workers c)).
      { intros g Hg. clear - Hg. induction (workers c) as [|w l IH]; [constructor|]. by constructor. }
      destruct (1 <? lenZ vs); [apply Hmap; by right|]. rewrite <-(list_fmap_id (workers c)) at 2. apply Hmap. by left. }
    destruct (notified_workers _ _ _ _ Hn Iw Ith) as (E1 & E2 & E3 & E4 & E5). exists rep, mb, wb.
    rewrite Hm in *. cbn in Im. subst mb. cbn [added] in Hbound. rewrite lenZ_app in Hbound.
    pose proof (lenZ_nonneg vs). pose proof (lenZ_nonneg (added c)). destruct (inv_counts _ _ _ _ I) as (_ & _ & Clt).
    pose proof (lenZ_perm _ _ Ii) as L. rewrite !lenZ_app in L. change (lenZ (@nil T)) with 0 in *.
    pose proof (lenZ_nonneg rep). pose proof (lenZ_nonneg (concat wb)). pose proof (lenZ_nonneg (queue (shared c))).
    assert (Hu : u32 (nTodo (shared c) + lenZ vs) = nTodo (shared c) + lenZ vs) by (apply Z.mod_small; lia).
    split; cbn [shared master workers added results push_all queue nIdle nTotal fAllOk nTodo fQuit nBatchSize] in *; try done; try lia.
    + rewrite <-Ii. cbn [app]. rewrite <-(Permutation_rev vs). solve_Permutation.
    + rewrite Hu, lenZ_app. change (lenZ (@nil T)) with 0. unfold lenZ in *. rewrite length_rev. lia.
    + by rewrite lenZ_app.
  - injection Hs as <-. exists rep, mb, wb. rewrite Hm in *. by split.
  - injection Hs as <-. cbn [added] in *. rewrite Hm in *. destruct Io as (-> & Hok & Hq & Hz).
    pose proof (lenZ_nonneg mb). pose proof (lenZ_nonneg (concat wb)). rewrite Hq in *. change (lenZ (@nil T)) with 0 in *.
    cbn in Im. subst mb. exists [], [], wb.
    assert (Hc : concat wb = []) by (destruct (concat wb) eqn:E; [done|]; rewrite lenZ_cons in *; pose proof (lenZ_nonneg l); change (lenZ (@nil T)) with 0 in *; lia).
    split; cbn [shared master workers added results] in *; rewrite ?Hq, ?Hc in *; try done; try lia.
    apply Forall_app. split; [done|]. constructor; [|constructor]. cbn in *. rewrite !app_nil_r in Ii. by apply forallb_perm.
Qed.

(** What the threads can reach, as long as fewer than 2^32 checks are added between two waits. *)
Inductive reachable (nBatchSizeIn : Z) (n : nat) : Config -> Prop :=
| reach_start : reachable nBatchSizeIn n (start nBatchSizeIn n)
| reach_step c l c' :
    reachable nBatchSizeIn n c -> step check l c = Some c' -> lenZ (added c') < 2 ^ 32 -> reachable nBatchSizeIn n c'.

Lemma reachable_inv nBatchSizeIn n c :
  0 <= nBatchSizeIn -> Z.of_nat n < 2 ^ 30 -> reachable nBatchSizeIn n c -> exists rep mb wb, inv c rep mb wb.
Proof.
  intros Hb Hn Hr. induction Hr as [|c l c' _ (rep & mb & wb & I) Hs Hbound]; [|by eapply inv_step].
  exists [], [], (replicate n []). assert (Hc : concat (replicate n (@nil T)) = []) by (clear; by induction n).
  assert (Hs : forall f : Thread -> Z, f Entering = 0 -> sumZ f (replicate n Entering) = 0).
  { intros f Hf. clear - Hf. induction n as [|n IH]; [done|]. cbn [replicate]. by rewrite sumZ_cons, Hf, IH. }
  split; cbn [start shared master workers added results CCheckQueue_new queue nIdle nTotal fAllOk nTodo fQuit nBatchSize]; rewrite ?Hc, ?Hs; try done.
  - apply Forall2_same_length_lookup_2; [by rewrite !length_replicate|]. intros i w b Hw Hb'.
    apply lookup_replicate in Hw as [-> _]. by apply lookup_replicate in Hb' as [-> _].
  - by apply Forall_replicate.
  - unfold lenZ. rewrite length_replicate. lia.
Qed.

(** C13 Whatever the threads do and however they are scheduled, every [Wait] returns
    true exactly when every check added since the master last returned passes. *)
Theorem Wait_correct nBatchSizeIn n c :
  0 <= nBatchSizeIn -> Z.of_nat n < 2 ^ 30 -> reachable nBatchSizeIn n c ->
  Forall (fun '(vChecks, fRet) => fRet = true <-> Forall (fun v => check v = true) vChecks) (results c) /\
  (master c = Outside -> added c = [] -> control_asserts (shared c) = true).
Proof.
  intros Hb Hn Hr. destruct (reachable_inv _ _ _ Hb Hn Hr) as (rep & mb & wb & I). split.
  - eapply Forall_impl; [exact (i_results _ _ _ _ I)|]. intros [vs r]; cbn; intros ->. rewrite forallb_forall, List.Forall_forall. done.
  - intros Hm Ha. destruct I as [Ii Im Iw It Io Iid Itt Isl Ib Isz Iq Ith Icr Ir]. rewrite Hm in *. rewrite Ha in Ii.
    apply Permutation_sym, Permutation_nil in Ii. apply app_eq_nil in Ii as [-> Ii]. cbn in Im. subst mb. cbn in Ii.
    apply app_eq_nil in Ii as [Hc Hq]. rewrite Hc, Hq in It. unfold control_asserts. rewrite Io, It. cbn.
    assert (Hsum : sumZ is_waiting (workers c) = sumZ is_inside (workers c)).
    { clear - Iw Hc. revert Hc. induction Iw as [|w b ws wb Hw _ IH]; [done|]. cbn [concat]. intros [-> Hc]%app_eq_nil.
      rewrite !sumZ_cons, IH by done. destruct w; cbn in *; try lia. by destruct Hw as (_ & ? & _). }
    cbn in Iid, Itt. rewrite Itt, Iid, Hsum, !Z.add_0_l, Z.eqb_refl. reflexivity.
Qed.

(** ** The master returns *)

Definition measure (c : Config) : Z :=
  Z.of_nat (effort (shared c) + weight (master c)) + sumZ (fun th => Z.of_nat (weight th)) (workers c).

Lemma measure_nonneg c : 0 <= measure c.
Proof. unfold measure. pose proof (sumZ_nonneg (fun th : Thread => Z.of_nat (weight th)) (workers c) (fun th => Nat2Z.is_nonneg (weight th))). lia. Qed.

Lemma notify_weight (th : Thread) : (weight (notify th) <= weight th + 1)%nat.
Proof. destruct th as [| |[]| |]; cbn; lia. Qed.

Lemma thread_step_measure who c c' rep mb wb :
  inv c rep mb wb -> thread_step check false who c = Some c' -> measure c' < measure c.
Proof.
  intros I Hs. unfold thread_step in Hs. unfold measure. destruct who as [i|].
  - destruct (workers c !! i) as [th0|] eqn:Hi; [|done]. cbn [mbind option_bind] in Hs.
    destruct (loop_step _ _ _ _ _) as [[[q th] n]|] eqn:Hl; [|done]. injection Hs as <-.
    destruct (inv_worker _ _ _ _ _ _ I Hi) as (b & Hbi & Hfits & Hb & Hroom).
    destruct (loop_step_movement false false _ _ _ _ _ _ b Hfits Hb Hroom Hl) as (r' & b' & M).
    pose proof (m_effort _ _ _ _ _ _ _ _ _ _ _ M eq_refl) as He. cbn [shared master workers].
    rewrite (sumZ_insert _ _ i th0) by done. pose proof (notify_weight (master c)). destruct n; lia.
  - destruct (inv_master _ _ _ _ I) as [Hfits Hroom].
    destruct (loop_step _ _ _ _ _) as [[[q th] n]|] eqn:Hl; [|done]. injection Hs as <-.
    destruct (loop_step_movement true false _ _ _ _ _ _ mb Hfits (i_master _ _ _ _ I) Hroom Hl) as (r' & b' & M).
    pose proof (m_effort _ _ _ _ _ _ _ _ _ _ _ M eq_refl) as He. cbn [shared master workers]. lia.
Qed.

(** The master is in [Loop]. *)
Definition in_loop (th : Thread) : bool := match th with Outside | Returned _ => false | _ => true end.

Lemma loop_step_total fMaster (th : Thread) q :
  in_loop th = true -> th <> Waiting false -> is_Some (loop_step check fMaster false th q).
Proof.
  destruct th as [| |[]|[|c vs] nNow fOk|r]; intros Hin Hw; try done; cbn [loop_step orb]; try by eexists.
  all: destruct (cleanup _ _ _ _); by eexists.
Qed.

Lemma progress c rep mb wb :
  inv c rep mb wb -> in_loop (master c) = true -> exists who c', thread_step check false who c = Some c'.
Proof.
  intros I Hin. destruct (master c) as [| |[]|vs nNow fOk|r] eqn:Hm; try done.
  1,2,4: exists None; unfold thread_step; rewrite Hm;
    match goal with |- context [loop_step check true false ?th ?q] =>
      destruct (loop_step_total true th q eq_refl ltac:(done)) as [[[q' th'] n'] ->] end; by eexists.
  destruct (i_sleep _ _ _ _ I Hm) as [Hq Hz].
  assert (Hb : exists i th b, workers c !! i = Some th /\ holds_batch (fAllOk (shared c)) th b /\ b <> []).
  { pose proof (i_todo _ _ _ _ I) as Ht. pose proof (i_master _ _ _ _ I) as Hmb. rewrite Hm in Hmb. cbn in Hmb. subst mb.
    rewrite Hq in Ht. change (lenZ (@nil T)) with 0 in Ht.
    assert (Hne : concat wb <> []) by (intros E; rewrite E in Ht; change (lenZ (@nil T)) with 0 in Ht; lia).
    destruct (concat wb) as [|x l] eqn:E; [done|]. assert (Hx : In x (concat wb)) by (rewrite E; by left).
    apply in_concat in Hx as (b & Hbw & Hxb). apply list_elem_of_In, list_elem_of_lookup in Hbw as [i Hi].
    destruct (Forall2_lookup_r _ _ _ _ _ (i_workers _ _ _ _ I) Hi) as (th & Hth & Hhb).
    exists i, th, b. split_and!; [done|done|]. by intros ->. }
  destruct Hb as (i & th & b & Hi & Hhb & Hne). exists (Some i). unfold thread_step. rewrite Hi. cbn [mbind option_bind].
  assert (Hw : in_loop th = true /\ th <> Waiting false) by (by destruct th).
  destruct (loop_step_total false th (shared c) (proj1 Hw) (proj2 Hw)) as [[[q' th'] n'] ->]. by eexists.
Qed.

Definition is_step (l : @Label T) : Prop := match l with Step _ => True | _ => False end.

Lemma run_steps ls c c' rep mb wb :
  inv c rep mb wb -> Forall is_step ls -> run check ls c = Some c' ->
  exists rep' mb' wb', inv c' rep' mb' wb' /\ lenZ ls + measure c' <= measure c.
Proof.
  revert c rep mb wb. induction ls as [|l ls IH]; intros c rep mb wb I Hls Hrun.
  { injection Hrun as <-. exists rep, mb, wb. split; [done|]. unfold lenZ. cbn. lia. }
  apply Forall_cons in Hls as [Hl Hls]. cbn [run] in Hrun. destruct l as [| | |who|]; try done. cbn [step] in Hrun.
  destruct (thread_step check false who c) as [c1|] eqn:Hs; [|done]. cbn [mbind option_bind] in Hrun.
  pose proof (thread_step_measure _ _ _ _ _ _ I Hs) as Hm. rewrite lenZ_cons.
  destruct who as [i|].
  - destruct (inv_step_worker _ _ _ _ _ _ _ I Hs) as (r & w & I').
    destruct (IH _ _ _ _ I' Hls Hrun) as (r2 & m2 & w2 & I2 & Hle). exists r2, m2, w2. split; [done|lia].
  - destruct (inv_step_master _ _ _ _ _ _ I Hs) as (r & w & I').
    destruct (IH _ _ _ _ I' Hls Hrun) as (r2 & m2 & w2 & I2 & Hle). exists r2, m2, w2. split; [done|lia].
Qed.

(** C14 A master that waits returns: from every reachable configuration the threads can
    make at most [measure] steps without spurious wake-ups, and as long as the master has not
    returned one of them can make a step, so no wake-up is lost. *)
Theorem Wait_returns nBatchSizeIn n c ls c' :
  0 <= nBatchSizeIn -> Z.of_nat n < 2 ^ 30 -> reachable nBatchSizeIn n c ->
  Forall is_step ls -> run check ls c = Some c' ->
  lenZ ls <= measure c /\
  (in_loop (master c') = true -> exists who c'', step check (Step who) c' = Some c'').
Proof.
  intros Hb Hn Hr Hls Hrun. destruct (reachable_inv _ _ _ Hb Hn Hr) as (rep & mb & wb & I).
  destruct (run_steps _ _ _ _ _ _ I Hls Hrun) as (r' & m' & w' & I' & Hle). pose proof (measure_nonneg c').
  split; [lia|]. intros Hin. apply (progress _ _ _ _ I' Hin).
Qed.

End CheckQueue.

(** ** Two workers and five checks, one of which fails *)

Module Examples.

Definition check (x : Z) : bool := x <? 10.

(** The steps to the second [Wait], for two checks of which one fails, and to its return. *)
Definition up_to_wait : list (@Label Z) :=
  [Step (Some 0%nat); Add [1; 2] 0; Step (Some 1%nat); Add [3] 0; Wait; Step None; Step (Some 0%nat); Step (Some 0%nat);
   Step (Some 0%nat); Step None; Step (Some 1%nat); Step None; Step (Some 1%nat); Step None; Return; Add [4; 12] 0; Wait].
Definition to_return : list (@Label Z) :=
  [Step None; Step None; Step (Some 0%nat); Step (Some 1%nat); Step (Some 0%nat); Step (Some 0%nat); Step None].

Lemma run_app ls ls' (c : @Config Z) : run check (ls ++ ls') c = c' ← run check ls c; run check ls' c'.
Proof.
  revert c. induction ls as [|l ls IH]; intros c; [done|]. cbn [app run].
  destruct (step check l c); [apply IH|done].
Qed.

Fixpoint bounded (ls : list (@Label Z)) (c : @Config Z) : bool :=
  match ls with
  | [] => true
  | l :: r => match step check l c with Some c' => (lenZ (added c') <? 2 ^ 32) && bounded r c' | None => false end
  end.

Lemma run_reachable nBatchSizeIn n ls c :
  reachable check nBatchSizeIn n c -> bounded ls c = true -> exists c', run check ls c = Some c' /\ reachable check nBatchSizeIn n c'.
Proof.
  revert c. induction ls as [|l ls IH]; intros c Hr Hb; [by exists c|]. cbn [bounded run] in *.
  destruct (step check l c) as [c1|] eqn:Hs; [|done]. apply andb_prop in Hb as [Hlt Hb].
  apply (IH c1); [|done]. eapply reach_step; [exact Hr|exact Hs|lia].
Qed.

Definition waiting : @Config Z := default (start 2 2) (run check up_to_wait (start 2 2)).
Definition done_ : @Config Z := default (start 2 2) (run check (to_return ++ [Return]) waiting).

Lemma waiting_reachable : reachable check 2 2 waiting.
Proof.
  destruct (run_reachable 2 2 up_to_wait (start 2 2)) as (c & Hc & Hr); [constructor|by vm_compute|].
  unfold waiting. by rewrite Hc.
Qed.
Lemma done_reachable : reachable check 2 2 done_.
Proof.
  destruct (run_reachable 2 2 (to_return ++ [Return]) waiting) as (c & Hc & Hr); [apply waiting_reachable|by vm_compute|].
  unfold done_. by rewrite Hc.
Qed.

Lemma Wait_correct_witness :
  results done_ = [([1; 2; 3], true); ([4; 12], false)] /\
  Forall (fun '(vChecks, fRet) => fRet = true <-> Forall (fun v => check v = true) vChecks) (results done_) /\
  control_asserts (shared done_) = true.
Proof.
  split; [vm_compute; reflexivity|].
  destruct (Wait_correct check 2 2 done_ ltac:(lia) ltac:(lia) done_reachable) as [H1 H2].
  split; [exact H1|]. apply H2; vm_compute; reflexivity.
Defined.

Lemma Wait_returns_witness :
  exists c', run check (take 3 to_return) waiting = Some c' /\ exists who c'', step check (Step who) c' = Some c''.
Proof.
  destruct (run check (take 3 to_return) waiting) as [c'|] eqn:E; [|vm_compute in E; discriminate E].
  exists c'. split; [reflexivity|].
  apply (Wait_returns check 2 2 waiting (take 3 to_return) c' ltac:(lia) ltac:(lia) waiting_reachable); [by repeat constructor|exact E|].
  vm_compute in E. injection E as <-. reflexivity.
Defined.

End Examples.
