(* ===== verification/Bloom.v ===== *)
(** Bloom filters: src/bloom.cpp, src/bloom.h and [MurmurHash3] of src/hash.cpp.

    [None] is the division by zero of [Hash] on a filter without data.  The constructor from a
    false positive rate is floating point and left out.  Parameters (class [ScriptReader]): the
    data elements [CScript::GetOp] reads one after the other, and whether [Solver] finds a
    pay-to-pubkey or multisignature script. *)

From S2P Require Import Prelude Digits Core.

(** ** MurmurHash3 *)

Definition ROTL32 (x r : Z) : Z := Z.lor (u32 (Z.shiftl x r)) (Z.shiftr x (32 - r)).

Definition c1 : Z := 0xcc9e2d51.
Definition c2 : Z := 0x1b873593.

Definition mix_k1 (k1 : Z) : Z := u32 (ROTL32 (u32 (k1 * c1)) 15 * c2).

(** Four bytes are read as one number, the lowest byte first. *)
Definition block (b0 b1 b2 b3 : Z) : Z :=
  Z.lor b0 (Z.lor (Z.shiftl b1 8) (Z.lor (Z.shiftl b2 16) (Z.shiftl b3 24))).

Fixpoint Murmur_body (h1 : Z) (data : bytes) : Z :=
  match data with
  | b0 :: b1 :: b2 :: b3 :: rest =>
    Murmur_body (u32 (ROTL32 (Z.lxor h1 (mix_k1 (block b0 b1 b2 b3))) 13 * 5 + 0xe6546b64)) rest
  | [b0; b1; b2] => Z.lxor h1 (mix_k1 (Z.lxor (Z.lxor (Z.shiftl b2 16) (Z.shiftl b1 8)) b0))
  | [b0; b1] => Z.lxor h1 (mix_k1 (Z.lxor (Z.shiftl b1 8) b0))
  | [b0] => Z.lxor h1 (mix_k1 b0)
  | [] => h1
  end.

Definition MurmurHash3 (nHashSeed : Z) (vDataToHash : bytes) : Z :=
  let h1 := Z.lxor (Murmur_body nHashSeed vDataToHash) (u32 (lenZ vDataToHash)) in
  let h1 := u32 (Z.lxor h1 (Z.shiftr h1 16) * 0x85ebca6b) in
  let h1 := u32 (Z.lxor h1 (Z.shiftr h1 13) * 0xc2b2ae35) in
  Z.lxor h1 (Z.shiftr h1 16).

(** Published test vectors. *)
Example MurmurHash3_empty : MurmurHash3 0 [] = 0 /\ MurmurHash3 0xFBA4C795 [] = 0x6a396f08 /\ MurmurHash3 0xffffffff [] = 0x81f16f39.
Proof. by vm_compute. Qed.
Example MurmurHash3_tail : MurmurHash3 0 [0] = 0x514e28b7 /\ MurmurHash3 0 [0; 0x11; 0x22; 0x33; 0x44; 0x55; 0x66; 0x77; 0x88] = 0xb4698def.
Proof. by vm_compute. Qed.

(** ** The filter *)

Definition MAX_BLOOM_FILTER_SIZE : Z := 36000.
Definition MAX_HASH_FUNCS : Z := 50.
Definition BLOOM_UPDATE_NONE : Z := 0.
Definition BLOOM_UPDATE_ALL : Z := 1.
Definition BLOOM_UPDATE_P2PUBKEY_ONLY : Z := 2.
Definition BLOOM_UPDATE_MASK : Z := 3.

Definition bit_mask : list Z := [0x01; 0x02; 0x04; 0x08; 0x10; 0x20; 0x40; 0x80].

Record CBloomFilter := mkFilter { vData : bytes; nHashFuncs : Z; nTweak : Z; nFlags : Z }.

Module CBloomFilter.

Definition Hash (f : CBloomFilter) (nHashNum : Z) (vDataToHash : bytes) : option Z :=
  if lenZ (vData f) =? 0 then None
  else Some (u32 (MurmurHash3 (u32 (nHashNum * 0xFBA4C795 + nTweak f)) vDataToHash mod (lenZ (vData f) * 8))).

Definition is_full (f : CBloomFilter) : bool := (lenZ (vData f) =? 1) && ((vData f).[0] =? 0xff).

(** [vData[nIndex >> 3] |= bit_mask[7 & nIndex]]. *)
Definition set_bit (nIndex : Z) (f : CBloomFilter) : CBloomFilter :=
  let i := Z.to_nat (Z.shiftr nIndex 3) in
  mkFilter (alter (fun b => Z.lor b bit_mask.[Z.land 7 nIndex]) i (vData f)) (nHashFuncs f) (nTweak f) (nFlags f).

Definition test_bit (nIndex : Z) (f : CBloomFilter) : bool :=
  negb (Z.land (vData f).[Z.shiftr nIndex 3] bit_mask.[Z.land 7 nIndex] =? 0).

Fixpoint insert_loop (n : nat) (i : Z) (vKey : bytes) (f : CBloomFilter) : option CBloomFilter :=
  match n with
  | O => Some f
  | S n => nIndex ← Hash f i vKey; insert_loop n (i + 1) vKey (set_bit nIndex f)
  end.

Definition insert (vKey : bytes) (f : CBloomFilter) : option CBloomFilter :=
  if is_full f then Some f else insert_loop (Z.to_nat (nHashFuncs f)) 0 vKey f.

Fixpoint contains_loop (n : nat) (i : Z) (vKey : bytes) (f : CBloomFilter) : option bool :=
  match n with
  | O => Some true
  | S n =>
    nIndex ← Hash f i vKey;
    if negb (test_bit nIndex f) then Some false else contains_loop n (i + 1) vKey f
  end.

Definition contains (vKey : bytes) (f : CBloomFilter) : option bool :=
  if is_full f then Some true else contains_loop (Z.to_nat (nHashFuncs f)) 0 vKey f.

(** Outpoints and hashes as bytes, as they lie in memory. *)
Definition hash_bytes (h : uint256) : bytes := le_digits 256 32 h.
Definition outpoint_bytes (o : COutPoint) : bytes := hash_bytes (hash o) ++ le_digits 256 4 (op_n o).

Definition insert_outpoint (o : COutPoint) (f : CBloomFilter) : option CBloomFilter := insert (outpoint_bytes o) f.
Definition insert_hash (h : uint256) (f : CBloomFilter) : option CBloomFilter := insert (hash_bytes h) f.
Definition contains_outpoint (o : COutPoint) (f : CBloomFilter) : option bool := contains (outpoint_bytes o) f.
Definition contains_hash (h : uint256) (f : CBloomFilter) : option bool := contains (hash_bytes h) f.

Definition IsWithinSizeConstraints (f : CBloomFilter) : bool :=
  (lenZ (vData f) <=? MAX_BLOOM_FILTER_SIZE) && (nHashFuncs f <=? MAX_HASH_FUNCS).

(** ** Relevant transactions *)

Section Relevant.
Context (GetOps : CScript -> list bytes) (Solver_pubkey : CScript -> bool).

(** Whether one of the data elements is in the filter; the first that is ends the loop. *)
Fixpoint any_data (l : list bytes) (f : CBloomFilter) : option bool :=
  match l with
  | [] => Some false
  | data :: r =>
    if lenZ data =? 0 then any_data r f
    else c ← contains data f; if c : bool then Some true else any_data r f
  end.

Definition update_output (o : COutPoint) (script : CScript) (f : CBloomFilter) : option CBloomFilter :=
  let flags := Z.land (nFlags f) BLOOM_UPDATE_MASK in
  if flags =? BLOOM_UPDATE_ALL then insert_outpoint o f
  else if flags =? BLOOM_UPDATE_P2PUBKEY_ONLY then
    if Solver_pubkey script then insert_outpoint o f else Some f
  else Some f.

Fixpoint relevant_outputs (h : uint256) (i : Z) (vout : list CTxOut) (fFound : bool) (f : CBloomFilter) : option (bool * CBloomFilter) :=
  match vout with
  | [] => Some (fFound, f)
  | txout :: r =>
    m ← any_data (GetOps (scriptPubKey txout)) f;
    if m : bool then
      f' ← update_output (mkOutPoint h i) (scriptPubKey txout) f;
      relevant_outputs h (i + 1) r true f'
    else relevant_outputs h (i + 1) r fFound f
  end.

Fixpoint relevant_inputs (vin : list CTxIn) (f : CBloomFilter) : option bool :=
  match vin with
  | [] => Some false
  | txin :: r =>
    c ← contains_outpoint (prevout txin) f;
    if c : bool then Some true
    else m ← any_data (GetOps (scriptSig txin)) f; if m : bool then Some true else relevant_inputs r f
  end.

Definition IsRelevantAndUpdate (tx : CTransaction) (h : uint256) (f : CBloomFilter) : option (bool * CBloomFilter) :=
  fFound ← contains_hash h f;
  '(fFound, f) ← relevant_outputs h 0 (vout tx) fFound f;
  if fFound : bool then Some (true, f)
  else b ← relevant_inputs (vin tx) f; Some (b, f).

End Relevant.
End CBloomFilter.
