(* ===== verification/BloomThms.v ===== *)
(** Theorems about Bloom filters: inserted keys are found, nothing is forgotten, and a spending
    transaction of a matched output is relevant. *)

From S2P Require Import Prelude Digits Core Bloom.
Import CBloomFilter.

(** ** Bits *)

Lemma bit_mask_pow n : 0 <= n -> bit_mask.[Z.land 7 n] = 2 ^ (n mod 8).
Proof.
  intros Hn. rewrite Z.land_comm, land_7. assert (Hm : 0 <= n mod 8 < 8) by (apply Z.mod_pos_bound; lia).
  revert Hm. generalize (n mod 8). intros m Hm. apply Z.eqb_eq. revert m Hm. apply (range_forallb 8). by vm_compute.
Qed.

Lemma test_pow b m : 0 <= m -> negb (Z.land b (2 ^ m) =? 0) = Z.testbit b m.
Proof.
  intros Hm. destruct (Z.testbit b m) eqn:Hb.
  - apply negb_true_iff, Z.eqb_neq. intros E. apply (f_equal (fun z => Z.testbit z m)) in E.
    by rewrite Z.land_spec, Hb, Z.pow2_bits_true, Z.bits_0 in E.
  - apply negb_false_iff, Z.eqb_eq. apply Z.bits_inj'. intros i Hi. rewrite Z.land_spec, Z.bits_0.
    destruct (Z.eq_dec i m) as [->|Hne]; [by rewrite Hb|]. by rewrite Z.pow2_bits_false, andb_false_r.
Qed.

Lemma test_bit_testbit n f : 0 <= n -> test_bit n f = Z.testbit (vData f).[n / 8] (n mod 8).
Proof.
  intros Hn. unfold test_bit. rewrite bit_mask_pow, shiftr_3 by done. apply test_pow. by apply Z.mod_pos_bound.
Qed.

Lemma nthZ_alter f l (i : nat) (j : Z) :
  (i < length l)%nat -> 0 <= j -> (alter f i l).[j] = if j =? Z.of_nat i then f l.[j] else l.[j].
Proof.
  intros Hi Hj. unfold nthZ. destruct (Z.ltb_spec j 0); [lia|]. rewrite !nth_lookup.
  destruct (Z.eqb_spec j (Z.of_nat i)) as [->|Hne].
  - rewrite Nat2Z.id, list_lookup_alter_eq. destruct (lookup_lt_is_Some_2 l i Hi) as [x ->]. done.
  - rewrite list_lookup_alter_ne by lia. done.
Qed.

(** Same size and parameters: only the data may differ. *)
Definition same_params (f f' : CBloomFilter) : Prop :=
  lenZ (vData f') = lenZ (vData f) /\ nHashFuncs f' = nHashFuncs f /\ nTweak f' = nTweak f /\ nFlags f' = nFlags f.

#[local] Instance same_params_preorder : PreOrder same_params.
Proof. split; [intros f; by split_and!|]. intros f g h (?&?&?&?) (?&?&?&?). split_and!; congruence. Qed.

Lemma set_bit_params n f : same_params f (set_bit n f).
Proof. split_and!; try done. unfold lenZ, set_bit. cbn. by rewrite length_alter. Qed.

Lemma test_set_bit n m f :
  0 <= n -> 0 <= m < 8 * lenZ (vData f) -> test_bit n (set_bit m f) = (n =? m) || test_bit n f.
Proof.
  intros Hn Hm. rewrite !test_bit_testbit by done. unfold set_bit. cbn [vData].
  rewrite bit_mask_pow, shiftr_3 by lia. rewrite nthZ_alter; [|unfold lenZ in Hm; zdm|zdm].
  rewrite Z2Nat.id by zdm. destruct (Z.eqb_spec (n / 8) (m / 8)) as [E|E].
  - rewrite Z.lor_spec, Z.pow2_bits_eqb by zdm. rewrite orb_comm. f_equal. zdm.
  - destruct (Z.eqb_spec n m); [congruence|done].
Qed.

(** ** Filters with data *)

Record wf (f : CBloomFilter) : Prop := {
  wf_bytes : is_bytes (vData f); wf_size : 0 < lenZ (vData f); wf_hashes : 0 <= nHashFuncs f }.

Lemma MurmurHash3_range seed data : in_u 32 (MurmurHash3 seed data).
Proof.
  unfold MurmurHash3. match goal with |- in_u 32 (Z.lxor ?a _) => assert (Ha : in_u 32 a) by (apply wrapu_range; lia); generalize dependent a end.
  intros a Ha. unfold in_u in *. assert (Hs : 0 <= Z.shiftr a 16 < 2 ^ 32) by (rewrite Z.shiftr_div_pow2 by lia; zdm).
  split; [apply Z.lxor_nonneg; lia|]. destruct (Z.eq_dec (Z.lxor a (Z.shiftr a 16)) 0) as [->|Hne]; [lia|].
  apply Z.log2_lt_pow2; [pose proof (proj2 (Z.lxor_nonneg a (Z.shiftr a 16))); lia|].
  pose proof (Z.log2_lxor a (Z.shiftr a 16) ltac:(lia) ltac:(lia)).
  assert (Hl : forall x, 0 <= x < 2 ^ 32 -> Z.log2 x < 32).
  { intros x Hx. destruct (Z.eq_dec x 0) as [->|]; [done|]. apply Z.log2_lt_pow2; lia. }
  pose proof (Hl a Ha). pose proof (Hl _ Hs). lia.
Qed.

Definition index (f : CBloomFilter) (k : bytes) (i : Z) : Z := default 0 (Hash f i k).

Lemma Hash_index f i k : wf f -> Hash f i k = Some (index f k i) /\ 0 <= index f k i < 8 * lenZ (vData f).
Proof.
  intros [Hb Hs _]. unfold index, Hash. destruct (Z.eqb_spec (lenZ (vData f)) 0); [lia|]. cbn. split; [done|].
  pose proof (MurmurHash3_range (u32 (i * 0xFBA4C795 + nTweak f)) k) as Hm.
  pose proof (Z.mod_pos_bound (MurmurHash3 (u32 (i * 0xFBA4C795 + nTweak f)) k) (lenZ (vData f) * 8) ltac:(lia)).
  pose proof (Z.mod_le (MurmurHash3 (u32 (i * 0xFBA4C795 + nTweak f)) k) (lenZ (vData f) * 8) ltac:(unfold in_u in Hm; lia) ltac:(lia)).
  unfold in_u in Hm. rewrite wrapu_small by (unfold in_u; lia). lia.
Qed.

Lemma index_params f f' k i : same_params f f' -> index f' k i = index f k i.
Proof. intros (E1 & _ & E2 & _). unfold index, Hash. by rewrite E1, E2. Qed.

(** The bits of a key. *)
Definition indices (f : CBloomFilter) (k : bytes) : list Z := index f k <$> seqZ 0 (nHashFuncs f).

Lemma indices_params f f' k : same_params f f' -> indices f' k = indices f k.
Proof. intros E. unfold indices. destruct (E) as (_ & -> & _). apply list_fmap_ext. intros ? i _. by apply index_params. Qed.

Lemma set_bit_wf n f : 0 <= n < 8 * lenZ (vData f) -> wf f -> wf (set_bit n f).
Proof.
  intros Hn [Hb Hs Hh]. destruct (set_bit_params n f) as (E1 & E2 & _). split; [|lia|lia].
  unfold set_bit. cbn [vData]. unfold is_bytes. rewrite bit_mask_pow by lia. apply Forall_alter; [done|].
  intros b _ [Hb0 Hb1]. assert (Hm : 0 <= n mod 8 < 8) by zdm. unfold in_u.
  split; [apply Z.lor_nonneg; split; [done|by apply Z.pow_nonneg]|].
  destruct (Z.eq_dec (Z.lor b (2 ^ (n mod 8))) 0) as [->|Hne]; [done|].
  apply Z.log2_lt_pow2; [pose proof (proj2 (Z.lor_nonneg b (2 ^ (n mod 8)))); pose proof (Z.pow_nonneg 2 (n mod 8)); lia|].
  rewrite Z.log2_lor by (try apply Z.pow_nonneg; lia). rewrite Z.log2_pow2 by lia.
  destruct (Z.eq_dec b 0) as [->|]; [cbn; lia|]. assert (Z.log2 b < 8) by (apply Z.log2_lt_pow2; lia). lia.
Qed.

Lemma insert_loop_spec n i k f :
  wf f -> exists f', insert_loop n i k f = Some f' /\ wf f' /\ same_params f f' /\
    forall j, 0 <= j -> test_bit j f' = bool_decide (j ∈ index f k <$> seqZ i (Z.of_nat n)) || test_bit j f.
Proof.
  revert i f. induction n as [|n IH]; intros i f Hf; cbn [insert_loop].
  { exists f. split_and!; try done. }
  destruct (Hash_index f i k Hf) as [-> Hr]. cbn [mbind option_bind].
  destruct (IH (i + 1) (set_bit (index f k i) f) (set_bit_wf _ _ Hr Hf)) as (f' & -> & Hwf & Hp & Hbits).
  exists f'. split; [done|]. split; [done|]. split; [by etransitivity; [apply set_bit_params|]|].
  intros j Hj. rewrite Hbits, test_set_bit by done. rewrite (seqZ_cons i) by lia. cbn [fmap list_fmap].
  assert (E : (index (set_bit (index f k i) f) k <$> seqZ (i + 1) (Z.of_nat n)) = index f k <$> seqZ (Z.succ i) (Z.pred (Z.of_nat (S n)))).
  { replace (Z.pred (Z.of_nat (S n))) with (Z.of_nat n) by lia. rewrite <-Z.add_1_r. apply list_fmap_ext. intros ? x _. apply index_params, set_bit_params. }
  rewrite E. set (l := index f k <$> seqZ (Z.succ i) _). rewrite orb_assoc. f_equal.
  apply Bool.eq_iff_eq_true. rewrite orb_true_iff, !bool_decide_eq_true, Z.eqb_eq, elem_of_cons. tauto.
Qed.

Lemma contains_loop_spec n i k f :
  wf f -> contains_loop n i k f = Some (forallb (fun j => test_bit j f) (index f k <$> seqZ i (Z.of_nat n))).
Proof.
  intros Hf. revert i. induction n as [|n IH]; intros i; [done|]. cbn [contains_loop].
  destruct (Hash_index f i k Hf) as [-> _]. cbn [mbind option_bind]. rewrite seqZ_cons by lia. cbn [fmap list_fmap forallb].
  destruct (test_bit (index f k i) f); cbn [negb andb]; [|done]. rewrite IH. by replace (Z.pred (Z.of_nat (S n))) with (Z.of_nat n) by lia.
Qed.

Lemma is_full_bits f j : is_full f = true -> 0 <= j < 8 * lenZ (vData f) -> test_bit j f = true.
Proof.
  unfold is_full. intros E Hj. zbool. rewrite test_bit_testbit by lia.
  replace (j / 8) with 0 by zdm. rewrite H0. assert (Hm : 0 <= j mod 8 < 8) by zdm. revert Hm. generalize (j mod 8).
  apply (range_forallb 8 (fun m => Z.testbit 255 m)). by vm_compute.
Qed.

Lemma indices_range f k j : wf f -> j ∈ indices f k -> 0 <= j < 8 * lenZ (vData f).
Proof. intros Hf. unfold indices. intros (i & -> & _)%list_elem_of_fmap. by apply Hash_index. Qed.

Lemma contains_spec f k : wf f -> contains k f = Some (forallb (fun j => test_bit j f) (indices f k)).
Proof.
  intros Hf. unfold contains. destruct (is_full f) eqn:E.
  - f_equal. symmetry. apply forallb_forall. intros j Hj. apply list_elem_of_In in Hj.
    apply is_full_bits; [done|]. by apply (indices_range f k).
  - rewrite contains_loop_spec by done. unfold indices. rewrite Z2Nat.id; [done|]. apply Hf.
Qed.

Lemma insert_spec f k :
  wf f -> exists f', insert k f = Some f' /\ wf f' /\ same_params f f' /\
    forall j, 0 <= j < 8 * lenZ (vData f) -> test_bit j f' = bool_decide (j ∈ indices f k) || test_bit j f.
Proof.
  intros Hf. unfold insert. destruct (is_full f) eqn:E.
  - exists f. split_and!; try done. intros j Hj. rewrite (is_full_bits f j E Hj). by rewrite orb_true_r.
  - destruct (insert_loop_spec (Z.to_nat (nHashFuncs f)) 0 k f Hf) as (f' & Hi & Hwf & Hp & Hb). exists f'. split_and!; try done.
    intros j Hj. rewrite Hb by lia. unfold indices. by rewrite Z2Nat.id by apply Hf.
Qed.

Lemma contains_true f k : wf f -> contains k f = Some true <-> forall j, j ∈ indices f k -> test_bit j f = true.
Proof.
  intros Hf. rewrite contains_spec by done. split.
  - intros [= E] j Hj. rewrite forallb_forall in E. apply E. by apply list_elem_of_In.
  - intros Hall. f_equal. apply forallb_forall. intros j Hj. apply Hall. by apply list_elem_of_In.
Qed.

Lemma insert_contains f f' k x :
  wf f -> insert k f = Some f' ->
  contains x f' = Some true <-> forall j, j ∈ indices f x -> j ∈ indices f k \/ test_bit j f = true.
Proof.
  intros Hf Hi. destruct (insert_spec f k Hf) as (f1 & Hi1 & Hwf & Hp & Hb). rewrite Hi in Hi1. injection Hi1 as <-.
  rewrite contains_true, (indices_params f f' x Hp) by done.
  assert (Hj : forall j, j ∈ indices f x -> test_bit j f' = true <-> j ∈ indices f k \/ test_bit j f = true).
  { intros j Hx. rewrite Hb by (by eapply indices_range). by rewrite orb_true_iff, bool_decide_eq_true. }
  split; intros Hall j Hx; apply Hj; auto.
Qed.

(** Inserting into a filter with data succeeds and changes nothing but data.  The
    inserted key is found afterwards and so is every key that was found before; a key is found
    exactly when every one of its bits was set before or is a bit of the inserted key. *)
Theorem Bloom_insert f k :
  wf f ->
  exists f', insert k f = Some f' /\ wf f' /\ same_params f f' /\
    contains k f' = Some true /\
    (forall x, contains x f = Some true -> contains x f' = Some true) /\
    (forall x, contains x f' = Some true <-> forall j, j ∈ indices f x -> j ∈ indices f k \/ test_bit j f = true).
Proof.
  intros Hf. destruct (insert_spec f k Hf) as (f' & Hi & Hwf & Hp & _). exists f'. split_and!; try done.
  - apply (insert_contains f f' k k Hf Hi). auto.
  - intros x Hx. apply (insert_contains f f' k x Hf Hi). intros j Hj. right. by apply (contains_true f x Hf).
  - intros x. by apply insert_contains.
Qed.

(** A filter without data passes the size check of a received filter, and the first
    key inserted into or looked up in it divides by zero. *)
Theorem Bloom_empty nFuncs tweak flags k :
  0 < nFuncs <= MAX_HASH_FUNCS ->
  IsWithinSizeConstraints (mkFilter [] nFuncs tweak flags) = true /\
  insert k (mkFilter [] nFuncs tweak flags) = None /\ contains k (mkFilter [] nFuncs tweak flags) = None.
Proof.
  intros Hn. unfold IsWithinSizeConstraints, insert, contains, is_full. cbn [vData nHashFuncs].
  change (lenZ (@nil Z)) with 0. cbn [Z.leb Z.eqb andb]. split; [unfold MAX_BLOOM_FILTER_SIZE; lia|].
  by destruct (Z.to_nat nFuncs) eqn:E; [lia|].
Qed.

(** ** Relevant transactions *)

Section Relevant.
Context (GetOps : CScript -> list bytes) (Solver_pubkey : CScript -> bool).

(** [f'] is [f] with more bits. *)
Definition grows (f f' : CBloomFilter) : Prop :=
  wf f' /\ same_params f f' /\ forall x, contains x f = Some true -> contains x f' = Some true.

Lemma grows_refl f : wf f -> grows f f.
Proof. by intros Hf. Qed.
Lemma grows_trans f g h : grows f g -> grows g h -> grows f h.
Proof. intros (_ & P1 & C1) (Hw & P2 & C2). split_and!; [done|by etransitivity|auto]. Qed.

Lemma insert_grows f k : wf f -> exists f', insert k f = Some f' /\ grows f f' /\ contains k f' = Some true.
Proof.
  intros Hf. destruct (insert_spec f k Hf) as (f' & Hi & Hwf & Hp & _). exists f'. split; [done|]. split.
  - split_and!; [done|done|]. intros x Hx. apply (insert_contains f f' k x Hf Hi). intros j Hj. right. by apply (contains_true f x Hf).
  - apply (insert_contains f f' k k Hf Hi). auto.
Qed.

(** A data element of the script is in the filter. *)
Definition matches (script : CScript) (f : CBloomFilter) : Prop :=
  exists d, d ∈ GetOps script /\ lenZ d <> 0 /\ contains d f = Some true.

Lemma any_data_spec l f : wf f ->
  exists b, any_data l f = Some b /\ (b = true <-> exists d, d ∈ l /\ lenZ d <> 0 /\ contains d f = Some true).
Proof.
  intros Hf. induction l as [|d l (b & IHb & IH)]; cbn [any_data].
  { exists false. split; [done|]. split; [done|]. intros (d & Hd & _). by apply not_elem_of_nil in Hd. }
  destruct (Z.eqb_spec (lenZ d) 0) as [E|E].
  - exists b. split; [done|]. rewrite IH. setoid_rewrite elem_of_cons. naive_solver.
  - destruct (contains d f) as [c|] eqn:Hc; [|by rewrite contains_spec in Hc]. cbn [mbind option_bind].
    destruct c; [exists true|exists b]; (split; [done|]); setoid_rewrite elem_of_cons; naive_solver.
Qed.

Lemma update_output_spec o script f : wf f ->
  exists f', update_output Solver_pubkey o script f = Some f' /\ grows f f' /\
    (Z.land (nFlags f) BLOOM_UPDATE_MASK = BLOOM_UPDATE_ALL -> contains_outpoint o f' = Some true).
Proof.
  intros Hf. unfold update_output, insert_outpoint, contains_outpoint.
  destruct (insert_grows f (outpoint_bytes o) Hf) as (f' & Hi & Hg & Hc). pose proof (grows_refl f Hf).
  destruct (Z.eqb_spec (Z.land (nFlags f) BLOOM_UPDATE_MASK) BLOOM_UPDATE_ALL); [by exists f'|].
  destruct (_ =? _); [destruct (Solver_pubkey script)|]; [by exists f'|by exists f|by exists f].
Qed.

Lemma relevant_outputs_spec h i vout fFound f : wf f ->
  exists b f', relevant_outputs GetOps Solver_pubkey h i vout fFound f = Some (b, f') /\ grows f f' /\
    (fFound = true -> b = true) /\
    (forall j o, vout !! j = Some o -> matches (scriptPubKey o) f ->
       b = true /\ (Z.land (nFlags f) BLOOM_UPDATE_MASK = BLOOM_UPDATE_ALL ->
                    contains_outpoint (mkOutPoint h (i + Z.of_nat j)) f' = Some true)).
Proof.
  revert i fFound f. induction vout as [|o vout IH]; intros i fFound f Hf; cbn [relevant_outputs].
  { exists fFound, f. split_and!; try done. }
  destruct (any_data_spec (GetOps (scriptPubKey o)) f Hf) as (m & -> & Hm). cbn [mbind option_bind].
  assert (Hstep : forall fFound1 f1, grows f f1 -> (m = true -> fFound1 = true) -> (fFound = true -> fFound1 = true) ->
    (m = true -> Z.land (nFlags f) BLOOM_UPDATE_MASK = BLOOM_UPDATE_ALL -> contains_outpoint (mkOutPoint h i) f1 = Some true) ->
    exists b f', relevant_outputs GetOps Solver_pubkey h (i + 1) vout fFound1 f1 = Some (b, f') /\ grows f f' /\
    (fFound = true -> b = true) /\
    (forall j o', (o :: vout) !! j = Some o' -> matches (scriptPubKey o') f ->
       b = true /\ (Z.land (nFlags f) BLOOM_UPDATE_MASK = BLOOM_UPDATE_ALL ->
                    contains_outpoint (mkOutPoint h (i + Z.of_nat j)) f' = Some true))).
  { intros fF f1 Hg Hmf Hff Hins. destruct (IH (i + 1) fF f1 (proj1 Hg)) as (b & f' & Hr & Hg' & Hb & Hall).
    exists b, f'. split; [done|]. split; [by eapply grows_trans|]. split; [auto|].
    intros [|j] o' Hj Hmatch.
    - injection Hj as <-. assert (m = true) as Hmt by (by apply Hm). split; [auto|]. intros Hfl.
      rewrite Z.add_0_r. apply Hg'. by apply Hins.
    - destruct Hg as (_ & (_ & _ & _ & Efl) & Hc). rewrite <-Efl.
      replace (i + Z.of_nat (S j)) with (i + 1 + Z.of_nat j) by lia. apply (Hall j o' Hj).
      destruct Hmatch as (d & Hd & Hne & Hcd). exists d. auto. }
  destruct m.
  - destruct (update_output_spec (mkOutPoint h i) (scriptPubKey o) f Hf) as (f1 & -> & Hg & Hins). cbn [mbind option_bind].
    apply Hstep; auto.
  - apply Hstep; try done.
Qed.

Lemma relevant_inputs_spec vin f : wf f ->
  exists b, relevant_inputs GetOps vin f = Some b /\
    ((exists t, t ∈ vin /\ (contains_outpoint (prevout t) f = Some true \/ matches (scriptSig t) f)) <-> b = true).
Proof.
  intros Hf. induction vin as [|t vin (b & IHb & IH)]; cbn [relevant_inputs].
  { exists false. split; [done|]. split; [|done]. intros (t & Ht & _). by apply not_elem_of_nil in Ht. }
  unfold contains_outpoint at 1. destruct (contains _ f) as [c|] eqn:Hc; [|by rewrite contains_spec in Hc]. cbn [mbind option_bind].
  setoid_rewrite elem_of_cons. destruct c.
  - exists true. split; [done|]. split; [done|]. intros _. exists t. auto.
  - destruct (any_data_spec (GetOps (scriptSig t)) f Hf) as (m & -> & Hm). cbn [mbind option_bind].
    assert (Hno : contains_outpoint (prevout t) f <> Some true) by (unfold contains_outpoint; congruence).
    change (m = true <-> matches (scriptSig t) f) in Hm.
    destruct m; [exists true|exists b]; (split; [done|]); naive_solver.
Qed.

Lemma IsRelevant_spec tx h f : wf f ->
  exists b f', IsRelevantAndUpdate GetOps Solver_pubkey tx h f = Some (b, f') /\ grows f f' /\
    (contains_hash h f = Some true -> b = true) /\
    (forall j o, vout tx !! j = Some o -> matches (scriptPubKey o) f ->
       b = true /\ (Z.land (nFlags f) BLOOM_UPDATE_MASK = BLOOM_UPDATE_ALL ->
                    contains_outpoint (mkOutPoint h (Z.of_nat j)) f' = Some true)) /\
    (forall t, t ∈ vin tx -> contains_outpoint (prevout t) f = Some true \/ matches (scriptSig t) f -> b = true).
Proof.
  intros Hf. unfold IsRelevantAndUpdate. unfold contains_hash at 1.
  destruct (contains (hash_bytes h) f) as [c|] eqn:Hc; [|by rewrite contains_spec in Hc]. cbn [mbind option_bind].
  destruct (relevant_outputs_spec h 0 (vout tx) c f Hf) as (b & f' & -> & Hg & Hfound & Hout). cbn [mbind option_bind].
  assert (Hhash : contains_hash h f = Some true -> b = true) by (unfold contains_hash; intros E; apply Hfound; congruence).
  destruct b; [by exists true, f'|].
  destruct (relevant_inputs_spec (vin tx) f' (proj1 Hg)) as (b & -> & Hin). cbn [mbind option_bind].
  exists b, f'. split_and!; try done.
  - intros E. by apply Hhash in E.
  - intros j o Hj Hm. by destruct (Hout j o Hj Hm).
  - intros t Ht Hor. apply Hin. exists t. split; [done|]. destruct Hg as (_ & _ & Hgc).
    destruct Hor as [Ho|(d & Hd & Hne & Hcd)]; [left; by apply Hgc|right; exists d; auto].
Qed.

(** [IsRelevantAndUpdate] finds a transaction with a matched output relevant and,
    when the filter asks for it, remembers the output: a transaction that spends it is relevant
    too, whatever was added to the filter in between. *)
Theorem IsRelevantAndUpdate_spent tx h f j o tx' h' t :
  wf f -> Z.land (nFlags f) BLOOM_UPDATE_MASK = BLOOM_UPDATE_ALL ->
  vout tx !! j = Some o -> matches (scriptPubKey o) f ->
  t ∈ vin tx' -> prevout t = mkOutPoint h (Z.of_nat j) ->
  exists f', IsRelevantAndUpdate GetOps Solver_pubkey tx h f = Some (true, f') /\
    forall g, grows f' g -> exists g', IsRelevantAndUpdate GetOps Solver_pubkey tx' h' g = Some (true, g').
Proof.
  intros Hf Hfl Hj Hm Ht Hp. destruct (IsRelevant_spec tx h f Hf) as (b & f' & -> & Hg & _ & Hout & _).
  destruct (Hout j o Hj Hm) as [-> Hins]. exists f'. split; [done|]. intros g Hgg.
  destruct (IsRelevant_spec tx' h' g (proj1 Hgg)) as (b & g' & -> & _ & _ & _ & Hin).
  exists g'. rewrite (Hin t Ht); [done|]. left. rewrite Hp. apply Hgg. by apply Hins.
Qed.

End Relevant.

(** ** A filter of three bytes *)

Module Examples.

Definition filter0 : CBloomFilter := mkFilter [0; 0; 0] 5 0 BLOOM_UPDATE_ALL.
Definition key : bytes := [0x99; 0x10; 0x8a].

Lemma filter0_wf : wf filter0.
Proof. split; [by repeat constructor|reflexivity|discriminate]. Defined.

Lemma Bloom_insert_witness :
  exists f', insert key filter0 = Some f' /\ contains key filter0 = Some false /\ contains key f' = Some true.
Proof.
  destruct (Bloom_insert filter0 key filter0_wf) as (f' & Hi & _ & _ & Hc & _).
  exists f'. split; [exact Hi|]. split; [vm_compute; reflexivity|exact Hc].
Defined.

Lemma Bloom_empty_witness : insert key (mkFilter [] 1 0 0) = None.
Proof. apply (Bloom_empty 1 0 0 key). split; [reflexivity|discriminate]. Defined.

Definition matched : CBloomFilter := default filter0 (insert key filter0).
Definition paying : CTransaction := mkTx 1 [] [mkTxOut 1 []; mkTxOut 2 key] 0.
Definition spending : CTransaction := mkTx 1 [mkTxIn (mkOutPoint 77 1) [] uint_max] [] 0.

Lemma matched_wf : wf matched.
Proof. unfold matched. by destruct (insert_spec filter0 key filter0_wf) as (f' & -> & Hwf & _). Qed.

Lemma IsRelevantAndUpdate_spent_witness :
  exists f' g', IsRelevantAndUpdate (fun s => [s]) (fun _ => false) paying 77 matched = Some (true, f') /\
    IsRelevantAndUpdate (fun s => [s]) (fun _ => false) spending 78 f' = Some (true, g').
Proof.
  destruct (IsRelevantAndUpdate_spent (fun s => [s]) (fun _ => false) paying 77 matched 1 (mkTxOut 2 key) spending 78
    (mkTxIn (mkOutPoint 77 1) [] uint_max)) as (f' & Hr & Hs).
  - apply matched_wf.
  - vm_compute. reflexivity.
  - reflexivity.
  - exists key. split; [by left|]. split; [discriminate|vm_compute; reflexivity].
  - by left.
  - reflexivity.
  - destruct (IsRelevant_spec (fun s => [s]) (fun _ => false) paying 77 matched matched_wf) as (b & f1 & Hr1 & Hg & _).
    rewrite Hr in Hr1. injection Hr1 as <- <-. destruct (Hs f' (grows_refl f' (proj1 Hg))) as (g' & Hg').
    exists f', g'. split; [exact Hr|exact Hg'].
Defined.

End Examples.
