(* ===== verification/LockedPages.v ===== *)
(** Memory pages that must not be swapped out: src/allocators.h, [LockedPageManagerBase].

    The operating system's page locks do not stack; the manager counts how often each page was
    locked.  An address is a 64-bit [size_t].  [None] is a failed assertion, or the loop over the
    pages that does not end.  The calls to the [Locker] are recorded in order. *)

From S2P Require Import Prelude.

(** [locker.Lock(page, page_size)] and [locker.Unlock(page, page_size)]. *)
Inductive Call := Lock (page : Z) | Unlock (page : Z).

Record LockedPageManager := mkManager { page_size : Z; histogram : gmap Z Z; calls : list Call }.

(** The constructor asserts that the page size is a power of two. *)
Definition new_manager (page_size : Z) : option LockedPageManager :=
  if Z.land page_size (u64 (page_size - 1)) =? 0 then Some (mkManager page_size ∅ []) else None.

Definition page_mask (m : LockedPageManager) : Z := Z.lxor (u64 (page_size m - 1)) (2 ^ 64 - 1).

(** The pages of the [for] loop: from [page] while [page <= end_page]. *)
Fixpoint page_loop (fuel : nat) (page_size page end_page : Z) : option (list Z) :=
  if page <=? end_page then
    match fuel with
    | O => None
    | S fuel' => rest ← page_loop fuel' page_size (u64 (page + page_size)) end_page; Some (page :: rest)
    end
  else Some [].

(** The rounds: one for every page of the range. *)
Definition pages (m : LockedPageManager) (p size : Z) : option (list Z) :=
  let start_page := Z.land p (page_mask m) in
  let end_page := Z.land (u64 (p + size - 1)) (page_mask m) in
  page_loop (Z.to_nat ((end_page - start_page) / page_size m + 1)) (page_size m) start_page end_page.

Definition lock_page (m : LockedPageManager) (page : Z) : LockedPageManager :=
  match histogram m !! page with
  | None => mkManager (page_size m) (<[page := 1]> (histogram m)) (calls m ++ [Lock page])
  | Some n => mkManager (page_size m) (<[page := s32 (n + 1)]> (histogram m)) (calls m)
  end.

Definition unlock_page (m : LockedPageManager) (page : Z) : option LockedPageManager :=
  n ← histogram m !! page;
  let n := s32 (n - 1) in
  Some (if n =? 0
        then mkManager (page_size m) (delete page (histogram m)) (calls m ++ [Unlock page])
        else mkManager (page_size m) (<[page := n]> (histogram m)) (calls m)).

Definition LockRange (p size : Z) (m : LockedPageManager) : option LockedPageManager :=
  if size =? 0 then Some m
  else ps ← pages m p size; Some (fold_left lock_page ps m).

Fixpoint unlock_all (ps : list Z) (m : LockedPageManager) : option LockedPageManager :=
  match ps with [] => Some m | page :: r => m' ← unlock_page m page; unlock_all r m' end.

Definition UnlockRange (p size : Z) (m : LockedPageManager) : option LockedPageManager :=
  if size =? 0 then Some m
  else ps ← pages m p size; unlock_all ps m.

Definition GetLockedPageCount (m : LockedPageManager) : Z := Z.of_nat (base.size (histogram m)).

(** ** What it promises *)

(** The pages the operating system has locked after some calls. *)
Definition os_step (locked : gset Z) (c : Call) : gset Z :=
  match c with Lock page => {[page]} ∪ locked | Unlock page => locked ∖ {[page]} end.
Definition os_locked (cs : list Call) : gset Z := fold_left os_step cs ∅.

(** Ranges: address and size. *)
Definition range : Type := Z * Z.

(** A byte of the range lies in the page. *)
Definition touches (ps : Z) (r : range) (page : Z) : Prop :=
  page mod ps = 0 /\ 0 < r.2 /\ page <= r.1 + r.2 - 1 /\ r.1 < page + ps.

#[global] Instance touches_dec ps r page : Decision (touches ps r page).
Proof. unfold touches. apply _. Defined.

(** How many of the ranges touch the page. *)
Definition covers (ps : Z) (rs : list range) (page : Z) : Z :=
  lenZ (List.filter (fun r => bool_decide (touches ps r page)) rs).

(** A range of the address space, off its last page. *)
Definition valid (ps : Z) (r : range) : Prop := 0 <= r.1 /\ 0 <= r.2 /\ r.1 + r.2 <= 2 ^ 64 - ps.

(** The manager and the ranges that are locked. *)
Inductive Op := OLock (r : range) | OUnlock (r : range).

Definition exec (o : Op) (m : LockedPageManager) : option LockedPageManager :=
  match o with OLock r => LockRange r.1 r.2 m | OUnlock r => UnlockRange r.1 r.2 m end.

Fixpoint remove_range (r : range) (rs : list range) : option (list range) :=
  match rs with
  | [] => None
  | r' :: rest => if decide (r = r') then Some rest else rs' ← remove_range r rest; Some (r' :: rs')
  end.

(** The specification: a multiset of ranges; only a locked range may be unlocked. *)
Definition spec (o : Op) (rs : list range) : option (list range) :=
  match o with OLock r => Some (r :: rs) | OUnlock r => remove_range r rs end.

Fixpoint exec_all (os : list Op) (m : LockedPageManager) : option LockedPageManager :=
  match os with [] => Some m | o :: r => m' ← exec o m; exec_all r m' end.
Fixpoint spec_all (os : list Op) (rs : list range) : option (list range) :=
  match os with [] => Some rs | o :: r => rs' ← spec o rs; spec_all r rs' end.

Definition op_range (o : Op) : range := match o with OLock r | OUnlock r => r end.

(** ** Proofs *)

Section Pages.
Context (k : Z) (Hk : 0 <= k < 64).
Notation ps := (2 ^ k).

Lemma ps_range : 0 < ps < 2 ^ 64.
Proof. split; [apply Z.pow_pos_nonneg; lia|apply Z.pow_lt_mono_r; lia]. Qed.

Lemma page_mask_land p m : page_size m = ps -> 0 <= p < 2 ^ 64 -> Z.land p (page_mask m) = p - p mod ps.
Proof.
  intros Hps Hp. pose proof ps_range. unfold page_mask. rewrite Hps, wrapu_small by (unfold in_u; lia).
  replace (ps - 1) with (Z.ones k) by (rewrite Z.ones_equiv; lia). replace (2 ^ 64 - 1) with (Z.ones 64) by done.
  assert (E : Z.land p (Z.lxor (Z.ones k) (Z.ones 64)) = Z.ldiff p (Z.ones k)).
  { apply Z.bits_inj'. intros i Hi. rewrite Z.land_spec, Z.lxor_spec, Z.ldiff_spec, !Z.testbit_ones_nonneg by lia.
    destruct (Z.ltb_spec i 64); [by destruct (i <? k)|].
    rewrite (Z.bits_above_log2 p i); [done|lia|]. destruct (Z.eq_dec p 0) as [->|]; [cbn; lia|].
    assert (Z.log2 p < 64) by (apply Z.log2_lt_pow2; lia). lia. }
  rewrite E, Z.ldiff_ones_r, Z.shiftr_div_pow2, Z.shiftl_mul_pow2 by lia. pose proof (Z.div_mod p ps). lia.
Qed.

(** The pages from [a] on, [n] of them. *)
Definition page_list (a : Z) (n : nat) : list Z := (fun i => a + i * ps) <$> seqZ 0 (Z.of_nat n).

Lemma page_list_S a n : page_list a (S n) = a :: page_list (a + ps) n.
Proof.
  unfold page_list. rewrite seqZ_cons by lia. cbn [fmap list_fmap]. f_equal; [lia|].
  replace (Z.pred (Z.of_nat (S n))) with (Z.of_nat n) by lia. change (Z.succ 0) with (1 + 0). rewrite <-fmap_add_seqZ. rewrite <-list_fmap_compose.
  apply list_fmap_ext. intros ? i _. cbn. lia.
Qed.

Lemma page_loop_list fuel a n :
  0 <= a -> a + Z.of_nat n * ps < 2 ^ 64 -> (n <= fuel)%nat ->
  page_loop fuel ps a (a + (Z.of_nat n - 1) * ps) = Some (page_list a n).
Proof.
  pose proof ps_range. revert fuel a. induction n as [|n IH]; intros fuel a Ha Hb Hf.
  - assert (E : (a <=? a + (Z.of_nat 0 - 1) * ps) = false) by lia. destruct fuel; cbn [page_loop]; by rewrite E.
  - destruct fuel as [|fuel]; [lia|]. cbn [page_loop]. destruct (Z.leb_spec a (a + (Z.of_nat (S n) - 1) * ps)); [|nia].
    rewrite wrapu_small by (unfold in_u; nia).
    replace (a + (Z.of_nat (S n) - 1) * ps) with (a + ps + (Z.of_nat n - 1) * ps) by lia.
    rewrite IH by lia. cbn [mbind option_bind]. by rewrite page_list_S.
Qed.

(** [pages] lists, without repetition, exactly the pages the range touches. *)
Lemma pages_spec m p size :
  page_size m = ps -> valid ps (p, size) -> 0 < size ->
  exists l, pages m p size = Some l /\ NoDup l /\ forall page, page ∈ l <-> touches ps (p, size) page.
Proof.
  intros Hps (Hp & Hs & Hb) Hpos. cbn in *. pose proof ps_range. unfold pages.
  rewrite !page_mask_land, Hps by (try apply wrapu_range; lia || (unfold u64, wrapu; apply Z.mod_pos_bound; lia)).
  rewrite wrapu_small by (unfold in_u; lia).
  set (a := p - p mod ps). set (e := p + size - 1 - (p + size - 1) mod ps).
  pose proof (Z.mod_pos_bound p ps ltac:(lia)). pose proof (Z.mod_pos_bound (p + size - 1) ps ltac:(lia)).
  pose proof (Z.div_mod p ps ltac:(lia)) as D1. pose proof (Z.div_mod (p + size - 1) ps ltac:(lia)) as D2.
  assert (Hle : p / ps <= (p + size - 1) / ps) by (apply Z.div_le_mono; lia).
  assert (Hq : 0 <= p / ps) by (apply Z.div_pos; lia).
  set (q1 := p / ps) in *. set (q2 := (p + size - 1) / ps) in *.
  assert (Ea : a = ps * q1) by lia. assert (Ee : e = ps * q2) by lia. clearbody a e.
  set (n := Z.to_nat (q2 - q1 + 1)). assert (En : Z.of_nat n = q2 - q1 + 1) by lia. clearbody n.
  assert (Eq : (e - a) / ps + 1 = Z.of_nat n) by (rewrite Ea, Ee, <-Z.mul_sub_distr_l, Z.mul_comm, Z.div_mul by lia; lia).
  rewrite Eq, Nat2Z.id. replace e with (a + (Z.of_nat n - 1) * ps) by (rewrite En, Ea, Ee; ring).
  rewrite page_loop_list; [|rewrite Ea; apply Z.mul_nonneg_nonneg; lia|rewrite En, Ea; lia|done].
  exists (page_list a n). split; [done|]. unfold page_list. split.
  - apply NoDup_fmap_2; [|apply NoDup_seqZ]. intros x y E. apply Z.add_reg_l, Z.mul_reg_r in E; lia.
  - intros page. rewrite list_elem_of_fmap. setoid_rewrite elem_of_seqZ. unfold touches. cbn [fst snd]. rewrite En. split.
    + intros (i & -> & Hi). replace (a + i * ps) with ((q1 + i) * ps) by (rewrite Ea; ring).
      assert ((q1 + i) * ps <= q2 * ps) by (apply Z.mul_le_mono_nonneg_r; lia).
      assert (0 <= i * ps) by (apply Z.mul_nonneg_nonneg; lia).
      split_and!; [apply Z.mod_mul; lia|done|lia|lia].
    + intros (Hm & _ & Hup & Hlo). exists (page / ps - q1). pose proof (Z.div_mod page ps ltac:(lia)) as D. rewrite Hm in D.
      assert (q1 <= page / ps) by (apply Z.lt_succ_r, (Z.mul_lt_mono_pos_l ps); lia).
      assert (page / ps <= q2) by (apply Z.div_le_mono; lia).
      split; [rewrite Ea; lia|lia].
Qed.

(** ** The counts *)

Lemma os_locked_snoc cs c : os_locked (cs ++ [c]) = os_step (os_locked cs) c.
Proof. unfold os_locked. by rewrite fold_left_app. Qed.

Definition entry (n : Z) : option Z := if n =? 0 then None else Some n.

(** The manager counts [f], and the operating system has locked exactly the counted pages. *)
Definition counts (m : LockedPageManager) (f : Z -> Z) : Prop :=
  page_size m = ps /\ os_locked (calls m) = dom (histogram m) /\ forall page, histogram m !! page = entry (f page).

Lemma counts_ext m f g : (forall page, f page = g page) -> counts m f -> counts m g.
Proof. intros E (? & ? & Hf). split_and!; [done|done|]. intros page. by rewrite Hf, E. Qed.

Lemma lock_page_counts m f page :
  counts m f -> 0 <= f page < 2 ^ 31 - 1 ->
  counts (lock_page m page) (fun x => if decide (x = page) then f x + 1 else f x).
Proof.
  intros (Hps & Hos & Hf) Hr. unfold lock_page. rewrite (Hf page). unfold entry at 1.
  assert (Hins : forall x, <[page := f page + 1]> (histogram m) !! x = entry (if decide (x = page) then f x + 1 else f x)).
  { intros x. destruct (decide (x = page)) as [->|Hne]; [|by rewrite lookup_insert_ne].
    rewrite lookup_insert_eq. unfold entry. destruct (Z.eqb_spec (f page + 1) 0); [lia|done]. }
  destruct (Z.eqb_spec (f page) 0) as [E|E].
  - split_and!; cbn [page_size calls histogram]; [done| |by rewrite E in Hins].
    rewrite os_locked_snoc, dom_insert_L. cbn [os_step]. by rewrite Hos.
  - rewrite wraps_small by (unfold in_s; lia). split_and!; cbn [page_size calls histogram]; [done| |done].
    rewrite Hos, dom_insert_L. assert (page ∈ dom (histogram m)); [|set_solver].
    apply elem_of_dom. rewrite Hf. unfold entry. by destruct (Z.eqb_spec (f page) 0); [lia|].
Qed.

Lemma unlock_page_counts m f page :
  counts m f -> 1 <= f page < 2 ^ 31 ->
  exists m', unlock_page m page = Some m' /\ counts m' (fun x => if decide (x = page) then f x - 1 else f x).
Proof.
  intros (Hps & Hos & Hf) Hr. unfold unlock_page. rewrite (Hf page). unfold entry at 1.
  destruct (Z.eqb_spec (f page) 0); [lia|]. cbn [mbind option_bind]. rewrite wraps_small by (unfold in_s; lia).
  destruct (Z.eqb_spec (f page - 1) 0) as [E|E]; (eexists; split; [reflexivity|]); split_and!; cbn [page_size calls histogram]; try done.
  - rewrite os_locked_snoc, dom_delete_L. cbn [os_step]. by rewrite Hos.
  - intros x. destruct (decide (x = page)) as [->|Hne]; [|by rewrite lookup_delete_ne].
    rewrite lookup_delete_eq. unfold entry. by rewrite E.
  - rewrite Hos, dom_insert_L. assert (page ∈ dom (histogram m)); [|set_solver].
    apply elem_of_dom. rewrite Hf. unfold entry. by destruct (Z.eqb_spec (f page) 0); [lia|].
  - intros x. destruct (decide (x = page)) as [->|Hne]; [|by rewrite lookup_insert_ne].
    rewrite lookup_insert_eq. unfold entry. by destruct (Z.eqb_spec (f page - 1) 0).
Qed.

Lemma lock_all_counts l m f :
  NoDup l -> counts m f -> (forall page, page ∈ l -> 0 <= f page < 2 ^ 31 - 1) ->
  counts (fold_left lock_page l m) (fun x => if decide (x ∈ l) then f x + 1 else f x).
Proof.
  intros Hl. revert m f. induction Hl as [|page l Hp Hl IH]; intros m f Hm Hf; cbn [fold_left].
  { eapply counts_ext; [|exact Hm]. intros x. by destruct (decide (x ∈ [])) as [Hx%not_elem_of_nil|]. }
  eapply counts_ext; [|apply (IH _ _ (lock_page_counts m f page Hm (Hf page (list_elem_of_here _ _))))].
  - intros x. cbn. destruct (decide (x ∈ l)), (decide (x = page)), (decide (x ∈ page :: l)) as [Hx|Hx]; try done; rewrite elem_of_cons in Hx; naive_solver.
  - intros x Hx. cbn. destruct (decide (x = page)) as [->|]; [done|]. apply Hf. by right.
Qed.

Lemma unlock_all_counts l m f :
  NoDup l -> counts m f -> (forall page, page ∈ l -> 1 <= f page < 2 ^ 31) ->
  exists m', unlock_all l m = Some m' /\ counts m' (fun x => if decide (x ∈ l) then f x - 1 else f x).
Proof.
  intros Hl. revert m f. induction Hl as [|page l Hp Hl IH]; intros m f Hm Hf; cbn [unlock_all].
  { exists m. split; [done|]. eapply counts_ext; [|exact Hm]. intros x. by destruct (decide (x ∈ [])) as [Hx%not_elem_of_nil|]. }
  destruct (unlock_page_counts m f page Hm (Hf page (list_elem_of_here _ _))) as (m1 & -> & Hm1). cbn [mbind option_bind].
  destruct (IH _ _ Hm1) as (m' & -> & Hm').
  - intros x Hx. cbn. destruct (decide (x = page)) as [->|]; [done|]. apply Hf. by right.
  - exists m'. split; [done|]. eapply counts_ext; [|exact Hm']. intros x. cbn.
    destruct (decide (x ∈ l)), (decide (x = page)), (decide (x ∈ page :: l)) as [Hx|Hx]; try done; rewrite elem_of_cons in Hx; naive_solver.
Qed.

Lemma covers_cons r rs page : covers ps (r :: rs) page = covers ps rs page + if decide (touches ps r page) then 1 else 0.
Proof.
  unfold covers. cbn [List.filter]. case_bool_decide; case_decide; try done; rewrite ?lenZ_cons; lia.
Qed.

Lemma covers_range rs page : 0 <= covers ps rs page <= lenZ rs.
Proof.
  unfold covers, lenZ. pose proof (List.filter_length_le (fun r => bool_decide (touches ps r page)) rs). lia.
Qed.

Lemma remove_range_covers r rs rs' page :
  remove_range r rs = Some rs' -> covers ps rs page = covers ps (r :: rs') page /\ lenZ rs = 1 + lenZ rs'.
Proof.
  revert rs'. induction rs as [|r' rs IH]; intros rs'; cbn [remove_range]; [done|].
  destruct (decide (r = r')) as [->|Hne]; [intros [= <-]; by rewrite lenZ_cons|].
  destruct (remove_range r rs) as [l|] eqn:Hl; [|done]. cbn [mbind option_bind]. intros [= <-].
  destruct (IH l eq_refl) as [E L]. rewrite !covers_cons, E, covers_cons, !lenZ_cons. lia.
Qed.

Lemma exec_counts o m rs rs' :
  valid ps (op_range o) -> lenZ rs < 2 ^ 31 - 1 -> counts m (covers ps rs) -> spec o rs = Some rs' ->
  exists m', exec o m = Some m' /\ counts m' (covers ps rs').
Proof.
  intros Hv Hlen Hm Hspec. pose proof (covers_range rs) as Hc.
  assert (Hpages : forall r, valid ps r -> r.2 <> 0 -> exists l, pages m r.1 r.2 = Some l /\ NoDup l /\ forall page, page ∈ l <-> touches ps r page).
  { intros [p sz] Hr Hsz. apply pages_spec; [apply Hm|done|]. destruct Hr as (_ & ? & _). cbn in *. lia. }
  assert (Hzero : forall r l page, r.2 = 0 -> covers ps (r :: l) page = covers ps l page).
  { intros r l page E. rewrite covers_cons. destruct (decide _) as [(_ & ? & _)|]; lia. }
  destruct o as [r|r]; cbn [exec spec op_range] in *.
  - injection Hspec as <-. unfold LockRange. destruct (Z.eqb_spec r.2 0) as [E|E].
    { exists m. split; [done|]. eapply counts_ext; [|exact Hm]. intros page. by rewrite Hzero. }
    destruct (Hpages r Hv E) as (l & -> & Hnd & Hl). cbn [mbind option_bind]. eexists. split; [reflexivity|].
    eapply counts_ext; [|apply (lock_all_counts l m _ Hnd Hm)].
    + intros page. cbn. rewrite covers_cons. destruct (decide (page ∈ l)), (decide (touches ps r page)); try lia; by exfalso; rewrite Hl in *.
    + intros page _. specialize (Hc page). lia.
  - pose proof (fun page => remove_range_covers r rs rs' page Hspec) as Hrem. unfold UnlockRange. destruct (Z.eqb_spec r.2 0) as [E|E].
    { exists m. split; [done|]. eapply counts_ext; [|exact Hm]. intros page. rewrite (proj1 (Hrem page)). by apply Hzero. }
    destruct (Hpages r Hv E) as (l & -> & Hnd & Hl). cbn [mbind option_bind].
    destruct (unlock_all_counts l m _ Hnd Hm) as (m' & -> & Hm').
    + intros page Hp. destruct (Hrem page) as [Ec El]. specialize (Hc page). rewrite Ec, covers_cons, decide_True in * by (by apply Hl).
      pose proof (covers_range rs' page). lia.
    + exists m'. split; [done|]. eapply counts_ext; [|exact Hm']. intros page. cbn. rewrite (proj1 (Hrem page)), covers_cons.
      destruct (decide (page ∈ l)), (decide (touches ps r page)); try lia; by exfalso; rewrite Hl in *.
Qed.

Lemma exec_all_counts os m rs rs' :
  Forall (fun o => valid ps (op_range o)) os -> lenZ rs + lenZ os < 2 ^ 31 -> counts m (covers ps rs) -> spec_all os rs = Some rs' ->
  exists m', exec_all os m = Some m' /\ counts m' (covers ps rs').
Proof.
  intros Hv. revert m rs. induction Hv as [|o os Ho _ IH]; intros m rs Hlen Hm; cbn [spec_all exec_all].
  { intros [= <-]. by exists m. }
  destruct (spec o rs) as [rs1|] eqn:Hs; [|done]. cbn [mbind option_bind]. intros Hall. rewrite lenZ_cons in Hlen.
  pose proof (lenZ_nonneg os). destruct (exec_counts o m rs rs1 Ho ltac:(lia) Hm Hs) as (m1 & -> & Hm1). cbn [mbind option_bind].
  apply (IH m1 rs1); [|done|done]. destruct o as [r|r]; cbn [spec] in Hs.
  - injection Hs as <-. rewrite lenZ_cons. lia.
  - pose proof (remove_range_covers r rs rs1 0 Hs). lia.
Qed.

Lemma covers_pos rs page : 0 < covers ps rs page <-> exists r, r ∈ rs /\ touches ps r page.
Proof.
  induction rs as [|r rs IH]; [split; [done|]; intros (r & Hr & _); by apply not_elem_of_nil in Hr|].
  rewrite covers_cons. setoid_rewrite elem_of_cons. pose proof (covers_range rs page). destruct (decide (touches ps r page)).
  - split; [|lia]. intros _. exists r. auto.
  - rewrite Z.add_0_r, IH. naive_solver.
Qed.

End Pages.

(** C15 [LockedPageManagerBase] implements stacking page locks.  As long as only locked
    ranges are unlocked, and no range reaches into the last page of the address space, no
    assertion fails and every loop ends; the operating system has locked exactly the pages in
    which a byte of a locked range lies, and each page is counted once per such range. *)
Theorem LockedPages_refine k os rs :
  0 <= k < 64 -> Forall (fun o => valid (2 ^ k) (op_range o)) os -> lenZ os < 2 ^ 31 ->
  spec_all os [] = Some rs ->
  exists m0 m, new_manager (2 ^ k) = Some m0 /\ exec_all os m0 = Some m /\
    (forall page, page ∈ os_locked (calls m) <-> exists r, r ∈ rs /\ touches (2 ^ k) r page) /\
    (forall page, default 0 (histogram m !! page) = covers (2 ^ k) rs page) /\
    (rs = [] -> GetLockedPageCount m = 0).
Proof.
  intros Hk Hv Hlen Hspec. pose proof (ps_range k Hk).
  assert (Hnew : new_manager (2 ^ k) = Some (mkManager (2 ^ k) ∅ [])).
  { unfold new_manager. rewrite wrapu_small by (unfold in_u; lia).
    replace (2 ^ k - 1) with (Z.ones k) by (rewrite Z.ones_equiv; lia).
    by rewrite Z.land_ones, Z_mod_same_full by lia. }
  destruct (exec_all_counts k Hk os (mkManager (2 ^ k) ∅ []) [] rs Hv ltac:(done) ltac:(by split_and!) Hspec) as (m & Hm & Hps & Hos & Hf).
  exists (mkManager (2 ^ k) ∅ []), m. split; [done|]. split; [done|].
  assert (Hent : forall page, default 0 (histogram m !! page) = covers (2 ^ k) rs page).
  { intros page. rewrite Hf. unfold entry. by destruct (Z.eqb_spec (covers (2 ^ k) rs page) 0). }
  split; [|split; [done|]].
  - intros page. rewrite Hos, elem_of_dom, Hf, <-(covers_pos k Hk). unfold entry. pose proof (covers_range k rs page).
    destruct (Z.eqb_spec (covers (2 ^ k) rs page) 0); (split; [|]); [by intros [? ?]|lia|lia|by eexists].
  - intros ->. unfold GetLockedPageCount. replace (histogram m) with (∅ : gmap Z Z); [done|].
    symmetry. apply map_empty. intros page. by rewrite Hf.
Qed.

Module Examples.
(** Two ranges that share a page of 4096 bytes; the first is unlocked again. *)
Lemma LockedPages_refine_witness :
  exists m0 m, new_manager 4096 = Some m0 /\
    exec_all [OLock (4000, 200); OLock (4096, 10); OUnlock (4000, 200)] m0 = Some m /\
    (0 ∉ os_locked (calls m)) /\ 4096 ∈ os_locked (calls m).
Proof.
  destruct (LockedPages_refine 12 [OLock (4000, 200); OLock (4096, 10); OUnlock (4000, 200)] [(4096, 10)])
    as (m0 & m & Hn & Hm & Hos & _).
  - split; [discriminate|reflexivity].
  - repeat constructor; discriminate.
  - reflexivity.
  - reflexivity.
  - exists m0, m. split; [exact Hn|]. split; [exact Hm|]. split.
    + intros Hin. apply Hos in Hin as (r & Hr & _ & _ & _ & Hlo). apply list_elem_of_singleton in Hr as ->. cbn in Hlo. lia.
    + apply Hos. exists (4096, 10). split; [by left|]. repeat split; discriminate.
Defined.
End Examples.
