(* ===== verification/Base58.v ===== *)
(** Base-58 texts and what they encode: src/base58.h.

    [EncodeBase58]/[DecodeBase58] over the big numbers of BigNum.v, the checksummed texts, and
    the objects stored in them: [CBase58Data], addresses and secret keys.  The double SHA-256
    ([Hash]) is a parameter; a [uint160] is the number whose 20 bytes, least significant first,
    the object holds.  A [char*] is the list of its characters without the NUL. *)

From S2P Require Import Prelude Digits BigNum Key.

Definition pszBase58 : bytes := lit "123456789ABCDEFGHJKLMNPQRSTUVWXYZabcdefghijkmnopqrstuvwxyz".

(** [strchr]: the index of the first occurrence. *)
Fixpoint strchr (s : bytes) (c : Z) : option Z :=
  match s with
  | [] => None
  | x :: s' => if x =? c then Some 0 else Z.succ <$> strchr s' c
  end.

(** The characters equal to [c] in front of [s]. *)
Fixpoint count_front (c : Z) (s : bytes) : nat :=
  match s with x :: s' => if x =? c then S (count_front c s') else 0%nat | [] => 0%nat end.

Module Base58.
Section OpenSSL.
Context `{OpenSSL}.

Definition EncodeBase58 (pch : bytes) : option bytes :=
  let vchTmp := rev pch ++ [0] in
  let bn := CBigNum.setvch vchTmp in
  str ← CBigNum.digits_loop pszBase58 (CBigNum.rounds bn) (CBigNum.of_int 58) bn;
  let str := str ++ replicate (count_front 0 pch) pszBase58.[0] in
  Some (rev str).

(** The loop over the characters; [None]: the text is refused. *)
Fixpoint Decode_loop (p : bytes) (bn : BN) : option BN :=
  match p with
  | [] => Some bn
  | c :: p' =>
    match strchr pszBase58 c with
    | None => match CBigNum.skip_space p with [] => Some bn | _ => None end
    | Some d =>
      Decode_loop p' (CBigNum.add (BN_mul bn (CBigNum.of_int 58)) (CBigNum.setulong d))
    end
  end.

(** The sign byte [getvch] leaves at the end. *)
Definition trim_sign (vch : bytes) : bytes :=
  if (2 <=? lenZ vch) && (vch.[lenZ vch - 1] =? 0) && (128 <=? vch.[lenZ vch - 2])
  then take (length vch - 1) vch else vch.

Definition DecodeBase58 (psz : bytes) : option bytes :=
  let psz := CBigNum.skip_space psz in
  bn ← Decode_loop psz (CBigNum.of_int 0);
  let vchTmp := trim_sign (CBigNum.getvch bn) in
  let nLeadingZeros := count_front pszBase58.[0] psz in
  Some (replicate nLeadingZeros 0 ++ rev vchTmp).

Section Hash.
Context (Hash : bytes -> Z).

(** The first four bytes of the hash object. *)
Definition checksum (v : bytes) : bytes := le_digits 256 4 (Hash v).

Definition EncodeBase58Check (vchIn : bytes) : option bytes :=
  EncodeBase58 (vchIn ++ checksum vchIn).

Definition DecodeBase58Check (psz : bytes) : option bytes :=
  vchRet ← DecodeBase58 psz;
  if lenZ vchRet <? 4 then None
  else
    let body := take (length vchRet - 4) vchRet in
    match memcmp (checksum body) (drop (length vchRet - 4) vchRet) with
    | Eq => Some body
    | _ => None
    end.

End Hash.
End OpenSSL.
End Base58.

(** ** The objects *)

Record CBase58Data := mkB58 { nVersion : Z; vchData : bytes }.

#[global] Instance CBase58Data_eq_dec : EqDecision CBase58Data.
Proof. solve_decision. Defined.

(** [operator<] of vectors: lexicographic, a prefix first. *)
Fixpoint lex_compare (a b : bytes) : comparison :=
  match a, b with
  | [], [] => Eq
  | [], _ => Lt
  | _, [] => Gt
  | x :: a', y :: b' => match x ?= y with Eq => lex_compare a' b' | c => c end
  end.

Module CBase58Data.
Section Hash.
Context `{OpenSSL} (Hash : bytes -> Z).

Definition new : CBase58Data := mkB58 0 [].
Definition SetData (nVersionIn : Z) (pdata : bytes) : CBase58Data := mkB58 (u8 nVersionIn) pdata.

(** The result and the object afterwards. *)
Definition SetString (psz : bytes) : bool * CBase58Data :=
  match default [] (Base58.DecodeBase58Check Hash psz) with
  | [] => (false, mkB58 0 [])
  | v :: r => (true, mkB58 v r)
  end.

Definition ToString (d : CBase58Data) : option bytes :=
  Base58.EncodeBase58Check Hash (nVersion d :: vchData d).

Definition CompareTo (a b : CBase58Data) : Z :=
  if nVersion a <? nVersion b then -1
  else if nVersion b <? nVersion a then 1
  else match lex_compare (vchData a) (vchData b) with Lt => -1 | Gt => 1 | Eq => 0 end.

Definition eqb (a b : CBase58Data) : bool := CompareTo a b =? 0.
Definition leb (a b : CBase58Data) : bool := CompareTo a b <=? 0.
Definition geb (a b : CBase58Data) : bool := 0 <=? CompareTo a b.
Definition ltb (a b : CBase58Data) : bool := CompareTo a b <? 0.
Definition gtb (a b : CBase58Data) : bool := 0 <? CompareTo a b.
End Hash.
End CBase58Data.

(** [CTxDestination]: a key hash, a script hash or nothing. *)
Inductive CTxDestination := DKeyID (id : Z) | DScriptID (id : Z) | CNoDestination.

#[global] Instance CTxDestination_eq_dec : EqDecision CTxDestination.
Proof. solve_decision. Defined.

Module CBitcoinAddress.

Definition PUBKEY_ADDRESS : Z := 0.
Definition SCRIPT_ADDRESS : Z := 5.
Definition PUBKEY_ADDRESS_TEST : Z := 111.
Definition SCRIPT_ADDRESS_TEST : Z := 196.

Definition id_bytes (id : Z) : bytes := le_digits 256 20 id.

Section Net.
Context (fTestNet : bool).

Definition Set_key (id : Z) : CBase58Data :=
  CBase58Data.SetData (if fTestNet then PUBKEY_ADDRESS_TEST else PUBKEY_ADDRESS) (id_bytes id).
Definition Set_script (id : Z) : CBase58Data :=
  CBase58Data.SetData (if fTestNet then SCRIPT_ADDRESS_TEST else SCRIPT_ADDRESS) (id_bytes id).

(** The visitor's result and the object afterwards. *)
Definition Set_ (a : CBase58Data) (dest : CTxDestination) : bool * CBase58Data :=
  match dest with
  | DKeyID id => (true, Set_key id)
  | DScriptID id => (true, Set_script id)
  | CNoDestination => (false, a)
  end.

Definition IsValid (a : CBase58Data) : bool :=
  let check (nExpectedSize : Z) (fExpectTestNet : bool) :=
    Bool.eqb fExpectTestNet fTestNet && (lenZ (vchData a) =? nExpectedSize) in
  let v := nVersion a in
  if v =? PUBKEY_ADDRESS then check 20 false
  else if v =? SCRIPT_ADDRESS then check 20 false
  else if v =? PUBKEY_ADDRESS_TEST then check 20 true
  else if v =? SCRIPT_ADDRESS_TEST then check 20 true
  else false.

Definition id_of (a : CBase58Data) : Z := le_val 256 (take 20 (vchData a)).

Definition Get (a : CBase58Data) : CTxDestination :=
  if negb (IsValid a) then CNoDestination
  else
    let v := nVersion a in
    if (v =? PUBKEY_ADDRESS) || (v =? PUBKEY_ADDRESS_TEST) then DKeyID (id_of a)
    else if (v =? SCRIPT_ADDRESS) || (v =? SCRIPT_ADDRESS_TEST) then DScriptID (id_of a)
    else CNoDestination.

Definition GetKeyID (a : CBase58Data) : option Z :=
  if negb (IsValid a) then None
  else
    let v := nVersion a in
    if (v =? PUBKEY_ADDRESS) || (v =? PUBKEY_ADDRESS_TEST) then Some (id_of a) else None.

Definition IsScript (a : CBase58Data) : bool :=
  if negb (IsValid a) then false
  else (nVersion a =? SCRIPT_ADDRESS) || (nVersion a =? SCRIPT_ADDRESS_TEST).
End Net.
End CBitcoinAddress.

Module CBitcoinSecret.
Section Net.
Context (fTestNet : bool).

(** [None]: the assertion that the key is valid fails. *)
Definition SetKey (k : CKey) : option CBase58Data :=
  if CKey.IsValid k then
    let d := CBase58Data.SetData (if fTestNet then 239 else 128) (CKey.data k) in
    Some (if CKey.IsCompressed k then mkB58 (nVersion d) (vchData d ++ [1]) else d)
  else None.

(** [ret.Set(&vchData[0], &vchData[32], ...)], on the object [ret]. *)
Definition GetKey (ret : CKey) (d : CBase58Data) : CKey :=
  CKey.Set_ ret (take 32 (vchData d)) ((32 <? lenZ (vchData d)) && ((vchData d).[32] =? 1)).

Definition IsValid (d : CBase58Data) : bool :=
  let check (fExpectTestNet : bool) :=
    Bool.eqb fExpectTestNet fTestNet
    && ((lenZ (vchData d) =? 32) || ((lenZ (vchData d) =? 33) && ((vchData d).[32] =? 1))) in
  if nVersion d =? 128 then check false
  else if nVersion d =? 239 then check true
  else false.

Definition SetString `{OpenSSL} (Hash : bytes -> Z) (pszSecret : bytes) : bool * CBase58Data :=
  let '(ok, d) := CBase58Data.SetString Hash pszSecret in (ok && IsValid d, d).
End Net.
End CBitcoinSecret.
