(* ===== verification/Base58Thms.v ===== *)
(** Theorems about base58.h: which texts [DecodeBase58] and [DecodeBase58Check] accept and what
    they return, and the round trip of addresses through their texts. *)

From S2P Require Import Prelude Digits BigNum BigNumThms Key Base58.

Import Base58.

Notation alpha := (nthZ 0 pszBase58).

(** ** Leading zeros *)

Lemma count_front_app c n l :
  match l with x :: _ => x <> c | [] => True end -> count_front c (replicate n c ++ l) = n.
Proof.
  intros Hl. induction n as [|n IH]; cbn [replicate app count_front].
  - destruct l as [|x l]; [done|]. cbn. by rewrite (proj2 (Z.eqb_neq x c) Hl).
  - by rewrite Z.eqb_refl, IH.
Qed.

Lemma zero_split l : exists k, l = replicate (count_front 0 l) 0 ++ k /\ head_ok k.
Proof.
  induction l as [|x l (k & Hl & Hk)]; [by exists []|]. cbn [count_front].
  destruct (Z.eqb_spec x 0) as [->|Hx]; [|by exists (x :: l)].
  exists k. split; [|done]. cbn [replicate app]. by rewrite <-Hl.
Qed.

Lemma map_repl {A B} (f : A -> B) n x : map f (replicate n x) = replicate n (f x).
Proof. induction n as [|n IH]; [done|]. cbn. by rewrite IH. Qed.
Lemma rev_repl {A} n (x : A) : rev (replicate n x) = replicate n x.
Proof. induction n as [|n IH]; [done|]. cbn. by rewrite IH, <-replicate_cons_app. Qed.

(** ** The alphabet *)

Lemma alpha_facts d : 0 <= d < 58 ->
  strchr pszBase58 (alpha d) = Some d /\ isspace (alpha d) = false /\ (alpha d = alpha 0 <-> d = 0).
Proof.
  intros Hd.
  assert (Hall : forall z, 0 <= z < 58 ->
    bool_decide (strchr pszBase58 (alpha z) = Some z) && negb (isspace (alpha z))
      && Bool.eqb (alpha z =? alpha 0) (z =? 0) = true) by (by apply (range_forallb 58)).
  specialize (Hall d Hd). rewrite !andb_true_iff in Hall. destruct Hall as ((H1 & H2) & H3).
  apply bool_decide_eq_true in H1. apply negb_true_iff in H2. apply Bool.eqb_prop in H3.
  split_and!; [done|done|]. rewrite <-!Z.eqb_eq, H3. done.
Qed.

Lemma strchr_Some s c d : strchr s c = Some d -> 0 <= d < lenZ s /\ s.[d] = c.
Proof.
  revert d. induction s as [|x s IH]; intros d; cbn [strchr]; [done|]. rewrite lenZ_cons.
  pose proof (lenZ_nonneg s). destruct (Z.eqb_spec x c) as [->|Hx].
  - intros [= <-]. split; [lia|done].
  - destruct (strchr s c) as [e|]; [|done]. intros [= <-]. destruct (IH e eq_refl) as [He <-].
    split; [lia|]. rewrite nthZ_cons by lia. f_equal. lia.
Qed.

Definition spaces (ws : bytes) : Prop := Forall (fun c => isspace c = true) ws.

Lemma strchr_space c : isspace c = true -> strchr pszBase58 c = None.
Proof.
  intros Hc. destruct (strchr pszBase58 c) as [d|] eqn:E; [|done].
  apply strchr_Some in E as [Hd <-]. change (lenZ pszBase58) with 58 in Hd.
  destruct (alpha_facts d Hd) as (_ & Hs & _). by rewrite Hs in Hc.
Qed.

Lemma skip_spaces ws s : spaces ws -> CBigNum.skip_space (ws ++ s) = CBigNum.skip_space s.
Proof. induction 1 as [|c ws Hc Hws IH]; [done|]. cbn [app CBigNum.skip_space]. by rewrite Hc. Qed.

Lemma skip_split s : exists ws, spaces ws /\ s = ws ++ CBigNum.skip_space s.
Proof.
  induction s as [|c s (ws & Hws & Hs)]; [exists []; split; [apply List.Forall_nil|done]|].
  cbn [CBigNum.skip_space]. destruct (isspace c) eqn:Hc.
  - exists (c :: ws). split; [by apply Forall_cons|]. cbn. by rewrite <-Hs.
  - exists []. split; [apply List.Forall_nil|done].
Qed.

Lemma skip_nil s : CBigNum.skip_space s = [] <-> spaces s.
Proof.
  split.
  - intros Hs. destruct (skip_split s) as (ws & Hws & E). rewrite Hs, app_nil_r in E. by subst.
  - intros Hs. by rewrite <-(app_nil_r s), skip_spaces.
Qed.

Lemma skip_digits ds ws : digits_ok 58 ds -> spaces ws ->
  CBigNum.skip_space (map alpha ds ++ ws) = if bool_decide (ds = []) then [] else map alpha ds ++ ws.
Proof.
  intros [|d ds' Hd _] Hws; [by apply skip_nil|]. rewrite bool_decide_eq_false_2 by done.
  cbn [map app CBigNum.skip_space]. by destruct (alpha_facts d Hd) as (_ & -> & _).
Qed.

Section OpenSSL.
Context `{OpenSSL}.

(** ** Decoding *)

Lemma Decode_loop_digits ds ws bn : digits_ok 58 ds -> spaces ws ->
  exists bn', Decode_loop (map alpha ds ++ ws) bn = Some bn' /\
              BN_value bn' = BN_value bn * 58 ^ lenZ ds + be_val 58 ds.
Proof.
  intros Hok Hws. revert bn. induction Hok as [|d ds Hd Hok IH]; intros bn; cbn [map app].
  - exists bn. change (lenZ (@nil Z)) with 0. split; [|unfold be_val; cbn; lia].
    destruct Hws as [|c ws Hc Hws]; [done|]. cbn [Decode_loop]. rewrite (strchr_space c Hc).
    by rewrite (proj2 (skip_nil (c :: ws))) by (by apply Forall_cons).
  - cbn [Decode_loop]. destruct (alpha_facts d Hd) as (-> & _ & _).
    destruct (IH (CBigNum.add (BN_mul bn (CBigNum.of_int 58)) (CBigNum.setulong d))) as (bn' & -> & Hv).
    exists bn'. split; [done|]. rewrite Hv. unfold CBigNum.add, CBigNum.setulong.
    rewrite BN_add_value, BN_mul_value, BN_set_word_value, (of_int_eq 58), be_val_cons, lenZ_cons by (unfold in_u, in_s; lia).
    rewrite Z.pow_add_r by (try apply lenZ_nonneg; lia). change (58 ^ 1) with 58. ring.
Qed.

Lemma Decode_loop_accept p bn bn' : Decode_loop p bn = Some bn' ->
  exists ds ws, p = map alpha ds ++ ws /\ digits_ok 58 ds /\ spaces ws.
Proof.
  revert bn. induction p as [|c p IH]; intros bn; cbn [Decode_loop].
  { intros _. exists [], []. split_and!; [done|apply List.Forall_nil|apply List.Forall_nil]. }
  destruct (strchr pszBase58 c) as [d|] eqn:E.
  - intros (ds & ws & -> & Hok & Hws)%IH. apply strchr_Some in E as [Hd <-].
    exists (d :: ds), ws. split_and!; [done|by apply Forall_cons|done].
  - destruct (CBigNum.skip_space (c :: p)) eqn:Hs; [|done]. intros _. exists [], (c :: p).
    split_and!; [done|apply List.Forall_nil|by apply skip_nil].
Qed.

Lemma trim_sign_rev l :
  trim_sign (rev l) =
    rev (match l with c :: d :: r => if (c =? 0) && (128 <=? d) then d :: r else l | _ => l end).
Proof.
  unfold trim_sign. destruct l as [|c [|d r]]; [done..|]. cbn [rev].
  assert (Hl : lenZ ((rev r ++ [d]) ++ [c]) = lenZ (rev r) + 2) by (rewrite !lenZ_app; change (lenZ [d]) with 1; change (lenZ [c]) with 1; lia).
  rewrite Hl. pose proof (lenZ_nonneg (rev r)).
  assert (E1 : ((rev r ++ [d]) ++ [c]).[lenZ (rev r) + 2 - 1] = c).
  { rewrite nthZ_app_r by (rewrite lenZ_app; change (lenZ [d]) with 1; lia).
    rewrite lenZ_app. change (lenZ [d]) with 1. by replace (lenZ (rev r) + 2 - 1 - (lenZ (rev r) + 1)) with 0 by lia. }
  assert (E2 : ((rev r ++ [d]) ++ [c]).[lenZ (rev r) + 2 - 2] = d).
  { rewrite <-app_assoc, nthZ_app_r by lia. by replace (lenZ (rev r) + 2 - 2 - lenZ (rev r)) with 0 by lia. }
  rewrite E1, E2. destruct (Z.leb_spec 2 (lenZ (rev r) + 2)); [cbn [andb]|lia].
  destruct ((c =? 0) && (128 <=? d)); [|done].
  rewrite (length_app _ [c]). cbn [length]. rewrite Nat.add_sub. apply take_app_length.
Qed.

(** The bytes of a number that is not negative, without zeros in front. *)
Lemma getvch_digits a : 0 <= BN_value a ->
  exists ds, rev (trim_sign (CBigNum.getvch a)) = ds /\ digits_ok 256 ds /\ head_ok ds /\ be_val 256 ds = BN_value a.
Proof.
  intros Ha. destruct (getvch_body a) as (Hb & Hm & Hv).
  set (body := rev (CBigNum.getvch a)) in *.
  assert (Hok : is_bytes body) by (by apply (digits_ok_rev 256)).
  replace (CBigNum.getvch a) with (rev body) by (apply rev_involutive).
  rewrite trim_sign_rev, rev_involutive. eexists. split; [done|].
  destruct body as [|c r]; [split_and!; [apply List.Forall_nil|done|by rewrite <-Hv]|].
  pose proof (minimal_bounds (c :: r) Hok Hm ltac:(done)) as Hbd. rewrite Hv in Hbd.
  assert (Hpos : 0 < BN_value a).
  { assert (0 < 256 ^ (lenZ (c :: r) - 1)); [|lia].
    apply Z.pow_pos_nonneg; [lia|]. rewrite lenZ_cons. pose proof (lenZ_nonneg r). lia. }
  destruct (mpi_body_abs (c :: r) Hok) as (_ & _ & Hp). rewrite Hv in Hp.
  destruct (Hp Hpos) as (? & ? & [= <- <-] & Hc). unfold mpi_body_val in Hv.
  destruct (Z.leb_spec 128 c); [lia|].
  pose proof Hok as [Hcb Hr]%is_bytes_cons. unfold in_u in Hcb.
  destruct (Z.eqb_spec c 0) as [->|Hc0].
  - rewrite be_val_cons, Z.mul_0_l, Z.add_0_l in Hv by lia. destruct r as [|d r']; [done|].
    cbn [mpi_minimal] in Hm. specialize (Hm eq_refl). destruct (Z.leb_spec 128 d); [cbn [andb]|lia].
    split_and!; [done| |done]. cbn. lia.
  - cbn [andb]. replace (match r with [] => c :: r | d :: r' => c :: r end) with (c :: r) by (by destruct r).
    split_and!; [done|done|done].
Qed.

Lemma Decode_split ws0 ds ws : spaces ws0 -> digits_ok 58 ds -> spaces ws ->
  exists d256, DecodeBase58 (ws0 ++ map alpha ds ++ ws) = Some (replicate (count_front 0 ds) 0 ++ d256) /\
    digits_ok 256 d256 /\ head_ok d256 /\ be_val 256 d256 = be_val 58 ds.
Proof.
  intros Hws0 Hok Hws. unfold DecodeBase58. rewrite skip_spaces, skip_digits by done.
  set (psz := if bool_decide _ then _ else _).
  assert (Hpsz : exists ws', psz = map alpha ds ++ ws' /\ spaces ws').
  { unfold psz. case_bool_decide as Hd; [subst; exists []; split; [done|apply List.Forall_nil]|by exists ws]. }
  destruct Hpsz as (ws' & -> & Hws').
  destruct (Decode_loop_digits ds ws' (CBigNum.of_int 0) Hok Hws') as (bn & -> & Hv).
  rewrite of_int_eq, Z.mul_0_l, Z.add_0_l in Hv by done. cbn [mbind option_bind].
  pose proof (be_val_range 58 ltac:(lia) ds Hok).
  destruct (getvch_digits bn ltac:(lia)) as (d256 & Hd & Hok' & Hh & Hv'). rewrite Hd. rewrite Hv in Hv'. exists d256.
  split_and!; [|done|done|done]. do 2 f_equal. f_equal.
  destruct (zero_split ds) as (k & Hds & Hk). set (z := count_front 0 ds) in *. rewrite Hds, map_app, map_repl, <-app_assoc.
  apply count_front_app. assert (Hkok : digits_ok 58 k) by (rewrite Hds in Hok; by apply Forall_app in Hok as [_ ?]).
  destruct k as [|d k]; cbn.
  - destruct Hws' as [|c ws' Hc _]; [done|]. intros ->. done.
  - apply Forall_cons in Hkok as [Hd0 _]. intros E. cbn in Hk. by apply (alpha_facts d Hd0) in E.
Qed.

(** ** Encoding *)

Lemma Encode_split v : is_bytes v -> lenZ v < 2 ^ 32 - 1 ->
  exists d58, EncodeBase58 v = Some (map alpha (replicate (count_front 0 v) 0 ++ d58)) /\
    digits_ok 58 d58 /\ head_ok d58 /\ be_val 58 d58 = be_val 256 v.
Proof.
  intros Hb Hl. unfold EncodeBase58.
  assert (Hbn : BN_value (CBigNum.setvch (rev v ++ [0])) = be_val 256 v).
  { rewrite setvch_value.
    - rewrite rev_app_distr, rev_involutive. cbn [rev app mpi_body_val]. cbn [Z.leb Z.compare]. rewrite be_val_cons; lia.
    - apply is_bytes_app. split; [by apply (digits_ok_rev 256)|]. apply is_bytes_cons. split; [unfold in_u; lia|apply is_bytes_nil].
    - rewrite lenZ_app. unfold lenZ in *. rewrite length_rev. cbn. lia. }
  pose proof (be_val_range 256 ltac:(lia) v Hb).
  destruct (digits_of pszBase58 (CBigNum.of_int 58) (CBigNum.setvch (rev v ++ [0]))) as (ds & -> & Hok & Hv & Hh).
  { rewrite of_int_eq by (unfold in_s; lia). lia. }
  { lia. }
  rewrite of_int_eq in Hok, Hv by (unfold in_s; lia). cbn [mbind option_bind]. exists ds.
  rewrite Hv, Hbn. split_and!; [|done|done|done]. f_equal.
  by rewrite rev_app_distr, map_app, map_rev, rev_involutive, map_repl, rev_repl.
Qed.

Definition spaced (s e : bytes) : Prop := exists ws ws', spaces ws /\ spaces ws' /\ s = ws ++ e ++ ws'.

Lemma Decode_exact s v : is_bytes v -> lenZ v < 2 ^ 32 - 1 ->
  (DecodeBase58 s = Some v <-> exists e, EncodeBase58 v = Some e /\ spaced s e).
Proof.
  intros Hb Hl. destruct (Encode_split v Hb Hl) as (d58 & He & Hok & Hh & Hv). split.
  - intros Hd. rewrite He. eexists. split; [done|].
    assert (Hs : exists ws ds ws', spaces ws /\ digits_ok 58 ds /\ spaces ws' /\ s = ws ++ map alpha ds ++ ws').
    { destruct (skip_split s) as (ws & Hws & Es). unfold DecodeBase58 in Hd.
      destruct (Decode_loop _ _) as [bn|] eqn:Hloop; [|done].
      apply Decode_loop_accept in Hloop as (ds & ws' & Ep & Hds & Hws').
      exists ws, ds, ws'. split_and!; [done|done|done|]. by rewrite <-Ep. }
    destruct Hs as (ws & ds & ws' & Hws & Hds & Hws' & ->).
    destruct (Decode_split ws ds ws' Hws Hds Hws') as (d256 & Hd' & Hok' & Hh' & Hv').
    rewrite Hd' in Hd. injection Hd as <-. exists ws, ws'. split_and!; [done|done|]. do 3 f_equal.
    destruct (zero_split ds) as (k & Hk & Hhk).
    rewrite count_front_app by (by destruct d256). rewrite Hk at 1. f_equal.
    apply (be_val_head_inj 58); try done; [by rewrite Hk in Hds; apply Forall_app in Hds as [_ ?]|].
    rewrite Hv, be_val_zeros, Hv' by lia. rewrite Hk at 1. by rewrite be_val_zeros.
  - rewrite He. intros (e & [= <-] & ws & ws' & Hws & Hws' & ->).
    assert (Hds : digits_ok 58 (replicate (count_front 0 v) 0 ++ d58)).
    { apply Forall_app. split; [|done]. apply Forall_replicate. lia. }
    destruct (Decode_split ws _ ws' Hws Hds Hws') as (d256 & -> & Hok' & Hh' & Hv'). f_equal.
    rewrite count_front_app by (by destruct d58).
    destruct (zero_split v) as (k & Hk & Hhk). rewrite Hk at 2. f_equal.
    apply (be_val_head_inj 256); try done; [by rewrite Hk in Hb; apply is_bytes_app in Hb as [_ ?]|].
    rewrite Hv', be_val_zeros, Hv by lia. rewrite Hk at 1. by rewrite be_val_zeros.
Qed.

(** [DecodeBase58] accepts exactly the texts [EncodeBase58] produces, with white space
    around them, and returns the bytes that were encoded; encoding always ends. *)
Theorem DecodeBase58_exact v :
  is_bytes v -> lenZ v < 2 ^ 32 - 1 ->
  (exists e, EncodeBase58 v = Some e) /\
  (forall s, DecodeBase58 s = Some v <-> exists e, EncodeBase58 v = Some e /\ spaced s e).
Proof.
  intros Hb Hl. split; [|intros s; by apply Decode_exact].
  destruct (Encode_split v Hb Hl) as (d58 & He & _). by eexists.
Qed.

(** ** Checksums *)

Section Hash.
Context (Hash : bytes -> Z).

Lemma checksum_ok v : is_bytes (checksum Hash v) /\ length (checksum Hash v) = 4%nat.
Proof. split; [apply (le_digits_ok 256); lia|apply le_digits_length]. Qed.

Lemma memcmp_Eq l k : is_bytes l -> is_bytes k -> length l = length k -> (memcmp l k = Eq <-> l = k).
Proof.
  intros Hl Hk Hlen. rewrite memcmp_val by done. rewrite Z.compare_eq_iff. split; [|by intros ->].
  by apply be_val_inj.
Qed.

Lemma Decode_bytes s v : DecodeBase58 s = Some v -> is_bytes v.
Proof.
  intros Hd. destruct (skip_split s) as (ws & Hws & Es). pose proof Hd as Hd'. unfold DecodeBase58 in Hd.
  destruct (Decode_loop _ _) as [bn|] eqn:Hloop; [|done].
  apply Decode_loop_accept in Hloop as (ds & ws' & Ep & Hds & Hws').
  destruct (Decode_split ws ds ws' Hws Hds Hws') as (d256 & Hs & Hok & _).
  rewrite <-Ep, <-Es, Hd' in Hs. injection Hs as ->. apply is_bytes_app.
  split; [|done]. apply Forall_replicate. unfold in_u. lia.
Qed.

Lemma DecodeCheck_iff s v : lenZ v < 2 ^ 32 - 5 ->
  (DecodeBase58Check Hash s = Some v <-> DecodeBase58 s = Some (v ++ checksum Hash v)).
Proof.
  intros Hl. destruct (checksum_ok v) as [Hcb Hcl]. unfold DecodeBase58Check. split.
  - destruct (DecodeBase58 s) as [w|] eqn:Hd; [|done]. cbn [mbind option_bind].
    apply Decode_bytes in Hd. destruct (Z.ltb_spec (lenZ w) 4) as [|Hw]; [done|].
    set (body := take (length w - 4) w) in *. destruct (memcmp _ _) eqn:Hm; try done. intros [= <-].
    apply memcmp_Eq in Hm; [|apply checksum_ok|by apply Forall_drop|].
    + unfold body in *. rewrite Hm. by rewrite take_drop.
    + rewrite length_drop. destruct (checksum_ok body) as [_ ->]. unfold lenZ in Hw. lia.
  - intros ->. cbn [mbind option_bind].
    rewrite lenZ_app. unfold lenZ at 2. rewrite Hcl. pose proof (lenZ_nonneg v).
    destruct (Z.ltb_spec (lenZ v + Z.of_nat 4) 4); [lia|].
    rewrite length_app, Hcl, Nat.add_sub, take_app_length, drop_app_length.
    by rewrite (proj2 (memcmp_Eq _ _ Hcb Hcb eq_refl)).
Qed.

Lemma DecodeCheck_exact s v : is_bytes v -> lenZ v < 2 ^ 32 - 5 ->
  (DecodeBase58Check Hash s = Some v <-> exists e, EncodeBase58Check Hash v = Some e /\ spaced s e).
Proof.
  intros Hb Hl. rewrite DecodeCheck_iff by done. destruct (checksum_ok v) as [Hcb Hcl].
  unfold EncodeBase58Check. apply Decode_exact; [by apply is_bytes_app|].
  rewrite lenZ_app. unfold lenZ at 2. rewrite Hcl. lia.
Qed.

Lemma EncodeCheck_total v : is_bytes v -> lenZ v < 2 ^ 32 - 5 -> exists e, EncodeBase58Check Hash v = Some e.
Proof.
  intros Hb Hl. destruct (checksum_ok v) as [Hcb Hcl]. unfold EncodeBase58Check.
  destruct (Encode_split (v ++ checksum Hash v)) as (d58 & He & _); [by apply is_bytes_app| |by eexists].
  rewrite lenZ_app. unfold lenZ at 2. rewrite Hcl. lia.
Qed.

(** [DecodeBase58Check] accepts exactly the texts of [EncodeBase58Check], with white
    space around them, whatever the hash function, and returns the bytes that were encoded. *)
Theorem DecodeBase58Check_exact v :
  is_bytes v -> lenZ v < 2 ^ 32 - 5 ->
  (exists e, EncodeBase58Check Hash v = Some e) /\
  (forall s, DecodeBase58Check Hash s = Some v <-> exists e, EncodeBase58Check Hash v = Some e /\ spaced s e).
Proof. intros Hb Hl. split; [by apply EncodeCheck_total|]. intros s. by apply DecodeCheck_exact. Qed.

(** ** Addresses *)

Lemma SetString_ToString d :
  in_u 8 (nVersion d) -> is_bytes (vchData d) -> lenZ (vchData d) < 2 ^ 31 ->
  exists str, CBase58Data.ToString Hash d = Some str /\ CBase58Data.SetString Hash str = (true, d).
Proof.
  intros Hv Hd Hl. unfold CBase58Data.ToString, CBase58Data.SetString.
  assert (Hb : is_bytes (nVersion d :: vchData d)) by (by apply is_bytes_cons).
  assert (Hlen : lenZ (nVersion d :: vchData d) < 2 ^ 32 - 5) by (rewrite lenZ_cons; lia).
  destruct (EncodeCheck_total _ Hb Hlen) as [e He]. exists e. split; [done|].
  assert (Hdec : DecodeBase58Check Hash e = Some (nVersion d :: vchData d)).
  { apply DecodeCheck_exact; [done|done|]. exists e. split; [done|]. exists [], [].
    split_and!; [apply List.Forall_nil|apply List.Forall_nil|by rewrite app_nil_r]. }
  rewrite Hdec. cbn. by destruct d.
Qed.

(** The hashes an address can hold. *)
Definition dest_ok (dest : CTxDestination) : Prop :=
  match dest with DKeyID id | DScriptID id => in_u 160 id | CNoDestination => False end.

Lemma id_roundtrip ver id : in_u 160 id ->
  CBitcoinAddress.id_of (CBase58Data.SetData ver (CBitcoinAddress.id_bytes id)) = id.
Proof.
  intros Hid. unfold CBitcoinAddress.id_of, CBitcoinAddress.id_bytes. cbn [vchData CBase58Data.SetData].
  rewrite take_ge by (rewrite le_digits_length; lia). rewrite le_val_digits by lia. by apply Z.mod_small.
Qed.

(** The text of the address of a key hash or script hash is read back as a valid address
    of the same destination on the same network, and is not valid on the other network. *)
Theorem CBitcoinAddress_roundtrip fTestNet a dest :
  dest_ok dest ->
  let addr := (CBitcoinAddress.Set_ fTestNet a dest).2 in
  exists str, CBase58Data.ToString Hash addr = Some str /\
    CBase58Data.SetString Hash str = (true, addr) /\
    CBitcoinAddress.Get fTestNet addr = dest /\
    CBitcoinAddress.IsScript fTestNet addr = (match dest with DScriptID _ => true | _ => false end) /\
    CBitcoinAddress.GetKeyID fTestNet addr = (match dest with DKeyID id => Some id | _ => None end) /\
    CBitcoinAddress.Get (negb fTestNet) addr = CNoDestination.
Proof.
  intros Hd addr.
  assert (Ha : exists ver id, addr = mkB58 ver (CBitcoinAddress.id_bytes id) /\ in_u 160 id /\
    ((dest = DKeyID id /\ ver = if fTestNet then 111 else 0) \/
     (dest = DScriptID id /\ ver = if fTestNet then 196 else 5))).
  { unfold addr. destruct dest as [id|id|]; [| |done]; eexists _, id; (split; [done|]); (split; [done|]);
      [left|right]; (split; [done|by destruct fTestNet]). }
  destruct Ha as (ver & id & -> & Hid & Hver).
  assert (Hidb : is_bytes (CBitcoinAddress.id_bytes id)) by (apply (le_digits_ok 256); lia).
  assert (Hidl : lenZ (CBitcoinAddress.id_bytes id) = 20) by (unfold lenZ, CBitcoinAddress.id_bytes; by rewrite le_digits_length).
  assert (Hu : in_u 8 ver) by (unfold in_u; destruct Hver as [[_ ->]|[_ ->]]; destruct fTestNet; lia).
  destruct (SetString_ToString (mkB58 ver (CBitcoinAddress.id_bytes id)) Hu Hidb) as (str & H1 & H2); [cbn [vchData]; lia|].
  exists str. split_and!; [done|done| | | |].
  all: unfold CBitcoinAddress.Get, CBitcoinAddress.IsScript, CBitcoinAddress.GetKeyID, CBitcoinAddress.IsValid; cbn [nVersion vchData];
    rewrite Hidl; pose proof (id_roundtrip ver id Hid) as Hr; unfold CBase58Data.SetData in Hr;
    rewrite wrapu_small in Hr by done; rewrite ?Hr; destruct Hver as [[-> ->]|[-> ->]]; by destruct fTestNet.
Qed.

End Hash.
End OpenSSL.

(** ** The theorems at concrete texts *)

Module Examples.

#[local] Existing Instance IntegerBN.integers.

Definition hash0 (v : bytes) : Z := 0x01020304 + fold_right Z.add 0 v.

Lemma DecodeBase58_exact_witness :
  EncodeBase58 [0; 0; 1; 200] = Some (lit "118s") /\ DecodeBase58 (lit " 118s ") = Some [0; 0; 1; 200].
Proof.
  split; [reflexivity|].
  assert (Hb : is_bytes [0; 0; 1; 200]) by (apply (bool_decide_unpack _); vm_compute; exact I).
  apply (DecodeBase58_exact [0; 0; 1; 200] Hb ltac:(reflexivity)).
  exists (lit "118s"). split; [reflexivity|]. exists [32], [32].
  split; [|split; [|reflexivity]]; repeat constructor.
Defined.

Lemma DecodeBase58Check_exact_witness :
  exists e, EncodeBase58Check hash0 [0; 7] = Some e /\ DecodeBase58Check hash0 e = Some [0; 7].
Proof.
  assert (Hb : is_bytes [0; 7]) by (apply (bool_decide_unpack _); vm_compute; exact I).
  destruct (DecodeBase58Check_exact hash0 [0; 7] Hb ltac:(reflexivity)) as [[e He] Hs].
  exists e. split; [exact He|]. apply Hs. exists e. split; [exact He|]. exists [], [].
  split; [constructor|split; [constructor|]]. by rewrite app_nil_r.
Defined.

Lemma CBitcoinAddress_roundtrip_witness :
  CBitcoinAddress.Get true (CBitcoinAddress.Set_ true CBase58Data.new (DScriptID 12345)).2 = DScriptID 12345.
Proof.
  destruct (CBitcoinAddress_roundtrip hash0 true CBase58Data.new (DScriptID 12345)) as (str & _ & _ & Hg & _).
  - split; [discriminate|reflexivity].
  - exact Hg.
Defined.

End Examples.
