(* ===== verification/NetIO.v ===== *)
(** Bytes from and to the socket of a node: src/net.cpp, [CNode::ReceiveMsgBytes],
    [CNetMessage::readHeader], [CNetMessage::readData], [SocketSendData] and what
    [ThreadSocketHandler] does with one node in one round.

    net.h and protocol.h are not in the tree.  Parameters (class [NetMessages]): a fresh
    [CNetMessage], [complete], what [hdrbuf >> hdr] reads as the message size ([None]: it throws),
    the size limit of serialize.h and the two sizes the receive buffer is compared with. *)

From S2P Require Import Prelude.

Record CNetMessage := mkNetMessage {
  in_data : bool; hdrbuf : bytes; nHdrPos : Z; nMessageSize : Z; vRecv : bytes; nDataPos : Z }.

Class NetMessages := {
  fresh_message : CNetMessage;
  complete : CNetMessage -> bool;
  read_size : bytes -> option Z;
  MAX_SIZE : Z;
  GetTotalRecvSize : list CNetMessage -> Z;
  ReceiveFloodSize : Z;
  fresh_spec : in_data fresh_message = false /\ length (hdrbuf fresh_message) = 24%nat /\
               nHdrPos fresh_message = 0 /\ nDataPos fresh_message = 0;
  complete_spec m : complete m = in_data m && (nMessageSize m =? nDataPos m);
  read_size_range h n : read_size h = Some n -> in_u 32 n;
  MAX_SIZE_range : 0 <= MAX_SIZE < 2 ^ 31;
}.

Section Receive.
Context `{NetMessages}.

(** [memcpy(&buf[pos], src, n)]. *)
Definition memcpy (buf : bytes) (pos : Z) (src : bytes) : bytes :=
  take (Z.to_nat pos) buf ++ src ++ drop (Z.to_nat pos + length src) buf.

(** The result is the number of bytes handled, negative for a refused header. *)
Definition readHeader (pch : bytes) (m : CNetMessage) : Z * CNetMessage :=
  let nRemaining := u32 (24 - nHdrPos m) in
  let nCopy := Z.min nRemaining (lenZ pch) in
  let buf := memcpy (hdrbuf m) (nHdrPos m) (take (Z.to_nat nCopy) pch) in
  let pos := u32 (nHdrPos m + nCopy) in
  let m' := mkNetMessage (in_data m) buf pos (nMessageSize m) (vRecv m) (nDataPos m) in
  if pos <? 24 then (s32 nCopy, m')
  else match read_size buf with
       | None => (-1, m')
       | Some size =>
         if MAX_SIZE <? size then (-1, mkNetMessage (in_data m) buf pos size (vRecv m) (nDataPos m))
         else (s32 nCopy, mkNetMessage true buf pos size (resize (Z.to_nat size) 0 (vRecv m)) (nDataPos m))
       end.

Definition readData (pch : bytes) (m : CNetMessage) : Z * CNetMessage :=
  let nRemaining := u32 (nMessageSize m - nDataPos m) in
  let nCopy := Z.min nRemaining (lenZ pch) in
  (s32 nCopy,
   mkNetMessage (in_data m) (hdrbuf m) (nHdrPos m) (nMessageSize m)
     (memcpy (vRecv m) (nDataPos m) (take (Z.to_nat nCopy) pch)) (u32 (nDataPos m + nCopy))).

(** The messages before the current one, and the current one. *)
Definition current (q : list CNetMessage) : list CNetMessage * CNetMessage :=
  match last q with
  | Some m => if complete m then (q, fresh_message) else (removelast q, m)
  | None => (q, fresh_message)
  end.

Definition receive_step (pch : bytes) (q : list CNetMessage) : Z * list CNetMessage :=
  let '(q0, m) := current q in
  let '(handled, m') := if negb (in_data m) then readHeader pch m else readData pch m in
  (handled, q0 ++ [m']).

(** One byte at least is handled in every round; [None]: more rounds than [fuel]. *)
Fixpoint Receive_loop (fuel : nat) (pch : bytes) (q : list CNetMessage) : option (bool * list CNetMessage) :=
  match pch with
  | [] => Some (true, q)
  | _ =>
    match fuel with
    | O => None
    | S fuel' =>
      let '(handled, q') := receive_step pch q in
      if handled <? 0 then Some (false, q')
      else Receive_loop fuel' (drop (Z.to_nat handled) pch) q'
    end
  end.

Definition ReceiveMsgBytes (pch : bytes) (q : list CNetMessage) : option (bool * list CNetMessage) :=
  Receive_loop (length pch) pch q.

(** What several calls of [recv] deliver, up to a failure. *)
Fixpoint receive_all (chunks : list bytes) (q : list CNetMessage) : option (bool * list CNetMessage) :=
  match chunks with
  | [] => Some (true, q)
  | c :: r => '(fOk, q') ← ReceiveMsgBytes c q; if fOk : bool then receive_all r q' else Some (false, q')
  end.

End Receive.

(** ** One node in a round of [ThreadSocketHandler] *)

(** What the system calls do: [recv] gives bytes, the end of the connection or an error; a
    call of [send] accepts at most [n] bytes or fails.  [transient]: WSAEWOULDBLOCK and the like;
    [lockRecv]: the lock on the receive queue is free. *)
Inductive RecvResult := RecvBytes (pchBuf : bytes) | RecvClosed | RecvError (transient : bool).
Inductive SendResult := SendAccepts (n : Z) | SendError (transient lockRecv : bool).

(** The members of a [CNode] these functions use; [wire] is not in the code: the bytes the
    system accepted. *)
Record Conn := mkConn {
  hSocket : bool; fDisconnect : bool; vRecvMsg : list CNetMessage;
  vSendMsg : list bytes; nSendOffset : Z; nSendSize : Z; nSendBytes : Z; nRecvBytes : Z;
  nLastSend : Z; nLastRecv : Z; nLastSendEmpty : Z; nTimeConnected : Z; wire : bytes }.

Section Sockets.
Context `{NetMessages}.

(** [lockRecv]: the lock on the receive queue is free. *)
Definition CloseSocketDisconnect (lockRecv : bool) (c : Conn) : Conn :=
  mkConn false true (if lockRecv then [] else vRecvMsg c) (vSendMsg c) (nSendOffset c) (nSendSize c)
    (nSendBytes c) (nRecvBytes c) (nLastSend c) (nLastRecv c) (nLastSendEmpty c) (nTimeConnected c) (wire c).

Definition set_send (msgs : list bytes) (offset size sent last : Z) (w : bytes) (c : Conn) : Conn :=
  mkConn (hSocket c) (fDisconnect c) (vRecvMsg c) msgs offset size sent (nRecvBytes c)
    last (nLastRecv c) (nLastSendEmpty c) (nTimeConnected c) w.

(** The loop over [vSendMsg], which is cut off in front of [it]; a call beyond the given results
    would block.  [None]: an assertion fails. *)
Fixpoint Send_loop (now : Z) (msgs : list bytes) (rs : list SendResult) (c : Conn) : option Conn :=
  match msgs with
  | [] => if (nSendOffset c =? 0) && (nSendSize c =? 0) then Some c else None
  | data :: rest =>
    if nSendOffset c <? lenZ data then
      let len := lenZ data - nSendOffset c in
      match rs with
      | SendAccepts n :: rs' =>
        let nBytes := Z.min n len in
        if 0 <? nBytes then
          let w := wire c ++ take (Z.to_nat nBytes) (drop (Z.to_nat (nSendOffset c)) data) in
          let sent := u64 (nSendBytes c + nBytes) in
          let offset := nSendOffset c + nBytes in
          if offset =? lenZ data
          then Send_loop now rest rs' (set_send rest 0 (u64 (nSendSize c - lenZ data)) sent now w c)
          else Some (set_send msgs offset (nSendSize c) sent now w c)
        else Some c
      | SendError transient lockRecv :: _ => Some (if transient then c else CloseSocketDisconnect lockRecv c)
      | [] => Some c
      end
    else None
  end.

Definition SocketSendData (now : Z) (rs : list SendResult) (c : Conn) : option Conn :=
  Send_loop now (vSendMsg c) rs c.

(** Whether the socket is selected for sending and for receiving, when the locks are free. *)
Definition select_for (c : Conn) : bool * bool :=
  if negb (hSocket c) then (false, false)
  else match vSendMsg c with
       | _ :: _ => (true, false)
       | [] => (false, match vRecvMsg c with [] => true | m :: _ => negb (complete m) end
                       || (GetTotalRecvSize (vRecvMsg c) <=? ReceiveFloodSize))
       end.

Definition on_receive (now : Z) (r : RecvResult) (c : Conn) : option Conn :=
  match r with
  | RecvBytes pchBuf =>
    '(fOk, q) ← ReceiveMsgBytes pchBuf (vRecvMsg c);
    let c := mkConn (hSocket c) (fDisconnect c) q (vSendMsg c) (nSendOffset c) (nSendSize c) (nSendBytes c)
               (nRecvBytes c) (nLastSend c) (nLastRecv c) (nLastSendEmpty c) (nTimeConnected c) (wire c) in
    let c := if fOk : bool then c else CloseSocketDisconnect true c in
    Some (mkConn (hSocket c) (fDisconnect c) (vRecvMsg c) (vSendMsg c) (nSendOffset c) (nSendSize c) (nSendBytes c)
            (u64 (nRecvBytes c + lenZ pchBuf)) (nLastSend c) now (nLastSendEmpty c) (nTimeConnected c) (wire c))
  | RecvClosed => Some (CloseSocketDisconnect true c)
  | RecvError transient => Some (if transient then c else CloseSocketDisconnect true c)
  end.

(** Inactivity checking. *)
Definition inactive (now : Z) (c : Conn) : bool :=
  (60 <? now - nTimeConnected c)
  && ((nLastRecv c =? 0) || (nLastSend c =? 0)
      || ((90 * 60 <? now - nLastSend c) && (90 * 60 <? now - nLastSendEmpty c))
      || (90 * 60 <? now - nLastRecv c)).

Definition check_inactivity (now : Z) (c : Conn) : Conn :=
  let empty := match vSendMsg c with [] => now | _ => nLastSendEmpty c end in
  let c := mkConn (hSocket c) (fDisconnect c) (vRecvMsg c) (vSendMsg c) (nSendOffset c) (nSendSize c) (nSendBytes c)
             (nRecvBytes c) (nLastSend c) (nLastRecv c) empty (nTimeConnected c) (wire c) in
  mkConn (hSocket c) (fDisconnect c || inactive now c) (vRecvMsg c) (vSendMsg c) (nSendOffset c) (nSendSize c)
    (nSendBytes c) (nRecvBytes c) (nLastSend c) (nLastRecv c) (nLastSendEmpty c) (nTimeConnected c) (wire c).

(** One round for one node: [readable] is what [recv] gives, when the socket is ready and the
    lock free; [writable] what [send] does. *)
Definition service (now : Z) (readable : option RecvResult) (writable : option (list SendResult)) (c : Conn) : option Conn :=
  if negb (hSocket c) then Some c
  else
    c ← match readable with Some r => on_receive now r c | None => Some c end;
    if negb (hSocket c) then Some c
    else
      c ← match writable with Some rs => SocketSendData now rs c | None => Some c end;
      Some (check_inactivity now c).

End Sockets.
