(* ===== verification/NetIOThms.v ===== *)
(** What the functions of NetIO.v guarantee: received bytes are cut into messages in one way
    only, whatever pieces the network delivers; queued messages are sent byte for byte. *)

From S2P Require Import Prelude NetIO.

Section Receive.
Context `{NetMessages}.

(** ** One round *)

(** An incomplete message. *)
Definition partial (m : CNetMessage) : Prop :=
  if in_data m then
    0 <= nDataPos m < nMessageSize m /\ lenZ (vRecv m) = nMessageSize m /\ nMessageSize m <= MAX_SIZE
  else 0 <= nHdrPos m < 24 /\ lenZ (hdrbuf m) = 24 /\ nDataPos m = 0.

Definition good (q : list CNetMessage) : Prop :=
  match last q with Some m => complete m = true \/ partial m | None => True end.

Lemma partial_fresh : partial fresh_message.
Proof. unfold partial. destruct fresh_spec as (-> & Hl & -> & ->). unfold lenZ. lia. Qed.

Lemma complete_partial m : partial m -> complete m = false.
Proof. unfold partial. rewrite complete_spec. destruct (in_data m); [intros ?; cbn; lia|done]. Qed.

Lemma current_spec q : good q -> partial (current q).2.
Proof.
  unfold good, current. destruct (last q) as [m|]; [|intros _; apply partial_fresh].
  destruct (complete m) eqn:E; [intros _; apply partial_fresh|]. by intros [?|?].
Qed.

Lemma current_snoc q m : partial m -> current (q ++ [m]) = (q, m).
Proof. intros Hm. unfold current. by rewrite last_snoc, complete_partial, removelast_last. Qed.

Lemma current_complete q m : complete m = true -> current (q ++ [m]) = (q ++ [m], fresh_message).
Proof. intros Hm. unfold current. by rewrite last_snoc, Hm. Qed.

Lemma lenZ_take {A} (l : list A) n : 0 <= n <= lenZ l -> lenZ (take (Z.to_nat n) l) = n.
Proof. unfold lenZ. rewrite length_take. lia. Qed.

Lemma memcpy_len buf pos src : 0 <= pos -> pos + lenZ src <= lenZ buf -> lenZ (memcpy buf pos src) = lenZ buf.
Proof. unfold memcpy, lenZ. rewrite !length_app, length_take, length_drop. lia. Qed.

Lemma memcpy_app buf pos a b :
  0 <= pos -> pos + lenZ a + lenZ b <= lenZ buf ->
  memcpy (memcpy buf pos a) (pos + lenZ a) b = memcpy buf pos (a ++ b).
Proof.
  intros Hp Hl. unfold memcpy, lenZ in *. rewrite !length_app.
  assert (H1 : length (take (Z.to_nat pos) buf) = Z.to_nat pos) by (rewrite length_take; lia).
  replace (Z.to_nat (pos + Z.of_nat (length a))) with (Z.to_nat pos + length a)%nat by lia.
  assert (Ht : take (Z.to_nat pos + length a) (take (Z.to_nat pos) buf ++ a ++ drop (Z.to_nat pos + length a) buf)
               = take (Z.to_nat pos) buf ++ a).
  { rewrite (assoc_L (++)). apply take_app_length'. rewrite length_app. lia. }
  rewrite Ht, <-!(assoc_L (++)). do 3 f_equal.
  rewrite (assoc_L (++)), drop_app_ge by (rewrite length_app; lia).
  rewrite length_app, drop_drop. f_equal. lia.
Qed.

(** What one round does to the current message: it handles the bytes up to the end of the
    header or of the data. *)
Definition remaining (m : CNetMessage) : Z := if in_data m then nMessageSize m - nDataPos m else 24 - nHdrPos m.

Definition absorb (pch : bytes) (m : CNetMessage) : Z * CNetMessage :=
  if negb (in_data m) then readHeader pch m else readData pch m.

Lemma receive_step_eq pch q : receive_step pch q = let '(h, m) := absorb pch (current q).2 in (h, (current q).1 ++ [m]).
Proof. unfold receive_step, absorb. by destruct (current q) as [q0 m]. Qed.

Lemma remaining_pos m : partial m -> 0 < remaining m < 2 ^ 31.
Proof. pose proof MAX_SIZE_range. unfold partial, remaining. destruct (in_data m); lia. Qed.

(** Less than what remains: the bytes are stored and the message stays partial. *)
Definition store (pch : bytes) (m : CNetMessage) : CNetMessage :=
  if in_data m then
    mkNetMessage true (hdrbuf m) (nHdrPos m) (nMessageSize m) (memcpy (vRecv m) (nDataPos m) pch) (nDataPos m + lenZ pch)
  else
    mkNetMessage false (memcpy (hdrbuf m) (nHdrPos m) pch) (nHdrPos m + lenZ pch) (nMessageSize m) (vRecv m) (nDataPos m).

Lemma absorb_short pch m : partial m -> lenZ pch < remaining m -> absorb pch m = (lenZ pch, store pch m).
Proof.
  intros Hm Hr. pose proof (remaining_pos m Hm). pose proof MAX_SIZE_range. unfold partial, remaining, absorb, store, readHeader, readData in *.
  pose proof (lenZ_nonneg pch). destruct (in_data m); cbn [negb].
  - rewrite (wrapu_small _ (nMessageSize m - nDataPos m)) by (unfold in_u; lia). rewrite Z.min_r by lia.
    rewrite wraps_small, wrapu_small by (unfold in_u, in_s; lia). rewrite take_ge by (unfold lenZ in *; lia). done.
  - rewrite (wrapu_small _ (24 - nHdrPos m)) by (unfold in_u; lia). rewrite Z.min_r by lia.
    rewrite wraps_small, wrapu_small by (unfold in_u, in_s; lia). rewrite take_ge by (unfold lenZ in *; lia).
    by destruct (Z.ltb_spec (nHdrPos m + lenZ pch) 24); [|lia].
Qed.

Lemma store_partial pch m : partial m -> lenZ pch < remaining m -> partial (store pch m) /\ remaining (store pch m) = remaining m - lenZ pch.
Proof.
  intros Hm Hr. pose proof (remaining_pos m Hm). pose proof MAX_SIZE_range. pose proof (lenZ_nonneg pch). unfold partial, remaining, store in *.
  destruct (in_data m); cbn; rewrite memcpy_len by lia; lia.
Qed.

Lemma store_app a b m : partial m -> lenZ (a ++ b) < remaining m -> store b (store a m) = store (a ++ b) m.
Proof.
  intros Hm Hr. rewrite lenZ_app in Hr. pose proof (lenZ_nonneg a). pose proof (lenZ_nonneg b).
  unfold partial, remaining, store in *. destruct (in_data m); cbn; rewrite memcpy_app, lenZ_app, Z.add_assoc by lia; done.
Qed.

(** What remains or more: it does not matter what follows. *)
Lemma absorb_enough a b m : partial m -> remaining m <= lenZ a -> absorb (a ++ b) m = absorb a m.
Proof.
  intros Hm Hr. pose proof (remaining_pos m Hm). pose proof MAX_SIZE_range. unfold partial, remaining, absorb, readHeader, readData in *.
  pose proof (lenZ_nonneg b). destruct (in_data m); cbn [negb]; rewrite lenZ_app.
  - rewrite (wrapu_small _ (nMessageSize m - nDataPos m)) by (unfold in_u; lia). rewrite !Z.min_l by lia.
    rewrite take_app_le by (unfold lenZ in *; lia). done.
  - rewrite (wrapu_small _ (24 - nHdrPos m)) by (unfold in_u; lia). rewrite !Z.min_l by lia.
    rewrite take_app_le by (unfold lenZ in *; lia). done.
Qed.

Lemma absorb_split a b m :
  partial m -> lenZ a < remaining m -> remaining m <= lenZ (a ++ b) ->
  absorb (a ++ b) m = let '(h, m') := absorb b (store a m) in ((if h <? 0 then h else h + lenZ a), m').
Proof.
  intros Hm Hr Hab. pose proof (remaining_pos m Hm). pose proof MAX_SIZE_range. rewrite lenZ_app in Hab. pose proof (lenZ_nonneg a).
  destruct (store_partial a m Hm Hr) as [Hs Hsr]. unfold partial, remaining, absorb, store, readHeader, readData in *.
  destruct (in_data m); cbn [negb in_data nHdrPos nDataPos nMessageSize hdrbuf vRecv] in *; rewrite ?lenZ_app.
  - rewrite !(wrapu_small 32 (nMessageSize m - _)) by (unfold in_u; lia). rewrite !Z.min_l by lia.
    rewrite !wraps_small, !wrapu_small by (unfold in_u, in_s; lia).
    destruct (Z.ltb_spec (nMessageSize m - (nDataPos m + lenZ a)) 0); [lia|]. f_equal; [lia|]. f_equal; [|lia].
    rewrite take_app_ge by (unfold lenZ in *; lia). rewrite memcpy_app.
    { do 3 f_equal. unfold lenZ. lia. } { lia. } rewrite lenZ_take; lia.
  - rewrite !(wrapu_small 32 (24 - _)) by (unfold in_u; lia). rewrite !Z.min_l by lia.
    rewrite !wrapu_small by (unfold in_u, in_s; lia). rewrite take_app_ge by (unfold lenZ in *; lia).
    rewrite memcpy_app; [|lia|rewrite lenZ_take; lia].
    replace (Z.to_nat (24 - nHdrPos m) - length a)%nat with (Z.to_nat (24 - (nHdrPos m + lenZ a))) by (unfold lenZ; lia).
    replace (nHdrPos m + lenZ a + (24 - (nHdrPos m + lenZ a))) with (nHdrPos m + (24 - nHdrPos m)) by lia.
    destruct (Z.ltb_spec (nHdrPos m + (24 - nHdrPos m)) 24); [lia|]. rewrite !wraps_small by (unfold in_s; lia).
    destruct (read_size _) as [n|]; [|done]. destruct (MAX_SIZE <? n); [done|]. f_equal.
    destruct (Z.ltb_spec (24 - (nHdrPos m + lenZ a)) 0); lia.
Qed.

(** A round that reaches the end of the header or of the data. *)
Lemma absorb_reach pch m :
  partial m -> remaining m <= lenZ pch ->
  let '(h, m') := absorb pch m in
  h < 0 \/ (h = remaining m /\ (complete m' = true \/ partial m')).
Proof.
  intros Hm Hr. pose proof (remaining_pos m Hm). pose proof MAX_SIZE_range. pose proof MAX_SIZE_range.
  unfold partial, remaining, absorb, readHeader, readData in *. destruct (in_data m); cbn [negb].
  - rewrite (wrapu_small _ (nMessageSize m - nDataPos m)) by (unfold in_u; lia). rewrite Z.min_l by lia.
    rewrite wraps_small, wrapu_small by (unfold in_u, in_s; lia). right. split; [done|]. left. rewrite complete_spec. cbn. lia.
  - rewrite (wrapu_small _ (24 - nHdrPos m)) by (unfold in_u; lia). rewrite Z.min_l by lia.
    rewrite wraps_small, wrapu_small by (unfold in_u, in_s; lia).
    destruct (Z.ltb_spec (nHdrPos m + (24 - nHdrPos m)) 24); [lia|].
    destruct (read_size _) as [n|] eqn:En; [|left; lia]. apply read_size_range in En. unfold in_u in En.
    destruct (Z.ltb_spec MAX_SIZE n); [left; lia|]. right. split; [done|]. rewrite complete_spec. cbn.
    destruct (Z.eqb_spec n (nDataPos m)); [by left|right]. unfold lenZ. rewrite length_resize. lia.
Qed.

(** ** Many rounds *)

Lemma good_snoc q m : good (q ++ [m]) <-> complete m = true \/ partial m.
Proof. unfold good. by rewrite last_snoc. Qed.

Lemma step_good pch q :
  good q -> pch <> [] ->
  let '(h, q') := receive_step pch q in h < 0 \/ (0 < h <= lenZ pch /\ good q').
Proof.
  intros Hq Hp. rewrite receive_step_eq. pose proof (current_spec q Hq) as Hm.
  set (m := (current q).2) in *. pose proof (remaining_pos m Hm).
  destruct (Z.lt_ge_cases (lenZ pch) (remaining m)) as [Hlt|Hge].
  - rewrite absorb_short by done. right. rewrite good_snoc.
    split; [destruct pch; [done|]; unfold lenZ; cbn; lia|]. right. by apply store_partial.
  - pose proof (absorb_reach pch m Hm Hge) as Hr. destruct (absorb pch m) as [h m'].
    destruct Hr as [?|[-> ?]]; [by left|right]. rewrite good_snoc. split; [lia|done].
Qed.

Lemma loop_fuel n k pch q :
  good q -> (length pch <= n)%nat -> (length pch <= k)%nat -> Receive_loop n pch q = Receive_loop k pch q.
Proof.
  revert k pch q. induction n as [|n IH]; intros k [|c pch] q Hq Hn Hk; cbn [length] in *; try lia; [by destruct k|by destruct k|].
  destruct k as [|k]; [lia|]. cbn [Receive_loop].
  pose proof (step_good (c :: pch) q Hq ltac:(done)) as Hs. destruct (receive_step _ _) as [h q'].
  destruct (Z.ltb_spec h 0); [done|]. destruct Hs as [?|[Hh Hg]]; [lia|].
  apply IH; [done| |]; rewrite length_drop; unfold lenZ in *; cbn [length] in *; lia.
Qed.

Lemma Receive_nil q : ReceiveMsgBytes [] q = Some (true, q).
Proof. done. Qed.

Lemma Receive_eq pch q :
  good q -> pch <> [] ->
  ReceiveMsgBytes pch q =
  let '(h, q') := receive_step pch q in
  if h <? 0 then Some (false, q') else ReceiveMsgBytes (drop (Z.to_nat h) pch) q'.
Proof.
  intros Hq Hp. unfold ReceiveMsgBytes at 1. destruct pch as [|c pch]; [done|]. cbn [length Receive_loop].
  pose proof (step_good (c :: pch) q Hq Hp) as Hs. destruct (receive_step _ _) as [h q'].
  destruct (Z.ltb_spec h 0); [done|]. destruct Hs as [?|[Hh Hg]]; [lia|].
  apply loop_fuel; [done| |done]. rewrite length_drop. unfold lenZ in *. cbn [length] in *. lia.
Qed.

(** The current message absorbs all bytes. *)
Lemma Receive_short pch q :
  good q -> lenZ pch < remaining (current q).2 -> pch <> [] ->
  ReceiveMsgBytes pch q = Some (true, (current q).1 ++ [store pch (current q).2]).
Proof.
  intros Hq Hl Hp. rewrite Receive_eq, receive_step_eq, absorb_short by auto using current_spec.
  destruct (Z.ltb_spec (lenZ pch) 0); [unfold lenZ in *; lia|].
  rewrite drop_ge by (unfold lenZ; lia). done.
Qed.

Lemma Receive_total pch q :
  good q -> exists fOk q', ReceiveMsgBytes pch q = Some (fOk, q') /\ (fOk = true -> good q').
Proof.
  revert q. induction pch as [pch IH] using list_len_ind. intros q Hq.
  destruct (decide (pch = [])) as [->|Hp]; [by exists true, q|].
  rewrite Receive_eq by done. pose proof (step_good pch q Hq Hp) as Hs. destruct (receive_step _ _) as [h q'].
  destruct (Z.ltb_spec h 0); [by exists false, q'|]. destruct Hs as [?|[Hh Hg]]; [lia|].
  apply IH; [|done]. rewrite length_drop. unfold lenZ in *. lia.
Qed.

Lemma Receive_app a b q :
  good q ->
  ReceiveMsgBytes (a ++ b) q =
  match ReceiveMsgBytes a q with Some (true, q') => ReceiveMsgBytes b q' | r => r end.
Proof.
  revert q. induction a as [a IH] using list_len_ind. intros q Hq.
  destruct (decide (a = [])) as [->|Ha]; [done|]. destruct (decide (b = [])) as [->|Hb].
  { rewrite app_nil_r. destruct (Receive_total a q Hq) as (fOk & q' & -> & _). by destruct fOk. }
  pose proof (current_spec q Hq) as Hm. set (m := (current q).2) in *.
  destruct (Z.lt_ge_cases (lenZ a) (remaining m)) as [Hlt|Hge].
  - rewrite (Receive_short a q) by done. fold m. destruct (store_partial a m Hm Hlt) as [Hs Hsr].
    assert (Hg : good ((current q).1 ++ [store a m])) by (rewrite good_snoc; by right).
    assert (Hc : current ((current q).1 ++ [store a m]) = ((current q).1, store a m)) by (by apply current_snoc).
    destruct (Z.lt_ge_cases (lenZ (a ++ b)) (remaining m)) as [Hlt2|Hge2].
    + rewrite !Receive_short; rewrite ?Hc; try done; cbn [fst snd].
      * fold m. by rewrite store_app.
      * rewrite lenZ_app in *. lia.
      * by destruct a.
    + rewrite !Receive_eq, !receive_step_eq, Hc by (try done; by destruct a). cbn [fst snd]. fold m.
      rewrite absorb_split by done.
      assert (Hrb : remaining (store a m) <= lenZ b) by (rewrite lenZ_app in *; lia).
      pose proof (absorb_reach b _ Hs Hrb) as Hr. destruct (absorb b (store a m)) as [h m'].
      pose proof (remaining_pos _ Hs). pose proof (lenZ_nonneg a).
      destruct (Z.ltb_spec h 0); [by destruct (Z.ltb_spec h 0); [|lia]|].
      destruct Hr as [?|[-> Hgm]]; [lia|]. destruct (Z.ltb_spec (remaining (store a m) + lenZ a) 0); [lia|].
      f_equal. rewrite drop_app_ge by (unfold lenZ in *; lia). f_equal. unfold lenZ in *. lia.
  - rewrite !Receive_eq, !receive_step_eq by (try done; by destruct a). fold m.
    rewrite absorb_enough by done. pose proof (absorb_reach a _ Hm Hge) as Hr. destruct (absorb a m) as [h m'].
    pose proof (remaining_pos _ Hm). destruct (Z.ltb_spec h 0); [done|]. destruct Hr as [?|[-> Hgm]]; [lia|].
    rewrite drop_app_le by (unfold lenZ in *; lia). apply IH; [|by rewrite good_snoc].
    rewrite length_drop. unfold lenZ in *. lia.
Qed.

(** The pieces do not matter. *)
Lemma receive_all_concat chunks q : good q -> receive_all chunks q = ReceiveMsgBytes (concat chunks) q.
Proof.
  revert q. induction chunks as [|c r IH]; intros q Hq; [done|]. cbn [receive_all concat].
  rewrite Receive_app by done. destruct (Receive_total c q Hq) as (fOk & q' & -> & Hg). cbn.
  destruct fOk; [by apply IH, Hg|done].
Qed.

(** ** Messages *)

(** A message on the wire: the header and the data. *)
Definition is_frame (f : bytes * bytes) : Prop :=
  lenZ f.1 = 24 /\ read_size f.1 = Some (lenZ f.2) /\ lenZ f.2 <= MAX_SIZE.

Definition on_wire (f : bytes * bytes) : bytes := f.1 ++ f.2.

(** The received message: [pre] is the buffer the header has been copied into. *)
Definition received (f : bytes * bytes) : CNetMessage := mkNetMessage true f.1 24 (lenZ f.2) f.2 (lenZ f.2).

(** The bytes behind the last message: none, a part of a header, or a header and not all of
    its data. *)
Definition unfinished (rest : bytes) : Prop :=
  lenZ rest < 24 \/
  exists h d n, rest = h ++ d /\ lenZ h = 24 /\ read_size h = Some n /\ lenZ d < n <= MAX_SIZE.

Definition started (rest : bytes) : list CNetMessage :=
  match rest with
  | [] => []
  | _ =>
    if lenZ rest <? 24 then [store rest fresh_message]
    else match read_size (take 24 rest) with
         | Some n => let d := drop 24 rest in
                     [mkNetMessage true (take 24 rest) 24 n (d ++ drop (length d) (resize (Z.to_nat n) 0 (vRecv fresh_message))) (lenZ d)]
         | None => []
         end
  end.

(** A header that is refused. *)
Definition refused (rest : bytes) : Prop :=
  exists h d, rest = h ++ d /\ lenZ h = 24 /\
    match read_size h with None => True | Some n => MAX_SIZE < n end.

Lemma memcpy_all buf src : length src = length buf -> memcpy buf 0 src = src.
Proof. intros Hl. unfold memcpy. cbn. by rewrite drop_ge, app_nil_r by lia. Qed.

Lemma current_all_complete q : Forall (fun m => complete m = true) q -> good q /\ current q = (q, fresh_message).
Proof.
  intros Hq. destruct q as [|m q' _] using rev_ind; [done|]. rewrite Forall_app, Forall_singleton in Hq. destruct Hq as [_ Hm].
  rewrite good_snoc, (current_complete q' m Hm). auto.
Qed.

(** The header of the next message. *)
Lemma absorb_header h : lenZ h = 24 ->
  absorb h fresh_message =
  match read_size h with
  | Some n => if MAX_SIZE <? n then (-1, mkNetMessage false h 24 n (vRecv fresh_message) 0)
              else (24, mkNetMessage true h 24 n (resize (Z.to_nat n) 0 (vRecv fresh_message)) 0)
  | None => (-1, mkNetMessage false h 24 (nMessageSize fresh_message) (vRecv fresh_message) 0)
  end.
Proof.
  intros Hh. destruct fresh_spec as (Hi & Hl & Hp & Hd). unfold absorb, readHeader. rewrite Hi, Hp, Hd, Hh.
  cbn [negb]. rewrite Z.sub_0_r. change (u32 24) with 24. change (Z.min 24 24) with 24. change (s32 24) with 24.
  change (u32 (0 + 24)) with 24. change (24 <? 24) with false. cbn match.
  rewrite take_ge by (unfold lenZ in *; lia). rewrite memcpy_all by (unfold lenZ in *; lia). done.
Qed.

Lemma resize_len n (l : bytes) : 0 <= n -> lenZ (resize (Z.to_nat n) 0 l) = n.
Proof. intros Hn. unfold lenZ. rewrite length_resize. lia. Qed.

(** A message is received when all before it were. *)
Lemma Receive_frame f rest q :
  Forall (fun m => complete m = true) q -> is_frame f ->
  ReceiveMsgBytes (on_wire f ++ rest) q = ReceiveMsgBytes rest (q ++ [received f]) /\ complete (received f) = true.
Proof.
  intros Hq (Hh & Hn & Hmax). destruct (current_all_complete q Hq) as [Hg Hc]. pose proof MAX_SIZE_range.
  assert (Hcomp : complete (received f) = true) by (rewrite complete_spec; cbn; lia).
  split; [|done]. unfold on_wire. rewrite <-(assoc_L (++)), Receive_app by done.
  rewrite (Receive_eq f.1), receive_step_eq, Hc by (try done; intros E; rewrite E in Hh; done). cbn [fst snd].
  rewrite absorb_header, Hn by done. destruct (Z.ltb_spec MAX_SIZE (lenZ f.2)); [lia|]. cbn match.
  rewrite drop_ge by (unfold lenZ in *; lia). rewrite Receive_nil. change (24 <? 0) with false. cbn match.
  set (m1 := mkNetMessage true f.1 24 (lenZ f.2) _ 0).
  destruct (decide (f.2 = [])) as [E|Hne].
  { unfold m1, received. rewrite E. by destruct (vRecv fresh_message). }
  assert (0 < lenZ f.2) by (destruct (f.2); [done|unfold lenZ; cbn; lia]).
  assert (Hp1 : partial m1) by (unfold partial, m1; cbn; rewrite resize_len by lia; lia).
  rewrite Receive_app by (rewrite good_snoc; by right).
  rewrite (Receive_eq f.2), receive_step_eq, current_snoc by (try done; rewrite good_snoc; by right). cbn [fst snd].
  unfold absorb, readData, m1. cbn [in_data negb nMessageSize nDataPos vRecv hdrbuf nHdrPos]. rewrite Z.sub_0_r, Z.add_0_l.
  rewrite !wrapu_small by (unfold in_u; lia). rewrite Z.min_id, wraps_small by (unfold in_s; lia).
  destruct (Z.ltb_spec (lenZ f.2) 0); [lia|]. rewrite take_ge, drop_ge by (unfold lenZ; lia).
  rewrite memcpy_all by (rewrite length_resize; unfold lenZ; lia). done.
Qed.

Lemma Receive_frames fs rest q :
  Forall (fun m => complete m = true) q -> Forall is_frame fs ->
  ReceiveMsgBytes (concat (on_wire <$> fs) ++ rest) q = ReceiveMsgBytes rest (q ++ (received <$> fs))
  /\ Forall (fun m => complete m = true) (q ++ (received <$> fs)).
Proof.
  intros Hq Hfs. revert q Hq. induction Hfs as [|f fs Hf _ IH]; intros q Hq; [by rewrite app_nil_r|].
  cbn [fmap list_fmap concat]. rewrite <-(assoc_L (++)). destruct (Receive_frame f (concat (on_wire <$> fs) ++ rest) q Hq Hf) as [-> Hc].
  change (received f :: (received <$> fs)) with ([received f] ++ (received <$> fs)).
  rewrite (assoc_L (++) q). apply IH. apply Forall_app. auto.
Qed.

Lemma Receive_unfinished rest q :
  Forall (fun m => complete m = true) q -> unfinished rest ->
  ReceiveMsgBytes rest q = Some (true, q ++ started rest).
Proof.
  intros Hq Hr. destruct (current_all_complete q Hq) as [Hg Hc]. destruct fresh_spec as (Hi & Hl & Hp & Hd).
  destruct (decide (rest = [])) as [->|Hne]; [by rewrite Receive_nil, app_nil_r|].
  assert (Hstart : started rest = if lenZ rest <? 24 then [store rest fresh_message] else
    match read_size (take 24 rest) with
    | Some n => let d := drop 24 rest in
                [mkNetMessage true (take 24 rest) 24 n (d ++ drop (length d) (resize (Z.to_nat n) 0 (vRecv fresh_message))) (lenZ d)]
    | None => [] end) by (by destruct rest).
  rewrite Hstart. clear Hstart. destruct (Z.ltb_spec (lenZ rest) 24) as [Hs|Hs].
  { rewrite Receive_short; rewrite ?Hc; try done. cbn [snd]. unfold remaining. rewrite Hi, Hp. lia. }
  destruct Hr as [?|(h & d & n & -> & Hh & Hn & Hlen)]; [lia|]. pose proof (lenZ_nonneg d).
  rewrite take_app_length', drop_app_length', Hn by (unfold lenZ in *; lia). cbv zeta.
  rewrite Receive_app, (Receive_eq h), receive_step_eq, Hc by (try done; by intros ->). cbn [fst snd].
  rewrite absorb_header, Hn by done. destruct (Z.ltb_spec MAX_SIZE n); [lia|]. change (24 <? 0) with false. cbn match.
  rewrite drop_ge by (unfold lenZ in *; lia). rewrite Receive_nil.
  set (m1 := mkNetMessage true h 24 n _ 0).
  assert (Hp1 : partial m1) by (unfold partial, m1; cbn; rewrite resize_len by lia; lia).
  destruct (decide (d = [])) as [->|Hd']; [done|].
  rewrite Receive_short; [rewrite current_snoc by done; done| | |done].
  - rewrite good_snoc. by right.
  - rewrite current_snoc by done. unfold remaining, m1. cbn. lia.
Qed.

Lemma Receive_refused rest q :
  Forall (fun m => complete m = true) q -> refused rest ->
  exists m, ReceiveMsgBytes rest q = Some (false, q ++ [m]).
Proof.
  intros Hq (h & d & -> & Hh & Hr). destruct (current_all_complete q Hq) as [Hg Hc].
  rewrite Receive_app, (Receive_eq h), receive_step_eq, Hc by (try done; by intros ->). cbn [fst snd].
  rewrite absorb_header by done. destruct (read_size h) as [n|]; [|by eexists].
  destruct (Z.ltb_spec MAX_SIZE n); [by eexists|lia].
Qed.

(** Every stream is messages and a rest. *)
Lemma stream_split bs :
  exists fs rest, Forall is_frame fs /\ bs = concat (on_wire <$> fs) ++ rest /\ (unfinished rest \/ refused rest).
Proof.
  induction bs as [bs IH] using list_len_ind.
  destruct (Z.lt_ge_cases (lenZ bs) 24) as [Hs|Hs].
  { exists [], bs. unfold unfinished. auto. }
  pose proof (take_drop 24 bs) as Hbs. assert (Hh : lenZ (take 24 bs) = 24) by (unfold lenZ in *; rewrite length_take; lia).
  destruct (read_size (take 24 bs)) as [n|] eqn:Hn.
  2: { exists [], bs. split; [done|]. split; [done|]. right. exists (take 24 bs), (drop 24 bs). by rewrite Hn. }
  destruct (Z.lt_ge_cases MAX_SIZE n) as [Hbig|Hmax].
  { exists [], bs. split; [done|]. split; [done|]. right. exists (take 24 bs), (drop 24 bs). by rewrite Hn. }
  destruct (Z.lt_ge_cases (lenZ (drop 24 bs)) n) as [Hlt|Hge].
  { exists [], bs. split; [done|]. split; [done|]. left. right. by exists (take 24 bs), (drop 24 bs), n. }
  pose proof (read_size_range _ _ Hn) as Hrange. unfold in_u in Hrange.
  destruct (IH (drop (Z.to_nat n) (drop 24 bs))) as (fs & rest & Hfs & Hrest & Hend).
  { rewrite !length_drop. unfold lenZ in *. lia. }
  exists ((take 24 bs, take (Z.to_nat n) (drop 24 bs)) :: fs), rest. split; [|split; [|done]].
  - constructor; [|done]. unfold is_frame. cbn. rewrite lenZ_take by lia. done.
  - rewrite fmap_cons, concat_cons. unfold on_wire at 1. cbn [fst snd].
    by rewrite <-!(assoc_L (++)), <-Hrest, !take_drop.
Qed.

(** C17 However the network cuts the stream, the bytes received are cut into the same
    messages: complete ones in the order they were sent, with their headers and data, and the
    beginning of the next one; the node is given up exactly when a header is refused. *)
Theorem ReceiveMsgBytes_frames chunks q :
  Forall (fun m => complete m = true) q ->
  exists fs rest,
    Forall is_frame fs /\ concat chunks = concat (on_wire <$> fs) ++ rest /\
    (forall chunks', concat chunks' = concat chunks -> receive_all chunks' q = receive_all chunks q) /\
    ((unfinished rest /\ receive_all chunks q = Some (true, q ++ (received <$> fs) ++ started rest)) \/
     (refused rest /\ exists m, receive_all chunks q = Some (false, q ++ (received <$> fs) ++ [m]))).
Proof.
  intros Hq. destruct (current_all_complete q Hq) as [Hg _].
  destruct (stream_split (concat chunks)) as (fs & rest & Hfs & Hc & Hend). exists fs, rest.
  destruct (Receive_frames fs rest q Hq Hfs) as [Hr Hq'].
  split; [done|]. split; [done|]. split.
  { intros chunks' E. by rewrite !receive_all_concat, E by done. }
  rewrite receive_all_concat, Hc, Hr by done. destruct Hend as [Hu|Hf].
  - left. by rewrite Receive_unfinished, <-(assoc_L (++)) by done.
  - right. split; [done|]. destruct (Receive_refused rest _ Hq' Hf) as [m ->]. exists m. by rewrite <-(assoc_L (++)).
Qed.

End Receive.

(** ** Sending *)

Section Sockets.
Context `{NetMessages}.

(** What holds of a node outside [SocketSendData]: no queued message is empty, the offset lies
    in the first one and the sizes add up. *)
Definition wf_send (c : Conn) : Prop :=
  Forall (fun d => 0 < lenZ d) (vSendMsg c) /\
  match vSendMsg c with [] => nSendOffset c = 0 | d :: _ => 0 <= nSendOffset c < lenZ d end /\
  nSendSize c = lenZ (concat (vSendMsg c)) /\ nSendSize c < 2 ^ 64.

(** The bytes still to be sent. *)
Definition unsent (c : Conn) : bytes := drop (Z.to_nat (nSendOffset c)) (concat (vSendMsg c)).

(** [n] bytes were sent. *)
Definition sends (now : Z) (c : Conn) (n : Z) (c' : Conn) : Prop :=
  0 <= n <= lenZ (unsent c) /\
  wire c' = wire c ++ take (Z.to_nat n) (unsent c) /\ unsent c' = drop (Z.to_nat n) (unsent c) /\
  u64 (nSendBytes c') = u64 (nSendBytes c + n) /\ nLastSend c' = (if 0 <? n then now else nLastSend c).

Lemma sends_none now c c' :
  wire c' = wire c -> unsent c' = unsent c -> nSendBytes c' = nSendBytes c -> nLastSend c' = nLastSend c -> sends now c 0 c'.
Proof.
  intros Hw Hu Hb Hl. unfold sends. pose proof (lenZ_nonneg (unsent c)).
  rewrite Hw, Hu, Hb, Hl, app_nil_r, Z.add_0_r, drop_0. split; [lia|done].
Qed.

Lemma sends_trans now c n c' k c'' : sends now c n c' -> 0 < n -> sends now c' k c'' -> sends now c (n + k) c''.
Proof.
  intros (Hn & Hw & Hu & Hb & Hl) Hp (Hk & Hw' & Hu' & Hb' & Hl'). unfold sends.
  assert (Hlen : lenZ (unsent c') = lenZ (unsent c) - n) by (rewrite Hu; unfold lenZ in *; rewrite length_drop; lia).
  rewrite Hw', Hu', Hw, Hu, Hb', Hl', Hl. split; [lia|]. split_and!.
  - rewrite <-(assoc_L (++)). f_equal. replace (Z.to_nat (n + k)) with (Z.to_nat n + Z.to_nat k)%nat by lia.
    by rewrite take_take_drop.
  - rewrite drop_drop. f_equal. lia.
  - unfold wrapu in *. rewrite <-(Zplus_mod_idemp_l (nSendBytes c')), Hb, Zplus_mod_idemp_l. f_equal. lia.
  - destruct (Z.ltb_spec 0 n), (Z.ltb_spec 0 (n + k)), (Z.ltb_spec 0 k); (done || lia).
Qed.

(** A part of the first message is accepted. *)
Lemma unsent_cons c d r : vSendMsg c = d :: r -> 0 <= nSendOffset c <= lenZ d ->
  unsent c = drop (Z.to_nat (nSendOffset c)) d ++ concat r.
Proof. intros E Ho. unfold unsent. rewrite E. cbn [concat]. apply drop_app_le. unfold lenZ in *. lia. Qed.

Lemma Send_loop_spec now rs msgs c :
  vSendMsg c = msgs -> wf_send c ->
  exists c' n, Send_loop now msgs rs c = Some c' /\ wf_send c' /\ sends now c n c' /\
    ((hSocket c' = hSocket c /\ fDisconnect c' = fDisconnect c /\ vRecvMsg c' = vRecvMsg c) \/
     exists lockRecv c0, SendError false lockRecv ∈ rs /\ c' = CloseSocketDisconnect lockRecv c0) /\
    (Forall (fun r => exists k, r = SendAccepts k /\ lenZ (concat msgs) <= k) rs -> lenZ msgs <= lenZ rs -> vSendMsg c' = []).
Proof.
  revert rs c. induction msgs as [|d r IH]; intros rs c E (Hne & Ho & Hs & Hmax); rewrite E in *; cbn [Send_loop].
  { rewrite Ho. change (0 =? 0) with true. rewrite Hs. change (_ =? 0) with true. cbn [andb]. exists c, 0.
    split; [done|]. split; [by unfold wf_send; rewrite E|]. split; [by apply sends_none|]. auto. }
  apply Forall_cons in Hne as [Hd Hne]. destruct (Z.ltb_spec (nSendOffset c) (lenZ d)); [|lia].
  assert (Hwf : wf_send c) by (unfold wf_send; rewrite E; auto).
  destruct rs as [|[n|tr lock] rs].
  - exists c, 0. split; [done|]. split; [done|]. split; [by apply sends_none|]. split; [auto|].
    intros _ Hl. exfalso. rewrite lenZ_cons, lenZ_nil in Hl. pose proof (lenZ_nonneg r). lia.
  - cbv zeta. remember (Z.min n (lenZ d - nSendOffset c)) as k eqn:Hk0.
    assert (Hkd : k <= lenZ d - nSendOffset c /\ (k = n \/ k = lenZ d - nSendOffset c)) by lia. clear Hk0. pose proof (unsent_cons c d r E ltac:(lia)) as Hun.
    cbn [concat] in Hs. rewrite lenZ_app in Hs. pose proof (lenZ_nonneg (concat r)).
    assert (Hkun : k <= lenZ (unsent c)) by (rewrite Hun; unfold lenZ in *; rewrite length_app, length_drop; lia).
    destruct (Z.ltb_spec 0 k) as [Hk|Hk].
    2:{ exists c, 0. split; [done|]. split; [done|]. split; [by apply sends_none|]. split; [auto|].
        intros (? & [= ->] & ?)%Forall_inv _. cbn [concat] in *. rewrite lenZ_app in *. lia. }
    assert (Htake : take (Z.to_nat k) (drop (Z.to_nat (nSendOffset c)) d) = take (Z.to_nat k) (unsent c)).
    { rewrite Hun, take_app_le; [done|]. rewrite length_drop. unfold lenZ in *. lia. }
    destruct (Z.eqb_spec (nSendOffset c + k) (lenZ d)) as [Ek|Ek].
    + set (c1 := set_send r 0 _ _ now _ c).
      assert (Hun1 : unsent c1 = drop (Z.to_nat k) (unsent c)).
      { rewrite Hun. unfold unsent, c1. cbn. rewrite drop_0, drop_app_ge by (rewrite length_drop; unfold lenZ in *; lia).
        rewrite length_drop. replace (_ - _)%nat with 0%nat by (unfold lenZ in *; lia). done. }
      assert (Hs1 : sends now c k c1).
      { unfold sends. rewrite Hun1. unfold c1. cbn. rewrite Htake. split; [lia|]. split_and!; try done.
        - by rewrite wrapu_small by (apply wrapu_range; lia).
        - by destruct (Z.ltb_spec 0 k); [|lia]. }
      assert (Hwf1 : wf_send c1).
      { unfold wf_send, c1. cbn. split; [done|]. split; [by destruct r; [|apply Forall_cons in Hne; lia]|].
        rewrite wrapu_small by (unfold in_u; lia). lia. }
      destruct (IH rs c1 eq_refl Hwf1) as (c' & m & Hrun & Hwf' & Hs' & Hclose & Hall).
      exists c', (k + m). split; [exact Hrun|]. split; [done|]. split; [by eapply sends_trans|]. split.
      * destruct Hclose as [(-> & -> & ->)|(lk & c0 & Hin & Hc)]; [by left|right]. exists lk, c0. split; [by right|done].
      * intros [(? & [= <-] & Hbig) Hrs]%Forall_cons Hl. cbn [concat] in Hbig. rewrite lenZ_app in Hbig.
        rewrite !lenZ_cons in Hl. apply Hall; [|lia]. eapply Forall_impl; [exact Hrs|].
        cbn. intros x (j & -> & Hj). exists j. rewrite lenZ_app in Hj. split; [done|lia].
    + eexists _, k. split; [reflexivity|]. split; [|split; [|split; [by left|]]].
      * unfold wf_send. cbn. split; [by constructor|]. rewrite lenZ_app. lia.
      * unfold sends. cbn. rewrite Htake. split; [lia|]. split_and!; try done.
        -- unfold unsent. cbn. rewrite E. rewrite drop_drop. f_equal. lia.
        -- by rewrite wrapu_small by (apply wrapu_range; lia).
        -- by destruct (Z.ltb_spec 0 k); [|lia].
      * intros (? & [= <-] & Hbig)%Forall_inv _. cbn [concat] in Hbig. rewrite lenZ_app in Hbig. lia.
  - eexists _, 0. split; [reflexivity|]. destruct tr.
    + split; [done|]. split; [by apply sends_none|]. split; [auto|]. by intros (? & [=] & ?)%Forall_inv.
    + split; [exact Hwf|]. split; [by apply sends_none|]. split; [right; exists lock, c; split; [left|done]|]. by intros (? & [=] & ?)%Forall_inv.
Qed.

(** No assertion of [SocketSendData] fails.  Whatever the system accepts, the bytes sent
    are the next ones of the queued messages, each exactly once, and what is left is still to be
    sent; the socket is only closed by an error, and everything is sent when nothing blocks. *)
Theorem SocketSendData_spec now rs c :
  wf_send c ->
  exists c' n, SocketSendData now rs c = Some c' /\ wf_send c' /\ sends now c n c' /\
    (hSocket c' <> hSocket c -> exists lockRecv, SendError false lockRecv ∈ rs) /\
    (Forall (fun r => exists k, r = SendAccepts k /\ lenZ (concat (vSendMsg c)) <= k) rs ->
     lenZ (vSendMsg c) <= lenZ rs -> unsent c' = []).
Proof.
  intros Hwf. destruct (Send_loop_spec now rs (vSendMsg c) c eq_refl Hwf) as (c' & n & Hrun & Hwf' & Hs & Hclose & Hall).
  exists c', n. split; [exact Hrun|]. split; [done|]. split; [done|]. split.
  - intros Hne. destruct Hclose as [(? & _)|(lk & c0 & Hin & _)]; [done|by exists lk].
  - intros Hrs Hl. unfold unsent. rewrite (Hall Hrs Hl). apply drop_nil.
Qed.

(** The comment on the choice of sockets: every node with a socket is selected for
    sending, because it has something to send, or for receiving, or the first message it sent
    is complete and can be handled; never for sending and receiving at once. *)
Theorem select_for_progress c :
  hSocket c = true ->
  (select_for c = (true, false) /\ vSendMsg c <> []) \/ select_for c = (false, true) \/
  (select_for c = (false, false) /\ exists m r, vRecvMsg c = m :: r /\ complete m = true /\ ReceiveFloodSize < GetTotalRecvSize (vRecvMsg c)).
Proof.
  intros Hs. unfold select_for. rewrite Hs. cbn [negb]. destruct (vSendMsg c); [right|by left].
  destruct (vRecvMsg c) as [|m r]; [by left|]. destruct (complete m) eqn:Em; cbn [negb orb]; [|by left].
  destruct (Z.leb_spec (GetTotalRecvSize (m :: r)) ReceiveFloodSize); [by left|right]. split; [done|]. by exists m, r.
Qed.

End Sockets.

(** ** Messages whose size is the last byte of the header *)

Module Examples.

#[global] Instance messages : NetMessages.
Proof.
  refine {| fresh_message := mkNetMessage false (repeat 0 24) 0 0 [] 0;
            complete m := in_data m && (nMessageSize m =? nDataPos m);
            read_size h := let n := h.[23] in if bool_decide (in_u 8 n) then Some n else None;
            MAX_SIZE := 200; GetTotalRecvSize q := lenZ q; ReceiveFloodSize := 5 |}.
  - done.
  - done.
  - intros h n. cbv zeta. case_bool_decide as Hb; [|done]. intros [= <-]. unfold in_u in *. lia.
  - lia.
Defined.

Definition header (n : Z) : bytes := repeat 7 23 ++ [n].

Lemma ReceiveMsgBytes_frames_witness :
  receive_all [header 2 ++ [1]; [2] ++ header 0; header 3; [9]] [] =
    Some (true, [received (header 2, [1; 2]); received (header 0, []); mkNetMessage true (header 3) 24 3 [9; 0; 0] 1])
  /\ exists fs rest, Forall is_frame fs /\
       concat [header 2 ++ [1]; [2] ++ header 0; header 3; [9]] = concat (on_wire <$> fs) ++ rest.
Proof.
  split; [by vm_compute|].
  destruct (ReceiveMsgBytes_frames [header 2 ++ [1]; [2] ++ header 0; header 3; [9]] [] ltac:(constructor))
    as (fs & rest & Hfs & Hc & _).
  by exists fs, rest.
Defined.

Definition conn0 : Conn := mkConn true false [] [[1; 2; 3]; [4]; [5; 6]] 1 6 0 0 0 0 0 0 [1].

Lemma SocketSendData_spec_witness :
  wf_send conn0 /\
  (c ← SocketSendData 9 [SendAccepts 5; SendAccepts 1; SendAccepts 1; SendError true true] conn0; Some (wire c, vSendMsg c, nSendOffset c))
    = Some ([1; 2; 3; 4; 5], [[5; 6]], 1) /\
  exists c' n, SocketSendData 9 [SendAccepts 5; SendAccepts 1] conn0 = Some c' /\ wf_send c' /\ sends 9 conn0 n c'.
Proof.
  assert (Hwf : wf_send conn0) by (split; [by vm_compute; repeat constructor|by vm_compute]).
  split; [exact Hwf|]. split; [by vm_compute|].
  destruct (SocketSendData_spec 9 [SendAccepts 5; SendAccepts 1] conn0 Hwf) as (c' & n & H1 & H2 & H3 & _). by exists c', n.
Defined.

(** The inactivity check and the end of a connection. *)
Example service_timeout : fDisconnect <$> service 100 None None conn0 = Some true.
Proof. by vm_compute. Qed.
Example service_closed : (hSocket <$> service 100 (Some RecvClosed) None conn0) = Some false.
Proof. by vm_compute. Qed.

End Examples.
