(* ===== verification/Protocol.v ===== *)
(** Message headers and inventory objects: src/protocol.cpp.

    Parameters (class [Header]): the start string of the network, [COMMAND_SIZE] of protocol.h
    and [MAX_SIZE] of serialize.h, which are not in the tree.  The addresses of this file are in
    AddrMan.v. *)

From S2P Require Import Prelude NetAddr AddrMan Core Block BigNum Checkpoints Validation Node.

Class Header := {
  MessageStart : bytes;
  COMMAND_SIZE : nat;
  MAX_SIZE : Z;
  COMMAND_SIZE_two : (2 <= COMMAND_SIZE)%nat;
}.

Record CMessageHeader := mkHeader {
  pchMessageStart : bytes; pchCommand : bytes; nMessageSize : Z; nChecksum : Z }.

Section Protocol.
Context `{Header}.

(** The bytes up to the first NUL. *)
Fixpoint cstring (l : bytes) : bytes :=
  match l with [] => [] | c :: r => if c =? 0 then [] else c :: cstring r end.

(** [strncpy]: cut off, or filled up with NUL. *)
Definition strncpy (n : nat) (src : bytes) : bytes := resize n 0 (cstring src).

Definition default_header : CMessageHeader :=
  mkHeader MessageStart (<[1%nat := 1]> (replicate COMMAND_SIZE 0)) (u32 (-1)) 0.

Definition make_header (pszCommand : bytes) (nMessageSizeIn : Z) : CMessageHeader :=
  mkHeader MessageStart (strncpy COMMAND_SIZE pszCommand) nMessageSizeIn 0.

Definition GetCommand (h : CMessageHeader) : bytes :=
  if (pchCommand h).[Z.of_nat COMMAND_SIZE - 1] =? 0 then cstring (pchCommand h) else pchCommand h.

(** The characters of the command: printable up to the first NUL, NUL from there on. *)
Fixpoint command_ok (l : bytes) : bool :=
  match l with
  | [] => true
  | c :: r =>
    if c =? 0 then forallb (fun c => c =? 0) r
    else if (c <? 32) || (0x7E <? c) then false
    else command_ok r
  end.

Definition IsValid (h : CMessageHeader) : bool :=
  if negb (bool_decide (pchMessageStart h = MessageStart)) then false
  else if negb (command_ok (pchCommand h)) then false
  else if MAX_SIZE <? nMessageSize h then false
  else true.

(** ** Inventory objects *)

Definition ppszTypeName : list bytes := [lit "ERROR"; lit "tx"; lit "block"; lit "filtered block"].

Definition CInv_default : CInv := mkInv 0 0.

(** The search for the type of a name, from index [i]. *)
Fixpoint find_type (i : Z) (names : list bytes) (strType : bytes) : option Z :=
  match names with
  | [] => None
  | n :: r => if bool_decide (strType = n) then Some i else find_type (i + 1) r strType
  end.

(** [None]: out_of_range is thrown. *)
Definition CInv_named (strType : bytes) (hashIn : uint256) : option CInv :=
  t ← find_type 1 (drop 1 ppszTypeName) strType; Some (mkInv t hashIn).

Definition CInv_ltb (a b : CInv) : bool :=
  (inv_type a <? inv_type b) || ((inv_type a =? inv_type b) && (inv_hash a <? inv_hash b)).

Definition IsKnownType (i : CInv) : bool := (1 <=? inv_type i) && (inv_type i <? lenZ ppszTypeName).

Definition Inv_GetCommand (i : CInv) : option bytes :=
  if negb (IsKnownType i) then None else Some (nthZ [] ppszTypeName (inv_type i)).

(** ** Theorems *)

Definition printable (c : Z) : Prop := 32 <= c <= 0x7E.

Lemma cstring_printable c r : Forall printable c -> cstring (c ++ 0 :: r) = c.
Proof.
  induction 1 as [|x c Hx _ IH]; [done|]. cbn. unfold printable in Hx. destruct (Z.eqb_spec x 0); [lia|]. by rewrite IH.
Qed.

Lemma cstring_printable_nil c : Forall printable c -> cstring c = c.
Proof. induction 1 as [|x c Hx _ IH]; [done|]. cbn. unfold printable in Hx. destruct (Z.eqb_spec x 0); [lia|]. by rewrite IH. Qed.

Lemma command_ok_spec l : command_ok l = true <-> exists c k, Forall printable c /\ l = c ++ replicate k 0.
Proof.
  split.
  - induction l as [|x l IH]; intros Hl; [by exists [], 0%nat|]. cbn in Hl. destruct (Z.eqb_spec x 0) as [->|Hx].
    + exists [], (S (length l)). split; [done|]. cbn. f_equal. clear IH. induction l as [|y l IHl]; [done|].
      cbn in Hl. apply andb_true_iff in Hl as [->%Z.eqb_eq Hl]. cbn. f_equal. by apply IHl.
    + destruct (_ || _) eqn:E; [done|]. destruct (IH Hl) as (c & k & Hc & ->). exists (x :: c), k.
      split; [constructor; [unfold printable; lia|done]|done].
  - intros (c & k & Hc & ->). induction Hc as [|x c Hx _ IH]; cbn.
    + induction k as [|k IHk]; [done|]. cbn. clear IHk. induction k as [|k IHk]; [done|]. cbn. done.
    + unfold printable in Hx. destruct (Z.eqb_spec x 0); [lia|]. by destruct (Z.ltb_spec x 32), (Z.ltb_spec 0x7E x); cbn; (lia || done).
Qed.

(** The last character of a command tells whether it fills its field. *)
Lemma GetCommand_eq h c k :
  length (pchCommand h) = COMMAND_SIZE -> Forall printable c -> pchCommand h = c ++ replicate k 0 -> GetCommand h = c.
Proof.
  intros Hl Hc E. pose proof COMMAND_SIZE_two. unfold GetCommand.
  destruct k as [|k]; cbn [replicate] in E; [rewrite app_nil_r in E|].
  - rewrite E in *. destruct c as [|x c' _] using rev_ind; [cbn in Hl; lia|].
    apply Forall_app in Hc as [Hc' Hx]. apply Forall_inv in Hx. unfold printable in Hx.
    rewrite length_app in Hl. cbn in Hl. rewrite nthZ_app_r by (unfold lenZ; lia).
    replace (Z.of_nat COMMAND_SIZE - 1 - lenZ c') with 0 by (unfold lenZ; lia). rewrite nthZ_0.
    by destruct (Z.eqb_spec x 0); [lia|].
  - rewrite E in *. destruct (_ =? 0) eqn:Ez; [by apply cstring_printable|]. exfalso.
    rewrite length_app in Hl. cbn in Hl. rewrite length_replicate in Hl.
    rewrite nthZ_app_r in Ez by (unfold lenZ; lia). apply Z.eqb_neq in Ez. apply Ez. clear Ez.
    replace (Z.of_nat COMMAND_SIZE - 1 - lenZ c) with (Z.of_nat k) by (unfold lenZ; lia).
    apply nthZ_lookup. apply (lookup_replicate_2 (S k) 0 k). lia.
Qed.

(** A header is valid exactly when it has the start string of the network, a size that
    is allowed and a command of printable characters filled up with NUL; [GetCommand] then
    returns these characters, and gives back every command a header was made from. *)
Theorem CMessageHeader_command h c n :
  length (pchCommand h) = COMMAND_SIZE ->
  Forall printable c -> (length c <= COMMAND_SIZE)%nat ->
  (IsValid h = true <->
   pchMessageStart h = MessageStart /\ nMessageSize h <= MAX_SIZE /\
   Forall printable (GetCommand h) /\
   pchCommand h = GetCommand h ++ replicate (COMMAND_SIZE - length (GetCommand h)) 0) /\
  GetCommand (make_header c n) = c /\ (IsValid (make_header c n) = true <-> n <= MAX_SIZE).
Proof.
  intros Hl Hc Hlen.
  assert (Hvalid : forall h, IsValid h = true <-> pchMessageStart h = MessageStart /\ command_ok (pchCommand h) = true /\ nMessageSize h <= MAX_SIZE).
  { intros h'. unfold IsValid. case_bool_decide; cbn [negb]; [|intuition done]. destruct (command_ok _); cbn [negb]; [|intuition done].
    destruct (Z.ltb_spec MAX_SIZE (nMessageSize h')); intuition (done || lia). }
  assert (Hmake : pchCommand (make_header c n) = c ++ replicate (COMMAND_SIZE - length c) 0).
  { cbn. unfold strncpy. rewrite cstring_printable_nil, resize_ge by done. done. }
  split; [|split].
  - rewrite Hvalid, command_ok_spec. split.
    + intros (Hs & (c' & k & Hc' & E) & Hn). rewrite (GetCommand_eq h c' k) by done.
      split; [done|]. split; [done|]. split; [done|]. rewrite E in *. f_equal.
      rewrite length_app, length_replicate in Hl. f_equal. lia.
    + intros (Hs & Hn & Hp & E). split; [done|]. split; [|done]. eexists _, _. split; [exact Hp|exact E].
  - eapply GetCommand_eq; [|done|exact Hmake]. rewrite Hmake, length_app, length_replicate. lia.
  - rewrite Hvalid. cbn [pchMessageStart nMessageSize make_header]. rewrite command_ok_spec. split; [by intros (_ & _ & ?)|].
    intros Hn. split; [done|]. split; [|done]. eexists c, _. split; [done|exact Hmake].
Qed.

(** The object names are read back. *)
Lemma CInv_named_GetCommand i n : Inv_GetCommand i = Some n -> CInv_named n (inv_hash i) = Some i.
Proof.
  unfold Inv_GetCommand, IsKnownType. destruct i as [t h]. cbn [inv_type inv_hash]. change (lenZ ppszTypeName) with 4.
  intros Hi. destruct (Z.leb_spec 1 t), (Z.ltb_spec t 4); try done. cbn in Hi. injection Hi as <-.
  assert (t = 1 \/ t = 2 \/ t = 3) as [->|[->| ->]] by lia; by vm_compute.
Qed.

End Protocol.

Module Examples.

#[global] Instance header : Header := {| MessageStart := [0xF9; 0xBE; 0xB4; 0xD9]; COMMAND_SIZE := 12; MAX_SIZE := 0x02000000; COMMAND_SIZE_two := ltac:(lia) |}.

Lemma CMessageHeader_command_witness :
  (forallb (fun c => (32 <=? c) && (c <=? 0x7E)) (lit "getblocks") = true /\ IsValid default_header = false) /\
  GetCommand (make_header (lit "getblocks") 5) = lit "getblocks".
Proof.
  split; [by vm_compute|].
  refine (proj1 (proj2 (CMessageHeader_command (make_header (lit "tx") 5) (lit "getblocks") 5 _ _ _))).
  - by vm_compute.
  - apply (bool_decide_unpack (Forall (fun c => 32 <= c <= 0x7E) (lit "getblocks"))). by vm_compute.
  - vm_compute. lia.
Defined.

End Examples.
