(* ===== verification/NetLocal.v ===== *)
(** The addresses a node knows to be its own: src/net.cpp, [GetLocal] to [IsReachable], and the
    reading of lines with which [GetMyExternalIP2] asks a web server for the external address.

    [mapLocalHost] is a [std::map]: an association list in the order of the addresses.
    Parameters: [LOCAL_MANUAL] of net.h, the adjusted clock, and the members of the nodes in
    [vNodes] that [AdvertizeLocal] uses.  [SetReachable] is called with its default flag, true. *)

From S2P Require Import Prelude Codec NetAddr AddrMan.

Record LocalServiceInfo := mkLocalInfo { nScore : Z; nPort : Z }.

(** ** [std::map<CNetAddr, LocalServiceInfo>] *)

Section Map.
Context {V : Type}.

Fixpoint find (k : CNetAddr) (m : list (CNetAddr * V)) : option V :=
  match m with [] => None | (k', v) :: r => if memeq k k' then Some v else find k r end.

Fixpoint set (k : CNetAddr) (v : V) (m : list (CNetAddr * V)) : list (CNetAddr * V) :=
  match m with
  | [] => [(k, v)]
  | (k', v') :: r =>
    if memlt k k' then (k, v) :: m else if memeq k k' then (k, v) :: r else (k', v') :: set k v r
  end.

(** What every such map is: in the strict order of its keys. *)
Definition sorted (m : list (CNetAddr * V)) : Prop :=
  StronglySorted (fun a b => memlt a b = true) (m.*1).

End Map.

(** The members of a node that matter here; [pushed]: the addresses given to [PushAddress]. *)
Record LNode := mkLNode { ln_fSuccessfullyConnected : bool; ln_addr : CAddress; ln_addrLocal : CAddress; pushed : list CAddress }.

(** The global variables. *)
Record Local := mkLocal {
  mapLocalHost : list (CNetAddr * LocalServiceInfo);
  vfReachable : Network -> bool;
  vfLimited : Network -> bool;
  fDiscover : bool;
  fNoListen : bool;
  nLocalServices : Z;
  vNodes : list LNode }.

Section Local.
Context `{AddressTypes} (LOCAL_MANUAL : Z).

(** The best address so far with its reachability and score; the flag is the result. *)
Fixpoint GetLocal_loop (paddrPeer : option CNetAddr) (m : list (CNetAddr * LocalServiceInfo))
    (nBestScore nBestReachability : Z) (addr : option CService) : bool * option CService :=
  match m with
  | [] => (0 <=? nBestScore, addr)
  | (ip, info) :: r =>
    let nReachability := CNetAddr.GetReachabilityFrom ip paddrPeer in
    if (nBestReachability <? nReachability) || ((nReachability =? nBestReachability) && (nBestScore <? nScore info))
    then GetLocal_loop paddrPeer r (nScore info) nReachability (Some (mkService ip (wrapu 16 (nPort info))))
    else GetLocal_loop paddrPeer r nBestScore nBestReachability addr
  end.

(** The address that is assigned, if any, is the second component. *)
Definition GetLocal (paddrPeer : option CNetAddr) (s : Local) : bool * option CService :=
  if fNoListen s then (false, None) else GetLocal_loop paddrPeer (mapLocalHost s) (-1) (-1) None.

(** [CService("0.0.0.0", 0)]. *)
Definition service_any : CService := mkService (CNetAddr.of_in_addr [0; 0; 0; 0]) 0.

Definition GetLocalAddress (now : Z) (paddrPeer : option CNetAddr) (s : Local) : CAddress :=
  match GetLocal paddrPeer s with
  | (true, Some addr) => mkAddress addr (nLocalServices s) (as_nTime now) 0
  | _ => mkAddress service_any 0 100000000 0
  end.

Definition Advertize_node (now : Z) (s : Local) (n : LNode) : LNode :=
  if ln_fSuccessfullyConnected n then
    let addrLocal := GetLocalAddress now (Some (sv_ip (ca_service (ln_addr n)))) s in
    if CNetAddr.IsRoutable (sv_ip (ca_service addrLocal)) && CService.neqb (ca_service addrLocal) (ca_service (ln_addrLocal n))
    then mkLNode true (ln_addr n) addrLocal (pushed n ++ [addrLocal])
    else n
  else n.

Definition AdvertizeLocal (now : Z) (s : Local) : Local :=
  mkLocal (mapLocalHost s) (vfReachable s) (vfLimited s) (fDiscover s) (fNoListen s) (nLocalServices s)
    (Advertize_node now s <$> vNodes s).

Definition assign {A} (f : Network -> A) (net : Network) (a : A) : Network -> A := fun n => if decide (n = net) then a else f n.

Definition SetReachable (net : Network) (fFlag : bool) (s : Local) : Local :=
  let r := assign (vfReachable s) net fFlag in
  let r := if bool_decide (net = NET_IPV6) && fFlag then assign r NET_IPV4 true else r in
  mkLocal (mapLocalHost s) r (vfLimited s) (fDiscover s) (fNoListen s) (nLocalServices s) (vNodes s).

Definition SetLimited (net : Network) (fLimited : bool) (s : Local) : Local :=
  if bool_decide (net = NET_UNROUTABLE) then s
  else mkLocal (mapLocalHost s) (vfReachable s) (assign (vfLimited s) net fLimited) (fDiscover s) (fNoListen s) (nLocalServices s) (vNodes s).

Definition IsLimited (addr : CNetAddr) (s : Local) : bool := vfLimited s (CNetAddr.GetNetwork addr).

Definition count_local (addr : CService) (s : Local) : bool :=
  match find (sv_ip addr) (mapLocalHost s) with Some _ => true | None => false end.

Definition set_info (ip : CNetAddr) (i : LocalServiceInfo) (s : Local) : Local :=
  mkLocal (set ip i (mapLocalHost s)) (vfReachable s) (vfLimited s) (fDiscover s) (fNoListen s) (nLocalServices s) (vNodes s).

Definition AddLocal (now : Z) (addr : CService) (score : Z) (s : Local) : bool * Local :=
  let ip := sv_ip addr in
  if negb (CNetAddr.IsRoutable ip) then (false, s)
  else if negb (fDiscover s) && (score <? LOCAL_MANUAL) then (false, s)
  else if IsLimited ip s then (false, s)
  else
    let fAlready := count_local addr s in
    let info := default (mkLocalInfo 0 0) (find ip (mapLocalHost s)) in
    let info :=
      if negb fAlready || (nScore info <=? score)
      then mkLocalInfo (score + (if fAlready then 1 else 0)) (port addr) else info in
    let s := set_info ip info s in
    let s := SetReachable (CNetAddr.GetNetwork ip) true s in
    (true, AdvertizeLocal now s).

Definition SeenLocal (now : Z) (addr : CService) (s : Local) : bool * Local :=
  match find (sv_ip addr) (mapLocalHost s) with
  | None => (false, s)
  | Some info => (true, AdvertizeLocal now (set_info (sv_ip addr) (mkLocalInfo (nScore info + 1) (nPort info)) s))
  end.

Definition IsLocal (addr : CService) (s : Local) : bool := count_local addr s.

Definition IsReachable (addr : CNetAddr) (s : Local) : bool :=
  let net := CNetAddr.GetNetwork addr in vfReachable s net && negb (vfLimited s net).

(** [CNode::PushVersion] up to the message: the time, their address and ours. *)
Definition PushVersion (now adjusted : Z) (fInbound : bool) (IsProxy : CNetAddr -> bool) (addr : CAddress) (s : Local) : Z * CAddress * CAddress :=
  let ip := sv_ip (ca_service addr) in
  (if fInbound then adjusted else now,
   if CNetAddr.IsRoutable ip && negb (IsProxy ip) then addr else mkAddress service_any NODE_NETWORK 100000000 0,
   GetLocalAddress adjusted (Some ip) s).

(** ** Lines from a socket *)

(** What [recv] gives: a byte, the end of the connection, or an error, of which the transient
    ones and WSAEMSGSIZE are tried again. *)
Inductive Recv1 := Byte (c : Z) | Closed | Failed (retry : bool).

(** The line and whether one was read, and what is still to be received; the end of the list:
    the call does not return. *)
Fixpoint RecvLine_loop (strLine : bytes) (inp : list Recv1) : option (bool * bytes * list Recv1) :=
  match inp with
  | [] => None
  | Byte c :: r =>
    if c =? 10 then RecvLine_loop strLine r
    else if c =? 13 then Some (true, strLine, r)
    else
      let strLine := strLine ++ [c] in
      if 9000 <=? lenZ strLine then Some (true, strLine, r) else RecvLine_loop strLine r
  | Failed true :: r => RecvLine_loop strLine r
  | (Closed | Failed false) :: r => Some (match strLine with [] => false | _ => true end, strLine, r)
  end.

Definition RecvLine (inp : list Recv1) : option (bool * bytes * list Recv1) := RecvLine_loop [] inp.

(** [strLine.find(s)]: the text from the first occurrence on. *)
Fixpoint find_text (s text : bytes) : option bytes :=
  if bool_decide (take (length s) text = s) then Some text
  else match text with [] => None | _ :: r => find_text s r end.

(** [strLine.substr(0, strLine.find("<"))]. *)
Fixpoint upto (c : Z) (l : bytes) : bytes := match l with [] => [] | x :: r => if x =? c then [] else x :: upto c r end.

Fixpoint skip_blanks (l : bytes) : bytes :=
  match l with x :: r => if (x =? 32) || (x =? 9) || (x =? 10) || (x =? 13) then skip_blanks r else l | [] => [] end.

Definition trim_right (l : bytes) : bytes := rev ((fix go l := match l with x :: r => if isspace x then go r else l | [] => [] end) (rev l)).

(** The address text in the line. *)
Definition address_text (strLine : bytes) : bytes := trim_right (skip_blanks (upto 60 strLine)).

(** The body: up to the line with the keyword. *)
Fixpoint read_body (fuel : nat) (pszKeyword : option bytes) (inp : list Recv1) : option (option bytes) :=
  match fuel with
  | O => None
  | S fuel' =>
    '(ok, strLine, inp) ← RecvLine inp;
    if negb ok then Some None
    else match pszKeyword with
         | None => Some (Some (address_text strLine))
         | Some k => match find_text k strLine with
                     | Some t => Some (Some (address_text (drop (length k) t)))
                     | None => read_body fuel' pszKeyword inp
                     end
         end
  end.

(** The header up to the blank line.  The text of the address, [Some None] when there is none. *)
Fixpoint read_response (fuel : nat) (pszKeyword : option bytes) (inp : list Recv1) : option (option bytes) :=
  match fuel with
  | O => None
  | S fuel' =>
    '(ok, strLine, inp) ← RecvLine inp;
    if negb ok then Some None
    else match strLine with
         | [] => read_body fuel' pszKeyword inp
         | _ => read_response fuel' pszKeyword inp
         end
  end.

(** Behind the connection; [parse] is the constructor [CService(strLine, 0, true)]. *)
Definition GetMyExternalIP2 (parse : bytes -> CService) (pszKeyword : option bytes) (inp : list Recv1) : option (option CNetAddr) :=
  r ← read_response (S (length inp)) pszKeyword inp;
  Some (text ← r;
        let ip := sv_ip (parse text) in
        if negb (CNetAddr.IsValid ip) || negb (CNetAddr.IsRoutable ip) then None else Some ip).

End Local.
