(* ===== verification/NetLocalThms.v ===== *)
(** What NetLocal.v guarantees: the best own address for a peer is chosen, and the peers know it
    after every change; lines are read up to a carriage return. *)

From S2P Require Import Prelude Codec NetAddr AddrMan NetLocal.

(** ** The map of own addresses *)

Section Map.
Context {V : Type}.
Implicit Types (m : list (CNetAddr * V)).

Lemma memeq_refl (k : CNetAddr) : memeq k k = true.
Proof. by apply memeq_true. Qed.

Lemma find_set k v m k' : find k' (set k v m) = if memeq k' k then Some v else find k' m.
Proof.
  induction m as [|[k0 v0] r IH]; cbn [set find]; [done|]. destruct (memlt k k0); [done|].
  destruct (memeq k k0) eqn:E; cbn [find].
  - apply memeq_true in E as ->. by destruct (memeq k' k0).
  - rewrite IH. destruct (memeq k' k0) eqn:E'; [|done]. apply memeq_true in E' as ->.
    destruct (memeq k0 k) eqn:E2; [|done]. apply memeq_true in E2 as ->. by rewrite memeq_refl in E.
Qed.

Lemma set_keys k v m x : x ∈ (set k v m).*1 <-> x = k \/ x ∈ m.*1.
Proof.
  induction m as [|[k0 v0] r IH]; cbn [set]; [cbn; set_solver|]. destruct (memlt k k0); [cbn; set_solver|].
  destruct (memeq k k0) eqn:E; [apply memeq_true in E as ->; cbn; set_solver|].
  change (((k0, v0) :: set k v r).*1) with (k0 :: (set k v r).*1). rewrite elem_of_cons, IH. cbn. set_solver.
Qed.

Lemma set_sorted k v m : Forall (fun k' => length k' = length k) (m.*1) -> sorted m -> sorted (set k v m).
Proof.
  unfold sorted. induction m as [|[k0 v0] r IH]; intros Hlen Hs; cbn [set]; [cbn; by repeat constructor|].
  change (((k0, v0) :: r).*1) with (k0 :: r.*1) in *. apply Forall_cons in Hlen as [Hl0 Hlen].
  destruct (StronglySorted_inv Hs) as [Hr Hk0].
  destruct (memlt k k0) eqn:Elt.
  - change (((k, v) :: (k0, v0) :: r).*1) with (k :: k0 :: r.*1). constructor; [done|]. constructor; [done|].
    eapply Forall_impl; [exact Hk0|]. intros x Hx. by eapply memlt_trans.
  - destruct (memeq k k0) eqn:E.
    + apply memeq_true in E as ->. change (((k0, v) :: r).*1) with (k0 :: r.*1). by constructor.
    + change (((k0, v0) :: set k v r).*1) with (k0 :: (set k v r).*1). constructor; [by apply IH|].
      apply List.Forall_forall. intros x Hx%list_elem_of_In. apply set_keys in Hx as [->|Hx].
      * destruct (memlt_total k k0) as [?|[->|?]]; [done|congruence|by rewrite memeq_refl in E|done].
      * rewrite List.Forall_forall in Hk0. by apply Hk0, list_elem_of_In.
Qed.

End Map.

Section Local.
Context `{AddressTypes} (LOCAL_MANUAL : Z).

(** ** The best address *)

(** What an own address is worth to a peer: reachability first, then the score. *)
Definition worth (peer : option CNetAddr) (e : CNetAddr * LocalServiceInfo) : Z * Z :=
  (CNetAddr.GetReachabilityFrom e.1 peer, nScore e.2).
Definition better (a b : Z * Z) : bool := (b.1 <? a.1) || ((a.1 =? b.1) && (b.2 <? a.2)).

Lemma better_trans a b c : better a b = true -> better b c = true -> better a c = true.
Proof. unfold better. lia. Qed.

Definition service_of (e : CNetAddr * LocalServiceInfo) : CService := mkService e.1 (wrapu 16 (nPort e.2)).

(** The loop ends with the best of the entries and what it started with; of equals the first. *)
Lemma GetLocal_loop_spec peer m bs br addr :
  (GetLocal_loop peer m bs br addr = (0 <=? bs, addr) /\ Forall (fun e => better (worth peer e) (br, bs) = false) m) \/
  exists l e r, m = l ++ e :: r /\ GetLocal_loop peer m bs br addr = (0 <=? nScore e.2, Some (service_of e)) /\
    better (worth peer e) (br, bs) = true /\
    Forall (fun x => better (worth peer e) (worth peer x) = true) l /\
    Forall (fun x => better (worth peer x) (worth peer e) = false) r.
Proof.
  revert bs br addr. induction m as [|[ip info] m IH]; intros bs br addr; cbn [GetLocal_loop]; [by left|].
  set (b := _ || _). assert (Hb : b = better (worth peer (ip, info)) (br, bs)) by done. rewrite Hb. clearbody b. clear Hb.
  destruct (better (worth peer (ip, info)) (br, bs)) eqn:E.
  - right. destruct (IH (nScore info) (CNetAddr.GetReachabilityFrom ip peer) (Some (mkService ip (wrapu 16 (nPort info)))))
      as [[-> Hr]|(l & e & r & -> & -> & He & Hl & Hr)].
    + exists [], (ip, info), m. done.
    + exists ((ip, info) :: l), e, r. split; [done|]. split; [done|]. split; [|split; [by constructor|done]].
      exact (better_trans _ _ _ He E).
  - destruct (IH bs br addr) as [[-> Hr]|(l & e & r & -> & -> & He & Hl & Hr)].
    + left. by split; [|constructor].
    + right. exists ((ip, info) :: l), e, r. split; [done|]. split; [done|]. split; [done|]. split; [|done].
      constructor; [|done]. unfold better in *. cbn [fst snd] in *. lia.
Qed.

Lemma reachability_nonneg ip peer : 0 <= CNetAddr.GetReachabilityFrom ip peer.
Proof.
  unfold CNetAddr.GetReachabilityFrom. destruct (negb _); [done|]. cbv zeta.
  destruct (CNetAddr.GetExtNetwork peer) as [[]| |], (CNetAddr.GetExtNetwork (Some ip)) as [[]| |]; try done;
    by destruct (_ || _).
Qed.

(** [GetLocal] chooses, of the addresses known to be local, the one best reachable
    from the peer, among these the one with the highest score, and of equals the first; it
    reports success unless there is none, its score is negative or listening is disabled. *)
Theorem GetLocal_best peer s :
  fNoListen s = false -> mapLocalHost s <> [] ->
  exists l e r, mapLocalHost s = l ++ e :: r /\
    GetLocal peer s = (0 <=? nScore e.2, Some (service_of e)) /\
    Forall (fun x => better (worth peer e) (worth peer x) = true) l /\
    Forall (fun x => better (worth peer x) (worth peer e) = false) r.
Proof.
  intros Hl Hne. unfold GetLocal. rewrite Hl. destruct (GetLocal_loop_spec peer (mapLocalHost s) (-1) (-1) None) as [[_ Hf]|(l & e & r & Hm & Hg & _ & H1 & H2)].
  - exfalso. destruct (mapLocalHost s) as [|e m]; [done|]. apply Forall_inv in Hf. unfold better, worth in Hf. cbn in Hf.
    pose proof (reachability_nonneg e.1 peer). lia.
  - exists l, e, r. done.
Qed.

(** ** Changes *)

(** After [AdvertizeLocal] every connected node was told the address that is best for it. *)
Definition advertized (now : Z) (s : Local) : Prop :=
  Forall (fun n => ln_fSuccessfullyConnected n = true ->
    let a := GetLocalAddress now (Some (sv_ip (ca_service (ln_addr n)))) s in
    CNetAddr.IsRoutable (sv_ip (ca_service a)) = true -> ca_service (ln_addrLocal n) = ca_service a) (vNodes s).

Lemma AdvertizeLocal_advertized now s : advertized now (AdvertizeLocal now s).
Proof.
  unfold advertized. change (vNodes (AdvertizeLocal now s)) with (Advertize_node now s <$> vNodes s).
  apply Forall_fmap, Forall_true. intros n. cbn [compose]. unfold compose, Advertize_node.
  destruct (ln_fSuccessfullyConnected n) eqn:Ec; [|by rewrite Ec].
  set (a := GetLocalAddress now _ s). intros _. destruct (_ && _) eqn:E; cbv zeta; [done|].
  change (GetLocalAddress now (Some (sv_ip (ca_service (ln_addr n)))) (AdvertizeLocal now s)) with a.
  intros Hr. rewrite Hr in E. cbn in E. by apply ServiceOrder.neqb_false in E.
Qed.

(** [AddLocal] takes exactly the routable addresses of networks that are not limited,
    discovered ones only when discovery is on; otherwise nothing changes.  The address is then
    known to be local and reachable with at least the given score and never a lower one than
    before, no other address changes, and every connected peer was told its best address. *)
Theorem AddLocal_spec now addr score s :
  let ip := sv_ip addr in
  Forall (fun k => length k = length ip) ((mapLocalHost s).*1) -> sorted (mapLocalHost s) ->
  let '(r, s') := AddLocal LOCAL_MANUAL now addr score s in
  (r = true <-> CNetAddr.IsRoutable ip = true /\ (fDiscover s = true \/ LOCAL_MANUAL <= score) /\ IsLimited ip s = false) /\
  (r = false -> s' = s) /\
  (r = true ->
   sorted (mapLocalHost s') /\ IsLocal addr s' = true /\ IsReachable ip s' = true /\
   (forall ip', ip' <> ip -> find ip' (mapLocalHost s') = find ip' (mapLocalHost s)) /\
   (exists i, find ip (mapLocalHost s') = Some i /\ score <= nScore i /\
      forall i0, find ip (mapLocalHost s) = Some i0 -> nScore i0 <= nScore i) /\
   advertized now s').
Proof.
  cbv zeta. intros Hlen Hs. unfold AddLocal. destruct (CNetAddr.IsRoutable (sv_ip addr)) eqn:Er; cbn [negb].
  2:{ split; [|done]. by split; [|intros [? _]]. }
  destruct (negb (fDiscover s) && (score <? LOCAL_MANUAL)) eqn:Ed.
  { split; [|done]. split; [done|]. intros (_ & [Hd|Hd] & _); [rewrite Hd in Ed; done|]. apply andb_true_iff in Ed. lia. }
  destruct (IsLimited (sv_ip addr) s) eqn:El.
  { split; [|done]. by split; [|intros (_ & _ & ?)]. }
  cbv zeta. set (i := if _ || _ then _ else _). set (s1 := SetReachable _ true _).
  split; [|split; [done|]].
  { split; [|done]. intros _. split; [done|]. split; [|done]. destruct (fDiscover s); [by left|right]. cbn in Ed. lia. }
  intros _. assert (Hm : mapLocalHost s1 = set (sv_ip addr) i (mapLocalHost s)) by done.
  assert (Hf : find (sv_ip addr) (mapLocalHost s1) = Some i) by (by rewrite Hm, find_set, memeq_refl).
  split_and!.
  - change (sorted (mapLocalHost s1)). rewrite Hm. by apply set_sorted.
  - unfold IsLocal, count_local. change (mapLocalHost (AdvertizeLocal now s1)) with (mapLocalHost s1). by rewrite Hf.
  - unfold IsReachable. cbv zeta. change (vfLimited (AdvertizeLocal now s1)) with (vfLimited s).
    unfold IsLimited in El. rewrite El. cbn [negb]. rewrite andb_true_r.
    change (vfReachable (AdvertizeLocal now s1)) with (vfReachable s1). unfold s1, SetReachable. cbn [vfReachable].
    destruct (bool_decide _ && true); unfold assign; repeat case_decide; done.
  - intros ip' Hne. change (mapLocalHost (AdvertizeLocal now s1)) with (mapLocalHost s1). rewrite Hm, find_set.
    destruct (memeq ip' (sv_ip addr)) eqn:E; [|done]. by apply memeq_true in E.
  - exists i. split; [done|]. unfold i, count_local. destruct (find (sv_ip addr) (mapLocalHost s)) as [i0|] eqn:E0; cbn [default negb orb id].
    + destruct (Z.leb_spec (nScore i0) score); cbn [nScore]; (split; [lia|]); intros ? [= <-]; lia.
    + cbn [nScore]. split; [lia|done].
  - apply AdvertizeLocal_advertized.
Qed.

(** ** Lines *)

(** A line is what comes before the carriage return, without line feeds. *)
Lemma RecvLine_spec l r :
  ~ 13 ∈ l -> lenZ (filter (fun c => c <> 10) l) < 9000 ->
  RecvLine (Byte <$> l ++ 13 :: r) = Some (true, filter (fun c => c <> 10) l, Byte <$> r).
Proof.
  intros Hcr Hlen. unfold RecvLine.
  assert (Hgen : forall acc, lenZ acc + lenZ (filter (fun c => c <> 10) l) < 9000 ->
    RecvLine_loop acc (Byte <$> l ++ 13 :: r) = Some (true, acc ++ filter (fun c => c <> 10) l, Byte <$> r)).
  { clear Hlen. induction l as [|c l IH]; intros acc Hl; [by rewrite app_nil_r|].
    cbn [app fmap list_fmap RecvLine_loop]. rewrite filter_cons in *. apply not_elem_of_cons in Hcr as [Hc Hcr].
    destruct (Z.eqb_spec c 10) as [->|Hne]; [by apply IH|].
    destruct (decide (c <> 10)); [|done]. destruct (Z.eqb_spec c 13); [done|]. rewrite lenZ_cons in Hl.
    pose proof (lenZ_nonneg (filter (fun c => c <> 10) l)).
    destruct (Z.leb_spec 9000 (lenZ (acc ++ [c]))) as [Hx|Hx]; [rewrite lenZ_app, lenZ_cons, lenZ_nil in Hx; lia|].
    rewrite IH by (try done; rewrite lenZ_app, lenZ_cons, lenZ_nil; lia). by rewrite <-(assoc_L (++)). }
  by rewrite Hgen by (rewrite lenZ_nil; lia).
Qed.

End Local.

Module Examples.

#[global] Instance address_types : AddressTypes := {| as_nTime z := wrapu 32 z; NODE_NETWORK := 1 |}.

Definition own (n : Z) : CService := mkService (CNetAddr.of_in_addr [8; 8; 8; n]) 8333.
Definition peer : LNode := mkLNode true (mkAddress (own 200) 1 0 0) (mkAddress service_any 0 0 0) [].
Definition local0 : Local := mkLocal [(sv_ip (own 4), mkLocalInfo 1 8333)] (fun _ => false) (fun _ => false) true false 1 [peer].

Lemma AddLocal_spec_witness :
  (sorted (mapLocalHost local0) /\ (AddLocal 4 9 (own 5) 2 local0).1 = true) /\
  let '(r, s') := AddLocal 4 9 (own 5) 2 local0 in r = true -> advertized 9 s'.
Proof.
  assert (Hs : sorted (mapLocalHost local0)) by (by repeat constructor).
  assert (Hl : Forall (fun k : CNetAddr => length k = length (sv_ip (own 5))) ((mapLocalHost local0).*1)) by (by repeat constructor).
  split; [split; [exact Hs|by vm_compute]|].
  pose proof (AddLocal_spec 4 9 (own 5) 2 local0 Hl Hs) as HA.
  destruct (AddLocal 4 9 (own 5) 2 local0) as [r s']. intros Hr. by apply HA.
Defined.

Lemma GetLocal_best_witness :
  (fNoListen local0 = false /\ GetLocal None local0 = (true, Some (own 4))) /\
  exists l e r, mapLocalHost local0 = l ++ e :: r /\ GetLocal None local0 = (0 <=? nScore e.2, Some (service_of e)).
Proof.
  split; [by vm_compute|].
  destruct (GetLocal_best None local0 ltac:(done) ltac:(done)) as (l & e & r & H1 & H2 & _). by exists l, e, r.
Defined.

(** The answer of a web server. *)
Definition answer : list Recv1 :=
  Byte <$> lit "HTTP/1.1 200 OK" ++ [13; 10] ++ lit "Host: x" ++ [13; 10; 13; 10] ++ lit "<body>Address: 8.8.8.8</body>" ++ [13; 10].
Example external_ip :
  GetMyExternalIP2 (fun t => if bool_decide (t = lit "8.8.8.8") then own 8 else service_any) (Some (lit "Address:")) answer
  = Some (Some (sv_ip (own 8))).
Proof. by vm_compute. Qed.

End Examples.
