(* ===== verification/Relay.v ===== *)
(** Relaying of transactions: src/net.cpp, [RelayTransaction], with [mapRelay] and
    [vRelayExpiration].

    Parameters: [MSG_TX] of protocol.h, and what Bloom.v takes from script.h.  Of a node only
    the members used here are kept; [r_inventory] is what was given to [PushInventory].
    [None]: a division by zero in a filter. *)

From S2P Require Import Prelude Digits Core Bloom BloomThms NetAddr AddrMan Block BigNum Checkpoints Validation Node.
Import CBloomFilter.

#[global] Instance CInv_countable : Countable CInv.
Proof.
  apply (inj_countable' (fun i => (inv_type i, inv_hash i)) (fun p => mkInv p.1 p.2)). by intros [].
Defined.

Record RNode := mkRNode { r_fRelayTxes : bool; r_pfilter : option CBloomFilter; r_inventory : list CInv }.

Record Relay := mkRelay {
  mapRelay : gmap CInv bytes;
  vRelayExpiration : list (Z * CInv);
  r_vNodes : list RNode }.

Section Relay.
Context (GetOps : CScript -> list bytes) (Solver_pubkey : CScript -> bool) (MSG_TX : Z).

(** Expire old relay messages. *)
Fixpoint expire (now : Z) (exps : list (Z * CInv)) (m : gmap CInv bytes) : list (Z * CInv) * gmap CInv bytes :=
  match exps with
  | (t, inv) :: r => if t <? now then expire now r (delete inv m) else (exps, m)
  | [] => ([], m)
  end.

Definition PushInventory (inv : CInv) (n : RNode) : RNode := mkRNode (r_fRelayTxes n) (r_pfilter n) (r_inventory n ++ [inv]).

Definition relay_node (tx : CTransaction) (h : uint256) (inv : CInv) (n : RNode) : option RNode :=
  if negb (r_fRelayTxes n) then Some n
  else match r_pfilter n with
       | Some f =>
         '(relevant, f') ← IsRelevantAndUpdate GetOps Solver_pubkey tx h f;
         let n := mkRNode (r_fRelayTxes n) (Some f') (r_inventory n) in
         Some (if relevant : bool then PushInventory inv n else n)
       | None => Some (PushInventory inv n)
       end.

Definition RelayTransaction (now : Z) (tx : CTransaction) (h : uint256) (ss : bytes) (s : Relay) : option Relay :=
  let inv := mkInv MSG_TX h in
  let '(exps, m) := expire now (vRelayExpiration s) (mapRelay s) in
  let m := match m !! inv with Some _ => m | None => <[inv := ss]> m end in
  let exps := exps ++ [(now + 15 * 60, inv)] in
  nodes ← mapM (relay_node tx h inv) (r_vNodes s);
  Some (mkRelay m exps nodes).

(** ** Expiration *)

(** The expirations are in order and not too far ahead, and everything kept will expire. *)
Definition relay_ok (now : Z) (s : Relay) : Prop :=
  StronglySorted Z.le ((vRelayExpiration s).*1) /\
  Forall (fun e => e.1 <= now + 15 * 60) (vRelayExpiration s) /\
  (forall i, is_Some (mapRelay s !! i) -> exists t, (t, i) ∈ vRelayExpiration s).

Definition expires (now : Z) (exps : list (Z * CInv)) (i : CInv) : Prop := Exists (fun e => e.2 = i /\ e.1 < now) exps.
Definition expired (now : Z) (s : Relay) (i : CInv) : Prop := expires now (vRelayExpiration s) i.
#[local] Instance expires_dec now exps i : Decision (expires now exps i).
Proof. unfold expires. apply _. Defined.

Lemma expire_spec now exps m :
  StronglySorted Z.le (exps.*1) ->
  let '(exps', m') := expire now exps m in
  (forall e, e ∈ exps' <-> e ∈ exps /\ now <= e.1) /\ StronglySorted Z.le (exps'.*1) /\
  (forall i, (expires now exps i -> m' !! i = None) /\ (~ expires now exps i -> m' !! i = m !! i)).
Proof.
  revert m. induction exps as [|[t inv] r IH]; intros m Hs; cbn [expire].
  { split; [set_solver|]. split; [done|]. intros i. split; [|done]. intros Hex. by apply Exists_nil in Hex. }
  change (((t, inv) :: r).*1) with (t :: r.*1) in Hs. destruct (StronglySorted_inv Hs) as [Hr Ht].
  assert (Hle : forall e, e ∈ (t, inv) :: r -> t <= e.1).
  { intros e [->|He]%elem_of_cons; [done|]. rewrite List.Forall_forall in Ht. apply Ht, list_elem_of_In. by apply list_elem_of_fmap_2. }
  destruct (Z.ltb_spec t now) as [Hlt|Hge].
  - specialize (IH (delete inv m) Hr). destruct (expire now r (delete inv m)) as [exps' m']. destruct IH as (He & Hs' & Hm). split; [|split; [done|]].
    + intros e. rewrite He, elem_of_cons. split; [intros [? ?]; auto|]. intros [[->|?] ?]; [cbn in *; lia|done].
    + intros i. unfold expires in *. rewrite Exists_cons. destruct (Hm i) as [H1 H2]. cbn [fst snd].
      destruct (decide (expires now r i)) as [Hx|Hx]; [split; [auto|]; intros []; by right|]. rewrite (H2 Hx). split.
      * intros [[-> _]|?]; [apply lookup_delete_eq|done].
      * intros Hno. apply lookup_delete_ne. intros <-. apply Hno. by left.
  - split; [|split; [done|]].
    + intros e. split; [|by intros [? _]]. intros He. split; [done|]. specialize (Hle e He). lia.
    + intros i. split; [|done]. intros (e & He & _ & Hlt)%Exists_exists. specialize (Hle e He). lia.
Qed.

(** ** Nodes *)

Definition filter_ok (n : RNode) : Prop := match r_pfilter n with Some f => wf f | None => True end.

(** The node wants transactions, and its filter, if it has one, finds this one relevant. *)
Definition wants (tx : CTransaction) (h : uint256) (n : RNode) : Prop :=
  r_fRelayTxes n = true /\
  match r_pfilter n with Some f => exists f', IsRelevantAndUpdate GetOps Solver_pubkey tx h f = Some (true, f') | None => True end.

Lemma relay_node_spec tx h inv n :
  filter_ok n ->
  exists n', relay_node tx h inv n = Some n' /\ filter_ok n' /\
    (wants tx h n -> r_inventory n' = r_inventory n ++ [inv]) /\ (~ wants tx h n -> r_inventory n' = r_inventory n).
Proof.
  intros Hf. unfold relay_node, wants, filter_ok in *. destruct (r_fRelayTxes n) eqn:Er; cbn [negb].
  2:{ exists n. split; [done|]. split; [done|]. by split; [intros [? _]|]. }
  destruct (r_pfilter n) as [f|] eqn:Ef.
  - destruct (IsRelevant_spec GetOps Solver_pubkey tx h f Hf) as (b & f' & -> & (Hw & _) & _). cbn [mbind option_bind].
    destruct b; eexists; (split; [reflexivity|]); (split; [exact Hw|]); cbn.
    + split; [done|]. intros Hno. exfalso. apply Hno. split; [done|]. by exists f'.
    + split; [|done]. by intros [_ (? & [=])].
  - eexists. split; [reflexivity|]. cbn. split; [by rewrite Ef|]. split; [done|]. intros Hno. exfalso. by apply Hno.
Qed.

Lemma relay_nodes_spec tx h inv ns :
  Forall filter_ok ns ->
  exists ns', mapM (relay_node tx h inv) ns = Some ns' /\ Forall filter_ok ns' /\
    Forall2 (fun n n' => (wants tx h n -> r_inventory n' = r_inventory n ++ [inv]) /\ (~ wants tx h n -> r_inventory n' = r_inventory n)) ns ns'.
Proof.
  induction 1 as [|n ns Hn _ (ns' & IH & Hok & Hall)]; [by exists []|].
  destruct (relay_node_spec tx h inv n Hn) as (n' & Hr & Hok' & H1).
  exists (n' :: ns'). cbn [mapM]. rewrite Hr. cbn [mbind option_bind]. rewrite IH. cbn. split; [done|]. split; by constructor.
Qed.

(** A relayed transaction is kept for the nodes that ask for it; what expired before,
    and nothing else, is dropped, and everything kept will expire.  The nodes it is announced
    to are exactly those that want transactions and whose filter, if any, finds it relevant. *)
Theorem RelayTransaction_spec now tx h ss s :
  relay_ok now s -> Forall filter_ok (r_vNodes s) ->
  let inv := mkInv MSG_TX h in
  exists s', RelayTransaction now tx h ss s = Some s' /\
    relay_ok now s' /\ Forall filter_ok (r_vNodes s') /\ is_Some (mapRelay s' !! inv) /\
    (forall i, i <> inv -> (expired now s i -> mapRelay s' !! i = None) /\ (~ expired now s i -> mapRelay s' !! i = mapRelay s !! i)) /\
    (mapRelay s !! inv = None \/ expired now s inv -> mapRelay s' !! inv = Some ss) /\
    Forall2 (fun n n' => (wants tx h n -> r_inventory n' = r_inventory n ++ [inv]) /\
                         (~ wants tx h n -> r_inventory n' = r_inventory n)) (r_vNodes s) (r_vNodes s').
Proof.
  intros (Hs & Hle & Hdom) Hn inv. unfold RelayTransaction. pose proof (expire_spec now (vRelayExpiration s) (mapRelay s) Hs) as He.
  fold inv. destruct (expire now (vRelayExpiration s) (mapRelay s)) as [exps m]. destruct He as (He & Hs' & Hm).
  destruct (relay_nodes_spec tx h inv (r_vNodes s) Hn) as (ns & -> & Hok & Hall). cbn [mbind option_bind].
  set (m' := match m !! inv with Some _ => m | None => <[inv := ss]> m end).
  assert (Hm' : forall i, i <> inv -> m' !! i = m !! i).
  { intros i Hne. unfold m'. destruct (m !! inv); [done|]. by apply lookup_insert_ne. }
  eexists. split; [reflexivity|]. unfold relay_ok. cbn [mapRelay vRelayExpiration r_vNodes]. split_and!; try done.
  - rewrite fmap_app. cbn. apply StronglySorted_app_2; [|done|by repeat constructor].
    intros x y (e & -> & Hin)%list_elem_of_fmap ->%list_elem_of_singleton.
    apply He in Hin as [Hin _]. rewrite Forall_forall in Hle. specialize (Hle e Hin). lia.
  - apply Forall_app. split; [|by repeat constructor; cbn; lia]. apply Forall_forall. intros e Hin. apply He in Hin as [Hin _].
    by rewrite Forall_forall in Hle; apply Hle.
  - intros i Hi. destruct (decide (i = inv)) as [->|Hne]; [exists (now + 15 * 60); set_solver|]. rewrite Hm' in Hi by done.
    destruct (Hm i) as [H1 H2]. destruct (decide (expires now (vRelayExpiration s) i)) as [Hx|Hx].
    { exfalso. rewrite (H1 Hx) in Hi. by destruct Hi. }
    rewrite (H2 Hx) in Hi. destruct (Hdom i Hi) as [t Ht]. exists t. apply elem_of_app. left. apply He. split; [done|].
    cbn. destruct (Z.lt_ge_cases t now); [|done]. exfalso. apply Hx, Exists_exists. by exists (t, i).
  - unfold m'. destruct (m !! inv) eqn:E; [by eexists|]. rewrite lookup_insert_eq. by eexists.
  - intros i Hne. rewrite Hm' by done. apply Hm.
  - intros Hor. assert (m !! inv = None) as E.
    { destruct (Hm inv) as [H1 H2]. destruct Hor as [Hnone|Hexp]; [|by apply H1].
      destruct (decide (expires now (vRelayExpiration s) inv)) as [Hx|Hx]; [by apply H1|by rewrite (H2 Hx)]. }
    unfold m'. rewrite E. apply lookup_insert_eq.
Qed.

(** A node that wants transactions and has sent an empty filter, which passes the checks: the
    next transaction relayed divides by zero. *)
Theorem RelayTransaction_empty_filter now tx h ss s n nFuncs tweak flags :
  n ∈ r_vNodes s -> r_fRelayTxes n = true -> r_pfilter n = Some (mkFilter [] nFuncs tweak flags) -> 0 < nFuncs <= MAX_HASH_FUNCS ->
  IsWithinSizeConstraints (mkFilter [] nFuncs tweak flags) = true /\ RelayTransaction now tx h ss s = None.
Proof.
  intros Hin Hr Hf Hn. destruct (Bloom_empty nFuncs tweak flags (hash_bytes h) Hn) as (Hsize & _ & Hc). split; [done|].
  unfold RelayTransaction. destruct (expire _ _ _) as [exps m]. destruct (mapM _ _) as [ns|] eqn:E; [|done]. exfalso.
  apply mapM_Some in E. apply list_elem_of_lookup in Hin as [i Hi]. destruct (Forall2_lookup_l _ _ _ _ _ E Hi) as (n' & _ & Hn').
  unfold relay_node in Hn'. rewrite Hr, Hf in Hn'. cbn [negb] in Hn'. unfold IsRelevantAndUpdate, contains_hash in Hn'. by rewrite Hc in Hn'.
Qed.

End Relay.

Module Examples.

Definition tx : CTransaction := mkTx 1 [] [mkTxOut 5 [1]] 0.
Definition nodes : list RNode :=
  [mkRNode true None []; mkRNode false None []; mkRNode true (Some (mkFilter [0; 0; 0] 5 0 0)) []].
Definition relay0 : Relay :=
  mkRelay (<[mkInv 1 7 := [9]]> ∅) [(50, mkInv 1 7)] nodes.

Lemma RelayTransaction_spec_witness :
  (relay_ok 60 relay0 /\ Forall filter_ok (r_vNodes relay0)) /\
  (r_inventory <$> default [] (r_vNodes <$> RelayTransaction (fun _ => []) (fun _ => false) 1 60 tx 3 [4] relay0)) = [[mkInv 1 3]; []; []] /\
  exists s', RelayTransaction (fun _ => []) (fun _ => false) 1 60 tx 3 [4] relay0 = Some s' /\ relay_ok 60 s'.
Proof.
  assert (Hr : relay_ok 60 relay0).
  { split; [by repeat constructor|]. split; [by repeat constructor; cbn; lia|]. intros i [x Hx]. unfold relay0 in *. cbn in *.
    apply lookup_insert_Some in Hx as [[<- _]|[_ Hx]]; [exists 50; by left|by rewrite lookup_empty in Hx]. }
  assert (Hf : Forall filter_ok (r_vNodes relay0)).
  { repeat constructor; cbn; by vm_compute. }
  split; [split; [exact Hr|exact Hf]|]. split; [by vm_compute|].
  destruct (RelayTransaction_spec (fun _ => []) (fun _ => false) 1 60 tx 3 [4] relay0 Hr Hf) as (s' & H1 & H2 & _). exists s'. split; [exact H1|exact H2].
Defined.

Lemma RelayTransaction_empty_filter_witness :
  (0 < 5 <= MAX_HASH_FUNCS) /\
  RelayTransaction (fun _ => []) (fun _ => false) 1 60 tx 3 [4] (mkRelay ∅ [] [mkRNode true (Some (mkFilter [] 5 0 0)) []]) = None.
Proof.
  split; [by vm_compute|].
  refine (proj2 (RelayTransaction_empty_filter (fun _ => []) (fun _ => false) 1 60 tx 3 [4]
    (mkRelay ∅ [] [mkRNode true (Some (mkFilter [] 5 0 0)) []]) (mkRNode true (Some (mkFilter [] 5 0 0)) []) 5 0 0 _ _ _ _)).
  - by left.
  - done.
  - done.
  - by vm_compute.
Defined.

End Examples.
