(* ===== verification/Pool.v ===== *)
(** The nodes a process is connected to: src/net.cpp, [FindNode], [ConnectNode],
    [OpenNetworkConnection], [CloseSocketDisconnect], the opening and closing of connections in
    [ThreadSocketHandler], [StartSync] and what [ThreadMessageHandler] does with the nodes; the
    choice of an address in [ThreadOpenConnections].

    Nodes are objects on a heap, [vNodes], [vNodesDisconnected] and [pnodeSync] hold pointers.
    A dereference of a pointer to a deleted node is a failure ([None] of the monad).  The threads
    interleave: [Label] lists their steps, each the section of code that runs under [cs_vNodes]
    or uses only nodes the thread holds a reference to; [OpenNetworkConnection] is one step.

    net.h is not in the tree.  Parameters (class [Refs]): the reference count of a node with its
    documented behaviour; further the constructor's choice of a name, the constants of version.h,
    name look-up and the connection itself ([connected]: the address when it succeeds). *)

From S2P Require Import Prelude Monad NetAddr.

Class Refs := {
  R : Type;
  ref_new : R;
  AddRef : R -> R;
  Release : R -> R;
  GetRefCount : Z -> R -> Z;            (* at a time *)
  refs : R -> Z;                        (* how often more it was added than released *)
  refs_new : refs ref_new = 0;
  refs_AddRef r : refs (AddRef r) = refs r + 1;
  refs_Release r : refs (Release r) = refs r - 1;
  GetRefCount_pos now r : 0 < refs r -> 0 < GetRefCount now r;
}.

(** What the message handlers change. *)
Record Status := mkStatus {
  fClient : bool; fSuccessfullyConnected : bool; nStartingHeight : Z; nVersion : Z; nLastRecv : Z;
  recvEmpty : bool; sendEmpty : bool; nTimeConnected : Z }.

Record PNode `{Refs} := mkPNode {
  addr : CService; addrName : bytes; fInbound : bool; status : Status; refcount : R;
  fDisconnect : bool; hSocket : bool; fNetworkNode : bool; fOneShot : bool; grantOutbound : bool; fStartSync : bool }.

Record Pool `{Refs} := mkPool {
  objs : gmap Z PNode;
  vNodes : list Z;
  vNodesDisconnected : list Z;
  pnodeSync : option Z;
  attempts : list CService }.            (* the calls of [addrman.Attempt] *)

Arguments mkPNode {_}.
Arguments mkPool {_}.

Definition MAX_OUTBOUND_CONNECTIONS : Z := 8.

Section Pool.
Context `{Refs}.
Context (IsLocal : CService -> bool) (IsBanned : CNetAddr -> bool) (ToStringIPPort : CService -> bytes)
        (node_name : CService -> bytes -> bytes) (NOBLKS_VERSION_START NOBLKS_VERSION_END : Z)
        (nMaxConnections : Z) (setservAddNodeAddresses : list CNetAddr).

Definition deref (p : Z) : M Pool PNode := fun s => match objs s !! p with Some n => Some (n, s) | None => None end.
Definition assign (p : Z) (n : PNode) : M Pool unit := modify (fun s => mkPool (<[p := n]> (objs s)) (vNodes s) (vNodesDisconnected s) (pnodeSync s) (attempts s)).
Definition update (p : Z) (f : PNode -> PNode) : M Pool unit := n <- deref p ;; assign p (f n).

Definition set_refs (f : R -> R) (n : PNode) : PNode :=
  mkPNode (addr n) (addrName n) (fInbound n) (status n) (f (refcount n)) (fDisconnect n) (hSocket n) (fNetworkNode n) (fOneShot n) (grantOutbound n) (fStartSync n).
Definition set_status (st : Status) (n : PNode) : PNode :=
  mkPNode (addr n) (addrName n) (fInbound n) st (refcount n) (fDisconnect n) (hSocket n) (fNetworkNode n) (fOneShot n) (grantOutbound n) (fStartSync n).
Definition set_grant (b : bool) (n : PNode) : PNode :=
  mkPNode (addr n) (addrName n) (fInbound n) (status n) (refcount n) (fDisconnect n) (hSocket n) (fNetworkNode n) (fOneShot n) b (fStartSync n).
Definition set_sync (n : PNode) : PNode :=
  mkPNode (addr n) (addrName n) (fInbound n) (status n) (refcount n) (fDisconnect n) (hSocket n) (fNetworkNode n) (fOneShot n) (grantOutbound n) true.
Definition closed (lockRecv : bool) (n : PNode) : PNode :=
  let st := status n in
  let st := mkStatus (fClient st) (fSuccessfullyConnected st) (nStartingHeight st) (nVersion st) (nLastRecv st) (lockRecv || recvEmpty st) (sendEmpty st) (nTimeConnected st) in
  mkPNode (addr n) (addrName n) (fInbound n) st (refcount n) true false (fNetworkNode n) (fOneShot n) (grantOutbound n) (fStartSync n).
Definition connected_at (now : Z) (n : PNode) : PNode :=
  let st := status n in
  set_status (mkStatus (fClient st) (fSuccessfullyConnected st) (nStartingHeight st) (nVersion st) (nLastRecv st) (recvEmpty st) (sendEmpty st) now) n.
Definition opened (fOneShot' grant : bool) (n : PNode) : PNode :=
  mkPNode (addr n) (addrName n) (fInbound n) (status n) (refcount n) (fDisconnect n) (hSocket n) true (fOneShot n || fOneShot') (grantOutbound n || grant) (fStartSync n).

Definition set_pnodeSync (p : option Z) : M Pool unit := modify (fun s => mkPool (objs s) (vNodes s) (vNodesDisconnected s) p (attempts s)).

(** [CNode::CloseSocketDisconnect]. *)
Definition CloseSocketDisconnect (lockRecv : bool) (p : Z) : M Pool unit :=
  update p (closed lockRecv) ;;;
  s <- get ;; when bool_decide (pnodeSync s = Some p) then_ set_pnodeSync None.

(** ** Disconnecting and deleting nodes *)

Definition remove_node (p : Z) : M Pool unit :=
  modify (fun s => mkPool (objs s) (filter (fun q => q <> p) (vNodes s)) (vNodesDisconnected s) (pnodeSync s) (attempts s)).
Definition push_disconnected (p : Z) : M Pool unit :=
  modify (fun s => mkPool (objs s) (vNodes s) (vNodesDisconnected s ++ [p]) (pnodeSync s) (attempts s)).
Definition delete_node (p : Z) : M Pool unit :=
  modify (fun s => mkPool (delete p (objs s)) (vNodes s) (filter (fun q => q <> p) (vNodesDisconnected s)) (pnodeSync s) (attempts s)).

Definition unused (now : Z) (n : PNode) : bool :=
  fDisconnect n || ((GetRefCount now (refcount n) <=? 0) && recvEmpty (status n) && sendEmpty (status n)).

Definition disconnect_one (now : Z) (lockRecv : bool) (p : Z) : M Pool unit :=
  n <- deref p ;;
  when unused now n then_
    (remove_node p ;;;
     update p (set_grant false) ;;;
     CloseSocketDisconnect lockRecv p ;;;
     (when fNetworkNode n || fInbound n then_ update p (set_refs Release)) ;;;
     push_disconnected p).

(** [locks]: the three locks of the node are free. *)
Definition delete_one (now : Z) (locks : Z -> bool) (p : Z) : M Pool unit :=
  n <- deref p ;;
  when (GetRefCount now (refcount n) <=? 0) && locks p then_ delete_node p.

Definition DisconnectNodes (now : Z) (lockRecv : bool) (locks : Z -> bool) : M Pool unit :=
  s <- get ;; foldM (fun _ p => disconnect_one now lockRecv p) (vNodes s) tt ;;;
  s <- get ;; foldM (fun _ p => delete_one now locks p) (vNodesDisconnected s) tt.

(** ** Finding and opening *)

Fixpoint find_node (P : PNode -> bool) (l : list Z) : M Pool (option Z) :=
  match l with
  | [] => ret None
  | p :: r => n <- deref p ;; if P n then ret (Some p) else find_node P r
  end.
Definition FindNode (P : PNode -> bool) : M Pool (option Z) := s <- get ;; find_node P (vNodes s).
Definition has_ip (ip : CNetAddr) (n : PNode) : bool := memeq (sv_ip (addr n)) ip.
Definition has_name (name : bytes) (n : PNode) : bool := bool_decide (addrName n = name).
Definition has_service (a : CService) (n : PNode) : bool := CService.eqb (addr n) a.

(** [new CNode] at the address [p], [AddRef] and [vNodes.push_back]. *)
Definition new_node (p : Z) (a : CService) (name : bytes) (inbound : bool) (st : Status) : M Pool unit :=
  modify (fun s => mkPool (<[p := mkPNode a (node_name a name) inbound st (AddRef ref_new) false true false false false false]> (objs s))
                     (vNodes s ++ [p]) (vNodesDisconnected s) (pnodeSync s) (attempts s)).

Definition Attempt (a : CService) : M Pool unit :=
  modify (fun s => mkPool (objs s) (vNodes s) (vNodesDisconnected s) (pnodeSync s) (attempts s ++ [a])).

Definition connect_new (now p : Z) (a : CService) (name : bytes) (st : Status) : M Pool unit :=
  Attempt a ;;; new_node p a name false st ;;; update p (connected_at now).

Definition ConnectNode (now p : Z) (st : Status) (connected : option CService) (addrConnect : CService) (pszDest : option bytes) : M Pool (option Z) :=
  known <- match pszDest with
           | None => if IsLocal addrConnect then ret (Some None)
                     else q <- FindNode (has_service addrConnect) ;;
                          match q with Some q => update q (set_refs AddRef) ;;; ret (Some (Some q)) | None => ret None end
           | Some _ => ret None
           end ;;
  match known with
  | Some r => ret r
  | None => match connected with
            | Some a => connect_new now p a (default [] pszDest) st ;;; ret (Some p)
            | None => ret None
            end
  end.

Definition OpenNetworkConnection (now p : Z) (st : Status) (connected : option CService) (addrConnect : CService)
    (grant : bool) (strDest : option bytes) (oneShot : bool) : M Pool bool :=
  refused <- match strDest with
             | None =>
               if IsLocal addrConnect then ret true
               else q <- FindNode (has_ip (sv_ip addrConnect)) ;;
                    match q with
                    | Some _ => ret true
                    | None => if IsBanned (sv_ip addrConnect) then ret true
                              else q <- FindNode (has_name (ToStringIPPort addrConnect)) ;; ret (bool_decide (is_Some q))
                    end
             | Some name => q <- FindNode (has_name name) ;; ret (bool_decide (is_Some q))
             end ;;
  if refused : bool then ret false
  else
    q <- ConnectNode now p st connected addrConnect strDest ;;
    match q with
    | None => ret false
    | Some q => update q (opened oneShot grant) ;;; ret true
    end.

(** ** Accepting *)

Inductive Accepted := SocketClosed | SocketLeft | NodeAdded.

Fixpoint count_inbound (l : list Z) : M Pool Z :=
  match l with
  | [] => ret 0
  | p :: r => n <- deref p ;; k <- count_inbound r ;; ret (k + if fInbound n then 1 else 0)
  end.

(** A valid socket from [accept]. *)
Definition accept_node (p : Z) (st : Status) (a : CService) : M Pool Accepted :=
  s <- get ;; nInbound <- count_inbound (vNodes s) ;;
  if nMaxConnections - MAX_OUTBOUND_CONNECTIONS <=? nInbound then
    ret (if bool_decide (sv_ip a ∈ setservAddNodeAddresses) then SocketLeft else SocketClosed)
  else if IsBanned (sv_ip a) then ret SocketClosed
  else new_node p a [] true st ;;; ret NodeAdded.

(** ** The sync node *)

(** A [double] in the source, which holds every such time exactly. *)
Definition NodeSyncScore (n : PNode) : Z := - nLastRecv (status n).

Definition can_sync (nBestHeight : Z) (n : PNode) : bool :=
  let st := status n in
  negb (fClient st) && negb (fOneShot n) && negb (fDisconnect n) && fSuccessfullyConnected st
  && (nBestHeight - 144 <? nStartingHeight st)
  && ((nVersion st <? NOBLKS_VERSION_START) || (NOBLKS_VERSION_END <=? nVersion st)).

Definition sync_step (nBestHeight : Z) (best : option (Z * Z)) (p : Z) : M Pool (option (Z * Z)) :=
  n <- deref p ;;
  ret (if can_sync nBestHeight n then
         let dScore := NodeSyncScore n in
         match best with
         | None => Some (p, dScore)
         | Some (_, dBestScore) => if dBestScore <? dScore then Some (p, dScore) else best
         end
       else best).

Definition StartSync (nBestHeight : Z) (nodes : list Z) : M Pool unit :=
  best <- foldM (sync_step nBestHeight) nodes None ;;
  match best with
  | Some (p, _) => update p set_sync ;;; set_pnodeSync (Some p)
  | None => ret tt
  end.

(** ** The threads *)

Inductive Label :=
| LOpen (now p : Z) (st : Status) (connected : option CService) (addrConnect : CService) (grant : bool) (strDest : option bytes) (oneShot : bool)
| LAccept (p : Z) (st : Status) (a : CService)
| LDisconnect (now : Z) (lockRecv : bool) (locks : Z -> bool)
| LSnapshot                                       (* vNodesCopy = vNodes, AddRef to each *)
| LStartSync (k : nat) (nBestHeight : Z)          (* on the k-th copy, unless it had the sync node *)
| LHandle (k i : nat) (fOk lockRecv : bool)       (* the i-th node of the k-th copy *)
| LRelease (k : nat)                              (* Release to each of the k-th copy *)
| LStatus (p : Z) (st : Status).                  (* messages are handled *)

(** The pool and the copies of [vNodes] the threads hold, each with [fHaveSyncNode]. *)
Definition Threads : Type := Pool * list (list Z * bool).

(** A thread's code runs on the pool; a label that names no free address or no copy does nothing. *)
Definition on_pool {A} (m : M Pool A) (t : Threads) : option Threads := '(_, s) ← m t.1; Some (s, t.2).

(** [ThreadMessageHandler] on one node: [fOk] is the result of [ProcessMessages]. *)
Definition handle_node (fOk lockRecv : bool) (p : Z) : M Pool unit :=
  n <- deref p ;;
  when negb (fDisconnect n) && negb fOk then_ CloseSocketDisconnect lockRecv p.

Definition step (l : Label) (t : Threads) : option Threads :=
  let free p := bool_decide (objs t.1 !! p = None) in
  match l with
  | LOpen now p st connected a grant dest oneShot =>
    if free p then on_pool (OpenNetworkConnection now p st connected a grant dest oneShot) t else Some t
  | LAccept p st a => if free p then on_pool (accept_node p st a) t else Some t
  | LDisconnect now lockRecv locks => on_pool (DisconnectNodes now lockRecv locks) t
  | LSnapshot =>
    t' ← on_pool (foldM (fun _ p => update p (set_refs AddRef)) (vNodes t.1) tt) t;
    Some (t'.1, t'.2 ++ [(vNodes t.1, existsb (fun p => bool_decide (pnodeSync t.1 = Some p)) (vNodes t.1))])
  | LStartSync k nBestHeight =>
    match t.2 !! k with
    | Some (c, fHaveSyncNode) => if fHaveSyncNode : bool then Some t else on_pool (StartSync nBestHeight c) t
    | None => Some t
    end
  | LHandle k i fOk lockRecv =>
    match t.2 !! k with
    | Some (c, _) => match c !! i with Some p => on_pool (handle_node fOk lockRecv p) t | None => Some t end
    | None => Some t
    end
  | LRelease k =>
    match t.2 !! k with
    | Some (c, _) => t' ← on_pool (foldM (fun _ p => update p (set_refs Release)) c tt) t; Some (t'.1, delete k t'.2)
    | None => Some t
    end
  | LStatus p st => if free p then Some t else on_pool (update p (set_status st)) t
  end.

Fixpoint run (ls : list Label) (t : Threads) : option Threads :=
  match ls with [] => Some t | l :: r => t' ← step l t; run r t' end.

Definition start : Threads := (mkPool ∅ [] [] None [], []).

End Pool.
