(* ===== verification/PoolThms.v ===== *)
(** What Pool.v guarantees: however the threads interleave, no deleted node is used, every node
    is in exactly one list, and there are never too many inbound connections. *)

From S2P Require Import Prelude Monad NetAddr Pool.

Section Pool.
Context `{Refs}.
Context (IsLocal : CService -> bool) (IsBanned : CNetAddr -> bool) (ToStringIPPort : CService -> bytes)
        (node_name : CService -> bytes -> bytes) (NOBLKS_VERSION_START NOBLKS_VERSION_END : Z)
        (nMaxConnections : Z) (setservAddNodeAddresses : list CNetAddr).

Implicit Types (s : Pool) (n : PNode) (p q : Z).

(** ** The invariant *)

Definition inbound s p : bool := match objs s !! p with Some n => fInbound n | None => false end.
Definition inbounds s : Z := lenZ (List.filter (inbound s) (vNodes s)).

(** [held p]: how many references to [p] the threads hold. *)
Record inv (held : Z -> Z) s : Prop := {
  i_nodup : NoDup (vNodes s ++ vNodesDisconnected s);
  i_live p : p ∈ vNodes s ++ vNodesDisconnected s <-> is_Some (objs s !! p);
  i_refs p n : objs s !! p = Some n -> held p + (if decide (p ∈ vNodes s) then 1 else 0) <= refs (refcount n);
  i_held p : 0 <= held p /\ (0 < held p -> is_Some (objs s !! p));
  i_sync p : pnodeSync s = Some p -> p ∈ vNodes s;
  i_disc p n : p ∈ vNodesDisconnected s -> objs s !! p = Some n -> fDisconnect n = true;
  i_inbound : inbounds s <= Z.max 0 (nMaxConnections - MAX_OUTBOUND_CONNECTIONS) }.

Lemma inv_node held s p : inv held s -> p ∈ vNodes s -> exists n, objs s !! p = Some n.
Proof. intros I Hp. apply (i_live _ _ I). set_solver. Qed.

Lemma inv_held_live held s p : inv held s -> 0 < held p -> exists n, objs s !! p = Some n.
Proof. intros I Hp. by apply (i_held _ _ I). Qed.

Lemma inv_ext held held' s : (forall p, held p = held' p) -> inv held s -> inv held' s.
Proof.
  intros E [I1 I2 I3 I4 I5 I6 I7]. split; try done.
  - intros p n Hp. rewrite <-E. by apply I3.
  - intros p. rewrite <-E. apply I4.
Qed.

Lemma inbounds_ext s s' : vNodes s' = vNodes s -> (forall p, inbound s' p = inbound s p) -> inbounds s' = inbounds s.
Proof. intros E Hi. unfold inbounds. rewrite E. f_equal. by apply List.filter_ext. Qed.

(** Changing one node. *)
Definition put_obj (p : Z) (n : PNode) (sync : option Z) s : Pool :=
  mkPool (<[p := n]> (objs s)) (vNodes s) (vNodesDisconnected s) sync (attempts s).

Lemma inbound_insert s p n n' objs' l d y z :
  objs s !! p = Some n -> fInbound n' = fInbound n -> objs' = <[p := n']> (objs s) ->
  forall q, inbound (mkPool objs' l d y z) q = inbound s q.
Proof.
  intros Hp Hi -> q. unfold inbound. cbn. destruct (decide (q = p)) as [->|]; [by rewrite lookup_insert_eq, Hp|by rewrite lookup_insert_ne].
Qed.

Lemma inv_put held held' s p n n' sync :
  inv held s -> objs s !! p = Some n ->
  fInbound n' = fInbound n -> (fDisconnect n = true -> fDisconnect n' = true) ->
  (forall q, q <> p -> held' q = held q) -> 0 <= held' p ->
  held' p - held p <= refs (refcount n') - refs (refcount n) ->
  (forall q, sync = Some q -> q ∈ vNodes s) ->
  inv held' (put_obj p n' sync s).
Proof.
  intros I Hp Hin Hd Hh Hh0 Hr Hs. destruct I as [I1 I2 I3 I4 I5 I6 I7].
  assert (Hlive : forall q, is_Some ((<[p := n']> (objs s)) !! q) <-> is_Some (objs s !! q)).
  { intros q. destruct (decide (q = p)) as [->|]; [rewrite lookup_insert_eq, Hp|by rewrite lookup_insert_ne]. by split; eexists. }
  unfold put_obj. split; cbn.
  - done.
  - intros q. by rewrite Hlive.
  - intros q m Hq. destruct (decide (q = p)) as [->|Hne].
    + rewrite lookup_insert_eq in Hq. injection Hq as <-. specialize (I3 p n Hp). lia.
    + rewrite lookup_insert_ne in Hq by done. rewrite Hh by done. by apply I3.
  - intros q. rewrite Hlive. destruct (decide (q = p)) as [->|Hne]; [split; [done|]; intros _; by rewrite Hp; eexists|].
    rewrite Hh by done. apply I4.
  - done.
  - intros q m Hq Hm. destruct (decide (q = p)) as [->|Hne].
    + rewrite lookup_insert_eq in Hm. injection Hm as <-. apply Hd. by eapply I6.
    + rewrite lookup_insert_ne in Hm by done. by eapply I6.
  - erewrite inbounds_ext; [exact I7|done|]. by eapply inbound_insert.
Qed.

(** ** One node *)

Lemma update_run p f s n : objs s !! p = Some n -> update p f s = Some (tt, put_obj p (f n) (pnodeSync s) s).
Proof. intros Hp. unfold update, bind, deref. by rewrite Hp. Qed.

Lemma wp_update_inv held held' p f s n :
  inv held s -> objs s !! p = Some n ->
  fInbound (f n) = fInbound n -> (fDisconnect n = true -> fDisconnect (f n) = true) ->
  (forall q, q <> p -> held' q = held q) -> 0 <= held' p ->
  held' p - held p <= refs (refcount (f n)) - refs (refcount n) ->
  wp (update p f) (fun _ s' => inv held' s' /\ vNodes s' = vNodes s) s.
Proof.
  intros I Hp Hi Hd Hh Hh0 Hr. eapply wp_intro; [by apply update_run|]. split; [|done].
  eapply inv_put; try done. by apply (i_sync _ _ I).
Qed.

Definition close_sync p s : option Z := if bool_decide (pnodeSync s = Some p) then None else pnodeSync s.

Lemma Close_run lockRecv p s n :
  objs s !! p = Some n -> CloseSocketDisconnect lockRecv p s = Some (tt, put_obj p (closed lockRecv n) (close_sync p s) s).
Proof.
  intros Hp. unfold CloseSocketDisconnect, bind. rewrite (update_run _ _ _ n Hp). cbn. unfold close_sync.
  case_bool_decide as E; [|done]. unfold put_obj. done.
Qed.

Lemma wp_Close held lockRecv p s n :
  inv held s -> objs s !! p = Some n -> wp (CloseSocketDisconnect lockRecv p) (fun _ s' => inv held s') s.
Proof.
  intros I Hp. eapply wp_intro; [by apply Close_run|]. eapply inv_put; try done.
  - apply (i_held _ _ I).
  - cbn. lia.
  - intros q. unfold close_sync. case_bool_decide; [done|]. apply (i_sync _ _ I).
Qed.

(** ** References of the threads *)

Definition occ (l : list Z) p : Z := Z.of_nat (count_occ Z.eq_dec l p).

Lemma occ_nil p : occ [] p = 0.
Proof. done. Qed.
Lemma occ_app l k p : occ (l ++ k) p = occ l p + occ k p.
Proof. unfold occ. rewrite count_occ_app. lia. Qed.
Lemma held_cons q l p : occ (q :: l) p = (if decide (q = p) then 1 else 0) + occ l p.
Proof. unfold occ. cbn. destruct (Z.eq_dec q p), (decide (q = p)); (done || lia). Qed.
Lemma held_nonneg l p : 0 <= occ l p.
Proof. unfold occ. lia. Qed.
Lemma occ_pos l p : p ∈ l -> 0 < occ l p.
Proof. rewrite list_elem_of_In. unfold occ. intros Hp%(count_occ_In Z.eq_dec). lia. Qed.

Lemma wp_AddRefs held c s :
  inv held s -> (forall p, p ∈ c -> p ∈ vNodes s) ->
  wp (foldM (fun _ p => update p (set_refs AddRef)) c tt) (fun _ s' => inv (fun p => held p + occ c p) s') s.
Proof.
  revert held s. induction c as [|q c IH]; intros held s I Hc; cbn [foldM].
  - apply wp_ret. eapply inv_ext; [|exact I]. intros p. cbn. rewrite occ_nil. lia.
  - apply wp_bind. destruct (inv_node _ _ q I (Hc q ltac:(by left))) as [n Hn].
    eapply wp_mono; [eapply (wp_update_inv held (fun p => held p + (if decide (q = p) then 1 else 0))); try done|].
    + intros p Hp. cbn. case_decide; [congruence|lia].
    + cbn. case_decide; [|done]. pose proof (i_held _ _ I q). lia.
    + cbn. case_decide; [|done]. rewrite refs_AddRef. lia.
    + intros [] s' [I' Hv]. eapply wp_mono; [apply IH; [exact I'|]|].
      * intros p Hp. rewrite Hv. apply Hc. by right.
      * intros [] s'' I''. eapply inv_ext; [|exact I'']. intros p. cbn. rewrite held_cons. lia.
Qed.

Lemma wp_Releases held c s :
  inv (fun p => held p + occ c p) s -> (forall p, 0 <= held p) ->
  wp (foldM (fun _ p => update p (set_refs Release)) c tt) (fun _ s' => inv held s') s.
Proof.
  intros I Hh. revert s I. induction c as [|q c IH]; intros s I; cbn [foldM].
  - apply wp_ret. eapply inv_ext; [|exact I]. intros p. cbn. rewrite occ_nil. lia.
  - apply wp_bind. pose proof (held_nonneg c q). pose proof (Hh q).
    destruct (inv_held_live _ _ q I) as [n Hn]. { rewrite held_cons. case_decide; [lia|done]. }
    eapply wp_mono; [eapply (wp_update_inv _ (fun p => held p + occ c p)); try done|].
    + intros p Hp. cbn. rewrite held_cons. case_decide; [congruence|lia].
    + cbn. lia.
    + cbn. rewrite held_cons. case_decide; [|done]. rewrite refs_Release. lia.
    + intros [] s' [I' _]. by apply IH.
Qed.

(** ** Disconnecting and deleting *)

Lemma filter_ne_in p q (l : list Z) : q ∈ filter (fun x => x <> p) l <-> q <> p /\ q ∈ l.
Proof. by rewrite list_elem_of_filter. Qed.

Lemma filter_ne_count (f : Z -> bool) p (l : list Z) : lenZ (List.filter f (filter (fun x => x <> p) l)) <= lenZ (List.filter f l).
Proof.
  induction l as [|x l IH]; [done|]. rewrite filter_cons. case_decide; cbn [List.filter]; destruct (f x); rewrite ?lenZ_cons; lia.
Qed.

(** Where a disconnected node is moved to. *)
Definition moved lockRecv p n s : Pool :=
  let n1 := closed lockRecv (set_grant false n) in
  let n2 := if fNetworkNode n || fInbound n then set_refs Release n1 else n1 in
  mkPool (<[p := n2]> (objs s)) (filter (fun q => q <> p) (vNodes s)) (vNodesDisconnected s ++ [p]) (close_sync p s) (attempts s).

Lemma disconnect_one_run now lockRecv p s n :
  objs s !! p = Some n -> disconnect_one now lockRecv p s = Some (tt, if unused now n then moved lockRecv p n s else s).
Proof.
  intros Hp. unfold disconnect_one. unfold bind at 1. unfold deref at 1. rewrite Hp. destruct (unused now n); [|done].
  unfold bind at 1, remove_node, modify. set (s1 := mkPool _ _ _ _ _).
  unfold bind at 1. rewrite (update_run p _ s1 n) by done. set (s2 := put_obj p _ _ s1).
  unfold bind at 1. rewrite (Close_run lockRecv p s2 (set_grant false n)) by (cbn; by rewrite lookup_insert_eq).
  set (s3 := put_obj p _ _ s2). unfold bind, moved, push_disconnected, modify. destruct (fNetworkNode n || fInbound n).
  - rewrite (update_run p _ s3 (closed lockRecv (set_grant false n))) by (cbn; by rewrite lookup_insert_eq).
    cbn. by rewrite !insert_insert_eq.
  - cbn. by rewrite !insert_insert_eq.
Qed.

Lemma inv_moved held lockRecv p n s : inv held s -> objs s !! p = Some n -> p ∈ vNodes s -> inv held (moved lockRecv p n s).
Proof.
  intros I Hp Hin. destruct I as [I1 I2 I3 I4 I5 I6 I7]. apply NoDup_app in I1 as (N1 & Nd & N2).
  set (n2 := if fNetworkNode n || fInbound n then set_refs Release (closed lockRecv (set_grant false n)) else closed lockRecv (set_grant false n)).
  assert (Hd2 : fDisconnect n2 = true) by (unfold n2; by destruct (_ || _)).
  assert (Hi2 : fInbound n2 = fInbound n) by (unfold n2; by destruct (_ || _)).
  assert (Hr2 : refs (refcount n) - 1 <= refs (refcount n2)).
  { unfold n2. destruct (_ || _); cbn; rewrite ?refs_Release; lia. }
  assert (Hlive : forall q, is_Some ((<[p := n2]> (objs s)) !! q) <-> is_Some (objs s !! q)).
  { intros q. destruct (decide (q = p)) as [->|]; [rewrite lookup_insert_eq, Hp|by rewrite lookup_insert_ne]. by split; eexists. }
  unfold moved. split; cbn; fold n2.
  - apply NoDup_app. split; [by apply NoDup_filter|]. split.
    + intros q [Hne Hq]%filter_ne_in. rewrite elem_of_app, list_elem_of_singleton. intros [Hq'| ->]; [by eapply Nd|done].
    + apply NoDup_app. split; [done|]. split; [|apply NoDup_singleton]. intros q Hq ->%list_elem_of_singleton. by eapply Nd.
  - intros q. rewrite Hlive, <-I2, !elem_of_app, filter_ne_in, list_elem_of_singleton.
    destruct (decide (q = p)) as [->|]; naive_solver.
  - intros q m Hq. destruct (decide (q = p)) as [->|Hne].
    + rewrite lookup_insert_eq in Hq. injection Hq as <-. rewrite decide_False by (intros [? _]%filter_ne_in; done).
      specialize (I3 p n Hp). rewrite decide_True in I3 by done. lia.
    + rewrite lookup_insert_ne in Hq by done. specialize (I3 q m Hq).
      rewrite (decide_ext _ (q ∈ vNodes s)); [done|]. rewrite filter_ne_in. naive_solver.
  - intros q. rewrite Hlive. apply I4.
  - intros q. unfold close_sync. case_bool_decide as E; [done|]. intros Hq. apply filter_ne_in. split; [congruence|by apply I5].
  - intros q m. rewrite elem_of_app, list_elem_of_singleton. destruct (decide (q = p)) as [->|Hne].
    + rewrite lookup_insert_eq. by intros _ [= <-].
    + rewrite lookup_insert_ne by done. intros [Hq|?] Hm; [by eapply I6|done].
  - etransitivity; [|exact I7]. unfold inbounds at 1. cbn [vNodes]. etransitivity; [apply filter_ne_count|].
    unfold inbounds. erewrite List.filter_ext; [done|]. by eapply inbound_insert.
Qed.

Lemma delete_one_run now locks p s n :
  objs s !! p = Some n ->
  delete_one now locks p s = Some (tt, if (GetRefCount now (refcount n) <=? 0) && locks p
    then mkPool (delete p (objs s)) (vNodes s) (filter (fun q => q <> p) (vNodesDisconnected s)) (pnodeSync s) (attempts s) else s).
Proof. intros Hp. unfold delete_one, bind, deref. rewrite Hp. by destruct (_ && _). Qed.

(** A node without references is deleted: nothing points to it. *)
Lemma inv_deleted held now p n s :
  inv held s -> objs s !! p = Some n -> p ∈ vNodesDisconnected s -> GetRefCount now (refcount n) <= 0 ->
  inv held (mkPool (delete p (objs s)) (vNodes s) (filter (fun q => q <> p) (vNodesDisconnected s)) (pnodeSync s) (attempts s)).
Proof.
  intros I Hp Hin Hr. destruct I as [I1 I2 I3 I4 I5 I6 I7]. apply NoDup_app in I1 as (N1 & Nd & N2).
  assert (Hnv : p ∉ vNodes s) by (intros Hv; by eapply Nd).
  assert (Hh : held p = 0).
  { specialize (I3 p n Hp). rewrite decide_False in I3 by done. pose proof (proj1 (I4 p)).
    destruct (Z.lt_ge_cases 0 (refs (refcount n))) as [Hpos|]; [|lia]. apply (GetRefCount_pos now) in Hpos. lia. }
  split; cbn.
  - apply NoDup_app. split; [done|]. split; [|by apply NoDup_filter]. intros q Hq [_ Hq']%filter_ne_in. by eapply Nd.
  - intros q. rewrite elem_of_app, filter_ne_in. destruct (decide (q = p)) as [->|Hne].
    + rewrite lookup_delete_eq. split; [naive_solver|by intros [? ?]].
    + rewrite lookup_delete_ne by done. rewrite <-I2, elem_of_app. naive_solver.
  - intros q m Hq. destruct (decide (q = p)) as [->|Hne]; [by rewrite lookup_delete_eq in Hq|].
    rewrite lookup_delete_ne in Hq by done. by apply I3.
  - intros q. split; [apply I4|]. intros Hq. destruct (decide (q = p)) as [->|Hne]; [lia|].
    rewrite lookup_delete_ne by done. by apply I4.
  - done.
  - intros q m [Hne Hq]%filter_ne_in. rewrite lookup_delete_ne by done. by apply I6.
  - etransitivity; [|exact I7]. unfold inbounds. cbn [vNodes]. apply Z.eq_le_incl. f_equal.
    apply List.filter_ext_in. intros q Hq%list_elem_of_In. unfold inbound. cbn. by rewrite lookup_delete_ne by (by intros ->).
Qed.

(** A loop over a copy of a list, in which every step only takes its own node off the list. *)
Lemma wp_each (f : Z -> M Pool unit) (I : Pool -> Prop) (cur : Pool -> list Z) c s :
  NoDup c -> (forall p, p ∈ c -> p ∈ cur s) -> I s ->
  (forall p s, I s -> p ∈ cur s -> wp (f p) (fun _ s' => I s' /\ forall q, q <> p -> q ∈ cur s -> q ∈ cur s') s) ->
  wp (foldM (fun _ p => f p) c tt) (fun _ s' => I s') s.
Proof.
  intros Hnd Hin Hs Hstep. revert s Hin Hs. induction Hnd as [|p c Hp _ IH]; intros s Hin Hs; cbn [foldM]; [by apply wp_ret|].
  apply wp_bind. eapply wp_mono; [apply (Hstep p s Hs), Hin; by left|]. intros [] s' [Hs' Hq]. apply IH; [|done].
  intros q Hqc. apply Hq; [by intros ->|]. apply Hin. by right.
Qed.

Lemma wp_DisconnectNodes held now lockRecv locks s :
  inv held s -> wp (DisconnectNodes now lockRecv locks) (fun _ s' => inv held s') s.
Proof.
  intros I. unfold DisconnectNodes. apply wp_bind, wp_get, wp_bind.
  eapply wp_mono; [apply (wp_each _ (inv held) vNodes); [|done|exact I|]|].
  - pose proof (i_nodup _ _ I) as Hnd. by apply NoDup_app in Hnd as [? _].
  - intros p s' I' Hp. destruct (inv_node _ _ p I' Hp) as [n Hn].
    eapply wp_intro; [by apply disconnect_one_run|]. destruct (unused now n); [|done].
    split; [by apply inv_moved|]. intros q Hne Hq. cbn. by apply filter_ne_in.
  - intros [] s' I'. apply wp_bind, wp_get. apply (wp_each _ (inv held) vNodesDisconnected); [|done|exact I'|].
    + pose proof (i_nodup _ _ I') as Hnd. by apply NoDup_app in Hnd as (_ & _ & ?).
    + intros p s'' I'' Hp. destruct (proj1 (i_live _ _ I'' p) ltac:(set_solver)) as [n Hn].
      eapply wp_intro; [by apply delete_one_run|]. destruct (_ && _) eqn:E; [|done]. apply andb_true_iff in E as [E _].
      split; [apply (inv_deleted _ now p n); try done; lia|]. intros q Hne Hq. cbn. by apply filter_ne_in.
Qed.

(** ** Opening *)

Lemma inv_all_live held s : inv held s -> forall p, p ∈ vNodes s -> exists n, objs s !! p = Some n.
Proof. intros I p. by apply (inv_node held). Qed.

Definition some_node (P : PNode -> bool) s : Prop := exists p n, p ∈ vNodes s /\ objs s !! p = Some n /\ P n = true.

Lemma FindNode_run held P s :
  inv held s -> exists r, FindNode P s = Some (r, s) /\ (is_Some r <-> some_node P s).
Proof.
  intros I. unfold FindNode, bind, get, some_node. pose proof (inv_all_live _ _ I) as Hl. revert Hl.
  induction (vNodes s) as [|p l IH]; intros Hl; cbn [find_node].
  { exists None. split; [done|]. split; [by intros [? ?]|]. intros (p & n & Hp & _). by apply not_elem_of_nil in Hp. }
  destruct (Hl p ltac:(by left)) as [n Hn]. unfold bind, deref. rewrite Hn. destruct (P n) eqn:EP.
  - exists (Some p). split; [done|]. split; [|by eexists]. intros _. exists p, n. split; [by left|done].
  - destruct IH as (r & Hr & Hiff); [intros q Hq; apply Hl; by right|]. exists r. split; [done|]. rewrite Hiff. split.
    + intros (q & m & Hq & ?). exists q, m. split; [by right|done].
    + intros (q & m & Hq & Hm & HP). exists q, m. apply elem_of_cons in Hq as [->|Hq]; [|done]. congruence.
Qed.

Lemma inv_new held p a name inb st s :
  inv held s -> objs s !! p = None ->
  (inb = true -> inbounds s < nMaxConnections - MAX_OUTBOUND_CONNECTIONS) ->
  exists s', new_node node_name p a name inb st s = Some (tt, s') /\ inv held s' /\ vNodes s' = vNodes s ++ [p] /\
    objs s' !! p = Some (mkPNode a (node_name a name) inb st (AddRef ref_new) false true false false false false).
Proof.
  intros I Hp Hinb. eexists. split; [reflexivity|]. cbn. split; [|split; [done|apply lookup_insert_eq]].
  set (n := mkPNode a _ _ _ _ _ _ _ _ _ _). destruct I as [I1 I2 I3 I4 I5 I6 I7].
  assert (Hnp : p ∉ vNodes s ++ vNodesDisconnected s). { intros Hin. apply I2 in Hin. rewrite Hp in Hin. by destruct Hin. }
  rewrite not_elem_of_app in Hnp. destruct Hnp as [Hnv Hnd].
  assert (Hh : held p = 0). { destruct (I4 p) as [H0 H1]. destruct (Z.lt_ge_cases 0 (held p)) as [Hlt|]; [|lia]. apply H1 in Hlt. rewrite Hp in Hlt. by destruct Hlt. }
  assert (Hinb' : forall q, q ∈ vNodes s -> inbound (mkPool (<[p := n]> (objs s)) (vNodes s ++ [p]) (vNodesDisconnected s) (pnodeSync s) (attempts s)) q = inbound s q).
  { intros q Hq. unfold inbound. cbn. by rewrite lookup_insert_ne by (by intros ->). }
  split; cbn.
  - rewrite <-(assoc_L (++)). apply NoDup_app in I1 as (N1 & Nd & N2). apply NoDup_app. split; [done|]. split.
    + intros q Hq. rewrite elem_of_app, list_elem_of_singleton. intros [->|Hq']; [done|by eapply Nd].
    + cbn. by constructor.
  - intros q. destruct (decide (q = p)) as [->|Hne].
    + rewrite lookup_insert_eq. split; [by eexists|]. set_solver.
    + rewrite lookup_insert_ne by done. rewrite <-I2. set_solver.
  - intros q m Hq. destruct (decide (q = p)) as [->|Hne].
    + rewrite lookup_insert_eq in Hq. injection Hq as <-. cbn. rewrite refs_AddRef, refs_new, Hh. case_decide; lia.
    + rewrite lookup_insert_ne in Hq by done. specialize (I3 q m Hq). rewrite (decide_ext _ (q ∈ vNodes s)); [done|]. set_solver.
  - intros q. split; [apply I4|]. intros Hq. destruct (decide (q = p)) as [->|Hne]; [lia|]. rewrite lookup_insert_ne by done. by apply I4.
  - intros q Hq. apply elem_of_app. left. by apply I5.
  - intros q m Hq. destruct (decide (q = p)) as [->|Hne]; [done|]. rewrite lookup_insert_ne by done. by apply I6.
  - unfold inbounds at 1. cbn [vNodes]. rewrite List.filter_app, lenZ_app.
    erewrite (List.filter_ext_in _ (inbound s)) by (intros q Hq%list_elem_of_In; by apply Hinb').
    fold (inbounds s). cbn [List.filter]. unfold inbound at 1. cbn [objs]. rewrite lookup_insert_eq. cbn [fInbound n].
    destruct inb; [rewrite lenZ_cons, lenZ_nil; specialize (Hinb eq_refl); lia|rewrite lenZ_nil; lia].
Qed.

Lemma inv_Attempt held a s s' : inv held s -> Attempt a s = Some (tt, s') -> inv held s' /\ objs s' = objs s /\ vNodes s' = vNodes s.
Proof. intros [I1 I2 I3 I4 I5 I6 I7] [= <-]. split; [by split|done]. Qed.

Lemma bind_Some {A B} (m : M Pool A) (f : A -> M Pool B) s a s' : m s = Some (a, s') -> bind m f s = f a s'.
Proof. unfold bind. by intros ->. Qed.

Lemma connect_new_run held now p a name st s :
  inv held s -> objs s !! p = None ->
  exists s' n, connect_new node_name now p a name st s = Some (tt, s') /\ inv held s' /\ vNodes s' = vNodes s ++ [p] /\
    objs s' !! p = Some n /\ (forall q, q <> p -> objs s' !! q = objs s !! q) /\
    addr n = a /\ fInbound n = false /\ fNetworkNode n = false /\ fOneShot n = false /\ grantOutbound n = false /\
    nTimeConnected (status n) = now.
Proof.
  intros I Hp. unfold connect_new. destruct (inv_Attempt held a s _ I eq_refl) as (Ia & Eo & Ev).
  rewrite (bind_Some _ _ _ tt (mkPool (objs s) (vNodes s) (vNodesDisconnected s) (pnodeSync s) (attempts s ++ [a])) eq_refl).
  destruct (inv_new held p a name false st _ Ia Hp ltac:(done)) as (s1 & Hnew & I1 & Hv & Hn).
  rewrite (bind_Some _ _ _ _ _ Hnew). rewrite (update_run p _ s1 _ Hn). eexists _, _. split; [reflexivity|].
  split; [eapply inv_put; [exact I1|exact Hn|done|done|done|apply (i_held _ _ I1)|cbn; lia|apply (i_sync _ _ I1)]|].
  split; [exact Hv|]. split; [apply lookup_insert_eq|]. split; [|done].
  intros q Hne. cbn. rewrite lookup_insert_ne by done. injection Hnew as <-. cbn. by rewrite lookup_insert_ne.
Qed.

(** Why a connection is not even tried. *)
Definition refused (addrConnect : CService) (strDest : option bytes) s : Prop :=
  match strDest with
  | None => IsLocal addrConnect = true \/ IsBanned (sv_ip addrConnect) = true \/
            some_node (has_ip (sv_ip addrConnect)) s \/ some_node (has_name (ToStringIPPort addrConnect)) s
  | Some name => some_node (has_name name) s
  end.

Lemma refused_run held addrConnect strDest s :
  inv held s ->
  exists b : bool, (match strDest with
   | None =>
     if IsLocal addrConnect then ret true
     else q <- FindNode (has_ip (sv_ip addrConnect)) ;;
          match q with
          | Some _ => ret true
          | None => if IsBanned (sv_ip addrConnect) then ret true
                    else q <- FindNode (has_name (ToStringIPPort addrConnect)) ;; ret (bool_decide (is_Some q))
          end
   | Some name => q <- FindNode (has_name name) ;; ret (bool_decide (is_Some q))
   end : M Pool bool) s = Some (b, s) /\ (b = true <-> refused addrConnect strDest s).
Proof.
  intros I. unfold refused. destruct strDest as [name|].
  - destruct (FindNode_run held (has_name name) s I) as (r & Hr & Hiff). exists (bool_decide (is_Some r)).
    rewrite (bind_Some _ _ _ _ _ Hr). split; [done|]. by rewrite bool_decide_eq_true.
  - destruct (IsLocal addrConnect); [exists true; split; [done|]; split; auto|].
    destruct (FindNode_run held (has_ip (sv_ip addrConnect)) s I) as (r & Hr & Hiff). rewrite (bind_Some _ _ _ _ _ Hr).
    destruct r as [q|].
    { exists true. split; [done|]. split; [|done]. intros _. right. right. left. apply Hiff. by eexists. }
    assert (Hno : ~ some_node (has_ip (sv_ip addrConnect)) s) by (rewrite <-Hiff; by intros [? ?]).
    destruct (IsBanned (sv_ip addrConnect)); [exists true; split; [done|]; split; auto|].
    destruct (FindNode_run held (has_name (ToStringIPPort addrConnect)) s I) as (r & Hr2 & Hiff2).
    exists (bool_decide (is_Some r)). rewrite (bind_Some _ _ _ _ _ Hr2). split; [done|]. rewrite bool_decide_eq_true. naive_solver.
Qed.

Lemma ConnectNode_run held now p st connected addrConnect strDest s :
  inv held s -> objs s !! p = None -> ~ refused addrConnect strDest s ->
  exists r s', ConnectNode IsLocal node_name now p st connected addrConnect strDest s = Some (r, s') /\
    match connected with
    | None => r = None /\ s' = s
    | Some a => r = Some p /\ connect_new node_name now p a (default [] strDest) st s = Some (tt, s')
    end.
Proof.
  intros I Hp Hno. unfold ConnectNode.
  assert (Hknown : (match strDest with
           | None => if IsLocal addrConnect then ret (Some None)
                     else q <- FindNode (has_service addrConnect) ;;
                          match q with Some q => update q (set_refs AddRef) ;;; ret (Some (Some q)) | None => ret None end
           | Some _ => ret None
           end : M Pool (option (option Z))) s = Some (None, s)).
  { destruct strDest as [name|]; [done|]. unfold refused in Hno. destruct (IsLocal addrConnect); [exfalso; auto|].
    destruct (FindNode_run held (has_service addrConnect) s I) as (r & Hr & Hiff). rewrite (bind_Some _ _ _ _ _ Hr).
    destruct r as [q|]; [|done]. exfalso. destruct (proj1 Hiff ltac:(by eexists)) as (q' & n & Hq & Hn & Hs).
    apply Hno. right. right. left. exists q', n. split; [done|]. split; [done|]. unfold has_service, CService.eqb in Hs.
    by apply andb_true_iff in Hs as [? _]. }
  rewrite (bind_Some _ _ _ _ _ Hknown). destruct connected as [a|]; [|by exists None, s].
  destruct (connect_new_run held now p a (default [] strDest) st s I Hp) as (s' & n & Hrun & _). rewrite (bind_Some _ _ _ _ _ Hrun).
  by exists (Some p), s'.
Qed.

Lemma Open_run held now p st connected addrConnect grant strDest oneShot s :
  inv held s -> objs s !! p = None ->
  exists b s', OpenNetworkConnection IsLocal IsBanned ToStringIPPort node_name now p st connected addrConnect grant strDest oneShot s = Some (b, s') /\
    inv held s' /\
    (b = true <-> ~ refused addrConnect strDest s /\ is_Some connected) /\
    (b = false -> s' = s) /\
    (b = true -> vNodes s' = vNodes s ++ [p] /\
       exists n a, objs s' !! p = Some n /\ connected = Some a /\ addr n = a /\ fInbound n = false /\ fNetworkNode n = true /\
         grantOutbound n = grant /\ fOneShot n = oneShot /\ nTimeConnected (status n) = now).
Proof.
  intros I Hp. unfold OpenNetworkConnection.
  destruct (refused_run held addrConnect strDest s I) as (b & Hb & Hiff). rewrite (bind_Some _ _ _ _ _ Hb).
  destruct b.
  { exists false, s. split; [done|]. split; [done|]. split; [|split; [done|done]]. split; [done|]. intros [Hno _]. exfalso. by apply Hno, Hiff. }
  assert (Hno : ~ refused addrConnect strDest s) by (by rewrite <-Hiff).
  destruct (ConnectNode_run held now p st connected addrConnect strDest s I Hp Hno) as (r & s' & Hrun & Hr).
  rewrite (bind_Some _ _ _ _ _ Hrun). destruct connected as [a|].
  2:{ destruct Hr as [-> ->]. exists false, s. split; [done|]. split; [done|]. split; [|done]. split; [done|by intros [_ [? ?]]]. }
  destruct Hr as [-> Hnew]. destruct (connect_new_run held now p a (default [] strDest) st s I Hp) as (s2 & n & Hnew2 & I2 & Hv & Hn & _ & Ha & Hi & Hnw & Hos & Hgr & Htm).
  rewrite Hnew in Hnew2. injection Hnew2 as <-. rewrite (bind_Some _ _ _ _ _ (update_run p (opened oneShot grant) s' _ Hn)).
  eexists true, _. split; [reflexivity|]. split.
  { eapply inv_put; [exact I2|exact Hn|done|done|done|apply (i_held _ _ I2)|cbn; lia|apply (i_sync _ _ I2)]. }
  split; [by split; [split; [done|by eexists]|]|]. split; [done|]. intros _. split; [exact Hv|].
  eexists _, a. cbn. split; [apply lookup_insert_eq|]. cbn. rewrite Ha, Hi, Hos, Hgr, Htm. done.
Qed.

(** A connection is opened exactly when it is not refused (our own address, a banned one,
    one we are connected to already) and succeeds; the new node is the last of [vNodes], not
    inbound, has the semaphore grant it was given, and nothing changes otherwise. *)
Theorem OpenNetworkConnection_spec held now p st connected addrConnect grant strDest oneShot s :
  inv held s -> objs s !! p = None ->
  exists b s', OpenNetworkConnection IsLocal IsBanned ToStringIPPort node_name now p st connected addrConnect grant strDest oneShot s = Some (b, s') /\
    inv held s' /\
    (b = true <-> ~ refused addrConnect strDest s /\ is_Some connected) /\
    (b = false -> s' = s) /\
    (b = true -> vNodes s' = vNodes s ++ [p] /\
       exists n a, objs s' !! p = Some n /\ connected = Some a /\ addr n = a /\ fInbound n = false /\ fNetworkNode n = true /\
         grantOutbound n = grant /\ fOneShot n = oneShot /\ nTimeConnected (status n) = now).
Proof. exact (Open_run held now p st connected addrConnect grant strDest oneShot s). Qed.

(** Other objects stay. *)
Lemma Open_others held now p st connected addrConnect grant strDest oneShot s b s' q :
  inv held s -> objs s !! p = None ->
  OpenNetworkConnection IsLocal IsBanned ToStringIPPort node_name now p st connected addrConnect grant strDest oneShot s = Some (b, s') ->
  q <> p -> objs s' !! q = objs s !! q.
Proof.
  intros I Hp Hrun Hne. unfold OpenNetworkConnection in Hrun.
  destruct (refused_run held addrConnect strDest s I) as (r & Hr & Hiff). rewrite (bind_Some _ _ _ _ _ Hr) in Hrun.
  destruct r; [by injection Hrun as <- <-|]. assert (Hno : ~ refused addrConnect strDest s) by (by rewrite <-Hiff).
  destruct (ConnectNode_run held now p st connected addrConnect strDest s I Hp Hno) as (c & s1 & Hc & Hspec).
  rewrite (bind_Some _ _ _ _ _ Hc) in Hrun. destruct connected as [a|]; [|destruct Hspec as [-> ->]; by injection Hrun as <- <-].
  destruct Hspec as [-> Hnew]. destruct (connect_new_run held now p a (default [] strDest) st s I Hp) as (s2 & n & Hnew2 & _ & _ & Hn & Hoth & _).
  rewrite Hnew in Hnew2. injection Hnew2 as <-. rewrite (bind_Some _ _ _ _ _ (update_run p _ s1 _ Hn)) in Hrun.
  injection Hrun as <- <-. cbn. rewrite lookup_insert_ne by done. by apply Hoth.
Qed.

(** ** Accepting *)

Lemma count_inbound_run l s :
  (forall p, p ∈ l -> exists n, objs s !! p = Some n) -> count_inbound l s = Some (lenZ (List.filter (inbound s) l), s).
Proof.
  induction l as [|p l IH]; intros Hl; cbn [count_inbound]; [done|]. destruct (Hl p ltac:(by left)) as [n Hn].
  unfold bind at 1, deref. rewrite Hn. rewrite (bind_Some _ _ _ _ _ (IH ltac:(intros q Hq; apply Hl; by right))).
  cbn. unfold inbound at 2. rewrite Hn. destruct (fInbound n); rewrite ?lenZ_cons; unfold ret; do 2 f_equal; lia.
Qed.

Lemma accept_run held p st a s :
  inv held s -> objs s !! p = None ->
  let full := nMaxConnections - MAX_OUTBOUND_CONNECTIONS <= inbounds s in
  exists r s', accept_node IsBanned node_name nMaxConnections setservAddNodeAddresses p st a s = Some (r, s') /\ inv held s' /\
    (r = NodeAdded <-> ~ full /\ IsBanned (sv_ip a) = false) /\
    (r = SocketLeft <-> full /\ sv_ip a ∈ setservAddNodeAddresses) /\
    (r <> NodeAdded -> s' = s) /\
    (r = NodeAdded -> vNodes s' = vNodes s ++ [p] /\ exists n, objs s' !! p = Some n /\ addr n = a /\ fInbound n = true).
Proof.
  intros I Hp full. unfold accept_node. unfold bind at 1, get.
  rewrite (bind_Some _ _ _ _ _ (count_inbound_run (vNodes s) s (inv_all_live _ _ I))). fold (inbounds s).
  unfold full. destruct (Z.leb_spec (nMaxConnections - MAX_OUTBOUND_CONNECTIONS) (inbounds s)) as [Hf|Hf].
  { case_bool_decide; eexists _, s; (split; [reflexivity|]); (split; [done|]); split_and!; try done; split; try done; intros [? ?]; lia || done. }
  destruct (IsBanned (sv_ip a)).
  { exists SocketClosed, s. split; [done|]. split; [done|]. split_and!; try done; split; try done; intros [? ?]; lia || done. }
  destruct (inv_new held p a [] true st s I Hp ltac:(done)) as (s' & Hnew & I' & Hv & Hn).
  rewrite (bind_Some _ _ _ _ _ Hnew). eexists _, s'. split; [reflexivity|]. split; [done|]. split_and!; try done.
  - split; [|done]. intros _. split; [lia|done].
  - split; [done|]. intros [? _]. lia.
  - intros _. split; [done|]. by eexists.
Qed.

(** A new inbound connection becomes a node exactly when there are fewer inbound ones
    than allowed and its address is not banned; otherwise its socket is closed, but not that of
    an address of an -addnode host when there are too many: that socket is left open and unused. *)
Theorem accept_node_spec held p st a s :
  inv held s -> objs s !! p = None ->
  let full := nMaxConnections - MAX_OUTBOUND_CONNECTIONS <= inbounds s in
  exists r s', accept_node IsBanned node_name nMaxConnections setservAddNodeAddresses p st a s = Some (r, s') /\ inv held s' /\
    (r = NodeAdded <-> ~ full /\ IsBanned (sv_ip a) = false) /\
    (r = SocketLeft <-> full /\ sv_ip a ∈ setservAddNodeAddresses) /\
    (r <> NodeAdded -> s' = s) /\
    (r = NodeAdded -> vNodes s' = vNodes s ++ [p] /\ exists n, objs s' !! p = Some n /\ addr n = a /\ fInbound n = true).
Proof. exact (accept_run held p st a s). Qed.

(** ** The sync node *)

Abbreviation sync_step := (sync_step NOBLKS_VERSION_START NOBLKS_VERSION_END).
Abbreviation StartSync := (StartSync NOBLKS_VERSION_START NOBLKS_VERSION_END).
Abbreviation can_sync := (can_sync NOBLKS_VERSION_START NOBLKS_VERSION_END).

Definition candidate (h : Z) (c : list Z) s p n : Prop := p ∈ c /\ objs s !! p = Some n /\ can_sync h n = true.

Lemma sync_fold h c s best :
  (forall p, p ∈ c -> exists n, objs s !! p = Some n) ->
  exists r, foldM (sync_step h) c best s = Some (r, s) /\
    (r = None -> best = None /\ forall p n, ~ candidate h c s p n) /\
    (forall p d, r = Some (p, d) ->
       (best = Some (p, d) \/ exists n, candidate h c s p n /\ d = NodeSyncScore n) /\
       (forall q e, best = Some (q, e) -> e <= d) /\
       (forall q m, candidate h c s q m -> NodeSyncScore m <= d)).
Proof.
  revert best. induction c as [|p c IH]; intros best Hl; cbn [foldM].
  { exists best. split; [done|]. split.
    - intros ->. split; [done|]. intros p n (Hp & _). by apply not_elem_of_nil in Hp.
    - intros p d ->. split; [by left|]. split; [by intros q e [= -> ->]|]. intros q m (Hq & _). by apply not_elem_of_nil in Hq. }
  destruct (Hl p ltac:(by left)) as [n Hn].
  set (best' := if can_sync h n then match best with None => Some (p, NodeSyncScore n)
                | Some (_, e) => if e <? NodeSyncScore n then Some (p, NodeSyncScore n) else best end else best).
  assert (Hstep : sync_step h best p s = Some (best', s)) by (unfold Pool.sync_step, bind, deref; by rewrite Hn).
  rewrite (bind_Some _ _ _ _ _ Hstep). destruct (IH best' ltac:(intros q Hq; apply Hl; by right)) as (r & Hr & H0 & H1).
  exists r. split; [done|].
  assert (Hcons : forall q m, candidate h (p :: c) s q m <-> (q = p /\ m = n /\ can_sync h n = true) \/ candidate h c s q m).
  { intros q m. unfold candidate. rewrite elem_of_cons. split.
    - intros ([->|Hq] & Hm & Hc); [left|by right]. rewrite Hn in Hm. by injection Hm as <-.
    - intros [(-> & -> & Hc)|(Hq & Hm & Hc)]; auto. }
  split.
  - intros Hnone. destruct (H0 Hnone) as [Hb Hno]. unfold best' in Hb.
    destruct (can_sync h n) eqn:Ec; [destruct best as [[q e]|]; [by destruct (_ <? _)|done]|].
    split; [done|]. intros q m [(-> & -> & ?)|Hc]%Hcons; [done|by eapply Hno].
  - intros q d Hq. destruct (H1 q d Hq) as (Hor & Hge & Hall). split; [|split].
    + destruct Hor as [Hb|(m & Hc & ->)].
      * unfold best' in Hb. destruct (can_sync h n) eqn:Ec; [|by left]. destruct best as [[q' e]|].
        -- destruct (_ <? _); [|by left]. injection Hb as <- <-. right. exists n. split; [|done]. apply Hcons. by left.
        -- injection Hb as <- <-. right. exists n. split; [|done]. apply Hcons. by left.
      * right. exists m. split; [|done]. apply Hcons. by right.
    + intros q' e ->. destruct (can_sync h n) eqn:Ec; cbn in best'.
      * destruct (Z.ltb_spec e (NodeSyncScore n)); [|by eapply Hge]. specialize (Hge _ _ eq_refl). lia.
      * by eapply Hge.
    + intros q' m [(-> & -> & Hc)|Hc]%Hcons; [|by eapply Hall]. unfold best' in Hge. rewrite Hc in Hge.
      destruct best as [[q' e]|]; [|by eapply Hge]. destruct (Z.ltb_spec e (NodeSyncScore n)); [by eapply Hge|].
      specialize (Hge _ _ eq_refl). lia.
Qed.

(** The node chosen for the initial download is, of the nodes that qualify, the one from
    which nothing was received for the longest time: the comment on [NodeSyncScore] asks for the
    node "from which we received most recently".  Without a node that qualifies nothing changes. *)
Theorem StartSync_least_recent h c s :
  (forall p, p ∈ c -> exists n, objs s !! p = Some n) ->
  exists s', StartSync h c s = Some (tt, s') /\
    ((s' = s /\ forall p n, ~ candidate h c s p n) \/
     exists p n, candidate h c s p n /\ pnodeSync s' = Some p /\ objs s' = <[p := set_sync n]> (objs s) /\
       vNodes s' = vNodes s /\ vNodesDisconnected s' = vNodesDisconnected s /\
       forall q m, candidate h c s q m -> nLastRecv (status n) <= nLastRecv (status m)).
Proof.
  intros Hl. unfold Pool.StartSync. destruct (sync_fold h c s None Hl) as (r & Hr & H0 & H1). rewrite (bind_Some _ _ _ _ _ Hr).
  destruct r as [[p d]|]; [|exists s; split; [done|]; left; split; [done|]; by apply H0].
  destruct (H1 p d eq_refl) as (Hor & _ & Hall). destruct Hor as [?|(n & Hc & ->)]; [done|].
  rewrite (bind_Some _ _ _ _ _ (update_run p set_sync s n (proj1 (proj2 Hc)))). eexists. split; [reflexivity|]. right.
  exists p, n. split; [done|]. cbn. split; [done|]. split; [done|]. split; [done|]. split; [done|].
  intros q m Hq. specialize (Hall q m Hq). unfold NodeSyncScore in Hall. lia.
Qed.

(** ** The threads *)

Abbreviation step := (step IsLocal IsBanned ToStringIPPort node_name NOBLKS_VERSION_START NOBLKS_VERSION_END nMaxConnections setservAddNodeAddresses).
Abbreviation run := (run IsLocal IsBanned ToStringIPPort node_name NOBLKS_VERSION_START NOBLKS_VERSION_END nMaxConnections setservAddNodeAddresses).

(** The pointers in the copies the threads hold. *)
Definition copies (t : Threads) : list Z := concat (t.2.*1).
Definition good (t : Threads) : Prop := inv (occ (copies t)) t.1.

Lemma copies_delete (l : list (list Z * bool)) k c b p : l !! k = Some (c, b) -> occ (concat (l.*1)) p = occ (concat ((delete k l).*1)) p + occ c p.
Proof.
  intros Hk. rewrite <-(take_drop_middle l k (c, b) Hk) at 1. rewrite delete_take_drop, !fmap_app, !concat_app, fmap_cons, concat_cons.
  rewrite !occ_app. cbn [fst]. lia.
Qed.

Lemma copies_elem (l : list (list Z * bool)) k c b p : l !! k = Some (c, b) -> p ∈ c -> 0 < occ (concat (l.*1)) p.
Proof. intros Hk Hp. rewrite (copies_delete l k c b p Hk). pose proof (occ_pos c p Hp). pose proof (held_nonneg (concat ((delete k l).*1)) p). lia. Qed.

Lemma on_pool_good {A} (m : M Pool A) t :
  wp m (fun _ s' => inv (occ (copies t)) s') t.1 -> exists t', on_pool m t = Some t' /\ good t'.
Proof.
  intros (a & s' & Hm & I)%wp_elim. exists (s', t.2). unfold on_pool. rewrite Hm. done.
Qed.

Lemma pool_step_good l t : good t -> exists t', step l t = Some t' /\ good t'.
Proof.
  intros I. destruct t as [s cs]. unfold good, copies in *. cbn [fst snd] in *. destruct l as [now p st connected a grant dest one|p st a|now lockRecv locks| |k h|k i fOk lockRecv|k|p st]; cbn [Pool.step fst snd].
  - case_bool_decide as Hp; [|by eexists]. apply on_pool_good. cbn [fst].
    destruct (Open_run _ now p st connected a grant dest one s I Hp) as (b & s' & Hrun & I' & _). by eapply wp_intro.
  - case_bool_decide as Hp; [|by eexists]. apply on_pool_good. cbn [fst].
    destruct (accept_run _ p st a s I Hp) as (b & s' & Hrun & I' & _). by eapply wp_intro.
  - apply on_pool_good. by apply wp_DisconnectNodes.
  - destruct (wp_elim _ _ _ (wp_AddRefs _ (vNodes s) s I (fun _ H => H))) as ([] & s' & Hrun & I').
    unfold on_pool. cbn [fst snd]. rewrite Hrun. eexists. split; [reflexivity|]. cbn. rewrite fmap_app, concat_app.
    eapply inv_ext; [|exact I']. intros p. cbn. by rewrite occ_app, app_nil_r.
  - destruct (cs !! k) as [[c fHave]|] eqn:Hk; [|by eexists]. destruct fHave; [by eexists|]. apply on_pool_good. cbn [fst].
    assert (Hl : forall p, p ∈ c -> exists n, objs s !! p = Some n) by (intros p Hp; eapply inv_held_live; [exact I|by eapply copies_elem]).
    unfold Pool.StartSync. destruct (sync_fold h c s None Hl) as (r & Hr & _ & H1). eapply wp_bind, wp_intro; [exact Hr|].
    destruct r as [[p d]|]; [|by apply wp_ret]. destruct (H1 p d eq_refl) as ([?|(n & (Hp & Hn & Hc) & _)] & _); [done|].
    apply wp_bind. eapply wp_intro; [by apply update_run|]. apply wp_modify.
    eapply (inv_put _ _ s p n (set_sync n) (Some p)); try done; [apply (i_held _ _ I)|cbn; lia|].
    intros q [= <-]. assert (p ∈ vNodes s ++ vNodesDisconnected s) as Hin by (apply (i_live _ _ I); by eexists).
    apply elem_of_app in Hin as [?|Hin]; [done|]. exfalso. pose proof (i_disc _ _ I p n Hin Hn) as Hd.
    unfold Pool.can_sync in Hc. rewrite Hd in Hc. cbn in Hc. by rewrite andb_false_r in Hc.
  - destruct (cs !! k) as [[c fHave]|] eqn:Hk; [|by eexists]. destruct (c !! i) as [p|] eqn:Hi; [|by eexists].
    apply on_pool_good. cbn [fst]. destruct (inv_held_live _ _ p I) as [n Hn]. { eapply copies_elem; [exact Hk|]. by eapply list_elem_of_lookup_2. }
    unfold handle_node. eapply wp_bind, wp_intro; [unfold deref; by rewrite Hn|]. destruct (_ && _); [by eapply wp_Close|by apply wp_ret].
  - destruct (cs !! k) as [[c fHave]|] eqn:Hk; [|by eexists].
    assert (I0 : inv (fun p => occ (concat ((delete k cs).*1)) p + occ c p) s).
    { eapply inv_ext; [|exact I]. intros p. by apply copies_delete with (b := fHave). }
    destruct (wp_elim _ _ _ (wp_Releases _ c s I0 (fun p => held_nonneg _ p))) as ([] & s' & Hrun & I').
    unfold on_pool. cbn [fst snd]. rewrite Hrun. eexists. split; [reflexivity|]. exact I'.
  - case_bool_decide as Hp; [by eexists|]. apply on_pool_good. cbn [fst].
    destruct (objs s !! p) as [n|] eqn:Hn; [|done].
    eapply wp_mono; [eapply (wp_update_inv _ (occ (concat (cs.*1)))); try done; [apply (i_held _ _ I)|cbn; lia]|]. by intros [] s' [? _].
Qed.

Lemma inv_empty : inv (fun _ => 0) (mkPool ∅ [] [] None []).
Proof.
  split; cbn.
  - constructor.
  - intros p. split; [by intros ?%not_elem_of_nil|]. rewrite lookup_empty. by intros [? ?].
  - intros p n Hn. by rewrite lookup_empty in Hn.
  - intros p. split; [done|]. lia.
  - done.
  - intros p n Hp. by apply not_elem_of_nil in Hp.
  - change (inbounds _) with 0. lia.
Qed.


End Pool.

(** ** Examples *)

Module Examples.

#[global] Instance counts : Refs.
Proof.
  refine {| R := Z; ref_new := 0; AddRef r := r + 1; Release r := r - 1; GetRefCount now r := Z.max 0 r; refs r := r |}; try done.
  intros now r Hr. lia.
Defined.

Definition net_addr (n : Z) : CService := mkService (CNetAddr.of_in_addr [8; 8; n; 4]) 8333.
Definition status0 (last : Z) : Status := mkStatus false true 100 70001 last true true 0.
Definition pool0 : Threads := start.
Definition run0 : list Label -> Threads -> option Threads :=
  run (fun _ => false) (fun ip => bool_decide (ip = sv_ip (net_addr 9))) (fun _ => []) (fun _ n => n) 32000 32400 10 [sv_ip (net_addr 7)].

(** Two connections, a sync node, a disconnect and a deletion. *)
Definition script : list Label :=
  [LOpen 3 1 (status0 50) (Some (net_addr 1)) (net_addr 1) true None false; LAccept 2 (status0 40) (net_addr 2);
   LAccept 3 (status0 40) (net_addr 9); LSnapshot; LStartSync 0 90; LHandle 0 1 false true; LDisconnect 60 true (fun _ => true);
   LRelease 0; LDisconnect 60 true (fun _ => true)].

Example script_runs :
  (t ← run0 (take 6 script) start; Some (vNodes t.1, pnodeSync t.1)) = Some ([1; 2], None) /\
  (t ← run0 (take 5 script) start; Some (pnodeSync t.1)) = Some (Some 2) /\
  (t ← run0 (take 7 script) start; Some (vNodes t.1, vNodesDisconnected t.1)) = Some ([1], [2]) /\
  (t ← run0 script start; Some (vNodes t.1, vNodesDisconnected t.1, bool_decide (objs t.1 !! 2 = None))) = Some ([1], [], true).
Proof. by vm_compute. Qed.

Definition two : Pool := default (mkPool ∅ [] [] None []) (fst <$> run0 (take 2 script) start).

Lemma StartSync_least_recent_witness :
  (forall p, p ∈ [1; 2] -> exists n, objs two !! p = Some n) /\
  exists s', StartSync 32000 32400 90 [1; 2] two = Some (tt, s').
Proof.
  assert (Hl : forall p, p ∈ [1; 2] -> exists n, objs two !! p = Some n).
  { intros p [->|[->|Hp%not_elem_of_nil]%elem_of_cons]%elem_of_cons; [eexists; by vm_compute|eexists; by vm_compute|done]. }
  split; [exact Hl|]. destruct (StartSync_least_recent 32000 32400 90 [1; 2] two Hl) as (s' & Hs & _). exists s'. exact Hs.
Defined.

Lemma OpenNetworkConnection_spec_witness :
  objs (mkPool ∅ [] [] None []) !! 1 = None /\
  exists b s', OpenNetworkConnection (fun _ => false) (fun _ => false) (fun _ => []) (fun _ n => n) 3 1 (status0 5)
    (Some (net_addr 1)) (net_addr 1) true None false (mkPool ∅ [] [] None []) = Some (b, s').
Proof.
  split; [done|].
  destruct (OpenNetworkConnection_spec (fun _ => false) (fun _ => false) (fun _ => []) (fun _ n => n) 10 (fun _ => 0) 3 1 (status0 5)
    (Some (net_addr 1)) (net_addr 1) true None false (mkPool ∅ [] [] None []) (inv_empty 10) ltac:(done)) as (b & s' & Hs & _).
  exists b, s'. exact Hs.
Defined.

Lemma accept_node_spec_witness :
  objs (mkPool ∅ [] [] None []) !! 1 = None /\
  exists r s', accept_node (fun _ => false) (fun _ n => n) 8 [sv_ip (net_addr 7)] 1 (status0 5) (net_addr 7) (mkPool ∅ [] [] None []) = Some (r, s')
    /\ (r = SocketLeft <-> 8 - MAX_OUTBOUND_CONNECTIONS <= inbounds (mkPool ∅ [] [] None []) /\ sv_ip (net_addr 7) ∈ [sv_ip (net_addr 7)]).
Proof.
  split; [done|].
  destruct (accept_node_spec (fun _ => false) (fun _ => false) (fun _ => []) (fun _ n => n) 8 [sv_ip (net_addr 7)] (fun _ => 0) 1 (status0 5) (net_addr 7)
    (mkPool ∅ [] [] None []) (inv_empty 8) ltac:(done)) as (r & s' & Hs & _ & _ & Hleft & _). exists r, s'. split; [exact Hs|exact Hleft].
Defined.

End Examples.
