(* ===== verification/Connect.v ===== *)
(** Which address to connect to: src/net.cpp, [ThreadOpenConnections] and
    [ThreadOpenAddedConnections], on the nodes of Pool.v.

    Parameters: what [addrman.Select] returns, call after call ([Select k], the bias it is given
    is left out), whether an address is our own or in a limited network (NetLocal.v), and the
    default port.  The seeding of the address manager and the waiting are I/O. *)

From S2P Require Import Prelude Monad NetAddr AddrMan Pool PoolThms.

Section Connect.
Context `{Refs, NetworkEnum}.
Context (Select : nat -> CAddress) (IsLocal : CService -> bool) (IsLimited : CNetAddr -> bool) (GetDefaultPort : Z)
        (IsBanned : CNetAddr -> bool) (ToStringIPPort : CService -> bytes) (node_name : CService -> bytes -> bytes)
        (nMaxConnections : Z).

Definition ip_of (a : CAddress) : CNetAddr := sv_ip (ca_service a).

(** The loop that chooses an address, from the [k]-th call of [Select] on; [Some None]: none. *)
Fixpoint choose (fuel k : nat) (setConnected : list bytes) (nANow nTries : Z) : option (option CAddress) :=
  match fuel with
  | O => None
  | S fuel' =>
    let addr := Select k in
    if negb (CNetAddr.IsValid (ip_of addr)) || bool_decide (CNetAddr.GetGroup (ip_of addr) ∈ setConnected) || IsLocal (ca_service addr)
    then Some None
    else
      let nTries := nTries + 1 in
      if 100 <? nTries then Some None
      else if IsLimited (ip_of addr) then choose fuel' (S k) setConnected nANow nTries
      else if (nANow - nLastTry addr <? 600) && (nTries <? 30) then choose fuel' (S k) setConnected nANow nTries
      else if negb (port (ca_service addr) =? GetDefaultPort) && (nTries <? 50) then choose fuel' (S k) setConnected nANow nTries
      else Some (Some addr)
  end.

(** The groups of the outbound nodes. *)
Fixpoint outbound_groups (l : list Z) : M Pool (list bytes) :=
  match l with
  | [] => ret []
  | p :: r =>
    n <- deref p ;; g <- outbound_groups r ;;
    ret (if negb (fInbound n) then CNetAddr.GetGroup (sv_ip (addr n)) :: g else g)
  end.

(** One round of [ThreadOpenConnections]: [connects] tells whether the socket connects. *)
Definition connect_round (now p : Z) (st : Status) (nANow : Z) (connects : bool) : M Pool bool :=
  s <- get ;; setConnected <- outbound_groups (vNodes s) ;;
  match choose 101 0 setConnected nANow 0 with
  | None => fail
  | Some None => ret false
  | Some (Some addrConnect) =>
    OpenNetworkConnection IsLocal IsBanned ToStringIPPort node_name now p st
      (if connects then Some (ca_service addrConnect) else None) (ca_service addrConnect) true None false
  end.

(** ** The addresses of -addnode *)

(** The list iterator: the entries before it and from it on.  [None]: it is decremented at the
    beginning of the list, which is undefined. *)
Fixpoint erase_node (a : CService) (before l : list (list CService)) : option (list (list CService)) :=
  match l with
  | [] => Some before
  | v :: r =>
    if existsb (CService.eqb a) v then
      match before with [] => None | _ => erase_node a before r end
    else erase_node a (before ++ [v]) r
  end.

Fixpoint erase_connected (nodes : list CService) (lservAddressesToAdd : list (list CService)) : option (list (list CService)) :=
  match nodes with
  | [] => Some lservAddressesToAdd
  | a :: r => l ← erase_node a [] lservAddressesToAdd; erase_connected r l
  end.

(** ** Theorems *)

(** An address that may be used in the [k]-th round. *)
Definition usable (setConnected : list bytes) (a : CAddress) : Prop :=
  CNetAddr.IsValid (ip_of a) = true /\ CNetAddr.GetGroup (ip_of a) ∉ setConnected /\ IsLocal (ca_service a) = false.

Definition acceptable (nANow : Z) (k : nat) (a : CAddress) : Prop :=
  IsLimited (ip_of a) = false /\ (600 <= nANow - nLastTry a \/ 29 <= Z.of_nat k) /\
  (port (ca_service a) = GetDefaultPort \/ 49 <= Z.of_nat k).

Lemma choose_spec fuel k setConnected nANow :
  (k <= 100)%nat -> (101 <= fuel + k)%nat ->
  exists r, choose fuel k setConnected nANow (Z.of_nat k) = Some r /\
    match r with
    | Some a => exists j, (k <= j < 100)%nat /\ a = Select j /\ usable setConnected a /\ acceptable nANow j a /\
                  forall i, (k <= i < j)%nat -> usable setConnected (Select i) /\ ~ acceptable nANow i (Select i)
    | None => exists j, (k <= j <= 100)%nat /\ (j = 100%nat \/ ~ usable setConnected (Select j)) /\
                  forall i, (k <= i < j)%nat -> ~ (usable setConnected (Select i) /\ acceptable nANow i (Select i))
    end.
Proof.
  revert k. induction fuel as [|fuel IH]; intros k Hk Hf; [lia|]. cbn [choose].
  destruct (negb (CNetAddr.IsValid (ip_of (Select k))) || bool_decide (CNetAddr.GetGroup (ip_of (Select k)) ∈ setConnected) || IsLocal (ca_service (Select k))) eqn:Eu.
  { exists None. split; [done|]. exists k. split; [lia|]. split; [right|lia]. intros (Hv & Hg & Hl). rewrite Hv, Hl in Eu. cbn in Eu.
    rewrite orb_false_r in Eu. by apply bool_decide_eq_true in Eu. }
  assert (Hu : usable setConnected (Select k)).
  { apply orb_false_iff in Eu as [[Hv%negb_false_iff Hg%bool_decide_eq_false]%orb_false_iff Hl]. done. }
  cbv zeta. destruct (Z.ltb_spec 100 (Z.of_nat k + 1)).
  { exists None. split; [done|]. exists k. split; [lia|]. split; [left; lia|lia]. }
  assert (Hnext : ~ acceptable nANow k (Select k) ->
    exists r, choose fuel (S k) setConnected nANow (Z.of_nat k + 1) = Some r /\
    match r with
    | Some a => exists j, (k <= j < 100)%nat /\ a = Select j /\ usable setConnected a /\ acceptable nANow j a /\
                  forall i, (k <= i < j)%nat -> usable setConnected (Select i) /\ ~ acceptable nANow i (Select i)
    | None => exists j, (k <= j <= 100)%nat /\ (j = 100%nat \/ ~ usable setConnected (Select j)) /\
                  forall i, (k <= i < j)%nat -> ~ (usable setConnected (Select i) /\ acceptable nANow i (Select i))
    end).
  { intros Hna. destruct (IH (S k) ltac:(lia) ltac:(lia)) as (r & Hr & Hspec). rewrite Nat2Z.inj_succ in Hr. exists r. split; [exact Hr|].
    assert (Hi : forall j i, (k <= i < j)%nat -> i = k \/ (S k <= i < j)%nat) by lia.
    destruct r as [a|].
    - destruct Hspec as (j & Hj & Ha & Hua & Hac & Hall). exists j. split; [lia|]. split; [done|]. split; [done|]. split; [done|].
      intros i Hik. destruct (Hi j i Hik) as [->|]; auto.
    - destruct Hspec as (j & Hj & Hend & Hall). exists j. split; [lia|]. split; [done|]. intros i Hik.
      destruct (Hi j i Hik) as [->|]; [by intros [_ ?]|auto]. }
  unfold acceptable in Hnext. destruct (IsLimited (ip_of (Select k))) eqn:El; [apply Hnext; by intros [? _]|].
  destruct (Z.ltb_spec (nANow - nLastTry (Select k)) 600), (Z.ltb_spec (Z.of_nat k + 1) 30); cbn [andb]; try (apply Hnext; lia).
  all: destruct (Z.eqb_spec (port (ca_service (Select k))) GetDefaultPort), (Z.ltb_spec (Z.of_nat k + 1) 50); cbn [andb negb]; try (apply Hnext; lia).
  all: eexists; (split; [reflexivity|]); exists k; split; [lia|]; split; [done|]; split; [done|]; split; [|lia]; unfold acceptable; lia.
Qed.

Lemma outbound_groups_run l (s : Pool) :
  (forall p, p ∈ l -> exists n, objs s !! p = Some n) ->
  exists g, outbound_groups l s = Some (g, s) /\
    (forall x, x ∈ g <-> exists p n, p ∈ l /\ objs s !! p = Some n /\ fInbound n = false /\ CNetAddr.GetGroup (sv_ip (addr n)) = x).
Proof.
  induction l as [|p l IH]; intros Hl; cbn [outbound_groups].
  { exists []. split; [done|]. intros x. split; [by intros ?%not_elem_of_nil|]. intros (p & n & Hp & _). by apply not_elem_of_nil in Hp. }
  destruct (Hl p ltac:(by left)) as [n Hn]. destruct IH as (g & Hg & Hiff); [intros q Hq; apply Hl; by right|].
  eexists. split; [unfold bind at 1, deref; rewrite Hn; rewrite (bind_Some _ _ _ _ _ Hg); reflexivity|]. intros x. split.
  - intros Hx. destruct (fInbound n) eqn:Ei; cbn [negb] in Hx.
    + apply Hiff in Hx as (q & m & Hq & ?). exists q, m. split; [by right|done].
    + apply elem_of_cons in Hx as [->|Hx]; [exists p, n; split; [by left|done]|].
      apply Hiff in Hx as (q & m & Hq & ?). exists q, m. split; [by right|done].
  - intros (q & m & Hq & Hm & Hi & <-). apply elem_of_cons in Hq as [->|Hq].
    + rewrite Hn in Hm. injection Hm as <-. rewrite Hi. by left.
    + assert (CNetAddr.GetGroup (sv_ip (addr m)) ∈ g) by (apply Hiff; by exists q, m). destruct (fInbound n); [done|by right].
Qed.

(** No two outbound nodes are in the same group of addresses. *)
Definition distinct_groups (s : Pool) : Prop :=
  forall p q n m, p ∈ vNodes s -> q ∈ vNodes s -> objs s !! p = Some n -> objs s !! q = Some m ->
    fInbound n = false -> fInbound m = false -> CNetAddr.GetGroup (sv_ip (addr n)) = CNetAddr.GetGroup (sv_ip (addr m)) -> p = q.

Lemma vNodes_after (f : list Z) p q : q ∈ f ++ [p] -> q ∈ f \/ q = p.
Proof. rewrite elem_of_app, list_elem_of_singleton. done. Qed.

(** A round of [ThreadOpenConnections] ends: it looks at 101 addresses at most.  It
    connects at most to one peer per group of addresses: when the outbound nodes were in
    different groups, they still are, and a new one is valid, not our own, in no limited
    network, and was not tried for ten minutes or comes after 29 others. *)
Theorem connect_round_groups held now p st nANow connects s :
  inv nMaxConnections held s -> objs s !! p = None -> distinct_groups s ->
  exists b s', connect_round now p st nANow connects s = Some (b, s') /\ inv nMaxConnections held s' /\ distinct_groups s' /\
    (b = false -> s' = s) /\
    (b = true -> exists k n, (k < 100)%nat /\ objs s' !! p = Some n /\ addr n = ca_service (Select k) /\
       CNetAddr.IsValid (ip_of (Select k)) = true /\ IsLocal (addr n) = false /\ IsLimited (ip_of (Select k)) = false /\
       (600 <= nANow - nLastTry (Select k) \/ 29 <= Z.of_nat k)).
Proof.
  intros I Hp Hd. unfold connect_round. unfold bind at 1, get.
  destruct (outbound_groups_run (vNodes s) s (inv_all_live _ _ _ I)) as (g & Hg & Hiff). rewrite (bind_Some _ _ _ _ _ Hg).
  destruct (choose_spec 101 0 g nANow ltac:(lia) ltac:(lia)) as (r & Hr & Hspec). change (Z.of_nat 0) with 0 in Hr. rewrite Hr.
  destruct r as [a|]; [|by exists false, s].
  destruct Hspec as (j & Hj & -> & (Hv & Hng & Hl) & (Hlim & Htry & _) & _).
  destruct (Open_run IsLocal IsBanned ToStringIPPort node_name nMaxConnections held now p st (if connects then Some (ca_service (Select j)) else None)
    (ca_service (Select j)) true None false s I Hp) as (b & s' & Hrun & I' & _ & Hf & Ht).
  exists b, s'. split; [exact Hrun|]. split; [exact I'|]. destruct b.
  2:{ rewrite (Hf eq_refl). done. }
  destruct (Ht eq_refl) as (Hvn & n & a & Hn & Hconn & Ha & Hin & _).
  assert (a = ca_service (Select j)) as -> by (destruct connects; [by injection Hconn as <-|done]).
  split; [|split; [done|]].
  2:{ intros _. exists j, n. split; [lia|]. split; [exact Hn|]. rewrite Ha. done. }
  assert (Hold : forall q m, q ∈ vNodes s -> objs s' !! q = Some m -> objs s !! q = Some m).
  { intros q m Hq Hm. destruct (inv_all_live _ _ _ I q Hq) as [m0 Hm0]. rewrite <-Hm.
    symmetry. eapply Open_others; [exact I|exact Hp|exact Hrun| ]. intros ->. by rewrite Hp in Hm0. }
  intros q1 q2 n1 n2 Hq1 Hq2 Hn1 Hn2 Hi1 Hi2 E. rewrite Hvn in Hq1, Hq2.
  assert (Hnew : forall q m, q ∈ vNodes s -> objs s' !! q = Some m -> fInbound m = false -> CNetAddr.GetGroup (sv_ip (addr m)) <> CNetAddr.GetGroup (ip_of (Select j))).
  { intros q m Hq Hm Hi Eg. apply Hng, Hiff. exists q, m. auto. }
  assert (Hadd : forall m, objs s' !! p = Some m -> CNetAddr.GetGroup (sv_ip (addr m)) = CNetAddr.GetGroup (ip_of (Select j))).
  { intros m Hm. rewrite Hn in Hm. injection Hm as <-. by rewrite Ha. }
  apply vNodes_after in Hq1 as [Hq1| ->], Hq2 as [Hq2| ->]; [by eapply Hd; eauto| | |done].
  - exfalso. eapply Hnew; [exact Hq1|exact Hn1|done|]. by rewrite E, (Hadd n2).
  - exfalso. eapply Hnew; [exact Hq2|exact Hn2|done|]. by rewrite <-E, (Hadd n1).
Qed.

(** ** The list of -addnode addresses *)

Definition mentions (a : CService) (v : list CService) : bool := existsb (CService.eqb a) v.

Lemma erase_node_spec a before l :
  before <> [] -> erase_node a before l = Some (before ++ List.filter (fun v => negb (mentions a v)) l).
Proof.
  revert before. induction l as [|v l IH]; intros before Hb; cbn [erase_node List.filter]; [by rewrite app_nil_r|].
  unfold mentions at 1. destruct (existsb (CService.eqb a) v); cbn [negb].
  - destruct before as [|b bs] eqn:E; [done|]. rewrite <-E. apply IH. by rewrite E.
  - rewrite IH by (by destruct before). by rewrite <-(assoc_L (++)).
Qed.

(** Entries of connected hosts are taken off the list, unless the first entry is one: then the
    iterator is decremented at the beginning of the list. *)
Theorem erase_connected_first nodes v l :
  erase_connected nodes (v :: l) =
  if existsb (fun a => mentions a v) nodes then None
  else Some (v :: List.filter (fun v => negb (existsb (fun a => mentions a v) nodes)) l).
Proof.
  revert l. induction nodes as [|a nodes IH]; intros l; cbn [erase_connected existsb].
  { cbn. do 2 f_equal. induction l as [|x l IHl]; [done|]. cbn. by rewrite <-IHl. }
  cbn [erase_node]. unfold mentions at 1. destruct (existsb (CService.eqb a) v); [done|]. cbn [orb].
  cbn [app]. rewrite erase_node_spec by done. cbn [mbind option_bind app]. rewrite IH.
  destruct (existsb _ nodes); [done|]. do 2 f_equal. induction l as [|x l IHl]; [done|]. cbn [List.filter].
  destruct (mentions a x); cbn [negb orb List.filter]; [exact IHl|]. destruct (negb _); [by rewrite IHl|exact IHl].
Qed.

End Connect.

Module Examples.

Import PoolThms.Examples.

#[global] Instance networks : NetworkEnum.
Proof.
  refine {| net_val n := match n with NET_UNROUTABLE => 0 | NET_IPV4 => 1 | NET_IPV6 => 2 | NET_TOR => 3 end |}.
  - by intros [].
  - by intros [] [].
Defined.

(** The first address is in a limited network, the second was tried a minute ago. *)
Definition select (k : nat) : CAddress :=
  mkAddress (net_addr (Z.of_nat k)) 1 0 (if (k =? 1)%nat then 9940 else 0).
Definition limited (ip : CNetAddr) : bool := bool_decide (ip = sv_ip (net_addr 0)).
Definition round0 : M Pool bool :=
  connect_round select (fun _ => false) limited 8333 (fun _ => false) (fun _ => []) (fun _ n => n) 9990 1 (status0 0) 10000 true.

Lemma connect_round_groups_witness :
  (objs (mkPool ∅ [] [] None []) !! 1 = None /\ distinct_groups (mkPool ∅ [] [] None [])) /\
  ('(b, s) ← round0 (mkPool ∅ [] [] None []); Some (b : bool, addr <$> objs s !! 1)) = Some (true, Some (net_addr 2)) /\
  exists b s', round0 (mkPool ∅ [] [] None []) = Some (b, s') /\ distinct_groups s'.
Proof.
  assert (Hd : distinct_groups (mkPool ∅ [] [] None [])) by (by intros p q n m Hp%not_elem_of_nil).
  split; [split; [done|exact Hd]|]. split; [by vm_compute|].
  destruct (connect_round_groups select (fun _ => false) limited 8333 (fun _ => false) (fun _ => []) (fun _ n => n) 10
    (fun _ => 0) 9990 1 (status0 0) 10000 true (mkPool ∅ [] [] None []) (inv_empty 10) ltac:(done) Hd) as (b & s' & Hr & _ & Hd' & _).
  exists b, s'. split; [exact Hr|exact Hd'].
Defined.

(** The host named first by -addnode is connected. *)
Example first_addnode_connected : erase_connected [net_addr 1] [[net_addr 1]; [net_addr 2]] = None.
Proof. by vm_compute. Qed.

End Examples.
