(* ===== verification/UtilThms.v ===== *)
(** What Util.v guarantees: amounts and byte strings are read back from their texts, wildcards
    match what they denote, and other nodes cannot move the clock by more than 70 minutes. *)

From S2P Require Import Prelude Digits NetAddr Util.

(** ** Characters *)

Definition digits (l : bytes) : Prop := Forall (fun c => isdigit c = true) l.
Definition spaces (l : bytes) : Prop := Forall (fun c => isspace c = true) l.
Definition value (l : bytes) : Z := be_val 10 ((fun c => c - 48) <$> l).

Lemma isdigit_range c : isdigit c = true <-> 48 <= c <= 57.
Proof. unfold isdigit. lia. Qed.
Lemma isspace_not c : isspace c = true -> isdigit c = false /\ c <> 46.
Proof. unfold isspace, isdigit. lia. Qed.

Lemma digits_values l : digits l -> digits_ok 10 ((fun c => c - 48) <$> l).
Proof. intros Hl. apply Forall_fmap. eapply Forall_impl; [exact Hl|]. intros c Hc%isdigit_range. cbn. lia. Qed.

Lemma digits_chars (l : bytes) : (fun d => 48 + d) <$> ((fun c => c - 48) <$> l) = l.
Proof. rewrite <-list_fmap_compose. rewrite <-(list_fmap_id l) at 2. apply list_fmap_ext. intros i c _. cbn. lia. Qed.

Lemma values_digits (ds : list Z) : (fun c => c - 48) <$> ((fun d => 48 + d) <$> ds) = ds.
Proof. rewrite <-list_fmap_compose. rewrite <-(list_fmap_id ds) at 2. apply list_fmap_ext. intros i c _. cbn. lia. Qed.

Lemma chars_digits ds : digits_ok 10 ds -> digits ((fun d => 48 + d) <$> ds).
Proof. intros Hd. apply Forall_fmap. eapply Forall_impl; [exact Hd|]. intros d Hd'. cbn in *. apply isdigit_range. lia. Qed.

Lemma value_range l : digits l -> 0 <= value l < 10 ^ lenZ l.
Proof. intros Hl. pose proof (be_val_range 10 ltac:(lia) _ (digits_values l Hl)) as Hr. unfold value, lenZ in *. by rewrite length_fmap in Hr. Qed.

Lemma value_app l k : value (l ++ k) = value l * 10 ^ lenZ k + value k.
Proof. unfold value. rewrite fmap_app, be_val_app by lia. unfold lenZ. by rewrite length_fmap. Qed.

Lemma s64_small z : - 9223372036854775808 <= z < 9223372036854775808 -> s64 z = z.
Proof. intros Hz. apply wraps_small; [lia|exact Hz]. Qed.

Lemma value_zeros k : value (replicate k 48) = 0.
Proof.
  unfold value. rewrite fmap_replicate. change (48 - 48) with 0. rewrite <-(app_nil_r (replicate k 0)). by rewrite be_val_zeros by lia.
Qed.

(** ** Splitting *)

Lemma split_at_spec c acc str :
  c ∉ acc -> join [c] (split_at c acc str) = acc ++ str /\ Forall (fun p => c ∉ p) (split_at c acc str) /\ split_at c acc str <> [].
Proof.
  revert acc. induction str as [|x str IH]; intros acc Ha; cbn [split_at].
  { rewrite app_nil_r. split; [done|]. split; [by repeat constructor|done]. }
  destruct (Z.eqb_spec x c) as [->|Hne].
  - destruct (IH [] ltac:(apply not_elem_of_nil)) as (Hj & Hf & Hn). split; [|split; [by constructor|done]].
    cbn [join]. destruct (split_at c [] str) eqn:E; [done|]. by rewrite Hj.
  - destruct (IH (acc ++ [x])) as (Hj & Hf & Hn); [set_solver|]. split; [|done]. by rewrite Hj, <-(assoc_L (++)).
Qed.

(** ** Money *)

Section Money.
Context `{Money}.

(** A text of an amount: spaces, at most ten digits, perhaps a point and at most eight digits,
    and spaces. *)
Definition is_money (s : bytes) (v : Z) : Prop :=
  exists sp1 w u sp2, s = sp1 ++ w ++ u ++ sp2 /\ spaces sp1 /\ spaces sp2 /\ digits w /\ lenZ w <= 10 /\
    ((u = [] /\ v = value w * 100000000) \/
     exists f, u = 46 :: f /\ digits f /\ lenZ f <= 8 /\ v = value w * 100000000 + value f * 10 ^ (8 - lenZ f)).

Lemma skip_space_app sp r : spaces sp -> skip_space (sp ++ r) = skip_space r.
Proof. induction 1 as [|c sp Hc _ IH]; [done|]. cbn. by rewrite Hc. Qed.

Lemma skip_space_split p : exists sp, spaces sp /\ p = sp ++ skip_space p.
Proof.
  induction p as [|c p (sp & Hs & Hp)]; [exists []; split; [constructor|done]|]. cbn.
  destruct (isspace c) eqn:E; [|exists []; split; [constructor|done]].
  exists (c :: sp). split; [by constructor|]. cbn. by rewrite <-Hp.
Qed.

Lemma skip_space_digit c r : isdigit c = true -> skip_space (c :: r) = c :: r.
Proof. intros Hc. cbn. destruct (isspace c) eqn:E; [|done]. apply isspace_not in E as [E _]. congruence. Qed.

(** [nMult] with [n] digits to come. *)
Definition mult (n : nat) : Z := match n with O => 0 | S m => 10 ^ Z.of_nat m end.

Lemma mult_quot n : Z.quot (mult (S n)) 10 = mult n.
Proof.
  destruct n as [|n]; [done|]. cbn [mult]. rewrite Z.quot_div_nonneg by lia. rewrite Nat2Z.inj_succ, Z.pow_succ_r by lia.
  rewrite Z.mul_comm. by apply Z.div_mul.
Qed.

Lemma value_cons c l : value (c :: l) = (c - 48) * 10 ^ lenZ l + value l.
Proof. change (c :: l) with ([c] ++ l). rewrite value_app. f_equal. f_equal. unfold value, be_val. cbn. lia. Qed.

Lemma parse_units_step n c r u :
  isdigit c = true -> parse_units (c :: r) (mult (S n)) u = parse_units r (mult n) (u + mult (S n) * (c - 48)).
Proof. intros Hc. cbn [parse_units]. rewrite Hc, mult_quot. cbn [mult andb]. by destruct (Z.ltb_spec 0 (10 ^ Z.of_nat n)); [|lia]. Qed.

Lemma parse_units_stop n rest u :
  match rest with [] => True | c :: _ => isdigit c = false \/ n = 0%nat end -> parse_units rest (mult n) u = (u, rest).
Proof.
  destruct rest as [|c rest]; [done|]. cbn [parse_units]. intros [Hc| ->]; [by rewrite Hc|].
  cbn [mult]. rewrite andb_false_r. done.
Qed.

Lemma parse_units_app n f rest u :
  digits f -> (length f <= n)%nat ->
  match rest with [] => True | c :: _ => isdigit c = false \/ length f = n end ->
  parse_units (f ++ rest) (mult n) u = (u + value f * 10 ^ (Z.of_nat n - lenZ f), rest).
Proof.
  intros Hf. revert n u. induction Hf as [|c f Hc _ IH]; intros n u Hl Hr.
  - rewrite app_nil_l, parse_units_stop. { by rewrite Z.add_0_r. } destruct rest; [done|]. destruct Hr as [?|<-]; auto.
  - destruct n as [|n]; cbn [length] in *; [lia|]. cbn [app]. rewrite parse_units_step, IH by (done || lia || (destruct rest; [done|]; destruct Hr; auto)).
    f_equal. rewrite value_cons, lenZ_cons. cbn [mult].
    replace (Z.of_nat (S n) - (1 + lenZ f)) with (Z.of_nat n - lenZ f) by lia.
    rewrite (Z.mul_add_distr_r _ _ (10 ^ (Z.of_nat n - lenZ f))), <-Z.mul_assoc, <-Z.pow_add_r by (unfold lenZ; lia).
    replace (lenZ f + (Z.of_nat n - lenZ f)) with (Z.of_nat n) by lia. lia.
Qed.

Lemma parse_units_split n p : exists f rest, p = f ++ rest /\ digits f /\ (length f <= n)%nat /\
  match rest with [] => True | c :: _ => isdigit c = false \/ length f = n end.
Proof.
  revert n. induction p as [|c p IH]; intros n; [by exists [], []; cbn; split_and!; [done|constructor|lia|done]|].
  destruct (isdigit c) eqn:Ec; [|exists [], (c :: p); cbn; split_and!; [done|constructor|lia|by left]].
  destruct n as [|n]; [exists [], (c :: p); cbn; split_and!; [done|constructor|lia|by right]|].
  destruct (IH n) as (f & rest & -> & Hf & Hl & Hr). exists (c :: f), rest. split; [done|]. split; [by constructor|].
  cbn. split; [lia|]. destruct rest; [done|]. destruct Hr; auto.
Qed.

Lemma parse_whole_app w r acc : digits w -> parse_whole (w ++ r) acc = parse_whole r (acc ++ w).
Proof.
  intros Hw. revert acc. induction Hw as [|c w Hc _ IH]; intros acc; [by rewrite app_nil_r|]. cbn [app parse_whole].
  destruct (Z.eqb_spec c 46) as [->|_]; [done|]. destruct (isspace c) eqn:Es; [apply isspace_not in Es as [Es _]; congruence|].
  rewrite Hc. cbn [negb]. rewrite IH. by rewrite <-(assoc_L (++)).
Qed.

(** What [parse_whole] accepts. *)
Lemma parse_whole_split p acc sw u rest :
  parse_whole p acc = Some (sw, u, rest) ->
  exists w t, p = w ++ t /\ digits w /\ sw = acc ++ w /\
    ((t = rest /\ u = 0 /\ match rest with [] => True | c :: _ => isspace c = true end) \/
     exists r, t = 46 :: r /\ parse_units r (CENT * 10) 0 = (u, rest)).
Proof.
  revert acc. induction p as [|c p IH]; intros acc; cbn [parse_whole].
  { intros [= <- <- <-]. exists [], []. rewrite (app_nil_r acc). split; [done|]. split; [constructor|]. split; [done|]. by left. }
  destruct (Z.eqb_spec c 46) as [->|Hd].
  { destruct (parse_units p (CENT * 10) 0) as [nu rs] eqn:E. intros [= <- <- <-]. exists [], (46 :: p).
    rewrite app_nil_r. split; [done|]. split; [constructor|]. split; [done|]. right. by exists p. }
  destruct (isspace c) eqn:Es.
  { intros [= <- <- <-]. exists [], (c :: p). rewrite app_nil_r. split; [done|]. split; [constructor|]. split; [done|]. by left. }
  destruct (isdigit c) eqn:Ec; [|done]. cbn [negb]. intros Hp. destruct (IH _ Hp) as (w & t & -> & Hw & -> & Hor).
  exists (c :: w), t. split; [done|]. split; [by constructor|]. split; [by rewrite <-(assoc_L (++))|done].
Qed.

Lemma CENT_mult : CENT * 10 = mult 8.
Proof. by rewrite CENT_value. Qed.

Lemma spaces_forallb l : forallb isspace l = true <-> spaces l.
Proof. unfold spaces. rewrite forallb_forall, List.Forall_forall. done. Qed.

Lemma atoi64_value w : digits w -> lenZ w <= 10 -> atoi64 w = value w.
Proof.
  intros Hw Hl. rewrite <-(digits_chars w) at 1. apply atoi64_digits; [by apply digits_values|].
  unfold lenZ in *. rewrite length_fmap. lia.
Qed.

(** The last checks, for at most ten digits and fewer than [COIN] units. *)
Lemma finish_money w u rest :
  digits w -> 0 <= u < 100000000 -> 
  (if negb (forallb isspace rest) then None
   else if 10 <? lenZ w then None
   else if (u <? 0) || (COIN <? u) then None
   else Some (s64 (s64 (atoi64 w * COIN) + u))) =
  (if decide (spaces rest /\ lenZ w <= 10) then Some (value w * 100000000 + u) else None).
Proof.
  intros Hw Hu. destruct (forallb isspace rest) eqn:Es; cbn [negb].
  2:{ rewrite decide_False; [done|]. intros [Hs _]. apply spaces_forallb in Hs. congruence. }
  apply spaces_forallb in Es. destruct (Z.ltb_spec 10 (lenZ w)); [rewrite decide_False; [done|lia]|].
  rewrite decide_True by auto. rewrite COIN_value. destruct (Z.ltb_spec u 0); [lia|]. destruct (Z.ltb_spec 100000000 u); [lia|].
  cbn [orb]. rewrite atoi64_value by done. pose proof (value_range w Hw) as Hv.
  assert (10 ^ lenZ w <= 10000000000) by (change 10000000000 with (10 ^ 10); apply Z.pow_le_mono_r; lia).
  rewrite (s64_small (value w * _)), s64_small by lia. done.
Qed.

Lemma units_range f n : digits f -> lenZ f <= n -> 0 <= value f * 10 ^ (n - lenZ f) < 10 ^ n.
Proof.
  intros Hf Hl. pose proof (value_range f Hf) as Hv. pose proof (lenZ_nonneg f).
  assert (0 < 10 ^ (n - lenZ f)) by (apply Z.pow_pos_nonneg; lia).
  replace (10 ^ n) with (10 ^ lenZ f * 10 ^ (n - lenZ f)) by (rewrite <-Z.pow_add_r by lia; f_equal; lia). nia.
Qed.

Lemma ParseMoney_accepts s v : is_money s v -> ParseMoney s = Some v.
Proof.
  intros (sp1 & w & u & sp2 & -> & H1 & H2 & Hw & Hl & Hu). unfold ParseMoney. rewrite skip_space_app by done.
  assert (Hstop : match sp2 with [] => True | c :: _ => isdigit c = false end).
  { destruct sp2 as [|c sp2]; [done|]. apply Forall_inv in H2. by apply isspace_not in H2 as [? _]. }
  destruct (decide (w = [] /\ u = [])) as [[-> ->]|Hne].
  { cbn [app]. rewrite <-(app_nil_r sp2), skip_space_app by done. cbn [skip_space parse_whole mbind option_bind].
    rewrite finish_money by (done || lia). rewrite decide_True by (split; [constructor|done]).
    by destruct Hu as [[_ ->]|(f & [=] & _)]. }
  assert (Hskip : skip_space (w ++ u ++ sp2) = w ++ u ++ sp2).
  { destruct w as [|c w]; [|apply skip_space_digit; by apply Forall_inv in Hw].
    destruct Hu as [[-> _]|(f & -> & _)]; [by exfalso; apply Hne|done]. }
  rewrite Hskip, parse_whole_app by done. cbn [app]. destruct Hu as [[-> ->]|(f & -> & Hf & Hlf & ->)].
  - assert (Hpw : parse_whole sp2 w = Some (w, 0, sp2)).
    { destruct sp2 as [|c sp2]; [done|]. cbn [parse_whole]. apply Forall_inv in H2. destruct (isspace_not _ H2) as [_ ?].
      destruct (Z.eqb_spec c 46); [done|]. by rewrite H2. }
    cbn [app]. rewrite Hpw. cbn [mbind option_bind]. rewrite finish_money, decide_True by (done || lia || auto). by rewrite Z.add_0_r.
  - cbn [app parse_whole]. rewrite Z.eqb_refl, CENT_mult, (parse_units_app 8) by (done || (unfold lenZ in *; lia) || (by destruct sp2; [|left])).
    cbn [mbind option_bind]. change (Z.of_nat 8) with 8. rewrite Z.add_0_l.
    rewrite finish_money, decide_True by (done || auto || (pose proof (units_range f 8 Hf Hlf); lia)). done.
Qed.

Lemma ParseMoney_only s v : ParseMoney s = Some v -> is_money s v.
Proof.
  unfold ParseMoney. destruct (skip_space_split s) as (sp1 & H1 & Es). rewrite Es at 2. generalize (skip_space s). intros p.
  destruct (parse_whole p []) as [[[sw u] rest]|] eqn:Ep; [|done]. cbn [mbind option_bind].
  destruct (parse_whole_split _ _ _ _ _ Ep) as (w & t & -> & Hw & -> & Hor). cbn [app]. clear Ep.
  destruct Hor as [(<- & -> & Hsp)|(r & -> & Hu)].
  - rewrite finish_money by (done || lia). case_decide as Hd; [|done]. destruct Hd as [Hs Hl]. intros [= <-].
    exists sp1, w, [], t. split; [done|]. split; [done|]. split; [done|]. split; [done|]. split; [done|]. left. split; [done|lia].
  - destruct (parse_units_split 8 r) as (f & rest' & -> & Hf & Hlf & Hstop). rewrite CENT_mult, (parse_units_app 8) in Hu by done.
    injection Hu as <- <-. change (Z.of_nat 8) with 8. rewrite Z.add_0_l. assert (lenZ f <= 8) by (unfold lenZ; lia).
    rewrite finish_money by (done || (pose proof (units_range f 8 Hf ltac:(done)); lia)). case_decide as Hd; [|done]. destruct Hd as [Hs Hl].
    intros [= <-]. exists sp1, w, (46 :: f), rest'. split; [done|]. split; [done|]. split; [done|]. split; [done|]. split; [done|].
    right. by exists f.
Qed.

(** [FormatMoney] takes away zeros behind the point only. *)
Lemma trim_zeros_split a b : exists k a', a = replicate k 48 ++ a' /\ trim_zeros (a ++ 46 :: b) = a' ++ 46 :: b.
Proof.
  induction a as [|x a (k & a' & -> & IH)]; [by exists 0%nat, []|]. cbn [app trim_zeros].
  set (t := match _ with _ :: y :: _ => isdigit y | _ => false end). destruct (Z.eqb_spec x 48) as [->|_]; [|by exists 0%nat, (x :: replicate k 48 ++ a')].
  destruct t; cbn [andb]; [by exists (S k), a'|by exists 0%nat, (48 :: replicate k 48 ++ a')].
Qed.

Lemma drop_zeros_ok ds : digits_ok 10 ds -> digits_ok 10 (drop_zeros ds).
Proof. induction 1 as [|d r Hd Hr IH]; [constructor|]. cbn [drop_zeros]. destruct r; [by constructor|]. case_match; [done|by constructor]. Qed.

Lemma drop_zeros_val ds : be_val 10 (drop_zeros ds) = be_val 10 ds.
Proof.
  induction ds as [|d r IH]; [done|]. cbn [drop_zeros]. destruct r as [|e r]; [done|].
  destruct (Z.eqb_spec d 0) as [->|_]; [|done]. rewrite IH, (be_val_cons 10 0). by rewrite Z.mul_0_l.
Qed.

Lemma drop_zeros_length m ds :
  digits_ok 10 ds -> 1 <= m -> be_val 10 ds < 10 ^ m -> lenZ (drop_zeros ds) <= m.
Proof.
  intros Hd Hm. induction Hd as [|d r Hd Hr IH]; [cbn; unfold lenZ; cbn; lia|]. intros Hv. cbn [drop_zeros]. destruct r as [|e r]; [unfold lenZ; cbn; lia|].
  destruct (Z.eqb_spec d 0) as [->|Hd0].
  - apply IH. by rewrite (be_val_cons 10 0), Z.mul_0_l in Hv.
  - pose proof (be_val_nonzero 10 ltac:(lia) d (e :: r) ltac:(by constructor) Hd0) as Hlow. rewrite lenZ_cons.
    assert (Hlt : 10 ^ lenZ (e :: r) < 10 ^ m) by lia. apply Z.pow_lt_mono_r_iff in Hlt; lia.
Qed.

Lemma decimal_spec n : 0 <= n < 10 ^ 10 -> digits (decimal n) /\ lenZ (decimal n) <= 10 /\ value (decimal n) = n.
Proof.
  intros Hn. unfold decimal. assert (Hv : be_val 10 (be_digits 10 20 n) = n) by (rewrite be_val_digits by lia; apply Z.mod_small; lia).
  pose proof (be_digits_ok 10 ltac:(lia) 20 n) as Hok. split; [by apply chars_digits, drop_zeros_ok|]. split.
  - unfold lenZ. rewrite length_fmap. apply drop_zeros_length; [done|lia|rewrite Hv; lia].
  - unfold value. by rewrite values_digits, drop_zeros_val.
Qed.

Lemma decimal8_spec n : 0 <= n < 100000000 -> digits (decimal8 n) /\ lenZ (decimal8 n) = 8 /\ value (decimal8 n) = n.
Proof.
  intros Hn. unfold decimal8. split; [apply chars_digits, be_digits_ok; lia|]. split.
  - unfold lenZ. by rewrite length_fmap, be_digits_length.
  - unfold value. rewrite values_digits, be_val_digits by lia. by apply Z.mod_small.
Qed.

Lemma rev_zeros k : rev (replicate k (48 : Z)) = replicate k 48.
Proof. induction k as [|k IH]; [done|]. cbn [replicate rev]. by rewrite IH, <-replicate_cons_app. Qed.

Lemma FormatMoney_text n :
  0 <= n < 10 ^ 18 -> is_money (FormatMoney n false) n.
Proof.
  intros Hn. unfold FormatMoney. destruct (Z.ltb_spec n 0); [lia|]. cbn [andb].
  replace (if 0 <? n then n else s64 (- n)) with n by (destruct (Z.ltb_spec 0 n); [done|rewrite s64_small; lia]).
  rewrite COIN_value, Z.quot_div_nonneg, Z.rem_mod_nonneg by lia.
  destruct (decimal_spec (n / 100000000)) as (Hd1 & Hd2 & Hd3).
  { split; [apply Z.div_pos; lia|apply Z.div_lt_upper_bound; lia]. }
  destruct (decimal8_spec (n mod 100000000)) as (He1 & He2 & He3); [apply Z.mod_pos_bound; lia|].
  generalize dependent (decimal8 (n mod 100000000)). intros e He1 He2 He3. generalize dependent (decimal (n / 100000000)). intros d Hd1 Hd2 Hd3.
  rewrite !rev_app_distr, <-!(assoc_L (++)). cbn [rev app]. destruct (trim_zeros_split (rev e) (rev d)) as (k & a & He & ->).
  rewrite rev_app_distr. cbn [rev]. rewrite rev_involutive, <-(assoc_L (++)). cbn [app].
  apply (f_equal (@rev Z)) in He. rewrite rev_involutive, rev_app_distr, rev_zeros in He. subst e.
  apply Forall_app in He1 as [Ha _]. rewrite lenZ_app in He2. rewrite value_app, value_zeros, Z.add_0_r in He3. unfold lenZ at 2 in He2. unfold lenZ in He3. rewrite length_replicate in *.
  exists [], d, (46 :: rev a), []. rewrite app_nil_r, app_nil_l. split; [done|]. split; [constructor|]. split; [constructor|]. split; [done|]. split; [done|].
  right. exists (rev a). split; [done|]. split; [done|]. split; [lia|]. replace (8 - lenZ (rev a)) with (Z.of_nat k) by lia.
  rewrite Hd3, He3. pose proof (Z.div_mod n 100000000). lia.
Qed.

Lemma FormatMoney_negative n p : n < 0 -> ParseMoney (FormatMoney n p) = None.
Proof. intros Hn. unfold FormatMoney. by destruct (Z.ltb_spec n 0); [|lia]. Qed.

(** C18 [ParseMoney] accepts exactly the texts of an amount - spaces, at most ten digits,
    perhaps a point and at most eight digits, spaces - and gives the amount they write, with no
    overflow; it reads back what [FormatMoney] writes, and refuses the text of a negative amount. *)
Theorem ParseMoney_FormatMoney :
  (forall s v, ParseMoney s = Some v <-> is_money s v) /\
  (forall n, 0 <= n < 10 ^ 18 -> ParseMoney (FormatMoney n false) = Some n) /\
  (forall n p, n < 0 -> ParseMoney (FormatMoney n p) = None).
Proof.
  split; [intros s v; split; [apply ParseMoney_only|apply ParseMoney_accepts]|].
  split; [intros n Hn; by apply ParseMoney_accepts, FormatMoney_text|apply FormatMoney_negative].
Qed.

End Money.

(** A concrete [util.h]: the constants and a reader of digits. *)
#[local] Instance money : Money.
Proof.
  refine {| COIN := 100000000; CENT := 1000000; atoi64 := value |}; [done|done|].
  intros ds _ _. unfold value. by rewrite values_digits.
Defined.

Lemma ParseMoney_FormatMoney_witness :
  ParseMoney (lit " 12.5 ") = Some 1250000000 /\ FormatMoney 1250000000 false = lit "12.50" /\
  ParseMoney (FormatMoney 1250000000 false) = Some 1250000000.
Proof.
  split; [by vm_compute|]. split; [by vm_compute|].
  destruct (@ParseMoney_FormatMoney money) as (_ & Hr & _). apply Hr. lia.
Defined.

(** ** Hexadecimal *)

Definition hexdigits : bytes := lit "0123456789abcdef".
Definition hex2 (b : Z) : bytes := [hexdigits.[Z.shiftr b 4]; hexdigits.[Z.land b 15]].
Definition to_lower (c : Z) : Z := if (65 <=? c) && (c <=? 90) then c + 32 else c.

Lemma all_byte (P : Z -> bool) : forallb P (seqZ 0 256) = true -> forall c, 0 <= c < 256 -> P c = true.
Proof. intros Hall c Hc. rewrite forallb_forall in Hall. apply Hall, list_elem_of_In, elem_of_seqZ. lia. Qed.

Lemma hex2_digits b : 0 <= b < 256 ->
  exists c1 c2, hex2 b = [c1; c2] /\ isspace c1 = false /\ phexdigit.[c1] <> -1 /\ phexdigit.[c2] <> -1 /\
    Z.lor (u8 (Z.shiftl phexdigit.[c1] 4)) phexdigit.[c2] = b.
Proof.
  intros Hb. eexists _, _. split; [done|].
  pose proof (all_byte (fun b => let c1 := hexdigits.[Z.shiftr b 4] in let c2 := hexdigits.[Z.land b 15] in
    negb (isspace c1) && negb (phexdigit.[c1] =? -1) && negb (phexdigit.[c2] =? -1) &&
    (Z.lor (u8 (Z.shiftl phexdigit.[c1] 4)) phexdigit.[c2] =? b)) ltac:(by vm_compute) b Hb) as Hall. cbv zeta in Hall.
  rewrite !andb_true_iff, !negb_true_iff, !Z.eqb_neq, Z.eqb_eq in Hall. tauto.
Qed.

Lemma hex_byte c1 c2 :
  0 <= c1 < 256 -> 0 <= c2 < 256 -> 0 <= phexdigit.[c1] -> 0 <= phexdigit.[c2] ->
  isspace c1 = false /\ phexdigit.[c1] <> -1 /\ phexdigit.[c2] <> -1 /\
  hex2 (Z.lor (u8 (Z.shiftl phexdigit.[c1] 4)) phexdigit.[c2]) = [to_lower c1; to_lower c2].
Proof.
  intros H1 H2 Hd1 Hd2.
  pose proof (all_byte (fun c1 => (phexdigit.[c1] <? 0) || negb (isspace c1) && forallb (fun c2 => (phexdigit.[c2] <? 0) ||
    bool_decide (hex2 (Z.lor (u8 (Z.shiftl phexdigit.[c1] 4)) phexdigit.[c2]) = [to_lower c1; to_lower c2])) (seqZ 0 256)) ltac:(by vm_compute) c1 H1) as Hall.
  cbv beta in Hall. destruct (Z.ltb_spec phexdigit.[c1] 0); [lia|]. cbn [orb] in Hall. apply andb_true_iff in Hall as [Hs Hall].
  apply (all_byte _) with (c := c2) in Hall; [|done]. destruct (Z.ltb_spec phexdigit.[c2] 0); [lia|]. cbn [orb] in Hall.
  apply bool_decide_eq_true in Hall. apply negb_true_iff in Hs. split; [done|]. split; [lia|]. split; [lia|done].
Qed.

(** Bytes written in hexadecimal, each behind white space. *)
Definition hex_text (l : list (bytes * Z)) : bytes := mjoin ((fun x => x.1 ++ hex2 x.2) <$> l).

Lemma ParseHex_step fuel c1 c2 r vch :
  isspace c1 = false -> phexdigit.[c1] <> -1 -> phexdigit.[c2] <> -1 ->
  ParseHex_loop (S fuel) (c1 :: c2 :: r) vch = ParseHex_loop fuel r (vch ++ [Z.lor (u8 (Z.shiftl phexdigit.[c1] 4)) phexdigit.[c2]]).
Proof.
  intros Hs H1 H2. cbn [ParseHex_loop skip_space]. rewrite Hs.
  destruct (Z.eqb_spec phexdigit.[c1] (-1)); [done|]. by destruct (Z.eqb_spec phexdigit.[c2] (-1)).
Qed.

Lemma ParseHex_skip fuel sp p vch : spaces sp -> ParseHex_loop fuel (sp ++ p) vch = ParseHex_loop fuel p vch.
Proof. intros Hs. destruct fuel; [done|]. cbn [ParseHex_loop]. by rewrite skip_space_app. Qed.

Lemma ParseHex_loop_text l fuel vch :
  Forall (fun x => spaces x.1 /\ 0 <= x.2 < 256) l -> (length (hex_text l) < fuel)%nat ->
  ParseHex_loop fuel (hex_text l) vch = vch ++ (snd <$> l).
Proof.
  intros Hl. revert fuel vch. induction Hl as [|[sp b] l [Hs Hb] _ IH]; intros fuel vch.
  { rewrite app_nil_r. intros Hf. by destruct fuel. }
  cbn [fst snd] in *. change (hex_text ((sp, b) :: l)) with ((sp ++ hex2 b) ++ hex_text l). rewrite <-(assoc_L (++)), ParseHex_skip by done.
  destruct (hex2_digits b Hb) as (c1 & c2 & -> & Hn & H1 & H2 & Hv). cbn [app]. rewrite length_app. cbn [length]. intros Hf.
  destruct fuel as [|fuel]; [lia|]. rewrite ParseHex_step, IH by (done || lia). rewrite Hv, <-(assoc_L (++)). done.
Qed.

Lemma ParseHex_loop_pairs n s fuel vch :
  length s = (2 * n)%nat -> is_bytes s -> forallb (fun c => negb (phexdigit.[c] <? 0)) s = true -> (length s < fuel)%nat ->
  exists l, ParseHex_loop fuel s vch = vch ++ l /\ length l = n /\ mjoin (hex2 <$> l) = to_lower <$> s.
Proof.
  revert s fuel vch. induction n as [|n IH]; intros s fuel vch Hn Hb Hh Hf.
  { destruct s; [|done]. exists []. rewrite app_nil_r. destruct fuel; [cbn in Hf; lia|done]. }
  destruct s as [|c1 [|c2 s]]; cbn [length] in *; try lia. cbn [forallb] in Hh. rewrite !andb_true_iff, !negb_true_iff, !Z.ltb_ge in Hh.
  destruct Hh as (H1 & H2 & Hh). apply Forall_cons in Hb as [Hb1 Hb]. apply Forall_cons in Hb as [Hb2 Hb].
  destruct (hex_byte c1 c2 Hb1 Hb2 H1 H2) as (Hs & Hd1 & Hd2 & Hx). destruct fuel as [|fuel]; [lia|]. rewrite ParseHex_step by done.
  destruct (IH s fuel (vch ++ [Z.lor (u8 (Z.shiftl phexdigit.[c1] 4)) phexdigit.[c2]])) as (l & -> & Hl & Hj); [lia|done|done|lia|].
  exists (Z.lor (u8 (Z.shiftl phexdigit.[c1] 4)) phexdigit.[c2] :: l). rewrite <-(assoc_L (++)). split; [done|]. split; [cbn; lia|].
  match goal with |- mjoin (hex2 <$> ?b :: _) = _ => change (hex2 b ++ mjoin (hex2 <$> l) = to_lower <$> c1 :: c2 :: s) end.
  by rewrite Hx, Hj.
Qed.

(** [ParseHex] reads back bytes written in hexadecimal with any white space before each of
    them, and for a text [IsHex] accepts gives the bytes whose hexadecimal text it is, in lower case. *)
Theorem ParseHex_hex :
  (forall l, Forall (fun x => spaces x.1 /\ 0 <= x.2 < 256) l -> ParseHex (hex_text l) = snd <$> l) /\
  (forall s, is_bytes s -> IsHex s = true ->
    ParseHex s <> [] /\ 2 * lenZ (ParseHex s) = lenZ s /\ mjoin (hex2 <$> ParseHex s) = to_lower <$> s).
Proof.
  split. { intros l Hl. unfold ParseHex. rewrite ParseHex_loop_text by (done || lia). done. }
  intros s Hb. unfold IsHex. rewrite !andb_true_iff, Z.ltb_lt, Z.eqb_eq. intros ((Hh & Hpos) & Heven).
  pose proof (Z.div_mod (lenZ s) 2 ltac:(lia)) as Hdm. rewrite Heven in Hdm.
  destruct (ParseHex_loop_pairs (Z.to_nat (lenZ s / 2)) s (S (length s)) []) as (l & Hp & Hl & Hj); [unfold lenZ in *; lia|done|done|lia|].
  unfold ParseHex. rewrite Hp. cbn [app]. split; [|split; [unfold lenZ in *; lia|done]].
  intros ->. cbn in Hl. unfold lenZ in *. lia.
Qed.

Lemma ParseHex_hex_witness :
  ParseHex (lit " 0a fF") = [10; 255] /\ 2 * lenZ (ParseHex (lit "0aFF")) = 4.
Proof.
  split; [by vm_compute|]. destruct ParseHex_hex as [_ Hh].
  destruct (Hh (lit "0aFF")) as (_ & Hl & _); [repeat constructor; vm_compute; congruence|by vm_compute|exact Hl].
Defined.

(** ** Wildcards *)

(** What a mask denotes. *)
Inductive fits : bytes -> bytes -> Prop :=
  | fits_nil : fits [] []
  | fits_star l mask psz : fits mask psz -> fits (42 :: mask) (l ++ psz)
  | fits_any c mask psz : fits mask psz -> fits (63 :: mask) (c :: psz)
  | fits_char c mask psz : c <> 42 -> fits mask psz -> fits (c :: mask) (c :: psz).

Lemma WildcardMatch_star psz mask :
  WildcardMatch psz (42 :: mask) = true <-> exists l r, psz = l ++ r /\ WildcardMatch r mask = true.
Proof.
  induction psz as [|c psz IH].
  - change (WildcardMatch [] mask || false = true <-> exists l r, [] = l ++ r /\ WildcardMatch r mask = true). rewrite orb_false_r.
    split; [intros Hm; by exists [], []|]. intros (l & r & E & Hm). by destruct l, r.
  - change (WildcardMatch (c :: psz) mask || WildcardMatch psz (42 :: mask) = true <-> exists l r, c :: psz = l ++ r /\ WildcardMatch r mask = true).
    rewrite orb_true_iff, IH. split.
    + intros [Hm|(l & r & -> & Hm)]; [by exists [], (c :: psz)|by exists (c :: l), r].
    + intros ([|x l] & r & E & Hm); cbn [app] in E; [left; by subst|]. right. injection E as -> ->. by exists l, r.
Qed.

Lemma fits_inv m mask psz :
  fits (m :: mask) psz <->
  if m =? 42 then exists l r, psz = l ++ r /\ fits mask r
  else exists c r, psz = c :: r /\ (m = 63 \/ c = m) /\ fits mask r.
Proof.
  split.
  - intros Hf. inversion Hf as [|l k r Hr|c k r Hr|c k r Hc Hr]; subst; [by exists l, r|exists c, r; auto|].
    destruct (Z.eqb_spec m 42); [done|]. exists m, r. auto.
  - destruct (Z.eqb_spec m 42) as [->|Hm]; [intros (l & r & -> & Hr); by constructor|].
    intros (c & r & -> & [->| ->] & Hr); by constructor.
Qed.

(** [WildcardMatch] decides whether the text is one the mask denotes: a star is any
    text, a question mark any character, another character itself. *)
Theorem WildcardMatch_fits psz mask : WildcardMatch psz mask = true <-> fits mask psz.
Proof.
  revert psz. induction mask as [|m mask IH]; intros psz.
  { split; [destruct psz; [constructor|done]|]. intros Hf. by inversion Hf. }
  rewrite fits_inv. destruct (Z.eqb_spec m 42) as [->|Hm]; [rewrite WildcardMatch_star; by setoid_rewrite IH|].
  cbn [WildcardMatch]. apply Z.eqb_neq in Hm. rewrite Hm. split.
  - destruct psz as [|c psz]; [done|]. destruct ((m =? 63) || (c =? m)) eqn:E; [|done]. intros Hw. exists c, psz.
    split; [done|]. split; [lia|by apply IH].
  - intros (c & r & -> & Hc & Hf). replace ((m =? 63) || (c =? m)) with true by lia. by apply IH.
Qed.

(** ** The clock *)

Section Time.
Context `{MedianFilter}.

(** A run of [AddTimeData]: the time it is, the node and the time it tells. *)
Definition AddTimeData_all (calls : list (Z * CNetAddr * Z)) (s : TimeData) : TimeData :=
  foldl (fun s '(now, ip, nTime) => AddTimeData now ip nTime s) s calls.

Definition samples (s : TimeData) : Z := size (vTimeOffsets s).

(** One call: a node heard before changes nothing; another adds one sample, and moves the offset
    to the median or to 0, and only at an odd number of samples. *)
Lemma AddTimeData_step now ip nTime s (s' := AddTimeData now ip nTime s) :
  (ip ∈ setKnown s /\ s' = s) \/
  (ip ∉ setKnown s /\ setKnown s' = {[ip]} ∪ setKnown s /\ samples s' = Z.min 200 (samples s + 1) /\
   (nTimeOffset s' = nTimeOffset s \/ (Z.abs (nTimeOffset s') < 70 * 60 /\ samples s' mod 2 = 1))).
Proof.
  unfold s', AddTimeData. destruct (bool_decide_reflect (ip ∈ setKnown s)); [by left|right].
  cbv zeta. split; [done|]. cbn [nTimeOffset vTimeOffsets setKnown fDone]. unfold samples.
  set (f := input (s64 (nTime - now)) (vTimeOffsets s)). assert (Hf : size f = Z.min 200 (size (vTimeOffsets s) + 1)) by apply size_input.
  destruct ((5 <=? size f) && (size f mod 2 =? 1)) eqn:E; [|by auto].
  apply andb_true_iff in E as [_ E%Z.eqb_eq].
  destruct (Z.ltb_spec (Z.abs (median f)) (70 * 60)); cbn [nTimeOffset vTimeOffsets setKnown];
    (split; [done|]; split; [done|]; right; split; [done || lia|done]).
Qed.

Lemma AddTimeData_run calls s :
  Z.abs (nTimeOffset s) < 70 * 60 -> samples s <= 200 ->
  let s' := AddTimeData_all calls s in
  Z.abs (nTimeOffset s') < 70 * 60 /\ samples s <= samples s' <= 200 /\
  (forall ip, ip ∈ setKnown s' <-> ip ∈ setKnown s \/ ip ∈ (fun c => c.1.2) <$> calls) /\
  (samples s = 200 -> nTimeOffset s' = nTimeOffset s).
Proof.
  unfold AddTimeData_all. revert s. induction calls as [|[[now ip] nTime] calls IH]; intros s Ho Hs; cbv zeta.
  { cbn. split; [done|]. split; [lia|]. split; [|done]. intros ip. split; [by left|]. intros [?|Hin]; [done|]. by apply elem_of_nil in Hin. }
  cbn [foldl]. cbv zeta in IH. destruct (AddTimeData_step now ip nTime s) as [[Hin ->]|(Hin & Hk & Hf & Hor)].
  - destruct (IH s Ho Hs) as (H1 & H2 & H3 & H4). split; [done|]. split; [done|]. split; [|done].
    intros ip'. rewrite H3, fmap_cons, elem_of_cons. cbn [fst snd]. split; [intros [?|?]; auto|]. intros [?|[->|?]]; auto.
  - set (s1 := AddTimeData now ip nTime s) in *. destruct (IH s1) as (H1 & H2 & H3 & H4); [destruct Hor as [->|[? _]]; lia|lia|].
    split; [done|]. split; [lia|]. split.
    + intros ip'. rewrite H3, fmap_cons, elem_of_cons, Hk. cbn [fst snd]. rewrite elem_of_union, elem_of_singleton. tauto.
    + intros E. rewrite H4 by lia. destruct Hor as [->|[_ Hodd]]; [done|]. rewrite Hf, E in Hodd. done.
Qed.


End Time.

(** A concrete [CMedianFilter]: the last 200 values, newest first. *)
#[local] Instance last200 : MedianFilter.
Proof.
  refine {| Filter := list Z; input x f := x :: take 199 f; size f := Z.min 200 (lenZ f);
            sorted_values := merge_sort Z.le; median f := (merge_sort Z.le f).[lenZ f / 2] |}.
  intros x f. rewrite lenZ_cons. unfold lenZ. rewrite length_take. lia.
Defined.

Definition told (n : nat) : list (Z * CNetAddr * Z) := (fun i => (1000, [Z.of_nat i], 1000 + 60 * Z.of_nat i)) <$> seq 1 n.

Definition zeros (n : nat) : @TimeData last200 := @mkTimeData last200 ∅ (replicate n 0) 0 false.

