(* ===== verification/Lookup.v ===== *)
(** Texts of addresses and their look-up (src/netbase.cpp): [ParseNetwork], [SplitHostPort],
    [LookupIntern] to [LookupNumeric], the constructors that take a text, [ToStringIP] to
    [ToStringIPPort], [GetSockAddr] and [SetSockAddr].

    Parameters (class [Resolver]): [getnameinfo] and [getaddrinfo], each with its documented behaviour
    on numeric addresses, and whether IPv6 is compiled in.  [strtol] of the C library is defined here.
    The buffers of the callers of [GetSockAddr] are large enough.  *)

From S2P Require Import Prelude Codec Digits NetAddr Util.

(** [boost::to_lower] in the "C" locale. *)
Definition to_lower (s : bytes) : bytes := (fun c => if (65 <=? c) && (c <=? 90) then c + 32 else c) <$> s.

Definition ParseNetwork (net : bytes) : Network :=
  let net := to_lower net in
  if bool_decide (net = lit "ipv4") then NET_IPV4
  else if bool_decide (net = lit "ipv6") then NET_IPV6
  else if bool_decide (net = lit "tor") then NET_TOR
  else NET_UNROUTABLE.

(** ** Ports *)

Fixpoint take_digits (s : bytes) (acc : Z) : Z * bytes :=
  match s with
  | c :: r => if isdigit c then take_digits r (acc * 10 + (c - 48)) else (acc, s)
  | [] => (acc, [])
  end.

Definition LONG_MAX : Z := 2 ^ 63 - 1.

(** [strtol(s, &endp, 10)]: the value and the text at [endp]; without a digit it does not move. *)
Definition strtol10 (s : bytes) : Z * bytes :=
  let '(neg, p) := match skip_space s with
                   | c :: r => if c =? 45 then (true, r) else if c =? 43 then (false, r) else (false, c :: r)
                   | [] => (false, [])
                   end in
  match p with
  | c :: _ =>
    if isdigit c then
      let '(v, rest) := take_digits p 0 in
      (if neg : bool then Z.max (- v) (- LONG_MAX - 1) else Z.min v LONG_MAX, rest)
    else (0, s)
  | [] => (0, s)
  end.

(** What [c_str()] shows: the text up to its first NUL. *)
Fixpoint c_str (s : bytes) : bytes :=
  match s with [] => [] | c :: r => if c =? 0 then [] else c :: c_str r end.

(** [find_last_of] of one character: an index. *)
Fixpoint find_last_of (c : Z) (s : bytes) : option nat :=
  match s with
  | [] => None
  | x :: r => match find_last_of c r with
              | Some i => Some (S i)
              | None => if x =? c then Some 0%nat else None
              end
  end.

(** The port that is given stays when the text has none. *)
Definition SplitHostPort (text : bytes) (portOut : Z) : Z * bytes :=
  let '(text, portOut) :=
    match find_last_of 58 text with
    | None => (text, portOut)
    | Some colon =>
      let fBracketed := (text.[0] =? 91) && (text.[Z.of_nat colon - 1] =? 93) in
      (* at colon 0 the search starts at npos and finds this colon again *)
      let fMultiColon := match colon with O => true | S _ => bool_decide (is_Some (find_last_of 58 (take colon text))) end in
      if (colon =? 0)%nat || fBracketed || negb fMultiColon then
        let '(v, endp) := strtol10 (c_str (drop (S colon) text)) in
        let n := s32 v in
        match endp with
        | [] => if 0 <=? n then (take colon text, if (0 <? n) && (n <? 0x10000) then n else portOut)
                else (text, portOut)
        | _ => (text, portOut)
        end
      else (text, portOut)
    end in
  (portOut,
   if (0 <? lenZ text) && (text.[0] =? 91) && (text.[lenZ text - 1] =? 93)
   then take (length text - 2) (drop 1 text) else text).

(** ** Addresses of the system *)

Inductive SockAddr := SA_in (addr : bytes) (port : Z) | SA_in6 (addr : bytes) (port : Z).

(** An entry of the list [getaddrinfo] returns, by its family. *)
Inductive AddrInfo := AI_in (addr : bytes) | AI_in6 (addr : bytes) | AI_other.

(** The characters of the numeric forms: digits, hexadecimal digits and points, and colons. *)
Definition numeric_char (c : Z) : bool :=
  isdigit c || ((97 <=? c) && (c <=? 102)) || (c =? 46) || (c =? 58).

Class Resolver := {
  USE_IPV6 : bool;
  getnameinfo : SockAddr -> option bytes;                  (* NI_NUMERICHOST *)
  getaddrinfo : bytes -> bool -> option (list AddrInfo);   (* the name and whether to look it up *)
  getnameinfo_in a p t : getnameinfo (SA_in a p) = Some t -> t <> [] /\ Forall (fun c => isdigit c || (c =? 46)) t;
  getnameinfo_in6 a p t : getnameinfo (SA_in6 a p) = Some t -> t <> [] /\ Forall numeric_char t;
  getaddrinfo_in a p t l : length a = 4%nat -> getnameinfo (SA_in a p) = Some t -> getaddrinfo t l = Some [AI_in a];
  getaddrinfo_in6 a p t l : length a = 16%nat -> getnameinfo (SA_in6 a p) = Some t -> getaddrinfo t l = Some [AI_in6 a];
}.

Section Resolver.
Context `{Resolver}.
Import CNetAddr.

Definition GetSockAddr (s : CService) : option SockAddr :=
  if IsIPv4 (sv_ip s) then Some (SA_in (drop 12 (sv_ip s)) (port s))
  else if USE_IPV6 && IsIPv6 (sv_ip s) then Some (SA_in6 (sv_ip s) (port s))
  else None.

(** [CService(const sockaddr_in&)], [CService(const sockaddr_in6&)]. *)
Definition SetSockAddr (a : SockAddr) : option CService :=
  match a with
  | SA_in ip p => Some (mkService (of_in_addr ip) p)
  | SA_in6 ip p => if USE_IPV6 then Some (mkService ip p) else None
  end.

(** ** Look-up *)

Definition addr_of (ai : AddrInfo) : option CNetAddr :=
  match ai with
  | AI_in a => Some (of_in_addr a)
  | AI_in6 a => if USE_IPV6 then Some a else None
  | AI_other => None
  end.

Fixpoint traverse (nMaxSolutions : Z) (aiTrav : list AddrInfo) (vIP : list CNetAddr) : list CNetAddr :=
  match aiTrav with
  | [] => vIP
  | ai :: ai_next =>
    if (nMaxSolutions =? 0) || (lenZ vIP <? nMaxSolutions)
    then traverse nMaxSolutions ai_next (vIP ++ match addr_of ai with Some a => [a] | None => [] end)
    else vIP
  end.

(** [None] for false: the callers do not use the vector then. *)
Definition LookupIntern (pszName : bytes) (nMaxSolutions : Z) (fAllowLookup : bool) : option (list CNetAddr) :=
  match SetSpecial pszName with
  | Some addr => Some [addr]
  | None =>
    match getaddrinfo pszName fAllowLookup with
    | None => None
    | Some aiRes =>
      match traverse nMaxSolutions aiRes [] with
      | [] => None
      | vIP => Some vIP
      end
    end
  end.

Definition starts_with (s : bytes) (c : Z) : bool := match s with x :: _ => x =? c | [] => false end.
Definition ends_with (s : bytes) (c : Z) : bool := match s with [] => false | _ => s.[lenZ s - 1] =? c end.

Definition LookupHost (pszName : bytes) (nMaxSolutions : Z) (fAllowLookup : bool) : option (list CNetAddr) :=
  match pszName with
  | [] => None
  | _ =>
    let strHost := if starts_with pszName 91 && ends_with pszName 93
                   then take (length pszName - 2) (drop 1 pszName) else pszName in
    LookupIntern strHost nMaxSolutions fAllowLookup
  end.

Definition LookupHostNumeric (pszName : bytes) (nMaxSolutions : Z) : option (list CNetAddr) :=
  LookupHost pszName nMaxSolutions false.

Definition Lookup (pszName : bytes) (portDefault : Z) (fAllowLookup : bool) (nMaxSolutions : Z) : option (list CService) :=
  match pszName with
  | [] => None
  | _ =>
    let '(p, hostname) := SplitHostPort pszName portDefault in
    match LookupIntern hostname nMaxSolutions fAllowLookup with
    | None => None
    | Some vIP => Some ((fun ip => mkService ip (wrapu 16 p)) <$> vIP)
    end
  end.

(** The overload for one service. *)
Definition Lookup1 (pszName : bytes) (portDefault : Z) (fAllowLookup : bool) : option CService :=
  match Lookup pszName portDefault fAllowLookup 1 with
  | Some (addr :: _) => Some addr
  | _ => None
  end.

Definition LookupNumeric (pszName : bytes) (portDefault : Z) : option CService := Lookup1 pszName portDefault false.

(** [CNetAddr(const std::string&, bool)] and [CService(const std::string&, int, bool)]: what is not
    found stays initial. *)
Definition CNetAddr_of_text (strIp : bytes) (fAllowLookup : bool) : CNetAddr :=
  match LookupHost strIp 1 fAllowLookup with Some (ip :: _) => ip | _ => Init end.
Definition CService_of_text (strIpPort : bytes) (portDefault : Z) (fAllowLookup : bool) : CService :=
  match Lookup1 strIpPort portDefault fAllowLookup with Some s => s | None => mkService Init 0 end.

(** ** Texts *)

(** [%x]. *)
Definition hexdigit (d : Z) : Z := if d <? 10 then 48 + d else 87 + d.
Definition hex (n : Z) : bytes := hexdigit <$> drop_zeros (be_digits 16 8 n).

Definition ToStringIP (ip : CNetAddr) : bytes :=
  if IsTor ip then ToStringIP_tor ip
  else
    match (sa ← GetSockAddr (mkService ip 0); getnameinfo sa) with
    | Some name => name
    | None =>
      if IsIPv4 ip then
        join [46] (decimal <$> [GetByte ip 3; GetByte ip 2; GetByte ip 1; GetByte ip 0])
      else
        join [58] ((fun k => hex (Z.lor (Z.shiftl (GetByte ip (k + 1)) 8) (GetByte ip k))) <$> [14; 12; 10; 8; 6; 4; 2; 0])
    end.

Definition ToStringPort (s : CService) : bytes := decimal (port s).

Definition ToStringIPPort (s : CService) : bytes :=
  if IsIPv4 (sv_ip s) || IsTor (sv_ip s) then ToStringIP (sv_ip s) ++ [58] ++ ToStringPort s
  else [91] ++ ToStringIP (sv_ip s) ++ [93; 58] ++ ToStringPort s.

End Resolver.

Example split_texts :
  SplitHostPort (lit "node.example:1234") 8333 = (1234, lit "node.example") /\
  SplitHostPort (lit "[::1]:99") 8333 = (99, lit "::1") /\
  SplitHostPort (lit "::1") 8333 = (8333, lit "::1") /\
  SplitHostPort (lit "host:65536") 8333 = (8333, lit "host") /\
  SplitHostPort (lit ":") 8333 = (8333, []) /\
  SplitHostPort (lit "host:x") 8333 = (8333, lit "host:x") /\
  SplitHostPort (lit "host:4294967376") 8333 = (80, lit "host").
Proof. by vm_compute. Qed.
