(* ===== verification/LookupThms.v ===== *)
(** Theorems on texts of addresses (Lookup.v): the port that [SplitHostPort] finds is a port, and what
    [ToStringIPPort] prints is looked up as the same service. *)

From S2P Require Import Prelude Codec Digits NetAddr Util UtilThms Lookup.
Import CNetAddr.

(** ** Reading a port *)

Lemma take_digits_all p acc : digits p -> take_digits p acc = (acc * 10 ^ lenZ p + value p, []).
Proof.
  intros Hp. revert acc. induction Hp as [|c p Hc Hp IH]; intros acc; cbn [take_digits].
  - f_equal. change (lenZ []) with 0. change (value []) with 0. lia.
  - rewrite Hc, IH. f_equal. rewrite value_cons, lenZ_cons, Z.pow_add_r by (try apply lenZ_nonneg; lia). lia.
Qed.

Lemma digits_c_str p : digits p -> c_str p = p.
Proof.
  induction 1 as [|c p Hc Hp IH]; [done|]. cbn [c_str]. apply isdigit_range in Hc.
  destruct (Z.eqb_spec c 0); [lia|]. by rewrite IH.
Qed.

Lemma strtol10_digits p : digits p -> p <> [] -> value p <= LONG_MAX -> strtol10 p = (value p, []).
Proof.
  intros Hp Hne Hv. destruct p as [|c p]; [done|]. pose proof Hp as [Hc _]%Forall_cons. unfold strtol10.
  rewrite skip_space_digit by done. pose proof (proj1 (isdigit_range c) Hc).
  destruct (Z.eqb_spec c 45); [lia|]. destruct (Z.eqb_spec c 43); [lia|]. rewrite Hc, take_digits_all by done.
  f_equal. rewrite Z.mul_0_l, Z.add_0_l. by apply Z.min_l.
Qed.

Lemma find_last_of_None c s : c ∉ s -> find_last_of c s = None.
Proof.
  induction s as [|x s IH]; cbn [find_last_of]; [done|]. intros Hc. rewrite IH by set_solver.
  destruct (Z.eqb_spec x c) as [->|]; [|done]. destruct Hc. left.
Qed.
Lemma find_last_of_app c a b : c ∉ b -> find_last_of c (a ++ c :: b) = Some (length a).
Proof.
  intros Hb. induction a as [|x a IH]; cbn [find_last_of app length].
  - by rewrite find_last_of_None, Z.eqb_refl.
  - by rewrite IH.
Qed.

Lemma digits_no_colon p : digits p -> 58 ∉ p.
Proof. intros Hp Hin. unfold digits in Hp. rewrite Forall_forall in Hp. by apply Hp in Hin. Qed.

(** The port read from digits; the text before the colon. *)
Definition port_read (p : bytes) (d : Z) : Z := if 0 <? value p then value p else d.

Lemma port_digits p d : digits p -> p <> [] -> value p < 0x10000 ->
  strtol10 (c_str p) = (value p, []) /\ s32 (value p) = value p /\ (0 <=? value p) = true /\
  (if (0 <? value p) && (value p <? 0x10000) then value p else d) = port_read p d.
Proof.
  intros Hp Hne Hv. pose proof (value_range p Hp) as [Hlo _]. split_and!.
  - rewrite digits_c_str by done. apply strtol10_digits; [done|done|unfold LONG_MAX; lia].
  - apply wraps_small; [lia|]. unfold in_s. lia.
  - lia.
  - unfold port_read. destruct (0 <? value p); [|done]. by replace (value p <? 0x10000) with true by lia.
Qed.

Lemma split_plain t p d :
  58 ∉ t -> 91 ∉ t -> digits p -> p <> [] -> value p < 0x10000 ->
  SplitHostPort (t ++ 58 :: p) d = (port_read p d, t).
Proof.
  intros Ht Hb Hp Hne Hv. unfold SplitHostPort. rewrite find_last_of_app by by apply digits_no_colon.
  destruct (port_digits p d Hp Hne Hv) as (Es & Ew & E0 & Ep).
  assert (Hm : (length t =? 0)%nat || ((t ++ 58 :: p).[0] =? 91) && ((t ++ 58 :: p).[Z.of_nat (length t) - 1] =? 93)
    || negb match length t with O => true | S _ => bool_decide (is_Some (find_last_of 58 (take (length t) (t ++ 58 :: p)))) end = true).
  { destruct (length t) eqn:El; [done|]. rewrite <-El, take_app_length, find_last_of_None by done.
    rewrite bool_decide_eq_false_2 by (by intros [? ?]). by rewrite orb_true_r. }
  rewrite Hm. rewrite drop_app_ge by lia. replace (S (length t) - length t)%nat with 1%nat by lia.
  change (drop 1 (58 :: p)) with p. rewrite Es, Ew, E0, Ep, take_app_length. f_equal.
  destruct (Z.eqb_spec t.[0] 91) as [E|_]; [|by rewrite andb_false_r].
  destruct t as [|x t]; [done|]. change (x = 91) in E. subst. destruct Hb. left.
Qed.

Lemma split_bracketed t p d :
  digits p -> p <> [] -> value p < 0x10000 ->
  SplitHostPort ([91] ++ t ++ [93; 58] ++ p) d = (port_read p d, t).
Proof.
  intros Hp Hne Hv. unfold SplitHostPort.
  set (b := 91 :: t ++ [93]). replace ([91] ++ t ++ [93; 58] ++ p) with (b ++ 58 :: p) by (unfold b; cbn; by rewrite <-app_assoc).
  rewrite find_last_of_app by by apply digits_no_colon.
  destruct (port_digits p d Hp Hne Hv) as (Es & Ew & E0 & Ep).
  assert (Hlen : length b = (length t + 2)%nat) by (unfold b; cbn; rewrite length_app; cbn; lia).
  assert (Hlast : b.[lenZ b - 1] = 93).
  { unfold b, lenZ. cbn [length]. rewrite length_app. cbn [length].
    unfold nthZ. destruct (Z.ltb_spec (Z.of_nat (S (length t + 1)) - 1) 0); [lia|].
    replace (Z.to_nat (Z.of_nat (S (length t + 1)) - 1)) with (S (length t)) by lia. cbn [nth].
    rewrite app_nth2 by lia. by rewrite Nat.sub_diag. }
  assert (Hbr : ((b ++ 58 :: p).[0] =? 91) && ((b ++ 58 :: p).[Z.of_nat (length b) - 1] =? 93) = true).
  { unfold lenZ in Hlast. rewrite !nthZ_app_l by (unfold lenZ; lia). by rewrite Hlast. }
  rewrite Hbr, orb_true_r. cbn [orb]. rewrite drop_app_ge by lia. replace (S (length b) - length b)%nat with 1%nat by lia.
  change (drop 1 (58 :: p)) with p. rewrite Es, Ew, E0, Ep, take_app_length. f_equal.
  rewrite Hlast. change (b.[0]) with 91. cbn [Z.eqb Pos.eqb].
  replace (0 <? lenZ b) with true by (unfold lenZ; lia). cbn [andb].
  rewrite Hlen. unfold b. cbn [drop]. replace (length t + 2 - 2)%nat with (length t) by lia. apply take_app_length.
Qed.

(** The port stays or becomes one from 1 to 65535. *)
Lemma SplitHostPort_port text d :
  (SplitHostPort text d).1 = d \/ 0 < (SplitHostPort text d).1 < 0x10000.
Proof.
  unfold SplitHostPort. destruct (find_last_of 58 text) as [colon|]; [|by left].
  destruct (_ || _); [|by left]. destruct (strtol10 _) as [v endp]. destruct endp; [|by left].
  destruct (0 <=? s32 v); [|by left]. destruct (0 <? s32 v) eqn:E1; [|by left].
  destruct (s32 v <? 0x10000) eqn:E2; [|by left]. right. cbn. lia.
Qed.

(** ** Texts of addresses *)

Lemma base32_chars (P : Z -> Prop) v : P 0 -> P 61 -> Forall P Base32.pbase32 -> Forall P (Base32.EncodeBase32 v).
Proof.
  intros H0 H61 Hp. assert (Hn : forall i, P (Base32.pbase32).[i]).
  { intros i. unfold nthZ. destruct (i <? 0); [done|]. destruct (nth_in_or_default (Z.to_nat i) Base32.pbase32 0) as [Hi|E].
    - rewrite Forall_forall in Hp. apply Hp. by apply list_elem_of_In.
    - by rewrite E. }
  assert (Hstep : forall st b, Forall P st.1.1 -> Forall P (Base32.enc_step st b).1.1).
  { intros [[s m] l] b Hs. unfold Base32.enc_step. cbn [fst] in *.
    repeat match goal with |- context [if ?x then _ else _] => destruct x end; cbn [fst]; try apply Forall_app; auto. }
  assert (Hall : forall l st, Forall P st.1.1 -> Forall P (fold_left Base32.enc_step l st).1.1).
  { induction l as [|b l IH]; intros st Hs; [done|]. apply IH. by apply Hstep. }
  unfold Base32.EncodeBase32. specialize (Hall v ([], 0, 0) (List.Forall_nil _)).
  destruct (fold_left _ _ _) as [[s m] l]. cbn [fst] in Hall. unfold Base32.enc_finish.
  destruct (m =? 0); [done|]. rewrite !Forall_app. split_and!; [done|by constructor|].
  induction (Z.to_nat Base32.nPadding.[m]); cbn; [constructor|by constructor].
Qed.

Lemma tor_text ip : 58 ∉ ToStringIP_tor ip /\ 91 ∉ ToStringIP_tor ip.
Proof.
  assert (H : Forall (fun c => c <> 58 /\ c <> 91) (ToStringIP_tor ip)).
  { unfold ToStringIP_tor. apply Forall_app. split; [|apply (bool_decide_unpack _); by vm_compute].
    apply base32_chars; [done|done|apply (bool_decide_unpack _); by vm_compute]. }
  rewrite Forall_forall in H. split; intros Hin; by destruct (H _ Hin).
Qed.

Lemma decimal_nonempty n : decimal n <> [].
Proof.
  unfold decimal. intros E%fmap_nil_inv.
  assert (Hne : forall ds, ds <> [] -> drop_zeros ds <> []).
  { induction ds as [|d [|e r] IH]; [done|done|]. intros _. cbn [drop_zeros]. by destruct (d =? 0); [apply IH|]. }
  eapply Hne; [|exact E]. apply (f_equal length) in E. intros E'. apply (f_equal length) in E'.
  unfold be_digits in E'. rewrite length_rev, le_digits_length in E'. done.
Qed.

Lemma decimal_port p : in_u 16 p -> digits (decimal p) /\ decimal p <> [] /\ value (decimal p) = p.
Proof.
  intros Hp. unfold in_u in Hp. destruct (decimal_spec p ltac:(lia)) as (Hd & _ & Hv).
  split_and!; [done|apply decimal_nonempty|done].
Qed.

Section Resolver.
Context `{Resolver}.

(** An address the system prints, or a Tor address. *)
Definition printed (ip : CNetAddr) : Prop :=
  IsTor ip = true \/ exists sa t, GetSockAddr (mkService ip 0) = Some sa /\ getnameinfo sa = Some t.

Lemma numeric_not_special t : Forall numeric_char t -> SetSpecial t = None.
Proof.
  intros Ht. unfold SetSpecial. destruct (6 <? lenZ t); [|done]. case_bool_decide as E; [|done]. exfalso.
  assert (Hin : 110 ∈ t).
  { rewrite <-(take_drop (length t - 6) t), E. apply elem_of_app. right. apply (bool_decide_unpack _). by vm_compute. }
  rewrite Forall_forall in Ht. by apply Ht in Hin.
Qed.

Lemma Tor_not_IPv4 ip : IsTor ip = true -> IsIPv4 ip = false.
Proof.
  unfold IsTor, IsIPv4. intros E%memeq_true. apply not_true_iff_false. intros E2%memeq_true.
  assert (take 6 ip = take 6 (take 12 ip)) as E3 by (by rewrite take_take).
  rewrite E, E2 in E3. by vm_compute in E3.
Qed.

(** The text of an address, and that it is looked up as the address. *)
Lemma ToStringIP_lookup ip fAllow :
  wf_addr ip -> printed ip ->
  LookupIntern (ToStringIP ip) 1 fAllow = Some [ip] /\ 91 ∉ ToStringIP ip /\
  (IsIPv4 ip || IsTor ip = true -> 58 ∉ ToStringIP ip).
Proof.
  intros Hwf Hp. unfold ToStringIP. destruct (IsTor ip) eqn:Et.
  { destruct (TorText.SetSpecial_ToStringIP ip [7] Hwf Et ltac:(apply (bool_decide_unpack _); by vm_compute) ltac:(done)) as [Hs _].
    unfold LookupIntern. rewrite Hs. destruct (tor_text ip). done. }
  destruct Hp as [?|(sa & t & Esa & Et')]; [congruence|]. rewrite Esa. cbn [mbind option_bind]. rewrite Et'.
  unfold GetSockAddr in Esa. cbn [sv_ip port] in Esa. destruct Hwf as [Hlen Hby].
  destruct (IsIPv4 ip) eqn:E4.
  - injection Esa as <-. pose proof (getnameinfo_in _ _ _ Et') as [Hne Hc].
    assert (Hnum : Forall numeric_char t).
    { eapply Forall_impl; [exact Hc|]. intros c. unfold numeric_char. rewrite !Is_true_true, !orb_true_iff. tauto. }
    split_and!.
    + unfold LookupIntern. rewrite numeric_not_special by done.
      rewrite (getaddrinfo_in (drop 12 ip) 0 t fAllow); [|rewrite length_drop; lia|done].
      assert (Eip : of_in_addr (drop 12 ip) = ip) by (unfold of_in_addr; apply memeq_true in E4; rewrite <-E4; apply take_drop).
      cbn -[of_in_addr]. by rewrite Eip.
    + intros Hin. rewrite Forall_forall in Hc. by apply Hc in Hin.
    + intros _ Hin. rewrite Forall_forall in Hc. by apply Hc in Hin.
  - destruct (USE_IPV6) eqn:E6; [|done]. destruct (IsIPv6 ip); [|done]. injection Esa as <-.
    pose proof (getnameinfo_in6 _ _ _ Et') as [Hne Hc]. split_and!; [| |done].
    + unfold LookupIntern. rewrite numeric_not_special by done.
      rewrite (getaddrinfo_in6 ip 0 t fAllow Hlen Et'). cbn. by rewrite E6.
    + intros Hin. rewrite Forall_forall in Hc. by apply Hc in Hin.
Qed.

(** What [ToStringIPPort] prints for a service is split and looked up as the same service, with or
    without asking a name server; a port 0 is replaced by the default.  *)
Theorem Lookup_ToStringIPPort s d fAllow :
  wf_addr (sv_ip s) -> in_u 16 (port s) -> printed (sv_ip s) ->
  SplitHostPort (ToStringIPPort s) d = (if port s =? 0 then d else port s, ToStringIP (sv_ip s)) /\
  Lookup1 (ToStringIPPort s) d fAllow = Some (mkService (sv_ip s) (if port s =? 0 then wrapu 16 d else port s)).
Proof.
  intros Hwf Hport Hp. destruct (ToStringIP_lookup (sv_ip s) fAllow Hwf Hp) as (Hl & Hbr & Hco).
  destruct (decimal_port (port s) Hport) as (Hd & Hne & Hv).
  assert (Hread : port_read (decimal (port s)) d = if port s =? 0 then d else port s).
  { unfold port_read. rewrite Hv. unfold in_u in Hport. destruct (Z.ltb_spec 0 (port s)), (Z.eqb_spec (port s) 0); lia || done. }
  assert (Hsplit : SplitHostPort (ToStringIPPort s) d = (if port s =? 0 then d else port s, ToStringIP (sv_ip s))).
  { rewrite <-Hread. unfold ToStringIPPort, ToStringPort. unfold in_u in Hport. destruct (_ || _).
    - apply split_plain; [by apply Hco|done|done|done|lia].
    - apply split_bracketed; [done|done|lia]. }
  split; [done|]. unfold Lookup1, Lookup.
  assert (Hnn : ToStringIPPort s <> []).
  { unfold ToStringIPPort. intros E. destruct (_ || _); [by apply app_nil in E as [_ ?]|done]. }
  destruct (ToStringIPPort s) as [|c r]; [done|]. rewrite Hsplit, Hl. cbn.
  f_equal. f_equal. destruct (Z.eqb_spec (port s) 0); [done|]. apply wrapu_small. done.
Qed.

End Resolver.

Module LookupExamples.

(** A system that knows two addresses. *)
Definition v4 : bytes := [8; 8; 4; 4].
Definition v6 : bytes := [0x20; 0x01; 0x48; 0x60] ++ repeat 0 11 ++ [0x88].

#[local] Instance resolver : Resolver.
Proof.
  refine {| USE_IPV6 := true;
    getnameinfo sa := match sa with
      | SA_in a _ => if bool_decide (a = v4) then Some (lit "8.8.4.4") else None
      | SA_in6 a _ => if bool_decide (a = v6) then Some (lit "2001:4860::88") else None end;
    getaddrinfo t _ := if bool_decide (t = lit "8.8.4.4") then Some [AI_in v4]
      else if bool_decide (t = lit "2001:4860::88") then Some [AI_in6 v6] else None |}.
  - intros a p t. case_bool_decide; [|done]. intros [= <-]. apply (bool_decide_unpack _). by vm_compute.
  - intros a p t. case_bool_decide; [|done]. intros [= <-]. apply (bool_decide_unpack _). by vm_compute.
  - intros a p t l _. case_bool_decide as E; [|done]. intros [= <-]. subst. done.
  - intros a p t l _. case_bool_decide as E; [|done]. intros [= <-]. subst. done.
Defined.

Lemma Lookup_ToStringIPPort_witness :
  ToStringIPPort (mkService v6 8333) = lit "[2001:4860::88]:8333" /\
  Lookup1 (ToStringIPPort (mkService v6 8333)) 1 false = Some (mkService v6 8333) /\
  Lookup1 (ToStringIPPort (mkService (of_in_addr v4) 0)) 18333 true = Some (mkService (of_in_addr v4) 18333).
Proof.
  split; [by vm_compute|]. split.
  - apply (Lookup_ToStringIPPort (mkService v6 8333) 1 false).
    + apply (bool_decide_unpack _). by vm_compute.
    + done.
    + right. by eexists _, _.
  - apply (Lookup_ToStringIPPort (mkService (of_in_addr v4) 0) 18333 true).
    + apply (bool_decide_unpack _). by vm_compute.
    + done.
    + right. by eexists _, _.
Defined.

(** [strtol] gives a [long], [n] is an [int]: a port beyond 2^32 is not refused but reduced. *)
Example port_wraps : SplitHostPort (lit "host:4294967376") 8333 = (80, lit "host").
Proof. by vm_compute. Qed.

End LookupExamples.
