(* ===== verification/Socks.v ===== *)
(** Connecting to other hosts, directly or through proxies (src/netbase.cpp): [Socks4], [Socks5],
    [ConnectSocketDirectly], the settings of the proxies, [ConnectSocket] and [ConnectSocketByName].

    The system calls answer as the class [Kernel] says: any sequence of answers, numbered by the calls made
    so far.  The state has the descriptors that are open, what happened to them in order, and the
    settings.  [recv] into an array with fewer bytes than arrive is undefined: [Stuck].

    Left out: the texts printed, the switch of a socket to blocking and back as such (its failures are
    modelled), the Windows branches and SO_NOSIGPIPE.  *)

From S2P Require Import Prelude Monad NetAddr Util Lookup.

Inductive ConnectResult := CR_done | CR_pending | CR_failed.
Inductive SelectResult := SR_ready | SR_timeout | SR_error.

Class Kernel := {
  k_socket : nat -> list Z -> option Z;        (* given what is open *)
  k_fcntl : nat -> bool;
  k_connect : nat -> ConnectResult;
  k_select : nat -> Z -> SelectResult;
  k_sockopt : nat -> option Z;
  k_send : nat -> bytes -> Z;
  k_recv : nat -> Z -> option bytes;           (* at most so many bytes *)
  k_socket_fresh i l h : k_socket i l = Some h -> h ∉ l;
  k_recv_bytes i n b : k_recv i n = Some b -> lenZ b <= n /\ is_bytes b;
}.

Inductive Event :=
| Opened (h : Z)
| Closed (h : Z)
| Connected (h : Z) (a : SockAddr)
| Sent (h : Z) (b : bytes)
| Received (h : Z) (b : bytes).

(** A proxy: its service and its SOCKS version, 0 for none. *)
Abbreviation proxyType := (CService * Z)%type.

Record Net := mkNet {
  calls : nat;
  opened : list Z;
  events : list Event;
  proxyInfo : Network -> proxyType;
  nameproxyInfo : proxyType }.

Definition no_proxy : proxyType := (mkService CNetAddr.Init 0, 0).
Definition new_net : Net := mkNet 0 [] [] (fun _ => no_proxy) no_proxy.

Definition set_opened o s := mkNet (calls s) o (events s) (proxyInfo s) (nameproxyInfo s).
Definition tick s := mkNet (S (calls s)) (opened s) (events s) (proxyInfo s) (nameproxyInfo s).
Definition happen e s := mkNet (calls s) (opened s) (events s ++ [e]) (proxyInfo s) (nameproxyInfo s).

(** [enum Network] below [NET_MAX]. *)
Definition networks : list Network := [NET_UNROUTABLE; NET_IPV4; NET_IPV6; NET_TOR].

Section Net.
Context `{Resolver, Kernel}.

Abbreviation N := (X Net).

(** ** System calls *)

Definition next : N nat := i <~ X.gets calls ;; X.modify tick ;~ X.ret i.

Definition sys_socket : N (option Z) :=
  i <~ next ;; l <~ X.gets opened ;;
  match k_socket i l with
  | None => X.ret None
  | Some h => X.modify (set_opened (h :: l)) ;~ X.modify (happen (Opened h)) ;~ X.ret (Some h)
  end.

Definition closesocket (h : Z) : N unit :=
  X.modify (fun s => happen (Closed h) (set_opened (filter (fun x => x <> h) (opened s)) s)).

Definition fail (h : Z) : N bool := closesocket h ;~ X.ret false.

Definition sys_send (h : Z) (b : bytes) : N Z :=
  i <~ next ;;
  let ret := k_send i b in
  (if ret =? lenZ b then X.modify (happen (Sent h b)) else X.ret tt) ;~ X.ret ret.

(** [recv(h, buffer, n, 0)] with an array of [cap] bytes; [n] becomes a [size_t].  At the end of the
    stream nothing is received. *)
Definition sys_recv (h : Z) (cap n : Z) : N (Z * bytes) :=
  i <~ next ;;
  match k_recv i (u64 n) with
  | None => X.ret (-1, [])
  | Some b => if cap <? lenZ b then X.lift None
              else (match b with [] => X.ret tt | _ => X.modify (happen (Received h b)) end) ;~ X.ret (lenZ b, b)
  end.

(** ** SOCKS *)

Definition Socks4 (addrDest : CService) (h : Z) : N bool :=
  if negb (CNetAddr.IsIPv4 (sv_ip addrDest)) then fail h
  else
    match GetSockAddr addrDest with
    | Some (SA_in a p) =>
      let msg := [4; 1; Z.shiftr p 8; Z.land p 0xFF] ++ a ++ lit "user" ++ [0] in
      ret <~ sys_send h msg ;;
      if negb (ret =? lenZ msg) then fail h
      else
        r <~ sys_recv h 8 8 ;;
        if negb (r.1 =? 8) then fail h
        else if negb (r.2.[1] =? 0x5a) then fail h
        else X.ret true
    | _ => fail h
    end.

(** A [char] as a number. *)
Definition of_char (b : Z) : Z := wraps 8 b.

(** The address the proxy is bound to, by its kind [t]; [None] means false. *)
Definition read_bound (t : Z) (h : Z) : N (option bool) :=
  if t =? 1 then r <~ sys_recv h 256 4 ;; X.ret (Some (negb (r.1 =? 4)))
  else if t =? 4 then r <~ sys_recv h 256 16 ;; X.ret (Some (negb (r.1 =? 16)))
  else if t =? 3 then
    r <~ sys_recv h 256 1 ;;
    if negb (r.1 =? 1) then X.ret None          (* the socket stays open *)
    else
      let nRecv := of_char r.2.[0] in
      r <~ sys_recv h 256 nRecv ;; X.ret (Some (negb (r.1 =? nRecv)))
  else closesocket h ;~ X.ret None.

Definition Socks5 (strDest : bytes) (port : Z) (h : Z) : N bool :=
  if 255 <? lenZ strDest then fail h
  else
    ret <~ sys_send h [5; 1; 0] ;;
    if negb (ret =? 3) then fail h
    else
      r1 <~ sys_recv h 2 2 ;;
      if negb (r1.1 =? 2) then fail h
      else if negb (r1.2.[0] =? 5) || negb (r1.2.[1] =? 0) then fail h
      else
        let strSocks5 := [5; 1; 0; 3; u8 (Z.min (lenZ strDest) 255)] ++ strDest
                         ++ [Z.land (Z.shiftr port 8) 0xFF; Z.land port 0xFF] in
        ret <~ sys_send h strSocks5 ;;
        if negb (ret =? lenZ strSocks5) then fail h
        else
          r2 <~ sys_recv h 4 4 ;;
          if negb (r2.1 =? 4) then fail h
          else if negb (r2.2.[0] =? 5) then fail h
          else if negb (r2.2.[1] =? 0) then fail h
          else if negb (r2.2.[2] =? 0) then fail h
          else
            bad <~ read_bound r2.2.[3] h ;;
            match bad with
            | None => X.ret false
            | Some true => fail h
            | Some false =>
              r4 <~ sys_recv h 256 2 ;;
              if negb (r4.1 =? 2) then fail h else X.ret true
            end.

(** ** Connecting *)

Definition fail_ret (h : Z) : N (option Z) := closesocket h ;~ X.ret None.

(** The result is [hSocketRet], [None] for false. *)
Definition ConnectSocketDirectly (addrConnect : CService) (nTimeout : Z) : N (option Z) :=
  match GetSockAddr addrConnect with
  | None => X.ret None
  | Some sockaddr =>
    sock <~ sys_socket ;;
    match sock with
    | None => X.ret None
    | Some h =>
      i <~ next ;;
      if negb (k_fcntl i) then fail_ret h
      else
        i <~ next ;;
        connected <~ match k_connect i with
          | CR_done => X.ret true
          | CR_failed => fail h
          | CR_pending =>
            i <~ next ;;
            match k_select i nTimeout with
            | SR_timeout | SR_error => fail h
            | SR_ready =>
              i <~ next ;;
              match k_sockopt i with
              | Some 0 => X.ret true
              | _ => fail h
              end
            end
          end ;;
        if negb connected then X.ret None
        else
          i <~ next ;;
          if negb (k_fcntl i) then fail_ret h
          else X.modify (happen (Connected h sockaddr)) ;~ X.ret (Some h)
    end
  end.

Definition SetProxy (net : Network) (addrProxy : CService) (nSocksVersion : Z) : N bool :=
  if negb (nSocksVersion =? 0) && negb (nSocksVersion =? 4) && negb (nSocksVersion =? 5) then X.ret false
  else if negb (nSocksVersion =? 0) && negb (CNetAddr.IsValid (sv_ip addrProxy)) then X.ret false
  else X.modify (fun s => mkNet (calls s) (opened s) (events s)
                   (fun n => if bool_decide (n = net) then (addrProxy, nSocksVersion) else proxyInfo s n) (nameproxyInfo s)) ;~
       X.ret true.

Definition GetProxy (net : Network) (s : Net) : option proxyType :=
  if (proxyInfo s net).2 =? 0 then None else Some (proxyInfo s net).

Definition SetNameProxy (addrProxy : CService) (nSocksVersion : Z) : N bool :=
  if negb (nSocksVersion =? 0) && negb (nSocksVersion =? 5) then X.ret false
  else if negb (nSocksVersion =? 0) && negb (CNetAddr.IsValid (sv_ip addrProxy)) then X.ret false
  else X.modify (fun s => mkNet (calls s) (opened s) (events s) (proxyInfo s) (addrProxy, nSocksVersion)) ;~ X.ret true.

Definition GetNameProxy (s : Net) : option proxyType :=
  if (nameproxyInfo s).2 =? 0 then None else Some (nameproxyInfo s).

Definition HaveNameProxy (s : Net) : bool := negb ((nameproxyInfo s).2 =? 0).

Definition IsProxy (addr : CNetAddr) (s : Net) : bool :=
  existsb (fun i => negb ((proxyInfo s i).2 =? 0) && memeq addr (sv_ip (proxyInfo s i).1)) networks.

Definition ConnectSocket (addrDest : CService) (nTimeout : Z) : N (option Z) :=
  proxy <~ X.gets (GetProxy (CNetAddr.GetNetwork (sv_ip addrDest))) ;;
  match proxy with
  | None => ConnectSocketDirectly addrDest nTimeout
  | Some (server, version) =>
    sock <~ ConnectSocketDirectly server nTimeout ;;
    match sock with
    | None => X.ret None
    | Some h =>
      ok <~ (if version =? 4 then Socks4 addrDest h
             else if version =? 5 then Socks5 (ToStringIP (sv_ip addrDest)) (port addrDest) h
             else X.ret false) ;;
      X.ret (if ok : bool then Some h else None)
    end
  end.

(** The result with the new value of [addr].  [name_lookup] is the option [fNameLookup]. *)
Definition ConnectSocketByName (name_lookup : bool) (pszDest : bytes) (portDefault nTimeout : Z) : N (option Z * CService) :=
  let '(p, strDest) := SplitHostPort pszDest portDefault in
  nameproxy <~ X.gets GetNameProxy ;;
  let addrResolved := mkService (CNetAddr_of_text strDest (name_lookup && bool_decide (nameproxy = None))) (wrapu 16 p) in
  if CNetAddr.IsValid (sv_ip addrResolved) then
    sock <~ ConnectSocket addrResolved nTimeout ;; X.ret (sock, addrResolved)
  else
    let addr := CService_of_text (lit "0.0.0.0:0") 0 false in
    match nameproxy with
    | None => X.ret (None, addr)
    | Some (server, version) =>
      sock <~ ConnectSocketDirectly server nTimeout ;;
      match sock with
      | None => X.ret (None, addr)
      | Some h =>
        ok <~ (if version =? 5 then Socks5 strDest p h else X.ret false) ;;
        X.ret (if ok : bool then Some h else None, addr)
      end
    end.

End Net.
