(* ===== verification/SocksThms.v ===== *)
(** Theorems on connecting (Socks.v): what is sent to a SOCKS 5 proxy and what it must answer; that no
    socket is lost but one, whatever the system and the proxy do. *)

From S2P Require Import Prelude Monad Codec Digits NetAddr Util Lookup LookupThms Socks.

Section Net.
Context `{Resolver, Kernel}.
Implicit Types (s : Net) (h : Z).

(** ** System calls *)

Lemma sp_send h b Q s :
  (forall ret, (ret = lenZ b -> Q (Done ret) (happen (Sent h b) (tick s))) /\ (ret <> lenZ b -> Q (Done ret) (tick s))) ->
  X.sp (sys_send h b) Q s.
Proof.
  intros HQ. unfold X.sp, sys_send, next, X.bind, X.gets, X.modify, X.ret.
  destruct (HQ (k_send (calls s) b)) as [H1 H2]. destruct (Z.eqb_spec (k_send (calls s) b) (lenZ b)); cbn; auto.
Qed.

Definition received h (b : bytes) s : Net := match b with [] => s | _ => happen (Received h b) s end.

Lemma sp_recv h cap n Q s :
  (forall b, is_bytes b -> lenZ b <= u64 n -> Q (Done (lenZ b, b)) (received h b (tick s))) ->
  Q (Done (-1, [])) (tick s) -> (cap < u64 n -> Q Stuck (tick s)) ->
  X.sp (sys_recv h cap n) Q s.
Proof.
  intros H1 H2 H3. unfold X.sp, sys_recv, next, X.bind, X.gets, X.modify, X.ret.
  destruct (k_recv (calls s) (u64 n)) as [b|] eqn:E; [|done]. apply k_recv_bytes in E as [E Hb].
  destruct (Z.ltb_spec cap (lenZ b)); [cbn; apply H3; lia|]. specialize (H1 b Hb E). by destruct b.
Qed.

Lemma sp_fail h (Q : Outcome bool -> Net -> Prop) s :
  Q (Done false) (happen (Closed h) (set_opened (filter (fun x => x <> h) (opened s)) s)) -> X.sp (fail h) Q s.
Proof. done. Qed.

(** ** What SOCKS does to a socket *)

(** After talking on [h]: true leaves it open, false closes it - or leaves it open when the proxy
    announced a name and its length could not be read; an overrun needs a length byte above 127. *)
Definition talked h s (o : Outcome bool) s' : Prop :=
  proxyInfo s' = proxyInfo s /\ nameproxyInfo s' = nameproxyInfo s /\
  match o with
  | Done true => opened s' = opened s
  | Done false => opened s' = filter (fun x => x <> h) (opened s) \/
                  opened s' = opened s /\ last (events s') = Some (Received h [5; 0; 0; 3])
  | Stuck => opened s' = opened s /\ exists n, 128 <= n /\ last (events s') = Some (Received h [n])
  | Thrown => False
  end.

Lemma opened_received h b s : opened (received h b s) = opened s /\
  proxyInfo (received h b s) = proxyInfo s /\ nameproxyInfo (received h b s) = nameproxyInfo s.
Proof. by destruct b. Qed.

Lemma lenZ_2 (b : bytes) : lenZ b = 2 -> exists x y, b = [x; y].
Proof. destruct b as [|x [|y [|z b]]]; unfold lenZ; cbn; intros; [lia|lia|by exists x, y|lia]. Qed.
Lemma lenZ_4 (b : bytes) : lenZ b = 4 -> exists x y z t, b = [x; y; z; t].
Proof. destruct b as [|x [|y [|z [|t [|u b]]]]]; unfold lenZ; cbn; intros; try lia. by exists x, y, z, t. Qed.
Lemma lenZ_1 (b : bytes) : lenZ b = 1 -> exists x, b = [x].
Proof. destruct b as [|x [|y b]]; unfold lenZ; cbn; intros; [lia|by exists x|lia]. Qed.

(** The dialogue with a SOCKS 5 proxy that ends in success. *)
Definition request (strDest : bytes) (port : Z) : bytes :=
  [5; 1; 0; 3; lenZ strDest] ++ strDest ++ [Z.land (Z.shiftr port 8) 0xFF; Z.land port 0xFF].
Definition dialogue h (strDest : bytes) (port : Z) (l : list Event) : Prop :=
  exists t bound b,
    l = [Sent h [5; 1; 0]; Received h [5; 0]; Sent h (request strDest port); Received h [5; 0; 0; t]]
        ++ bound ++ [Received h b] /\
    lenZ b = 2 /\ (t = 1 \/ t = 3 \/ t = 4) /\ Forall (fun e => exists d, e = Received h d) bound.

Lemma sp_read_bound t h Q s :
  (t <> 1 -> t <> 3 -> t <> 4 -> Q (Done None) (happen (Closed h) (set_opened (filter (fun x => x <> h) (opened s)) s))) ->
  (t = 3 -> forall s', events s' = events s -> opened s' = opened s -> proxyInfo s' = proxyInfo s ->
     nameproxyInfo s' = nameproxyInfo s -> Q (Done None) s') ->
  (t = 3 -> forall s' n, 128 <= n -> last (events s') = Some (Received h [n]) -> opened s' = opened s -> proxyInfo s' = proxyInfo s ->
     nameproxyInfo s' = nameproxyInfo s -> Q Stuck s') ->
  (t = 1 \/ t = 3 \/ t = 4 -> forall s' bad bound, events s' = events s ++ bound -> Forall (fun e => exists d, e = Received h d) bound ->
     opened s' = opened s -> proxyInfo s' = proxyInfo s -> nameproxyInfo s' = nameproxyInfo s -> Q (Done (Some bad)) s') ->
  X.sp (read_bound t h) Q s.
Proof.
  intros Hclose Hleak Hover Hok.
  assert (Hrec : forall b s0, exists bound, events (received h b s0) = events s0 ++ bound /\ Forall (fun e => exists d, e = Received h d) bound).
  { intros [|x b] s0; cbn; [exists []; by rewrite app_nil_r|]. exists [Received h (x :: b)]. split; [done|]. repeat constructor. by eexists. }
  unfold read_bound. destruct (Z.eqb_spec t 1) as [->|N1]; [|destruct (Z.eqb_spec t 4) as [->|N4]; [|destruct (Z.eqb_spec t 3) as [->|N3]]].
  - apply X.sp_bind, sp_recv; [|apply (Hok ltac:(by left) (tick s) _ []); by rewrite ?app_nil_r|change (u64 4) with 4; lia].
    intros b _ _. destruct (Hrec b (tick s)) as (bd & Ee & Hf). destruct (opened_received h b (tick s)) as (Eo & Ep & En).
    by apply (Hok ltac:(by left) _ _ bd).
  - apply X.sp_bind, sp_recv; [|apply (Hok ltac:(by right; right) (tick s) _ []); by rewrite ?app_nil_r|change (u64 16) with 16; lia].
    intros b _ _. destruct (Hrec b (tick s)) as (bd & Ee & Hf). destruct (opened_received h b (tick s)) as (Eo & Ep & En).
    by apply (Hok ltac:(by right; right) _ _ bd).
  - specialize (Hleak eq_refl). specialize (Hover eq_refl). specialize (Hok ltac:(right; by left)).
    apply X.sp_bind, sp_recv; [|by apply Hleak|change (u64 1) with 1; lia].
    intros b Hby Hl. change (u64 1) with 1 in Hl.
    destruct (Z.eqb_spec (lenZ b) 1) as [E1|E1].
    2:{ destruct b as [|x b]; [by apply Hleak|]. rewrite lenZ_cons in *. pose proof (lenZ_nonneg b). lia. }
    apply lenZ_1 in E1 as [x ->]. apply is_bytes_cons in Hby as [Hx _]. unfold in_u in Hx.
    change (nthZ 0 (lenZ [x], [x]).2 0) with x. cbn [fst snd lenZ length Z.of_nat Z.eqb Pos.eqb Pos.of_succ_nat negb received].
    set (s1 := happen (Received h [x]) (tick s)). apply X.sp_bind, sp_recv.
    + intros b _ _. destruct (Hrec b (tick s1)) as (bd & Ee & Hf). destruct (opened_received h b (tick s1)) as (Eo & Ep & En).
      apply (Hok _ _ (Received h [x] :: bd)); [|by constructor; [by eexists|]|done|done|done].
      change (events (received h b (tick s1)) = events s ++ Received h [x] :: bd). rewrite Ee. subst s1. cbn. by rewrite <-app_assoc.
    + apply (Hok _ _ [Received h [x]]); try done. repeat constructor. by eexists.
    + intros Hn. apply (Hover _ x); try done.
      * unfold of_char, wraps in Hn. destruct (Z.le_gt_cases 128 x); [done|].
        rewrite (Z.mod_small (x + 2 ^ (8 - 1))) in Hn by lia. rewrite wrapu_small in Hn; unfold in_u; lia.
      * subst s1. cbn. apply last_snoc.
  - by apply Hclose.
Qed.

Lemma Socks5_talk strDest port h s :
  X.sp (Socks5 strDest port h) (fun o s' => talked h s o s' /\
    (o = Done true -> lenZ strDest <= 255 /\ exists l, events s' = events s ++ l /\ dialogue h strDest port l)) s.
Proof.
  unfold Socks5.
  assert (Hfail : forall s1, opened s1 = opened s -> proxyInfo s1 = proxyInfo s -> nameproxyInfo s1 = nameproxyInfo s ->
    X.sp (fail h) (fun o s' => talked h s o s' /\
    (o = Done true -> lenZ strDest <= 255 /\ exists l, events s' = events s ++ l /\ dialogue h strDest port l)) s1).
  { intros s1 Eo Ep En. apply sp_fail. split; [|done]. unfold talked. cbn. rewrite Eo, Ep, En. by split_and!; [..|left]. }
  destruct (Z.ltb_spec 255 (lenZ strDest)) as [|Hlen]; [by apply Hfail|].
  apply X.sp_bind, sp_send. intros ret. change (lenZ [5; 1; 0]) with 3. split; [intros ->|intros Hr; rewrite (proj2 (Z.eqb_neq _ _) Hr); by apply Hfail].
  cbn [Z.eqb Pos.eqb negb]. apply X.sp_bind, sp_recv; [|by apply Hfail|change (u64 2) with 2; lia].
  intros b1 _ _. destruct (opened_received h b1 (tick (happen (Sent h [5; 1; 0]) (tick s)))) as (Eo & Ep & En). cbn [fst snd].
  destruct (Z.eqb_spec (lenZ b1) 2) as [E1|]; [|by apply Hfail]. apply lenZ_2 in E1 as (x1 & y1 & ->). cbn [negb].
  destruct (Z.eqb_spec [x1; y1].[0] 5) as [Ex|]; [|by apply Hfail]. destruct (Z.eqb_spec [x1; y1].[1] 0) as [Ey|]; [|by apply Hfail].
  change (x1 = 5) in Ex. change (y1 = 0) in Ey. subst x1 y1. cbn [orb negb received]. clear Eo Ep En.
  replace (u8 (Z.min (lenZ strDest) 255)) with (lenZ strDest)
    by (rewrite Z.min_l by lia; symmetry; apply wrapu_small; unfold in_u; pose proof (lenZ_nonneg strDest); lia).
  fold (request strDest port). apply X.sp_bind, sp_send. intros ret.
  split; [intros ->; rewrite Z.eqb_refl|intros Hr; rewrite (proj2 (Z.eqb_neq _ _) Hr); by apply Hfail].
  cbn [negb]. apply X.sp_bind, sp_recv; [|by apply Hfail|change (u64 4) with 4; lia].
  intros b2 _ _. cbn [fst snd].
  match goal with |- context [received h b2 ?x] => set (s2 := x) end.
  destruct (opened_received h b2 s2) as (Eo & Ep & En).
  destruct (Z.eqb_spec (lenZ b2) 4) as [E2|]; [|by apply Hfail]. apply lenZ_4 in E2 as (x2 & y2 & z2 & t & ->). cbn [negb].
  change ([x2; y2; z2; t].[0]) with x2. change ([x2; y2; z2; t].[1]) with y2. change ([x2; y2; z2; t].[2]) with z2.
  change ([x2; y2; z2; t].[3]) with t.
  destruct (Z.eqb_spec x2 5) as [->|]; [|by apply Hfail]. destruct (Z.eqb_spec y2 0) as [->|]; [|by apply Hfail].
  destruct (Z.eqb_spec z2 0) as [->|]; [|by apply Hfail]. cbn [negb].
  set (s3 := received h [5; 0; 0; t] s2) in *.
  assert (Ev3 : events s3 = events s ++ [Sent h [5; 1; 0]; Received h [5; 0]; Sent h (request strDest port); Received h [5; 0; 0; t]]).
  { subst s3 s2. cbn. by rewrite <-!app_assoc. }
  change (opened s3 = opened s) in Eo. change (proxyInfo s3 = proxyInfo s) in Ep. change (nameproxyInfo s3 = nameproxyInfo s) in En.
  clearbody s3. clear s2.
  apply X.sp_bind, sp_read_bound.
  - intros _ _ _. split; [|done]. unfold talked. cbn. rewrite Eo, Ep, En. by split_and!; [..|left].
  - intros -> s' Ev Eo' Ep' En'. split; [|done]. unfold talked. cbn. rewrite Eo', Ep', En', Eo, Ep, En, Ev, Ev3.
    split_and!; [done|done|right]. split; [done|]. by rewrite last_app.
  - intros -> s' n Hn Hl Eo' Ep' En'. split; [|done]. unfold talked. rewrite Eo', Ep', En', Eo, Ep, En. split_and!; [done..|by exists n].
  - intros Ht s' bad bound Ev Hf Eo' Ep' En'. destruct bad; [apply Hfail; congruence|].
    apply X.sp_bind, sp_recv; [|apply Hfail; cbn; congruence|change (u64 2) with 2; lia].
    intros b4 _ _. destruct (opened_received h b4 (tick s')) as (Eo4 & Ep4 & En4). cbn [fst snd].
    destruct (Z.eqb_spec (lenZ b4) 2) as [E4|]; [|apply Hfail; cbn in *; congruence]. cbn [negb].
    split; [unfold talked; cbn [X.ret fst snd]; cbn in Eo4, Ep4, En4; split_and!; congruence|].
    intros _. split; [done|]. exists ([Sent h [5; 1; 0]; Received h [5; 0]; Sent h (request strDest port); Received h [5; 0; 0; t]] ++ bound ++ [Received h b4]).
    split; [|exists t, bound, b4; split_and!; try done; tauto].
    apply lenZ_2 in E4 as (x4 & y4 & ->). cbn [X.ret snd received happen events tick]. rewrite Ev, Ev3. by rewrite <-!app_assoc.
Qed.

Lemma Socks4_talk dest h s : X.sp (Socks4 dest h) (talked h s) s.
Proof.
  unfold Socks4.
  assert (Hfail : forall s1, opened s1 = opened s -> proxyInfo s1 = proxyInfo s -> nameproxyInfo s1 = nameproxyInfo s ->
    X.sp (fail h) (talked h s) s1).
  { intros s1 Eo Ep En. apply sp_fail. unfold talked. cbn. rewrite Eo, Ep, En. by split_and!; [..|left]. }
  destruct (negb (CNetAddr.IsIPv4 (sv_ip dest))); [by apply Hfail|].
  destruct (GetSockAddr dest) as [[a p|a p]|]; [|by apply Hfail|by apply Hfail].
  apply X.sp_bind, sp_send. intros ret. split; [intros ->; rewrite Z.eqb_refl|intros Hr; rewrite (proj2 (Z.eqb_neq _ _) Hr); by apply Hfail].
  cbn [negb]. apply X.sp_bind, sp_recv; [|by apply Hfail|change (u64 8) with 8; lia].
  intros b _ _. cbn [fst snd]. match goal with |- context [received h b ?x] => destruct (opened_received h b x) as (Eo & Ep & En) end.
  destruct (lenZ b =? 8); [|by apply Hfail]. cbn [negb]. destruct (b.[1] =? 0x5a); [|by apply Hfail].
  by split_and!.
Qed.

(** ** Connecting *)

Definition fresh_socket s (o : Outcome (option Z)) s' : Prop :=
  proxyInfo s' = proxyInfo s /\ nameproxyInfo s' = nameproxyInfo s /\
  match o with
  | Done (Some h) => h ∉ opened s /\ opened s' = h :: opened s
  | Done None => opened s' = opened s
  | _ => False
  end.

Lemma filter_fresh h (l : list Z) : h ∉ l -> filter (fun x => x <> h) (h :: l) = l.
Proof.
  intros Hh. rewrite filter_cons_False by (intros Hn; by apply Hn).
  induction l as [|x l IH]; [done|]. rewrite filter_cons_True by (intros ->; apply Hh; left). rewrite IH; [done|set_solver].
Qed.

Lemma ConnectSocketDirectly_fresh a t s :
  X.sp (ConnectSocketDirectly a t) (fun o s' => fresh_socket s o s' /\
    forall h, o = Done (Some h) -> exists sa, GetSockAddr a = Some sa /\ events s' = events s ++ [Opened h; Connected h sa]) s.
Proof.
  unfold ConnectSocketDirectly. destruct (GetSockAddr a) as [sa|]; [|by split].
  unfold X.sp, sys_socket, next, X.bind, X.gets, X.modify, X.ret. cbn [fst snd].
  destruct (k_socket (calls s) (opened (tick s))) as [h|] eqn:Eh; [|by split]. apply k_socket_fresh in Eh.
  change (opened (tick s)) with (opened s) in *. pose proof (filter_fresh h (opened s) Eh) as Hf.
  assert (Hfail : forall s1 : Net, opened s1 = h :: opened s -> proxyInfo s1 = proxyInfo s -> nameproxyInfo s1 = nameproxyInfo s ->
    fresh_socket s (Done None) (happen (Closed h) (set_opened (filter (fun x => x <> h) (opened s1)) s1))).
  { intros s1 Eo Ep En. unfold fresh_socket. cbn. rewrite Eo, Hf. done. }
  cbn. destruct (k_fcntl _); cbn; [|split; [by apply Hfail|done]].
  assert (Hdone : forall n (s1 : Net), events s1 = events s ++ [Opened h] -> opened s1 = h :: opened s -> proxyInfo s1 = proxyInfo s -> nameproxyInfo s1 = nameproxyInfo s ->
    let r := (if negb (k_fcntl n) then fail_ret h else fun s1 => (Done (Some h), happen (Connected h sa) s1)) (tick s1) in
    fresh_socket s r.1 r.2 /\ forall h', r.1 = Done (Some h') -> exists sa', Some sa = Some sa' /\ events r.2 = events s ++ [Opened h'; Connected h' sa']).
  { intros n s1 Ev Eo Ep En. destruct (k_fcntl n); cbn; [|split; [by apply (Hfail (tick s1))|done]].
    split; [by unfold fresh_socket; cbn|]. intros h' [= <-]. exists sa. by rewrite Ev, <-app_assoc. }
  destruct (k_connect _); cbn.
  - by apply Hdone.
  - destruct (k_select _ t); cbn; [|split; [by apply Hfail|done]|split; [by apply Hfail|done]].
    destruct (k_sockopt _) as [[|p|p]|]; cbn; [by apply Hdone|split; [by apply Hfail|done]..].
  - split; [by apply Hfail|done].
Qed.

(** What the setters allow. *)
Definition versions_ok s : Prop :=
  (forall n, (proxyInfo s n).2 = 0 \/ (proxyInfo s n).2 = 4 \/ (proxyInfo s n).2 = 5) /\
  ((nameproxyInfo s).2 = 0 \/ (nameproxyInfo s).2 = 5).

Lemma SetProxy_versions net a v s : versions_ok s -> versions_ok (SetProxy net a v s).2.
Proof.
  intros [Hp Hn]. unfold SetProxy. destruct (Z.eqb_spec v 0), (Z.eqb_spec v 4), (Z.eqb_spec v 5); cbn [negb andb]; try (by split);
    try destruct (CNetAddr.IsValid (sv_ip a)); cbn [negb]; try (by split).
  all: split; [|done]; intros net'; cbn; case_bool_decide; [cbn; lia|apply Hp].
Qed.
Lemma SetNameProxy_versions a v s : versions_ok s -> versions_ok (SetNameProxy a v s).2.
Proof.
  intros [Hp Hn]. unfold SetNameProxy. destruct (Z.eqb_spec v 0), (Z.eqb_spec v 5); cbn [negb andb]; try (by split);
    try destruct (CNetAddr.IsValid (sv_ip a)); cbn [negb]; try (by split).
  all: split; [done|]; cbn; lia.
Qed.

(** No socket is lost: a result of true is a socket that was not open before and is the only new one; after
    false no new socket is open but in one case; an overrun needs a length byte above 127. *)
Definition no_socket_lost s (o : Outcome (option Z)) s' : Prop :=
  match o with
  | Done (Some h) => h ∉ opened s /\ opened s' = h :: opened s
  | Done None => opened s' = opened s \/
      exists h, h ∉ opened s /\ opened s' = h :: opened s /\ last (events s') = Some (Received h [5; 0; 0; 3])
  | Stuck => exists h n, 128 <= n /\ last (events s') = Some (Received h [n])
  | Thrown => False
  end.

(** The two ways through a proxy: [R] is what holds when the dialogue on the socket ends well. *)
Lemma through_proxy (m : Z -> X Net bool) (R : Z -> Net -> Net -> Prop) a t s :
  (forall h s1, X.sp (m h) (fun o s' => talked h s1 o s' /\ (o = Done true -> R h s1 s')) s1) ->
  X.sp (sock <~ ConnectSocketDirectly a t ;;
        match sock with
        | None => X.ret None
        | Some h => ok <~ m h ;; X.ret (if ok : bool then Some h else None)
        end)
    (fun o s' => no_socket_lost s o s' /\ forall h, o = Done (Some h) ->
       exists sa s1, GetSockAddr a = Some sa /\ events s1 = events s ++ [Opened h; Connected h sa] /\ R h s1 s') s.
Proof.
  intros Hm. apply X.sp_bind. eapply X.sp_mono; [apply ConnectSocketDirectly_fresh|].
  intros o s1 [(Ep & En & Ho) Hev]. destruct o as [[h|]| |]; [|by split; [left|]|done|done].
  destruct Ho as [Hfresh Ho]. destruct (Hev h eq_refl) as (sa & Esa & Ev). pose proof (filter_fresh h (opened s) Hfresh) as Hf.
  apply X.sp_bind. eapply X.sp_mono; [apply Hm|]. intros o s2 [(_ & _ & Ht) Hl]. destruct o as [[|]| |].
  - split; [split; [done|]; cbn; congruence|]. intros h' [= <-]. exists sa, s1. by auto.
  - split; [|done]. cbn. destruct Ht as [Ht|[Ht Hlast]]; [left; by rewrite Ht, Ho|right]. exists h. by rewrite Ht, Ho.
  - by split.
  - destruct Ht as [_ (n & Hn & Hlast)]. split; [|done]. by exists h, n.
Qed.

Lemma direct_not_lost a t s : X.sp (ConnectSocketDirectly a t) (no_socket_lost s) s.
Proof.
  eapply X.sp_mono; [apply ConnectSocketDirectly_fresh|]. intros o s' [(_ & _ & Ho) _].
  destruct o as [[h|]| |]; [done|by left|done|done].
Qed.

Definition dialogued (strDest : bytes) (port h : Z) s1 s' : Prop :=
  lenZ strDest <= 255 /\ exists l, events s' = events s1 ++ l /\ dialogue h strDest port l.

Lemma ConnectSocket_run dest t s :
  versions_ok s ->
  X.sp (ConnectSocket dest t) (fun o s' => no_socket_lost s o s' /\ forall h server, o = Done (Some h) ->
      GetProxy (CNetAddr.GetNetwork (sv_ip dest)) s = Some (server, 5) ->
      exists sa s1, GetSockAddr server = Some sa /\ events s1 = events s ++ [Opened h; Connected h sa] /\
        dialogued (ToStringIP (sv_ip dest)) (port dest) h s1 s') s.
Proof.
  intros [Hv _]. unfold ConnectSocket. apply X.sp_bind. unfold X.sp at 1, X.gets. cbn [fst snd].
  destruct (GetProxy _ s) as [[server version]|] eqn:Eg.
  2:{ eapply X.sp_mono; [apply direct_not_lost|]. by split. }
  unfold GetProxy in Eg. destruct (Z.eqb_spec (proxyInfo s (CNetAddr.GetNetwork (sv_ip dest))).2 0) as [|Hne]; [done|].
  injection Eg as Eg. specialize (Hv (CNetAddr.GetNetwork (sv_ip dest))). rewrite Eg in Hv, Hne. cbn in Hv, Hne.
  destruct Hv as [?|[->| ->]]; [done| |]; cbn [Z.eqb Pos.eqb].
  - eapply X.sp_mono; [apply (through_proxy (Socks4 dest) (fun _ _ _ => True)); intros h s1; eapply X.sp_mono; [apply Socks4_talk|done]|].
    intros o s' [Hl _]. by split.
  - eapply X.sp_mono; [apply (through_proxy (Socks5 (ToStringIP (sv_ip dest)) (port dest)) (dialogued (ToStringIP (sv_ip dest)) (port dest)));
      intros h s1; apply Socks5_talk|].
    intros o s' [Hl Hd]. split; [done|]. intros h server' -> [= <-]. by apply Hd.
Qed.

(** C22 Whatever the system and the proxies answer: when [ConnectSocket] or [ConnectSocketByName] succeeds, its
    socket was not open before and is the only new one; when it fails, no new socket is open -
    except that a SOCKS 5 proxy that announces a name as bound address and does not send its
    length leaves the socket open.  The reply overruns its array only after a length byte above 127. *)
Theorem Connect_sockets dest name_lookup pszDest portDefault t s :
  versions_ok s ->
  X.sp (ConnectSocket dest t) (no_socket_lost s) s /\
  X.sp (r <~ ConnectSocketByName name_lookup pszDest portDefault t ;; X.ret r.1) (no_socket_lost s) s.
Proof.
  intros Hv. assert (Hc : forall dest, X.sp (ConnectSocket dest t) (no_socket_lost s) s).
  { intros d. eapply X.sp_mono; [by apply ConnectSocket_run|]. by intros o s' [? _]. }
  split; [done|]. apply X.sp_bind. unfold ConnectSocketByName. destruct (SplitHostPort pszDest portDefault) as [p strDest].
  apply X.sp_bind. unfold X.sp at 1, X.gets. cbn [fst snd].
  destruct (CNetAddr.IsValid _).
  - apply X.sp_bind. eapply X.sp_mono; [apply Hc|]. by intros [a| |] s'.
  - destruct (GetNameProxy s) as [[server version]|] eqn:Eg; [|by left].
    assert (version = 5) as ->.
    { unfold GetNameProxy in Eg. destruct (Z.eqb_spec (nameproxyInfo s).2 0); [done|]. injection Eg as Eg.
      destruct Hv as [_ Hn]. rewrite Eg in *. cbn in *. lia. }
    pose proof (through_proxy (Socks5 strDest p) (dialogued strDest p) server t s (fun h s1 => Socks5_talk strDest p h s1)) as K.
    revert K. unfold X.sp, X.bind, X.ret. cbn [Z.eqb Pos.eqb].
    destruct (ConnectSocketDirectly server t s) as [[[h|]| |] s1]; cbn; try (by intros [? _]).
    destruct (Socks5 strDest p h s1) as [[[|]| |] s2]; cbn; by intros [? _].
Qed.

(** When [ConnectSocket] succeeds through a SOCKS 5 proxy, the new socket was connected to the proxy,
    not to the destination, and exactly this was said on it: the greeting and its acceptance without
    authentication, the request with the text of the destination and its port, and a positive reply with a bound address
    and port. *)
Theorem ConnectSocket_socks5 dest t s server h s' :
  versions_ok s -> GetProxy (CNetAddr.GetNetwork (sv_ip dest)) s = Some (server, 5) ->
  ConnectSocket dest t s = (Done (Some h), s') ->
  exists sa l, GetSockAddr server = Some sa /\ lenZ (ToStringIP (sv_ip dest)) <= 255 /\
    events s' = events s ++ [Opened h; Connected h sa] ++ l /\ dialogue h (ToStringIP (sv_ip dest)) (port dest) l.
Proof.
  intros Hv Hp Hr. pose proof (ConnectSocket_run dest t s Hv) as [_ K]. rewrite Hr in K. cbn [fst snd] in K.
  destruct (K h server eq_refl Hp) as (sa & s1 & Esa & Ev & Hl & l & El & Hd). exists sa, l. split_and!; [done|done| |done].
  by rewrite El, Ev, <-app_assoc.
Qed.

End Net.

(** * Concrete runs *)

Module SocksExamples.

#[local] Instance resolver : Resolver := LookupExamples.resolver.

(** A kernel whose calls succeed; what arrives is a script by the numbers of the calls. *)
Definition script (replies : list (nat * bytes)) (i : nat) (n : Z) : option bytes :=
  match list_find (fun p => p.1 = i) replies with
  | Some (_, (_, b)) => Some (take (Z.to_nat n) b)
  | None => None
  end.

Definition kernel (replies : list (nat * bytes)) (Hb : Forall (fun p => is_bytes p.2) replies) : Kernel.
Proof.
  refine {| k_socket _ l := if bool_decide (7 ∈ l) then None else Some 7; k_fcntl _ := true; k_connect _ := CR_pending;
    k_select _ _ := SR_ready; k_sockopt _ := Some 0; k_send _ b := lenZ b;
    k_recv i n := if n <? 0 then None else script replies i n |}.
  - intros i l h. case_bool_decide; [done|]. by intros [= <-].
  - intros i n b. destruct (Z.ltb_spec n 0); [done|]. unfold script.
    destruct (list_find _ replies) as [[j [k c]]|] eqn:E; [|done]. intros [= <-].
    apply list_find_Some in E as (E & _ & _). rewrite Forall_forall in Hb.
    split; [unfold lenZ; rewrite length_take; lia|].
    apply list_elem_of_lookup_2 in E. apply Hb in E. cbn in E. unfold is_bytes in *. by apply Forall_take.
Defined.

Definition proxy : CService := mkService (CNetAddr.of_in_addr [127; 0; 0; 1]) 9050.
Definition dest : CService := mkService LookupExamples.v6 8333.
Definition proxied : Net := mkNet 0 [] [] (fun _ => (proxy, 5)) no_proxy.

Lemma proxied_ok : versions_ok proxied.
Proof. split; [intros n; cbn; tauto|cbn; tauto]. Qed.

(** A proxy that accepts and is bound to an IPv4 address. *)
Definition good : list (nat * bytes) := [(7%nat, [5; 0]); (9%nat, [5; 0; 0; 1]); (10%nat, [10; 0; 0; 1]); (11%nat, [31; 64])].
Definition good_kernel : Kernel := kernel good ltac:(apply (bool_decide_unpack _); by vm_compute).

Lemma ConnectSocket_socks5_witness : exists s',
  @ConnectSocket _ good_kernel dest 5000 proxied = (Done (Some 7), s') /\
  exists sa l, GetSockAddr proxy = Some sa /\ events s' = [Opened 7; Connected 7 sa] ++ l /\ dialogue 7 (ToStringIP (sv_ip dest)) 8333 l.
Proof.
  destruct (@ConnectSocket _ good_kernel dest 5000 proxied) as [o s'] eqn:E.
  assert (Eo : o = Done (Some 7)) by (apply (f_equal fst) in E; vm_compute in E; by subst). subst o.
  exists s'. split; [done|].
  destruct (@ConnectSocket_socks5 _ good_kernel dest 5000 proxied proxy 7 s' proxied_ok eq_refl E) as (sa & l & Hs & _ & He & Hd).
  by exists sa, l.
Defined.

Lemma Connect_sockets_witness :
  X.sp (@ConnectSocket _ good_kernel dest 5000) (no_socket_lost proxied) proxied /\ opened proxied = [].
Proof. destruct (@Connect_sockets _ good_kernel dest false [] 0 5000 proxied proxied_ok) as [K _]. exact (conj K eq_refl). Defined.

(** A proxy that hangs up before the length of the name it announced: the socket stays open. *)
Definition mute : list (nat * bytes) := [(7%nat, [5; 0]); (9%nat, [5; 0; 0; 3])].
Definition mute_kernel : Kernel := kernel mute ltac:(apply (bool_decide_unpack _); by vm_compute).
Example leak : (fun r => (r.1, opened r.2)) (@ConnectSocket _ mute_kernel dest 5000 proxied) = (Done None, [7]).
Proof. by vm_compute. Qed.

(** A length byte of 200 is a negative [char]: [recv] is called with almost 2^64 bytes for an array of 256. *)
Definition long : list (nat * bytes) :=
  [(7%nat, [5; 0]); (9%nat, [5; 0; 0; 3]); (10%nat, [200]); (11%nat, replicate 300 65)].
Definition long_kernel : Kernel := kernel long ltac:(apply (bool_decide_unpack _); by vm_compute).
Example overrun : (@ConnectSocket _ long_kernel dest 5000 proxied).1 = Stuck.
Proof.
  assert (E : match @ConnectSocket _ long_kernel dest 5000 proxied with (Stuck, _) => true | _ => false end = true);
    [|by destruct (ConnectSocket _ _ _) as [[]]].
  unfold ConnectSocket. cbn. done.
Qed.

End SocksExamples.
