(* ===== verification/Double.v ===== *)
(** [double]: IEEE binary64 with round to nearest, as the [spec_float]s of the standard library. *)

From Stdlib Require Export Floats.SpecFloat.
From S2P Require Import Prelude.

Abbreviation double := spec_float.

(** The conversion of an integer. *)
Definition double_of (n : Z) : double := binary_normalize 53 1024 n 0 false.

Definition dadd : double -> double -> double := SFadd 53 1024.
Definition dmul : double -> double -> double := SFmul 53 1024.
Definition ddiv : double -> double -> double := SFdiv 53 1024.

(** The conversion to an integer type with the bounds [lo] and [hi] cuts the fraction; [None] when the value does not
    fit, which C++ leaves undefined. *)
Definition int_of_double (lo hi : Z) (d : double) : option Z :=
  match d with
  | S754_zero _ => Some 0
  | S754_finite s m e =>
    let n := if 0 <=? e then Z.pos m * 2 ^ e else Z.pos m / 2 ^ (- e) in
    let n := if s : bool then - n else n in
    if (lo <=? n) && (n <=? hi) then Some n else None
  | _ => None
  end.

Definition uint_of_double : double -> option Z := int_of_double 0 (2 ^ 32 - 1).
