(* ===== verification/Json.v ===== *)
(** JSON values and their texts (src/json/json_spirit_value.h, json_spirit_utils.h, json_spirit_writer_template.h, and
    the escapes of json_spirit_reader_template.h).

    The grammar of the reader is Boost.Spirit's and is a parameter of the
    files that read JSON; [substitute_esc_chars], which its strings go through, is here.  [iswprint] is the one of the
    "C" locale.  A member that throws [std::runtime_error] gives its text in [inr]. *)

From S2P Require Import Prelude Double Digits Util UtilThms.

Inductive Value_type := obj_type | array_type | str_type | bool_type | int_type | real_type | null_type.

#[global] Instance Value_type_eq_dec : EqDecision Value_type.
Proof. solve_decision. Defined.

Definition Value_type_name (t : Value_type) : bytes :=
  match t with
  | obj_type => lit "obj" | array_type => lit "array" | str_type => lit "str" | bool_type => lit "bool"
  | int_type => lit "int" | real_type => lit "real" | null_type => lit "null"
  end.

(** [v_] and [is_uint64_]: an integer is kept as an [int64]. *)
Inductive Value :=
  | VObj (o : list (bytes * Value))
  | VArr (a : list Value)
  | VStr (s : bytes)
  | VBool (b : bool)
  | VInt (n : Z) (is_uint64 : bool)
  | VReal (d : double)
  | VNull.

Abbreviation Object := (list (bytes * Value)).
Abbreviation Array := (list Value).

Definition type (v : Value) : Value_type :=
  match v with
  | VObj _ => obj_type | VArr _ => array_type | VStr _ => str_type | VBool _ => bool_type
  | VInt _ _ => int_type | VReal _ => real_type | VNull => null_type
  end.

Definition check_type (v : Value) (t : Value_type) : option bytes :=
  if decide (type v = t) then None
  else Some (lit "value is type " ++ Value_type_name (type v) ++ lit ", expected " ++ Value_type_name t).

Definition checked {A} (v : Value) (t : Value_type) (a : A) : A + bytes :=
  match check_type v t with None => inl a | Some e => inr e end.

Definition get_str (v : Value) : bytes + bytes := checked v str_type (match v with VStr s => s | _ => [] end).
Definition get_obj (v : Value) : Object + bytes := checked v obj_type (match v with VObj o => o | _ => [] end).
Definition get_array (v : Value) : Array + bytes := checked v array_type (match v with VArr a => a | _ => [] end).
Definition get_bool (v : Value) : bool + bytes := checked v bool_type (match v with VBool b => b | _ => false end).
Definition get_int64 (v : Value) : Z + bytes := checked v int_type (match v with VInt n _ => n | _ => 0 end).
Definition get_int (v : Value) : Z + bytes :=
  match get_int64 v with inl n => inl (s32 n) | inr e => inr e end.
Definition get_uint64 (v : Value) : Z + bytes :=
  match get_int64 v with inl n => inl (u64 n) | inr e => inr e end.

Definition get_real (v : Value) : double + bytes :=
  match v with
  | VInt n u => inl (double_of (if u then u64 n else n))
  | _ => checked v real_type (match v with VReal d => d | _ => S754_zero false end)
  end.

(** The first pair with the name; [Value::null] when there is none. *)
Fixpoint find_value (obj : Object) (name : bytes) : Value :=
  match obj with
  | [] => VNull
  | (n, v) :: r => if bool_decide (n = name) then v else find_value r name
  end.

(** ** Writing *)

Definition to_hex_char (c : Z) : Z := if c <? 10 then 48 + c else 55 + c.

Definition non_printable_to_string (c : Z) : bytes :=
  [92; 117; to_hex_char (Z.land (Z.shiftr c 12) 15); to_hex_char (Z.land (Z.shiftr c 8) 15);
   to_hex_char (Z.land (Z.shiftr c 4) 15); to_hex_char (Z.land c 15)].

Definition add_esc_char (c : Z) : option bytes :=
  if c =? 34 then Some [92; 34]
  else if c =? 92 then Some [92; 92]
  else if c =? 8 then Some [92; 98]
  else if c =? 12 then Some [92; 102]
  else if c =? 10 then Some [92; 110]
  else if c =? 13 then Some [92; 114]
  else if c =? 9 then Some [92; 116]
  else None.

Definition iswprint (c : Z) : bool := (32 <=? c) && (c <? 127).

Definition esc_char (c : Z) : bytes :=
  match add_esc_char c with
  | Some e => e
  | None => if iswprint c then [c] else non_printable_to_string c
  end.
Definition add_esc_chars (s : bytes) : bytes := mjoin (esc_char <$> s).

(** [std::fixed], [setprecision(8)]: the value exactly, rounded to eight places, half to even. *)
Definition round_even (num den : Z) : Z :=
  let q := num / den in
  let r := num mod den in
  match Z.compare (2 * r) den with
  | Lt => q | Gt => q + 1 | Eq => if Z.even q then q else q + 1
  end.
Definition fixed8 (m : positive) (e : Z) : Z :=
  let n := Z.pos m * 10 ^ 8 in
  if 0 <=? e then n * 2 ^ e else round_even n (2 ^ (- e)).
Definition show_units (neg : bool) (n : Z) : bytes :=
  (if neg then [45] else []) ++ ((fun d => 48 + d) <$> drop_zeros (be_digits 10 320 (n / 10 ^ 8)))
  ++ [46] ++ decimal8 (n mod 10 ^ 8).
Definition show_real (d : double) : bytes :=
  match d with
  | S754_zero s => show_units s 0
  | S754_infinity s => (if s : bool then [45] else []) ++ lit "inf"
  | S754_nan => lit "nan"
  | S754_finite s m e => show_units s (fixed8 m e)
  end.

Definition show_int (n : Z) : bytes := if n <? 0 then 45 :: decimal (- n) else decimal n.

(** The class [Generator]. *)
Section Generator.
Context (pretty : bool).

Definition indent (level : nat) : bytes := if pretty then repeat 32 (4 * level) else [].
Definition space : bytes := if pretty then [32] else [].
Definition new_line : bytes := if pretty then [10] else [].

(** [next != end]: a comma behind each element but the last. *)
Fixpoint output_elements (level : nat) (texts : list bytes) : bytes :=
  match texts with
  | [] => []
  | [t] => indent level ++ t ++ new_line
  | t :: r => indent level ++ t ++ [44] ++ new_line ++ output_elements level r
  end.
Definition output_array_or_obj (level : nat) (texts : list bytes) (start_char end_char : Z) : bytes :=
  [start_char] ++ new_line ++ output_elements (S level) texts ++ indent level ++ [end_char].

Definition output_str (s : bytes) : bytes := [34] ++ add_esc_chars s ++ [34].

Fixpoint output (level : nat) (v : Value) : bytes :=
  match v with
  | VObj o => output_array_or_obj level
                (map (fun p => output_str p.1 ++ space ++ [58] ++ space ++ output (S level) p.2) o) 123 125
  | VArr a => output_array_or_obj level (map (output (S level)) a) 91 93
  | VStr s => output_str s
  | VBool b => if b then lit "true" else lit "false"
  | VInt n is_uint64 => show_int (if is_uint64 then u64 n else n)
  | VReal d => show_real d
  | VNull => lit "null"
  end.
End Generator.

Definition write_string (v : Value) (pretty : bool) : bytes := output pretty 0 v.

(** ** The escapes of the reader *)

Definition hex_to_num (c : Z) : Z :=
  if (48 <=? c) && (c <=? 57) then c - 48
  else if (97 <=? c) && (c <=? 102) then c - 97 + 10
  else if (65 <=? c) && (c <=? 70) then c - 65 + 10
  else 0.

(** The result is cut to a [char]. *)
Definition hex_str_to_char (c1 c2 : Z) : Z := u8 (Z.shiftl (hex_to_num c1) 4 + hex_to_num c2).
Definition unicode_str_to_char (c1 c2 c3 c4 : Z) : Z :=
  u8 (Z.shiftl (hex_to_num c1) 12 + Z.shiftl (hex_to_num c2) 8 + Z.shiftl (hex_to_num c3) 4 + hex_to_num c4).

(** What [append_esc_char_and_incr_iter] appends for a character other than x and u. *)
Definition simple_esc (c : Z) : bytes :=
  if c =? 116 then [9] else if c =? 98 then [8] else if c =? 102 then [12] else if c =? 110 then [10]
  else if c =? 114 then [13] else if c =? 92 then [92] else if c =? 47 then [47] else if c =? 34 then [34] else [].

(** A backslash at the very end is kept. *)
Fixpoint substitute_esc_chars (s : bytes) : bytes :=
  match s with
  | [] => []
  | c :: r' =>
    if c =? 92 then
      match r' with
      | [] => [c]
      | c2 :: r =>
        if c2 =? 120 then
          match r with
          | h1 :: h2 :: rest => hex_str_to_char h1 h2 :: substitute_esc_chars rest
          | _ => substitute_esc_chars r
          end
        else if c2 =? 117 then
          match r with
          | h1 :: h2 :: h3 :: h4 :: rest => unicode_str_to_char h1 h2 h3 h4 :: substitute_esc_chars rest
          | _ => substitute_esc_chars r
          end
        else simple_esc c2 ++ substitute_esc_chars r
      end
    else c :: substitute_esc_chars r'
  end.

(** ** The escapes are undone *)

Lemma unicode_of_non_printable c :
  in_u 8 c ->
  unicode_str_to_char (to_hex_char (Z.land (Z.shiftr c 12) 15)) (to_hex_char (Z.land (Z.shiftr c 8) 15))
    (to_hex_char (Z.land (Z.shiftr c 4) 15)) (to_hex_char (Z.land c 15)) = c.
Proof.
  intros Hc. apply Z.eqb_eq. revert c Hc. apply byte_forallb. by vm_compute.
Qed.

Lemma substitute_esc_char c t : in_u 8 c -> substitute_esc_chars (esc_char c ++ t) = c :: substitute_esc_chars t.
Proof.
  intros Hc. unfold esc_char.
  destruct (add_esc_char c) as [e|] eqn:E.
  - unfold add_esc_char in E.
    repeat (let H := fresh "H" in
      match type of E with (if ?b then _ else _) = _ => destruct b eqn:H end;
      [apply Z.eqb_eq in H; subst c; injection E as <-; reflexivity|clear H]). done.
  - destruct (iswprint c).
    + cbn [app substitute_esc_chars]. destruct (Z.eqb_spec c 92) as [->|]; done.
    + cbn [app non_printable_to_string substitute_esc_chars]. cbn [Z.eqb Pos.eqb]. by rewrite unicode_of_non_printable.
Qed.

(** What the writer escapes in a text, the reader gives back: every text of bytes survives. *)
Theorem escape_roundtrip s : is_bytes s -> substitute_esc_chars (add_esc_chars s) = s.
Proof.
  induction 1 as [|c s Hc Hs IH]; [done|]. unfold add_esc_chars in *. cbn [fmap list_fmap mjoin list_join].
  rewrite substitute_esc_char by done. f_equal. exact IH.
Qed.

(** ** Texts without line breaks are printable *)

Definition printable (s : bytes) : Prop := Forall (fun c => iswprint c = true) s.

Lemma Value_nested_ind (P : Value -> Prop) :
  (forall o, Forall (fun p => P p.2) o -> P (VObj o)) -> (forall a, Forall P a -> P (VArr a)) ->
  (forall s, P (VStr s)) -> (forall b, P (VBool b)) -> (forall n u, P (VInt n u)) -> (forall d, P (VReal d)) ->
  P VNull -> forall v, P v.
Proof.
  intros HO HA HS HB HI HR HN. fix IH 1. intros [o|a|s|b|n u|d|]; [| |apply HS|apply HB|apply HI|apply HR|apply HN].
  - apply HO. induction o as [|[n v] o IHo]; constructor; [apply IH|exact IHo].
  - apply HA. induction a as [|v a IHa]; constructor; [apply IH|exact IHa].
Qed.

Lemma printable_app s t : printable s -> printable t -> printable (s ++ t).
Proof. apply Forall_app_2. Qed.
Lemma printable_lit s : forallb iswprint s = true -> printable s.
Proof. intros H. rewrite forallb_forall in H. apply Forall_forall. intros c Hc. apply H. by apply list_elem_of_In. Qed.

Lemma printable_esc s : is_bytes s -> printable (add_esc_chars s).
Proof.
  intros Hs. unfold add_esc_chars. induction Hs as [|c s Hc Hs IH]; [constructor|].
  apply printable_app; [|exact IH]. apply printable_lit. revert c Hc. apply byte_forallb. by vm_compute.
Qed.

Lemma printable_digits ds : digits_ok 10 ds -> printable ((fun d => 48 + d) <$> ds).
Proof.
  induction 1 as [|d ds Hd Hds IH]; constructor; [|exact IH]. unfold iswprint. apply andb_true_iff. split; lia.
Qed.

Lemma be_digits_ok10 k n : digits_ok 10 (be_digits 10 k n).
Proof. unfold be_digits, digits_ok. apply Forall_rev. by apply le_digits_ok. Qed.

Lemma printable_units neg n : printable (show_units neg n).
Proof.
  repeat apply printable_app; try (by apply printable_lit); [by destruct neg; apply printable_lit| |];
    apply printable_digits; [apply drop_zeros_ok|]; apply be_digits_ok10.
Qed.
Lemma printable_int n : printable (show_int n).
Proof.
  unfold show_int. destruct (n <? 0); [constructor; [done|]|]; apply printable_digits, drop_zeros_ok, be_digits_ok10.
Qed.

(** Every text and every name in the value is made of bytes. *)
Fixpoint byte_texts (v : Value) : Prop :=
  match v with
  | VObj o => fold_right and True (map (fun p => is_bytes p.1 /\ byte_texts p.2) o)
  | VArr a => fold_right and True (map byte_texts a)
  | VStr s => is_bytes s
  | _ => True
  end.

Lemma printable_elements level texts : Forall printable texts -> printable (output_elements false level texts).
Proof.
  induction 1 as [|t r Ht Hr IH]; [constructor|]. cbn [output_elements]. destruct r as [|t' r].
  - repeat apply printable_app; by first [done|apply printable_lit].
  - repeat apply printable_app; try (by apply printable_lit); [done|exact IH].
Qed.

Lemma write_string_printable v : byte_texts v -> printable (write_string v false).
Proof.
  unfold write_string. generalize 0%nat. induction v as [o IH|a IH|s|b|n u|d|] using Value_nested_ind; intros level Hv.
  - unfold output, output_array_or_obj. fold output. repeat apply printable_app; try (by apply printable_lit).
    apply printable_elements. induction IH as [|p o Hp Ho IHo]; constructor.
    + destruct Hv as [[Hn Hv] _]. unfold output_str. repeat apply printable_app; try (by apply printable_lit).
      * by apply printable_esc.
      * by apply Hp.
    + apply IHo. by destruct Hv.
  - unfold output, output_array_or_obj. fold output. repeat apply printable_app; try (by apply printable_lit).
    apply printable_elements. induction IH as [|p o Hp Ho IHo]; constructor.
    + destruct Hv as [Hv _]. by apply Hp.
    + apply IHo. by destruct Hv.
  - unfold output, output_str. repeat apply printable_app; try (by apply printable_lit). by apply printable_esc.
  - destruct b; by apply printable_lit.
  - apply printable_int.
  - destruct d; [apply printable_units|destruct s; by apply printable_lit|by apply printable_lit|apply printable_units].
  - by apply printable_lit.
Qed.
