(* ===== verification/Http.v ===== *)
(** The HTTP of the RPC server and client (src/bitcoinrpc.cpp): [HTTPPost], [HTTPReply], [ReadHTTPRequestLine],
    [ReadHTTPStatus], [ReadHTTPHeaders], [ReadHTTPMessage], [HTTPAuthorized] and [ClientAllowed].

    A stream holds the bytes still to be read and whether it is good: a read past its end makes it bad, and a
    bad stream neither reads nor writes.
    Parameters (class [HttpWorld]): the version of the program, the texts of the time, and MAX_SIZE of
    serialize.h.  [atoi], [strstr], [getline], [boost::split] and [boost::trim] are defined here. *)

From S2P Require Import Prelude Codec Util Lookup.

Class HttpWorld := {
  FormatFullVersion : bytes;
  rfc1123Time : bytes;
  MAX_SIZE : Z;
  MAX_SIZE_int : 0 < MAX_SIZE < 2 ^ 31;
  FormatFullVersion_line : 10 ∉ FormatFullVersion;
  rfc1123Time_line : 10 ∉ rfc1123Time;
}.

Definition HTTP_OK : Z := 200.
Definition HTTP_BAD_REQUEST : Z := 400.
Definition HTTP_UNAUTHORIZED : Z := 401.
Definition HTTP_FORBIDDEN : Z := 403.
Definition HTTP_NOT_FOUND : Z := 404.
Definition HTTP_INTERNAL_SERVER_ERROR : Z := 500.

(** ** Texts *)

Definition crlf : bytes := [13; 10].

Record Stream := mkStream { buf : bytes; good : bool }.
Abbreviation opened s := (mkStream s true).

(** The text up to a line feed and what is behind it; [None] when there is no line feed. *)
Fixpoint line_end (s : bytes) : bytes * option bytes :=
  match s with
  | [] => ([], None)
  | c :: r => if c =? 10 then ([], Some r) else let '(line, rest) := line_end r in (c :: line, rest)
  end.

(** [std::getline]. *)
Definition getline (s : Stream) : bytes * Stream :=
  if good s then
    match line_end (buf s) with (line, Some rest) => (line, opened rest) | (line, None) => (line, mkStream [] false) end
  else ([], s).

(** [stream.read(&vch[0], n)] into zeros. *)
Definition read (s : Stream) (n : nat) : bytes * Stream :=
  if good s then
    (take n (buf s) ++ replicate (n - length (buf s)) 0,
     if decide (n <= length (buf s))%nat then opened (drop n (buf s)) else mkStream [] false)
  else (replicate n 0, s).

(** [stream << text << std::flush]. *)
Definition written (s : Stream) (text : bytes) : bytes := if good s then text else [].

Definition trim (s : bytes) : bytes := rev (skip_space (rev (skip_space s))).

Definition atoi (s : bytes) : Z := s32 (fst (strtol10 (c_str s))).

(** [strstr]: the text from the first place where [pat] begins. *)
Fixpoint strstr (s pat : bytes) : option bytes :=
  if bool_decide (take (length pat) s = pat) then Some s
  else match s with [] => None | _ :: r => strstr r pat end.

(** The number behind "HTTP/1.", 0 when there is none. *)
Definition http_version (s : bytes) : Z :=
  match strstr (c_str s) (lit "HTTP/1.") with Some ver => atoi (drop 7 ver) | None => 0 end.

(** [find] of one character: what is before it and behind it. *)
Fixpoint cut (c : Z) (s : bytes) : option (bytes * bytes) :=
  match s with
  | [] => None
  | x :: r => if x =? c then Some ([], r) else '(a, b) ← cut c r; Some (x :: a, b)
  end.

Abbreviation Headers := (gmap bytes bytes).

Section Http.
Context `{HttpWorld}.

(** ** Writing *)

Definition header_line (h : bytes * bytes) : bytes := h.1 ++ lit ": " ++ h.2 ++ crlf.

Definition post_headers (strMsg : bytes) : list (bytes * bytes) :=
  [(lit "User-Agent", lit "bitcoin-json-rpc/" ++ FormatFullVersion);
   (lit "Host", lit "127.0.0.1");
   (lit "Content-Type", lit "application/json");
   (lit "Content-Length", decimal (lenZ strMsg));
   (lit "Connection", lit "close");
   (lit "Accept", lit "application/json")].

Definition HTTPPost (strMsg : bytes) (mapRequestHeaders : list (bytes * bytes)) : bytes :=
  lit "POST / HTTP/1.1" ++ crlf ++ mjoin (header_line <$> post_headers strMsg)
  ++ mjoin (header_line <$> mapRequestHeaders) ++ crlf ++ strMsg.

Definition body_401 : bytes :=
  lit "<!DOCTYPE HTML PUBLIC " ++ [34] ++ lit "-//W3C//DTD HTML 4.01 Transitional//EN" ++ [34] ++ crlf
  ++ [34] ++ lit "http://www.w3.org/TR/1999/REC-html401-19991224/loose.dtd" ++ [34] ++ lit ">" ++ crlf
  ++ lit "<HTML>" ++ crlf ++ lit "<HEAD>" ++ crlf ++ lit "<TITLE>Error</TITLE>" ++ crlf
  ++ lit "<META HTTP-EQUIV='Content-Type' CONTENT='text/html; charset=ISO-8859-1'>" ++ crlf
  ++ lit "</HEAD>" ++ crlf ++ lit "<BODY><H1>401 Unauthorized.</H1></BODY>" ++ crlf ++ lit "</HTML>" ++ crlf.

Definition headers_401 : list (bytes * bytes) :=
  [(lit "Date", rfc1123Time); (lit "Server", lit "bitcoin-json-rpc/" ++ FormatFullVersion);
   (lit "WWW-Authenticate", lit "Basic realm=" ++ [34] ++ lit "jsonrpc" ++ [34]);
   (lit "Content-Type", lit "text/html"); (lit "Content-Length", lit "296")].

Definition cStatus (nStatus : Z) : bytes :=
  if nStatus =? HTTP_OK then lit "OK"
  else if nStatus =? HTTP_BAD_REQUEST then lit "Bad Request"
  else if nStatus =? HTTP_FORBIDDEN then lit "Forbidden"
  else if nStatus =? HTTP_NOT_FOUND then lit "Not Found"
  else if nStatus =? HTTP_INTERNAL_SERVER_ERROR then lit "Internal Server Error"
  else [].

Definition reply_headers (strMsg : bytes) (keepalive : bool) : list (bytes * bytes) :=
  [(lit "Date", rfc1123Time); (lit "Connection", if keepalive then lit "keep-alive" else lit "close");
   (lit "Content-Length", decimal (lenZ strMsg)); (lit "Content-Type", lit "application/json");
   (lit "Server", lit "bitcoin-json-rpc/" ++ FormatFullVersion)].

(** [%s] of [strMsg.c_str()] stops at a NUL. *)
Definition HTTPReply (nStatus : Z) (strMsg : bytes) (keepalive : bool) : bytes :=
  if nStatus =? HTTP_UNAUTHORIZED then
    lit "HTTP/1.0 401 Authorization Required" ++ crlf ++ mjoin (header_line <$> headers_401) ++ crlf ++ body_401
  else
    lit "HTTP/1.1 " ++ decimal nStatus ++ lit " " ++ cStatus nStatus ++ crlf
    ++ mjoin (header_line <$> reply_headers strMsg keepalive) ++ crlf ++ c_str strMsg.

(** ** Reading *)

(** [None] for false; else [proto], [http_method], [http_uri]. *)
Definition ReadHTTPRequestLine (stream : Stream) : option (Z * bytes * bytes) * Stream :=
  let '(str, rest) := getline stream in
  (match split_at 32 [] str with
   | http_method :: http_uri :: more =>
     if bool_decide (http_method <> lit "GET") && bool_decide (http_method <> lit "POST") then None
     else if negb (http_uri.[0] =? 47) then None
     else Some (http_version (match more with strProto :: _ => strProto | [] => [] end), http_method, http_uri)
   | _ => None
   end, rest).

(** The status and [proto]. *)
Definition ReadHTTPStatus (stream : Stream) (proto : Z) : Z * Z * Stream :=
  let '(str, rest) := getline stream in
  match split_at 32 [] str with
  | _ :: status :: _ => (atoi status, http_version str, rest)
  | _ => (HTTP_INTERNAL_SERVER_ERROR, proto, rest)
  end.

(** Every round takes a line that is not empty. *)
Fixpoint Headers_loop (fuel : nat) (stream : Stream) (nLen : Z) (m : Headers) : option (Z * Headers * Stream) :=
  match fuel with
  | O => None
  | S fuel' =>
    let '(str, rest) := getline stream in
    if bool_decide (str = []) || bool_decide (str = [13]) then Some (nLen, m, rest)
    else
      match cut 58 str with
      | None => Headers_loop fuel' rest nLen m
      | Some (name, value) =>
        let strHeader := to_lower (trim name) in
        let strValue := trim value in
        Headers_loop fuel' rest
          (if bool_decide (strHeader = lit "content-length") then atoi strValue else nLen)
          (<[strHeader := strValue]> m)
      end
  end.

Definition ReadHTTPHeaders (stream : Stream) (m : Headers) : option (Z * Headers * Stream) :=
  Headers_loop (S (length (buf stream))) stream 0 m.

(** The status, the headers, the message and the stream. *)
Definition ReadHTTPMessage (stream : Stream) (nProto : Z) : option (Z * Headers * bytes * Stream) :=
  '(nLen, m, stream) ← ReadHTTPHeaders stream ∅;
  if (nLen <? 0) || (MAX_SIZE <? nLen) then Some (HTTP_INTERNAL_SERVER_ERROR, m, [], stream)
  else
    let '(strMessageRet, stream) := if 0 <? nLen then read stream (Z.to_nat nLen) else ([], stream) in
    let sConHdr := default [] (m !! lit "connection") in
    let m := if bool_decide (sConHdr <> lit "close") && bool_decide (sConHdr <> lit "keep-alive")
             then <[lit "connection" := if 1 <=? nProto then lit "keep-alive" else lit "close"]> m else m in
    Some (HTTP_OK, m, strMessageRet, stream).

Definition HTTPAuthorized (strRPCUserColonPass : bytes) (mapHeaders : Headers) : bool :=
  let strAuth := default [] (mapHeaders !! lit "authorization") in
  if negb (bool_decide (take 6 strAuth = lit "Basic ")) then false
  else
    let strUserPass64 := trim (drop 6 strAuth) in
    let strUserPass := fst (Base64.DecodeBase64 (c_str strUserPass64)) in
    bool_decide (strUserPass = strRPCUserColonPass).

End Http.

(** ** Who may connect *)

(** An address of [boost::asio]: four bytes, or sixteen. *)
Inductive IpAddress := V4 (a : Z) | V6 (b : bytes).

(** [is_v4_compatible]: twelve zero bytes in front, and neither ::0 nor ::1. *)
Definition v4_compatible (b : bytes) : bool :=
  bool_decide (take 12 b = repeat 0 12) &&
  negb (bool_decide (take 3 (drop 12 b) = [0; 0; 0]) && ((b.[15] =? 0) || (b.[15] =? 1))).
Definition v4_mapped (b : bytes) : bool := bool_decide (take 12 b = repeat 0 10 ++ [255; 255]).
Definition to_v4 (b : bytes) : Z := Z.lor (Z.shiftl b.[12] 24) (Z.lor (Z.shiftl b.[13] 16) (Z.lor (Z.shiftl b.[14] 8) b.[15])).

Section Allowed.
Context (to_string : IpAddress -> bytes) (rpcallowip : list bytes).

Definition allowed_plain (address : IpAddress) : bool :=
  (match address with
   | V4 a => (a =? 0x7f000001) || (Z.land a 0xff000000 =? 0x7f000000)
   | V6 b => bool_decide (b = repeat 0 15 ++ [1])
   end) || existsb (fun strAllow => WildcardMatch (to_string address) strAllow) rpcallowip.

Definition ClientAllowed (address : IpAddress) : bool :=
  match address with
  | V6 b => if v4_compatible b || v4_mapped b then allowed_plain (V4 (to_v4 b)) else allowed_plain address
  | V4 _ => allowed_plain address
  end.
End Allowed.
