(* ===== verification/HttpThms.v ===== *)
(** Theorems on the HTTP of the RPC interface (Http.v): requests and replies are read as they were written,
    whatever follows them on the stream; who is authorized. *)

From S2P Require Import Prelude Codec Util UtilThms Lookup LookupThms Http.

(** ** Lines *)

Lemma line_end_app l r : 10 ∉ l -> line_end (l ++ 10 :: r) = (l, Some r).
Proof.
  induction l as [|c l IH]; intros Hl; cbn [app line_end]; [done|].
  destruct (Z.eqb_spec c 10) as [->|]; [destruct Hl; left|]. rewrite IH by set_solver. done.
Qed.
Lemma getline_crlf l r : 10 ∉ l -> getline (opened (l ++ crlf ++ r)) = (l ++ [13], opened r).
Proof.
  intros Hl. unfold getline. cbn [good buf].
  replace (l ++ crlf ++ r) with ((l ++ [13]) ++ 10 :: r) by (by rewrite <-app_assoc).
  rewrite line_end_app; [done|set_solver].
Qed.
Lemma line_end_shorter s : (length (line_end s).1 + length (default [] (line_end s).2) <= length s)%nat.
Proof.
  induction s as [|c s IH]; cbn [line_end]; [done|]. destruct (c =? 10); [cbn; lia|].
  destruct (line_end s) as [l r]. cbn in *. lia.
Qed.
Lemma getline_shorter s : good s = true -> (length (getline s).1 + length (buf (getline s).2) <= length (buf s))%nat.
Proof.
  intros Hg. unfold getline. rewrite Hg. pose proof (line_end_shorter (buf s)).
  destruct (line_end (buf s)) as [l [r|]]; cbn in *; lia.
Qed.
Lemma getline_bad s : good s = false -> getline s = ([], s).
Proof. intros Hg. unfold getline. by rewrite Hg. Qed.

Lemma read_app l r : read (opened (l ++ r)) (length l) = (l, opened r).
Proof.
  unfold read. cbn [good buf]. rewrite length_app, take_app_length, drop_app_length.
  rewrite decide_True by lia. replace (length l - (length l + length r))%nat with 0%nat by lia. by rewrite app_nil_r.
Qed.

Lemma cut_app c a b : c ∉ a -> cut c (a ++ c :: b) = Some (a, b).
Proof.
  induction a as [|x a IH]; intros Ha; cbn [app cut]; [by rewrite Z.eqb_refl|].
  destruct (Z.eqb_spec x c) as [->|]; [destruct Ha; left|]. by rewrite IH by set_solver.
Qed.

Lemma skip_space_snoc s : skip_space (s ++ [13]) = match skip_space s with [] => [] | x => x ++ [13] end.
Proof.
  induction s as [|c s IH]; [done|]. cbn [app skip_space]. by destruct (isspace c).
Qed.

Lemma trim_line v : trim (32 :: v ++ [13]) = trim v.
Proof.
  unfold trim. change (skip_space (32 :: v ++ [13])) with (skip_space (v ++ [13])). rewrite skip_space_snoc.
  destruct (skip_space v) as [|c r] eqn:E; [done|]. by rewrite rev_app_distr.
Qed.

Lemma digits_trim p : digits p -> trim p = p.
Proof.
  assert (K : forall q, digits q -> skip_space q = q).
  { intros [|c q] Hq; [done|]. apply skip_space_digit. by apply Forall_cons in Hq as [? _]. }
  intros Hp. unfold trim. rewrite (K p Hp), (K (rev p)), rev_involutive; [done|]. unfold digits in *. by apply Forall_rev.
Qed.

Lemma atoi_decimal n : 0 <= n < 2 ^ 31 -> atoi (trim (decimal n)) = n.
Proof.
  intros Hn. destruct (decimal_spec n ltac:(lia)) as (Hd & _ & Hv). rewrite digits_trim by done.
  unfold atoi. rewrite digits_c_str by done. rewrite strtol10_digits; [|done| |rewrite Hv; unfold LONG_MAX; lia].
  - cbn [fst]. rewrite Hv. apply wraps_small; [lia|]. unfold in_s. lia.
  - apply decimal_nonempty.
Qed.

(** ** Headers *)

Section Http.
Context `{HttpWorld}.

Definition plain_header (h : bytes * bytes) : Prop := 10 ∉ h.1 /\ 58 ∉ h.1 /\ 10 ∉ h.2.
Definition header_key (h : bytes * bytes) : bytes := to_lower (trim h.1).

Fixpoint absorb (hs : list (bytes * bytes)) (nLen : Z) (m : Headers) : Z * Headers :=
  match hs with
  | [] => (nLen, m)
  | h :: r => absorb r (if bool_decide (header_key h = lit "content-length") then atoi (trim h.2) else nLen)
                (<[header_key h := trim h.2]> m)
  end.

Lemma Headers_loop_line fuel h r nLen m :
  plain_header h ->
  Headers_loop (S fuel) (opened (header_line h ++ r)) nLen m =
  Headers_loop fuel (opened r) (if bool_decide (header_key h = lit "content-length") then atoi (trim h.2) else nLen)
    (<[header_key h := trim h.2]> m).
Proof.
  intros (H1 & H2 & H3). cbn [Headers_loop]. unfold header_line.
  replace ((h.1 ++ lit ": " ++ h.2 ++ crlf) ++ r) with ((h.1 ++ 58 :: 32 :: h.2) ++ crlf ++ r)
    by (cbn; by rewrite <-!app_assoc; cbn; rewrite <-!app_assoc).
  rewrite getline_crlf by set_solver.
  set (l := (h.1 ++ 58 :: 32 :: h.2) ++ [13]).
  assert (Hl : (1 < length l)%nat) by (unfold l; rewrite !length_app; cbn; lia).
  rewrite (bool_decide_eq_false_2 (l = [])) by (intros E; rewrite E in Hl; cbn in Hl; lia).
  rewrite (bool_decide_eq_false_2 (l = [13])) by (intros E; rewrite E in Hl; cbn in Hl; lia). cbn [orb].
  unfold l. rewrite <-app_assoc. cbn [app]. rewrite cut_app by done. by rewrite trim_line.
Qed.

Lemma Headers_loop_all hs fuel nLen m rest :
  Forall plain_header hs -> (length hs < fuel)%nat ->
  Headers_loop fuel (opened (mjoin (header_line <$> hs) ++ crlf ++ rest)) nLen m =
  Some ((absorb hs nLen m).1, (absorb hs nLen m).2, opened rest).
Proof.
  intros Hp. revert fuel nLen m. induction Hp as [|h hs Hh Hp IH]; intros fuel nLen m Hf.
  - destruct fuel as [|fuel]; [cbn in Hf; lia|]. done.
  - destruct fuel as [|fuel]; [cbn in Hf; lia|]. cbn [fmap list_fmap mjoin list_join]. rewrite <-app_assoc.
    rewrite Headers_loop_line by done. apply IH. cbn in Hf. lia.
Qed.

Lemma header_lines_long hs : (length hs <= length (mjoin (header_line <$> hs)))%nat.
Proof.
  induction hs as [|h hs IH]; [cbn; lia|]. cbn [fmap list_fmap mjoin list_join length]. rewrite length_app.
  assert (0 < length (header_line h))%nat by (unfold header_line; rewrite !length_app; cbn; lia).
  change (S (length hs) <= length (header_line h) + length (mjoin (header_line <$> hs)))%nat. lia.
Qed.

Lemma ReadHTTPHeaders_all hs rest m :
  Forall plain_header hs ->
  ReadHTTPHeaders (opened (mjoin (header_line <$> hs) ++ crlf ++ rest)) m =
  Some ((absorb hs 0 m).1, (absorb hs 0 m).2, opened rest).
Proof.
  intros Hp. apply Headers_loop_all; [done|]. pose proof (header_lines_long hs). cbn [buf]. rewrite !length_app. lia.
Qed.

Lemma absorb_app hs ks n m : absorb (hs ++ ks) n m = absorb ks (absorb hs n m).1 (absorb hs n m).2.
Proof. revert n m. induction hs as [|h hs IH]; intros n m; [done|]. apply IH. Qed.

Lemma absorb_other hs n m k : k ∉ (header_key <$> hs) -> (absorb hs n m).2 !! k = m !! k.
Proof.
  revert n m. induction hs as [|h hs IH]; intros n m Hk; [done|]. cbn [absorb]. rewrite IH by set_solver.
  apply lookup_insert_ne. set_solver.
Qed.
Lemma absorb_length hs n m : lit "content-length" ∉ (header_key <$> hs) -> (absorb hs n m).1 = n.
Proof.
  revert n m. induction hs as [|h hs IH]; intros n m Hk; [done|]. cbn [absorb]. rewrite IH by set_solver.
  rewrite bool_decide_eq_false_2; [done|]. set_solver.
Qed.
Lemma absorb_lookup hs n m h :
  NoDup (header_key <$> hs) -> h ∈ hs -> (absorb hs n m).2 !! header_key h = Some (trim h.2).
Proof.
  revert n m. induction hs as [|g hs IH]; intros n m Hn Hh; [by apply elem_of_nil in Hh|].
  apply NoDup_cons in Hn as [Hg Hn]. apply elem_of_cons in Hh as [->|Hh]; cbn [absorb]; [|by apply IH].
  rewrite absorb_other by done. apply lookup_insert_eq.
Qed.

(** Every stream has an end of its headers. *)
Lemma ReadHTTPHeaders_total stream m : is_Some (ReadHTTPHeaders stream m).
Proof.
  unfold ReadHTTPHeaders.
  assert (K : forall fuel s n m, (length (buf s) < fuel)%nat -> is_Some (Headers_loop fuel s n m)); [|apply K; lia].
  induction fuel as [|fuel IH]; intros s n m' Hs; [lia|]. cbn [Headers_loop]. destruct (good s) eqn:Hg.
  - pose proof (getline_shorter s Hg). destruct (getline s) as [str rest]. cbn [fst snd] in *.
    destruct (bool_decide (str = []) || bool_decide (str = [13])) eqn:Eb; [by eexists|].
    apply orb_false_iff in Eb as [Eb%bool_decide_eq_false _].
    assert (length str <> 0%nat) by (by destruct str). destruct (cut 58 str) as [[a b]|]; apply IH; lia.
  - rewrite getline_bad by done. by eexists.
Qed.
Lemma ReadHTTPMessage_total stream nProto : is_Some (ReadHTTPMessage stream nProto).
Proof.
  unfold ReadHTTPMessage. destruct (ReadHTTPHeaders_total stream ∅) as [[[n m] r] ->]. cbn.
  destruct (_ || _); [by eexists|]. by destruct (if 0 <? n then _ else _).
Qed.

(** A message that is all there. *)
Lemma ReadHTTPMessage_all hs strMsg rest nProto c :
  Forall plain_header hs -> lenZ strMsg <= MAX_SIZE -> (absorb hs 0 ∅).1 = lenZ strMsg ->
  (absorb hs 0 ∅).2 !! lit "connection" = Some c -> c = lit "close" \/ c = lit "keep-alive" ->
  ReadHTTPMessage (opened (mjoin (header_line <$> hs) ++ crlf ++ strMsg ++ rest)) nProto =
  Some (HTTP_OK, (absorb hs 0 ∅).2, strMsg, opened rest).
Proof.
  intros Hp Hl Elen Ec Hc. pose proof (lenZ_nonneg strMsg). unfold ReadHTTPMessage. rewrite ReadHTTPHeaders_all by done.
  cbn [mbind option_bind]. rewrite Elen. replace ((lenZ strMsg <? 0) || (MAX_SIZE <? lenZ strMsg)) with false by lia.
  assert (E : (if 0 <? lenZ strMsg then read (opened (strMsg ++ rest)) (Z.to_nat (lenZ strMsg)) else ([], opened (strMsg ++ rest)))
              = (strMsg, opened rest)).
  { destruct (Z.ltb_spec 0 (lenZ strMsg)) as [Hpos|Hz].
    - unfold lenZ. rewrite Nat2Z.id. apply read_app.
    - destruct strMsg; [done|]. rewrite lenZ_cons in Hz. pose proof (lenZ_nonneg strMsg). lia. }
  rewrite E, Ec. cbn [default]. destruct Hc as [-> | ->]; [by rewrite (bool_decide_eq_false_2 (lit "close" <> lit "close")) by (intros []; done)|].
  rewrite (bool_decide_eq_false_2 (lit "keep-alive" <> lit "keep-alive")) by (intros []; done). by rewrite andb_false_r.
Qed.

(** ** Requests *)

Lemma decimal_line n : 0 <= n < 10 ^ 10 -> 10 ∉ decimal n.
Proof.
  intros Hn Hin. destruct (decimal_spec n Hn) as (Hd & _). unfold digits in Hd. rewrite Forall_forall in Hd.
  by apply Hd in Hin.
Qed.

Definition plainb (k : bytes) : bool := bool_decide (10 ∉ k) && bool_decide (58 ∉ k).
Lemma plain_lit k v : plainb k = true -> 10 ∉ v -> plain_header (k, v).
Proof. unfold plainb. rewrite andb_true_iff, !bool_decide_eq_true. by intros []. Qed.
Lemma no_line (v : bytes) : bool_decide (10 ∉ v) = true -> 10 ∉ v.
Proof. by rewrite bool_decide_eq_true. Qed.
Lemma version_line k : bool_decide (10 ∉ k) = true -> 10 ∉ k ++ FormatFullVersion.
Proof. intros Hk%no_line. rewrite not_elem_of_app. split; [done|apply FormatFullVersion_line]. Qed.

Ltac plain := repeat (apply Forall_cons; split); [..|by apply Forall_nil];
  (apply plain_lit; [by vm_compute|]);
  first [apply version_line; by vm_compute | assumption | apply rfc1123Time_line | apply no_line; by vm_compute].

Lemma post_headers_plain strMsg : lenZ strMsg <= MAX_SIZE -> Forall plain_header (post_headers strMsg).
Proof.
  intros Hl. pose proof MAX_SIZE_int. pose proof (lenZ_nonneg strMsg).
  assert (10 ∉ decimal (lenZ strMsg)) by (apply decimal_line; lia).
  unfold post_headers. plain.
Qed.

Definition own_keys : list bytes :=
  [lit "user-agent"; lit "host"; lit "content-type"; lit "content-length"; lit "connection"; lit "accept"].
Lemma post_keys strMsg : header_key <$> post_headers strMsg = own_keys.
Proof. unfold post_headers, header_key. cbn [fmap list_fmap fst]. by vm_compute. Qed.

Lemma absorb_length_at hs n m k v :
  NoDup (header_key <$> hs) -> (k, v) ∈ hs -> header_key (k, v) = lit "content-length" ->
  (absorb hs n m).1 = atoi (trim v).
Proof.
  intros Hn Hin Hk. revert n m. induction hs as [|g hs IH]; intros n m; [by apply elem_of_nil in Hin|].
  apply NoDup_cons in Hn as [Hg Hn]. apply elem_of_cons in Hin as [<-|Hin]; cbn [absorb]; [|by apply IH].
  rewrite bool_decide_eq_true_2 by done. apply absorb_length. by rewrite <-Hk.
Qed.

(** What [HTTPPost] writes is read back: the request line, every header under its name in lower case,
    and the message, and what follows on the stream is left there. *)
Lemma HTTPPost_read strMsg hdrs rest :
  lenZ strMsg <= MAX_SIZE -> Forall plain_header hdrs -> NoDup (header_key <$> hdrs) ->
  lit "content-length" ∉ (header_key <$> hdrs) -> lit "connection" ∉ (header_key <$> hdrs) ->
  exists stream m,
    ReadHTTPRequestLine (opened (HTTPPost strMsg hdrs ++ rest)) = (Some (1, lit "POST", lit "/"), stream) /\
    ReadHTTPMessage stream 1 = Some (HTTP_OK, m, strMsg, opened rest) /\
    m !! lit "connection" = Some (lit "close") /\
    (forall h, h ∈ hdrs -> m !! header_key h = Some (trim h.2)).
Proof.
  intros Hl Hp Hn Hcl Hco. pose proof MAX_SIZE_int. pose proof (lenZ_nonneg strMsg).
  set (hs := post_headers strMsg ++ hdrs).
  set (stream := mjoin (header_line <$> hs) ++ crlf ++ strMsg ++ rest).
  exists (opened stream), (absorb hs 0 ∅).2.
  assert (Hpost : HTTPPost strMsg hdrs ++ rest = lit "POST / HTTP/1.1" ++ crlf ++ stream).
  { unfold HTTPPost, stream, hs. rewrite fmap_app, join_app, <-!app_assoc. done. }
  assert (Hnd : NoDup (header_key <$> post_headers strMsg)).
  { rewrite post_keys. apply (bool_decide_unpack _). by vm_compute. }
  assert (Ec : (absorb hs 0 ∅).2 !! lit "connection" = Some (lit "close")).
  { unfold hs. rewrite absorb_app, absorb_other by done.
    apply (absorb_lookup (post_headers strMsg) 0 ∅ (lit "Connection", lit "close")); [done|by do 4 right; left]. }
  split_and!; [| |done|].
  - unfold ReadHTTPRequestLine. rewrite Hpost, getline_crlf by (apply (bool_decide_unpack _); by vm_compute).
    assert (E : split_at 32 [] (lit "POST / HTTP/1.1" ++ [13]) = [lit "POST"; lit "/"; lit "HTTP/1.1" ++ [13]]) by by vm_compute.
    rewrite E. clearbody stream. by vm_compute.
  - apply (ReadHTTPMessage_all _ _ _ _ (lit "close")); [|done| |done|by left].
    + apply Forall_app. split; [by apply post_headers_plain|done].
    + unfold hs. rewrite absorb_app, absorb_length by done.
      rewrite (absorb_length_at _ _ _ (lit "Content-Length") (decimal (lenZ strMsg)));
        [apply atoi_decimal; lia|exact Hnd|by do 3 right; left|by vm_compute].
  - intros h Hh. unfold hs. rewrite absorb_app. by apply absorb_lookup.
Qed.

(** ** Replies *)

Lemma reply_headers_plain strMsg keep : lenZ strMsg <= MAX_SIZE -> Forall plain_header (reply_headers strMsg keep).
Proof.
  intros Hl. pose proof MAX_SIZE_int. pose proof (lenZ_nonneg strMsg).
  assert (10 ∉ decimal (lenZ strMsg)) by (apply decimal_line; lia).
  unfold reply_headers. destruct keep; plain.
Qed.

Lemma nul_c_str s : 0 ∉ s -> c_str s = s.
Proof.
  induction s as [|c s IH]; [done|]. intros Hs. cbn [c_str]. destruct (Z.eqb_spec c 0) as [->|]; [destruct Hs; left|].
  rewrite IH; [done|set_solver].
Qed.

(** What [HTTPReply] writes is read back by the client: the status, and the message with what follows left
    on the stream. *)
Lemma HTTPReply_read nStatus strMsg keep rest p :
  nStatus ∈ [HTTP_OK; HTTP_BAD_REQUEST; HTTP_FORBIDDEN; HTTP_NOT_FOUND; HTTP_INTERNAL_SERVER_ERROR] ->
  0 ∉ strMsg -> lenZ strMsg <= MAX_SIZE ->
  exists stream m,
    ReadHTTPStatus (opened (HTTPReply nStatus strMsg keep ++ rest)) p = (nStatus, 1, stream) /\
    ReadHTTPMessage stream 1 = Some (HTTP_OK, m, strMsg, opened rest) /\
    m !! lit "connection" = Some (if keep then lit "keep-alive" else lit "close").
Proof.
  intros Hst Hnul Hl. pose proof MAX_SIZE_int. pose proof (lenZ_nonneg strMsg).
  set (hs := reply_headers strMsg keep).
  set (stream := mjoin (header_line <$> hs) ++ crlf ++ strMsg ++ rest).
  exists (opened stream), (absorb hs 0 ∅).2.
  assert (Hreply : HTTPReply nStatus strMsg keep ++ rest =
    (lit "HTTP/1.1 " ++ decimal nStatus ++ lit " " ++ cStatus nStatus) ++ crlf ++ stream).
  { unfold HTTPReply. rewrite nul_c_str by done. replace (nStatus =? HTTP_UNAUTHORIZED) with false.
    - unfold stream, hs. by rewrite <-!app_assoc.
    - symmetry. apply Z.eqb_neq. intros ->. revert Hst. apply (bool_decide_unpack _). by vm_compute. }
  assert (Hnd : NoDup (header_key <$> hs)).
  { unfold hs, reply_headers, header_key. cbn [fmap list_fmap fst]. apply (bool_decide_unpack _). by vm_compute. }
  assert (Ec : (absorb hs 0 ∅).2 !! lit "connection" = Some (if keep then lit "keep-alive" else lit "close")).
  { replace (Some (if keep then lit "keep-alive" else lit "close"))
      with (Some (trim (if keep then lit "keep-alive" else lit "close"))) by by destruct keep.
    apply (absorb_lookup hs 0 ∅ (lit "Connection", if keep then lit "keep-alive" else lit "close")); [done|by right; left]. }
  split_and!; [| |done].
  - unfold ReadHTTPStatus. rewrite Hreply, getline_crlf.
    + clearbody stream. rewrite !elem_of_cons, elem_of_nil in Hst. destruct Hst as [->|[->|[->|[->|[->|[]]]]]]; by vm_compute.
    + clear Hreply Ec Hnd. rewrite !elem_of_cons, elem_of_nil in Hst.
      destruct Hst as [->|[->|[->|[->|[->|[]]]]]]; apply (bool_decide_unpack _); by vm_compute.
  - apply (ReadHTTPMessage_all _ _ _ _ (if keep then lit "keep-alive" else lit "close"));
      [by apply reply_headers_plain|done| |done|by destruct keep; [right|left]].
    rewrite (absorb_length_at _ _ _ (lit "Content-Length") (decimal (lenZ strMsg)));
      [apply atoi_decimal; lia|exact Hnd|by do 2 right; left|by vm_compute].
Qed.
End Http.

(** ** Authorization *)

Definition graph (c : Z) : bool := (33 <=? c) && (c <? 127).
Definition graphic (s : bytes) : Prop := Forall (fun c => graph c = true) s.

Lemma EncodeBase64_graphic v : is_bytes v -> graphic (Base64.EncodeBase64 v).
Proof.
  assert (K : forall d, 0 <= d < 64 -> graph Base64.pbase64.[d] = true) by (apply (range_forallb 64); by vm_compute).
  intros Hv. induction v as [v IH] using list_len_ind. destruct v as [|a [|b [|c v]]].
  - constructor.
  - apply is_bytes_cons in Hv as [Ha _]. rewrite Base64.EncodeBase64_1 by done.
    repeat constructor; apply K; zdm.
  - apply is_bytes_cons in Hv as [Ha [Hb _]%is_bytes_cons]. rewrite Base64.EncodeBase64_2 by done.
    repeat constructor; apply K; zdm.
  - apply is_bytes_cons in Hv as [Ha [Hb [Hc Hv]%is_bytes_cons]%is_bytes_cons].
    rewrite Base64.EncodeBase64_3 by done. unfold Base64.digits3. cbn [app].
    repeat (constructor; [apply K; zdm|]). apply IH; [cbn; lia|done].
Qed.

Lemma graph_spec c : graph c = true -> isspace c = false /\ c <> 0 /\ c <> 10.
Proof. unfold graph, isspace. intros [H1 H2]%andb_true_iff. repeat split; try lia. Qed.

Lemma skip_graphic s : graphic s -> skip_space s = s.
Proof.
  intros [|c r Hc Hr]; [done|]. apply graph_spec in Hc as (Hc & _). cbn [skip_space]. by rewrite Hc.
Qed.
Lemma trim_graphic s : graphic s -> trim s = s.
Proof.
  intros Hs. unfold trim. rewrite (skip_graphic s) by done. rewrite skip_graphic by by apply Forall_rev.
  apply rev_involutive.
Qed.
Lemma trim_basic s : graphic s -> s <> [] -> trim (lit "Basic " ++ s) = lit "Basic " ++ s.
Proof.
  intros Hs Hne. unfold trim. change (skip_space (lit "Basic " ++ s)) with (lit "Basic " ++ s).
  rewrite rev_app_distr. assert (Hr : graphic (rev s)) by by apply Forall_rev.
  destruct (rev s) as [|c r] eqn:E; [apply (f_equal (@rev _)) in E; rewrite rev_involutive in E; by destruct Hne|].
  apply Forall_cons in Hr as [Hc _]. apply graph_spec in Hc as (Hc & _). cbn [app skip_space]. rewrite Hc.
  change (c :: r ++ rev (lit "Basic ")) with ((c :: r) ++ rev (lit "Basic ")). rewrite <-E, <-rev_app_distr. apply rev_involutive.
Qed.
Lemma graphic_c_str s : graphic s -> c_str s = s.
Proof. intros Hs. apply nul_c_str. intros Hin. unfold graphic in Hs. rewrite Forall_forall in Hs. by apply Hs, graph_spec in Hin as (_ & ? & _). Qed.

Definition auth_header (strUserPass : bytes) : bytes * bytes :=
  (lit "Authorization", lit "Basic " ++ Base64.EncodeBase64 strUserPass).

Lemma auth_header_plain up : is_bytes up -> plain_header (auth_header up).
Proof.
  intros Hup. apply plain_lit; [by vm_compute|]. rewrite not_elem_of_app. split; [apply no_line; by vm_compute|].
  intros Hin. pose proof (EncodeBase64_graphic up Hup) as Hg. unfold graphic in Hg. rewrite Forall_forall in Hg.
  by apply Hg, graph_spec in Hin as (_ & _ & ?).
Qed.

Lemma EncodeBase64_nonempty up : is_bytes up -> up <> [] -> Base64.EncodeBase64 up <> [].
Proof.
  intros Hup Hne E. pose proof (Base64.DecodeBase64_encode up [] Hup eq_refl) as D. rewrite app_nil_r, E in D.
  injection D as D. by subst.
Qed.

(** The header is accepted for the same text, and for no other. *)
Lemma HTTPAuthorized_header (up up' : bytes) (m : Headers) :
  is_bytes up -> up <> [] -> m !! lit "authorization" = Some (trim (auth_header up).2) ->
  HTTPAuthorized up' m = bool_decide (up = up').
Proof.
  intros Hup Hne Hm. unfold HTTPAuthorized. rewrite Hm. cbn [default from_option id auth_header snd].
  pose proof (EncodeBase64_graphic up Hup) as Hg. rewrite trim_basic by (done || by apply EncodeBase64_nonempty).
  change (take 6 (lit "Basic " ++ Base64.EncodeBase64 up)) with (lit "Basic ").
  rewrite (bool_decide_eq_true_2 (lit "Basic " = lit "Basic ")) by done. cbn [negb].
  change (drop 6 (lit "Basic " ++ Base64.EncodeBase64 up)) with (Base64.EncodeBase64 up).
  rewrite trim_graphic, graphic_c_str by done.
  rewrite <-(app_nil_r (Base64.EncodeBase64 up)), Base64.DecodeBase64_encode by done. done.
Qed.

(** Without a header that begins with "Basic " nobody is authorized. *)
Lemma HTTPAuthorized_none (up : bytes) (m : Headers) : m !! lit "authorization" = None -> HTTPAuthorized up m = false.
Proof. intros Hm. unfold HTTPAuthorized. by rewrite Hm. Qed.
