(* ===== verification/Rpc.v ===== *)
(** The RPC server and client (src/bitcoinrpc.cpp): requests, replies and errors, the table of the commands and
    [CRPCTable::execute], [ServiceConnection], [CallRPC], [RPCConvertValues] and [CommandLineRPC].

    The node is a value of the type [Node], which the commands change; [catch] is a case analysis on [Thrown].
    Parameters (class [RpcWorld]): the commands of the files rpc*.cpp (they are not in the tree), [GetWarnings],
    [StartShutdown], the grammar of [read_string], the arguments of the program, the message of the missing
    password (it is translated and names a file) and [IsSwitchChar].  Locks, SSL and the printed log are left out. *)

From S2P Require Import Prelude Codec Util Lookup Json Http.

(** A JSON error object, or [std::exception] with its text. *)
Inductive Thrown := TObj (objError : Object) | TStd (what : bytes).

Abbreviation Result A := (A + Thrown)%type.

Class RpcWorld := {
  Node : Type;
  command : bytes -> Array -> bool -> Node -> Result Value * Node;   (* by the name of its function *)
  GetWarnings : Node -> bytes;                                       (* "rpc" *)
  StartShutdown : Node -> Node;
  read_string : bytes -> option Value;
  read_string_str : forall s t, read_string s = Some (VStr t) -> (length t < length s)%nat;
  disablesafemode : bool;
  rpcuser : bytes;
  rpcpassword : bytes;
  rpcallowip : list bytes;
  message_no_password : bytes;
  IsSwitchChar : Z -> bool;
}.

Definition RPC_INVALID_REQUEST : Z := -32600.
Definition RPC_METHOD_NOT_FOUND : Z := -32601.
Definition RPC_PARSE_ERROR : Z := -32700.
Definition RPC_MISC_ERROR : Z := -1.
Definition RPC_FORBIDDEN_BY_SAFE_MODE : Z := -2.
Definition RPC_TYPE_ERROR : Z := -3.

Definition vint (n : Z) : Value := VInt n false.

Definition JSONRPCError (code : Z) (message : bytes) : Object :=
  [(lit "code", vint code); (lit "message", VStr message)].

(** ** Types of the arguments *)

Definition type_ok (v : Value) (t : Value_type) (fAllowNull : bool) : bool :=
  bool_decide (type v = t) || (fAllowNull && bool_decide (type v = null_type)).

(** [None]: nothing is thrown. *)
Fixpoint RPCTypeCheck (params : Array) (typesExpected : list Value_type) (fAllowNull : bool) : option Object :=
  match typesExpected, params with
  | t :: ts, v :: vs =>
    if type_ok v t fAllowNull then RPCTypeCheck vs ts fAllowNull
    else Some (JSONRPCError RPC_TYPE_ERROR
                 (lit "Expected type " ++ Value_type_name t ++ lit ", got " ++ Value_type_name (type v)))
  | _, _ => None
  end.

(** [typesExpected] as the map is walked. *)
Fixpoint RPCTypeCheck_obj (o : Object) (typesExpected : list (bytes * Value_type)) (fAllowNull : bool) : option Object :=
  match typesExpected with
  | [] => None
  | (name, t) :: ts =>
    let v := find_value o name in
    if negb fAllowNull && bool_decide (type v = null_type) then
      Some (JSONRPCError RPC_TYPE_ERROR (lit "Missing " ++ c_str name))
    else if type_ok v t fAllowNull then RPCTypeCheck_obj o ts fAllowNull
    else Some (JSONRPCError RPC_TYPE_ERROR
                 (lit "Expected type " ++ Value_type_name t ++ lit " for " ++ c_str name ++ lit ", got " ++ Value_type_name (type v)))
  end.

(** ** Requests and replies *)

Definition JSONRPCRequest (strMethod : bytes) (params : Array) (id : Value) : bytes :=
  write_string (VObj [(lit "method", VStr strMethod); (lit "params", VArr params); (lit "id", id)]) false ++ [10].

Definition is_null (v : Value) : bool := bool_decide (type v = null_type).

Definition JSONRPCReplyObj (result error id : Value) : Object :=
  [(lit "result", if is_null error then result else VNull); (lit "error", error); (lit "id", id)].

Definition JSONRPCReply (result error id : Value) : bytes :=
  write_string (VObj (JSONRPCReplyObj result error id)) false ++ [10].

Record JSONRequest := mkRequest { id : Value; strMethod : bytes; params : Array }.

(** What was assigned before a throw stays. *)
Definition parse (valRequest : Value) : JSONRequest * option Thrown :=
  let invalid text := Some (TObj (JSONRPCError RPC_INVALID_REQUEST (lit text))) in
  match valRequest with
  | VObj request =>
    let id := find_value request (lit "id") in
    match find_value request (lit "method") with
    | VNull => (mkRequest id [] [], invalid "Missing method")
    | VStr strMethod =>
      match find_value request (lit "params") with
      | VArr params => (mkRequest id strMethod params, None)
      | VNull => (mkRequest id strMethod [], None)
      | _ => (mkRequest id strMethod [], invalid "Params must be an array")
      end
    | _ => (mkRequest id [] [], invalid "Method must be a string")
    end
  | _ => (mkRequest VNull [] [], invalid "Invalid Request object")
  end.

(** ** The commands *)

Record CRPCCommand := mkCommand { name : bytes; actor : bytes; okSafeMode : bool; threadSafe : bool }.

Definition cmd (nm : String.string) (ok safe : bool) : CRPCCommand := mkCommand (lit nm) (lit nm) ok safe.

Definition vRPCCommands : list CRPCCommand := [
  cmd "help" true true; cmd "stop" true true; cmd "getblockcount" true false; cmd "getconnectioncount" true false;
  cmd "getpeerinfo" true false; cmd "addnode" true true; cmd "getaddednodeinfo" true true; cmd "getdifficulty" true false;
  cmd "getgenerate" true false; cmd "setgenerate" true false; cmd "gethashespersec" true false; cmd "getinfo" true false;
  cmd "getmininginfo" true false; cmd "getnewaddress" true false; cmd "getaccountaddress" true false;
  cmd "setaccount" true false; cmd "getaccount" false false; cmd "getaddressesbyaccount" true false;
  cmd "sendtoaddress" false false; cmd "getreceivedbyaddress" false false; cmd "getreceivedbyaccount" false false;
  cmd "listreceivedbyaddress" false false; cmd "listreceivedbyaccount" false false; cmd "backupwallet" true false;
  cmd "keypoolrefill" true false; cmd "walletpassphrase" true false; cmd "walletpassphrasechange" false false;
  cmd "walletlock" true false; cmd "encryptwallet" false false; cmd "validateaddress" true false;
  cmd "getbalance" false false; mkCommand (lit "move") (lit "movecmd") false false; cmd "sendfrom" false false;
  cmd "sendmany" false false; cmd "addmultisigaddress" false false; cmd "createmultisig" true true;
  cmd "getrawmempool" true false; cmd "getblock" false false; cmd "getblockhash" false false;
  cmd "gettransaction" false false; cmd "listtransactions" false false; cmd "listaddressgroupings" false false;
  cmd "signmessage" false false; cmd "verifymessage" false false; cmd "getwork" true false; cmd "listaccounts" false false;
  cmd "settxfee" false false; cmd "getblocktemplate" true false; cmd "submitblock" false false;
  cmd "listsinceblock" false false; cmd "dumpprivkey" true false; cmd "importprivkey" false false;
  cmd "listunspent" false false; cmd "getrawtransaction" false false; cmd "createrawtransaction" false false;
  cmd "decoderawtransaction" false false; cmd "signrawtransaction" false false; cmd "sendrawtransaction" false false;
  cmd "gettxoutsetinfo" true false; cmd "gettxout" true false; cmd "lockunspent" false false;
  cmd "listlockunspent" false false].

(** [std::map]: sorted by the name; a later entry of the same name replaces. *)
Fixpoint byte_lt (s t : bytes) : bool :=
  match s, t with
  | _, [] => false
  | [], _ => true
  | a :: s', b :: t' => if a =? b then byte_lt s' t' else a <? b
  end.
Fixpoint insert_command (c : CRPCCommand) (m : list CRPCCommand) : list CRPCCommand :=
  match m with
  | [] => [c]
  | d :: r => if byte_lt (name c) (name d) then c :: m
              else if bool_decide (name c = name d) then c :: r
              else d :: insert_command c r
  end.
Definition mapCommands : list CRPCCommand := fold_left (fun m c => insert_command c m) vRPCCommands [].

Fixpoint find_command (m : list CRPCCommand) (strName : bytes) : option CRPCCommand :=
  match m with
  | [] => None
  | c :: r => if bool_decide (name c = strName) then Some c else find_command r strName
  end.
Definition table_lookup (strName : bytes) : option CRPCCommand := find_command mapCommands strName.

Section Rpc.
Context `{HttpWorld} `{RpcWorld}.

Definition help_usage : bytes := lit "help [command]" ++ [10] ++ lit "List commands, or get help for a command.".
Definition stop_usage : bytes := lit "stop" ++ [10] ++ lit "Stop Bitcoin server.".

(** [pfn(params, true)]. *)
Definition actor_help (pfn : bytes) (n : Node) : Result Value * Node :=
  if bool_decide (pfn = lit "help") then (inr (TStd help_usage), n)
  else if bool_decide (pfn = lit "stop") then (inr (TStd stop_usage), n)
  else command pfn [] true n.

Definition is_label (s : bytes) : bool := match strstr s (lit "label") with Some _ => true | None => false end.

(** The loop of [CRPCTable::help]: [setDone] and [strRet].  A JSON error leaves it. *)
Fixpoint help_loop (m : list CRPCCommand) (strCommand : bytes) (setDone : list bytes) (strRet : bytes) (n : Node)
  : Result bytes * Node :=
  match m with
  | [] => (inl strRet, n)
  | c :: r =>
    if is_label (name c) then help_loop r strCommand setDone strRet n
    else if bool_decide (strCommand <> []) && bool_decide (name c <> strCommand) then
      help_loop r strCommand setDone strRet n
    else if bool_decide (actor c ∈ setDone) then help_loop r strCommand setDone strRet n
    else
      let setDone := actor c :: setDone in
      let '(res, n) := actor_help (actor c) n in
      match res with
      | inr (TStd strHelp) =>
        let strHelp := if bool_decide (strCommand = []) then match cut 10 strHelp with Some (l, _) => l | None => strHelp end
                       else strHelp in
        help_loop r strCommand setDone (strRet ++ strHelp ++ [10]) n
      | inr (TObj o) => (inr (TObj o), n)
      | inl _ => help_loop r strCommand setDone strRet n
      end
  end.

Definition table_help (strCommand : bytes) (n : Node) : Result bytes * Node :=
  let '(res, n) := help_loop mapCommands strCommand [] [] n in
  match res with
  | inl strRet =>
    let strRet := if bool_decide (strRet = []) then lit "help: unknown command: " ++ c_str strCommand ++ [10] else strRet in
    (inl (take (length strRet - 1) strRet), n)
  | inr t => (inr t, n)
  end.

(** The functions [help] and [stop], called with [fHelp] false. *)
Definition help (params : Array) (n : Node) : Result Value * Node :=
  if (1 <? lenZ params) then (inr (TStd help_usage), n)
  else
    match (match params with p :: _ => get_str p | [] => inl [] end) with
    | inr what => (inr (TStd what), n)
    | inl strCommand =>
      let '(res, n) := table_help strCommand n in
      (match res with inl t => inl (VStr t) | inr e => inr e end, n)
    end.
Definition stop (params : Array) (n : Node) : Result Value * Node :=
  if (1 <? lenZ params) then (inr (TStd stop_usage), n)
  else (inl (VStr (lit "Bitcoin server stopping")), StartShutdown n).

Definition actor_run (pfn : bytes) (params : Array) (n : Node) : Result Value * Node :=
  if bool_decide (pfn = lit "help") then help params n
  else if bool_decide (pfn = lit "stop") then stop params n
  else command pfn params false n.

Definition execute (strMethod : bytes) (params : Array) (n : Node) : Result Value * Node :=
  match table_lookup strMethod with
  | None => (inr (TObj (JSONRPCError RPC_METHOD_NOT_FOUND (lit "Method not found"))), n)
  | Some pcmd =>
    let strWarning := GetWarnings n in
    if bool_decide (strWarning <> []) && negb disablesafemode && negb (okSafeMode pcmd) then
      (inr (TObj (JSONRPCError RPC_FORBIDDEN_BY_SAFE_MODE (lit "Safe mode: " ++ strWarning))), n)
    else
      let '(res, n) := actor_run (actor pcmd) params n in
      (match res with inr (TStd what) => inr (TObj (JSONRPCError RPC_MISC_ERROR what)) | _ => res end, n)
  end.

(** ** The server *)

Definition error_object (t : Thrown) : Object :=
  match t with TObj objError => objError | TStd what => JSONRPCError RPC_PARSE_ERROR what end.

(** [jreq.parse] and [tableRPC.execute] in one [try]: what is thrown, or the result. *)
Definition parse_execute (req : Value) (n : Node) : JSONRequest * Result Value * Node :=
  let '(jreq, thrown) := parse req in
  match thrown with
  | Some t => (jreq, inr t, n)
  | None => let '(res, n) := execute (strMethod jreq) (params jreq) n in (jreq, res, n)
  end.

Definition JSONRPCExecOne (req : Value) (n : Node) : Object * Node :=
  let '(jreq, res, n) := parse_execute req n in
  (match res with
   | inl result => JSONRPCReplyObj result VNull (id jreq)
   | inr t => JSONRPCReplyObj VNull (VObj (error_object t)) (id jreq)
   end, n).

Fixpoint exec_all (vReq : Array) (n : Node) : list Value * Node :=
  match vReq with
  | [] => ([], n)
  | req :: r =>
    let '(o, n) := JSONRPCExecOne req n in
    let '(ret, n) := exec_all r n in (VObj o :: ret, n)
  end.
Definition JSONRPCExecBatch (vReq : Array) (n : Node) : bytes * Node :=
  let '(ret, n) := exec_all vReq n in (write_string (VArr ret) false ++ [10], n).

(** What is written; [None] when the error has no integer "code": [get_int] throws out of the handler. *)
Definition ErrorReply (objError : Object) (id : Value) : option bytes :=
  match get_int (find_value objError (lit "code")) with
  | inr _ => None
  | inl code =>
    let nStatus := if code =? RPC_INVALID_REQUEST then HTTP_BAD_REQUEST
                   else if code =? RPC_METHOD_NOT_FOUND then HTTP_NOT_FOUND
                   else HTTP_INTERNAL_SERVER_ERROR in
    Some (HTTPReply nStatus (JSONRPCReply VNull (VObj objError) id) false)
  end.

(** The [try] of [ServiceConnection]: the reply and whether the loop goes on; [None] when it escapes. *)
Definition answer (strRequest : bytes) (fRun : bool) (n : Node) : option (bytes * bool) * Node :=
  let failed t id := (reply ← ErrorReply (error_object t) id; Some (reply, false)) in
  match read_string strRequest with
  | None => (failed (TObj (JSONRPCError RPC_PARSE_ERROR (lit "Parse error"))) VNull, n)
  | Some (VObj o) =>
    let '(jreq, res, n) := parse_execute (VObj o) n in
    match res with
    | inl result => (Some (HTTPReply HTTP_OK (JSONRPCReply result VNull (id jreq)) fRun, fRun), n)
    | inr t => (failed t (id jreq), n)
    end
  | Some (VArr vReq) =>
    let '(strReply, n) := JSONRPCExecBatch vReq n in (Some (HTTPReply HTTP_OK strReply fRun, fRun), n)
  | Some _ => (failed (TObj (JSONRPCError RPC_PARSE_ERROR (lit "Top-level object parse error"))) VNull, n)
  end.

Inductive Outcome := Again | Closed | Escaped.

Definition strRPCUserColonPass : bytes := rpcuser ++ lit ":" ++ rpcpassword.

(** A round of the loop: what is written, the stream and the node behind it. *)
Definition serve_one (stream : Stream) (n : Node) : option (Outcome * bytes * Stream * Node) :=
  match ReadHTTPRequestLine stream with
  | (None, stream) => Some (Closed, [], stream, n)
  | (Some (nProto, _, strURI), stream) =>
    '(_, mapHeaders, strRequest, stream) ← ReadHTTPMessage stream nProto;
    if bool_decide (strURI <> lit "/") then Some (Closed, written stream (HTTPReply HTTP_NOT_FOUND [] false), stream, n)
    else if bool_decide (mapHeaders !! lit "authorization" = None) then
      Some (Closed, written stream (HTTPReply HTTP_UNAUTHORIZED [] false), stream, n)
    else if negb (HTTPAuthorized strRPCUserColonPass mapHeaders) then
      Some (Closed, written stream (HTTPReply HTTP_UNAUTHORIZED [] false), stream, n)
    else
      let fRun := negb (bool_decide (default [] (mapHeaders !! lit "connection") = lit "close")) in
      match answer strRequest fRun n with
      | (Some (reply, fRun), n) => Some (if fRun : bool then Again else Closed, written stream reply, stream, n)
      | (None, n) => Some (Escaped, [], stream, n)
      end
  end.

Fixpoint serve (fuel : nat) (stream : Stream) (n : Node) : option (Outcome * bytes * Node) :=
  match fuel with
  | O => None
  | S fuel' =>
    '(o, out, stream, n) ← serve_one stream n;
    match o with
    | Again => '(o, more, n) ← serve fuel' stream n; Some (o, out ++ more, n)
    | _ => Some (o, out, n)
    end
  end.

(** A request line takes at least a byte. *)
Definition ServiceConnection (stream : Stream) (n : Node) : option (Outcome * bytes * Node) :=
  serve (S (length (buf stream))) stream n.

(** A connection of the peer at [address]; nothing is sent when the accept failed. *)
Definition RPCAcceptHandler (to_string : IpAddress -> bytes) (error fUseSSL : bool) (address : IpAddress) (stream : Stream) (n : Node)
  : option (Outcome * bytes * Node) :=
  if error then Some (Closed, [], n)
  else if negb (ClientAllowed to_string rpcallowip address) then
    Some (Closed, if fUseSSL then [] else written stream (HTTPReply HTTP_FORBIDDEN [] false), n)
  else ServiceConnection stream n.

(** [StartRPCThreads] asks for a password: it is set and is not the name. *)
Definition credentials_ok : bool := negb (bool_decide (rpcpassword = []) || bool_decide (rpcuser = rpcpassword)).

(** ** The client *)

(** [exchange]: what the server sends for what it gets; [None] when it cannot be reached. *)
Definition CallRPC (exchange : bytes -> option bytes) (strMethod : bytes) (params : Array) : option (Object + bytes) :=
  if bool_decide (rpcuser = []) && bool_decide (rpcpassword = []) then Some (inr message_no_password)
  else
    let strUserPass64 := Base64.EncodeBase64 (rpcuser ++ lit ":" ++ rpcpassword) in
    let mapRequestHeaders := [(lit "Authorization", lit "Basic " ++ strUserPass64)] in
    let strRequest := JSONRPCRequest strMethod params (vint 1) in
    match exchange (HTTPPost strRequest mapRequestHeaders) with
    | None => Some (inr (lit "couldn't connect to server"))
    | Some received =>
      let '(nStatus, nProto, stream) := ReadHTTPStatus (opened received) 0 in
      '(_, _, strReply, _) ← ReadHTTPMessage stream nProto;
      Some (if nStatus =? HTTP_UNAUTHORIZED then inr (lit "incorrect rpcuser or rpcpassword (authorization failed)")
            else if (400 <=? nStatus) && negb (nStatus =? HTTP_BAD_REQUEST) && negb (nStatus =? HTTP_NOT_FOUND)
                    && negb (nStatus =? HTTP_INTERNAL_SERVER_ERROR)
            then inr (lit "server returned HTTP error " ++ show_int nStatus)
            else if bool_decide (strReply = []) then inr (lit "no response from server")
            else match read_string strReply with
                 | None => inr (lit "couldn't parse reply from server")
                 | Some valReply =>
                   match get_obj valReply with
                   | inr what => inr what
                   | inl reply => if bool_decide (length reply = 0%nat)
                                  then inr (lit "expected reply to have result, error and id properties") else inl reply
                   end
                 end)
    end.

(** The types [ConvertTo] is used at. *)
Inductive Target := TBool | TInt64 | TDouble | TObject | TArray.

Definition result_map {A} (f : A -> Value) (r : A + bytes) : Value + bytes :=
  match r with inl a => inl (f a) | inr e => inr e end.
Definition get_value (t : Target) (v : Value) : Value + bytes :=
  match t with
  | TBool => result_map VBool (get_bool v)
  | TInt64 => result_map vint (get_int64 v)
  | TDouble => result_map VReal (get_real v)
  | TObject => result_map VObj (get_obj v)
  | TArray => result_map VArr (get_array v)
  end.

(** A text may hold a text again, which is shorter. *)
Fixpoint Convert_loop (fuel : nat) (t : Target) (value : Value) (fAllowNull : bool) : option (Value + bytes) :=
  match fuel with
  | O => None
  | S fuel' =>
    if fAllowNull && is_null value then Some (inl value)
    else
      match value with
      | VStr strJSON =>
        match read_string strJSON with
        | None => Some (inr (lit "Error parsing JSON:" ++ strJSON))
        | Some value2 => Convert_loop fuel' t value2 fAllowNull
        end
      | _ => Some (get_value t value)
      end
  end.
Definition text_length (v : Value) : nat := match v with VStr s => length s | _ => 0 end.
Definition ConvertTo (t : Target) (value : Value) (fAllowNull : bool) : option (Value + bytes) :=
  Convert_loop (S (S (text_length value))) t value fAllowNull.

Record Conversion := mkConv { conv_method : bytes; conv_index : nat; conv_type : Target; conv_null : bool }.
Definition conv (m : String.string) (i : nat) (t : Target) (null : bool) : Conversion := mkConv (lit m) i t null.

Definition conversions : list Conversion := [
  conv "stop" 0 TBool false; conv "getaddednodeinfo" 0 TBool false; conv "setgenerate" 0 TBool false;
  conv "setgenerate" 1 TInt64 false; conv "sendtoaddress" 1 TDouble false; conv "settxfee" 0 TDouble false;
  conv "getreceivedbyaddress" 1 TInt64 false; conv "getreceivedbyaccount" 1 TInt64 false;
  conv "listreceivedbyaddress" 0 TInt64 false; conv "listreceivedbyaddress" 1 TBool false;
  conv "listreceivedbyaccount" 0 TInt64 false; conv "listreceivedbyaccount" 1 TBool false;
  conv "getbalance" 1 TInt64 false; conv "getblockhash" 0 TInt64 false; conv "move" 2 TDouble false;
  conv "move" 3 TInt64 false; conv "sendfrom" 2 TDouble false; conv "sendfrom" 3 TInt64 false;
  conv "listtransactions" 1 TInt64 false; conv "listtransactions" 2 TInt64 false;
  conv "listaccounts" 0 TInt64 false; conv "walletpassphrase" 1 TInt64 false;
  conv "getblocktemplate" 0 TObject false; conv "listsinceblock" 1 TInt64 false; conv "sendmany" 1 TObject false;
  conv "sendmany" 2 TInt64 false; conv "addmultisigaddress" 0 TInt64 false;
  conv "addmultisigaddress" 1 TArray false; conv "createmultisig" 0 TInt64 false;
  conv "createmultisig" 1 TArray false; conv "listunspent" 0 TInt64 false; conv "listunspent" 1 TInt64 false;
  conv "listunspent" 2 TArray false; conv "getblock" 1 TBool false; conv "getrawtransaction" 1 TInt64 false;
  conv "createrawtransaction" 0 TArray false; conv "createrawtransaction" 1 TObject false;
  conv "signrawtransaction" 1 TArray true; conv "signrawtransaction" 2 TArray true; conv "gettxout" 1 TInt64 false;
  conv "gettxout" 2 TBool false; conv "lockunspent" 0 TBool false; conv "lockunspent" 1 TArray false;
  conv "importprivkey" 2 TBool false].

(** [params[i]] is converted in place when [n > i]. *)
Fixpoint Convert_all (cs : list Conversion) (strMethod : bytes) (params : Array) : option (Array + bytes) :=
  match cs with
  | [] => Some (inl params)
  | c :: r =>
    match (if bool_decide (strMethod = conv_method c) then params !! conv_index c else None) with
    | None => Convert_all r strMethod params
    | Some v =>
      res ← ConvertTo (conv_type c) v (conv_null c);
      match res with
      | inr what => Some (inr what)
      | inl v' => Convert_all r strMethod (<[conv_index c := v']> params)
      end
    end
  end.
Definition RPCConvertValues (strMethod : bytes) (strParams : list bytes) : option (Array + bytes) :=
  Convert_all conversions strMethod (VStr <$> strParams).

(** [argv] without the name of the program: the switches in front are skipped. *)
Fixpoint skip_switches (argv : list bytes) : list bytes :=
  match argv with
  | a :: r => if IsSwitchChar a.[0] then skip_switches r else argv
  | [] => []
  end.

(** What the [try] computes: the text to print and the number to return. *)
Definition print_reply (reply : Object) : bytes * Z + bytes :=
  let result := find_value reply (lit "result") in
  let error := find_value reply (lit "error") in
  if negb (is_null error) then
    match get_obj error with
    | inr what => inr what
    | inl o => match get_int (find_value o (lit "code")) with
               | inr what => inr what
               | inl code => inl (lit "error: " ++ write_string error false, Z.abs code)
               end
    end
  else
    inl (match result with VNull => [] | VStr s => s | _ => write_string result true end, 0).

Definition CommandLineRPC (exchange : bytes -> option bytes) (argv : list bytes) : option (bytes * Z) :=
  let caught (r : bytes * Z + bytes) := match r with inl p => p | inr what => (lit "error: " ++ what, 87) end in
  match skip_switches argv with
  | [] => Some (caught (inr (lit "too few parameters")))
  | strMethod :: strParams =>
    params ← RPCConvertValues strMethod strParams;
    match params with
    | inr what => Some (caught (inr what))
    | inl params =>
      reply ← CallRPC exchange strMethod params;
      Some (caught (match reply with inl reply => print_reply reply | inr what => inr what end))
    end
  end.
End Rpc.
