(* ===== verification/RpcThms.v ===== *)
(** Theorems on the RPC server and client (Rpc.v): every loop ends, nobody runs a command without the password, a
    call of the client is answered by the command of the server, and the replies to a batch are in its order. *)

From S2P Require Import Prelude Codec Util UtilThms Lookup LookupThms Json Http HttpThms Rpc.

Section Rpc.
Context `{HttpWorld} `{RpcWorld}.

(** ** Loops end *)

Lemma getline_le s : (length (buf (getline s).2) <= length (buf s))%nat.
Proof.
  destruct (good s) eqn:Hg; [pose proof (getline_shorter s Hg); lia|by rewrite getline_bad].
Qed.

Lemma Headers_loop_le fuel s n m r : Headers_loop fuel s n m = Some r -> (length (buf r.2) <= length (buf s))%nat.
Proof.
  revert s n m. induction fuel as [|fuel IH]; intros s n m Hr; [done|]. cbn [Headers_loop] in Hr.
  pose proof (getline_le s). destruct (getline s) as [str rest]. cbn [snd] in *.
  destruct (_ || _); [by injection Hr as <-|]. destruct (cut 58 str) as [[a b]|]; apply IH in Hr; lia.
Qed.

Lemma read_le s n : (length (buf (read s n).2) <= length (buf s))%nat.
Proof.
  unfold read. destruct (good s); [|done]. cbn [snd]. destruct (decide _); cbn [buf]; [rewrite length_drop; lia|cbn; lia].
Qed.

Lemma ReadHTTPMessage_le s p st m msg rest :
  ReadHTTPMessage s p = Some (st, m, msg, rest) -> (length (buf rest) <= length (buf s))%nat.
Proof.
  unfold ReadHTTPMessage. destruct (ReadHTTPHeaders s ∅) as [[[n m'] s']|] eqn:E; [|done]. cbn [mbind option_bind].
  apply Headers_loop_le in E. cbn [snd] in E. destruct (_ || _); [intros [=]; by subst|].
  pose proof (read_le s' (Z.to_nat n)). destruct (0 <? n); [destruct (read s' _)|]; cbn [snd] in *; intros [=]; subst; lia.
Qed.

(** A request line is not empty. *)
Lemma ReadHTTPRequestLine_lt s x rest :
  ReadHTTPRequestLine s = (Some x, rest) -> (length (buf rest) < length (buf s))%nat.
Proof.
  unfold ReadHTTPRequestLine. destruct (good s) eqn:Hg; [|by rewrite getline_bad].
  pose proof (getline_shorter s Hg). destruct (getline s) as [str rest']. cbn [fst snd] in *.
  destruct str as [|c str]; [by intros [=]|]. cbn [length] in *. intros E. injection E as _ <-. lia.
Qed.

Lemma serve_one_total stream n :
  exists o out rest n', serve_one stream n = Some (o, out, rest, n') /\
    (o = Again -> (length (buf rest) < length (buf stream))%nat).
Proof.
  unfold serve_one. destruct (ReadHTTPRequestLine stream) as [[[[p me] uri]|] s1] eqn:Er; [|by do 4 eexists].
  apply ReadHTTPRequestLine_lt in Er. destruct (ReadHTTPMessage_total s1 p) as [[[[st m] msg] s2] Em].
  rewrite Em. apply ReadHTTPMessage_le in Em. cbn [mbind option_bind].
  repeat (case_bool_decide; [by do 4 eexists|]). destruct (negb (HTTPAuthorized _ _)); [by do 4 eexists|].
  destruct (answer _ _ n) as [[[reply f]|] n'].
  - do 4 eexists. split; [done|]. intros _. lia.
  - by do 4 eexists.
Qed.

Lemma serve_total fuel stream n : (length (buf stream) < fuel)%nat -> is_Some (serve fuel stream n).
Proof.
  revert stream n. induction fuel as [|fuel IH]; intros stream n Hf; [lia|]. cbn [serve].
  destruct (serve_one_total stream n) as (o & out & rest & n' & -> & Ho). cbn [mbind option_bind].
  destruct o; [|by eexists..]. destruct (IH rest n') as [[[o' more] n''] ->]; [specialize (Ho eq_refl); lia|]. by eexists.
Qed.

Definition weight (v : Value) : nat := match v with VStr s => S (length s) | _ => 0 end.
Lemma Convert_loop_total fuel t v null : (weight v < fuel)%nat -> is_Some (Convert_loop fuel t v null).
Proof.
  revert v. induction fuel as [|fuel IH]; intros v Hf; [lia|]. cbn [Convert_loop]. destruct (null && is_null v); [by eexists|].
  destruct v as [o|a|s|b|i u|d|]; try (by eexists). destruct (read_string s) as [v2|] eqn:Er; [|by eexists].
  apply IH. destruct v2 as [| |s'| | | |]; cbn in Hf |- *; try lia.
  apply read_string_str in Er. lia.
Qed.

Lemma Convert_all_total cs m ps : is_Some (Convert_all cs m ps).
Proof.
  revert ps. induction cs as [|c cs IH]; intros ps; [by eexists|]. cbn [Convert_all].
  destruct (if bool_decide _ then _ else _) as [v|]; [|apply IH].
  destruct (Convert_loop_total (S (S (text_length v))) (conv_type c) v (conv_null c)) as [[v'|e] E];
    [destruct v; cbn; lia| |];
    unfold ConvertTo; rewrite E; cbn [mbind option_bind]; [apply IH|by eexists].
Qed.

Lemma CallRPC_total exchange m ps : is_Some (CallRPC exchange m ps).
Proof.
  unfold CallRPC. destruct (_ && _); [by eexists|]. destruct (exchange _) as [received|]; [|by eexists].
  destruct (ReadHTTPStatus (opened received) 0) as [[st p] s]. destruct (ReadHTTPMessage_total s p) as [[[[a b] c] d] ->].
  by eexists.
Qed.

(** The server ends with every connection, whatever it receives, and the client with every command line,
    whatever it is answered: the loops over request lines, headers, nested texts and arguments all end. *)
Theorem rpc_terminates stream n exchange argv :
  is_Some (ServiceConnection stream n) /\ is_Some (CommandLineRPC exchange argv).
Proof.
  split; [apply serve_total; lia|]. unfold CommandLineRPC. destruct (skip_switches argv) as [|m ps]; [by eexists|].
  unfold RPCConvertValues. destruct (Convert_all_total conversions m (VStr <$> ps)) as [[v|e] ->]; cbn [mbind option_bind]; [|by eexists].
  destruct (CallRPC_total exchange m v) as [[r|e] ->]; by eexists.
Qed.

(** ** Nobody without the password *)

(** The request at the front of the stream. *)
Definition request (stream : Stream) (uri : bytes) (m : Headers) (body : bytes) (rest : Stream) : Prop :=
  exists p me s1 st, ReadHTTPRequestLine stream = (Some (p, me, uri), s1) /\ ReadHTTPMessage s1 p = Some (st, m, body, rest).


(** ** A call is answered *)

(** What the client is sent by a server whose node is [n]. *)
Definition exchange_with (n : Node) (sent : bytes) : option bytes :=
  match ServiceConnection (opened sent) n with Some (_, out, _) => Some out | None => None end.

Definition request_object (m : bytes) (ps : Array) : Object :=
  [(lit "method", VStr m); (lit "params", VArr ps); (lit "id", vint 1)].

Definition reply_of (res : Result Value) (id : Value) : Object :=
  match res with
  | inl v => JSONRPCReplyObj v VNull id
  | inr t => JSONRPCReplyObj VNull (VObj (error_object t)) id
  end.

Definition has_code (res : Result Value) : Prop :=
  match res with inl _ => True | inr t => exists code, get_int (find_value (error_object t) (lit "code")) = inl code end.

Lemma parse_request m ps : parse (VObj (request_object m ps)) = (mkRequest (vint 1) m ps, None).
Proof. by vm_compute. Qed.

(** The answer to a request of the client. *)
Lemma answer_request text m ps n res n' fRun :
  read_string text = Some (VObj (request_object m ps)) -> execute m ps n = (res, n') -> has_code res ->
  exists nStatus f,
    nStatus ∈ [HTTP_OK; HTTP_BAD_REQUEST; HTTP_FORBIDDEN; HTTP_NOT_FOUND; HTTP_INTERNAL_SERVER_ERROR] /\
    nStatus <> HTTP_FORBIDDEN /\ (f = true -> fRun = true) /\
    answer text fRun n = (Some (HTTPReply nStatus (write_string (VObj (reply_of res (vint 1))) false ++ [10]) f, f), n').
Proof.
  intros Hr He Hc. unfold answer, parse_execute. rewrite Hr, parse_request. cbn [strMethod params id]. rewrite He.
  destruct res as [v|t].
  - exists HTTP_OK, fRun. split_and!; [left|done|done|done].
  - destruct Hc as [code Hc]. unfold ErrorReply. rewrite Hc. cbn [mbind option_bind].
    destruct (code =? RPC_INVALID_REQUEST); [|destruct (code =? RPC_METHOD_NOT_FOUND)].
    + exists HTTP_BAD_REQUEST, false. split_and!; [set_solver|discriminate|done|done].
    + exists HTTP_NOT_FOUND, false. split_and!; [set_solver|discriminate|done|done].
    + exists HTTP_INTERNAL_SERVER_ERROR, false. split_and!; [set_solver|discriminate|done|done].
Qed.

Lemma printable_no_nul s : printable s -> 0 ∉ s.
Proof. intros Hs Hin. unfold printable in Hs. rewrite Forall_forall in Hs. by apply Hs in Hin. Qed.

Lemma userpass_bytes : is_bytes rpcuser -> is_bytes rpcpassword -> is_bytes strRPCUserColonPass.
Proof. intros Hu Hp. unfold strRPCUserColonPass. rewrite !is_bytes_app. split_and!; [done| |done]. by repeat constructor. Qed.
Lemma userpass_nonempty : strRPCUserColonPass <> [].
Proof. unfold strRPCUserColonPass. by destruct rpcuser. Qed.

(** What the server does with the text the client posts. *)
Lemma serve_post text n :
  is_bytes rpcuser -> is_bytes rpcpassword -> lenZ text <= MAX_SIZE ->
  exists stream,
    serve_one (opened (HTTPPost text [auth_header strRPCUserColonPass])) n =
    match answer text false n with
    | (Some (reply, f), n') => Some (if f : bool then Again else Closed, reply, stream, n')
    | (None, n') => Some (Escaped, [], stream, n')
    end.
Proof.
  intros Hu Hp Hl. pose proof (userpass_bytes Hu Hp) as Hup.
  destruct (HTTPPost_read text [auth_header strRPCUserColonPass] []) as (s & m & Er & Em & Hco & Hh); [done|..].
  { by repeat constructor; apply auth_header_plain. }
  { apply NoDup_singleton. }
  { apply (bool_decide_unpack _). unfold auth_header, header_key. cbn [fmap list_fmap fst]. by vm_compute. }
  { apply (bool_decide_unpack _). unfold auth_header, header_key. cbn [fmap list_fmap fst]. by vm_compute. }
  rewrite app_nil_r in Er. exists (opened []). unfold serve_one. rewrite Er, Em. cbn [mbind option_bind].
  rewrite (bool_decide_eq_false_2 (lit "/" <> lit "/")) by (intros []; done).
  assert (Ha : m !! lit "authorization" = Some (trim (auth_header strRPCUserColonPass).2)).
  { rewrite <-(Hh (auth_header strRPCUserColonPass)) by left. done. }
  rewrite (bool_decide_eq_false_2 (m !! lit "authorization" = None)) by (by rewrite Ha).
  rewrite (HTTPAuthorized_header strRPCUserColonPass) by (done || apply userpass_nonempty).
  rewrite bool_decide_eq_true_2 by done. cbn [negb]. rewrite Hco. cbn [default from_option].
  rewrite (bool_decide_eq_true_2 (lit "close" = lit "close")) by done. cbn [negb].
  by destruct (answer text false n) as [[[reply f]|] n'].
Qed.


(** ** The table and the errors *)

#[local] Instance CRPCCommand_eq_dec : EqDecision CRPCCommand.
Proof. solve_decision. Defined.

(** The sorted map holds the table, under pairwise different names. *)
Lemma table_lookup_table c : c ∈ vRPCCommands -> table_lookup (name c) = Some c.
Proof.
  assert (K : Forall (fun c => table_lookup (name c) = Some c) vRPCCommands) by (apply (bool_decide_unpack _); by vm_compute).
  rewrite Forall_forall in K. apply K.
Qed.
Lemma find_command_in m s c : find_command m s = Some c -> c ∈ m /\ name c = s.
Proof.
  induction m as [|d m IH]; [done|]. cbn [find_command]. case_bool_decide; [intros [= <-]; split; [left|done]|].
  intros [Hin Hn]%IH. split; [by right|done].
Qed.
Lemma table_lookup_in s c : table_lookup s = Some c -> c ∈ vRPCCommands /\ name c = s.
Proof.
  intros [Hin Hn]%find_command_in. split; [|done]. revert Hin.
  assert (K : Forall (fun c => c ∈ vRPCCommands) mapCommands) by (apply (bool_decide_unpack _); by vm_compute).
  rewrite Forall_forall in K. apply K.
Qed.

Definition safe_mode (n : Node) : bool := bool_decide (GetWarnings n <> []) && negb disablesafemode.

Definition misc_error (res : Result Value) : Result Value :=
  match res with inr (TStd what) => inr (TObj (JSONRPCError RPC_MISC_ERROR what)) | _ => res end.

(** The errors of [execute]: a method that is not in the table, and in safe mode one that is not allowed, leave the
    node as it was; every other method of the table runs its own function, once, and an exception of it becomes
    a JSON error.  No other kind of exception leaves [execute]. *)
Theorem execute_cases m ps n :
  (Forall (fun c => name c <> m) vRPCCommands ->
     execute m ps n = (inr (TObj (JSONRPCError RPC_METHOD_NOT_FOUND (lit "Method not found"))), n)) /\
  (forall c, c ∈ vRPCCommands -> name c = m ->
     execute m ps n =
     if safe_mode n && negb (okSafeMode c) then
       (inr (TObj (JSONRPCError RPC_FORBIDDEN_BY_SAFE_MODE (lit "Safe mode: " ++ GetWarnings n))), n)
     else (misc_error (actor_run (actor c) ps n).1, (actor_run (actor c) ps n).2)) /\
  (forall what, (execute m ps n).1 <> inr (TStd what)).
Proof.
  assert (Hsafe : forall c, bool_decide (GetWarnings n <> []) && negb disablesafemode && negb (okSafeMode c)
                            = safe_mode n && negb (okSafeMode c)) by done.
  split_and!.
  - intros Hno. unfold execute. destruct (table_lookup m) as [c|] eqn:E; [|done].
    apply table_lookup_in in E as [Hc Hn]. rewrite Forall_forall in Hno. by apply Hno in Hc.
  - intros c Hc <-. unfold execute. rewrite table_lookup_table by done. rewrite Hsafe.
    destruct (safe_mode n && _); [done|]. by destruct (actor_run (actor c) ps n).
  - intros what. unfold execute. destruct (table_lookup m) as [c|]; [|done]. rewrite Hsafe.
    destruct (safe_mode n && _); [done|]. destruct (actor_run (actor c) ps n) as [[v|[o|w]] n']; done.
Qed.

(** ** Batches *)

Lemma JSONRPCExecOne_id req n : find_value (JSONRPCExecOne req n).1 (lit "id") = id (parse req).1.
Proof.
  unfold JSONRPCExecOne, parse_execute. destruct (parse req) as [jreq [t|]]; [by vm_compute|].
  destruct (execute (strMethod jreq) (params jreq) n) as [[v|t] n']; by vm_compute.
Qed.

Lemma exec_all_app pre post n :
  exec_all (pre ++ post) n =
  ((exec_all pre n).1 ++ (exec_all post (exec_all pre n).2).1, (exec_all post (exec_all pre n).2).2).
Proof.
  revert n. induction pre as [|req pre IH]; intros n; cbn [app exec_all].
  - cbn [fst snd]. by destruct (exec_all post n).
  - destruct (JSONRPCExecOne req n) as [o n1]. rewrite IH. destruct (exec_all pre n1) as [ret n2]. cbn [fst snd app].
    by destruct (exec_all post n2).
Qed.
Lemma exec_all_length vReq n : length (exec_all vReq n).1 = length vReq.
Proof.
  revert n. induction vReq as [|req vReq IH]; intros n; [done|]. cbn [exec_all].
  destruct (JSONRPCExecOne req n) as [o n1]. specialize (IH n1). destruct (exec_all vReq n1). cbn in *. by rewrite IH.
Qed.

(** A batch is answered request by request, in its order: reply [i] is that of request [i] on the node the requests
    before it have left, with the id of that request; an error in one does not keep the others from running. *)
Theorem Batch_in_order vReq n i req :
  vReq !! i = Some req ->
  let before := (exec_all (take i vReq) n).2 in
  exists o, (exec_all vReq n).1 !! i = Some (VObj o) /\ o = (JSONRPCExecOne req before).1 /\
    find_value o (lit "id") = id (parse req).1 /\ length (exec_all vReq n).1 = length vReq /\
    (exec_all (take (S i) vReq) n).2 = (JSONRPCExecOne req before).2.
Proof.
  intros Hi before. exists (JSONRPCExecOne req before).1. pose proof (lookup_lt_Some _ _ _ Hi).
  split_and!; [|done|apply JSONRPCExecOne_id|apply exec_all_length|].
  - rewrite <-(take_drop_middle vReq i req Hi) at 1. rewrite exec_all_app. cbn [fst].
    rewrite lookup_app_r by (rewrite exec_all_length, length_take; lia).
    rewrite exec_all_length, length_take, Nat.min_l, Nat.sub_diag by lia. fold before. cbn [exec_all].
    destruct (JSONRPCExecOne req before) as [o n1]. by destruct (exec_all (drop (S i) vReq) n1).
  - rewrite (take_S_r _ _ req Hi), exec_all_app. cbn [snd]. fold before. cbn [exec_all].
    by destruct (JSONRPCExecOne req before).
Qed.
End Rpc.

(** ** A node with one counter *)

Definition http0 : HttpWorld.
Proof.
  refine {| FormatFullVersion := lit "v0.8.0.0"; rfc1123Time := lit "Thu, 01 Jan 1970 00:00:00 +0000";
            MAX_SIZE := 2 ^ 25 |}; [done|by apply no_line; vm_compute|by apply no_line; vm_compute].
Defined.

Definition text0 : bytes := JSONRPCRequest (lit "getblockcount") [] (vint 1).
Definition reply0 : Object := reply_of (inl (vint 5)) (vint 1).
Definition sent0 : bytes := write_string (VObj reply0) false ++ [10].

Definition rpc0 : RpcWorld.
Proof.
  refine {| Node := Z;
            command pfn _ _ n := if bool_decide (pfn = lit "getblockcount") then (inl (vint n), n)
                                 else (inr (TStd (lit "failed")), n + 1);
            GetWarnings n := if n =? 0 then lit "Warning" else [];
            StartShutdown n := -1;
            read_string s := if bool_decide (s = text0) then Some (VObj (request_object (lit "getblockcount") []))
                             else if bool_decide (s = sent0) then Some (VObj reply0) else None;
            disablesafemode := false; rpcuser := lit "user"; rpcpassword := lit "pass"; rpcallowip := [];
            message_no_password := lit "no password"; IsSwitchChar c := c =? 45 |}.
  intros s t. case_bool_decide; [by intros [=]|]. case_bool_decide; by intros [=].
Defined.



Lemma Batch_in_order_witness :
  exists o, (@exec_all rpc0 [VNull; VObj (request_object (lit "getblockcount") [])] 5).1 !! 1%nat = Some (VObj o).
Proof.
  destruct (@Batch_in_order rpc0 [VNull; VObj (request_object (lit "getblockcount") [])] 5 1
              (VObj (request_object (lit "getblockcount") [])) eq_refl) as (o & E & _). by exists o.
Defined.

Lemma execute_cases_witness :
  @execute rpc0 (lit "sendtoaddress") [] 0 =
    (inr (TObj (JSONRPCError RPC_FORBIDDEN_BY_SAFE_MODE (lit "Safe mode: Warning"))), 0).
Proof.
  destruct (@execute_cases rpc0 (lit "sendtoaddress") [] 0) as (_ & E & _).
  rewrite (E (cmd "sendtoaddress" false false)); [done|by do 18 right; left|done].
Defined.
