(* ===== verification/KeyPool.v ===== *)
(** The pool of keys of the wallet: src/wallet.cpp, [GenerateNewKey], [AddKeyPubKey], [NewKeyPool]
    to [GetOldestKeyPoolTime], [GetAllReserveKeys], [SetDefaultKey] and the operations of [CReserveKey].

    The wallet keeps the numbers of the keys in the pool, the records behind the numbers are in the
    data base.  A [CReserveKey] is an object that holds a number; [Holder] names the objects.  Its
    destructor, in wallet.h, calls [ReturnKey].

    wallet.h, walletdb.h and keystore.cpp are not in the tree.  Parameters (class [KeyWorld]): the
    keys OpenSSL makes, the hash of a key, the time, the options, and whether the n-th write to the
    data base succeeds.  The record of the wallet version ([SetMinVersion]) is left out. *)

From S2P Require Import Prelude Monad Key.

Record CKeyPool := mkKeyPool { kp_nTime : Z; kp_vchPubKey : CPubKey }.
Record CReserveKey := mkReserve { rk_nIndex : Z; rk_vchPubKey : CPubKey }.

Class KeyWorld := {
  Hash160 : bytes -> Z;
  GetTime : Z;
  MakeNewKey : nat -> CPubKey;
  disk : nat -> bool;
  fFileBacked : bool;
  keypool_arg : Z;
  no_key : CPubKey;
  no_key_invalid : CPubKey.IsValid no_key = false;
  MakeNewKey_valid i : CPubKey.IsValid (MakeNewKey i) = true;
  MakeNewKey_fresh i j : CPubKey.GetID Hash160 (MakeNewKey i) = CPubKey.GetID Hash160 (MakeNewKey j) -> i = j;
}.

Abbreviation Holder := Z.

(** [keys_made] and [writes] count the keys OpenSSL made and the writes to the data base;
    [setKeyPool] is in ascending order. *)
Record Wallet := mkWallet {
  setKeyPool : list Z;
  pool_db : gmap Z CKeyPool;
  mapKeys : gset Z;
  fCrypted : bool;
  fLocked : bool;
  vchDefaultKey : CPubKey;
  nTimeFirstKey : Z;
  holders : gmap Holder CReserveKey;
  keys_made : nat;
  writes : nat }.

Definition set_pool p s := mkWallet p (pool_db s) (mapKeys s) (fCrypted s) (fLocked s) (vchDefaultKey s) (nTimeFirstKey s) (holders s) (keys_made s) (writes s).
Definition set_db d s := mkWallet (setKeyPool s) d (mapKeys s) (fCrypted s) (fLocked s) (vchDefaultKey s) (nTimeFirstKey s) (holders s) (keys_made s) (writes s).
Definition set_keys k s := mkWallet (setKeyPool s) (pool_db s) k (fCrypted s) (fLocked s) (vchDefaultKey s) (nTimeFirstKey s) (holders s) (keys_made s) (writes s).
Definition set_default k s := mkWallet (setKeyPool s) (pool_db s) (mapKeys s) (fCrypted s) (fLocked s) k (nTimeFirstKey s) (holders s) (keys_made s) (writes s).
Definition set_first t s := mkWallet (setKeyPool s) (pool_db s) (mapKeys s) (fCrypted s) (fLocked s) (vchDefaultKey s) t (holders s) (keys_made s) (writes s).
Definition set_holders h s := mkWallet (setKeyPool s) (pool_db s) (mapKeys s) (fCrypted s) (fLocked s) (vchDefaultKey s) (nTimeFirstKey s) h (keys_made s) (writes s).
Definition set_made n s := mkWallet (setKeyPool s) (pool_db s) (mapKeys s) (fCrypted s) (fLocked s) (vchDefaultKey s) (nTimeFirstKey s) (holders s) n (writes s).
Definition set_writes n s := mkWallet (setKeyPool s) (pool_db s) (mapKeys s) (fCrypted s) (fLocked s) (vchDefaultKey s) (nTimeFirstKey s) (holders s) (keys_made s) n.

(** [std::set::insert] on the ascending list. *)
Fixpoint set_insert (n : Z) (l : list Z) : list Z :=
  match l with
  | [] => [n]
  | x :: r => if n <? x then n :: l else if n =? x then l else x :: set_insert n r
  end.

Section Wallet.
Context `{KeyWorld}.

Abbreviation W := (X Wallet).
Definition GetID : CPubKey -> Z := CPubKey.GetID Hash160.
Definition upd (f : Wallet -> Wallet) : W unit := X.modify f.
Definition rd {A} (f : Wallet -> A) : W A := X.gets f.

(** ** The data base and the key store *)

Definition write (f : Wallet -> Wallet) : W bool :=
  n <~ rd writes ;; upd (set_writes (S n)) ;~
  if disk n then upd f ;~ X.ret true else X.ret false.

Definition WritePool (n : Z) (keypool : CKeyPool) : W bool := write (fun s => set_db (<[n := keypool]> (pool_db s)) s).
Definition ErasePool (n : Z) : W bool := write (fun s => set_db (base.delete n (pool_db s)) s).
Definition ReadPool (n : Z) : W (option CKeyPool) := rd (fun s => pool_db s !! n).
Definition HaveKey (id : Z) : W bool := rd (fun s => bool_decide (id ∈ mapKeys s)).

Definition AddKeyPubKey (pubkey : CPubKey) (nCreateTime : Z) : W bool :=
  let nCreateTime := if nCreateTime =? 0 then GetTime else nCreateTime in
  nFirst <~ rd nTimeFirstKey ;;
  (if (nFirst =? 0) || (nCreateTime <? nFirst) then upd (set_first nCreateTime) else X.ret tt) ;~
  upd (fun s => set_keys ({[GetID pubkey]} ∪ mapKeys s) s) ;~
  if negb fFileBacked then X.ret true
  else fCrypted <~ rd fCrypted ;; if negb fCrypted then write (fun s => s) else X.ret true.

Definition GenerateNewKey : W CPubKey :=
  i <~ rd keys_made ;; upd (set_made (S i)) ;~
  let pubkey := MakeNewKey i in
  ok <~ AddKeyPubKey pubkey 0 ;;
  if negb ok then X.throw else X.ret pubkey.

Definition SetDefaultKey (vchPubKey : CPubKey) : W bool :=
  ok <~ (if fFileBacked then write (fun s => s) else X.ret true) ;;
  if negb ok then X.ret false else upd (set_default vchPubKey) ;~ X.ret true.

(** ** The pool *)

Fixpoint make_pool (nKeys : nat) (i : Z) : W unit :=
  match nKeys with
  | O => X.ret tt
  | S nKeys' =>
    let nIndex := i + 1 in
    k <~ GenerateNewKey ;; ok <~ WritePool nIndex (mkKeyPool GetTime k) ;;
    upd (fun s => set_pool (set_insert nIndex (setKeyPool s)) s) ;~ make_pool nKeys' (i + 1)
  end.

Definition NewKeyPool : W bool :=
  pool <~ rd setKeyPool ;; X.each (fun nIndex => ok <~ ErasePool nIndex ;; X.ret tt) pool ;~
  upd (set_pool []) ;~
  fLocked <~ rd fLocked ;;
  if (fLocked : bool) then X.ret false
  else make_pool (Z.to_nat (Z.max keypool_arg 0)) 0 ;~ X.ret true.

(** [*(--setKeyPool.end())]. *)
Definition set_last (l : list Z) : option Z := list.last l.

(** Each round adds a number; so many rounds as there are keys missing, and one to see it. *)
Fixpoint TopUp_loop (fuel : nat) (nLimit : Z) : W unit :=
  match fuel with
  | O => X.lift None
  | S fuel' =>
    pool <~ rd setKeyPool ;;
    if lenZ pool <? nLimit then
      let nEnd := match set_last pool with Some n => n + 1 | None => 1 end in
      k <~ GenerateNewKey ;; ok <~ WritePool nEnd (mkKeyPool GetTime k) ;;
      if negb ok then X.throw
      else upd (fun s => set_pool (set_insert nEnd (setKeyPool s)) s) ;~ TopUp_loop fuel' nLimit
    else X.ret tt
  end.

(** [nTargetSize] is unsigned, and so is the sum with 1. *)
Definition pool_limit : Z := u32 (u32 (Z.max keypool_arg 0) + 1).

Definition TopUpKeyPool : W bool :=
  fLocked <~ rd fLocked ;;
  if (fLocked : bool) then X.ret false
  else
    pool <~ rd setKeyPool ;;
    TopUp_loop (S (Z.to_nat (pool_limit - lenZ pool))) pool_limit ;~ X.ret true.

(** [nIndex] is a reference; [assign] is the assignment to it.  The result is the number and the
    record ([CKeyPool()] has no key). *)
Definition ReserveKeyFromKeyPool (assign : Z -> W unit) : W (Z * CKeyPool) :=
  assign (-1) ;~
  fLocked <~ rd fLocked ;;
  (if negb fLocked then TopUpKeyPool else X.ret false) ;~
  pool <~ rd setKeyPool ;;
  match pool with
  | [] => X.ret (-1, mkKeyPool 0 no_key)
  | nIndex :: rest =>
    assign nIndex ;~ upd (set_pool rest) ;~
    keypool <~ ReadPool nIndex ;;
    match keypool with
    | None => X.throw
    | Some keypool =>
      have <~ HaveKey (GetID (kp_vchPubKey keypool)) ;;
      if negb have then X.throw
      else if negb (CPubKey.IsValid (kp_vchPubKey keypool)) then X.lift None
      else X.ret (nIndex, keypool)
    end
  end.

(** The predecessor of the end of an empty set is undefined. *)
Definition AddReserveKey (keypool : CKeyPool) : W Z :=
  pool <~ rd setKeyPool ;; n <~ X.lift (set_last pool) ;;
  let nIndex := 1 + n in
  ok <~ WritePool nIndex keypool ;;
  if negb ok then X.throw else upd (fun s => set_pool (set_insert nIndex (setKeyPool s)) s) ;~ X.ret nIndex.

Definition KeepKey (nIndex : Z) : W unit :=
  if fFileBacked then ok <~ ErasePool nIndex ;; X.ret tt else X.ret tt.

Definition ReturnKey (nIndex : Z) : W unit := upd (fun s => set_pool (set_insert nIndex (setKeyPool s)) s).

Definition GetKeyFromPool (fAllowReuse : bool) : W (option CPubKey) :=
  x <~ ReserveKeyFromKeyPool (fun _ => X.ret tt) ;;
  if x.1 =? -1 then
    k <~ rd vchDefaultKey ;;
    if fAllowReuse && CPubKey.IsValid k then X.ret (Some k)
    else
      fLocked <~ rd fLocked ;;
      if (fLocked : bool) then X.ret None else k <~ GenerateNewKey ;; X.ret (Some k)
  else KeepKey x.1 ;~ X.ret (Some (kp_vchPubKey x.2)).

Definition GetOldestKeyPoolTime : W Z :=
  x <~ ReserveKeyFromKeyPool (fun _ => X.ret tt) ;;
  if x.1 =? -1 then X.ret GetTime else ReturnKey x.1 ;~ X.ret (kp_nTime x.2).

Fixpoint all_keys (pool : list Z) (setAddress : gset Z) : W (gset Z) :=
  match pool with
  | [] => X.ret setAddress
  | id :: r =>
    keypool <~ ReadPool id ;;
    match keypool with
    | None => X.throw
    | Some keypool =>
      if negb (CPubKey.IsValid (kp_vchPubKey keypool)) then X.lift None
      else
        have <~ HaveKey (GetID (kp_vchPubKey keypool)) ;;
        if negb have then X.throw else all_keys r ({[GetID (kp_vchPubKey keypool)]} ∪ setAddress)
    end
  end.

Definition GetAllReserveKeys : W (gset Z) := pool <~ rd setKeyPool ;; all_keys pool ∅.

(** ** Objects that reserve a key *)

Definition holder_at (s : Wallet) (o : Holder) : CReserveKey := default (mkReserve (-1) no_key) (holders s !! o).
Definition set_holder (o : Holder) (r : CReserveKey) : W unit := upd (fun s => set_holders (<[o := r]> (holders s)) s).

Definition GetReservedKey (o : Holder) : W (option CPubKey) :=
  r <~ rd (fun s => holder_at s o) ;;
  ok <~ (if rk_nIndex r =? -1 then
           x <~ ReserveKeyFromKeyPool (fun n => set_holder o (mkReserve n (rk_vchPubKey r))) ;;
           if negb (x.1 =? -1) then set_holder o (mkReserve x.1 (kp_vchPubKey x.2)) ;~ X.ret true
           else
             k <~ rd vchDefaultKey ;;
             if CPubKey.IsValid k then set_holder o (mkReserve (-1) k) ;~ X.ret true else X.ret false
         else X.ret true) ;;
  if negb ok then X.ret None
  else
    r <~ rd (fun s => holder_at s o) ;;
    if negb (CPubKey.IsValid (rk_vchPubKey r)) then X.lift None else X.ret (Some (rk_vchPubKey r)).

Definition Reserve_KeepKey (o : Holder) : W unit :=
  r <~ rd (fun s => holder_at s o) ;;
  (if negb (rk_nIndex r =? -1) then KeepKey (rk_nIndex r) else X.ret tt) ;~
  set_holder o (mkReserve (-1) no_key).

Definition Reserve_ReturnKey (o : Holder) : W unit :=
  r <~ rd (fun s => holder_at s o) ;;
  (if negb (rk_nIndex r =? -1) then ReturnKey (rk_nIndex r) else X.ret tt) ;~
  set_holder o (mkReserve (-1) no_key).

End Wallet.
