(* ===== verification/KeyPoolThms.v ===== *)
(** What KeyPool.v guarantees: with an unlocked wallet and at least one key to keep in the pool, no
    operation fails, no key is used twice, and no two objects hold the same key - and what happens
    with -keypool=0. *)

From S2P Require Import Prelude Monad Digits Key KeyPool.

(** ** Ascending sets *)

Lemma set_insert_elem n l x : x ∈ set_insert n l <-> x = n \/ x ∈ l.
Proof.
  induction l as [|y l IH]; cbn [set_insert]; [by rewrite list_elem_of_singleton, elem_of_nil; tauto|].
  destruct (Z.ltb_spec n y); [by rewrite elem_of_cons|]. destruct (Z.eqb_spec n y) as [->|]; rewrite !elem_of_cons, ?IH; tauto.
Qed.

Lemma set_insert_sorted n l : StronglySorted Z.lt l -> StronglySorted Z.lt (set_insert n l).
Proof.
  induction 1 as [|y l Hs IH Hy]; cbn [set_insert]; [by repeat constructor|].
  destruct (Z.ltb_spec n y).
  { constructor; [by constructor|]. constructor; [done|]. eapply Forall_impl; [exact Hy|]. cbn. lia. }
  destruct (Z.eqb_spec n y); [by constructor|]. constructor; [done|]. apply Forall_forall. intros x [->|Hx]%set_insert_elem; [lia|].
  rewrite Forall_forall in Hy. auto.
Qed.

Lemma set_insert_last n l : Forall (fun x => x < n) l -> set_insert n l = l ++ [n].
Proof.
  induction 1 as [|y l Hy _ IH]; [done|]. cbn [set_insert]. destruct (Z.ltb_spec n y); [lia|]. destruct (Z.eqb_spec n y); [lia|]. by rewrite IH.
Qed.

Lemma sorted_last l m x : StronglySorted Z.lt l -> list.last l = Some m -> x ∈ l -> x <= m.
Proof.
  intros Hs. revert x. induction Hs as [|y l Hs IH Hy]; intros x; [done|]. destruct l as [|z l].
  - intros [= ->]. rewrite list_elem_of_singleton. lia.
  - change (list.last (y :: z :: l)) with (list.last (z :: l)). intros Hm [->|Hx]%elem_of_cons; [|auto].
    apply Forall_cons in Hy as [Hy _]. specialize (IH z Hm ltac:(by left)). lia.
Qed.

Lemma last_elem (l : list Z) m : list.last l = Some m -> m ∈ l.
Proof. apply list.last_Some_elem_of. Qed.

Lemma sorted_tail_lt x l : StronglySorted Z.lt (x :: l) -> x ∉ l /\ forall m, m ∈ l -> x < m.
Proof.
  intros [Hs Hf]%StronglySorted_inv. rewrite Forall_forall in Hf. split; [|done]. intros Hx%Hf. lia.
Qed.

(** ** The state of the pool *)

Section Pool.
Context `{KeyWorld}.

Definition held (s : Wallet) (o : Holder) (n : Z) : Prop := rk_nIndex (holder_at s o) = n /\ n <> -1.
Definition live (s : Wallet) (n : Z) : Prop := n ∈ setKeyPool s \/ exists o, held s o n.
Definition key_at (s : Wallet) (n : Z) (k : CPubKey) : Prop := exists t, pool_db s !! n = Some (mkKeyPool t k).
Definition made (s : Wallet) (k : CPubKey) : Prop := exists i, (i < keys_made s)%nat /\ k = MakeNewKey i.

(** [used]: the keys given out for good.  Every number in the pool or held has its own key in the
    data base, a key of the key store that is not used; an object holds the key of its number; and
    there is a number in the pool beyond every number held. *)
Record consistent (s : Wallet) (used : list CPubKey) : Prop := {
  c_sorted : StronglySorted Z.lt (setKeyPool s);
  c_pos n : live s n -> 0 < n;
  c_unlocked : fLocked s = false;
  c_live n : live s n -> exists k, key_at s n k /\ made s k /\ GetID k ∈ mapKeys s /\ k ∉ used;
  c_inj n m k : live s n -> live s m -> key_at s n k -> key_at s m k -> n = m;
  c_held o n : held s o n -> n ∉ setKeyPool s /\ (exists m, m ∈ setKeyPool s /\ n < m) /\ key_at s n (rk_vchPubKey (holder_at s o));
  c_held_inj o o' n : held s o n -> held s o' n -> o = o';
  c_used : NoDup used /\ Forall (made s) used }.

Lemma made_valid s k : made s k -> CPubKey.IsValid k = true.
Proof. intros (i & _ & ->). apply MakeNewKey_valid. Qed.

Lemma key_at_fun s n k k' : key_at s n k -> key_at s n k' -> k = k'.
Proof. intros [t Hk] [t' Hk']. rewrite Hk in Hk'. by injection Hk'. Qed.

(** What the state of the pool depends on. *)
Definition same_pool (s s' : Wallet) : Prop :=
  setKeyPool s' = setKeyPool s /\ pool_db s' = pool_db s /\ mapKeys s' = mapKeys s /\ fLocked s' = fLocked s /\
  holders s' = holders s /\ keys_made s' = keys_made s.

Lemma consistent_same s s' used : same_pool s s' -> consistent s used -> consistent s' used.
Proof.
  destruct s, s'. unfold same_pool. cbn. intros (-> & -> & -> & -> & -> & ->) [].
  constructor; assumption.
Qed.

Lemma same_pool_trans s1 s2 s3 : same_pool s1 s2 -> same_pool s2 s3 -> same_pool s1 s3.
Proof. unfold same_pool. intros (? & ? & ? & ? & ? & ?) (? & ? & ? & ? & ? & ?). repeat split; congruence. Qed.

Context (disk_ok : forall n, disk n = true).

Lemma wp_write f (Q : bool -> Wallet -> Prop) s : Q true (f (set_writes (S (writes s)) s)) -> X.wp (write f) Q s.
Proof.
  intros HQ. unfold write. apply X.wpx_bind, X.wpx_gets, X.wpx_bind, X.wpx_modify. rewrite disk_ok. by apply X.wpx_bind, X.wpx_modify, X.wpx_ret.
Qed.

(** A new key in the key store. *)
Definition key_added (s s' : Wallet) : Prop :=
  setKeyPool s' = setKeyPool s /\ pool_db s' = pool_db s /\ mapKeys s' = {[GetID (MakeNewKey (keys_made s))]} ∪ mapKeys s /\
  fLocked s' = fLocked s /\ holders s' = holders s /\ keys_made s' = S (keys_made s).

Lemma wp_Generate (Q : CPubKey -> Wallet -> Prop) s :
  (forall s', key_added s s' -> Q (MakeNewKey (keys_made s)) s') -> X.wp GenerateNewKey Q s.
Proof.
  intros HQ. unfold GenerateNewKey, AddKeyPubKey, rd, upd. apply X.wpx_bind, X.wpx_gets, X.wpx_bind, X.wpx_modify, X.wpx_bind.
  apply X.wpx_bind, X.wpx_gets, X.wpx_bind.
  set (s1 := set_made (S (keys_made s)) s). 
  assert (Hfirst : forall (b : bool) Q', (forall t, Q' tt (set_first t s1)) -> X.wp (if b then X.modify (set_first (if 0 =? 0 then GetTime else 0)) else X.ret tt) Q' s1).
  { intros b Q' H'. destruct b; [apply X.wpx_modify, H'|]. apply X.wpx_ret. by apply (H' (nTimeFirstKey s1)). }
  apply Hfirst. intros t. apply X.wpx_bind, X.wpx_modify.
  assert (Hret : forall s', key_added s s' -> X.wp (if negb true then X.throw else X.ret (MakeNewKey (keys_made s))) Q s') by (intros s' Hs'; by apply X.wpx_ret, HQ).
  destruct fFileBacked; cbn [negb]; [|by apply X.wpx_ret, Hret].
  apply X.wpx_bind, X.wpx_gets. match goal with |- context [fCrypted ?x] => destruct (fCrypted x) end; cbn [negb].
  - by apply X.wpx_ret, Hret.
  - by apply wp_write, Hret.
Qed.

(** ** Changes of the pool *)

(** A new key under a number beyond all others. *)
Definition extended (s s' : Wallet) (m : Z) : Prop :=
  setKeyPool s' = set_insert m (setKeyPool s) /\ pool_db s' = <[m := mkKeyPool GetTime (MakeNewKey (keys_made s))]> (pool_db s) /\
  mapKeys s' = {[GetID (MakeNewKey (keys_made s))]} ∪ mapKeys s /\ fLocked s' = fLocked s /\ holders s' = holders s /\
  keys_made s' = S (keys_made s).

Lemma extend_consistent s s' used m :
  consistent s used -> extended s s' m -> 0 < m -> (forall n, live s n -> n < m) -> consistent s' used.
Proof.
  intros [Hs Hp Hu Hl Hi Hh Hhi [Hd Hm]] (Ep & Ed & Ek & El & Eh & En) Hm0 Hlt.
  assert (Ehold : forall o, holder_at s' o = holder_at s o) by (intros o; unfold holder_at; by rewrite Eh).
  assert (Eheld : forall o n, held s' o n <-> held s o n) by (intros o n; unfold held; by rewrite Ehold).
  assert (Elive : forall n, live s' n <-> n = m \/ live s n).
  { intros n. unfold live. rewrite Ep, set_insert_elem. setoid_rewrite Eheld. tauto. }
  assert (Hm' : ~ live s m) by (intros Hm'%Hlt; lia).
  assert (Hkey : forall n k, live s n -> key_at s' n k <-> key_at s n k).
  { intros n k Hn. unfold key_at. rewrite Ed, lookup_insert_ne by (intros <-; done). done. }
  assert (Hnew : key_at s' m (MakeNewKey (keys_made s))) by (exists GetTime; by rewrite Ed, lookup_insert_eq).
  assert (Hmade : forall k, made s k -> made s' k) by (intros k (i & Hi' & ->); exists i; rewrite En; split; [lia|done]).
  assert (Hfresh : forall k, made s k -> k <> MakeNewKey (keys_made s)).
  { intros k (i & Hi' & ->) E. apply (f_equal GetID) in E. apply MakeNewKey_fresh in E. lia. }
  constructor.
  - rewrite Ep. by apply set_insert_sorted.
  - intros n [->|Hn]%Elive; auto.
  - by rewrite El.
  - intros n [->|Hn]%Elive.
    + exists (MakeNewKey (keys_made s)). split; [done|]. split; [exists (keys_made s); rewrite En; split; [lia|done]|].
      split; [rewrite Ek; set_solver|]. intros Hin. rewrite Forall_forall in Hm. by apply (Hfresh _ (Hm _ Hin)).
    + destruct (Hl n Hn) as (k & H1 & H2 & H3 & H4). exists k. split; [by apply Hkey|]. split; [auto|]. split; [rewrite Ek; set_solver|done].
  - intros n n' k [->|Hn]%Elive [->|Hn']%Elive; [done| | |].
    + intros H1 H2. rewrite Hkey in H2 by done. destruct (Hl _ Hn') as (k' & H3 & H4 & _). pose proof (key_at_fun _ _ _ _ H1 Hnew).
      pose proof (key_at_fun _ _ _ _ H2 H3). subst. by destruct (Hfresh _ H4).
    + intros H2 H1. rewrite Hkey in H2 by done. destruct (Hl _ Hn) as (k' & H3 & H4 & _). pose proof (key_at_fun _ _ _ _ H1 Hnew).
      pose proof (key_at_fun _ _ _ _ H2 H3). subst. by destruct (Hfresh _ H4).
    + rewrite !Hkey by done. by apply Hi.
  - intros o n Hn%Eheld. destruct (Hh _ _ Hn) as (H1 & (x & Hx & Hxl) & H3). assert (live s n) by (right; eauto). rewrite Ehold, Ep. split; [|split].
    + rewrite set_insert_elem. intros [->|?]; [done|auto].
    + exists x. rewrite set_insert_elem. auto.
    + by apply Hkey.
  - intros o o' n H1%Eheld H2%Eheld. eauto.
  - split; [done|]. eapply Forall_impl; [exact Hm|auto].
Qed.

(** Numbers move between the pool and the objects, or go with their key. *)
Lemma consistent_move s s' used gone :
  consistent s used -> StronglySorted Z.lt (setKeyPool s') ->
  (forall n, live s' n -> live s n /\ pool_db s' !! n = pool_db s !! n /\ forall k, key_at s n k -> k ∉ gone) ->
  fLocked s' = fLocked s -> mapKeys s' = mapKeys s -> keys_made s' = keys_made s ->
  (forall o n, held s' o n -> n ∉ setKeyPool s' /\ (exists m, m ∈ setKeyPool s' /\ n < m) /\ key_at s n (rk_vchPubKey (holder_at s' o))) ->
  (forall o o' n, held s' o n -> held s' o' n -> o = o') ->
  NoDup (used ++ gone) -> Forall (made s) gone -> consistent s' (used ++ gone).
Proof.
  intros [Hs Hp Hu Hl Hi Hh Hhi [Hd Hm]] Hs' Hlive El Ek En Hheld Hinj Hdup Hgone.
  assert (Hkey : forall n k, live s' n -> key_at s' n k <-> key_at s n k).
  { intros n k (_ & E & _)%Hlive. unfold key_at. by rewrite E. }
  assert (Hmade : forall k, made s' k <-> made s k) by (intros k; unfold made; by rewrite En).
  constructor.
  - done.
  - intros n (Hn & _)%Hlive. auto.
  - by rewrite El.
  - intros n Hn. destruct (Hlive n Hn) as (Hn' & _ & Hg). destruct (Hl n Hn') as (k & H1 & H2 & H3 & H4).
    exists k. split; [by apply Hkey|]. split; [by apply Hmade|]. rewrite Ek, not_elem_of_app. auto.
  - intros n m k Hn Hm'. rewrite !Hkey by done. destruct (Hlive n Hn) as [? _]. destruct (Hlive m Hm') as [? _]. by apply Hi.
  - intros o n Hn. destruct (Hheld o n Hn) as (H1 & H2 & H3). rewrite Hkey by (right; eauto). auto.
  - done.
  - split; [done|]. rewrite Forall_app. split; (eapply Forall_impl; [eassumption|]); intros k; apply Hmade.
Qed.

Lemma consistent_last s used m : consistent s used -> list.last (setKeyPool s) = Some m -> 0 < m /\ forall n, live s n -> n < m + 1.
Proof.
  intros Hc Hm. pose proof (last_elem _ _ Hm) as Hin. split; [apply (c_pos _ _ Hc); by left|].
  assert (Hle : forall n, n ∈ setKeyPool s -> n <= m) by (intros n; by apply sorted_last; [apply (c_sorted _ _ Hc)|]).
  intros n [Hn%Hle|(o & Ho)]; [lia|]. destruct (c_held _ _ Hc _ _ Ho) as (_ & (x & Hx%Hle & Hlt) & _). lia.
Qed.

Lemma consistent_empty s used n : consistent s used -> setKeyPool s = [] -> ~ live s n.
Proof.
  intros Hc E [Hn|(o & Ho)]; [by rewrite E, elem_of_nil in Hn|].
  destruct (c_held _ _ Hc _ _ Ho) as (_ & (x & Hx & _) & _). by rewrite E, elem_of_nil in Hx.
Qed.

Lemma next_number s used (nEnd := match set_last (setKeyPool s) with Some n => n + 1 | None => 1 end) :
  consistent s used -> 0 < nEnd /\ forall n, live s n -> n < nEnd.
Proof.
  intros Hc. unfold nEnd, set_last. destruct (list.last (setKeyPool s)) as [m|] eqn:E.
  - destruct (consistent_last _ _ _ Hc E). split; [lia|done].
  - apply last_None in E. split; [lia|]. intros n Hn. by destruct (consistent_empty _ _ _ Hc E Hn).
Qed.

(** [TopUpKeyPool] fills the pool; the objects keep their numbers. *)
Lemma TopUp_loop_spec fuel nLimit s used :
  consistent s used -> (Z.to_nat (nLimit - lenZ (setKeyPool s)) < fuel)%nat ->
  X.wp (TopUp_loop fuel nLimit) (fun _ s' => consistent s' used /\ nLimit <= lenZ (setKeyPool s') /\ holders s' = holders s) s.
Proof.
  revert s. induction fuel as [|fuel IH]; intros s Hc Hf; [lia|]. cbn [TopUp_loop]. unfold rd. apply X.wpx_bind, X.wpx_gets.
  destruct (Z.ltb_spec (lenZ (setKeyPool s)) nLimit); [|by apply X.wpx_ret].
  destruct (next_number s used Hc) as [Hpos Hlt]. set (nEnd := match set_last (setKeyPool s) with Some n => n + 1 | None => 1 end) in *.
  apply X.wpx_bind, wp_Generate. intros s1 (E1 & E2 & E3 & E4 & E5 & E6). apply X.wpx_bind. unfold WritePool. apply wp_write. cbn [negb].
  apply X.wpx_bind. unfold upd. apply X.wpx_modify.
  match goal with |- X.wp _ _ ?x => set (s2 := x) end.
  assert (Hext : extended s s2 nEnd).
  { unfold s2. repeat split; cbn; [by rewrite E1|by rewrite E2|done|done|done|done]. }
  assert (Hc2 : consistent s2 used) by (eapply extend_consistent; eauto).
  assert (Hlen : lenZ (setKeyPool s2) = lenZ (setKeyPool s) + 1).
  { destruct Hext as [-> _]. rewrite set_insert_last; [rewrite lenZ_app; done|]. apply Forall_forall. intros x Hx. apply Hlt. by left. }
  eapply X.wpx_mono; [apply (IH s2 Hc2); lia|]. cbv beta. intros _ s' (H1 & H2 & H3). split; [done|]. split; [done|].
  rewrite H3. by destruct Hext as (_ & _ & _ & _ & -> & _).
Qed.

Context (enough : 1 <= keypool_arg < 2 ^ 32 - 1).

Lemma pool_limit_2 : 2 <= pool_limit.
Proof. unfold pool_limit. rewrite (wrapu_small 32 (Z.max _ _)), wrapu_small by (unfold in_u; lia). lia. Qed.

Lemma TopUp_spec s used :
  consistent s used ->
  X.wp TopUpKeyPool (fun b s' => b = true /\ consistent s' used /\ 2 <= lenZ (setKeyPool s') /\ holders s' = holders s) s.
Proof.
  intros Hc. unfold TopUpKeyPool, rd. apply X.wpx_bind, X.wpx_gets. rewrite (c_unlocked _ _ Hc). apply X.wpx_bind, X.wpx_gets, X.wpx_bind.
  eapply X.wpx_mono; [apply TopUp_loop_spec; [exact Hc|lia]|]. cbv beta. intros _ s' (H1 & H2 & H3). apply X.wpx_ret.
  pose proof pool_limit_2. split; [done|]. split; [done|]. split; [lia|done].
Qed.

(** What [ReserveKeyFromKeyPool] finds: the smallest number of a pool with another number. *)
Record taken (s1 : Wallet) (used : list CPubKey) (n : Z) (rest : list Z) (keypool : CKeyPool) : Prop := {
  t_consistent : consistent s1 used;
  t_pool : setKeyPool s1 = n :: rest;
  t_more : rest <> [];
  t_record : pool_db s1 !! n = Some keypool }.

(** [assign] only writes to the objects. *)
Lemma Reserve_spec (assign : Z -> X Wallet unit) (g : Z -> Wallet -> Wallet) s used (Q : Z * CKeyPool -> Wallet -> Prop) :
  (forall n s (R : unit -> Wallet -> Prop), R tt (g n s) -> X.wp (assign n) R s) ->
  (forall n s, exists h, g n s = set_holders h s) ->
  consistent (g (-1) s) used ->
  (forall s1 n rest keypool, taken s1 used n rest keypool -> holders s1 = holders (g (-1) s) ->
     Q (n, keypool) (set_pool rest (g n s1))) ->
  X.wp (ReserveKeyFromKeyPool assign) Q s.
Proof.
  intros Hassign Hg Hc HQ. unfold ReserveKeyFromKeyPool, rd. apply X.wpx_bind, Hassign. apply X.wpx_bind, X.wpx_gets.
  rewrite (c_unlocked _ _ Hc). cbn [negb]. apply X.wpx_bind. eapply X.wpx_mono; [apply TopUp_spec, Hc|]. cbv beta.
  intros _ s1 (_ & Hc1 & Hlen & Hh). apply X.wpx_bind, X.wpx_gets.
  destruct (setKeyPool s1) as [|n rest] eqn:Ep; [by cbn in Hlen|].
  assert (Hrest : rest <> []) by (intros ->; rewrite lenZ_cons, lenZ_nil in Hlen; lia).
  assert (Hn : live s1 n) by (left; rewrite Ep; by left). destruct (c_live _ _ Hc1 n Hn) as (k & (t & Ht) & Hmade & Hhave & _).
  apply X.wpx_bind, Hassign, X.wpx_bind. unfold upd. apply X.wpx_modify, X.wpx_bind. unfold ReadPool, rd. apply X.wpx_gets.
  destruct (Hg n s1) as [h Eg]. rewrite Eg in *. cbn [set_pool set_holders pool_db]. rewrite Ht. cbn [kp_vchPubKey].
  unfold HaveKey, rd. apply X.wpx_bind, X.wpx_gets. cbn [set_pool set_holders mapKeys]. rewrite bool_decide_true by done. cbn [negb].
  rewrite (made_valid _ _ Hmade). cbn [negb]. apply X.wpx_ret. rewrite <-Eg. apply HQ; [|done]. by constructor.
Qed.

(** ** The operations *)

Definition frame (s s' : Wallet) : Prop := fLocked s' = fLocked s /\ mapKeys s' = mapKeys s /\ keys_made s' = keys_made s.

Definition now_holds (s s' : Wallet) (o : Holder) (r : CReserveKey) : Prop :=
  forall o', holder_at s' o' = if decide (o' = o) then r else holder_at s o'.

Lemma now_holds_set s o r : now_holds s (set_holders (<[o := r]> (holders s)) s) o r.
Proof.
  intros o'. unfold holder_at. cbn [holders set_holders]. case_decide as E; [subst; by rewrite lookup_insert_eq|by rewrite lookup_insert_ne].
Qed.

(** An object that holds nothing is given anything but a number. *)
Lemma idle_consistent s s' used o r :
  consistent s used -> rk_nIndex (holder_at s o) = -1 -> rk_nIndex r = -1 ->
  setKeyPool s' = setKeyPool s -> pool_db s' = pool_db s -> frame s s' -> now_holds s s' o r -> consistent s' used.
Proof.
  intros Hc Ho Hr Ep Ed (El & Ek & En) Hh.
  assert (Hheld : forall o' n, held s' o' n -> held s o' n /\ holder_at s' o' = holder_at s o').
  { intros o' n [E Hn]. rewrite Hh in E. case_decide as D; [congruence|]. split; [done|]. rewrite Hh. by rewrite decide_False. }
  rewrite <-(app_nil_r used). apply (consistent_move s); rewrite ?Ep, ?Ed; try done; try apply Hc.
  - intros n [Hn|(o' & Ho')]; [rewrite Ep in Hn; split; [by left|split; [done|intros; apply not_elem_of_nil]]|].
    split; [right; exists o'; by apply Hheld|split; [done|intros; apply not_elem_of_nil]].
  - intros o' n Hn. destruct (Hheld _ _ Hn) as [Hn' ->]. by apply (c_held _ _ Hc).
  - intros o1 o2 n H1 H2. apply Hheld in H1 as [H1 _]. apply Hheld in H2 as [H2 _]. by apply (c_held_inj _ _ Hc _ _ n).
  - rewrite app_nil_r. apply (c_used _ _ Hc).
Qed.

Lemma take_consistent s1 s' used n rest keypool o :
  taken s1 used n rest keypool -> rk_nIndex (holder_at s1 o) = -1 -> setKeyPool s' = rest -> pool_db s' = pool_db s1 ->
  frame s1 s' -> now_holds s1 s' o (mkReserve n (kp_vchPubKey keypool)) -> consistent s' used.
Proof.
  intros [Hc Ep Hm Hr] Ho Ep' Ed (El & Ek & En) Hh.
  pose proof (c_sorted _ _ Hc) as Hs. rewrite Ep in Hs. destruct (sorted_tail_lt _ _ Hs) as [Hnin Hlt].
  assert (Hheld : forall o' m, held s' o' m -> (o' = o /\ m = n) \/ (o' <> o /\ held s1 o' m /\ holder_at s' o' = holder_at s1 o')).
  { intros o' m [E Hm']. rewrite Hh in E. case_decide as D; [left; by subst|right]. split; [done|]. split; [done|]. by rewrite Hh, decide_False. }
  assert (Hn : live s1 n) by (left; rewrite Ep; by left).
  rewrite <-(app_nil_r used). apply (consistent_move s1); rewrite ?Ep', ?Ed; try done.
  - by apply StronglySorted_inv in Hs as [? _].
  - intros m Hm'. split; [|split; [done|intros; apply not_elem_of_nil]]. destruct Hm' as [Hm'|(o' & Ho')].
    + left. rewrite Ep, Ep' in *. by right.
    + destruct (Hheld _ _ Ho') as [[_ ->]|(_ & H1 & _)]; [done|right; eauto].
  - intros o' m Hm'. destruct (Hheld _ _ Hm') as [[-> ->]|(_ & H1 & ->)].
    + split; [done|]. split; [|rewrite Hh, decide_True by done; cbn; destruct keypool as [t k]; by exists t].
      destruct rest as [|x rest']; [done|]. exists x. split; [by left|apply Hlt; by left].
    + destruct (c_held _ _ Hc _ _ H1) as (H2 & (x & Hx & Hlx) & H4). rewrite Ep, not_elem_of_cons in H2. split; [tauto|]. split; [|done].
      rewrite Ep, elem_of_cons in Hx. destruct Hx as [->|Hx]; [|eauto]. destruct rest as [|y rest']; [done|]. exists y. split; [by left|].
      specialize (Hlt y ltac:(by left)). lia.
  - intros o1 o2 m H1 H2. destruct (Hheld _ _ H1) as [[-> ->]|(_ & H1' & _)], (Hheld _ _ H2) as [[-> E]|(_ & H2' & _)]; [done| | |].
    + destruct (c_held _ _ Hc _ _ H2') as [Hx _]. rewrite Ep, not_elem_of_cons in Hx. tauto.
    + subst m. destruct (c_held _ _ Hc _ _ H1') as [Hx _]. rewrite Ep, not_elem_of_cons in Hx. tauto.
    + by apply (c_held_inj _ _ Hc _ _ m).
  - rewrite app_nil_r. apply (c_used _ _ Hc).
Qed.

(** The key of a number that is neither in the pool nor held any more is used. *)
Lemma used_once s used n k : consistent s used -> live s n -> key_at s n k ->
  NoDup (used ++ [k]) /\ Forall (made s) [k] /\ forall m k', live s m -> m <> n -> key_at s m k' -> k' ∉ [k].
Proof.
  intros Hc Hn Hk. destruct (c_live _ _ Hc n Hn) as (k' & Hk' & Hm & _ & Hu). rewrite (key_at_fun _ _ _ _ Hk Hk') in *.
  split; [|split].
  - apply NoDup_app. split; [apply (c_used _ _ Hc)|]. split; [|apply NoDup_singleton]. intros x Hx ->%list_elem_of_singleton. done.
  - by apply Forall_singleton.
  - intros m k2 Hm' Hne Hk2 ->%list_elem_of_singleton. by apply Hne, (c_inj _ _ Hc _ _ k').
Qed.

Lemma give_consistent s1 s' used n rest keypool :
  taken s1 used n rest keypool -> setKeyPool s' = rest -> (forall m, m <> n -> pool_db s' !! m = pool_db s1 !! m) ->
  frame s1 s' -> holders s' = holders s1 -> consistent s' (used ++ [kp_vchPubKey keypool]).
Proof.
  intros [Hc Ep Hm Hr] Ep' Ed (El & Ek & En) Eh.
  pose proof (c_sorted _ _ Hc) as Hs. rewrite Ep in Hs. destruct (sorted_tail_lt _ _ Hs) as [Hnin Hlt].
  assert (Ehold : forall o, holder_at s' o = holder_at s1 o) by (intros o; unfold holder_at; by rewrite Eh).
  assert (Hkn : key_at s1 n (kp_vchPubKey keypool)) by (destruct keypool as [t k]; by exists t).
  destruct (used_once s1 used n _ Hc ltac:(left; rewrite Ep; by left) Hkn) as (H1 & H2 & H3).
  assert (Hlive : forall m, live s' m -> live s1 m /\ m <> n).
  { intros m [Hx|(o & Ho)].
    - rewrite Ep' in Hx. split; [left; rewrite Ep; by right|]. by intros ->.
    - unfold held in Ho. rewrite Ehold in Ho. split; [right; by exists o|]. intros ->.
      destruct (c_held _ _ Hc o n Ho) as [Hx _]. rewrite Ep, not_elem_of_cons in Hx. tauto. }
  apply (consistent_move s1); rewrite ?Ep'; try done.
  - by apply StronglySorted_inv in Hs as [? _].
  - intros m Hm'. destruct (Hlive m Hm') as [Hx Hne]. split; [done|]. split; [auto|]. intros k'. by apply H3.
  - intros o m Ho. unfold held in Ho. rewrite Ehold in Ho |- *. destruct (c_held _ _ Hc o m Ho) as (Hx & (y & Hy & Hly) & Hk).
    rewrite Ep, not_elem_of_cons in Hx. split; [tauto|]. split; [|done]. rewrite Ep, elem_of_cons in Hy. destruct Hy as [->|Hy]; [|eauto].
    destruct rest as [|z rest']; [done|]. exists z. split; [by left|]. specialize (Hlt z ltac:(by left)). lia.
  - intros o o' m. unfold held. rewrite !Ehold. apply (c_held_inj _ _ Hc).
Qed.

Lemma keep_consistent s s' used o n r :
  consistent s used -> held s o n -> rk_nIndex r = -1 -> setKeyPool s' = setKeyPool s ->
  (forall m, m <> n -> pool_db s' !! m = pool_db s !! m) -> frame s s' -> now_holds s s' o r ->
  consistent s' (used ++ [rk_vchPubKey (holder_at s o)]).
Proof.
  intros Hc Ho Hr Ep Ed (El & Ek & En) Hh. destruct (c_held _ _ Hc o n Ho) as (Hnin & Hmore & Hkn).
  destruct (used_once s used n _ Hc ltac:(right; eauto) Hkn) as (H1 & H2 & H3).
  assert (Hheld : forall o' m, held s' o' m -> o' <> o /\ held s o' m /\ holder_at s' o' = holder_at s o').
  { intros o' m [E Hm']. rewrite Hh in E. case_decide as D; [congruence|]. split; [done|]. split; [done|]. by rewrite Hh, decide_False. }
  apply (consistent_move s); rewrite ?Ep; try done; try apply Hc.
  - intros m Hm. assert (Hlm : live s m /\ m <> n).
    { destruct Hm as [Hm|(o' & Ho')]; [rewrite Ep in Hm; split; [by left|by intros ->]|].
      destruct (Hheld _ _ Ho') as (Hne & Hx & _). split; [right; eauto|]. intros ->. by apply Hne, (c_held_inj _ _ Hc _ _ n). }
    destruct Hlm as [Hx Hne]. split; [done|]. split; [auto|]. intros k'. by apply H3.
  - intros o' m Hm. destruct (Hheld _ _ Hm) as (_ & Hx & ->). by apply (c_held _ _ Hc).
  - intros o1 o2 m Hx Hy. apply Hheld in Hx as (_ & Hx & _). apply Hheld in Hy as (_ & Hy & _). by apply (c_held_inj _ _ Hc _ _ m).
Qed.

Lemma return_consistent s s' used o n r :
  consistent s used -> held s o n -> rk_nIndex r = -1 -> setKeyPool s' = set_insert n (setKeyPool s) ->
  pool_db s' = pool_db s -> frame s s' -> now_holds s s' o r -> consistent s' used.
Proof.
  intros Hc Ho Hr Ep Ed (El & Ek & En) Hh. destruct (c_held _ _ Hc o n Ho) as (Hnin & Hmore & Hkn).
  assert (Hheld : forall o' m, held s' o' m -> o' <> o /\ held s o' m /\ holder_at s' o' = holder_at s o').
  { intros o' m [E Hm']. rewrite Hh in E. case_decide as D; [congruence|]. split; [done|]. split; [done|]. by rewrite Hh, decide_False. }
  rewrite <-(app_nil_r used). apply (consistent_move s); rewrite ?Ep, ?Ed; try done.
  - apply set_insert_sorted, Hc.
  - intros m Hm. split; [|split; [done|intros; apply not_elem_of_nil]].
    destruct Hm as [Hm|(o' & Ho')]; [|right; exists o'; by apply Hheld].
    rewrite Ep, set_insert_elem in Hm. destruct Hm as [->|Hm]; [right; eauto|by left].
  - intros o' m Hm. destruct (Hheld _ _ Hm) as (Hne & Hx & ->). destruct (c_held _ _ Hc _ _ Hx) as (H1 & (y & Hy & Hly) & H3).
    rewrite set_insert_elem. split; [|split; [exists y; rewrite set_insert_elem; auto|done]].
    intros [->|?]; [|done]. by apply Hne, (c_held_inj _ _ Hc _ _ n).
  - intros o1 o2 m Hx Hy. apply Hheld in Hx as (_ & Hx & _). apply Hheld in Hy as (_ & Hy & _). by apply (c_held_inj _ _ Hc _ _ m).
  - rewrite app_nil_r. apply (c_used _ _ Hc).
Qed.

Lemma GetReservedKey_spec o s used :
  consistent s used ->
  X.wp (GetReservedKey o) (fun r s' => consistent s' used /\ r = Some (rk_vchPubKey (holder_at s' o)) /\ exists n, held s' o n) s.
Proof.
  intros Hc. unfold GetReservedKey, rd. apply X.wpx_bind, X.wpx_gets, X.wpx_bind.
  assert (Hret : forall s' n, consistent s' used -> held s' o n ->
    X.wp (if negb true then X.ret None else X.bind (X.gets (fun s => holder_at s o)) (fun r => if negb (CPubKey.IsValid (rk_vchPubKey r)) then X.lift None else X.ret (Some (rk_vchPubKey r))))
      (fun r s' => consistent s' used /\ r = Some (rk_vchPubKey (holder_at s' o)) /\ exists n, held s' o n) s').
  { intros s' n Hc' Hn. cbn [negb]. apply X.wpx_bind, X.wpx_gets. destruct (c_held _ _ Hc' _ _ Hn) as (_ & _ & Hk).
    destruct (c_live _ _ Hc' n ltac:(right; eauto)) as (k & Hk' & Hm & _). rewrite <-(key_at_fun _ _ _ _ Hk Hk') in Hm.
    rewrite (made_valid _ _ Hm). apply X.wpx_ret. split; [done|]. eauto. }
  destruct (Z.eqb_spec (rk_nIndex (holder_at s o)) (-1)) as [Ho|Ho]; [|apply X.wpx_ret; by apply (Hret s (rk_nIndex (holder_at s o)))].
  set (v := rk_vchPubKey (holder_at s o)). apply X.wpx_bind.
  apply (Reserve_spec _ (fun n s => set_holders (<[o := mkReserve n v]> (holders s)) s) s used).
  - intros n s1 R HR. by apply X.wpx_modify.
  - intros n s1. by eexists.
  - apply (idle_consistent s _ used o (mkReserve (-1) v)); try done. apply now_holds_set.
  - intros s1 n rest keypool Ht Hh. cbn [fst snd].
    assert (Hn : live s1 n) by (left; rewrite (t_pool _ _ _ _ _ Ht); by left). pose proof (c_pos _ _ (t_consistent _ _ _ _ _ Ht) n Hn) as Hpos.
    destruct (Z.eqb_spec n (-1)); [lia|]. cbn [negb]. apply X.wpx_bind, X.wpx_modify, X.wpx_ret.
    assert (Ho1 : rk_nIndex (holder_at s1 o) = -1).
    { unfold holder_at. rewrite Hh. cbn [set_holders holders]. by rewrite lookup_insert_eq. }
    match goal with |- X.wp _ _ ?x => set (s' := x) end.
    assert (Hs' : now_holds s1 s' o (mkReserve n (kp_vchPubKey keypool))).
    { intros o'. unfold s', holder_at. cbn [set_pool set_holders holders]. rewrite insert_insert_eq. case_decide as D; [subst; by rewrite lookup_insert_eq|by rewrite lookup_insert_ne]. }
    apply (Hret s' n).
    + by apply (take_consistent s1 s' used n rest keypool o).
    + unfold held. rewrite Hs', decide_True by done. cbn. lia.
Qed.

Lemma wp_KeepKey n (Q : unit -> Wallet -> Prop) s :
  (forall s', setKeyPool s' = setKeyPool s -> (forall m, m <> n -> pool_db s' !! m = pool_db s !! m) -> frame s s' ->
    holders s' = holders s -> Q tt s') -> X.wp (KeepKey n) Q s.
Proof.
  intros HQ. unfold KeepKey. destruct fFileBacked; [|by apply X.wpx_ret, HQ]. unfold ErasePool. apply X.wpx_bind, wp_write, X.wpx_ret.
  apply HQ; [done| |done|done]. intros m Hm. cbn. by rewrite lookup_delete_ne.
Qed.

Lemma Reserve_KeepKey_spec o s used :
  consistent s used ->
  X.wp (Reserve_KeepKey o) (fun _ s' => consistent s' (used ++ if rk_nIndex (holder_at s o) =? -1 then [] else [rk_vchPubKey (holder_at s o)])) s.
Proof.
  intros Hc. unfold Reserve_KeepKey, rd. apply X.wpx_bind, X.wpx_gets, X.wpx_bind.
  destruct (Z.eqb_spec (rk_nIndex (holder_at s o)) (-1)) as [Ho|Ho]; cbn [negb].
  - rewrite app_nil_r. apply X.wpx_ret, X.wpx_modify. apply (idle_consistent s _ used o (mkReserve (-1) no_key)); try done. apply now_holds_set.
  - apply wp_KeepKey. intros s1 Ep Ed (El & Ek & En) Eh. apply X.wpx_modify.
    apply (keep_consistent s _ used o (rk_nIndex (holder_at s o)) (mkReserve (-1) no_key)); try done.
    intros o'. unfold holder_at at 1. cbn. rewrite Eh. case_decide as D; [subst; by rewrite lookup_insert_eq|by rewrite lookup_insert_ne].
Qed.

Lemma Reserve_ReturnKey_spec o s used :
  consistent s used -> X.wp (Reserve_ReturnKey o) (fun _ s' => consistent s' used /\ rk_nIndex (holder_at s' o) = -1) s.
Proof.
  intros Hc. unfold Reserve_ReturnKey, rd. apply X.wpx_bind, X.wpx_gets, X.wpx_bind.
  destruct (Z.eqb_spec (rk_nIndex (holder_at s o)) (-1)) as [Ho|Ho]; cbn [negb].
  - apply X.wpx_ret, X.wpx_modify. pose proof (now_holds_set s o (mkReserve (-1) no_key)) as Hn. split.
    + by apply (idle_consistent s _ used o (mkReserve (-1) no_key)).
    + by rewrite Hn, decide_True.
  - apply X.wpx_modify, X.wpx_modify. pose proof (now_holds_set (set_pool (set_insert (rk_nIndex (holder_at s o)) (setKeyPool s)) s) o (mkReserve (-1) no_key)) as Hn.
    split; [by apply (return_consistent s _ used o (rk_nIndex (holder_at s o)) (mkReserve (-1) no_key))|]. by rewrite Hn, decide_True.
Qed.

(** The assignment to a local variable. *)
Lemma Reserve_local s used (Q : Z * CKeyPool -> Wallet -> Prop) :
  consistent s used ->
  (forall s1 n rest keypool, taken s1 used n rest keypool -> Q (n, keypool) (set_pool rest s1)) ->
  X.wp (ReserveKeyFromKeyPool (fun _ => X.ret tt)) Q s.
Proof.
  intros Hc HQ. apply (Reserve_spec _ (fun _ s => s) s used); [by intros; apply X.wpx_ret| |done|by intros; apply HQ].
  intros n [? ? ? ? ? ? ? h ? ?]. by exists h.
Qed.

Lemma GetKeyFromPool_spec b s used :
  consistent s used -> X.wp (GetKeyFromPool b) (fun r s' => exists k, r = Some k /\ consistent s' (used ++ [k])) s.
Proof.
  intros Hc. unfold GetKeyFromPool. apply X.wpx_bind, (Reserve_local _ used); [done|]. intros s1 n rest keypool Ht. cbn [fst snd].
  assert (Hn : live s1 n) by (left; rewrite (t_pool _ _ _ _ _ Ht); by left). pose proof (c_pos _ _ (t_consistent _ _ _ _ _ Ht) n Hn) as Hpos.
  destruct (Z.eqb_spec n (-1)); [lia|]. apply X.wpx_bind, wp_KeepKey. intros s2 Ep Ed Hf Eh. apply X.wpx_ret. eexists. split; [done|].
  by apply (give_consistent s1 s2 used n rest keypool).
Qed.

Lemma GetOldestKeyPoolTime_spec s used : consistent s used -> X.wp GetOldestKeyPoolTime (fun _ s' => consistent s' used) s.
Proof.
  intros Hc. unfold GetOldestKeyPoolTime. apply X.wpx_bind, (Reserve_local _ used); [done|]. intros s1 n rest keypool Ht. cbn [fst snd].
  pose proof (t_pool _ _ _ _ _ Ht) as Ep. assert (Hn : live s1 n) by (left; rewrite Ep; by left).
  pose proof (c_pos _ _ (t_consistent _ _ _ _ _ Ht) n Hn) as Hpos. destruct (Z.eqb_spec n (-1)); [lia|].
  apply X.wpx_bind, X.wpx_modify, X.wpx_ret. apply (consistent_same s1); [|apply Ht]. repeat split. cbn.
  pose proof (c_sorted _ _ (t_consistent _ _ _ _ _ Ht)) as Hs. rewrite Ep in Hs |- *. apply StronglySorted_inv in Hs as [_ Hlt].
  destruct rest as [|x rest]; [done|]. cbn [set_insert]. apply Forall_inv in Hlt. by destruct (Z.ltb_spec n x); [|lia].
Qed.

Lemma all_keys_spec pool acc s used :
  consistent s used -> (forall n, n ∈ pool -> n ∈ setKeyPool s) ->
  X.wp (all_keys pool acc) (fun ids s' => s' = s /\ forall id, id ∈ ids <-> id ∈ acc \/ exists n k, n ∈ pool /\ key_at s n k /\ id = GetID k) s.
Proof.
  intros Hc. revert acc. induction pool as [|n pool IH]; intros acc Hin; cbn [all_keys].
  { apply X.wpx_ret. split; [done|]. intros id. split; [by left|]. intros [?|(n & k & Hn & _)]; [done|by apply elem_of_nil in Hn]. }
  destruct (c_live _ _ Hc n ltac:(left; apply Hin; by left)) as (k & (t & Ht) & Hm & Hhave & _).
  unfold ReadPool, rd. apply X.wpx_bind, X.wpx_gets. rewrite Ht. cbn [kp_vchPubKey]. rewrite (made_valid _ _ Hm). cbn [negb].
  unfold HaveKey, rd. apply X.wpx_bind, X.wpx_gets. rewrite bool_decide_true by done. cbn [negb].
  eapply X.wpx_mono; [apply IH; intros m Hm'; apply Hin; by right|]. cbv beta. intros ids s' [-> Hids]. split; [done|]. intros id. rewrite Hids.
  rewrite elem_of_union, elem_of_singleton. split.
  - intros [[->|?]|(m & k' & H1 & H2 & H3)]; [right; exists n, k; split; [by left|]; split; [by exists t|done]|by left|right; exists m, k'; split; [by right|done]].
  - intros [?|(m & k' & [->|H1]%elem_of_cons & H2 & H3)]; [auto| |right; eauto]. left. left. rewrite H3. f_equal. apply (key_at_fun s n); [done|by exists t].
Qed.

(** ** Runs *)

Inductive Op := Get (o : Holder) | Keep (o : Holder) | Return_ (o : Holder) | FromPool (fAllowReuse : bool) | TopUp | OldestTime | AllKeys.

(** The keys an operation gives out for good: the key that is kept, the key that was asked for. *)
Definition exec (op : Op) : X Wallet (list CPubKey) :=
  match op with
  | Get o => GetReservedKey o ;~ X.ret []
  | Keep o => r <~ X.gets (fun s => holder_at s o) ;; Reserve_KeepKey o ;~ X.ret (if rk_nIndex r =? -1 then [] else [rk_vchPubKey r])
  | Return_ o => Reserve_ReturnKey o ;~ X.ret []
  | FromPool b => k <~ GetKeyFromPool b ;; X.ret (match k with Some k => [k] | None => [] end)
  | TopUp => TopUpKeyPool ;~ X.ret []
  | OldestTime => GetOldestKeyPoolTime ;~ X.ret []
  | AllKeys => GetAllReserveKeys ;~ X.ret []
  end.

Fixpoint run (ops : list Op) : X Wallet (list CPubKey) :=
  match ops with
  | [] => X.ret []
  | op :: r => l <~ exec op ;; l' <~ run r ;; X.ret (l ++ l')
  end.

Lemma exec_consistent op s used : consistent s used -> X.wp (exec op) (fun l s' => consistent s' (used ++ l)) s.
Proof.
  intros Hc. destruct op as [o|o|o|b| | |]; cbn [exec].
  - apply X.wpx_bind. eapply X.wpx_mono; [by apply GetReservedKey_spec|]. intros r s' (H1 & _). apply X.wpx_ret. by rewrite app_nil_r.
  - apply X.wpx_bind, X.wpx_gets, X.wpx_bind. eapply X.wpx_mono; [by apply Reserve_KeepKey_spec|]. intros u s' H1. by apply X.wpx_ret.
  - apply X.wpx_bind. eapply X.wpx_mono; [by apply Reserve_ReturnKey_spec|]. intros u s' [H1 _]. apply X.wpx_ret. by rewrite app_nil_r.
  - apply X.wpx_bind. eapply X.wpx_mono; [by apply GetKeyFromPool_spec|]. intros r s' (k & -> & H1). by apply X.wpx_ret.
  - apply X.wpx_bind. eapply X.wpx_mono; [by apply (TopUp_spec _ used)|]. intros u s' (_ & H1 & _). apply X.wpx_ret. by rewrite app_nil_r.
  - apply X.wpx_bind. eapply X.wpx_mono; [by apply GetOldestKeyPoolTime_spec|]. intros u s' H1. apply X.wpx_ret. by rewrite app_nil_r.
  - apply X.wpx_bind. unfold GetAllReserveKeys. apply X.wpx_bind, X.wpx_gets. eapply X.wpx_mono; [by apply (all_keys_spec _ _ _ used)|].
    intros u s' [-> _]. apply X.wpx_ret. by rewrite app_nil_r.
Qed.

Lemma run_consistent ops s used : consistent s used -> X.wp (run ops) (fun l s' => consistent s' (used ++ l)) s.
Proof.
  revert s used. induction ops as [|op ops IH]; intros s used Hc; cbn [run]; [apply X.wpx_ret; by rewrite app_nil_r|].
  apply X.wpx_bind. eapply X.wpx_mono; [by apply exec_consistent|]. intros l s1 Hc1. apply X.wpx_bind.
  eapply X.wpx_mono; [apply (IH s1 (used ++ l) Hc1)|]. intros l' s2 Hc2. apply X.wpx_ret. cbv beta in *. by rewrite (assoc_L (++)).
Qed.

(** [NewKeyPool] throws the numbers away; it is for a time at which nobody holds one. *)
Lemma erase_all pool s :
  X.wp (X.each (fun nIndex => X.bind (ErasePool nIndex) (fun _ => X.ret tt)) pool)
    (fun _ s' => frame s s' /\ holders s' = holders s) s.
Proof.
  revert s. induction pool as [|n pool IH]; intros s; cbn [X.each]; [by apply X.wpx_ret|].
  apply X.wpx_bind, X.wpx_bind. unfold ErasePool. apply wp_write, X.wpx_ret. eapply X.wpx_mono; [apply IH|].
  intros u s' ((H1 & H2 & H3) & H4). by repeat split.
Qed.

Lemma make_pool_spec nKeys i s used :
  consistent s used -> 0 <= i -> (forall n, live s n -> n <= i) -> X.wp (make_pool nKeys i) (fun _ s' => consistent s' used) s.
Proof.
  revert i s. induction nKeys as [|nKeys IH]; intros i s Hc Hi Hle; cbn [make_pool]; [by apply X.wpx_ret|].
  apply X.wpx_bind, wp_Generate. intros s1 (E1 & E2 & E3 & E4 & E5 & E6). apply X.wpx_bind. unfold WritePool. apply wp_write, X.wpx_bind, X.wpx_modify.
  match goal with |- X.wp _ _ ?x => set (s2 := x) end.
  assert (Hext : extended s s2 (i + 1)) by (unfold s2; repeat split; cbn; [by rewrite E1|by rewrite E2|done|done|done|done]).
  apply IH; [eapply extend_consistent; [exact Hc|exact Hext|lia|]; intros n Hn%Hle; lia|lia|].
  intros n [Hn|(o & Ho)].
  - rewrite (proj1 Hext), set_insert_elem in Hn. destruct Hn as [->|Hn]; [lia|]. specialize (Hle n ltac:(by left)). lia.
  - assert (held s o n). { unfold held, holder_at in *. destruct Hext as (_ & _ & _ & _ & Eh & _). by rewrite Eh in Ho. }
    specialize (Hle n ltac:(right; eauto)). lia.
Qed.

Lemma NewKeyPool_spec s used :
  consistent s used -> (forall o, rk_nIndex (holder_at s o) = -1) -> X.wp NewKeyPool (fun b s' => b = true /\ consistent s' used) s.
Proof.
  intros Hc Hnone. unfold NewKeyPool, rd. apply X.wpx_bind, X.wpx_gets, X.wpx_bind. eapply X.wpx_mono; [apply erase_all|].
  intros u s1 ((El & Ek & En) & Eh). apply X.wpx_bind, X.wpx_modify, X.wpx_bind, X.wpx_gets. cbn [fLocked set_pool].
  rewrite El, (c_unlocked _ _ Hc). apply X.wpx_bind.
  assert (Hlive : forall n, ~ live (set_pool [] s1) n).
  { intros n [Hn|(o & Ho & Hn)]; [by apply elem_of_nil in Hn|]. unfold holder_at in Ho. cbn in Ho. rewrite Eh in Ho. fold (holder_at s o) in Ho. by rewrite Hnone in Ho. }
  assert (Hc1 : consistent (set_pool [] s1) used).
  { rewrite <-(app_nil_r used). apply (consistent_move s); try done.
    - constructor.
    - intros n Hn. by apply Hlive in Hn.
    - intros o n Ho. destruct (Hlive n). right. by exists o.
    - intros o o' n Ho. destruct (Hlive n). right. by exists o.
    - rewrite app_nil_r. apply (c_used _ _ Hc). }
  eapply X.wpx_mono; [apply (make_pool_spec _ 0 _ used Hc1); [lia|intros n Hn; by apply Hlive in Hn]|]. intros v s2 Hc2. by apply X.wpx_ret.
Qed.


End Pool.

Definition fresh_wallet : Wallet := mkWallet [] ∅ ∅ false false (mkPub []) 0 ∅ 0 0.

Lemma fresh_consistent `{KeyWorld} : consistent fresh_wallet [].
Proof.
  assert (Hh : forall o n, ~ held fresh_wallet o n) by (intros o n [E Hn]; unfold holder_at in E; cbn [holders fresh_wallet] in E; rewrite lookup_empty in E; cbn in E; congruence).
  assert (Hl : forall n, ~ live fresh_wallet n) by (intros n [Hn|(o & Ho)]; [by apply elem_of_nil in Hn|by apply Hh in Ho]).
  constructor; try done.
  - constructor.
  - intros n Hn. by apply Hl in Hn.
  - intros n Hn. by apply Hl in Hn.
  - intros n m k Hn. by apply Hl in Hn.
  - intros o n Hn. by apply Hh in Hn.
  - intros o o' n Hn. by apply Hh in Hn.
  - split; [apply NoDup_nil_2|constructor].
Qed.

(** ** Examples *)

Module Examples.

(** The i-th key is the byte 2 and the number i, which is its hash too; n keys are kept in the pool. *)
#[export] Instance world (n : Z) : KeyWorld.
Proof.
  refine {| Hash160 b := b.[1]; GetTime := 1000; MakeNewKey i := mkPub [2; Z.of_nat i];
            disk _ := true; fFileBacked := true; keypool_arg := n; no_key := mkPub [255] |}; [done|done|].
  intros i j E. assert (E2 : Z.of_nat i = Z.of_nat j) by exact E. lia.
Defined.

Lemma fresh_2 : @consistent (world 2) fresh_wallet [].
Proof. apply fresh_consistent. Qed.


(** With -keypool=0 the pool is empty between two calls, and the next number is 1 again: two objects
    hold the number 1, the record of the first is overwritten; once the first key is kept and
    the second returned, the number is in the pool without a record, and every later call throws. *)
Lemma keypool_0 :
  exists s, @run (world 0) [Get 1; Get 2; Keep 1; Return_ 2] fresh_wallet = (Done [mkPub [2; 0]], s) /\
  setKeyPool s = [1] /\ pool_db s = ∅ /\
  (@GetReservedKey (world 0) 3 s).1 = Thrown /\
  (@Reserve_ReturnKey (world 0) 3 (@GetReservedKey (world 0) 3 s).2).2 = set_holders (<[3 := mkReserve (-1) (mkPub [255])]> (holders s)) s.
Proof. eexists. split; [by vm_compute|]. split_and!; by vm_compute. Qed.

End Examples.
