(* ===== verification/Crypt.v ===== *)
(** Encryption of the wallet: src/crypter.h, src/crypter.cpp, the members of src/keystore.h that are written there, and
    of src/wallet.cpp [Unlock], [ChangeWalletPassphrase], [SetMinVersion], [SetMaxVersion] and [EncryptWallet].

    Parameters.  Class [Cipher]: of OpenSSL, [EVP_BytesToKey] (the number it returns, the key and the first half
    of [chIV]) and AES-256-CBC as the three calls of [Encrypt] and [Decrypt] use it: whether they succeed and
    what is in the buffer; and the memory of a new [CCrypter].  Class [CryptStore]: the members of
    keystore.cpp, which is not in the tree, with what keystore.h says of them; the clock, by the number of its
    readings; what the n-th call of the data base returns; the key pool (KeyPool.v) as a function on the wallet;
    what a [double] becomes that fits no [unsigned].  The locked pages and the printed texts are left out. *)

From S2P Require Import Prelude Double Digits Core Key.

Definition WALLET_CRYPTO_KEY_SIZE : Z := 32.
Definition WALLET_CRYPTO_SALT_SIZE : Z := 8.

Record CMasterKey := mkMasterKey {
  vchCryptedKey : bytes; vchSalt : bytes; nDerivationMethod : Z; nDeriveIterations : Z;
  vchOtherDerivationParameters : bytes }.
Definition CMasterKey_new : CMasterKey := mkMasterKey [] [] 0 25000 [].

Definition set_iterations n k := mkMasterKey (vchCryptedKey k) (vchSalt k) (nDerivationMethod k) n (vchOtherDerivationParameters k).
Definition set_crypted c k := mkMasterKey c (vchSalt k) (nDerivationMethod k) (nDeriveIterations k) (vchOtherDerivationParameters k).

Record CCrypter := mkCrypter { chKey : bytes; chIV : bytes; fKeySet : bool }.

Class Cipher := {
  EVP_BytesToKey : bytes -> bytes -> Z -> Z * bytes * bytes;
  aes_encrypt : bytes -> bytes -> bytes -> bool * bytes;
  aes_decrypt : bytes -> bytes -> bytes -> bool * bytes;
  raw_memory : bytes * bytes;
  EVP_BytesToKey_number salt data data' n : (EVP_BytesToKey salt data n).1.1 = (EVP_BytesToKey salt data' n).1.1;
  EVP_BytesToKey_iv salt data n k v : EVP_BytesToKey salt data n = (32, k, v) -> length v = 16%nat;
  aes_encrypt_length k iv p c : aes_encrypt k iv p = (true, c) -> lenZ c = 16 * (lenZ p / 16 + 1);
  aes_decrypt_length k iv c p : aes_decrypt k iv c = (true, p) -> lenZ p <= lenZ c;
  aes_round k iv p c : aes_encrypt k iv p = (true, c) -> aes_decrypt k iv c = (true, p);
}.

Section Cipher.
Context `{Cipher}.

(** ** The class [CCrypter] *)

Definition CCrypter_new : CCrypter := mkCrypter raw_memory.1 raw_memory.2 false.
Definition CleanKey (c : CCrypter) : CCrypter := mkCrypter (replicate 32 0) (replicate 32 0) false.

(** A failure leaves [fKeySet] as it was. *)
Definition SetKeyFromPassphrase (c : CCrypter) (strKeyData chSalt : bytes) (nRounds nDerivationMethod : Z) : bool * CCrypter :=
  if (nRounds <? 1) || negb (lenZ chSalt =? WALLET_CRYPTO_SALT_SIZE) then (false, c)
  else
    let '(i, key, iv) := if nDerivationMethod =? 0 then EVP_BytesToKey chSalt strKeyData nRounds else (0, [], []) in
    if negb (i =? WALLET_CRYPTO_KEY_SIZE) then (false, mkCrypter (replicate 32 0) (replicate 32 0) (fKeySet c))
    else (true, mkCrypter key (iv ++ drop 16 (chIV c)) true).

Definition SetKey (c : CCrypter) (chNewKey chNewIV : bytes) : bool * CCrypter :=
  if negb (lenZ chNewKey =? WALLET_CRYPTO_KEY_SIZE) || negb (lenZ chNewIV =? WALLET_CRYPTO_KEY_SIZE) then (false, c)
  else (true, mkCrypter chNewKey chNewIV true).

(** The result and [vchCiphertext]; AES reads 16 bytes of [chIV]. *)
Definition Encrypt (c : CCrypter) (vchPlaintext vchCiphertext : bytes) : bool * bytes :=
  if negb (fKeySet c) then (false, vchCiphertext) else aes_encrypt (chKey c) (take 16 (chIV c)) vchPlaintext.
Definition Decrypt (c : CCrypter) (vchCiphertext vchPlaintext : bytes) : bool * bytes :=
  if negb (fKeySet c) then (false, vchPlaintext) else aes_decrypt (chKey c) (take 16 (chIV c)) vchCiphertext.

(** The bytes of a [uint256]. *)
Definition uint256_bytes (n : uint256) : bytes := le_digits 256 32 n.

Definition EncryptSecret (vMasterKey vchPlaintext : bytes) (nIV : uint256) (vchCiphertext : bytes) : bool * bytes :=
  let '(ok, c) := SetKey CCrypter_new vMasterKey (uint256_bytes nIV) in
  if negb ok then (false, vchCiphertext) else Encrypt c vchPlaintext vchCiphertext.
Definition DecryptSecret (vMasterKey vchCiphertext : bytes) (nIV : uint256) (vchPlaintext : bytes) : bool * bytes :=
  let '(ok, c) := SetKey CCrypter_new vMasterKey (uint256_bytes nIV) in
  if negb ok then (false, vchPlaintext) else Decrypt c vchCiphertext vchPlaintext.
End Cipher.

(** ** The key store *)

Record KeyStore := mkStore {
  mapKeys : gmap Z CKey; mapCryptedKeys : gmap Z (CPubKey * bytes); vMasterKey : bytes; fUseCrypto : bool }.

Module Basic.
Definition HaveKey (s : KeyStore) (address : Z) : bool := bool_decide (address ∈ dom (mapKeys s)).
Definition GetKeys (s : KeyStore) : gset Z := dom (mapKeys s).
Definition GetKey (s : KeyStore) (address : Z) : option CKey := mapKeys s !! address.
End Basic.

Definition KeyStore_new : KeyStore := mkStore ∅ ∅ [] false.
Definition IsCrypted (s : KeyStore) : bool := fUseCrypto s.
Definition IsLocked (s : KeyStore) : bool := if negb (IsCrypted s) then false else bool_decide (vMasterKey s = []).
Definition HaveKey (s : KeyStore) (address : Z) : bool :=
  if negb (IsCrypted s) then Basic.HaveKey s address else bool_decide (address ∈ dom (mapCryptedKeys s)).
Definition GetKeys (s : KeyStore) : gset Z := if negb (IsCrypted s) then Basic.GetKeys s else dom (mapCryptedKeys s).

(** ** The wallet *)

Inductive DbCall :=
  | TxnBegin | TxnCommit | TxnAbort | Rewrite
  | WriteMasterKey (n : Z) (k : CMasterKey)
  | WriteCryptedKeys (ids : gset Z)
  | WriteCorruptAddress
  | WriteMinVersion (n : Z).

(** [mapMasterKeys] in the order of its walk; [clock] counts the readings of the clock. *)
Record CWallet := mkCWallet {
  store : KeyStore;
  mapMasterKeys : list (Z * CMasterKey);
  nMasterKeyMaxID : Z;
  nWalletVersion : Z;
  nWalletMaxVersion : Z;
  fFileBacked : bool;
  clock : nat;
  calls : list DbCall }.

Definition set_store s w := mkCWallet s (mapMasterKeys w) (nMasterKeyMaxID w) (nWalletVersion w) (nWalletMaxVersion w) (fFileBacked w) (clock w) (calls w).
Definition set_masters m w := mkCWallet (store w) m (nMasterKeyMaxID w) (nWalletVersion w) (nWalletMaxVersion w) (fFileBacked w) (clock w) (calls w).
Definition set_maxid n w := mkCWallet (store w) (mapMasterKeys w) n (nWalletVersion w) (nWalletMaxVersion w) (fFileBacked w) (clock w) (calls w).
Definition set_versions v m w := mkCWallet (store w) (mapMasterKeys w) (nMasterKeyMaxID w) v m (fFileBacked w) (clock w) (calls w).
Definition set_clock n w := mkCWallet (store w) (mapMasterKeys w) (nMasterKeyMaxID w) (nWalletVersion w) (nWalletMaxVersion w) (fFileBacked w) n (calls w).
Definition call (c : DbCall) w := mkCWallet (store w) (mapMasterKeys w) (nMasterKeyMaxID w) (nWalletVersion w) (nWalletMaxVersion w) (fFileBacked w) (clock w) (calls w ++ [c]).

(** The keys of a wallet that is encrypted, and whether a master key opens them. *)
Class CryptStore := {
  opens : bytes -> gmap Z (CPubKey * bytes) -> bool;
  store_Lock : KeyStore -> bool * KeyStore;
  store_Unlock : bytes -> KeyStore -> bool * KeyStore;
  EncryptKeys : bytes -> KeyStore -> bool * KeyStore;
  NewKeyPool : CWallet -> CWallet;
  RAND_bytes : nat -> Z -> bytes;
  GetTimeMillis : nat -> Z;
  disk : nat -> bool;
  uint_overflow : Z;
  FEATURE_LATEST : Z;
  FEATURE_WALLETCRYPT : Z;
  uint_overflow_range : in_u 32 uint_overflow;
  RAND_bytes_length i n : 0 <= n -> lenZ (RAND_bytes i n) = n;
  store_Lock_locks s : fUseCrypto s = true ->
    store_Lock s = (true, mkStore (mapKeys s) (mapCryptedKeys s) [] true);
  store_Unlock_crypted m s : fUseCrypto s = true -> mapKeys s = ∅ ->
    store_Unlock m s = if opens m (mapCryptedKeys s) then (true, mkStore (mapKeys s) (mapCryptedKeys s) m true) else (false, s);
  EncryptKeys_crypts m s s' : EncryptKeys m s = (true, s') ->
    fUseCrypto s' = true /\ mapKeys s' = ∅ /\ dom (mapCryptedKeys s') = dom (mapKeys s) /\ opens m (mapCryptedKeys s') = true;
  NewKeyPool_masters w : mapMasterKeys (NewKeyPool w) = mapMasterKeys w;
  NewKeyPool_store w : fUseCrypto (store w) = true -> mapKeys (store w) = ∅ ->
    fUseCrypto (store (NewKeyPool w)) = true /\ mapKeys (store (NewKeyPool w)) = ∅ /\
    (forall m, opens m (mapCryptedKeys (store w)) = true -> vMasterKey (store w) = m ->
       opens m (mapCryptedKeys (store (NewKeyPool w))) = true) /\
    dom (mapCryptedKeys (store w)) ⊆ dom (mapCryptedKeys (store (NewKeyPool w)));
}.

Section Wallet.
Context `{Cipher} `{CryptStore}.

Definition Lock (w : CWallet) : CWallet := set_store (store_Lock (store w)).2 w.

Definition set_key (c : CCrypter) (pass : bytes) (k : CMasterKey) : bool * CCrypter :=
  SetKeyFromPassphrase c pass (vchSalt k) (nDeriveIterations k) (nDerivationMethod k).

(** The loop of [Unlock] over the master keys, with [crypter] and [vMasterKey]. *)
Fixpoint Unlock_loop (ms : list (Z * CMasterKey)) (pass : bytes) (crypter : CCrypter) (master : bytes) (s : KeyStore) : bool * KeyStore :=
  match ms with
  | [] => (false, s)
  | (_, k) :: r =>
    let '(ok, crypter) := set_key crypter pass k in
    if negb ok then (false, s)
    else
      let '(ok, master) := Decrypt crypter (vchCryptedKey k) master in
      if negb ok then Unlock_loop r pass crypter master s
      else
        let '(ok, s) := store_Unlock master s in
        if (ok : bool) then (true, s) else Unlock_loop r pass crypter master s
  end.

Definition Unlock (strWalletPassphrase : bytes) (w : CWallet) : bool * CWallet :=
  let '(ok, s) := Unlock_loop (mapMasterKeys w) strWalletPassphrase CCrypter_new [] (store w) in (ok, set_store s w).

(** ** The number of rounds *)

Definition to_uint (d : double) : Z := default uint_overflow (uint_of_double d).

(** Two readings of the clock around a derivation. *)
Definition elapsed (w : CWallet) : Z * CWallet :=
  (s64 (GetTimeMillis (S (clock w)) - GetTimeMillis (clock w)), set_clock (S (S (clock w))) w).

Definition scale_first (n t : Z) : Z := to_uint (dmul (double_of n) (ddiv (double_of 100) (double_of t))).
Definition scale_mean (n t : Z) : Z :=
  to_uint (ddiv (dadd (double_of n) (ddiv (double_of (u32 (n * 100))) (double_of t))) (double_of 2)).
Definition at_least (n : Z) : Z := if n <? 25000 then 25000 else n.

(** ** Another passphrase *)

(** What is done for the master key that unlocks: the result, the wallet, the new record. *)
Definition change_key (crypter : CCrypter) (new : bytes) (master : bytes) (k : CMasterKey) (w : CWallet) : bool * CWallet * CMasterKey :=
  let '(_, crypter) := set_key crypter new k in
  let '(t, w) := elapsed w in
  let k := set_iterations (scale_first (nDeriveIterations k) t) k in
  let '(_, crypter) := set_key crypter new k in
  let '(t, w) := elapsed w in
  let k := set_iterations (at_least (scale_mean (nDeriveIterations k) t)) k in
  let '(ok, crypter) := set_key crypter new k in
  if negb ok then (false, w, k)
  else let '(ok, c) := Encrypt crypter master (vchCryptedKey k) in (ok, w, set_crypted c k).

(** [before] are the master keys passed, in order. *)
Fixpoint change_loop (before after : list (Z * CMasterKey)) (old new : bytes) (crypter : CCrypter) (master : bytes)
    (fWasLocked : bool) (w : CWallet) : bool * CWallet :=
  match after with
  | [] => (false, w)
  | (n, k) :: r =>
    let '(ok, crypter) := set_key crypter old k in
    if negb ok then (false, w)
    else
      let '(ok, master) := Decrypt crypter (vchCryptedKey k) master in
      if negb ok then (false, w)
      else
        let '(ok, s) := store_Unlock master (store w) in
        let w := set_store s w in
        if (ok : bool) then
          let '(ok, w, k) := change_key crypter new master k w in
          let w := set_masters (before ++ (n, k) :: r) w in
          if negb ok then (false, w)
          else
            let w := call (WriteMasterKey n k) w in
            (true, if fWasLocked then Lock w else w)
        else change_loop (before ++ [(n, k)]) r old new crypter master fWasLocked w
  end.

Definition ChangeWalletPassphrase (old new : bytes) (w : CWallet) : bool * CWallet :=
  let fWasLocked := IsLocked (store w) in
  let w := Lock w in change_loop [] (mapMasterKeys w) old new CCrypter_new [] fWasLocked w.

(** ** Versions *)

(** What is written belongs to [pwalletdbIn] or to a data base opened for it. *)
Definition SetMinVersion (nVersion : Z) (fExplicit : bool) (w : CWallet) : CWallet :=
  if nVersion <=? nWalletVersion w then w
  else
    let nVersion := if fExplicit && (nWalletMaxVersion w <? nVersion) then FEATURE_LATEST else nVersion in
    let w := set_versions nVersion (if nWalletMaxVersion w <? nVersion then nVersion else nWalletMaxVersion w) w in
    if fFileBacked w then
      let w := if 40000 <=? nWalletVersion w then call WriteCorruptAddress w else w in
      if 40000 <? nWalletVersion w then call (WriteMinVersion (nWalletVersion w)) w else w
    else w.

Definition SetMaxVersion (nVersion : Z) (w : CWallet) : bool * CWallet :=
  if nVersion <? nWalletVersion w then (false, w) else (true, set_versions (nWalletVersion w) nVersion w).

(** ** Encryption of a wallet *)

(** The record for [kMasterKey]: the result, the wallet and the record. *)
Definition new_master_key (pass master salt : bytes) (w : CWallet) : bool * CWallet * CMasterKey :=
  let k := mkMasterKey [] salt 0 25000 [] in
  let '(_, crypter) := set_key CCrypter_new pass k in
  let '(t, w) := elapsed w in
  let k := set_iterations (to_uint (ddiv (double_of 2500000) (double_of t))) k in
  let '(_, crypter) := set_key crypter pass k in
  let '(t, w) := elapsed w in
  let k := set_iterations (at_least (scale_mean (nDeriveIterations k) t)) k in
  let '(ok, crypter) := set_key crypter pass k in
  if negb ok then (false, w, k)
  else let '(ok, c) := Encrypt crypter master (vchCryptedKey k) in (ok, w, set_crypted c k).

(** [None] is [exit(1)]. *)
Definition EncryptWallet (strWalletPassphrase : bytes) (w : CWallet) : option (bool * CWallet) :=
  if IsCrypted (store w) then Some (false, w)
  else
    let master := RAND_bytes 0 WALLET_CRYPTO_KEY_SIZE in
    let '(ok, w, kMasterKey) := new_master_key strWalletPassphrase master (RAND_bytes 1 WALLET_CRYPTO_SALT_SIZE) w in
    if negb ok then Some (false, w)
    else
      let n := nMasterKeyMaxID w + 1 in
      let w := set_maxid n (set_masters (mapMasterKeys w ++ [(n, kMasterKey)]) w) in
      let begun := disk (length (calls w)) in
      let w := if fFileBacked w then call TxnBegin w else w in
      if fFileBacked w && negb begun then Some (false, w)
      else
        let w := if fFileBacked w then call (WriteMasterKey n kMasterKey) w else w in
        let '(ok, s) := EncryptKeys master (store w) in
        if negb ok then None
        else
          let w := set_store s w in
          let w := if fFileBacked w then call (WriteCryptedKeys (dom (mapCryptedKeys s))) w else w in
          let w := SetMinVersion FEATURE_WALLETCRYPT true w in
          let committed := disk (length (calls w)) in
          let w := if fFileBacked w then call TxnCommit w else w in
          if fFileBacked w && negb committed then None
          else
            let w := Lock w in
            let '(_, w) := Unlock strWalletPassphrase w in
            let w := NewKeyPool w in
            let w := Lock w in
            Some (true, call Rewrite w).
End Wallet.
