(* ===== verification/CryptThms.v ===== *)
(** Theorems on the encryption of the wallet (Crypt.v): secrets are read back, a changed passphrase opens the wallet, an
    encrypted wallet is locked and its passphrase opens it. *)

From S2P Require Import Prelude Double Digits Core Key Crypt.

Section Cipher.
Context `{Cipher}.

Lemma uint256_bytes_length n : lenZ (uint256_bytes n) = WALLET_CRYPTO_KEY_SIZE.
Proof. unfold lenZ, uint256_bytes. by rewrite le_digits_length. Qed.

(** A secret that is encrypted under a master key of 32 bytes is decrypted to itself under the same key and IV; the
    ciphertext has more bytes than the secret, at most 16 more, and 16 more exactly when the length of the secret is a
    multiple of 16. *)
Theorem Secret_roundtrip master p iv old c :
  EncryptSecret master p iv old = (true, c) ->
  (forall old', DecryptSecret master c iv old' = (true, p)) /\
  lenZ p < lenZ c <= lenZ p + 16 /\ (lenZ c = lenZ p + 16 <-> lenZ p mod 16 = 0).
Proof.
  unfold EncryptSecret, DecryptSecret, SetKey. rewrite uint256_bytes_length, Z.eqb_refl.
  destruct (lenZ master =? WALLET_CRYPTO_KEY_SIZE); cbn [negb orb]; [|done].
  unfold Encrypt, Decrypt. cbn [fKeySet negb chKey chIV]. intros E. split.
  - intros old'. by apply aes_round.
  - apply aes_encrypt_length in E. pose proof (lenZ_nonneg p). zdm.
Qed.
End Cipher.

Section Wallet.
Context `{Cipher} `{CryptStore}.

(** ** Derived keys *)

(** The key and the IV a passphrase gives for a master key. *)
Definition derived (pass : bytes) (k : CMasterKey) : option (bytes * bytes) :=
  if (nDeriveIterations k <? 1) || negb (lenZ (vchSalt k) =? WALLET_CRYPTO_SALT_SIZE) || negb (nDerivationMethod k =? 0) then None
  else let '(i, key, iv) := EVP_BytesToKey (vchSalt k) pass (nDeriveIterations k) in
       if i =? WALLET_CRYPTO_KEY_SIZE then Some (key, iv) else None.

Definition decrypted (pass : bytes) (k : CMasterKey) : option bytes :=
  '(key, iv) ← derived pass k;
  match aes_decrypt key iv (vchCryptedKey k) with (true, m) => Some m | _ => None end.

Lemma set_key_derived c pass k :
  match derived pass k with
  | Some (key, iv) => exists c', set_key c pass k = (true, c') /\ fKeySet c' = true /\ chKey c' = key /\ take 16 (chIV c') = iv
  | None => exists c', set_key c pass k = (false, c')
  end.
Proof.
  unfold derived, set_key, SetKeyFromPassphrase.
  destruct ((nDeriveIterations k <? 1) || negb (lenZ (vchSalt k) =? WALLET_CRYPTO_SALT_SIZE)); cbn [orb]; [by eexists|].
  destruct (nDerivationMethod k =? 0); cbn [negb]; [|by eexists].
  destruct (EVP_BytesToKey (vchSalt k) pass (nDeriveIterations k)) as [[i key] iv] eqn:E.
  destruct (Z.eqb_spec i WALLET_CRYPTO_KEY_SIZE) as [->|]; cbn [negb]; [|by eexists].
  eexists. split_and!; [done|done|done|]. cbn [chIV]. apply take_app_length'. symmetry. by eapply EVP_BytesToKey_iv.
Qed.

(** Whether a key is derived does not depend on the passphrase. *)
Lemma derived_some pass pass' k : is_Some (derived pass k) -> is_Some (derived pass' k).
Proof.
  unfold derived. destruct (_ || _); [done|]. pose proof (EVP_BytesToKey_number (vchSalt k) pass pass' (nDeriveIterations k)) as Hn.
  destruct (EVP_BytesToKey _ pass _) as [[i key] iv], (EVP_BytesToKey _ pass' _) as [[i' key'] iv']. cbn in Hn. subst i'.
  destruct (i =? WALLET_CRYPTO_KEY_SIZE); [by eexists|done].
Qed.

Definition crypted (s : KeyStore) : Prop := fUseCrypto s = true /\ mapKeys s = ∅.

(** ** Unlocking *)

Definition opened (m : bytes) (s : KeyStore) : KeyStore := mkStore (mapKeys s) (mapCryptedKeys s) m true.

(** The loop without the objects it reuses. *)
Fixpoint find_master (ms : list (Z * CMasterKey)) (pass : bytes) (s : KeyStore) : option bytes :=
  match ms with
  | [] => None
  | (_, k) :: r =>
    match derived pass k with
    | None => None
    | Some _ =>
      match decrypted pass k with
      | Some m => if opens m (mapCryptedKeys s) then Some m else find_master r pass s
      | None => find_master r pass s
      end
    end
  end.

Lemma Unlock_loop_spec ms pass c m0 s :
  crypted s ->
  Unlock_loop ms pass c m0 s =
  match find_master ms pass s with Some m => (true, opened m s) | None => (false, s) end.
Proof.
  intros Hs. revert c m0. induction ms as [|[n k] ms IH]; intros c m0; [done|]. cbn [Unlock_loop find_master].
  pose proof (set_key_derived c pass k) as Hd. unfold decrypted. destruct (derived pass k) as [[key iv]|] eqn:Ed.
  - destruct Hd as (c' & -> & Hset & Hk & Hiv). cbn [negb mbind option_bind]. unfold Decrypt. rewrite Hset, Hk, Hiv. cbn [negb].
    destruct (aes_decrypt key iv (vchCryptedKey k)) as [[] m]; cbn [negb]; [|apply IH].
    destruct Hs as [Hu He]. rewrite store_Unlock_crypted by done.
    destruct (opens m (mapCryptedKeys s)); [done|apply IH].
  - by destruct Hd as [c' ->].
Qed.

Lemma Unlock_spec pass w :
  crypted (store w) ->
  Unlock pass w = match find_master (mapMasterKeys w) pass (store w) with
                  | Some m => (true, set_store (opened m (store w)) w) | None => (false, w) end.
Proof.
  intros Hs. unfold Unlock. rewrite Unlock_loop_spec by done. destruct (find_master _ _ _); [done|]. by destruct w.
Qed.

Lemma Lock_spec w : crypted (store w) -> Lock w = set_store (opened [] (store w)) w.
Proof. intros [Hu He]. unfold Lock. by rewrite store_Lock_locks. Qed.

Lemma find_master_app pre n k post pass s m :
  Forall (fun p : Z * CMasterKey => is_Some (derived pass p.2)) pre ->
  decrypted pass k = Some m -> opens m (mapCryptedKeys s) = true ->
  is_Some (find_master (pre ++ (n, k) :: post) pass s).
Proof.
  intros Hpre Hd Ho. induction Hpre as [|[n' k'] pre Hk Hpre IH]; cbn [app find_master].
  - unfold decrypted in Hd. destruct (derived pass k) as [[key iv]|] eqn:E; [|done].
    unfold decrypted. rewrite E. cbn [mbind option_bind] in *. destruct (aes_decrypt _ _ _) as [[] ?]; [|done].
    injection Hd as ->. by rewrite Ho.
  - destruct Hk as [? Hk]. cbn [snd] in Hk. rewrite Hk. destruct (decrypted pass k') as [m'|]; [|done].
    by destruct (opens m' _).
Qed.

(** ** Another passphrase *)

(** The key a record holds, and how it is derived. *)
Definition rekeyed (new : bytes) (m : bytes) (k k' : CMasterKey) : Prop :=
  decrypted new k' = Some m /\ vchSalt k' = vchSalt k /\ nDerivationMethod k' = nDerivationMethod k /\
  25000 <= nDeriveIterations k'.

Lemma at_least_le n : 25000 <= at_least n.
Proof. unfold at_least. destruct (Z.ltb_spec n 25000); lia. Qed.

(** The last derivation, and the encryption of the master key under it. *)
Lemma encrypt_key c pass m k ok c' :
  set_key c pass k = (ok, c') ->
  forall x, (if negb ok then (false, x) else Encrypt c' m x) = (true, vchCryptedKey (set_crypted (Encrypt c' m x).2 k)) ->
  decrypted pass (set_crypted (Encrypt c' m x).2 k) = Some m.
Proof.
  intros Hk x. pose proof (set_key_derived c pass k) as Hd. rewrite Hk in Hd. destruct ok; [|done]. cbn [negb set_crypted vchCryptedKey].
  destruct (derived pass k) as [[key iv]|] eqn:Ed; [|by destruct Hd].
  destruct Hd as (c2 & E & Hset & Hkey & Hiv). injection E as <-. unfold Encrypt. rewrite Hset, Hkey, Hiv. cbn [negb].
  destruct (aes_encrypt key iv m) as [[] y] eqn:Ea; [|done]. cbn [snd]. intros _. unfold decrypted.
  change (derived pass (set_crypted y k)) with (derived pass k). rewrite Ed. cbn [mbind option_bind vchCryptedKey set_crypted].
  by rewrite (aes_round _ _ _ _ Ea).
Qed.

Lemma change_key_spec c new m k w w' k' :
  change_key c new m k w = (true, w', k') ->
  rekeyed new m k k' /\ exists t, w' = set_clock t w.
Proof.
  unfold change_key, elapsed. destruct (set_key c new k) as [ok1 c1].
  set (k1 := set_iterations _ k). destruct (set_key c1 new k1) as [ok2 c2].
  set (k2 := set_iterations _ k1). destruct (set_key c2 new k2) as [ok3 c3] eqn:E3.
  destruct ok3; cbn [negb]; [|by intros [=]].
  pose proof (encrypt_key c2 new m k2 true c3 E3 (vchCryptedKey k2)) as He. cbn [negb set_crypted vchCryptedKey] in He.
  destruct (Encrypt c3 m (vchCryptedKey k2)) as [[] y] eqn:Ey; [|by intros [=]]. cbn [snd] in *. intros [= <- <-].
  split; [|by eexists]. split_and!; [by apply He|done|done|apply at_least_le].
Qed.

Lemma change_loop_spec before ms old new c m0 fl w :
  crypted (store w) ->
  match find_master ms old (store w) with
  | Some m =>
    forall w', change_loop before ms old new c m0 fl w = (true, w') ->
    exists pre n k post k', ms = pre ++ (n, k) :: post /\
      Forall (fun p : Z * CMasterKey => is_Some (derived old p.2)) pre /\
      decrypted old k = Some m /\ opens m (mapCryptedKeys (store w)) = true /\ rekeyed new m k k' /\
      mapMasterKeys w' = before ++ pre ++ (n, k') :: post /\
      store w' = opened (if fl then [] else m) (store w) /\ calls w' = calls w ++ [WriteMasterKey n k']
  | None => change_loop before ms old new c m0 fl w = (false, w)
  end.
Proof.
  intros Hs. revert before c m0. induction ms as [|[n k] ms IH]; intros before c m0; [done|]. cbn [find_master change_loop].
  pose proof (set_key_derived c old k) as Hd. unfold decrypted at 1. destruct (derived old k) as [[key iv]|] eqn:Ed.
  2: { by destruct Hd as [c' ->]. }
  destruct Hd as (c' & -> & Hset & Hk & Hiv). cbn [negb mbind option_bind]. unfold Decrypt. rewrite Hset, Hk, Hiv. cbn [negb].
  destruct (aes_decrypt key iv (vchCryptedKey k)) as [[] m] eqn:Em; cbn [negb].
  2: { destruct (find_master ms old (store w)); [by intros w' [=]|done]. }
  destruct Hs as [Hu He]. rewrite store_Unlock_crypted by done.
  destruct (opens m (mapCryptedKeys (store w))) eqn:Eo.
  - intros w'. set (w1 := set_store _ w). destruct (change_key c' new m k w1) as [[ok w2] k'] eqn:Ek.
    destruct ok; cbn [negb]; [|by intros [=]]. apply change_key_spec in Ek as [Hre [t ->]].
    intros [= <-]. exists [], n, k, ms, k'.
    assert (Hdec : decrypted old k = Some m) by (unfold decrypted; rewrite Ed; cbn [mbind option_bind]; by rewrite Em).
    split_and!; [done|by constructor|done|done|done| | |]; by destruct fl; [rewrite Lock_spec|].
  - assert (Ew : set_store (store w) w = w) by by destruct w. rewrite Ew.
    specialize (IH (before ++ [(n, k)]) c' m). destruct (find_master ms old (store w)) as [m'|]; [|done].
    intros w' Hw. destruct (IH w' Hw) as (pre & n' & k2 & post & k' & -> & Hpre & Hrest).
    exists ((n, k) :: pre), n', k2, post, k'. rewrite <-!app_assoc in Hrest.
    split_and!; try apply Hrest; [done|]. constructor; [|done]. cbn [snd]. by rewrite Ed.
Qed.

(** A successful change of the passphrase: the record of one master key is replaced, in memory and in the data
    base, by one that holds the same key under the new passphrase with at least 25000 rounds, so that the new
    passphrase unlocks; the secrets are untouched, and a wallet that was locked is locked again.  When the old
    passphrase opens nothing the change fails, and what it leaves is the wallet locked, whether it was before or not. *)
Theorem ChangeWalletPassphrase_spec old new w w' ok :
  crypted (store w) -> ChangeWalletPassphrase old new w = (ok, w') ->
  (ok = true ->
     exists pre n k post k' m,
       mapMasterKeys w = pre ++ (n, k) :: post /\ decrypted old k = Some m /\ opens m (mapCryptedKeys (store w)) = true /\
       rekeyed new m k k' /\ mapMasterKeys w' = pre ++ (n, k') :: post /\ calls w' = calls w ++ [WriteMasterKey n k'] /\
       store w' = opened (if IsLocked (store w) then [] else m) (store w) /\
       (Unlock new w').1 = true) /\
  (find_master (mapMasterKeys w) old (store w) = None -> ok = false /\ w' = Lock w /\ IsLocked (store w') = true).
Proof.
  intros Hs Hc. unfold ChangeWalletPassphrase in Hc. rewrite Lock_spec in Hc by done.
  set (w1 := set_store (opened [] (store w)) w) in Hc. change (mapMasterKeys w1) with (mapMasterKeys w) in Hc.
  pose proof (change_loop_spec [] (mapMasterKeys w) old new CCrypter_new [] (IsLocked (store w)) w1 ltac:(by destruct Hs)) as Hl.
  assert (Ef : find_master (mapMasterKeys w) old (store w1) = find_master (mapMasterKeys w) old (store w)).
  { generalize (mapMasterKeys w). intros ms. induction ms as [|[n k] ms IH]; [done|]. cbn [find_master]. rewrite IH. done. }
  rewrite Ef in Hl. split.
  - intros ->. destruct (find_master (mapMasterKeys w) old (store w)) as [m|]; [|by rewrite Hl in Hc].
    destruct (Hl w' Hc) as (pre & n & k & post & k' & Hms & Hpre & Hdec & Ho & Hre & Hms' & Hst & Hcalls).
    cbn [app] in Hms'. exists pre, n, k, post, k', m. split_and!; try done.
    assert (Hs' : crypted (store w')) by (rewrite Hst; by destruct Hs). rewrite Unlock_spec by done. rewrite Hms'.
    destruct (find_master_app pre n k' post new (store w') m) as [m' ->]; [| | |done].
    + eapply Forall_impl; [exact Hpre|]. intros p. apply derived_some.
    + apply Hre.
    + by rewrite Hst.
  - intros Hn. rewrite Hn in Hl. rewrite Hl in Hc. injection Hc as <- <-. rewrite Lock_spec by done. split_and!; [done|done|].
    unfold IsLocked, IsCrypted. by rewrite bool_decide_eq_true_2.
Qed.

(** ** Encryption of a wallet *)

Lemma new_master_key_spec pass m salt w w' k :
  new_master_key pass m salt w = (true, w', k) ->
  decrypted pass k = Some m /\ 25000 <= nDeriveIterations k /\ exists t, w' = set_clock t w.
Proof.
  unfold new_master_key, elapsed. set (k0 := mkMasterKey _ _ _ _ _). destruct (set_key CCrypter_new pass k0) as [ok1 c1].
  set (k1 := set_iterations _ k0). destruct (set_key c1 pass k1) as [ok2 c2].
  set (k2 := set_iterations _ k1). destruct (set_key c2 pass k2) as [ok3 c3] eqn:E3.
  destruct ok3; cbn [negb]; [|by intros [=]].
  pose proof (encrypt_key c2 pass m k2 true c3 E3 (vchCryptedKey k2)) as He. cbn [negb set_crypted vchCryptedKey] in He.
  destruct (Encrypt c3 m (vchCryptedKey k2)) as [[] y] eqn:Ey; [|by intros [=]]. cbn [snd] in *. intros [= <- <-].
  split_and!; [by apply He|apply at_least_le|by eexists].
Qed.

Lemma new_master_key_keeps pass m salt w : exists t, (new_master_key pass m salt w).1.2 = set_clock t w.
Proof.
  unfold new_master_key, elapsed. set (k0 := mkMasterKey _ _ _ _ _). destruct (set_key CCrypter_new pass k0) as [ok1 c1].
  set (k1 := set_iterations _ k0). destruct (set_key c1 pass k1) as [ok2 c2].
  set (k2 := set_iterations _ k1). destruct (set_key c2 pass k2) as [ok3 c3].
  destruct ok3; cbn [negb]; [destruct (Encrypt _ _ _)|]; by eexists.
Qed.

Lemma SetMinVersion_keeps v e w :
  store (SetMinVersion v e w) = store w /\ mapMasterKeys (SetMinVersion v e w) = mapMasterKeys w.
Proof. unfold SetMinVersion. by repeat case_match. Qed.

Definition begin_txn (w : CWallet) : CWallet := if fFileBacked w then call TxnBegin w else w.

(** What is done from [Lock()] on. *)
Definition finish_encryption (pass : bytes) (w : CWallet) : CWallet :=
  call Rewrite (Lock (NewKeyPool (Unlock pass (Lock w)).2)).

Lemma finish_encryption_spec pass w n k m :
  crypted (store w) -> mapMasterKeys w = [(n, k)] -> decrypted pass k = Some m -> opens m (mapCryptedKeys (store w)) = true ->
  let w' := finish_encryption pass w in
  crypted (store w') /\ IsLocked (store w') = true /\ mapMasterKeys w' = [(n, k)] /\
  dom (mapCryptedKeys (store w)) ⊆ dom (mapCryptedKeys (store w')) /\ (Unlock pass w').1 = true.
Proof.
  intros Hs Hms Hd Ho w'.
  assert (Hfind : forall s, opens m (mapCryptedKeys s) = true -> find_master [(n, k)] pass s = Some m).
  { intros s Hos. cbn [find_master]. rewrite Hd. unfold decrypted in Hd. destruct (derived pass k); [|done]. by rewrite Hos. }
  set (w1 := set_store (opened [] (store w)) w).
  assert (Hs1 : crypted (store w1)) by by destruct Hs.
  set (w2 := set_store (opened m (store w1)) w1).
  assert (E2 : (Unlock pass (Lock w)).2 = w2).
  { rewrite (Lock_spec w) by done. fold w1. rewrite Unlock_spec by done. change (mapMasterKeys w1) with (mapMasterKeys w).
    by rewrite Hms, (Hfind (store w1)). }
  assert (Hs2 : crypted (store w2)) by by destruct Hs1.
  destruct (NewKeyPool_store w2) as (Hu & He & Hop & Hdom); [apply Hs2|apply Hs2|].
  assert (E' : w' = call Rewrite (set_store (opened [] (store (NewKeyPool w2))) (NewKeyPool w2))).
  { unfold w', finish_encryption. rewrite E2, Lock_spec; [done|by split]. }
  assert (Hm' : mapMasterKeys w' = [(n, k)]).
  { rewrite E'. change (mapMasterKeys (NewKeyPool w2) = [(n, k)]). rewrite NewKeyPool_masters. exact Hms. }
  assert (Hs' : crypted (store w')) by by rewrite E'.
  assert (Ho' : opens m (mapCryptedKeys (store w')) = true) by (rewrite E'; exact (Hop m Ho eq_refl)).
  split_and!; [done| |done| |].
  - by rewrite E'.
  - rewrite E'. exact Hdom.
  - rewrite Unlock_spec by done. by rewrite Hm', Hfind.
Qed.


(** ** Versions *)

Definition versions_ok (w : CWallet) : Prop := nWalletVersion w <= nWalletMaxVersion w.

(** The version only grows and stays within the greatest one allowed. *)
Theorem versions_grow w n e :
  versions_ok w ->
  versions_ok (SetMinVersion n e w) /\ versions_ok (SetMaxVersion n w).2 /\
  nWalletMaxVersion w <= nWalletMaxVersion (SetMinVersion n e w) /\
  ((SetMaxVersion n w).1 = false <-> n < nWalletVersion w) /\
  (e = false -> nWalletVersion (SetMinVersion n e w) = Z.max n (nWalletVersion w)).
Proof.
  unfold versions_ok, SetMinVersion, SetMaxVersion. intros Hw.
  destruct (Z.ltb_spec n (nWalletVersion w)), (Z.leb_spec n (nWalletVersion w)); cbn [fst snd]; try lia;
    repeat case_match; cbn in *; split_and!; intros; try done; lia.
Qed.
End Wallet.

(** ** A cipher that adds the first byte of the key, with the padding of OpenSSL *)

Module CryptExamples.

Definition pad (p : bytes) : bytes := p ++ replicate (Z.to_nat (16 - lenZ p mod 16)) (16 - lenZ p mod 16).
Definition unpad (q : bytes) : bool * bytes :=
  let n := default 0 (last q) in
  if (1 <=? n) && (n <=? 16) then (true, take (length q - Z.to_nat n) q) else (false, []).

Lemma unpad_pad p : unpad (pad p) = (true, p).
Proof.
  unfold unpad, pad. set (n := 16 - lenZ p mod 16). assert (Hn : 1 <= n <= 16) by (unfold n; zdm).
  destruct (Z.to_nat n) as [|k] eqn:Ek; [lia|]. rewrite replicate_S_end, app_assoc, last_snoc. cbn [default from_option id].
  replace ((1 <=? n) && (n <=? 16)) with true by lia. f_equal. rewrite <-app_assoc, <-replicate_S_end, length_app, length_replicate.
  rewrite Ek. replace (length p + S k - S k)%nat with (length p) by lia. by rewrite take_app_length.
Qed.
Lemma pad_length p : lenZ (pad p) = 16 * (lenZ p / 16 + 1).
Proof. unfold pad. rewrite lenZ_app. unfold lenZ at 2. rewrite length_replicate. zdm. Qed.

Definition cipher0 : Cipher.
Proof.
  refine {| EVP_BytesToKey salt data n := (32, data.[0] :: replicate 31 0, replicate 16 0);
            aes_encrypt k iv p := (true, Z.add k.[0] <$> pad p);
            aes_decrypt k iv c := unpad (Z.add (- k.[0]) <$> c);
            raw_memory := ([], []) |}.
  - done.
  - by intros salt data n k v [= <- <-].
  - intros k iv p c [= <-]. unfold lenZ. rewrite length_fmap. apply pad_length.
  - intros k iv c p. unfold unpad. case_match; intros [= <-].
    unfold lenZ. rewrite length_take, length_fmap. lia.
  - intros k iv p c [= <-]. rewrite <-list_fmap_compose. rewrite (list_fmap_ext _ Datatypes.id), list_fmap_id; [apply unpad_pad|].
    intros i x _. cbn. unfold Datatypes.id. lia.
Defined.

Definition master0 : bytes := replicate 32 7.

Definition store0 : CryptStore.
Proof.
  refine {| opens m c := bool_decide (m = master0);
            store_Lock s := if fUseCrypto s then (true, mkStore (mapKeys s) (mapCryptedKeys s) [] true) else (false, s);
            store_Unlock m s := if fUseCrypto s && bool_decide (m = master0)
                                then (true, mkStore (mapKeys s) (mapCryptedKeys s) m true) else (false, s);
            EncryptKeys m s := if bool_decide (m = master0)
              then (true, mkStore ∅ ((fun k => (mkPub [], key_vch k)) <$> mapKeys s) (vMasterKey s) true) else (false, s);
            NewKeyPool w := w; RAND_bytes i n := replicate (Z.to_nat n) 7; GetTimeMillis i := 50 * Z.of_nat i;
            disk _ := true; uint_overflow := 0; FEATURE_LATEST := 60000; FEATURE_WALLETCRYPT := 40000 |}.
  - done.
  - intros i n Hn. unfold lenZ. rewrite length_replicate. lia.
  - by intros s ->.
  - intros m s -> _. cbn [andb]. done.
  - intros m s s'. case_bool_decide; [|done]. intros [= <-]. split_and!; [done|done| |done].
    cbn. by rewrite dom_fmap_L.
  - done.
  - intros w Hu He. split_and!; [done|done|by intros m ->|done].
Defined.

Definition keys0 : KeyStore := mkStore {[5 := mkKey true true [1; 2; 3]]} ∅ [] false.
Definition wallet0 : CWallet := mkCWallet keys0 [] 0 10500 60000 true 0 [].
Definition wallet1 : CWallet := Eval vm_compute in
  match @EncryptWallet cipher0 store0 [97] wallet0 with Some (_, w) => w | None => wallet0 end.

Lemma Secret_roundtrip_witness :
  forall old, @DecryptSecret cipher0 master0 (@EncryptSecret cipher0 master0 [1; 2; 3] 9 []).2 9 old = (true, [1; 2; 3]).
Proof.
  apply (@Secret_roundtrip cipher0 master0 [1; 2; 3] 9 [] (@EncryptSecret cipher0 master0 [1; 2; 3] 9 []).2). by vm_compute.
Defined.


Lemma ChangeWalletPassphrase_spec_witness :
  exists w', @ChangeWalletPassphrase cipher0 store0 [97] [98] wallet1 = (true, w') /\ (@Unlock cipher0 store0 [98] w').1 = true.
Proof.
  destruct (@ChangeWalletPassphrase_spec cipher0 store0 [97] [98] wallet1
    (@ChangeWalletPassphrase cipher0 store0 [97] [98] wallet1).2 true) as [E _]; [by split|by vm_compute|].
  eexists. split; [|by destruct (E eq_refl) as (pre & n & k & post & k' & m & _ & _ & _ & _ & _ & _ & _ & ?); eauto].
  by vm_compute.
Defined.
End CryptExamples.
