(* ===== verification/Groupings.v ===== *)
(** Which addresses of the wallet belong together: src/wallet.cpp, [IsMine] and [GetDebit] of an
    input, [IsChange] and [GetAddressGroupings].

    [GetAddressGroupings] first collects sets of addresses used together, then merges the sets that
    meet; the merged sets are objects on a heap, pointed to by [uniqueGroupings] and [setmap].  A
    pointer that is followed or freed after [delete] is a failure ([None] of the monad).

    Parameters (class [Destinations]): the destinations of base58.h and script.h with their order, which
    is not used here, and the tests of script.h. *)

From S2P Require Import Prelude Monad Core.

Class Destinations := {
  CTxDestination : Type;
  dest_eq :: EqDecision CTxDestination;
  dest_countable :: Countable CTxDestination;
  ExtractDestination : CScript -> option CTxDestination;
  IsMine_out : CTxOut -> bool;
  IsMine_dest : CTxDestination -> bool;
}.

Section Groupings.
Context `{Destinations}.

Abbreviation Group := (gset CTxDestination).

(** [mapWallet] in the order of its keys; [mapAddressBook] as the set of its keys. *)
Record Wallet := mkWallet { mapWallet : list (uint256 * CTransaction); mapAddressBook : gset CTxDestination }.

Definition find_tx (w : Wallet) (h : uint256) : option CTransaction :=
  snd <$> List.find (fun e => e.1 =? h) (mapWallet w).

(** The output an input spends, when the wallet has it. *)
Definition prev_out (w : Wallet) (txin : CTxIn) : option CTxOut :=
  prev ← find_tx w (hash (prevout txin)); vout prev !! Z.to_nat (op_n (prevout txin)).

Definition IsMine (w : Wallet) (txin : CTxIn) : bool :=
  match prev_out w txin with Some o => IsMine_out o | None => false end.

Definition GetDebit (w : Wallet) (txin : CTxIn) : Z :=
  match prev_out w txin with Some o => if IsMine_out o then nValue o else 0 | None => 0 end.

Definition IsChange (w : Wallet) (txout : CTxOut) : bool :=
  match ExtractDestination (scriptPubKey txout) with
  | Some address => IsMine_dest address && negb (bool_decide (address ∈ mapAddressBook w))
  | None => false
  end.

(** ** The sets of addresses used together *)

(** One input; [mapWallet[txin.prevout.hash].vout[txin.prevout.n]] is there when the input is mine. *)
Definition add_input (w : Wallet) (acc : Group * bool) (txin : CTxIn) : Group * bool :=
  let '(grouping, any_mine) := acc in
  if negb (IsMine w txin) then acc
  else match prev_out w txin ≫= (fun o => ExtractDestination (scriptPubKey o)) with
       | None => acc
       | Some address => ({[address]} ∪ grouping, true)
       end.

Definition add_change (w : Wallet) (grouping : Group) (txout : CTxOut) : Group :=
  if IsChange w txout then
    match ExtractDestination (scriptPubKey txout) with Some txoutAddr => {[txoutAddr]} ∪ grouping | None => grouping end
  else grouping.

(** An address by itself; [acc] is [(groupings, grouping)]. *)
Definition add_lone (acc : gset Group * Group) (txout : CTxOut) : gset Group * Group :=
  let '(groupings, grouping) := acc in
  if IsMine_out txout then
    match ExtractDestination (scriptPubKey txout) with
    | None => acc
    | Some address => ({[{[address]} ∪ grouping]} ∪ groupings, ∅)
    end
  else acc.

Definition group_tx (w : Wallet) (acc : gset Group * Group) (tx : CTransaction) : gset Group * Group :=
  let '(groupings, grouping) := acc in
  let '(groupings, grouping) :=
    match vin tx with
    | [] => (groupings, grouping)
    | _ =>
      let '(grouping, any_mine) := foldl (add_input w) (grouping, false) (vin tx) in
      let grouping := if any_mine then foldl (add_change w) grouping (vout tx) else grouping in
      if (0 <? size grouping)%nat then ({[grouping]} ∪ groupings, ∅) else (groupings, grouping)
    end in
  foldl add_lone (groupings, grouping) (vout tx).

Definition wallet_groupings (w : Wallet) : gset Group :=
  (foldl (group_tx w) (∅, ∅) (snd <$> mapWallet w)).1.

(** ** Merging the sets that meet *)

Abbreviation ptr := positive.

Record Heap := mkHeap {
  objects : gmap ptr Group; next : ptr;
  uniqueGroupings : gset ptr; setmap : gmap CTxDestination ptr }.

Definition set_objects m h := mkHeap m (next h) (uniqueGroupings h) (setmap h).
Definition set_unique u h := mkHeap (objects h) (next h) u (setmap h).
Definition set_setmap m h := mkHeap (objects h) (next h) (uniqueGroupings h) m.

Definition deref (p : ptr) : M Heap Group :=
  h <- get ;; match objects h !! p with Some g => ret g | None => fail end.
Definition new_group (g : Group) : M Heap ptr :=
  h <- get ;; put (mkHeap (<[next h := g]> (objects h)) (Pos.succ (next h)) (uniqueGroupings h) (setmap h)) ;;; ret (next h).
Definition delete_group (p : ptr) : M Heap unit :=
  deref p ;;; modify (fun h => set_objects (delete p (objects h)) h).

(** The groups a new one meets. *)
Definition hits (grouping : Group) (h : Heap) : gset ptr :=
  list_to_set (omap (fun address => setmap h !! address) (elements grouping)).

Definition merge_hit (merged hit : ptr) : M Heap unit :=
  g <- deref hit ;; m <- deref merged ;;
  modify (fun h => set_objects (<[merged := g ∪ m]> (objects h)) h) ;;;
  modify (fun h => set_unique (uniqueGroupings h ∖ {[hit]}) h) ;;;
  delete_group hit.

Definition merge_group (grouping : Group) : M Heap unit :=
  h <- get ;; let hs := hits grouping h in
  merged <- new_group grouping ;;
  foldM (fun _ hit => merge_hit merged hit) (elements hs) tt ;;;
  modify (fun h => set_unique ({[merged]} ∪ uniqueGroupings h) h) ;;;
  g <- deref merged ;;
  modify (fun h => set_setmap (foldr (fun element m => <[element := merged]> m) (setmap h) (elements g)) h).

Definition collect (ret_ : gset Group) (p : ptr) : M Heap (gset Group) :=
  g <- deref p ;; delete_group p ;;; ret ({[g]} ∪ ret_).

Definition merge_all (groupings : list Group) : M Heap (gset Group) :=
  foldM (fun _ grouping => merge_group grouping) groupings tt ;;;
  h <- get ;; foldM collect (elements (uniqueGroupings h)) ∅.

Definition GetAddressGroupings (w : Wallet) : M Heap (gset Group) := merge_all (elements (wallet_groupings w)).

Definition no_groups : Heap := mkHeap ∅ 1 ∅ ∅.

End Groupings.
