(* ===== verification/GroupingsThms.v ===== *)
(** What Groupings.v guarantees: the groups are the classes of addresses linked by sets that meet,
    no pointer is followed or freed after its object is gone, and every object is freed. *)

From S2P Require Import Prelude Monad Core Groupings.

Section Merge.
Context `{Destinations}.

Abbreviation D := CTxDestination.

(** Two addresses in one of the sets. *)
Definition share (gs : list (gset D)) (a b : D) : Prop := exists g, g ∈ gs /\ a ∈ g /\ b ∈ g.

(** Two addresses in one live object. *)
Definition joined (h : Heap) (a b : D) : Prop := exists p S, objects h !! p = Some S /\ a ∈ S /\ b ∈ S.

Record good (h : Heap) : Prop := {
  g_unique p : p ∈ uniqueGroupings h <-> is_Some (objects h !! p);
  g_disjoint p q S T a : objects h !! p = Some S -> objects h !! q = Some T -> a ∈ S -> a ∈ T -> p = q;
  g_setmap a p : setmap h !! a = Some p <-> exists S, objects h !! p = Some S /\ a ∈ S;
  g_next p : is_Some (objects h !! p) -> (p < next h)%positive;
  g_nonempty p : objects h !! p <> Some ∅ }.

Lemma joined_sym h a b : joined h a b -> joined h b a.
Proof. intros (p & S & ? & ? & ?). by exists p, S. Qed.

Lemma joined_trans h a b c : good h -> joined h a b -> joined h b c -> joined h a c.
Proof.
  intros Hg (p & S & Hp & Ha & Hb) (q & T & Hq & Hb' & Hc). assert (p = q) as -> by (eapply (g_disjoint _ Hg); eauto).
  rewrite Hp in Hq. injection Hq as ->. by exists q, T.
Qed.

Lemma hits_spec h g p : good h -> p ∈ hits g h <-> exists S a, objects h !! p = Some S /\ a ∈ S /\ a ∈ g.
Proof.
  intros Hg. unfold hits. rewrite elem_of_list_to_set, list_elem_of_omap. setoid_rewrite elem_of_elements.
  setoid_rewrite (g_setmap _ Hg). split.
  - intros (a & Ha & S & HS & Has). eauto.
  - intros (S & a & HS & Has & Ha). exists a. split; [done|]. by exists S.
Qed.

(** ** Merging the groups a new one meets *)

(** The heap while the hit groups [todo] wait, [m] being merged so far. *)
Lemma merge_hits_spec merged todo m h :
  NoDup todo -> merged ∉ todo -> objects h !! merged = Some m -> (forall p, p ∈ todo -> is_Some (objects h !! p)) ->
  wp (foldM (fun _ hit => merge_hit merged hit) todo tt)
    (fun _ h' => (exists m', objects h' !! merged = Some m' /\
       (forall a, a ∈ m' <-> a ∈ m \/ exists p S, p ∈ todo /\ objects h !! p = Some S /\ a ∈ S)) /\
       (forall p, p <> merged -> objects h' !! p = if decide (p ∈ todo) then None else objects h !! p) /\
       (forall p, p ∈ uniqueGroupings h' <-> p ∈ uniqueGroupings h /\ p ∉ todo) /\
       setmap h' = setmap h /\ next h' = next h) h.
Proof.
  revert m h. induction todo as [|hit todo IH]; intros m h Hnd Hmem Hm Hlive; cbn [foldM].
  { apply wp_ret. split; [|split; [|split; [|done]]].
    - exists m. split; [done|]. intros a. split; [by left|]. intros [?|(p & S & Hp & _)]; [done|]. by apply elem_of_nil in Hp.
    - intros p _. rewrite decide_False; [done|apply not_elem_of_nil].
    - intros p. pose proof (not_elem_of_nil p). tauto. }
  apply NoDup_cons in Hnd as [Hhit Hnd]. rewrite not_elem_of_cons in Hmem. destruct Hmem as [Hne Hmem].
  destruct (Hlive hit ltac:(by left)) as [S HS]. apply wp_bind. unfold merge_hit, deref.
  apply wp_bind, wp_bind, wp_get. rewrite HS. apply wp_ret. apply wp_bind, wp_bind, wp_get. rewrite Hm. apply wp_ret.
  apply wp_bind, wp_modify, wp_bind, wp_modify. unfold delete_group, deref. apply wp_bind, wp_bind, wp_get.
  cbn [set_objects set_unique objects]. rewrite lookup_insert_ne, HS by done. apply wp_ret, wp_modify. cbn [set_objects set_unique objects uniqueGroupings setmap next].
  match goal with |- wp _ _ ?x => set (h1 := x) end.
  assert (Hm1 : objects h1 !! merged = Some (S ∪ m)) by (unfold h1; cbn; rewrite lookup_delete_ne, lookup_insert_eq by done; done).
  assert (Hold : forall p, p <> merged -> p <> hit -> objects h1 !! p = objects h !! p).
  { intros p H1 H2. unfold h1. cbn. by rewrite lookup_delete_ne, lookup_insert_ne by done. }
  eapply wp_mono; [apply (IH (S ∪ m) h1 Hnd Hmem Hm1)|].
  { intros p Hp. rewrite Hold; [apply Hlive; by right|by intros ->|by intros ->]. }
  cbv beta. intros u h2 ((m' & Hm' & Hel) & Hobj & Huni & Hsm & Hnx). split; [|split; [|split; [|done]]].
  - exists m'. split; [done|]. intros a. rewrite Hel, elem_of_union. setoid_rewrite elem_of_cons. split.
    + intros [[Ha|Ha]|(p & T & Hp & HT & Ha)]; [right; exists hit, S; auto|by left|]. right. exists p, T. rewrite <-(Hold p); [auto|by intros ->|by intros ->].
    + intros [Ha|(p & T & [->|Hp] & HT & Ha)]; [by left; right|left; left; congruence|].
      right. exists p, T. rewrite (Hold p); [auto|by intros ->|by intros ->].
  - intros p Hp. rewrite Hobj by done. destruct (decide (p = hit)) as [->|Hph].
    + rewrite (decide_False (P := hit ∈ todo)), (decide_True (P := hit ∈ hit :: todo)) by (done || by left). unfold h1. cbn. by rewrite lookup_delete_eq.
    + rewrite Hold by done. destruct (decide (p ∈ todo)); [rewrite decide_True by (by right)|rewrite decide_False by (by rewrite not_elem_of_cons)]; done.
  - intros p. rewrite Huni. unfold h1. cbn. rewrite elem_of_difference, elem_of_singleton, not_elem_of_cons. tauto.
Qed.

Lemma setmap_all (merged : positive) (l : list D) (m : gmap D positive) a :
  foldr (fun element (m : gmap D positive) => <[element := merged]> m) m l !! a = if decide (a ∈ l) then Some merged else m !! a.
Proof.
  induction l as [|x l IH]; cbn [foldr]; [by rewrite decide_False by apply not_elem_of_nil|].
  destruct (decide (a = x)) as [->|Hne]; [rewrite lookup_insert_eq, decide_True; [done|by left]|].
  rewrite lookup_insert_ne, IH by done. destruct (decide (a ∈ l)); [rewrite decide_True by (by right)|rewrite decide_False by (by rewrite not_elem_of_cons)]; done.
Qed.

(** What one round does to the objects: those that meet [grouping] become one. *)
Record merged_from (h h' : Heap) (grouping : gset D) (p : positive) (g : gset D) : Prop := {
  m_new : objects h' !! p = Some g;
  m_elem a : a ∈ g <-> a ∈ grouping \/ exists b, b ∈ grouping /\ joined h a b;
  m_old q : q <> p -> objects h' !! q = if decide (q ∈ hits grouping h) then None else objects h !! q }.

Lemma merge_group_run grouping h :
  good h -> grouping <> ∅ ->
  wp (merge_group grouping) (fun _ h' => good h' /\ exists g, merged_from h h' grouping (next h) g) h.
Proof.
  intros Hg Hne. unfold merge_group. apply wp_bind, wp_get, wp_bind. unfold new_group. apply wp_bind, wp_get, wp_bind, wp_put, wp_ret, wp_bind.
  match goal with |- wp _ _ ?x => set (h1 := x) end. set (p := next h). set (hs := hits grouping h).
  assert (Hfresh : objects h !! p = None).
  { destruct (objects h !! p) eqn:E; [|done]. pose proof (g_next _ Hg p ltac:(by eexists)) as Hlt. unfold p in Hlt. lia. }
  assert (Hhit : forall q, q ∈ hs <-> exists S a, objects h !! q = Some S /\ a ∈ S /\ a ∈ grouping) by (intros q; by apply hits_spec).
  assert (Hhp : p ∉ hs) by (intros (S & a & HS & _)%Hhit; congruence).
  eapply wp_mono; [apply (merge_hits_spec p (elements hs) grouping h1)|].
  { apply NoDup_elements. }
  { by rewrite elem_of_elements. }
  { unfold h1. cbn. by rewrite lookup_insert_eq. }
  { intros q Hq%elem_of_elements. assert (Hqp : p <> q) by (by intros <-). unfold h1. cbn. rewrite lookup_insert_ne by exact Hqp. apply Hhit in Hq as (S & _ & HS & _). by eexists. }
  cbv beta. intros u h2 ((g & Hnew & Hel) & Hold & Huni & Hsm & Hnx). apply wp_bind, wp_modify, wp_bind. unfold deref. apply wp_bind, wp_get.
  cbn [set_unique objects]. rewrite Hnew. apply wp_ret, wp_modify. cbn [set_unique set_setmap objects next uniqueGroupings setmap].
  match goal with |- good ?x /\ _ => set (h3 := x) end.
  assert (Hold3 : forall q, q <> p -> objects h3 !! q = if decide (q ∈ hs) then None else objects h !! q).
  { intros q Hq. unfold h3. cbn. rewrite Hold by done. unfold h1. cbn. rewrite lookup_insert_ne by (by apply not_eq_sym).
    destruct (decide (q ∈ hs)); [rewrite decide_True by (by apply elem_of_elements)|rewrite decide_False by (by rewrite elem_of_elements)]; done. }
  assert (Helem : forall a, a ∈ g <-> a ∈ grouping \/ exists b, b ∈ grouping /\ joined h a b).
  { intros a. rewrite Hel. split; (intros [?|Hx]; [by left|right]).
    - destruct Hx as (q & S & Hq%elem_of_elements & HS & Ha). assert (Hqp : p <> q) by (by intros <-). unfold h1 in HS. cbn in HS. rewrite lookup_insert_ne in HS by exact Hqp.
      apply Hhit in Hq as (T & b & HT & Hb & Hbg). rewrite HS in HT. injection HT as <-. exists b. split; [done|]. by exists q, S.
    - destruct Hx as (b & Hb & q & S & HS & Ha & HbS). exists q, S. assert (Hq : q ∈ hs) by (apply Hhit; eauto).
      split; [by apply elem_of_elements|]. split; [|done]. assert (Hqp : p <> q) by (by intros <-). unfold h1. cbn. by rewrite lookup_insert_ne by exact Hqp. }
  assert (Hlive : forall q T, objects h3 !! q = Some T -> (q = p /\ T = g) \/ (q <> p /\ q ∉ hs /\ objects h !! q = Some T /\ forall a, a ∈ T -> a ∉ g)).
  { intros q T HT. destruct (decide (q = p)) as [->|Hq]; [left; unfold h3 in HT; cbn in HT; split; congruence|right].
    rewrite Hold3 in HT by done. destruct (decide (q ∈ hs)) as [|Hh]; [done|]. split; [done|]. split; [done|]. split; [done|].
    intros a Ha [Hag|(b & Hb & q' & S & HS & HaS & HbS)]%Helem; apply Hh, Hhit; [eauto|].
    assert (q = q') as -> by (eapply (g_disjoint _ Hg); eauto). rewrite HT in HS. injection HS as <-. eauto. }
  split; [|exists g; by constructor].
  constructor.
  - intros q. unfold h3. cbn. rewrite elem_of_union, elem_of_singleton, Huni, elem_of_elements. unfold h1. cbn. rewrite (g_unique _ Hg).
    assert (Hq3 : objects h3 !! q = objects h2 !! q) by done. unfold h3 in Hq3 at 1. cbn [objects set_setmap] in Hq3. 
    destruct (decide (q = p)) as [->|Hq]; [rewrite Hnew; split; [by eexists|by left]|].
    change (objects h2 !! q) with (objects h3 !! q). rewrite Hold3 by done. destruct (decide (q ∈ hs)); split; try tauto; by intros [? ?].
  - intros q1 q2 S T a HS HT HaS HaT. destruct (Hlive _ _ HS) as [[-> ->]|(N1 & N2 & N3 & N4)], (Hlive _ _ HT) as [[-> ->]|(M1 & M2 & M3 & M4)]; [done| | |].
    + by destruct (M4 a HaT).
    + by destruct (N4 a HaS).
    + by eapply g_disjoint.
  - intros a q. change (setmap h3) with (foldr (fun element m => <[element := p]> m) (setmap h2) (elements g)). rewrite setmap_all, Hsm.
    change (setmap h1) with (setmap h). destruct (decide (a ∈ elements g)) as [Ha%elem_of_elements|Ha].
    + split; [intros [= <-]; by exists g|]. intros (S & HS & HaS). destruct (Hlive _ _ HS) as [[-> _]|(_ & _ & _ & N4)]; [done|]. by destruct (N4 a HaS).
    + rewrite elem_of_elements in Ha. rewrite (g_setmap _ Hg). split.
      * intros (S & HS & HaS). exists S. assert (q <> p) by (intros ->; congruence). rewrite Hold3, decide_False by (done || (intros (T & b & HT & HbT & Hbg)%Hhit; apply Ha, Helem; right; exists b; split; [done|]; exists q, T; rewrite HS in HT; injection HT as <-; done)). done.
      * intros (S & HS & HaS). destruct (Hlive _ _ HS) as [[-> ->]|(_ & _ & N3 & _)]; [done|eauto].
  - intros q [T HT]. unfold h3. cbn. rewrite Hnx. unfold h1. cbn. destruct (Hlive _ _ HT) as [[-> _]|(_ & _ & N3 & _)]; [unfold p; lia|].
    pose proof (g_next _ Hg q ltac:(by eexists)). lia.
  - intros q HT. destruct (Hlive _ _ HT) as [[-> E]|(_ & _ & N3 & _)]; [|by apply (g_nonempty _ Hg) in N3].
    apply set_choose_L in Hne as [x Hx]. assert (Hxg : x ∈ g) by (apply Helem; by left). rewrite <-E in Hxg. set_solver.
Qed.

(** Merging as an equivalence. *)
Lemma joined_merged h h' grouping p g a b :
  good h -> merged_from h h' grouping p g -> objects h !! p = None ->
  joined h' a b <-> tc (fun x y => joined h x y \/ (x ∈ grouping /\ y ∈ grouping)) a b.
Proof.
  intros Hg [Hnew Helem Hold] Hfresh. set (R := fun x y => joined h x y \/ (x ∈ grouping /\ y ∈ grouping)).
  assert (Hin : forall x, x ∈ g -> exists b, b ∈ grouping /\ R x b /\ R b x).
  { intros x [Hx|(y & Hy & Hj)]%Helem; [exists x; unfold R; auto|]. exists y. split; [done|]. split; left; [done|by apply joined_sym]. }
  assert (Hkeep : forall q T, objects h !! q = Some T -> (q ∈ hits grouping h /\ forall x, x ∈ T -> x ∈ g) \/ objects h' !! q = Some T).
  { intros q T HT. destruct (decide (q ∈ hits grouping h)) as [Hq|Hq].
    - left. split; [done|]. intros x Hx. apply Helem. right. apply (hits_spec _ _ _ Hg) in Hq as (S & y & HS & Hy & Hyg). rewrite HT in HS. injection HS as <-.
      exists y. split; [done|]. by exists q, T.
    - right. rewrite Hold, decide_False by (done || (by intros ->; congruence)). done. }
  split.
  - intros (q & S & HS & Ha & Hb). destruct (decide (q = p)) as [->|Hq].
    + rewrite Hnew in HS. injection HS as <-. destruct (Hin a Ha) as (x & Hx & Hax & _), (Hin b Hb) as (y & Hy & _ & Hyb).
      eapply tc_l; [exact Hax|]. eapply tc_l; [right; split; [exact Hx|exact Hy]|]. by apply tc_once.
    + rewrite Hold in HS by done. destruct (decide (q ∈ hits grouping h)); [done|]. apply tc_once. left. by exists q, S.
  - assert (Hone : forall x y, R x y -> joined h' x y).
    { intros x y [(q & S & HS & Hx & Hy)|[Hx Hy]].
      - destruct (Hkeep q S HS) as [[_ Hall]|HS']; [exists p, g; auto|by exists q, S].
      - exists p, g. rewrite !Helem. auto. }
    assert (Htrans : forall x y z, joined h' x y -> joined h' y z -> joined h' x z).
    { intros x y z (q & S & HS & Hx & Hy) (q' & T & HT & Hy' & Hz). assert (q = q') as ->; [|rewrite HS in HT; injection HT as <-; by exists q', S].
      destruct (decide (q = p)) as [->|Hq], (decide (q' = p)) as [->|Hq']; [done| | |].
      - rewrite Hnew in HS. injection HS as <-. rewrite Hold in HT by done. destruct (decide (q' ∈ hits grouping h)) as [|Hh]; [done|]. destruct Hh.
        apply (hits_spec _ _ _ Hg). apply Helem in Hy as [Hy|(b' & Hb' & r & U & HU & H1 & H2)]; [eauto|].
        assert (q' = r) as -> by exact (g_disjoint _ Hg q' r T U y HT HU Hy' H1). rewrite HT in HU. injection HU as <-. eauto.
      - rewrite Hnew in HT. injection HT as <-. rewrite Hold in HS by done. destruct (decide (q ∈ hits grouping h)) as [|Hh]; [done|]. destruct Hh.
        apply (hits_spec _ _ _ Hg). apply Helem in Hy' as [Hy'|(b' & Hb' & r & U & HU & H1 & H2)]; [eauto|].
        assert (q = r) as -> by exact (g_disjoint _ Hg q r S U y HS HU Hy H1). rewrite HS in HU. injection HU as <-. eauto.
      - rewrite Hold in HS, HT by done. destruct (decide (q ∈ hits grouping h)); [done|]. destruct (decide (q' ∈ hits grouping h)); [done|]. eapply (g_disjoint _ Hg); eauto. }
    induction 1 as [x y Hxy|x y z Hxy _ IH]; [by apply Hone|]. eapply Htrans; [by apply Hone|done].
Qed.

Lemma tc_share gs g a b :
  tc (fun x y => tc (share gs) x y \/ (x ∈ g /\ y ∈ g)) a b <-> tc (share (gs ++ [g])) a b.
Proof.
  assert (Hsub : forall x y, share gs x y -> share (gs ++ [g]) x y).
  { intros x y (k & Hk & Hx & Hy). exists k. rewrite elem_of_app. auto. }
  assert (Hg : forall x y, x ∈ g -> y ∈ g -> share (gs ++ [g]) x y).
  { intros x y Hx Hy. exists g. rewrite elem_of_app, list_elem_of_singleton. auto. }
  split.
  - induction 1 as [x y [Hxy|[Hx Hy]]|x y z [Hxy|[Hx Hy]] _ IH].
    + eapply tc_congruence with (f := id); [|exact Hxy]. exact Hsub.
    + apply tc_once. auto.
    + eapply tc_transitive; [|exact IH]. eapply tc_congruence with (f := id); [|exact Hxy]. exact Hsub.
    + eapply tc_l; [|exact IH]. auto.
  - eapply tc_congruence with (f := id). intros x y (k & Hk & Hx & Hy). apply elem_of_app in Hk as [Hk|Hk%list_elem_of_singleton].
    + left. apply tc_once. by exists k.
    + right. by subst.
Qed.

Lemma good_no_groups : good no_groups.
Proof.
  constructor; unfold no_groups; cbn.
  - intros p. rewrite lookup_empty. split; [set_solver|by intros [? ?]].
  - intros p q S T a Hp. by rewrite lookup_empty in Hp.
  - intros a p. rewrite lookup_empty. split; [done|]. intros (S & HS & _). by rewrite lookup_empty in HS.
  - intros p [? Hp]. by rewrite lookup_empty in Hp.
  - intros p. by rewrite lookup_empty.
Qed.

Lemma merge_loop_spec groupings :
  ∅ ∉ groupings ->
  wp (foldM (fun _ grouping => merge_group grouping) groupings tt)
    (fun _ h => good h /\ forall a b, joined h a b <-> tc (share groupings) a b) no_groups.
Proof.
  intros Hne. apply (wp_foldM _ (fun done_ _ h => good h /\ forall a b, joined h a b <-> tc (share done_) a b)).
  - split; [apply good_no_groups|]. intros a b. split.
    + intros (p & S & HS & _). cbn in HS. by rewrite lookup_empty in HS.
    + assert (Hno : forall x y, ~ share [] x y) by (intros x y (g & Hg & _); by apply elem_of_nil in Hg).
      induction 1 as [x y Hxy|x y z Hxy _ _]; by apply Hno in Hxy.
  - intros done_ g rest u h -> [Hg Hj]. assert (Hg0 : g <> ∅).
    { intros ->. apply Hne. rewrite elem_of_app. right. by left. }
    eapply wp_mono; [by apply merge_group_run|]. intros u' h' (Hg' & m & Hm). split; [done|]. intros a b.
    rewrite (joined_merged h h' g (next h) m a b Hg Hm).
    + rewrite <-tc_share. split; (eapply tc_congruence with (f := id); intros x y); unfold id; rewrite Hj; done.
    + destruct (objects h !! next h) eqn:E; [|done]. pose proof (g_next _ Hg (next h) ltac:(by eexists)). lia.
Qed.

(** The groups are copied out and freed. *)
Lemma collect_spec l ret_ h :
  NoDup l -> (forall p, p ∈ l -> is_Some (objects h !! p)) ->
  wp (foldM collect l ret_)
    (fun r h' => (forall S, S ∈ r <-> S ∈ ret_ \/ exists p, p ∈ l /\ objects h !! p = Some S) /\
       forall p, objects h' !! p = if decide (p ∈ l) then None else objects h !! p) h.
Proof.
  revert ret_ h. induction l as [|p l IH]; intros ret_ h Hnd Hlive; cbn [foldM].
  { apply wp_ret. split.
    - intros S. split; [by left|]. intros [?|(p & Hp & _)]; [done|by apply elem_of_nil in Hp].
    - intros p. by rewrite decide_False by apply not_elem_of_nil. }
  apply NoDup_cons in Hnd as [Hp Hnd]. destruct (Hlive p ltac:(by left)) as [g Hg].
  apply wp_bind. unfold collect, delete_group, deref. apply wp_bind, wp_bind, wp_get. rewrite Hg. apply wp_ret.
  apply wp_bind, wp_bind, wp_bind, wp_get. rewrite Hg. apply wp_ret, wp_modify, wp_ret.
  match goal with |- wp _ _ ?x => set (h1 := x) end.
  assert (Hold : forall q, q <> p -> objects h1 !! q = objects h !! q) by (intros q Hq; unfold h1; cbn; by rewrite lookup_delete_ne).
  eapply wp_mono; [apply (IH _ h1 Hnd)|].
  { intros q Hq. rewrite Hold; [apply Hlive; by right|by intros ->]. }
  intros r h' [Hr Hobj]. split.
  - intros S. rewrite Hr, elem_of_union, elem_of_singleton. setoid_rewrite elem_of_cons. split.
    + intros [[->|?]|(q & Hq & HS)]; [right; exists p; auto|by left|]. right. exists q. rewrite <-(Hold q) by (by intros ->). auto.
    + intros [?|(q & [->|Hq] & HS)]; [auto|left; left; congruence|]. right. exists q. rewrite (Hold q) by (by intros ->). auto.
  - intros q. rewrite Hobj. destruct (decide (q = p)) as [->|Hqp].
    + rewrite decide_False, decide_True by (done || by left). unfold h1. cbn. by rewrite lookup_delete_eq.
    + rewrite Hold by done. destruct (decide (q ∈ l)); [rewrite decide_True by (by right)|rewrite decide_False by (by rewrite not_elem_of_cons)]; done.
Qed.

(** [groups] are the classes of the addresses under the closure of [link]. *)
Definition classes_of (link : D -> D -> Prop) (groups : gset (gset D)) : Prop :=
  (forall S, S ∈ groups -> S <> ∅) /\
  (forall S T a, S ∈ groups -> T ∈ groups -> a ∈ S -> a ∈ T -> S = T) /\
  (forall a b, (exists S, S ∈ groups /\ a ∈ S /\ b ∈ S) <-> tc link a b).

Lemma merge_all_spec groupings :
  ∅ ∉ groupings -> wp (merge_all groupings) (fun r h => classes_of (share groupings) r /\ objects h = ∅) no_groups.
Proof.
  intros Hne. unfold merge_all. apply wp_bind. eapply wp_mono; [by apply merge_loop_spec|]. intros u h [Hg Hj].
  apply wp_bind, wp_get. eapply wp_mono; [apply collect_spec|].
  { apply NoDup_elements. }
  { intros p Hp%elem_of_elements. by apply (g_unique _ Hg). }
  intros r h' [Hr Hobj]. assert (HS : forall S, S ∈ r <-> exists p, objects h !! p = Some S).
  { intros S. rewrite Hr. split; [intros [?|(p & _ & Hp)]; [set_solver|eauto]|]. intros (p & Hp). right. exists p.
    rewrite elem_of_elements, (g_unique _ Hg). split; [by eexists|done]. }
  split; [split; [|split]|].
  - intros S (p & Hp)%HS ->. by apply (g_nonempty _ Hg) in Hp.
  - intros S T a (p & Hp)%HS (q & Hq)%HS Ha Hb. assert (p = q) as -> by exact (g_disjoint _ Hg p q S T a Hp Hq Ha Hb). congruence.
  - intros a b. rewrite <-Hj. split; [intros (S & (p & Hp)%HS & Ha & Hb); by exists p, S|]. intros (p & S & Hp & Ha & Hb). exists S.
    split; [apply HS; eauto|done].
  - apply map_eq. intros p. rewrite Hobj, lookup_empty. destruct (decide (p ∈ elements (uniqueGroupings h))) as [|Hp]; [done|].
    rewrite elem_of_elements, (g_unique _ Hg) in Hp. destruct (objects h !! p); [|done]. destruct Hp. by eexists.
Qed.

(** ** The sets of addresses used together *)

Definition in_address (w : Wallet) (i : CTxIn) : option D :=
  if IsMine w i then prev_out w i ≫= (fun o => ExtractDestination (scriptPubKey o)) else None.
Definition change_address (w : Wallet) (o : CTxOut) : option D :=
  if IsChange w o then ExtractDestination (scriptPubKey o) else None.
Definition own_address (o : CTxOut) : option D := if IsMine_out o then ExtractDestination (scriptPubKey o) else None.

(** The addresses of the own inputs of a transaction, and its change if it has any. *)
Definition inputs_of (w : Wallet) (l : list CTxIn) : gset D := list_to_set (omap (in_address w) l).
Definition changes_of (w : Wallet) (l : list CTxOut) : gset D := list_to_set (omap (change_address w) l).
Definition tx_group (w : Wallet) (tx : CTransaction) : gset D :=
  if decide (inputs_of w (vin tx) = ∅) then ∅ else inputs_of w (vin tx) ∪ changes_of w (vout tx).

Lemma inputs_cons w i l :
  inputs_of w (i :: l) = match in_address w i with Some a => {[a]} ∪ inputs_of w l | None => inputs_of w l end.
Proof. unfold inputs_of. cbn [omap list_omap]. by destruct (in_address w i). Qed.

Lemma changes_cons w o l :
  changes_of w (o :: l) = match change_address w o with Some a => {[a]} ∪ changes_of w l | None => changes_of w l end.
Proof. unfold changes_of. cbn [omap list_omap]. by destruct (change_address w o). Qed.

Lemma add_input_address w g m i :
  add_input w (g, m) i = match in_address w i with Some a => ({[a]} ∪ g, true) | None => (g, m) end.
Proof. unfold add_input, in_address. by destruct (IsMine w i). Qed.

Lemma add_change_address w g o : add_change w g o = match change_address w o with Some a => {[a]} ∪ g | None => g end.
Proof. unfold add_change, change_address. by destruct (IsChange w o). Qed.

Lemma inputs_fold w l g m :
  foldl (add_input w) (g, m) l = (g ∪ inputs_of w l, m || bool_decide (inputs_of w l <> ∅)).
Proof.
  revert g m. induction l as [|i l IH]; intros g m.
  { change (inputs_of w []) with (∅ : gset D). rewrite bool_decide_false, orb_false_r by (by intros ?). by rewrite (right_id_L ∅ (∪)). }
  cbn [foldl]. rewrite add_input_address, inputs_cons. destruct (in_address w i) as [a|]; [|apply IH].
  rewrite IH. f_equal; [set_solver|]. cbn [orb]. rewrite (bool_decide_true ({[a]} ∪ _ <> ∅)) by set_solver. by rewrite orb_true_r.
Qed.

Lemma changes_fold w l g : foldl (add_change w) g l = g ∪ changes_of w l.
Proof.
  revert g. induction l as [|o l IH]; intros g; [change (changes_of w []) with (∅ : gset D); by rewrite (right_id_L ∅ (∪))|].
  cbn [foldl]. rewrite IH, add_change_address, changes_cons. destruct (change_address w o); [set_solver|done].
Qed.

Lemma lone_fold l gs :
  exists gs', foldl add_lone (gs, ∅) l = (gs', ∅) /\ forall S, S ∈ gs' <-> S ∈ gs \/ exists o a, o ∈ l /\ own_address o = Some a /\ S = {[a]}.
Proof.
  revert gs. induction l as [|o l IH]; intros gs; cbn [foldl].
  { exists gs. split; [done|]. intros S. split; [by left|]. intros [?|(o & a & Ho & _)]; [done|by apply elem_of_nil in Ho]. }
  assert (Hcase : (own_address o = None /\ add_lone (gs, ∅) o = (gs, ∅)) \/
                  exists a, own_address o = Some a /\ add_lone (gs, ∅) o = ({[{[a]}]} ∪ gs, ∅)).
  { unfold own_address, add_lone. destruct (IsMine_out o); [|by left]. destruct (ExtractDestination _) as [a|]; [right|by left].
    exists a. by rewrite (right_id_L ∅ (∪)). }
  destruct Hcase as [[Hn ->]|(a & Ha & ->)].
  - destruct (IH gs) as (gs' & -> & Hgs). exists gs'. split; [done|]. intros S. rewrite Hgs. setoid_rewrite elem_of_cons.
    split; [intros [?|(o' & a & Ho & ? & ?)]; [by left|right; exists o', a; auto]|]. intros [?|(o' & a & [->|Ho] & Ha & ?)]; [by left|congruence|right; eauto].
  - destruct (IH ({[{[a]}]} ∪ gs)) as (gs' & -> & Hgs). exists gs'. split; [done|]. intros S. rewrite Hgs, elem_of_union, elem_of_singleton.
    setoid_rewrite elem_of_cons. split.
    + intros [[->|?]|(o' & a' & Ho & ? & ?)]; [right; exists o, a; auto|by left|right; exists o', a'; auto].
    + intros [?|(o' & a' & [->|Ho] & Ha' & ->)]; [auto|left; left; congruence|right; eauto].
Qed.

Lemma group_tx_spec w gs tx :
  exists gs', group_tx w (gs, ∅) tx = (gs', ∅) /\
    forall S, S ∈ gs' <-> S ∈ gs \/ (S = tx_group w tx /\ S <> ∅) \/ exists o a, o ∈ vout tx /\ own_address o = Some a /\ S = {[a]}.
Proof.
  unfold group_tx. set (start := match vin tx with [] => _ | _ => _ end).
  assert (Hstart : start = (if decide (tx_group w tx = ∅) then gs else {[tx_group w tx]} ∪ gs, ∅)).
  { unfold start. destruct (vin tx) as [|i l] eqn:Ev.
    { rewrite decide_True; [done|]. unfold tx_group. rewrite Ev. by rewrite decide_True. }
    rewrite inputs_fold, (left_id_L ∅ (∪)), orb_false_l. set (I := inputs_of w (i :: l)).
    destruct (decide (I = ∅)) as [HI|HI].
    - rewrite bool_decide_false by (intros Hn; by apply Hn). rewrite HI, size_empty. cbn. rewrite decide_True; [done|].
      unfold tx_group. rewrite Ev. by rewrite decide_True.
    - assert (Etx : tx_group w tx = I ∪ changes_of w (vout tx)) by (unfold tx_group; rewrite Ev; by rewrite decide_False).
      rewrite bool_decide_true by done. rewrite changes_fold, <-Etx. assert (Hne : tx_group w tx <> ∅) by (rewrite Etx; set_solver).
      rewrite decide_False by done. destruct (Nat.ltb_spec 0 (size (tx_group w tx))) as [_|Hz]; [done|].
      exfalso. apply Hne, leibniz_equiv, size_empty_inv. lia. }
  rewrite Hstart. destruct (lone_fold (vout tx) (if decide (tx_group w tx = ∅) then gs else {[tx_group w tx]} ∪ gs)) as (gs' & -> & Hgs).
  exists gs'. split; [done|]. intros S. rewrite Hgs. destruct (decide (tx_group w tx = ∅)) as [E|E].
  - rewrite E. split; [intros [?|?]; auto|]. intros [?|[[-> ?]|?]]; [auto|done|auto].
  - rewrite elem_of_union, elem_of_singleton. split; [intros [[->|?]|?]; auto|]. intros [?|[[-> ?]|?]]; auto.
Qed.

Lemma wallet_groupings_spec w S :
  S ∈ wallet_groupings w <->
  exists h tx, (h, tx) ∈ mapWallet w /\ ((S = tx_group w tx /\ S <> ∅) \/ exists o a, o ∈ vout tx /\ own_address o = Some a /\ S = {[a]}).
Proof.
  unfold wallet_groupings.
  assert (G : forall l gs, exists gs', foldl (group_tx w) (gs, ∅) (snd <$> l) = (gs', ∅) /\ forall T, T ∈ gs' <-> T ∈ gs \/
    exists (h : uint256) tx, (h, tx) ∈ l /\ ((T = tx_group w tx /\ T <> ∅) \/ exists o a, o ∈ vout tx /\ own_address o = Some a /\ T = {[a]})).
  { induction l as [|[h tx] l IH]; intros gs; [exists gs; split; [done|]; intros T; split; [by left|]; intros [?|(h & tx & Hx & _)]; [done|by apply elem_of_nil in Hx]|].
    cbn [fmap list_fmap foldl snd]. destruct (group_tx_spec w gs tx) as (g1 & -> & H1). destruct (IH g1) as (gs' & -> & H2).
    exists gs'. split; [done|]. intros T. rewrite H2, H1. setoid_rewrite elem_of_cons. split.
    - intros [[?|Hx]|(h' & tx' & ? & Hx)]; [by left|right; exists h, tx; auto|right; exists h', tx'; auto].
    - intros [?|(h' & tx' & [[= -> ->]|?] & Hx)]; [auto|auto|right; eauto]. }
  destruct (G (mapWallet w) ∅) as (gs' & -> & Hgs). cbn [fst]. rewrite Hgs. split; [intros [?|?]; [set_solver|done]|by right].
Qed.

(** Two addresses are linked when a transaction of the wallet spends from both, or spends from one and
    gives change to the other; an address the wallet received coins on is linked with itself. *)
Definition linked (w : Wallet) (a b : D) : Prop :=
  exists h tx, (h, tx) ∈ mapWallet w /\
    ((a ∈ tx_group w tx /\ b ∈ tx_group w tx) \/ (a = b /\ exists o, o ∈ vout tx /\ own_address o = Some a)).

Lemma share_linked w a b : share (elements (wallet_groupings w)) a b <-> linked w a b.
Proof.
  unfold share, linked. setoid_rewrite elem_of_elements. split.
  - intros (g & (h & tx & Hin & [[-> Hne]|(o & x & Ho & Hx & ->)])%wallet_groupings_spec & Ha & Hb); exists h, tx; (split; [done|]); [by left|].
    right. apply elem_of_singleton in Ha as ->, Hb as ->. split; [done|]. by exists o.
  - intros (h & tx & Hin & [[Ha Hb]|(-> & o & Ho & Hx)]).
    + exists (tx_group w tx). split; [|done]. apply wallet_groupings_spec. exists h, tx. split; [done|]. left. split; [done|]. set_solver.
    + exists {[b]}. split; [|set_solver]. apply wallet_groupings_spec. exists h, tx. split; [done|]. right. by exists o, b.
Qed.

(** C6 [GetAddressGroupings] ends without following or freeing a dead pointer and frees all its
    objects; the groups it returns are not empty, are disjoint, and two addresses are in one group
    exactly when a chain of links joins them: transactions of the wallet that spend from both or pay
    the change of one to the other. *)
Theorem GetAddressGroupings_classes w :
  exists groups h, GetAddressGroupings w no_groups = Some (groups, h) /\ objects h = ∅ /\ classes_of (linked w) groups.
Proof.
  destruct (wp_elim _ _ _ (merge_all_spec (elements (wallet_groupings w)) ltac:(rewrite elem_of_elements, wallet_groupings_spec; intros (h & tx & _ & [[_ ?]|(o & a & _ & _ & E)]); [done|set_solver])))
    as (groups & h & Hrun & [(H1 & H2 & H3) Hobj]).
  exists groups, h. split; [exact Hrun|]. split; [done|]. split; [done|]. split; [done|]. intros a b. rewrite H3.
  split; (eapply tc_congruence with (f := id); intros x y); unfold id; apply share_linked.
Qed.

End Merge.

(** A transaction that spends from address 1 and pays change to address 2, and the merging of sets. *)
Module Examples.

#[local] Instance names : Destinations := {|
  CTxDestination := Z; ExtractDestination s := match s with [n] => Some n | _ => None end;
  IsMine_out o := match scriptPubKey o with [n] => n <? 10 | _ => false end; IsMine_dest n := n <? 10 |}.

Definition pays (n v : Z) : CTxOut := mkTxOut v [n].
Definition spends (h n : Z) : CTxIn := mkTxIn (mkOutPoint h n) [] 0.
Definition payment : CTransaction := mkTx 1 [spends 100 0] [pays 20 40; pays 2 10] 0.
Definition wallet : Wallet := mkWallet [(100, mkTx 1 [spends 7 0] [pays 1 50; pays 3 20] 0); (200, payment)] {[1; 3]}.

Example group_of_payment : tx_group wallet payment = {[1; 2]} /\ GetDebit wallet (spends 100 0) = 50 /\ IsChange wallet (pays 2 10) = true.
Proof. by vm_compute. Qed.

Example merged_groups :
  (fun x => elements <$> (map_to_list (objects x.2)).*2) <$>
    foldM (fun _ grouping => merge_group grouping) [{[1; 2]}; {[3]}; {[4]}; {[2; 3]}] tt no_groups = Some [[4]; [3; 2; 1]].
Proof. by vm_compute. Qed.

End Examples.
