(* ===== verification/CoinSelect.v ===== *)
(** Which coins of the wallet a payment spends: src/wallet.cpp, [GetBalance], [GetUnconfirmedBalance],
    [GetImmatureBalance], [AvailableCoins], [ApproximateBestSubset], [SelectCoinsMinConf], [SelectCoins],
    the locked coins, and [IsMine] and [GetDebit] in Groupings.v.

    A pointer to a transaction in [mapWallet] is its key; a coin is that key and the position of the
    output.  wallet.h is not in the tree: what a [CWalletTx] knows about itself is a parameter (class
    [WalletTx]), as is [IsFinalTx] at the current height (Validation.v has it).  Random numbers come from
    the interface [Environment] of Rand.v and, for the fast generator of util.h, from [InsecureRand].
    [std::random_shuffle] is the loop of the library; [std::sort] may order equal values in any way. *)

From S2P Require Import Prelude Rand Core Util.

Class InsecureRand (E : Type) := {
  seed_insecure_rand : E -> E;
  insecure_rand : E -> Z * E;
}.

Class WalletTx := {
  CWalletTx : Type;
  base_tx : CWalletTx -> CTransaction;
  IsConfirmed : CWalletTx -> bool;
  IsFromMe : CWalletTx -> bool;
  IsSpent : CWalletTx -> Z -> bool;
  GetDepthInMainChain : CWalletTx -> Z;
  GetBlocksToMaturity : CWalletTx -> Z;
  GetAvailableCredit : CWalletTx -> Z;
  GetImmatureCredit : CWalletTx -> Z;
  IsFinal : CTransaction -> bool;
  IsMineOut : CTxOut -> bool;
}.

Definition int64_max : Z := 2 ^ 63 - 1.

(** The pointer and the position, and with the value in front. *)
Abbreviation OutKey := (uint256 * Z)%type.
Abbreviation Coin := (Z * (uint256 * Z))%type.

(** ** [std::random_shuffle] *)

Definition iter_swap {A} (l : list A) (i j : nat) : list A :=
  match l !! i, l !! j with Some x, Some y => <[i := y]> (<[j := x]> l) | _, _ => l end.

Section Shuffle.
Context {A E : Type} `{Environment E}.

(** [i] counts from the second element; [n] elements are left. *)
Fixpoint shuffle_from (n : nat) (i : nat) (l : list A) (e : E) : list A * E :=
  match n with
  | O => (l, e)
  | S n' => let '(j, e) := draw (Z.of_nat i + 1) e in shuffle_from n' (S i) (iter_swap l i (Z.to_nat j)) e
  end.

Definition random_shuffle (l : list A) (e : E) : list A * E := shuffle_from (length l - 1) 1 l e.

End Shuffle.

Section Wallet.
Context `{WalletTx, Money}.

Record Wallet := mkWallet { mapWallet : list (uint256 * CWalletTx); setLockedCoins : gset OutKey }.

Definition set_locked s w := mkWallet (mapWallet w) s.
Definition LockCoin (output : OutKey) (w : Wallet) : Wallet := set_locked ({[output]} ∪ setLockedCoins w) w.
Definition UnlockCoin (output : OutKey) (w : Wallet) : Wallet := set_locked (setLockedCoins w ∖ {[output]}) w.
Definition UnlockAllCoins (w : Wallet) : Wallet := set_locked ∅ w.
Definition IsLockedCoin (w : Wallet) (hash : uint256) (n : Z) : bool := bool_decide ((hash, n) ∈ setLockedCoins w).

(** ** Balances *)

Definition total_of (f : CWalletTx -> option Z) (w : Wallet) : Z :=
  foldl (fun nTotal e => match f e.2 with Some n => s64 (nTotal + n) | None => nTotal end) 0 (mapWallet w).

Definition GetBalance : Wallet -> Z :=
  total_of (fun pcoin => if IsConfirmed pcoin then Some (GetAvailableCredit pcoin) else None).
Definition GetUnconfirmedBalance : Wallet -> Z :=
  total_of (fun pcoin => if negb (IsFinal (base_tx pcoin)) || negb (IsConfirmed pcoin) then Some (GetAvailableCredit pcoin) else None).
Definition GetImmatureBalance : Wallet -> Z := total_of (fun pcoin => Some (GetImmatureCredit pcoin)).

(** ** The coins that can be spent *)

Record COutput := mkOutput { o_hash : uint256; o_tx : CWalletTx; o_i : Z; o_nDepth : Z }.

Definition out_at (pcoin : CWalletTx) (i : Z) : CTxOut := default CTxOut.SetNull (vout (base_tx pcoin) !! Z.to_nat i).

Definition available_of (w : Wallet) (fOnlyConfirmed : bool) (e : uint256 * CWalletTx) : list COutput :=
  let '(hash, pcoin) := e in
  if negb (IsFinal (base_tx pcoin)) then []
  else if fOnlyConfirmed && negb (IsConfirmed pcoin) then []
  else if CTransaction.IsCoinBase (base_tx pcoin) && (0 <? GetBlocksToMaturity pcoin) then []
  else
    omap (fun i =>
      let o := out_at pcoin i in
      if negb (IsSpent pcoin i) && IsMineOut o && negb (IsLockedCoin w hash i) && (0 <? nValue o)
      then Some (mkOutput hash pcoin i (GetDepthInMainChain pcoin)) else None)
    (seqZ 0 (lenZ (vout (base_tx pcoin)))).

Definition AvailableCoins (w : Wallet) (fOnlyConfirmed : bool) : list COutput :=
  mjoin (available_of w fOnlyConfirmed <$> mapWallet w).

(** ** The subset with the smallest sum that is enough *)

Record Subset := mkSubset {
  nTotal : Z; vfIncluded : list bool; fReachedTarget : bool; nBest : Z; vfBest : list bool }.

(** The coin at [i], of value [v], is put in. *)
Definition put_in (nTargetValue : Z) (i : nat) (v : Z) (s : Subset) : Subset :=
  let total := s64 (nTotal s + v) in
  let included := <[i := true]> (vfIncluded s) in
  if nTargetValue <=? total then
    let '(best, vf) := if total <? nBest s then (total, included) else (nBest s, vfBest s) in
    mkSubset (s64 (total - v)) (<[i := false]> included) true best vf
  else mkSubset total included (fReachedTarget s) (nBest s) (vfBest s).

Section Random.
Context {E : Type} `{Environment E, InsecureRand E}.

(** One pass over the values from position [i]. *)
Fixpoint one_pass (nPass : Z) (nTargetValue : Z) (i : nat) (values : list Z) (s : Subset) (e : E) : Subset * E :=
  match values with
  | [] => (s, e)
  | v :: r =>
    let '(b, e) :=
      if nPass =? 0 then let '(x, e) := insecure_rand e in (negb (Z.land x 1 =? 0), e)
      else (negb (default false (vfIncluded s !! i)), e) in
    one_pass nPass nTargetValue (S i) r (if b then put_in nTargetValue i v s else s) e
  end.

(** The loop over [nRep]. *)
Fixpoint subset_rounds (iterations : nat) (nTargetValue : Z) (values : list Z) (best : Z) (vf : list bool) (e : E) : Z * list bool * E :=
  match iterations with
  | O => (best, vf, e)
  | S n =>
    if best =? nTargetValue then (best, vf, e)
    else
      let s := mkSubset 0 (replicate (length values) false) false best vf in
      let '(s, e) := one_pass 0 nTargetValue 0 values s e in
      let '(s, e) := if negb (fReachedTarget s) then one_pass 1 nTargetValue 0 values s e else (s, e) in
      subset_rounds n nTargetValue values (nBest s) (vfBest s) e
  end.

(** The best sum and which coins make it. *)
Definition ApproximateBestSubset (vValue : list Coin) (nTotalLower nTargetValue : Z) (iterations : nat) (e : E) : Z * list bool * E :=
  subset_rounds iterations nTargetValue vValue.*1 nTotalLower (replicate (length vValue) true) (seed_insecure_rand e).

(** ** Choosing *)

Definition coin_of (output : COutput) : Coin := (nValue (out_at (o_tx output) (o_i output)), (o_hash output, o_i output)).

Inductive Scan := Exact (coin : Coin) | Rest (coinLowestLarger : option Coin) (vValue : list Coin) (nTotalLower : Z).

(** The loop over the shuffled coins; no larger coin yet counts as the largest number. *)
Fixpoint scan (nTargetValue nConfMine nConfTheirs : Z) (vCoins : list COutput) (lowest : option Coin) (vValue : list Coin) (nTotalLower : Z) : Scan :=
  match vCoins with
  | [] => Rest lowest vValue nTotalLower
  | output :: r =>
    let next := scan nTargetValue nConfMine nConfTheirs r in
    if o_nDepth output <? (if IsFromMe (o_tx output) then nConfMine else nConfTheirs) then next lowest vValue nTotalLower
    else
      let coin := coin_of output in
      let n := coin.1 in
      if n =? nTargetValue then Exact coin
      else if n <? s64 (nTargetValue + CENT) then next lowest (vValue ++ [coin]) (s64 (nTotalLower + n))
      else if n <? match lowest with Some c => c.1 | None => int64_max end then next (Some coin) vValue nTotalLower
      else next lowest vValue nTotalLower
  end.

(** The coins with a mark, and what they are worth. *)
Definition marked (vf : list bool) (l : list Coin) : list Coin := (filter (fun p => p.1 = true) (zip vf l)).*2.
Definition take_coins (l : list Coin) : gset OutKey * Z :=
  foldl (fun acc coin => ({[coin.2]} ∪ acc.1, s64 (acc.2 + coin.1))) (∅, 0) l.

(** [sort(rbegin, rend, CompareValueOnly())]: the largest first. *)
#[global] Instance larger_dec : RelDecision (fun a b : Coin => b.1 <= a.1).
Proof. intros a b. apply _. Defined.
Definition sort_values : list Coin -> list Coin := merge_sort (fun a b : Coin => b.1 <= a.1).

(** [None]: false, with no coins. *)
Definition SelectCoinsMinConf (nTargetValue nConfMine nConfTheirs : Z) (vCoins : list COutput) (e : E) : option (gset OutKey * Z) * E :=
  let '(vCoins, e) := random_shuffle vCoins e in
  match scan nTargetValue nConfMine nConfTheirs vCoins None [] 0 with
  | Exact coin => (Some (take_coins [coin]), e)
  | Rest lowest vValue nTotalLower =>
    if nTotalLower =? nTargetValue then (Some (take_coins vValue), e)
    else if nTotalLower <? nTargetValue then
      match lowest with None => (None, e) | Some coin => (Some (take_coins [coin]), e) end
    else
      let vValue := sort_values vValue in
      let '(best, vf, e) := ApproximateBestSubset vValue nTotalLower nTargetValue 1000 e in
      let '(best, vf, e) :=
        if negb (best =? nTargetValue) && (s64 (nTargetValue + CENT) <=? nTotalLower)
        then ApproximateBestSubset vValue nTotalLower (s64 (nTargetValue + CENT)) 1000 e else (best, vf, e) in
      match lowest with
      | Some coin =>
        if (negb (best =? nTargetValue) && (best <? s64 (nTargetValue + CENT))) || (coin.1 <=? best)
        then (Some (take_coins [coin]), e) else (Some (take_coins (marked vf vValue)), e)
      | None => (Some (take_coins (marked vf vValue)), e)
      end
  end.

Definition SelectCoins (w : Wallet) (nTargetValue : Z) (e : E) : option (gset OutKey * Z) * E :=
  let vCoins := AvailableCoins w true in
  let '(r, e) := SelectCoinsMinConf nTargetValue 1 6 vCoins e in
  match r with
  | Some _ => (r, e)
  | None =>
    let '(r, e) := SelectCoinsMinConf nTargetValue 1 1 vCoins e in
    match r with Some _ => (r, e) | None => SelectCoinsMinConf nTargetValue 0 1 vCoins e end
  end.

End Random.
End Wallet.
