(* ===== verification/CoinSelectThms.v ===== *)
(** What CoinSelect.v guarantees: the chosen coins can be spent, are enough, and the change they leave is
    none or at least a cent where that is possible; the choice fails only when the coins are too few. *)

From S2P Require Import Prelude Digits Rand Core Util CoinSelect.

(** ** Shuffling *)

Lemma iter_swap_perm {A} (l : list A) i j : iter_swap l i j ≡ₚ l.
Proof.
  unfold iter_swap. destruct (l !! i) as [x|] eqn:Hi; [|done]. destruct (l !! j) as [y|] eqn:Hj; [|done].
  apply Permutation_inj. split; [by rewrite !length_insert|].
  exists (fun k => if decide (k = i) then j else if decide (k = j) then i else k). split.
  - intros a b. repeat case_decide; congruence.
  - intros k. destruct (decide (k = i)) as [->|Hki].
    + rewrite list_lookup_insert_eq; [done|]. rewrite length_insert. by eapply lookup_lt_Some.
    + rewrite list_lookup_insert_ne by done. case_decide as Hkj; [subst k|].
      * rewrite list_lookup_insert_eq; [done|]. by eapply lookup_lt_Some.
      * by rewrite list_lookup_insert_ne.
Qed.

Lemma random_shuffle_perm {A E} `{Environment E} (l : list A) e : (random_shuffle l e).1 ≡ₚ l.
Proof.
  unfold random_shuffle. generalize (length l - 1)%nat. intros n. generalize 1%nat. revert l e.
  induction n as [|n IH]; intros l e i; cbn [shuffle_from]; [done|]. destruct (draw _ e) as [j e']. by rewrite IH, iter_swap_perm.
Qed.

Lemma elem_rest {A} (c : A) l : c ∈ l -> exists rest, [c] ++ rest ≡ₚ l.
Proof. intros (l1 & l2 & ->)%list_elem_of_split. exists (l1 ++ l2). by rewrite <-Permutation_middle. Qed.

Lemma filter_all {A} (P : A -> Prop) `{!forall x, Decision (P x)} (l : list A) : (forall x, x ∈ l -> P x) -> filter P l = l.
Proof.
  induction l as [|x l IH]; [done|]. intros Hall. rewrite filter_cons, decide_True by (apply Hall; by left).
  f_equal. apply IH. intros y Hy. apply Hall. by right.
Qed.

(** ** Sums *)

Definition sum_of (l : list Z) : Z := foldr Z.add 0 l.
Definition worth (l : list Coin) : Z := sum_of l.*1.

(** The sum of the values with a mark. *)
Definition picked (vf : list bool) (vs : list Z) : Z := sum_of (zip_with (fun (b : bool) (v : Z) => if b then v else 0) vf vs).

Lemma sum_of_app l k : sum_of (l ++ k) = sum_of l + sum_of k.
Proof. induction l as [|x l IH]; cbn; [done|]. fold (sum_of (l ++ k)) (sum_of l). lia. Qed.

Lemma sum_of_perm l k : l ≡ₚ k -> sum_of l = sum_of k.
Proof. unfold sum_of. induction 1; cbn [foldr]; lia. Qed.

Lemma sum_of_nonneg l : Forall (fun v => 0 < v) l -> 0 <= sum_of l.
Proof. unfold sum_of. induction 1; cbn [foldr]; lia. Qed.

Lemma sum_of_elem l v : Forall (fun v => 0 < v) l -> v ∈ l -> 0 < v <= sum_of l.
Proof.
  induction 1 as [|x l Hx Hl IH]; [by intros ?%elem_of_nil|]. cbn. fold (sum_of l). pose proof (sum_of_nonneg l Hl).
  intros [->|Hv]%elem_of_cons; [lia|]. specialize (IH Hv). lia.
Qed.

Lemma worth_app l k : worth (l ++ k) = worth l + worth k.
Proof. unfold worth. by rewrite fmap_app, sum_of_app. Qed.
Lemma worth_perm l k : l ≡ₚ k -> worth l = worth k.
Proof. intros Hp. apply sum_of_perm. by rewrite Hp. Qed.

Lemma picked_cons b vf v vs : picked (b :: vf) (v :: vs) = (if b then v else 0) + picked vf vs.
Proof. done. Qed.
Lemma picked_nil vf : picked vf [] = 0.
Proof. by destruct vf. Qed.

Lemma picked_none n vs : picked (replicate n false) vs = 0.
Proof. revert n. induction vs as [|v vs IH]; intros [|n]; try done. cbn [replicate]. by rewrite picked_cons, IH. Qed.

Lemma picked_all vs : picked (replicate (length vs) true) vs = sum_of vs.
Proof. induction vs as [|v vs IH]; [done|]. cbn [length replicate]. by rewrite picked_cons, IH. Qed.

Lemma picked_put vf vs i v : vf !! i = Some false -> vs !! i = Some v -> picked (<[i := true]> vf) vs = picked vf vs + v.
Proof.
  revert vs i. induction vf as [|b vf IH]; intros [|w vs] [|i]; try done.
  - intros [= ->] [= ->]. change (<[0%nat := true]> (false :: vf)) with (true :: vf). rewrite !picked_cons. lia.
  - intros Hi Hv. change (<[S i := true]> (b :: vf)) with (b :: <[i := true]> vf). rewrite !picked_cons, (IH vs i Hi Hv). lia.
Qed.

Lemma picked_bounds vf vs : Forall (fun v => 0 < v) vs -> 0 <= picked vf vs <= sum_of vs.
Proof.
  intros Hv. revert vf. induction Hv as [|v vs Hv0 Hv IH]; intros vf; [rewrite picked_nil; cbn; lia|].
  pose proof (sum_of_nonneg vs Hv). change (sum_of (v :: vs)) with (v + sum_of vs).
  destruct vf as [|b vf]; [change (picked [] (v :: vs)) with 0; lia|]. specialize (IH vf). rewrite picked_cons. destruct b; lia.
Qed.

(** ** The search for a subset *)

(** The marks in [s] are of the coins of [vs], they sum up to less than the target; the best marks so far
    to at least the target and at most [hi]. *)
Record searching (target hi : Z) (vs : list Z) (s : Subset) : Prop := {
  se_len : length (vfIncluded s) = length vs;
  se_total : nTotal s = picked (vfIncluded s) vs;
  se_below : nTotal s < target;
  se_best_len : length (vfBest s) = length vs;
  se_best : nBest s = picked (vfBest s) vs;
  se_range : target <= nBest s <= hi }.

Section Search.
Context (target hi : Z) (vs : list Z).
Context (Hpos : Forall (fun v => 0 < v) vs) (Hhi : sum_of vs = hi) (Ht : 0 < target <= hi) (Hmax : target + hi < 2 ^ 63).

Lemma s64_in z : - 2 ^ 63 <= z < 2 ^ 63 -> s64 z = z.
Proof. intros Hz. apply wraps_small; [lia|exact Hz]. Qed.

Lemma put_in_searching s i v :
  searching target hi vs s -> vfIncluded s !! i = Some false -> vs !! i = Some v ->
  searching target hi vs (put_in target i v s) /\ forall j, j <> i -> vfIncluded (put_in target i v s) !! j = vfIncluded s !! j.
Proof.
  intros [H1 H2 H3 H4 H5 H6] Hi Hv. assert (Hvr : 0 < v <= hi) by (rewrite <-Hhi; apply sum_of_elem; [done|by eapply list_elem_of_lookup_2]).
  pose proof (picked_bounds (vfIncluded s) vs Hpos) as Hb.
  pose proof (picked_put _ _ _ _ Hi Hv) as Hput. pose proof (picked_bounds (<[i := true]> (vfIncluded s)) vs Hpos) as Hb'.
  assert (Hback : <[i := false]> (<[i := true]> (vfIncluded s)) = vfIncluded s) by (rewrite list_insert_insert_eq; by apply list_insert_id).
  unfold put_in. rewrite (s64_in (nTotal s + v)) by lia. destruct (Z.leb_spec target (nTotal s + v)).
  - destruct (Z.ltb_spec (nTotal s + v) (nBest s)).
    + rewrite s64_in by lia. split; [constructor; cbn [nTotal vfIncluded nBest vfBest]; rewrite ?Hback, ?length_insert; first [lia|done]|]. cbn [vfIncluded]. by rewrite Hback.
    + rewrite s64_in by lia. split; [constructor; cbn [nTotal vfIncluded nBest vfBest]; rewrite ?Hback, ?length_insert; first [lia|done]|]. cbn [vfIncluded]. by rewrite Hback.
  - split; [constructor; cbn [nTotal vfIncluded nBest vfBest]; rewrite ?length_insert; first [lia|done]|]. intros j Hj. cbn. by rewrite list_lookup_insert_ne.
Qed.

Section Random.
Context {E : Type} `{InsecureRand E}.

Lemma one_pass_searching nPass pre values s e :
  vs = pre ++ values -> searching target hi vs s ->
  (nPass = 0 -> forall j, (length pre <= j < length vs)%nat -> vfIncluded s !! j = Some false) ->
  searching target hi vs (one_pass nPass target (length pre) values s e).1.
Proof.
  revert pre s e. induction values as [|v values IH]; intros pre s e Ev Hs Hfalse; [done|]. cbn [one_pass].
  assert (Hv : vs !! length pre = Some v) by (rewrite Ev, lookup_app_r, Nat.sub_diag by lia; done).
  assert (Hlen : (length pre < length vs)%nat) by (rewrite Ev, length_app; cbn; lia).
  assert (Hnext : forall s' e', searching target hi vs s' -> (nPass = 0 -> forall j, (length pre < j < length vs)%nat -> vfIncluded s' !! j = Some false) ->
    searching target hi vs (one_pass nPass target (S (length pre)) values s' e').1).
  { intros s' e' Hs' Hf. specialize (IH (pre ++ [v]) s' e'). rewrite length_app in IH. cbn [length] in IH. rewrite Nat.add_1_r in IH.
    apply IH; [by rewrite <-(assoc_L (++))|done|]. intros Hp j Hj. apply Hf; [done|lia]. }
  assert (Hput : vfIncluded s !! length pre = Some false -> forall e', searching target hi vs (one_pass nPass target (S (length pre)) values (put_in target (length pre) v s) e').1).
  { intros Hin e'. destruct (put_in_searching s (length pre) v Hs Hin Hv) as [Hs' Hsame]. apply Hnext; [done|].
    intros Hp j Hj. rewrite Hsame by lia. apply Hfalse; [done|lia]. }
  assert (Hskip : forall e', searching target hi vs (one_pass nPass target (S (length pre)) values s e').1).
  { intros e'. apply Hnext; [done|]. intros Hp j Hj. apply Hfalse; [done|lia]. }
  destruct (Z.eqb_spec nPass 0) as [Hp|Hp].
  - destruct (insecure_rand e) as [x e']. destruct (negb (Z.land x 1 =? 0)); [|apply Hskip]. apply Hput, Hfalse; [done|lia].
  - destruct (vfIncluded s !! length pre) as [[]|] eqn:Ei; cbn [default negb]; [apply Hskip|by apply Hput|].
    apply lookup_ge_None in Ei. rewrite (se_len _ _ _ _ Hs) in Ei. lia.
Qed.

Lemma subset_rounds_best n best vf e :
  length vf = length vs -> best = picked vf vs -> target <= best <= hi ->
  let r := subset_rounds n target vs best vf e in
  length r.1.2 = length vs /\ r.1.1 = picked r.1.2 vs /\ target <= r.1.1 <= hi.
Proof.
  revert best vf e. induction n as [|n IH]; intros best vf e Hl Hb Hr; cbn [subset_rounds]; [done|].
  destruct (Z.eqb_spec best target); [done|].
  set (s0 := mkSubset 0 (replicate (length vs) false) false best vf).
  assert (Hs0 : searching target hi vs s0).
  { constructor; cbn [s0 nTotal vfIncluded nBest vfBest]; [apply length_replicate|by rewrite picked_none|lia|done|done|done]. }
  pose proof (one_pass_searching 0 [] vs s0 e eq_refl Hs0) as Hs1. cbn [length] in Hs1. destruct (one_pass 0 target 0 vs s0 e) as [s1 e1].
  cbn [fst] in Hs1. assert (Hs1' : searching target hi vs s1).
  { apply Hs1. intros _ j Hj. cbn. rewrite lookup_replicate. split; [done|lia]. }
  destruct (negb (fReachedTarget s1)).
  - pose proof (one_pass_searching 1 [] vs s1 e1 eq_refl Hs1' ltac:(done)) as Hs2. cbn [length] in Hs2.
    destruct (one_pass 1 target 0 vs s1 e1) as [s2 e2]. cbn [fst] in Hs2. apply IH; apply Hs2.
  - apply IH; apply Hs1'.
Qed.

End Random.
End Search.

(** ** Coins with a mark *)

Lemma marked_cons b vf c l : marked (b :: vf) (c :: l) = if b then c :: marked vf l else marked vf l.
Proof. unfold marked. cbn [zip zip_with]. rewrite filter_cons. cbn [fst]. destruct b; [by rewrite decide_True|by rewrite decide_False]. Qed.
Lemma marked_nil vf : marked vf [] = [].
Proof. by destruct vf. Qed.

Lemma marked_worth vf l : length vf = length l -> worth (marked vf l) = picked vf l.*1.
Proof.
  revert vf. induction l as [|c l IH]; intros [|b vf] Hl; try done. injection Hl as Hl. rewrite marked_cons, fmap_cons, picked_cons.
  specialize (IH vf Hl). destruct b; [|lia]. change (worth (c :: marked vf l)) with (c.1 + worth (marked vf l)). lia.
Qed.

Lemma marked_part vf l : exists rest, marked vf l ++ rest ≡ₚ l.
Proof.
  revert vf. induction l as [|c l IH]; intros vf; [exists []; by rewrite marked_nil|].
  destruct vf as [|b vf]; [by exists (c :: l)|]. rewrite marked_cons. destruct (IH vf) as (rest & Hr). destruct b.
  - exists rest. cbn. by rewrite Hr.
  - exists (c :: rest). by rewrite <-Permutation_middle, Hr.
Qed.

Lemma take_coins_spec (l : list Coin) (acc : gset OutKey) t :
  Forall (fun v => 0 < v) l.*1 -> 0 <= t -> t + worth l < 2 ^ 63 ->
  foldl (fun (acc : gset OutKey * Z) (coin : Coin) => ({[coin.2]} ∪ acc.1, s64 (acc.2 + coin.1))) (acc, t) l = (list_to_set l.*2 ∪ acc, t + worth l).
Proof.
  revert acc t. induction l as [|c l IH]; intros acc t Hp Ht Hm; cbn [foldl].
  { f_equal; [set_solver|]. change (worth []) with 0. lia. }
  rewrite fmap_cons in Hp. apply Forall_cons in Hp as [Hc Hp]. pose proof (sum_of_nonneg _ Hp) as Hn. fold (worth l) in Hn.
  change (worth (c :: l)) with (c.1 + worth l) in *. cbn [fst snd]. rewrite s64_in by lia. rewrite IH by (done || lia).
  rewrite fmap_cons, list_to_set_cons. f_equal; [set_solver|lia].
Qed.

Lemma take_coins_worth l :
  Forall (fun v => 0 < v) l.*1 -> worth l < 2 ^ 63 -> take_coins l = (list_to_set l.*2, worth l).
Proof. intros Hp Hm. unfold take_coins. rewrite take_coins_spec by (done || lia). f_equal. by rewrite (right_id_L ∅ (∪)). Qed.

Section Selection.
Context `{WalletTx, Money} {E : Type} `{Environment E, InsecureRand E}.

(** ** The scan *)

(** The coins that are deep enough. *)
Definition deep (nConfMine nConfTheirs : Z) (o : COutput) : bool :=
  (if IsFromMe (o_tx o) then nConfMine else nConfTheirs) <=? o_nDepth o.
Definition eligible (nConfMine nConfTheirs : Z) (l : list COutput) : list Coin :=
  coin_of <$> filter (fun o => deep nConfMine nConfTheirs o = true) l.

(** What the scan leaves: no coin has the value of the target; the small ones and their sum; the smallest
    of the large ones. *)
Record left_over (target : Z) (cs : list Coin) (lowest : option Coin) (vValue : list Coin) (total : Z) : Prop := {
  l_none c : c ∈ cs -> c.1 <> target;
  l_small : vValue = filter (fun c => c.1 < target + CENT) cs;
  l_total : total = worth vValue;
  l_lowest : match lowest with
             | None => forall c, c ∈ cs -> c.1 < target + CENT
             | Some b => b ∈ cs /\ target + CENT <= b.1 /\ forall c, c ∈ cs -> target + CENT <= c.1 -> b.1 <= c.1
             end }.

Definition scanned (target : Z) (cs : list Coin) (r : Scan) : Prop :=
  match r with
  | Exact c => c ∈ cs /\ c.1 = target
  | Rest lowest vValue total => left_over target cs lowest vValue total
  end.

Lemma eligible_cons m t o l :
  eligible m t (o :: l) = if deep m t o then coin_of o :: eligible m t l else eligible m t l.
Proof. unfold eligible. rewrite filter_cons. by destruct (deep m t o). Qed.

Lemma eligible_app m t l k : eligible m t (l ++ k) = eligible m t l ++ eligible m t k.
Proof. unfold eligible. by rewrite filter_app, fmap_app. Qed.

Lemma filter_worth (P : Coin -> Prop) `{!forall c, Decision (P c)} l :
  Forall (fun v => 0 < v) l.*1 -> 0 <= worth (filter P l) <= worth l.
Proof.
  induction l as [|c l IH]; intros Hp; [done|]. rewrite fmap_cons in Hp. apply Forall_cons in Hp as [Hc Hp]. specialize (IH Hp).
  rewrite filter_cons. change (worth (c :: l)) with (c.1 + worth l). case_decide; [|lia].
  change (worth (c :: filter P l)) with (c.1 + worth (filter P l)). lia.
Qed.

Lemma scan_spec target m t pre l lowest vValue total :
  0 < target -> 0 < CENT -> target + CENT < 2 ^ 63 ->
  Forall (fun v => 0 < v) (eligible m t (pre ++ l)).*1 -> worth (eligible m t (pre ++ l)) < 2 ^ 63 - 1 ->
  left_over target (eligible m t pre) lowest vValue total ->
  scanned target (eligible m t (pre ++ l)) (scan target m t l lowest vValue total).
Proof.
  intros Ht HC Hmax. revert pre lowest vValue total. induction l as [|o l IH]; intros pre lowest vValue total Hp Hw [L1 L2 L3 L4]; cbn [scan].
  { rewrite app_nil_r. by constructor. }
  assert (Eapp : pre ++ o :: l = (pre ++ [o]) ++ l) by (by rewrite <-(assoc_L (++))). rewrite Eapp in *.
  assert (Eone : eligible m t (pre ++ [o]) = eligible m t pre ++ if deep m t o then [coin_of o] else []).
  { rewrite eligible_app, eligible_cons. by destruct (deep m t o). }
  unfold deep in Eone. rewrite Z.leb_antisym in Eone.
  destruct (o_nDepth o <? (if IsFromMe (o_tx o) then m else t)); cbn [negb] in Eone.
  { apply IH; [done|done|]. rewrite Eone, app_nil_r. by constructor. }
  set (c := coin_of o) in *. set (n := c.1).
  assert (Hin : c ∈ eligible m t ((pre ++ [o]) ++ l)) by (rewrite eligible_app, Eone, !elem_of_app; left; right; by left).
  assert (Hn : 0 < n <= worth (eligible m t ((pre ++ [o]) ++ l))) by (apply sum_of_elem; [done|]; apply list_elem_of_fmap; by exists c).
  destruct (Z.eqb_spec n target) as [En|En]; [by split|].
  assert (Hnone : forall x, x ∈ eligible m t pre ++ [c] -> x.1 <> target).
  { intros x [Hx| ->%list_elem_of_singleton]%elem_of_app; [auto|done]. }
  rewrite (s64_in (target + CENT)) by lia. destruct (Z.ltb_spec n (target + CENT)) as [Hlt|Hge].
  - assert (Esmall : vValue ++ [c] = filter (fun x => x.1 < target + CENT) (eligible m t pre ++ [c])).
    { rewrite filter_app, <-L2. f_equal. rewrite filter_cons. by rewrite decide_True. }
    assert (Hsum : total + n = worth (vValue ++ [c])) by (rewrite worth_app, L3; unfold worth at 3; cbn; fold n; lia).
    assert (Hbound : worth (vValue ++ [c]) <= worth (eligible m t ((pre ++ [o]) ++ l)) /\ 0 <= worth vValue).
    { rewrite eligible_app, Eone in Hp |- *. rewrite fmap_app in Hp. apply Forall_app in Hp as [Hp1 Hp2]. rewrite Esmall, (worth_app _ (eligible m t l)).
      pose proof (filter_worth (fun x => x.1 < target + CENT) _ Hp1). pose proof (sum_of_nonneg _ Hp2) as Hl. fold (worth (eligible m t l)) in Hl.
      split; [lia|]. rewrite L2. rewrite fmap_app in Hp1. apply Forall_app in Hp1 as [Hp0 _]. pose proof (filter_worth (fun x => x.1 < target + CENT) _ Hp0). lia. }
    rewrite s64_in by lia. apply IH; [done|done|]. rewrite Eone. constructor; [done|done|done|].
    destruct lowest as [b|].
    + destruct L4 as (Hb & Hb1 & Hb2). split; [rewrite elem_of_app; by left|]. split; [done|].
      intros x [Hx| ->%list_elem_of_singleton]%elem_of_app; [auto|]. fold n. lia.
    + intros x [Hx| ->%list_elem_of_singleton]%elem_of_app; [auto|done].
  - assert (Esmall : vValue = filter (fun x => x.1 < target + CENT) (eligible m t pre ++ [c])).
    { rewrite filter_app, <-L2, filter_cons, decide_False by (fold n; lia). by rewrite app_nil_r. }
    destruct (Z.ltb_spec n (match lowest with Some c => c.1 | None => int64_max end)) as [Hlow|Hlow]; (apply IH; [done|done|]); rewrite Eone.
    + constructor; [done|done|done|]. split; [rewrite elem_of_app; right; by left|]. split; [done|].
      intros x [Hx| ->%list_elem_of_singleton]%elem_of_app Hx1; [|done]. fold n. destruct lowest as [b|].
      * destruct L4 as (Hb & Hb1 & Hb2). specialize (Hb2 x Hx Hx1). lia.
      * specialize (L4 x Hx). lia.
    + constructor; [done|done|done|]. destruct lowest as [b|]; [|unfold int64_max in Hlow; lia].
      destruct L4 as (Hb & Hb1 & Hb2). split; [rewrite elem_of_app; by left|]. split; [done|].
      intros x [Hx| ->%list_elem_of_singleton]%elem_of_app Hx1; [auto|]. fold n. lia.
Qed.

(** ** The choice *)

(** The coins of a list with a value, and what is left; enough for the target; and the change. *)
Record chosen (target : Z) (cs : list Coin) (set : gset OutKey) (v : Z) : Prop := {
  ch_coins : exists l rest, l ++ rest ≡ₚ cs /\ set = list_to_set l.*2 /\ v = worth l;
  ch_enough : target <= v;
  ch_exact c : c ∈ cs -> c.1 = target -> v = target;
  ch_change : v = target \/ target + CENT <= v \/ forall c, c ∈ cs -> c.1 < target + CENT }.

Lemma Approximate_spec (vValue : list Coin) total target n e :
  Forall (fun v => 0 < v) vValue.*1 -> total = worth vValue -> 0 < target <= total -> target + total < 2 ^ 63 ->
  let r := ApproximateBestSubset vValue total target n e in
  length r.1.2 = length vValue /\ r.1.1 = worth (marked r.1.2 vValue) /\ target <= r.1.1 <= total.
Proof.
  intros Hp -> Ht Hm. unfold ApproximateBestSubset. cbv zeta.
  destruct (subset_rounds_best target (worth vValue) vValue.*1 Hp eq_refl Ht Hm n (worth vValue) (replicate (length vValue) true) (seed_insecure_rand e)) as (R1 & R2 & R3).
  - by rewrite length_replicate, length_fmap.
  - rewrite <-(length_fmap fst vValue). by rewrite picked_all.
  - lia.
  - rewrite length_fmap in R1. split; [done|]. split; [|done]. by rewrite marked_worth.
Qed.

Lemma worth_part l rest cs : l ++ rest ≡ₚ cs -> Forall (fun v => 0 < v) cs.*1 -> Forall (fun v => 0 < v) l.*1 /\ worth l <= worth cs.
Proof.
  intros Hl Hp. rewrite <-Hl in Hp. rewrite fmap_app in Hp. apply Forall_app in Hp as [H1' H2']. split; [done|].
  rewrite <-(worth_perm _ _ Hl), worth_app. pose proof (sum_of_nonneg _ H2') as Hr. fold (worth rest) in Hr. lia.
Qed.

Lemma chosen_intro target cs l rest v :
  Forall (fun v => 0 < v) cs.*1 -> worth cs < 2 ^ 63 -> l ++ rest ≡ₚ cs -> v = worth l -> target <= v ->
  (forall c, c ∈ cs -> c.1 = target -> v = target) ->
  (v = target \/ target + CENT <= v \/ forall c, c ∈ cs -> c.1 < target + CENT) ->
  exists set, take_coins l = (set, v) /\ chosen target cs set v.
Proof.
  intros Hp Hm Hl -> Ht He Hc. destruct (worth_part _ _ _ Hl Hp) as [Hlp Hlw].
  exists (list_to_set l.*2). split; [apply take_coins_worth; [done|lia]|]. constructor; eauto.
Qed.

Lemma sort_values_perm l : sort_values l ≡ₚ l.
Proof. apply merge_sort_Permutation. Qed.

(** The choice among coins that can all be spent; [None] only if they are too few. *)
Definition select_ok (target : Z) (cs : list Coin) (r : option (gset OutKey * Z)) : Prop :=
  match r with Some (set, v) => chosen target cs set v | None => worth cs < target end.

Lemma left_over_ok target cs lowest vValue total e :
  0 < target -> 0 < CENT -> target + CENT + worth cs < 2 ^ 63 - 1 -> Forall (fun v => 0 < v) cs.*1 -> left_over target cs lowest vValue total ->
  select_ok target cs
    (if total =? target then (Some (take_coins vValue), e)
     else if total <? target then match lowest with None => (None, e) | Some coin => (Some (take_coins [coin]), e) end
     else
       let vValue := sort_values vValue in
       let '(best, vf, e) := ApproximateBestSubset vValue total target 1000 e in
       let '(best, vf, e) :=
         if negb (best =? target) && (s64 (target + CENT) <=? total)
         then ApproximateBestSubset vValue total (s64 (target + CENT)) 1000 e else (best, vf, e) in
       match lowest with
       | Some coin =>
         if (negb (best =? target) && (best <? s64 (target + CENT))) || (coin.1 <=? best)
         then (Some (take_coins [coin]), e) else (Some (take_coins (marked vf vValue)), e)
       | None => (Some (take_coins (marked vf vValue)), e)
       end).1.
Proof.
  intros Ht HC Hmax Hp [L1 L2 L3 L4]. pose proof (sum_of_nonneg _ Hp) as H0'. fold (worth cs) in H0'. rewrite (s64_in (target + CENT)) by lia.
  assert (Hsmall : vValue ++ filter (fun c => ~ c.1 < target + CENT) cs ≡ₚ cs) by (rewrite L2; apply filter_app_complement).
  destruct (worth_part _ _ _ Hsmall Hp) as [Hvp Hvw].
  assert (Hno : forall c, c ∈ cs -> c.1 = target -> forall v : Z, v = target) by (intros c Hc Ec; by destruct (L1 c Hc)).
  assert (Hone : forall coin, coin ∈ cs -> target + CENT <= coin.1 -> exists set v, take_coins [coin] = (set, v) /\ chosen target cs set v).
  { intros coin Hc Hge. destruct (elem_rest _ _ Hc) as (rest & Hrest).
    destruct (chosen_intro target cs [coin] rest coin.1) as (set & E1 & E2); try done; [lia|unfold worth; cbn; lia|lia|eauto|right; left; lia|].
    exists set, coin.1. done. }
  destruct (Z.eqb_spec total target) as [Et|Et].
  { destruct (chosen_intro target cs vValue _ total Hp ltac:(lia) Hsmall L3) as (set & -> & Hch); [lia|eauto|by left|done]. }
  destruct (Z.ltb_spec total target) as [Elt|Ege].
  { destruct lowest as [coin|].
    - destruct L4 as (Hc & Hge & _). destruct (Hone coin Hc Hge) as (set & v & -> & Hch). done.
    - cbn. rewrite (filter_all _ _ L4) in L2. congruence. }
  cbv zeta. pose proof (sort_values_perm vValue) as Hsort. set (sv := sort_values vValue) in *.
  assert (Hsvp : Forall (fun v => 0 < v) sv.*1) by (by rewrite Hsort). assert (Hsvw : total = worth sv) by (by rewrite (worth_perm _ _ Hsort)).
  assert (Hmarked : forall vf best, length vf = length sv -> best = worth (marked vf sv) -> target <= best ->
    (best = target \/ target + CENT <= best \/ forall c, c ∈ cs -> c.1 < target + CENT) ->
    exists set v, take_coins (marked vf sv) = (set, v) /\ chosen target cs set v).
  { intros vf best Hlen Hb Hge Hch. destruct (marked_part vf sv) as (r1 & Hr1).
    destruct (chosen_intro target cs (marked vf sv) (r1 ++ filter (fun c => ~ c.1 < target + CENT) cs) best) as (set & E1 & E2); try done; [lia| |eauto|eauto].
    rewrite (assoc_L (++)), Hr1, Hsort. exact Hsmall. }
  pose proof (Approximate_spec sv total target 1000 e Hsvp Hsvw ltac:(lia) ltac:(lia)) as HA. cbv zeta in HA.
  destruct (ApproximateBestSubset sv total target 1000 e) as [[best vf] e1]. cbn [fst snd] in HA. destruct HA as (A1 & A2 & A3).
  assert (HB : let '(best', vf', e2) := if negb (best =? target) && (target + CENT <=? total) then ApproximateBestSubset sv total (target + CENT) 1000 e1 else (best, vf, e1) in
    length vf' = length sv /\ best' = worth (marked vf' sv) /\ target <= best').
  { destruct (negb (best =? target) && (target + CENT <=? total)) eqn:Eb; [|split; [done|split; [done|lia]]].
    apply andb_true_iff in Eb as [_ Eb%Z.leb_le].
    assert (Ht2 : 0 < target + CENT <= total) by lia. assert (Hm2 : target + CENT + total < 2 ^ 63) by lia.
    pose proof (Approximate_spec sv total (target + CENT) 1000 e1 Hsvp Hsvw Ht2 Hm2) as HA2. cbv zeta in HA2.
    destruct (ApproximateBestSubset sv total (target + CENT) 1000 e1) as [[best2 vf2] e2]. cbn [fst snd] in HA2. destruct HA2 as (B1 & B2 & B3).
    split; [done|]. split; [done|lia]. }
  destruct (if negb (best =? target) && (target + CENT <=? total) then _ else _) as [[best' vf'] e2]. destruct HB as (B1 & B2 & B3).
  destruct lowest as [coin|].
  - destruct L4 as (Hc & Hge & _). destruct ((negb (best' =? target) && (best' <? target + CENT)) || (coin.1 <=? best')) eqn:Ec.
    + destruct (Hone coin Hc Hge) as (set & v & -> & Hch). done.
    + destruct (Hmarked vf' best' B1 B2 B3) as (set & v & -> & Hch); [lia|done].
  - destruct (Hmarked vf' best' B1 B2 B3) as (set & v & -> & Hch); [by right; right|done].
Qed.

Lemma SelectCoinsMinConf_ok target m t vCoins e :
  0 < target -> 0 < CENT -> Forall (fun v => 0 < v) (eligible m t vCoins).*1 -> target + CENT + worth (eligible m t vCoins) < 2 ^ 63 - 1 ->
  select_ok target (eligible m t vCoins) (SelectCoinsMinConf target m t vCoins e).1.
Proof.
  intros Ht HC Hp Hmax. unfold SelectCoinsMinConf. pose proof (random_shuffle_perm vCoins e) as Hperm.
  destruct (random_shuffle vCoins e) as [l e1]. cbn [fst] in Hperm.
  assert (Hel : eligible m t l ≡ₚ eligible m t vCoins) by (unfold eligible; by rewrite Hperm).
  assert (Hok : forall r, select_ok target (eligible m t l) r -> select_ok target (eligible m t vCoins) r).
  { intros [[set v]|]; cbn; [|by rewrite (worth_perm _ _ Hel)]. intros [(l1 & rest & C1 & C2 & C3) C4 C5 C6]. constructor.
    - exists l1, rest. by rewrite C1.
    - done.
    - intros c. rewrite <-Hel. apply C5.
    - destruct C6 as [?|[?|C6]]; [by left|by right; left|right; right]. intros c. rewrite <-Hel. apply C6. }
  apply Hok. rewrite <-Hel in Hp. rewrite <-(worth_perm _ _ Hel) in Hmax.
  pose proof (sum_of_nonneg _ Hp) as H0'. fold (worth (eligible m t l)) in H0'.
  assert (Hs : scanned target (eligible m t l) (scan target m t l None [] 0)).
  { pose proof (scan_spec target m t [] l None [] 0 Ht HC) as Hs. cbn [app] in Hs. apply Hs; [lia|done|lia|].
    constructor; [intros c Hc; by apply elem_of_nil in Hc|done|done|intros c Hc; by apply elem_of_nil in Hc]. }
  destruct (scan target m t l None [] 0) as [c|lowest vValue total]; cbn [scanned] in Hs.
  - destruct Hs as [Hc Ec]. destruct (elem_rest _ _ Hc) as (rest & Hrest).
    destruct (chosen_intro target (eligible m t l) [c] rest c.1) as (set & E1 & E2); try done; [lia|unfold worth; cbn; lia|lia|by left|].
    cbn [fst]. rewrite E1. exact E2.
  - by apply left_over_ok.
Qed.

(** ** The wallet *)

(** An output the wallet may spend. *)
Record spendable (w : Wallet) (pcoin : CWalletTx) (k : OutKey) : Prop := {
  sp_in : (k.1, pcoin) ∈ mapWallet w;
  sp_out : 0 <= k.2 < lenZ (vout (base_tx pcoin));
  sp_final : IsFinal (base_tx pcoin) = true;
  sp_confirmed : IsConfirmed pcoin = true;
  sp_mature : CTransaction.IsCoinBase (base_tx pcoin) = true -> GetBlocksToMaturity pcoin <= 0;
  sp_unspent : IsSpent pcoin k.2 = false;
  sp_mine : IsMineOut (out_at pcoin k.2) = true;
  sp_unlocked : k ∉ setLockedCoins w;
  sp_value : 0 < nValue (out_at pcoin k.2) }.

Lemma available_elem w o :
  o ∈ AvailableCoins w true <->
  spendable w (o_tx o) (o_hash o, o_i o) /\ o_nDepth o = GetDepthInMainChain (o_tx o).
Proof.
  unfold AvailableCoins. rewrite list_elem_of_join. setoid_rewrite list_elem_of_fmap. split.
  - intros (l & Ho & (hash & pcoin) & -> & Hin). cbn [available_of] in Ho.
    destruct (IsFinal (base_tx pcoin)) eqn:E1; cbn [negb andb] in Ho; [|by apply elem_of_nil in Ho].
    destruct (IsConfirmed pcoin) eqn:E2; cbn [negb] in Ho; [|by apply elem_of_nil in Ho].
    destruct (CTransaction.IsCoinBase (base_tx pcoin) && (0 <? GetBlocksToMaturity pcoin)) eqn:E3; [by apply elem_of_nil in Ho|].
    apply list_elem_of_omap in Ho as (i & Hi & Ho). apply elem_of_seqZ in Hi. destruct (negb (IsSpent pcoin i) && _ && _ && _) eqn:E4; [|done].
    rewrite !andb_true_iff, !negb_true_iff, Z.ltb_lt in E4. destruct E4 as (((E4 & E5) & E6) & E7). injection Ho as <-. cbn.
    split; [|done]. constructor; cbn; try done; try lia.
    unfold IsLockedCoin in E6. by apply bool_decide_eq_false in E6.
  - intros [[S1 S2 S3 S4 S5 S6 S7 S8 S9] Hd]. destruct o as [hash pcoin i d]. cbn in *. eexists. split; [|exists (hash, pcoin); split; [reflexivity|done]].
    cbn [available_of]. rewrite S3, S4. cbn [negb andb].
    destruct (CTransaction.IsCoinBase (base_tx pcoin) && (0 <? GetBlocksToMaturity pcoin)) eqn:E3.
    { apply andb_true_iff in E3 as [E3 E4]. specialize (S5 E3). lia. }
    apply list_elem_of_omap. exists i. split; [apply elem_of_seqZ; lia|]. unfold IsLockedCoin. rewrite S6, S7, bool_decide_false by done.
    cbn [negb andb]. destruct (Z.ltb_spec 0 (nValue (out_at pcoin i))); [by rewrite Hd|lia].
Qed.

Definition key_of (o : COutput) : OutKey := (o_hash o, o_i o).

Lemma available_keys w : NoDup (mapWallet w).*1 -> NoDup (key_of <$> AvailableCoins w true).
Proof.
  unfold AvailableCoins. induction (mapWallet w) as [|[hash pcoin] l IH]; cbn [fmap list_fmap mjoin list_join fst]; [intros _; apply NoDup_nil_2|].
  intros [Hh Hl]%NoDup_cons. rewrite fmap_app. apply NoDup_app. split; [|split; [|by apply IH]].
  - cbn [available_of]. repeat (case_match; [apply NoDup_nil_2|]).
    assert (G : forall (P : Z -> bool) (zs : list Z), NoDup zs -> NoDup (key_of <$> omap (fun i => if P i then Some (mkOutput hash pcoin i (GetDepthInMainChain pcoin)) else None) zs)).
    { intros P zs Hz. induction Hz as [|z zs Hz _ IHz]; [apply NoDup_nil_2|]. cbn [omap list_omap]. destruct (P z); [|done].
      rewrite fmap_cons. apply NoDup_cons. split; [|done]. intros (o & Eo & Ho)%list_elem_of_fmap.
      apply list_elem_of_omap in Ho as (z' & Hz' & Ho). destruct (P z'); [|done]. injection Ho as <-. unfold key_of in Eo. cbn in Eo. by injection Eo as ->. }
    apply (G (fun i => _)), NoDup_seqZ.
  - intros k (o & -> & Ho)%list_elem_of_fmap (o' & Eo & Ho')%list_elem_of_fmap.
    assert (Ho1 : o_hash o = hash).
    { cbn [available_of] in Ho. repeat (case_match; [by apply elem_of_nil in Ho|]). apply list_elem_of_omap in Ho as (i & _ & Ho). by case_match; simplify_eq. }
    apply list_elem_of_join in Ho' as (lo & Ho' & Hlo). apply list_elem_of_fmap in Hlo as ((h' & p') & -> & Hin).
    assert (Ho2 : o_hash o' = h').
    { cbn [available_of] in Ho'. repeat (case_match; [by apply elem_of_nil in Ho'|]). apply list_elem_of_omap in Ho' as (i & _ & Ho'). by case_match; simplify_eq. }
    apply Hh, list_elem_of_fmap. exists (h', p'). split; [|done]. unfold key_of in Eo. cbn. congruence.
Qed.

(** What the outputs of a set are worth. *)
Definition coin_value (w : Wallet) (k : OutKey) : Z :=
  match List.find (fun e => e.1 =? k.1) (mapWallet w) with Some e => nValue (out_at e.2 k.2) | None => 0 end.
Definition inputs_value (w : Wallet) (set : gset OutKey) : Z := sum_of (coin_value w <$> elements set).

Lemma find_key (l : list (uint256 * CWalletTx)) hash pcoin :
  NoDup l.*1 -> (hash, pcoin) ∈ l -> List.find (fun e => e.1 =? hash) l = Some (hash, pcoin).
Proof.
  induction l as [|[h p] l IH]; [by intros _ ?%elem_of_nil|]. cbn [fmap list_fmap fst List.find]. intros [Hh Hl]%NoDup_cons Hin.
  destruct (Z.eqb_spec h hash) as [->|Hne].
  - apply elem_of_cons in Hin as [[= ->]|Hin]; [done|]. destruct Hh. apply list_elem_of_fmap. by exists (hash, pcoin).
  - apply elem_of_cons in Hin as [[= -> ->]|Hin]; [done|auto].
Qed.

Lemma spendable_value w pcoin k : NoDup (mapWallet w).*1 -> spendable w pcoin k -> coin_value w k = nValue (out_at pcoin k.2).
Proof. intros Hd Hs. unfold coin_value. by rewrite (find_key _ _ _ Hd (sp_in _ _ _ Hs)). Qed.

Lemma eligible_elem m t w c :
  NoDup (mapWallet w).*1 -> c ∈ eligible m t (AvailableCoins w true) ->
  exists pcoin, spendable w pcoin c.2 /\ (if IsFromMe pcoin then m else t) <= GetDepthInMainChain pcoin /\ c.1 = coin_value w c.2 /\ 0 < c.1.
Proof.
  intros Hd (o & -> & Ho)%list_elem_of_fmap. apply list_elem_of_filter in Ho as [Hdeep Ho]. apply available_elem in Ho as [Hs Ed].
  exists (o_tx o). split; [done|]. unfold deep in Hdeep. rewrite Ed, Z.leb_le in Hdeep. split; [done|].
  split; [symmetry; by apply (spendable_value w (o_tx o))|apply (sp_value _ _ _ Hs)].
Qed.

Lemma eligible_positive m t w : NoDup (mapWallet w).*1 -> Forall (fun v => 0 < v) (eligible m t (AvailableCoins w true)).*1.
Proof. intros Hd. apply Forall_fmap, Forall_forall. intros c Hc. by destruct (eligible_elem m t w c Hd Hc) as (? & _ & _ & _ & ?). Qed.

Lemma eligible_keys m t w : NoDup (mapWallet w).*1 -> NoDup (eligible m t (AvailableCoins w true)).*2.
Proof.
  intros Hd%available_keys. unfold eligible. rewrite <-list_fmap_compose. change (snd ∘ coin_of) with key_of.
  eapply sublist_NoDup; [exact Hd|]. apply fmap_sublist, sublist_filter.
Qed.

Lemma eligible_worth m t w : NoDup (mapWallet w).*1 -> worth (eligible m t (AvailableCoins w true)) <= worth (coin_of <$> AvailableCoins w true).
Proof.
  intros Hd. destruct (worth_part (eligible m t (AvailableCoins w true)) (coin_of <$> filter (fun o => ~ deep m t o = true) (AvailableCoins w true)) (coin_of <$> AvailableCoins w true)) as [_ Hle]; [| |done].
  - unfold eligible. rewrite <-fmap_app. by rewrite filter_app_complement.
  - apply Forall_fmap, Forall_forall. intros c (o & -> & Ho)%list_elem_of_fmap. apply available_elem in Ho as [Hs _]. apply (sp_value _ _ _ Hs).
Qed.

Lemma eligible_mono m t m' t' l c : m' <= m -> t' <= t -> c ∈ eligible m t l -> c ∈ eligible m' t' l.
Proof.
  intros Hm Ht. unfold eligible. rewrite !list_elem_of_fmap. intros (o & -> & Ho). exists o. split; [done|].
  rewrite list_elem_of_filter in Ho |- *. destruct Ho as [Hd Ho]. split; [|done]. unfold deep in *. rewrite Z.leb_le in *. destruct (IsFromMe (o_tx o)); lia.
Qed.

(** What the coins of a choice are. *)
Lemma chosen_set m t w target set v :
  NoDup (mapWallet w).*1 -> chosen target (eligible m t (AvailableCoins w true)) set v ->
  v = inputs_value w set /\ forall k, k ∈ set -> exists pcoin, spendable w pcoin k /\ (if IsFromMe pcoin then m else t) <= GetDepthInMainChain pcoin.
Proof.
  intros Hd [(l & rest & Hl & -> & ->) _ _ _].
  assert (Hin : forall c, c ∈ l -> c ∈ eligible m t (AvailableCoins w true)) by (intros c Hc; rewrite <-Hl, elem_of_app; by left).
  split.
  - unfold worth, inputs_value. apply sum_of_perm. rewrite elements_list_to_set.
    + rewrite <-list_fmap_compose. apply Permutation_refl'. apply list_fmap_ext. intros i c Hc. cbn.
      by destruct (eligible_elem m t w c Hd (Hin c (list_elem_of_lookup_2 _ _ _ Hc))) as (? & _ & _ & -> & _).
    + pose proof (eligible_keys m t w Hd) as Hk. rewrite <-Hl, fmap_app in Hk. by apply NoDup_app in Hk as [Hk _].
  - intros k Hk. rewrite elem_of_list_to_set in Hk. apply list_elem_of_fmap in Hk as (c & -> & Hc).
    destruct (eligible_elem m t w c Hd (Hin c Hc)) as (pcoin & H1' & H2' & _). eauto.
Qed.

Lemma CENT_positive : 0 < CENT.
Proof. by rewrite CENT_value. Qed.

(** A choice at a level of confirmations, seen from the wallet. *)
Record selected (w : Wallet) (target : Z) (m t : Z) (set : gset OutKey) (v : Z) : Prop := {
  s_enough : target <= v;
  s_value : v = inputs_value w set;
  s_bound : v <= worth (coin_of <$> AvailableCoins w true);
  s_coins k : k ∈ set -> exists pcoin, spendable w pcoin k /\ (if IsFromMe pcoin then m else t) <= GetDepthInMainChain pcoin;
  s_change : v = target \/ target + CENT <= v \/ forall c, c ∈ eligible m t (AvailableCoins w true) -> c.1 < target + CENT }.

Lemma select_selected w target m t e :
  NoDup (mapWallet w).*1 -> 0 < target -> target + CENT + worth (coin_of <$> AvailableCoins w true) < 2 ^ 63 - 1 ->
  match (SelectCoinsMinConf target m t (AvailableCoins w true) e).1 with
  | Some (set, v) => selected w target m t set v
  | None => worth (eligible m t (AvailableCoins w true)) < target
  end.
Proof.
  intros Hd Ht Hmax. pose proof (eligible_worth m t w Hd) as Hle.
  assert (Hb : target + CENT + worth (eligible m t (AvailableCoins w true)) < 2 ^ 63 - 1) by lia.
  pose proof (SelectCoinsMinConf_ok target m t (AvailableCoins w true) e Ht CENT_positive (eligible_positive m t w Hd) Hb) as Hok.
  destruct (SelectCoinsMinConf target m t (AvailableCoins w true) e).1 as [[set v]|]; [|exact Hok]. cbn [select_ok] in Hok.
  destruct (chosen_set m t w target set v Hd Hok) as [Hv Hk]. constructor; [apply Hok|done| |done|apply Hok].
  destruct Hok as [(l & rest & Hl & _ & ->) _ _ _]. destruct (worth_part _ _ _ Hl (eligible_positive m t w Hd)). lia.
Qed.

Lemma SelectCoins_levels w target e :
  NoDup (mapWallet w).*1 -> 0 < target -> target + CENT + worth (coin_of <$> AvailableCoins w true) < 2 ^ 63 - 1 ->
  match (SelectCoins w target e).1 with
  | Some (set, v) =>
    selected w target 1 6 set v \/
    (worth (eligible 1 6 (AvailableCoins w true)) < target /\ (selected w target 1 1 set v \/ selected w target 0 1 set v))
  | None => worth (eligible 0 1 (AvailableCoins w true)) < target
  end.
Proof.
  intros Hd Ht Hmax. unfold SelectCoins.
  pose proof (select_selected w target 1 6 e Hd Ht Hmax) as R1. destruct (SelectCoinsMinConf target 1 6 _ e) as [[[set v]|] e1]; cbn [fst] in *; [by left|].
  pose proof (select_selected w target 1 1 e1 Hd Ht Hmax) as R2. destruct (SelectCoinsMinConf target 1 1 _ e1) as [[[set v]|] e2]; cbn [fst] in *; [auto|].
  pose proof (select_selected w target 0 1 e2 Hd Ht Hmax) as R3. destruct (SelectCoinsMinConf target 0 1 _ e2) as [[[set v]|] e3]; cbn [fst] in *; auto.
Qed.


End Selection.

(** A wallet with three coins: 5 cents in a deep transaction, 3 in another, 4 in one of the wallet itself
    that has no confirmation yet. *)
Module Examples.

#[export] Instance money : Money.
Proof.
  refine {| COIN := 100000000; CENT := 1000000; atoi64 s := be_val 10 ((fun c => c - 48) <$> s) |}; [done|done|].
  intros ds _ _. f_equal. rewrite <-list_fmap_compose. rewrite <-(list_fmap_id ds) at 2. apply list_fmap_ext. intros i c _. cbn. lia.
Defined.

(** A transaction is known by its depth. *)
#[export] Instance deep_txs : WalletTx := {|
  CWalletTx := Z * CTransaction; base_tx := snd; IsConfirmed _ := true; IsFromMe p := p.1 =? 0; IsSpent _ _ := false;
  GetDepthInMainChain p := p.1; GetBlocksToMaturity _ := 0; GetAvailableCredit _ := 0; GetImmatureCredit _ := 0;
  IsFinal _ := true; IsMineOut _ := true |}.

#[export] Instance coins_rand : InsecureRand (list Z * Z) := {| seed_insecure_rand e := e; insecure_rand e := script_draw 2 e |}.
#[export] Existing Instance script_environment.

Definition pays (v : Z) : CTransaction := mkTx 1 [] [mkTxOut (v * 1000000) []] 0.
Definition wallet : Wallet := mkWallet [(1, (10, pays 5)); (2, (7, pays 3)); (3, (0, pays 4))] ∅.
Definition tape : list Z * Z := ([1; 2; 1; 0; 1; 1; 0; 1], 0).


End Examples.
