(* ===== verification/AddrSelect.v ===== *)
(** The choice of an address to connect to: [CAddrInfo::GetChance] and [CAddrMan::Select_] (src/addrman.cpp), over the
    address manager of AddrMan.v, its environment and the floating point numbers of Double.v.

    The loops [while(1)] have no bound: they take fuel, and their result is [None] when it runs out.  The two
    operands of a comparison, a random number and a chance that reads the clock, are evaluated from left to right. *)

From S2P Require Import Prelude Monad Double Rand Codec NetAddr AddrMan AddrManInv AddrManThms.

Definition dsqrt : double -> double := SFsqrt 53 1024.
Definition dsub : double -> double -> double := SFsub 53 1024.
Definition dlt : double -> double -> bool := SFltb.
(** The nearest numbers to 0.01, 1.5 and 1.2. *)
Definition d_001 : double := ddiv (double_of 1) (double_of 100).
Definition d_1_5 : double := ddiv (double_of 3) (double_of 2).
Definition d_1_2 : double := ddiv (double_of 6) (double_of 5).

(** [for (int n=0; n<nAttempts; n++) fChance /= 1.5] *)
Fixpoint attempts_loop (n : nat) (fChance : double) : double :=
  match n with O => fChance | S n' => attempts_loop n' (ddiv fChance d_1_5) end.

Definition GetChance (i : CAddrInfo) (nNow : Z) : double :=
  let nSinceLastSeen := Z.max 0 (nNow - time i) in
  let nSinceLastTry := Z.max 0 (nNow - lastTry i) in
  let fChance := dmul (double_of 1) (ddiv (double_of 600) (dadd (double_of 600) (double_of nSinceLastSeen))) in
  let fChance := if nSinceLastTry <? 60 * 10 then dmul fChance d_001 else fChance in
  attempts_loop (Z.to_nat (nAttempts i)) fChance.

Section Select.
Context `{Hasher, AddressTypes, NetworkEnum, Env : Environment E}.

Abbreviation MM := (M (CAddrMan * E)).

(** The draw that decides whether an entry is taken. *)
Definition taken (fChanceFactor : double) (info : CAddrInfo) : MM bool :=
  r <- rand (2 ^ 30);; t <- now;;
  ret (dlt (double_of r) (dmul (dmul fChanceFactor (GetChance info t)) (double_of (2 ^ 30)))).

(** The loop over the tried table; a bucket is a vector. *)
Fixpoint select_tried (fuel : nat) (fChanceFactor : double) : MM (option CAddress) :=
  match fuel with
  | O => ret None
  | S fuel' =>
    nb <- rd (fun s => lenZ (vvTried s));; nKBucket <- rand nb;;
    vTried <- rd (fun s => vTried_at s nKBucket);;
    if lenZ vTried =? 0 then select_tried fuel' fChanceFactor
    else
      nPos <- rand (lenZ vTried);;
      c <- rd (fun s => count s vTried.[nPos]);; assert_ c;;;
      info <- info_at vTried.[nPos];;
      ok <- taken fChanceFactor info;;
      if (ok : bool) then ret (Some (ca info)) else select_tried fuel' (dmul fChanceFactor d_1_2)
  end.

(** The loop over the new table; a bucket is a set, whose iterator walks [nPos] steps. *)
Fixpoint select_new (fuel : nat) (fChanceFactor : double) : MM (option CAddress) :=
  match fuel with
  | O => ret None
  | S fuel' =>
    nb <- rd (fun s => lenZ (vvNew s));; nUBucket <- rand nb;;
    vNew <- rd (fun s => vNew_at s nUBucket);;
    if Z.of_nat (base.size vNew) =? 0 then select_new fuel' fChanceFactor
    else
      nPos <- rand (Z.of_nat (base.size vNew));;
      let nId := (ascending (elements vNew)).[nPos] in
      c <- rd (fun s => count s nId);; assert_ c;;;
      info <- info_at nId;;
      ok <- taken fChanceFactor info;;
      if (ok : bool) then ret (Some (ca info)) else select_new fuel' (dmul fChanceFactor d_1_2)
  end.

Definition Select_ (fuel : nat) (nUnkBias : Z) : MM (option CAddress) :=
  sz <- rd size;;
  if sz =? 0 then ret (Some default_address)
  else
    nt <- rd nTried;; nn <- rd nNew;;
    let nCorTried := dmul (dsqrt (double_of nt)) (dsub (double_of 100) (double_of nUnkBias)) in
    let nCorNew := dmul (dsqrt (double_of nn)) (double_of nUnkBias) in
    r <- rand (2 ^ 30);;
    if dlt (ddiv (dmul (dadd nCorTried nCorNew) (double_of r)) (double_of (2 ^ 30))) nCorTried
    then select_tried fuel (double_of 1)
    else select_new fuel (double_of 1).

(** ** What is chosen *)

Implicit Types (s : CAddrMan) (e : E).

(** An address of the table, when there is one. *)
Definition chosen s (a : option CAddress) : Prop :=
  match a with Some a => exists id i, mapInfo s !! id = Some i /\ ca i = a | None => True end.

Lemma wp_taken f i s e (Q : bool -> CAddrMan * E -> Prop) : (forall b e', Q b (s, e')) -> wp (taken f i) Q (s, e).
Proof.
  intros HQ. unfold taken. apply wp_bind, wp_rand; [lia|]. intros r e1 _. apply wp_bind, wp_now. intros t e2. apply wp_ret, HQ.
Qed.

Lemma tried_bucket_info s b id : AddrInv s -> 0 <= b < lenZ (vvTried s) -> id ∈ vTried_at s b -> is_Some (mapInfo s !! id).
Proof.
  intros HI Hb Hid. destruct (inv_tried _ _ (proj2 HI)) as [_ Hel]. assert (Hc : id ∈ concat (vvTried s)).
  { apply list_elem_of_In, in_concat. exists (vTried_at s b). rewrite <-!list_elem_of_In. split; [|done].
    by eapply list_elem_of_lookup_2, nthZ_lookup_at. }
  apply Hel in Hc. rewrite lookup_fmap in Hc. destruct (mapInfo s !! id); [by eexists|done].
Qed.

Lemma bucket_tried_le s b : AddrInv s -> 0 <= b < lenZ (vvTried s) -> lenZ (vTried_at s b) <= ADDRMAN_TRIED_BUCKET_SIZE.
Proof. intros HI Hb. pose proof (inv_tsize _ _ (proj2 HI)) as Hs. rewrite Forall_lookup in Hs. by eapply Hs, nthZ_lookup_at. Qed.

(** The round of both loops from the entry on. *)
Lemma wp_visit s e id (k : MM (option CAddress)) f :
  is_Some (mapInfo s !! id) -> (forall e', wp k (fun a st => st.1 = s /\ chosen s a) (s, e')) ->
  wp (c <- rd (fun s => count s id);; assert_ c;;; info <- info_at id;; ok <- taken f info;;
      if (ok : bool) then ret (Some (ca info)) else k) (fun a st => st.1 = s /\ chosen s a) (s, e).
Proof.
  intros [i Hi] Hk. stp. apply wp_taken. intros [] e'; [|apply Hk]. apply wp_ret. split; [done|]. by exists id, i.
Qed.

Lemma select_tried_spec fuel f s e : AddrInv s -> wp (select_tried fuel f) (fun a st => st.1 = s /\ chosen s a) (s, e).
Proof.
  intros HI. revert f e. induction fuel as [|fuel IH]; intros f e; [by apply wp_ret|]. cbn [select_tried]. stp.
  pose proof (inv_tlen _ _ (proj2 HI)) as Hl. apply wp_rand; [by rewrite Hl|]. intros b e1 Hb. stp.
  destruct (Z.eqb_spec (lenZ (vTried_at s b)) 0) as [|Hne]; [apply IH|].
  pose proof (bucket_tried_le s b HI Hb). pose proof (lenZ_nonneg (vTried_at s b)). apply wp_bind, wp_rand; [unfold ADDRMAN_TRIED_BUCKET_SIZE in *; lia|]. intros n e2 Hn.
  apply wp_visit; [|intros e'; apply IH]. eapply tried_bucket_info; [done|exact Hb|]. eapply list_elem_of_lookup_2, nthZ_lookup_at, Hn.
Qed.

Lemma new_bucket_info s b n : AddrInv s -> 0 <= b < lenZ (vvNew s) -> 0 <= n < Z.of_nat (base.size (vNew_at s b)) ->
  is_Some (mapInfo s !! (ascending (elements (vNew_at s b))).[n]).
Proof.
  intros HI Hb Hn. assert (Hid : (ascending (elements (vNew_at s b))).[n] ∈ vNew_at s b).
  { rewrite <-elem_of_elements, <-ascending_elem. eapply list_elem_of_lookup_2, nthZ_lookup_at. unfold lenZ. rewrite ascending_length. exact Hn. }
  destruct (bucket_info _ s b _ (proj2 HI) Hb Hid) as (i & Hi & _). by eexists.
Qed.

Lemma select_new_spec fuel f s e : AddrInv s -> wp (select_new fuel f) (fun a st => st.1 = s /\ chosen s a) (s, e).
Proof.
  intros HI. revert f e. induction fuel as [|fuel IH]; intros f e; [by apply wp_ret|]. cbn [select_new]. stp.
  pose proof (inv_nlen _ _ (proj2 HI)) as Hl. apply wp_rand; [by rewrite Hl|]. intros b e1 Hb. stp.
  destruct (Z.eqb_spec (Z.of_nat (base.size (vNew_at s b))) 0) as [|Hne]; [apply IH|].
  pose proof (bucket_le _ s b (proj2 HI) Hb) as Hsz.
  apply wp_bind, wp_rand; [unfold ADDRMAN_NEW_BUCKET_SIZE in *; lia|]. intros n e2 Hn. cbn zeta.
  apply wp_visit; [by apply new_bucket_info|intros e'; apply IH].
Qed.

(** On a consistent address manager [Select_] fails no assertion, whatever is drawn, and changes nothing; what it returns
    is an address of the tables, and the default address when they are empty. *)
Theorem Select_safe fuel nUnkBias s e :
  AddrInv s ->
  exists a e', Select_ fuel nUnkBias (s, e) = Some (a, (s, e')) /\
    if size s =? 0 then a = Some default_address else chosen s a.
Proof.
  intros HI. set (Q := fun (a : option CAddress) (st : CAddrMan * E) => st.1 = s /\ if size s =? 0 then a = Some default_address else chosen s a).
  assert (Hw : wp (Select_ fuel nUnkBias) Q (s, e)).
  { unfold Select_. stp. unfold Q. destruct (size s =? 0); [by apply wp_ret|]. stp. apply wp_rand; [lia|]. intros r e1 _.
    destruct (dlt _ _); [by apply select_tried_spec|by apply select_new_spec]. }
  apply wp_elim in Hw as (a & [s' e'] & Hr & <- & Ha). by exists a, e'.
Qed.

End Select.

Module Examples.
Import AddrManThms.Examples.

#[local] Existing Instance ex_hasher.
#[local] Existing Instance ex_types.
#[local] Existing Instance Group.enum0.
#[local] Existing Instance script_environment.

Lemma run_inv l : Forall valid_call l -> AddrInv (ex_run l).
Proof.
  intros Hl. pose proof (run_calls_spec [1; 2; 3] ex_env l Hl) as Hw.
  apply wp_elim in Hw as (u & [s' e'] & Hr & HI). unfold ex_run. rewrite Hr. exact HI.
Qed.

Lemma Select_safe_witness :
  exists a e', Select_ 5 50 (ex_run (take 3 ex_calls), ([0; 5; 32; 0; 0], 1000200)) = Some (Some a, (ex_run (take 3 ex_calls), e')) /\
    chosen (ex_run (take 3 ex_calls)) (Some a).
Proof.
  destruct (Select_safe 5 50 (ex_run (take 3 ex_calls)) ([0; 5; 32; 0; 0], 1000200)) as (a & e' & Hr & Ha).
  - apply run_inv, ex_valid.
  - assert (Ex : match Select_ 5 50 (ex_run (take 3 ex_calls), ([0; 5; 32; 0; 0], 1000200)) with Some (Some _, _) => true | _ => false end = true)
      by by vm_compute.
    assert (Hsz : (size (ex_run (take 3 ex_calls)) =? 0) = false) by by vm_compute. rewrite Hr in Ex. rewrite Hsz in Ha.
    destruct a as [a|]; [|discriminate Ex]. exists a, e'. split; [exact Hr|exact Ha].
Defined.

(** After thousands of failures the chance is the smallest positive number: the division by 1.5 rounds it to itself. *)
Example chance_stays_positive :
  attempts_loop 1900 (double_of 1) = S754_finite false 1 (-1074) /\ ddiv (S754_finite false 1 (-1074)) d_1_5 = S754_finite false 1 (-1074).
Proof. by vm_compute. Qed.
End Examples.
