(* ===== verification/AddrStore.v ===== *)
(** The file peers.dat: the stream format of [CAddrMan] and [CAddrInfo] (src/addrman.h) and [CAddrDB] (src/db.cpp).

    Writing is a function from the object to bytes.  Reading is a member that changes the object as it goes and throws at
    the end of the stream: it runs in the monad [X] over the object and what is left of the stream, so that
    [CAddrDB::Read], which catches, leaves what has been read.

    Parameters (class [PeerCodec]): the stream operators of serialize.h, of [CAddress] and of [CNetAddr], which are
    declared in headers that are not in the tree, with what reading gives of what was written (an address loses
    [nLastTry], which is not written); the hash of hash.h.  The calls of the file system answer arbitrarily: their
    results are arguments.  Locks and printed texts are left out. *)

From S2P Require Import Prelude Monad Rand Codec NetAddr AddrMan.

(** An address as it is read back. *)
Definition forget (a : CAddress) : CAddress := mkAddress (ca_service a) (nServices a) (nTime a) 0.

Class PeerCodec := {
  ser_int : Z -> bytes;
  ser_int64 : Z -> bytes;
  ser_key : bytes -> bytes;                 (* std::vector<unsigned char> *)
  ser_address : CAddress -> bytes;
  ser_netaddr : CNetAddr -> bytes;
  ser_uint256 : Z -> bytes;
  rd_int : bytes -> option (Z * bytes);
  rd_int64 : bytes -> option (Z * bytes);
  rd_key : bytes -> option (bytes * bytes);
  rd_address : bytes -> option (CAddress * bytes);
  rd_netaddr : bytes -> option (CNetAddr * bytes);
  rd_uint256 : bytes -> option (Z * bytes);
  HashPeers : bytes -> Z;
  pchMessageStart : bytes;
  address_fits : CAddress -> bool;          (* the members are values of their types *)
  netaddr_fits : CNetAddr -> bool;
  key_fits : bytes -> bool;
  rd_ser_int n r : in_s 32 n -> rd_int (ser_int n ++ r) = Some (n, r);
  rd_ser_int64 n r : in_s 64 n -> rd_int64 (ser_int64 n ++ r) = Some (n, r);
  rd_ser_key k r : key_fits k = true -> rd_key (ser_key k ++ r) = Some (k, r);
  rd_ser_address a r : address_fits a = true -> rd_address (ser_address a ++ r) = Some (forget a, r);
  rd_ser_netaddr a r : netaddr_fits a = true -> rd_netaddr (ser_netaddr a ++ r) = Some (a, r);
  rd_ser_uint256 b r : rd_uint256 (ser_uint256 (HashPeers b) ++ r) = Some (HashPeers b, r);
  ser_uint256_length n : lenZ (ser_uint256 n) = 32;
  pchMessageStart_length : lenZ pchMessageStart = 4;
}.

Section Store.
Context `{PeerCodec, Hasher, AddressTypes, NetworkEnum}.

(** ** Writing *)

Definition ser_info (i : CAddrInfo) : bytes :=
  ser_address (ca i) ++ ser_netaddr (source i) ++ ser_int64 (nLastSuccess i) ++ ser_int (nAttempts i).

(** The first loop over [mapInfo]: the bytes, and [mapUnkIds]. *)
Fixpoint ser_new (nNew_ nIds : Z) (l : list (Z * CAddrInfo)) (mapUnkIds : gmap Z Z) : bytes * gmap Z Z :=
  match l with
  | [] => ([], mapUnkIds)
  | (nId, info) :: r =>
    if nIds =? nNew_ then ([], mapUnkIds)
    else
      let mapUnkIds := <[nId := nIds]> mapUnkIds in
      if negb (nRefCount info =? 0) then
        let '(b, m) := ser_new nNew_ (nIds + 1) r mapUnkIds in (ser_info info ++ b, m)
      else ser_new nNew_ nIds r mapUnkIds
  end.

Fixpoint ser_tried (nTried_ nIds : Z) (l : list (Z * CAddrInfo)) : bytes :=
  match l with
  | [] => []
  | (_, info) :: r =>
    if nIds =? nTried_ then []
    else if fInTried info then ser_info info ++ ser_tried nTried_ (nIds + 1) r
    else ser_tried nTried_ nIds r
  end.

(** [mapUnkIds[*it2]] is 0 for an entry that is missing. *)
Definition ser_bucket (mapUnkIds : gmap Z Z) (vNew : gset Z) : bytes :=
  ser_int (Z.of_nat (base.size vNew)) ++ concat ((fun nId => ser_int (default 0 (mapUnkIds !! nId))) <$> ascending (elements vNew)).

Definition Serialize (s : CAddrMan) : bytes :=
  let '(new_infos, mapUnkIds) := ser_new (nNew s) 0 (by_key (mapInfo s)) ∅ in
  [0] ++ ser_key (nKey s) ++ ser_int (nNew s) ++ ser_int (nTried s) ++ ser_int ADDRMAN_NEW_BUCKET_COUNT ++
  new_infos ++ ser_tried (nTried s) 0 (by_key (mapInfo s)) ++ concat (ser_bucket mapUnkIds <$> vvNew s).

(** ** Reading *)

Abbreviation R := (X (CAddrMan * bytes)).
Definition rdv {A} (p : bytes -> option (A * bytes)) : R A :=
  fun s => match p s.2 with Some (a, b) => (Done a, (s.1, b)) | None => (Thrown, s) end.
Definition rd_byte (b : bytes) : option (Z * bytes) := match b with c :: r => Some (c, r) | [] => None end.
Definition am {A} (f : CAddrMan -> A) : R A := X.gets (fun s => f s.1).
Definition upd_am (f : CAddrMan -> CAddrMan) : R unit := X.modify (fun s => (f s.1, s.2)).

Definition set_nKey k (s : CAddrMan) : CAddrMan :=
  mkMan k (nIdCount s) (mapInfo s) (mapAddr s) (vRandom s) (nTried s) (vvTried s) (nNew s) (vvNew s).
Definition set_source v (i : CAddrInfo) : CAddrInfo :=
  mkInfo (ca i) v (nLastSuccess i) (nAttempts i) (nRefCount i) (fInTried i) (nRandomPos i).

(** The members of an entry, in their order, each handed over by [put]. *)
Definition rd_info (put : (CAddrInfo -> CAddrInfo) -> R unit) : R unit :=
  a <~ rdv rd_address ;; put (set_address (fun _ => a)) ;~
  src <~ rdv rd_netaddr ;; put (set_source src) ;~
  t <~ rdv rd_int64 ;; put (set_nLastSuccess t) ;~
  n <~ rdv rd_int ;; put (set_nAttempts n).

(** [mapInfo[n]]: made when it is missing. *)
Definition entry (n : Z) : R unit :=
  upd_am (set_mapInfo (fun m => match m !! n with Some _ => m | None => <[n := default_info]> m end)).
Definition the_info (n : Z) : R CAddrInfo := am (fun s => default default_info (mapInfo s !! n)).

(** One entry of the new table; [k] more follow. *)
Fixpoint rd_new (nUBuckets n : Z) (k : nat) : R unit :=
  match k with
  | O => X.ret tt
  | S k' =>
    entry n ;~ rd_info (fun f => upd_am (set_info n f)) ;~
    info <~ the_info n ;;
    upd_am (set_mapAddr <[netaddr info := n]>) ;~
    pos <~ am size ;; upd_am (set_info n (set_nRandomPos pos)) ;~
    upd_am (set_vRandom (fun v => v ++ [n])) ;~
    (if negb (nUBuckets =? ADDRMAN_NEW_BUCKET_COUNT) then
       key <~ am nKey ;;
       upd_am (set_vNew (CAddrInfo.GetNewBucket_own info key) (fun b => {[n]} ∪ b)) ;~
       upd_am (set_info n (fun i => set_nRefCount (nRefCount i + 1) i))
     else X.ret tt) ;~
    rd_new nUBuckets (n + 1) k'
  end.

(** An entry of the tried table is a local variable until it has found its bucket.  The result is [nLost]. *)
Definition rd_info_local : R CAddrInfo :=
  a <~ rdv rd_address ;; src <~ rdv rd_netaddr ;; t <~ rdv rd_int64 ;; n <~ rdv rd_int ;;
  X.ret (set_nAttempts n (set_nLastSuccess t (set_source src (set_address (fun _ => a) default_info)))).

Definition place_tried (info : CAddrInfo) : R bool :=
  key <~ am nKey ;;
  let b := CAddrInfo.GetTriedBucket info key in
  vTried <~ am (fun s => vTried_at s b) ;;
  if lenZ vTried <? ADDRMAN_TRIED_BUCKET_SIZE then
    pos <~ am size ;; nId <~ am nIdCount ;;
    let info := set_fInTried true (set_nRandomPos pos info) in
    upd_am (set_vRandom (fun v => v ++ [nId])) ;~ upd_am (set_mapInfo <[nId := info]>) ;~
    upd_am (set_mapAddr <[netaddr info := nId]>) ;~ upd_am (set_vTried b (fun l => l ++ [nId])) ;~
    upd_am (set_nIdCount (Z.add 1)) ;~ X.ret true
  else X.ret false.

Fixpoint rd_tried (nLost : Z) (k : nat) : R Z :=
  match k with
  | O => X.ret nLost
  | S k' =>
    info <~ rd_info_local ;; placed <~ place_tried info ;;
    rd_tried (if (placed : bool) then nLost else nLost + 1) k'
  end.

Fixpoint rd_indexes (nUBuckets b : Z) (k : nat) : R unit :=
  match k with
  | O => X.ret tt
  | S k' =>
    nIndex <~ rdv rd_int ;; entry nIndex ;~
    info <~ the_info nIndex ;;
    (if (nUBuckets =? ADDRMAN_NEW_BUCKET_COUNT) && (nRefCount info <? ADDRMAN_NEW_BUCKETS_PER_ADDRESS) then
       upd_am (set_info nIndex (fun i => set_nRefCount (nRefCount i + 1) i)) ;~
       upd_am (set_vNew b (fun c => {[nIndex]} ∪ c))
     else X.ret tt) ;~ rd_indexes nUBuckets b k'
  end.

Fixpoint rd_buckets (nUBuckets b : Z) (k : nat) : R unit :=
  match k with
  | O => X.ret tt
  | S k' => nSize <~ rdv rd_int ;; rd_indexes nUBuckets b (Z.to_nat nSize) ;~ rd_buckets nUBuckets (b + 1) k'
  end.

(** The tables before the entries are read. *)
Definition clear_tables (s : CAddrMan) : CAddrMan :=
  mkMan (nKey s) 0 ∅ ∅ [] (nTried s) (repeat [] (Z.to_nat ADDRMAN_TRIED_BUCKET_COUNT)) (nNew s)
        (repeat ∅ (Z.to_nat ADDRMAN_NEW_BUCKET_COUNT)).

Definition Unserialize : R unit :=
  nVersion <~ rdv rd_byte ;;
  k <~ rdv rd_key ;; upd_am (set_nKey k) ;~
  nn <~ rdv rd_int ;; upd_am (set_nNew (fun _ => nn)) ;~
  nt <~ rdv rd_int ;; upd_am (set_nTried (fun _ => nt)) ;~
  nUBuckets <~ rdv rd_int ;;
  upd_am clear_tables ;~
  rd_new nUBuckets 0 (Z.to_nat nn) ;~
  upd_am (set_nIdCount (fun _ => nn)) ;~
  nLost <~ rd_tried 0 (Z.to_nat nt) ;;
  upd_am (set_nTried (fun n => n - nLost)) ;~
  rd_buckets nUBuckets 0 (Z.to_nat nUBuckets).

(** ** The file *)

(** The contents of peers.dat, if it is there; [opened], [written], [renamed]: the calls succeed. *)
Definition peers_data (s : CAddrMan) : bytes := pchMessageStart ++ Serialize s.
Definition CAddrDB_Write (s : CAddrMan) (opened written renamed : bool) (file : option bytes) : bool * option bytes :=
  let ssPeers := peers_data s ++ ser_uint256 (HashPeers (peers_data s)) in
  if negb opened then (false, file)
  else if negb written then (false, file)
  else if negb renamed then (false, file)
  else (true, Some ssPeers).

(** [addr] after the call, too: what was read before it threw stays. *)
Definition CAddrDB_Read (file : option bytes) (addr : CAddrMan) : bool * CAddrMan :=
  match file with
  | None => (false, addr)
  | Some content =>
    let fileSize := s32 (lenZ content) in
    let dataSize := Z.max 0 (s32 (fileSize - 32)) in
    let vchData := take (Z.to_nat dataSize) content in
    if lenZ vchData <? dataSize then (false, addr)
    else
      match rd_uint256 (drop (Z.to_nat dataSize) content) with
      | None => (false, addr)
      | Some (hashIn, _) =>
        if negb (hashIn =? HashPeers vchData) then (false, addr)
        else
          let pchMsgTmp := take 4 vchData in
          if lenZ vchData <? 4 then (false, addr)
          else if negb (bool_decide (pchMsgTmp = pchMessageStart)) then (false, addr)
          else
            match Unserialize (addr, drop 4 vchData) with
            | (Done _, (addr', _)) => (true, addr')
            | (_, (addr', _)) => (false, addr')
            end
      end
  end.
End Store.
