(* ===== verification/AddrStoreThms.v ===== *)
(** Theorems on peers.dat (AddrStore.v): what [CAddrDB::Write] has written is read back as the same tables, with
    the entries numbered anew; a failing write leaves the file as it was. *)

From stdpp Require Import sorting.
From S2P Require Import Prelude Monad Rand Codec NetAddr AddrMan AddrManInv AddrManThms AddrStore.

Lemma bind_Done {S A B} (m : X S A) (f : A -> X S B) s a s' : m s = (Done a, s') -> X.bind m f s = f a s'.
Proof. unfold X.bind. by intros ->. Qed.

Section Store.
Context `{PeerCodec, Hasher, AddressTypes, NetworkEnum}.
Implicit Types (s : CAddrMan) (i : CAddrInfo).

(** The members have values of their types. *)
Definition info_fits i : Prop :=
  address_fits (ca i) = true /\ netaddr_fits (source i) = true /\ in_s 64 (nLastSuccess i) /\ in_s 32 (nAttempts i).

(** An entry as it is read back: at position [k], with [r] references. *)
Definition image (k r : Z) i : CAddrInfo :=
  mkInfo (forget (ca i)) (source i) (nLastSuccess i) (nAttempts i) r (fInTried i) k.

(** ** The writer *)

Definition live (p : Z * CAddrInfo) : bool := negb (nRefCount p.2 =? 0).
Definition tried (p : Z * CAddrInfo) : bool := fInTried p.2.
Definition infos_of (l : list (Z * CAddrInfo)) : bytes := concat ((fun p => ser_info p.2) <$> l).

Lemma ser_new_spec l nIds m n :
  NoDup l.*1 -> n = nIds + lenZ (List.filter live l) ->
  let '(b, m') := ser_new n nIds l m in
  b = infos_of (List.filter live l) /\
  (forall id, id ∉ l.*1 -> m' !! id = m !! id) /\
  (forall k p, List.filter live l !! k = Some p -> m' !! p.1 = Some (nIds + Z.of_nat k)).
Proof.
  revert nIds m. induction l as [|[id i] l IH]; intros nIds m Hnd Hn; [by split_and!|].
  cbn [fmap list_fmap fst] in Hnd. apply NoDup_cons in Hnd as [Hid Hnd]. cbn [ser_new].
  destruct (Z.eqb_spec nIds n) as [->|Hne].
  { assert (E : List.filter live ((id, i) :: l) = []) by (apply length_zero_iff_nil; unfold lenZ in Hn; lia). rewrite E. by split_and!. }
  cbn [List.filter] in Hn |- *. change (live (id, i)) with (negb (nRefCount i =? 0)) in *.
  destruct (negb (nRefCount i =? 0)) eqn:El.
  - specialize (IH (nIds + 1) (<[id := nIds]> m) Hnd). rewrite lenZ_cons in Hn.
    destruct (ser_new n (nIds + 1) l _) as [b m']. destruct IH as (-> & Hm & Hk); [lia|]. split_and!; [done| |].
    + intros id' Hn'. cbn in Hn'. rewrite Hm by set_solver. by rewrite lookup_insert_ne by set_solver.
    + intros [|k] p Hp; cbn in Hp.
      * injection Hp as <-. cbn [fst]. rewrite Hm by done. rewrite lookup_insert_eq. f_equal. lia.
      * rewrite (Hk _ _ Hp). f_equal. lia.
  - specialize (IH nIds (<[id := nIds]> m) Hnd). destruct (ser_new n nIds l _) as [b m'].
    destruct IH as (-> & Hm & Hk); [lia|]. split_and!; [done| |done].
    intros id' Hn'. cbn in Hn'. rewrite Hm by set_solver. by rewrite lookup_insert_ne by set_solver.
Qed.

Lemma ser_tried_spec l nIds n :
  n = nIds + lenZ (List.filter tried l) -> ser_tried n nIds l = infos_of (List.filter tried l).
Proof.
  revert nIds. induction l as [|[id i] l IH]; intros nIds Hn; [done|]. cbn [ser_tried].
  destruct (Z.eqb_spec nIds n) as [->|Hne].
  { assert (E : List.filter tried ((id, i) :: l) = []) by (apply length_zero_iff_nil; unfold lenZ in Hn; lia). by rewrite E. }
  cbn [List.filter] in Hn |- *. change (tried (id, i)) with (fInTried i) in *. destruct (fInTried i).
  - rewrite lenZ_cons in Hn. rewrite IH by lia. done.
  - apply IH. lia.
Qed.

(** ** Reading one entry *)

Lemma rdv_ok {A} (p : bytes -> option (A * bytes)) s b a b' : p b = Some (a, b') -> rdv p (s, b) = (Done a, (s, b')).
Proof. unfold rdv. cbn. by intros ->. Qed.

Definition fill (i j : CAddrInfo) : CAddrInfo :=
  mkInfo (forget (ca i)) (source i) (nLastSuccess i) (nAttempts i) (nRefCount j) (fInTried j) (nRandomPos j).

Lemma rd_info_spec n i s r j :
  info_fits i -> mapInfo s !! n = Some j ->
  rd_info (fun f => upd_am (set_info n f)) (s, ser_info i ++ r) = (Done tt, (set_mapInfo <[n := fill i j]> s, r)).
Proof.
  intros (Ha & Hs & Hl & Hn) Hj. unfold rd_info, ser_info. rewrite <-!app_assoc.
  erewrite bind_Done by (by apply rdv_ok, rd_ser_address). erewrite bind_Done by done.
  erewrite bind_Done by (by apply rdv_ok, rd_ser_netaddr). erewrite bind_Done by done.
  erewrite bind_Done by (by apply rdv_ok, rd_ser_int64). erewrite bind_Done by done.
  erewrite bind_Done by (by apply rdv_ok, rd_ser_int).
  unfold upd_am, X.modify. cbn [fst snd]. do 2 f_equal. unfold set_info, set_mapInfo. cbn. f_equal.
  apply map_eq. intros k. destruct (decide (k = n)) as [->|Hne].
  - by rewrite !lookup_alter_eq, Hj, lookup_insert_eq.
  - by rewrite !lookup_alter_ne, lookup_insert_ne by done.
Qed.

Lemma rd_info_local_spec i s r :
  info_fits i -> rd_info_local (s, ser_info i ++ r) = (Done (fill i default_info), (s, r)).
Proof.
  intros (Ha & Hs & Hl & Hn). unfold rd_info_local, ser_info. rewrite <-!app_assoc.
  erewrite bind_Done by (by apply rdv_ok, rd_ser_address). erewrite bind_Done by (by apply rdv_ok, rd_ser_netaddr).
  erewrite bind_Done by (by apply rdv_ok, rd_ser_int64). by erewrite bind_Done by (by apply rdv_ok, rd_ser_int).
Qed.

(** ** The tables being filled *)

(** The entries [P], numbered from 0, are what has been read; the reference counts follow the new table. *)
Record Tab (P : list (Z * CAddrInfo)) s : Prop := {
  tab_info (k : nat) : mapInfo s !! Z.of_nat k = (fun p => image (Z.of_nat k) (new_count (vvNew s) (Z.of_nat k)) p.2) <$> P !! k;
  tab_neg k : k < 0 -> mapInfo s !! k = None;
  tab_rnd : vRandom s = seqZ 0 (lenZ P);
  tab_addr ip k : mapAddr s !! ip = Some k <-> exists (j : nat) p, k = Z.of_nat j /\ P !! j = Some p /\ netaddr p.2 = ip;
}.

Definition no_new : list (gset Z) := repeat ∅ (Z.to_nat ADDRMAN_NEW_BUCKET_COUNT).
Definition addresses (P : list (Z * CAddrInfo)) : list CNetAddr := (fun p => netaddr p.2) <$> P.

Lemma Tab_size P s : Tab P s -> size s = lenZ P.
Proof. intros HT. unfold size. rewrite (tab_rnd _ _ HT). unfold lenZ. rewrite length_seqZ. lia. Qed.

Lemma Tab_push P p s s' :
  Tab P s -> netaddr p.2 ∉ addresses P -> new_count (vvNew s) (lenZ P) = 0 ->
  mapInfo s' = <[lenZ P := image (lenZ P) 0 p.2]> (mapInfo s) -> mapAddr s' = <[netaddr p.2 := lenZ P]> (mapAddr s) ->
  vRandom s' = vRandom s ++ [lenZ P] -> vvNew s' = vvNew s -> Tab (P ++ [p]) s'.
Proof.
  intros [Ti Tn Tr Ta] Hp H0' Ei Ea Er Ev. split.
  - intros k. rewrite Ei, Ev. destruct (decide (k = length P)) as [->|Hk].
    + change (Z.of_nat (length P)) with (lenZ P). rewrite lookup_insert_eq, list_lookup_middle, H0' by done. done.
    + rewrite lookup_insert_ne by (unfold lenZ; lia). rewrite Ti. destruct (decide (k < length P)%nat).
      * by rewrite lookup_app_l by done.
      * rewrite !lookup_ge_None_2; [done|rewrite length_app; cbn; lia|lia].
  - intros k Hk. rewrite Ei, lookup_insert_ne by (unfold lenZ; lia). by apply Tn.
  - rewrite Er, Tr. unfold lenZ. rewrite length_app. cbn [length]. rewrite Nat.add_1_r, seqZ_S. by rewrite Z.add_0_l.
  - intros ip k. rewrite Ea. split.
    + intros [[<- <-]|[Hne (j & q & -> & Hj & <-)%Ta]]%lookup_insert_Some.
      * exists (length P), p. by rewrite list_lookup_middle.
      * exists j, q. split_and!; [done| |done]. by apply lookup_app_l_Some.
    + intros (j & q & -> & Hj & <-). apply lookup_app_Some in Hj as [Hj|[Hge Hj]].
      * rewrite lookup_insert_ne; [apply Ta; by exists j, q|]. intros E. apply Hp. rewrite E.
        apply list_elem_of_fmap. exists q. split; [done|]. by eapply list_elem_of_lookup_2.
      * destruct (j - length P)%nat eqn:Ej; [|done]. injection Hj as <-. rewrite lookup_insert_eq. f_equal. unfold lenZ. lia.
Qed.

(** What the phases leave alone. *)
Definition same_new s s' : Prop :=
  nKey s' = nKey s /\ nNew s' = nNew s /\ vvNew s' = vvNew s.

Lemma rd_new_spec l P s r :
  Tab P s -> vvNew s = no_new -> NoDup (addresses (P ++ l)) -> Forall (fun p => info_fits p.2 /\ fInTried p.2 = false) l ->
  exists s', rd_new ADDRMAN_NEW_BUCKET_COUNT (lenZ P) (length l) (s, infos_of l ++ r) = (Done tt, (s', r)) /\
    Tab (P ++ l) s' /\ same_new s s' /\ nTried s' = nTried s /\ vvTried s' = vvTried s /\ nIdCount s' = nIdCount s.
Proof.
  revert P s. induction l as [|p l IH]; intros P s HT Hv Hnd Hl.
  { exists s. rewrite app_nil_r. by split_and!. }
  apply Forall_cons in Hl as [[Hf Ht] Hl]. cbn [rd_new length].
  assert (Hnone : mapInfo s !! lenZ P = None) by (unfold lenZ; rewrite (tab_info _ _ HT); by rewrite lookup_ge_None_2).
  unfold infos_of. cbn [fmap list_fmap concat]. rewrite <-app_assoc. fold (infos_of l).
  erewrite bind_Done by done. cbn [fst snd].
  erewrite bind_Done; [|apply rd_info_spec; [done|]; cbn; rewrite Hnone; apply lookup_insert_eq].
  erewrite bind_Done by done. cbn [fst]. erewrite bind_Done by done. erewrite bind_Done by done. erewrite bind_Done by done.
  erewrite bind_Done by done. rewrite Z.eqb_refl. cbn [negb]. erewrite bind_Done by done.
  set (s1 := set_vRandom _ _).
  assert (E1 : mapInfo s1 = <[lenZ P := image (lenZ P) 0 p.2]> (mapInfo s)).
  { unfold s1. cbn. rewrite Hnone, alter_insert_eq, insert_insert_eq. f_equal.
    match goal with |- set_nRandomPos ?x _ = _ => change x with (size s) end.
    rewrite (Tab_size _ _ HT). unfold image, fill. cbn. by rewrite Ht. }
  assert (HT1 : Tab (P ++ [p]) s1).
  { apply (Tab_push P p s); [done| | |exact E1| |done|done].
    - unfold addresses in Hnd |- *. rewrite fmap_app in Hnd. cbn [fmap list_fmap] in Hnd. intros Hin.
      apply NoDup_app in Hnd as (_ & Hd & _). by apply (Hd _ Hin); left.
    - rewrite Hv. apply new_count_empty.
    - unfold s1. cbn. by rewrite Hnone, lookup_insert_eq. }
  destruct (IH (P ++ [p]) s1) as (s' & Er & HT' & (K1 & K2 & K3) & K4 & K5 & K6); [done|done|by rewrite <-app_assoc|done|].
  rewrite lenZ_app in Er. exists s'. rewrite <-app_assoc in HT'. by split_and!.
Qed.

(** The numbers of the tried entries of [P] whose bucket is [b]. *)
Definition in_tried (key : bytes) (b : Z) (q : nat * (Z * CAddrInfo)) : bool :=
  tried q.2 && (CAddrInfo.GetTriedBucket q.2.2 key =? b).
Definition ranks (key : bytes) (P : list (Z * CAddrInfo)) (b : Z) : list Z :=
  (fun q : nat * (Z * CAddrInfo) => Z.of_nat q.1) <$> List.filter (in_tried key b) (imap pair P).

Lemma ranks_snoc key P p b :
  ranks key (P ++ [p]) b = ranks key P b ++ (if in_tried key b (length P, p) then [lenZ P] else []).
Proof.
  unfold ranks. rewrite imap_app, List.filter_app, fmap_app. cbn [imap List.filter]. rewrite Nat.add_0_r.
  by destruct (in_tried key b (length P, p)).
Qed.
Lemma ranks_app_le key P l b : lenZ (ranks key P b) <= lenZ (ranks key (P ++ l) b).
Proof.
  revert P. induction l as [|p l IH]; intros P; [by rewrite app_nil_r|]. specialize (IH (P ++ [p])).
  rewrite <-app_assoc in IH. cbn [app] in IH. etransitivity; [|exact IH]. rewrite ranks_snoc, lenZ_app. pose proof (lenZ_nonneg (if in_tried key b (length P, p) then [lenZ P] else [])). lia.
Qed.

(** The numbers of all tried entries. *)
Definition tried_nums (P : list (Z * CAddrInfo)) : list Z :=
  (fun q : nat * (Z * CAddrInfo) => Z.of_nat q.1) <$> List.filter (fun q => tried q.2) (imap pair P).
Lemma tried_nums_snoc P p : tried_nums (P ++ [p]) = tried_nums P ++ (if tried p then [lenZ P] else []).
Proof.
  unfold tried_nums. rewrite imap_app, List.filter_app, fmap_app. cbn [imap List.filter snd]. rewrite Nat.add_0_r.
  by destruct (tried p).
Qed.

(** The tried buckets as the entries fill them. *)
Definition Buckets (P : list (Z * CAddrInfo)) s : Prop :=
  lenZ (vvTried s) = ADDRMAN_TRIED_BUCKET_COUNT /\ concat (vvTried s) ≡ₚ tried_nums P /\
  forall b, 0 <= b < ADDRMAN_TRIED_BUCKET_COUNT -> vTried_at s b = ranks (nKey s) P b.

Lemma vTried_at_alter s b b' f :
  0 <= b < lenZ (vvTried s) -> 0 <= b' ->
  nthZ [] (alter f (Z.to_nat b) (vvTried s)) b' = if decide (b' = b) then f (vTried_at s b) else vTried_at s b'.
Proof.
  intros Hb Hb'. unfold vTried_at. destruct (decide (b' = b)) as [->|Hne].
  - apply nthZ_Some; [lia|]. by rewrite list_lookup_alter_eq, (nthZ_lookup_at [] _ _ Hb).
  - unfold nthZ. destruct (b' <? 0); [done|]. rewrite !nth_lookup. by rewrite list_lookup_alter_ne by lia.
Qed.

Lemma rd_tried_spec l P s nLost r :
  Tab P s -> vvNew s = no_new -> nIdCount s = lenZ P -> Buckets P s ->
  (forall b, 0 <= b < ADDRMAN_TRIED_BUCKET_COUNT -> lenZ (ranks (nKey s) (P ++ l) b) <= ADDRMAN_TRIED_BUCKET_SIZE) ->
  NoDup (addresses (P ++ l)) -> Forall (fun p => info_fits p.2 /\ nRefCount p.2 = 0 /\ fInTried p.2 = true) l ->
  exists s', rd_tried nLost (length l) (s, infos_of l ++ r) = (Done nLost, (s', r)) /\
    Tab (P ++ l) s' /\ Buckets (P ++ l) s' /\ same_new s s' /\ nTried s' = nTried s /\ nIdCount s' = lenZ (P ++ l).
Proof.
  revert P s. induction l as [|p l IH]; intros P s HT Hv Hc (Hlen & Hperm & HB) Hroom Hnd Hl.
  { exists s. rewrite app_nil_r. by split_and!. }
  apply Forall_cons in Hl as [(Hf & Hz & Ht) Hl]. cbn [rd_tried length].
  unfold infos_of. cbn [fmap list_fmap concat]. rewrite <-app_assoc. fold (infos_of l).
  erewrite bind_Done by (by apply rd_info_local_spec).
  set (b := CAddrInfo.GetTriedBucket p.2 (nKey s)).
  assert (Hb : 0 <= b < ADDRMAN_TRIED_BUCKET_COUNT) by apply GetTriedBucket_range.
  assert (Hin : in_tried (nKey s) b (length P, p) = true).
  { unfold in_tried, tried, b. cbn [snd]. by rewrite Ht, Z.eqb_refl. }
  assert (Hlt : lenZ (vTried_at s b) < ADDRMAN_TRIED_BUCKET_SIZE).
  { rewrite HB by done. specialize (Hroom b Hb). pose proof (ranks_app_le (nKey s) (P ++ [p]) l b) as Hle.
    rewrite <-app_assoc in Hle. cbn [app] in Hle. rewrite ranks_snoc, Hin, lenZ_app in Hle. unfold lenZ at 2 in Hle. cbn [length] in Hle. lia. }
  set (s1 := set_nIdCount (Z.add 1) (set_vTried b (fun l => l ++ [lenZ P]) (set_mapAddr <[netaddr p.2 := lenZ P]>
    (set_mapInfo <[lenZ P := image (lenZ P) 0 p.2]> (set_vRandom (fun v => v ++ [lenZ P]) s))))).
  assert (Ep : place_tried (fill p.2 default_info) (s, infos_of l ++ r) = (Done true, (s1, infos_of l ++ r))).
  { unfold place_tried. erewrite bind_Done by done. erewrite bind_Done by done. cbn [fst].
    change (CAddrInfo.GetTriedBucket (fill p.2 default_info) (nKey s)) with b.
    destruct (Z.ltb_spec (lenZ (vTried_at s b)) ADDRMAN_TRIED_BUCKET_SIZE); [|lia].
    erewrite bind_Done by done. erewrite bind_Done by done. cbn [fst]. rewrite Hc, (Tab_size _ _ HT).
    erewrite bind_Done by done. erewrite bind_Done by done. erewrite bind_Done by done. erewrite bind_Done by done.
    erewrite bind_Done by done. unfold X.ret. cbn [fst snd]. do 2 f_equal. unfold s1. do 4 f_equal.
    unfold image, fill. cbn. by rewrite Ht. }
  erewrite bind_Done by exact Ep.
  assert (HT1 : Tab (P ++ [p]) s1).
  { apply (Tab_push P p s); try done.
    - unfold addresses in Hnd |- *. rewrite fmap_app in Hnd. cbn [fmap list_fmap] in Hnd. intros Hx.
      apply NoDup_app in Hnd as (_ & Hd & _). by apply (Hd _ Hx); left.
    - rewrite Hv. apply new_count_empty. }
  assert (HB1 : Buckets (P ++ [p]) s1).
  { split; [unfold s1, lenZ in *; cbn; by rewrite length_alter|]. split.
    { destruct (concat_alter (vTried_at s b) (Z.to_nat b) (vvTried s)) as (rest & E1 & E2); [apply nthZ_lookup_at; by rewrite Hlen|].
      unfold s1. cbn. rewrite E2, tried_nums_snoc. unfold tried. rewrite Ht, <-Hperm, E1. by solve_Permutation. }
    intros b' Hb'. rewrite ranks_snoc.
    transitivity (nthZ [] (alter (fun l => l ++ [lenZ P]) (Z.to_nat b) (vvTried s)) b'); [done|].
    rewrite vTried_at_alter by (rewrite ?Hlen; lia). rewrite !HB by done. change (nKey s1) with (nKey s).
    destruct (decide (b' = b)) as [->|Hne]; [by rewrite Hin|].
    replace (in_tried (nKey s) b' (length P, p)) with false; [by rewrite app_nil_r|].
    unfold in_tried. cbn [snd]. fold b. destruct (Z.eqb_spec b b'); [by subst|]. by rewrite andb_false_r. }
  assert (Hc1 : nIdCount s1 = lenZ (P ++ [p])).
  { rewrite lenZ_app. unfold s1. cbn. rewrite Hc. unfold lenZ. cbn. lia. }
  destruct (IH (P ++ [p]) s1) as (s' & Er & HT' & HB' & (K1 & K2 & K3) & K4 & K5); try done; try by rewrite <-app_assoc.
  exists s'. rewrite <-app_assoc in HT', HB', K5. split_and!; try done.
Qed.

(** ** The new buckets *)

Lemma rd_indexes_spec P ks s b r :
  Tab P s -> 0 <= b < lenZ (vvNew s) -> NoDup ks ->
  Forall (fun k => 0 <= k < lenZ P /\ in_s 32 k /\ k ∉ vNew_at s b /\ new_count (vvNew s) k < ADDRMAN_NEW_BUCKETS_PER_ADDRESS) ks ->
  exists s', rd_indexes ADDRMAN_NEW_BUCKET_COUNT b (length ks) (s, concat (ser_int <$> ks) ++ r) = (Done tt, (s', r)) /\
    Tab P s' /\ vvNew s' = alter (fun c => list_to_set ks ∪ c) (Z.to_nat b) (vvNew s) /\
    (nKey s' = nKey s /\ nNew s' = nNew s /\ nTried s' = nTried s /\ vvTried s' = vvTried s /\ nIdCount s' = nIdCount s).
Proof.
  revert s. induction ks as [|k ks IH]; intros s HT Hb Hnd Hks.
  { exists s. split_and!; try done. cbn. symmetry. apply list_alter_id. intros. apply union_empty_l_L. }
  apply NoDup_cons in Hnd as [Hk Hnd]. apply Forall_cons in Hks as [((Hk0 & Hkl) & Hks32 & Hkb & Hkc) Hks].
  cbn [rd_indexes length fmap list_fmap concat]. rewrite <-app_assoc.
  destruct (lookup_lt_is_Some_2 P (Z.to_nat k)) as [p Hp]; [unfold lenZ in Hkl; lia|].
  assert (Hi : mapInfo s !! k = Some (image k (new_count (vvNew s) k) p.2)).
  { pose proof (tab_info _ _ HT (Z.to_nat k)) as E. rewrite Z2Nat.id in E by done. by rewrite E, Hp. }
  erewrite bind_Done by (by apply rdv_ok, rd_ser_int). erewrite bind_Done by done. cbn [fst snd].
  erewrite bind_Done by done. cbn [fst].
  set (s0 := set_mapInfo _ s). assert (E0 : s0 = s) by (unfold s0, set_mapInfo; rewrite Hi; by destruct s). rewrite E0. clear s0 E0.
  rewrite Hi. cbn [default from_option]. rewrite Z.eqb_refl. cbn [andb].
  destruct (Z.ltb_spec (nRefCount (id (image k (new_count (vvNew s) k) p.2))) ADDRMAN_NEW_BUCKETS_PER_ADDRESS) as [_|Hge]; [|cbn in Hge; lia].
  erewrite bind_Done by done. cbn [fst snd].
  set (s1 := set_vNew b (fun c => {[k]} ∪ c) (set_info k (fun i => set_nRefCount (nRefCount i + 1) i) s)).
  assert (Hcnt : forall j, new_count (vvNew s1) j = new_count (vvNew s) j + if decide (j = k) then 1 else 0).
  { intros j. unfold s1. cbn. rewrite (new_count_alter _ _ _ (vNew_at s b)) by (by apply nthZ_lookup_at).
    destruct (decide (j = k)) as [->|].
    - rewrite (decide_False (P := k ∈ vNew_at s b)), decide_True by set_solver. lia.
    - destruct (decide (j ∈ vNew_at s b)); [rewrite decide_True by set_solver|rewrite decide_False by set_solver]; lia. }
  assert (HT1 : Tab P s1).
  { destruct HT as [Ti Tn Tr Ta]. split; [| |exact Tr|exact Ta].
    - intros j. rewrite Hcnt. unfold s1. cbn. destruct (decide (Z.of_nat j = k)) as [Ej|Hne].
      + rewrite Ej, lookup_alter_eq, Hi. assert (j = Z.to_nat k) as -> by lia. by rewrite Hp.
      + rewrite lookup_alter_ne, Ti by done. by rewrite Z.add_0_r.
    - intros j Hj. unfold s1. cbn. rewrite lookup_alter_ne by lia. by apply Tn. }
  assert (Hlen : lenZ (vvNew s1) = lenZ (vvNew s)) by (unfold lenZ; cbn; by rewrite length_alter).
  assert (Hat : vNew_at s1 b = {[k]} ∪ vNew_at s b) by exact (vNew_at_alter (set_info k (fun i => set_nRefCount (nRefCount i + 1) i) s) b (fun c => {[k]} ∪ c) Hb).
  destruct (IH s1) as (s' & Er & HT' & Ev & K1 & K2 & K3 & K4 & K5); [done|by rewrite Hlen|done| |].
  { rewrite Forall_forall in Hks |- *. intros j Hj. destruct (Hks j Hj) as (? & ? & ? & ?).
    assert (j <> k) by (by intros ->). split_and!; try done; try lia.
    - rewrite Hat. set_solver.
    - rewrite Hcnt, decide_False by done. lia. }
  exists s'. split_and!; try done.
  rewrite Ev. unfold s1. cbn. rewrite list_alter_alter_eq. apply list_alter_ext; [|done]. intros c _. cbn. rewrite (union_comm_L {[k]} (list_to_set ks)), <-union_assoc_L. done.
Qed.

(** The set of the numbers of a bucket's entries. *)
Definition img (g : Z -> Z) (c : gset Z) : gset Z := list_to_set (g <$> ascending (elements c)).
Lemma elem_of_img g c k : k ∈ img g c <-> exists id, k = g id /\ id ∈ c.
Proof.
  unfold img. rewrite elem_of_list_to_set, list_elem_of_fmap. setoid_rewrite ascending_elem. by setoid_rewrite elem_of_elements.
Qed.

(** The numbers [g] are right for the entries of a bucket. *)
Definition numbered (g : Z -> Z) (P : list (Z * CAddrInfo)) (c : gset Z) : Prop :=
  Z.of_nat (base.size c) < 2 ^ 31 /\ (forall id, id ∈ c -> 0 <= g id < lenZ P /\ in_s 32 (g id)) /\
  (forall id id', id ∈ c -> id' ∈ c -> g id = g id' -> id = id').

Lemma img_NoDup g P c : numbered g P c -> NoDup (g <$> ascending (elements c)).
Proof.
  intros (_ & _ & Hi). apply NoDup_fmap_2_strong.
  - intros x y Hx Hy. rewrite ascending_elem, elem_of_elements in Hx, Hy. by apply Hi.
  - unfold ascending; rewrite (merge_sort_Permutation Z.le (elements c)). apply NoDup_elements.
Qed.

Lemma rd_buckets_spec P g vv done_ s r :
  Tab P s -> vvNew s = done_ ++ repeat ∅ (length vv) -> Forall (numbered g P) vv ->
  (forall k, new_count (done_ ++ (img g <$> vv)) k <= ADDRMAN_NEW_BUCKETS_PER_ADDRESS) ->
  exists s', rd_buckets ADDRMAN_NEW_BUCKET_COUNT (lenZ done_) (length vv)
      (s, concat ((fun c => ser_int (Z.of_nat (base.size c)) ++ concat ((fun id => ser_int (g id)) <$> ascending (elements c))) <$> vv) ++ r)
      = (Done tt, (s', r)) /\
    Tab P s' /\ vvNew s' = done_ ++ (img g <$> vv) /\
    (nKey s' = nKey s /\ nNew s' = nNew s /\ nTried s' = nTried s /\ vvTried s' = vvTried s /\ nIdCount s' = nIdCount s).
Proof.
  revert done_ s. induction vv as [|c vv IH]; intros done_ s HT Hv Hvv Hc.
  { exists s. split_and!; done. }
  apply Forall_cons in Hvv as [Hn Hvv]. cbn [rd_buckets length fmap list_fmap concat]. rewrite <-!app_assoc.
  pose proof (img_NoDup _ _ _ Hn) as Hnd. destruct Hn as (Hsz & Hg & Hi).
  erewrite bind_Done by (apply rdv_ok, rd_ser_int; unfold in_s; lia).
  assert (Hlen : lenZ (vvNew s) = lenZ done_ + Z.of_nat (S (length vv))).
  { rewrite Hv, lenZ_app. unfold lenZ. cbn [length]. rewrite repeat_length. cbn. lia. }
  assert (Hat : vvNew s !! length done_ = Some ∅) by (rewrite Hv; cbn [length repeat]; by rewrite list_lookup_middle).
  assert (Hempty : vNew_at s (lenZ done_) = ∅).
  { unfold vNew_at. apply nthZ_Some; [apply lenZ_nonneg|]. unfold lenZ. by rewrite Nat2Z.id. }
  destruct (rd_indexes_spec P (g <$> ascending (elements c)) s (lenZ done_)
    (concat ((fun c => ser_int (Z.of_nat (base.size c)) ++ concat ((fun id => ser_int (g id)) <$> ascending (elements c))) <$> vv) ++ r))
    as (s1 & Er & HT1 & Ev1 & K1 & K2 & K3 & K4 & K5); [done| |done| |].
  { rewrite Hlen. pose proof (lenZ_nonneg done_). lia. }
  { rewrite Forall_forall. intros k Hk.
    assert (Hki : k ∈ img g c) by (unfold img; by apply elem_of_list_to_set).
    apply list_elem_of_fmap in Hk as (id & -> & Hid). rewrite ascending_elem, elem_of_elements in Hid.
    destruct (Hg id Hid) as [? ?]. split_and!; try lia; try done.
    - rewrite Hempty. apply not_elem_of_empty.
    - specialize (Hc (g id)). rewrite new_count_app in Hc. cbn [fmap list_fmap] in Hc. rewrite new_count_cons, decide_True in Hc by done.
      rewrite Hv, new_count_app. rewrite (new_count_empty (length (c :: vv))). pose proof (new_count_nonneg (img g <$> vv) (g id)). lia. }
  rewrite length_fmap in Er. rewrite <-list_fmap_compose in Er.
  assert (El : length (ascending (elements c)) = Z.to_nat (Z.of_nat (base.size c))).
  { unfold ascending. rewrite (Permutation_length (merge_sort_Permutation Z.le (elements c))). by rewrite Nat2Z.id. }
  rewrite El in Er. erewrite bind_Done by exact Er.
  assert (Hv1 : vvNew s1 = (done_ ++ [img g c]) ++ repeat ∅ (length vv)).
  { rewrite Ev1, Hv. unfold lenZ. rewrite Nat2Z.id. cbn [length repeat]. rewrite <-app_assoc.
    replace (length done_) with (length done_ + 0)%nat by lia. rewrite alter_app_r. cbn. by rewrite union_empty_r_L. }
  destruct (IH (done_ ++ [img g c]) s1) as (s' & Er' & HT' & Ev' & L1 & L2 & L3 & L4 & L5); [done|done|done| |].
  { intros k. rewrite <-app_assoc. apply Hc. }
  rewrite lenZ_app in Er'. exists s'. split; [exact Er'|]. split; [done|]. split; [by rewrite Ev', <-app_assoc|].
  split_and!; congruence.
Qed.

(** ** The entries of a consistent manager *)

(** A tried entry is in the bucket its address selects. *)
Definition placed s : Prop :=
  forall b id i, 0 <= b < ADDRMAN_TRIED_BUCKET_COUNT -> id ∈ vTried_at s b -> mapInfo s !! id = Some i ->
    CAddrInfo.GetTriedBucket i (nKey s) = b.

(** Everything can be written. *)
Definition storable s : Prop := key_fits (nKey s) = true /\ map_Forall (fun _ => info_fits) (mapInfo s).

Definition entries s : list (Z * CAddrInfo) := by_key (mapInfo s).
Definition news s : list (Z * CAddrInfo) := List.filter live (entries s).
Definition trieds s : list (Z * CAddrInfo) := List.filter tried (entries s).
(** As they are numbered when they are read back. *)
Definition numbering s : list (Z * CAddrInfo) := news s ++ trieds s.

Lemma elem_of_filterb {A} (f : A -> bool) l x : x ∈ List.filter f l <-> x ∈ l /\ f x = true.
Proof. rewrite !list_elem_of_In. apply filter_In. Qed.
Lemma filterb_split {A} (f g : A -> bool) l : (forall x, x ∈ l -> g x = negb (f x)) -> List.filter f l ++ List.filter g l ≡ₚ l.
Proof.
  induction l as [|x l IH]; intros Hfg; [done|]. cbn [List.filter]. rewrite (Hfg x) by set_solver.
  specialize (IH ltac:(set_solver)). destruct (f x); cbn [negb app]; [by rewrite IH|]. by rewrite <-Permutation_middle, IH.
Qed.

(** ** The numbers of the tried entries *)

Lemma elem_of_imap_pair (P : list (Z * CAddrInfo)) j p : (j, p) ∈ imap pair P <-> P !! j = Some p.
Proof.
  rewrite list_elem_of_lookup. setoid_rewrite list_lookup_imap. split.
  - intros (n & Hn). apply fmap_Some in Hn as (q & Hq & [= -> ->]). done.
  - intros Hp. exists j. by rewrite Hp.
Qed.
Lemma elem_of_ranks key P b k :
  k ∈ ranks key P b <-> exists (j : nat) p, k = Z.of_nat j /\ P !! j = Some p /\ fInTried p.2 = true /\ CAddrInfo.GetTriedBucket p.2 key = b.
Proof.
  unfold ranks. rewrite list_elem_of_fmap. split.
  - intros ([j p] & -> & Hq). apply elem_of_filterb in Hq as [Hq Hf]. apply elem_of_imap_pair in Hq. unfold in_tried, tried in Hf. cbn [snd] in Hf.
    exists j, p. split_and!; [done|done| |]; destruct (fInTried p.2); try done. lia.
  - intros (j & p & -> & Hj & Ht & Hb). exists (j, p). split; [done|]. apply elem_of_filterb. split; [by apply elem_of_imap_pair|].
    unfold in_tried, tried. cbn [snd]. rewrite Ht, Hb. by rewrite Z.eqb_refl.
Qed.
Lemma elem_of_tried_nums P k : k ∈ tried_nums P <-> exists (j : nat) p, k = Z.of_nat j /\ P !! j = Some p /\ fInTried p.2 = true.
Proof.
  unfold tried_nums. rewrite list_elem_of_fmap. split.
  - intros ([j p] & -> & Hq). apply elem_of_filterb in Hq as [Hq Hf]. apply elem_of_imap_pair in Hq. by exists j, p.
  - intros (j & p & -> & Hj & Ht). exists (j, p). split; [done|]. apply elem_of_filterb. split; [by apply elem_of_imap_pair|done].
Qed.
Lemma imap_pair_fst (P : list (Z * CAddrInfo)) : (imap pair P).*1 = seq 0 (length P).
Proof.
  induction P as [|p P IH] using rev_ind; [done|]. rewrite imap_app, fmap_app, IH, length_app. cbn [imap fmap list_fmap length fst].
  by rewrite Nat.add_1_r, seq_S, Nat.add_0_r.
Qed.
Lemma NoDup_nums (f : nat * (Z * CAddrInfo) -> bool) P :
  NoDup ((fun q : nat * (Z * CAddrInfo) => Z.of_nat q.1) <$> List.filter f (imap pair P)).
Proof.
  apply NoDup_fmap_2_strong.
  - intros [j p] [j' p'] Hp Hp' E. apply elem_of_filterb in Hp as [Hp _], Hp' as [Hp' _]. apply elem_of_imap_pair in Hp, Hp'.
    cbn in E. assert (j = j') as -> by lia. rewrite Hp in Hp'. by injection Hp' as ->.
  - assert (Hn : NoDup (imap pair P)); [|by apply NoDup_ListNoDup, List.NoDup_filter, NoDup_ListNoDup].
    apply (NoDup_fmap_1 fst). rewrite imap_pair_fst. apply NoDup_seq.
Qed.
Lemma ranks_length key P b : lenZ (ranks key P b) = lenZ (List.filter (fun p => tried p && (CAddrInfo.GetTriedBucket p.2 key =? b)) P).
Proof.
  induction P as [|p P IH] using rev_ind; [done|]. rewrite ranks_snoc, List.filter_app, !lenZ_app, IH. f_equal.
  unfold in_tried. cbn [snd List.filter]. by destruct (tried p && _).
Qed.
Lemma tried_nums_length P : lenZ (tried_nums P) = lenZ (List.filter tried P).
Proof.
  induction P as [|p P IH] using rev_ind; [done|]. rewrite tried_nums_snoc, List.filter_app, !lenZ_app, IH. f_equal.
  cbn [List.filter]. by destruct (tried p).
Qed.

Lemma filterb_none {A} (f : A -> bool) l : (forall x, x ∈ l -> f x = false) -> List.filter f l = [].
Proof. induction l as [|x l IH]; intros Hf; [done|]. cbn. rewrite (Hf x) by set_solver. apply IH. set_solver. Qed.

Lemma filterb_twice {A} (f : A -> bool) l : List.filter f (List.filter f l) = List.filter f l.
Proof. induction l as [|x l IH]; [done|]. cbn. destruct (f x) eqn:E; [cbn; by rewrite E, IH|done]. Qed.

(** No tried entry, no number in a bucket. *)
Lemma untried_buckets P s :
  vvTried s = repeat [] (Z.to_nat ADDRMAN_TRIED_BUCKET_COUNT) -> (forall p, p ∈ P -> fInTried p.2 = false) -> Buckets P s.
Proof.
  intros Ev HP. assert (E : tried_nums P = []).
  { apply length_zero_iff_nil. pose proof (tried_nums_length P) as El. rewrite filterb_none in El by (intros p Hp; by apply HP). unfold lenZ in El. cbn in El. lia. }
  assert (Er : forall b, ranks (nKey s) P b = []).
  { intros b. apply length_zero_iff_nil. pose proof (ranks_length (nKey s) P b) as El.
    rewrite filterb_none in El by (intros p Hp; unfold tried; by rewrite (HP p Hp)). unfold lenZ in El. cbn in El. lia. }
  split; [by rewrite Ev|]. split; [by rewrite Ev, E|]. intros b Hb. rewrite Er. unfold vTried_at. apply nthZ_Some; [lia|].
  rewrite Ev. rewrite <-(Z2Nat.id b) in Hb by lia. change (repeat [] _) with (replicate (Z.to_nat ADDRMAN_TRIED_BUCKET_COUNT) ([] : list Z)). apply lookup_replicate_2. lia.
Qed.

Section Consistent.
Context (s : CAddrMan) (HI : AddrInv s).

Lemma entry_info p : p ∈ entries s <-> mapInfo s !! p.1 = Some p.2.
Proof. destruct p as [id i]. apply by_key_elem. Qed.

Lemma entry_ok p : p ∈ entries s -> info_ok p.2.
Proof. intros Hp%entry_info. eapply (inv_info _ _ (proj2 HI)), Hp. Qed.

Lemma live_untried p : p ∈ entries s -> live p = negb (tried p).
Proof.
  intros Hp%entry_ok. unfold live, tried. destruct Hp as (_ & _ & Hr). destruct (fInTried p.2).
  - destruct Hr as [-> _]. done.
  - destruct (Z.eqb_spec (nRefCount p.2) 0); [lia|done].
Qed.

Lemma numbering_perm : numbering s ≡ₚ entries s.
Proof.
  unfold numbering, news, trieds. apply filterb_split. intros p Hp. rewrite (live_untried p Hp). by rewrite negb_involutive.
Qed.
Lemma numbering_ids : NoDup (numbering s).*1.
Proof. rewrite numbering_perm. apply by_key_NoDup. Qed.
Lemma numbering_elem p : p ∈ numbering s <-> mapInfo s !! p.1 = Some p.2.
Proof. rewrite numbering_perm. apply entry_info. Qed.
Lemma numbering_addresses : NoDup (addresses (numbering s)).
Proof.
  unfold addresses. apply NoDup_fmap_2_strong; [|eapply NoDup_fmap_1, numbering_ids].
  intros [id i] [id' i'] Hp%numbering_elem Hq%numbering_elem E. cbn [fst snd] in *.
  pose proof (inv_adr _ _ (proj2 HI)) as Ha.
  assert (E1 : mapAddr s !! netaddr i = Some id) by (apply Ha; by rewrite lookup_fmap, Hp).
  assert (E2 : mapAddr s !! netaddr i = Some id') by (apply Ha; rewrite E; by rewrite lookup_fmap, Hq).
  rewrite E1 in E2. injection E2 as <-. rewrite Hp in Hq. by injection Hq as <-.
Qed.

Lemma trieds_length : lenZ (trieds s) = nTried s.
Proof.
  rewrite (inv_nTried _ _ (proj2 HI)). destruct (inv_tried _ _ (proj2 HI)) as [Hnd Hel].
  unfold lenZ. f_equal. rewrite <-(length_fmap fst). apply Permutation_length. apply NoDup_Permutation; [|done|].
  - pose proof numbering_ids as Hn. unfold numbering in Hn. rewrite fmap_app in Hn. by apply NoDup_app in Hn as (_ & _ & Hn).
  - intros id. rewrite Hel, list_elem_of_fmap, lookup_fmap. split.
    + intros ([id' i] & -> & Hp). apply elem_of_filterb in Hp as [Hp%entry_info Ht]. cbn in *. rewrite Hp. cbn. unfold tried in Ht. by rewrite <-Ht.
    + intros (i & Hf & Hi)%fmap_Some. exists (id, i). split; [done|]. apply elem_of_filterb. split; [by apply entry_info|done].
Qed.
Lemma numbering_length : lenZ (numbering s) = nTried s + nNew s.
Proof.
  rewrite <-(inv_count _ _ (proj2 HI)). unfold lenZ. f_equal. rewrite <-(length_fmap fst). apply Permutation_length.
  destruct HI as [Hr _]. apply NoDup_Permutation; [apply numbering_ids|by eapply rnd_NoDup|].
  intros id. rewrite (rnd_elem _ _ id Hr), lookup_fmap, fmap_is_Some, list_elem_of_fmap. split.
  - intros ([id' i] & -> & Hp%numbering_elem). by eexists.
  - intros [i Hi]. exists (id, i). split; [done|]. by apply numbering_elem.
Qed.
Lemma news_length : lenZ (news s) = nNew s.
Proof. pose proof numbering_length as E. unfold numbering in E. rewrite lenZ_app, trieds_length in E. lia. Qed.

Lemma new_bucket_entry (k : nat) c id :
  vvNew s !! k = Some c -> id ∈ c -> exists j i, news s !! j = Some (id, i) /\ mapInfo s !! id = Some i.
Proof.
  intros Hk Hid. pose proof (inv_ref _ _ (proj2 HI)) as Hr. destruct (ref_in_bucket _ _ _ _ _ _ Hr Hk Hid) as [r Hx].
  pose proof (ref_at _ _ _ _ _ Hr Hx) as E. rewrite lookup_fmap in Hx. apply fmap_Some in Hx as (i & Hi & ->).
  pose proof (new_count_pos _ _ _ _ Hk Hid). unfold no_pending in E.
  assert (Hp : (id, i) ∈ news s).
  { apply elem_of_filterb. split; [by apply entry_info|]. unfold live. cbn [snd]. destruct (Z.eqb_spec (nRefCount i) 0); [lia|done]. }
  apply list_elem_of_lookup in Hp as [j Hj]. by exists j, i.
Qed.

(** The number of an entry. *)
Definition rank (id : Z) : Z :=
  match list_find (fun p : Z * CAddrInfo => p.1 = id) (numbering s) with Some (k, _) => Z.of_nat k | None => -1 end.
Lemma rank_at (k : nat) p : numbering s !! k = Some p -> rank p.1 = Z.of_nat k.
Proof.
  intros Hk. unfold rank. destruct (list_find _ _) as [[j q]|] eqn:E.
  - apply list_find_Some in E as (Hj & Eq & _). f_equal. apply (NoDup_lookup _ _ _ p.1 numbering_ids).
    + rewrite list_lookup_fmap, Hj. cbn. by rewrite Eq.
    + by rewrite list_lookup_fmap, Hk.
  - apply list_find_None in E. rewrite Forall_forall in E. exfalso. by apply (E p); [eapply list_elem_of_lookup_2|].
Qed.

Definition in_buckets (c : gset Z) : Prop := forall id, id ∈ c -> exists j i, news s !! j = Some (id, i) /\ mapInfo s !! id = Some i.
Lemma buckets_known : Forall in_buckets (vvNew s).
Proof. apply Forall_lookup. intros k c Hk id Hid. by eapply new_bucket_entry. Qed.

Lemma news_rank j p : news s !! j = Some p -> numbering s !! j = Some p /\ rank p.1 = Z.of_nat j.
Proof. intros Hj. assert (Hn : numbering s !! j = Some p) by (by apply lookup_app_l_Some). split; [done|by apply rank_at]. Qed.

Lemma in_img c (k : nat) p : in_buckets c -> numbering s !! k = Some p -> Z.of_nat k ∈ img rank c <-> p.1 ∈ c.
Proof.
  intros Hc Hk. rewrite elem_of_img. split.
  - intros (id & Ek & Hid). destruct (Hc id Hid) as (j & i & Hj & _). apply news_rank in Hj as [Hj Er]. cbn [fst] in Er.
    assert (j = k) as -> by lia. rewrite Hj in Hk. by injection Hk as <-.
  - intros Hid. exists p.1. split; [|done]. by rewrite (rank_at k p).
Qed.

Lemma img_count (k : nat) p : numbering s !! k = Some p -> new_count (img rank <$> vvNew s) (Z.of_nat k) = new_count (vvNew s) p.1.
Proof.
  intros Hk. pose proof buckets_known as Hb. induction (vvNew s) as [|c vv IH]; [done|].
  apply Forall_cons in Hb as [Hc Hb]. cbn [fmap list_fmap]. rewrite !new_count_cons, IH by done. f_equal.
  pose proof (in_img c k p Hc Hk) as Hi. destruct (decide (p.1 ∈ c)); [by rewrite decide_True by (by apply Hi)|by rewrite decide_False by (by rewrite Hi)].
Qed.
Lemma img_count_out k : (forall (j : nat) p, numbering s !! j = Some p -> k <> Z.of_nat j) -> new_count (img rank <$> vvNew s) k = 0.
Proof.
  intros Hk. pose proof (new_count_nonneg (img rank <$> vvNew s) k). destruct (Z.eq_dec (new_count (img rank <$> vvNew s) k) 0) as [|Hne]; [done|].
  destruct (new_count_witness (img rank <$> vvNew s) k) as (j & c' & Hj & Hc'); [lia|].
  apply list_lookup_fmap_Some in Hj as (c & -> & Hc). apply elem_of_img in Hc' as (id & -> & Hid).
  destruct (new_bucket_entry j c id Hc Hid) as (a & i & Ha & _). apply news_rank in Ha as [Ha Er]. cbn [fst] in Er. by destruct (Hk a _ Ha).
Qed.

Lemma entry_count p : p ∈ numbering s -> nRefCount p.2 = new_count (vvNew s) p.1.
Proof.
  intros Hp%numbering_elem. pose proof (ref_at _ _ _ p.1 (nRefCount p.2) (inv_ref _ _ (proj2 HI))) as E.
  rewrite lookup_fmap, Hp in E. unfold no_pending in E. rewrite E by done. lia.
Qed.

Lemma numbering_small : lenZ (numbering s) < 2 ^ 31.
Proof. rewrite numbering_length, <-(inv_count _ _ (proj2 HI)). by apply Inv_size_small. Qed.

Lemma buckets_numbered : Forall (numbered rank (numbering s)) (vvNew s).
Proof.
  pose proof buckets_known as Hb. apply Forall_forall. intros c Hc. rewrite Forall_forall in Hb. specialize (Hb c Hc). split_and!.
  - pose proof (inv_nsize _ _ (proj2 HI)) as Hs. rewrite Forall_forall in Hs. specialize (Hs c Hc). unfold ADDRMAN_NEW_BUCKET_SIZE in Hs. lia.
  - intros id Hid. destruct (Hb id Hid) as (j & i & Hj & _). apply news_rank in Hj as [Hj Er]. cbn [fst] in Er. rewrite Er.
    apply lookup_lt_Some in Hj. pose proof numbering_small. unfold lenZ, in_s in *. lia.
  - intros id id' Hid Hid' E. destruct (Hb id Hid) as (j & i & Hj & _), (Hb id' Hid') as (j' & i' & Hj' & _).
    apply news_rank in Hj as [Hj Er], Hj' as [Hj' Er']. cbn [fst] in *. assert (j = j') as -> by lia. rewrite Hj in Hj'. by injection Hj'.
Qed.

Lemma bucket_bytes m :
  (forall k p, news s !! k = Some p -> m !! p.1 = Some (0 + Z.of_nat k)) ->
  concat (ser_bucket m <$> vvNew s) =
  concat ((fun c => ser_int (Z.of_nat (base.size c)) ++ concat ((fun id => ser_int (rank id)) <$> ascending (elements c))) <$> vvNew s).
Proof.
  intros Hm. f_equal. apply list_fmap_ext. intros n c Hc. unfold ser_bucket. f_equal. f_equal. apply list_fmap_ext.
  intros k id Hid%list_elem_of_lookup_2. rewrite ascending_elem, elem_of_elements in Hid.
  destruct (new_bucket_entry n c id Hc Hid) as (j & i & Hj & _). pose proof (Hm _ _ Hj) as E. apply news_rank in Hj as [_ Er].
  cbn [fst] in *. by rewrite E, Er.
Qed.


Lemma tried_entry b id : 0 <= b < ADDRMAN_TRIED_BUCKET_COUNT -> id ∈ vTried_at s b -> exists i, mapInfo s !! id = Some i /\ fInTried i = true.
Proof.
  intros Hb Hid. destruct (inv_tried _ _ (proj2 HI)) as [_ Hel]. assert (Hc : id ∈ concat (vvTried s)).
  { apply list_elem_of_In, in_concat. exists (vTried_at s b). rewrite <-!list_elem_of_In. split; [|done].
    eapply list_elem_of_lookup_2, nthZ_lookup_at. by rewrite (inv_tlen _ _ (proj2 HI)). }
  apply Hel in Hc. rewrite lookup_fmap in Hc. by apply fmap_Some in Hc as (i & ? & ->); exists i.
Qed.
Lemma tried_bucket id i : placed s -> mapInfo s !! id = Some i -> fInTried i = true -> id ∈ vTried_at s (CAddrInfo.GetTriedBucket i (nKey s)).
Proof.
  intros Hpl Hi Ht. destruct (inv_tried _ _ (proj2 HI)) as [_ Hel]. assert (Hc : id ∈ concat (vvTried s)) by (apply Hel; by rewrite lookup_fmap, Hi; cbn; rewrite Ht).
  apply list_elem_of_In, in_concat in Hc as (l & Hl & Hid). rewrite <-list_elem_of_In in Hl. rewrite <-list_elem_of_In in Hid. apply list_elem_of_lookup in Hl as [k Hk].
  assert (Hkb : 0 <= Z.of_nat k < ADDRMAN_TRIED_BUCKET_COUNT).
  { rewrite <-(inv_tlen _ _ (proj2 HI)). apply lookup_lt_Some in Hk. unfold lenZ. lia. }
  assert (Hat : vTried_at s (Z.of_nat k) = l) by (apply nthZ_Some; [lia|by rewrite Nat2Z.id]).
  rewrite <-Hat in Hid. by rewrite (Hpl _ _ _ Hkb Hid Hi).
Qed.

Lemma ranks_room b : placed s -> 0 <= b < ADDRMAN_TRIED_BUCKET_COUNT -> lenZ (ranks (nKey s) (numbering s) b) <= ADDRMAN_TRIED_BUCKET_SIZE.
Proof.
  intros Hpl Hb. rewrite ranks_length. set (F := List.filter _ (numbering s)).
  assert (Hsub : F.*1 ⊆+ vTried_at s b).
  { apply NoDup_submseteq.
    - apply (NoDup_fmap_2_strong fst).
      + intros x y Hx Hy E. apply elem_of_filterb in Hx as [Hx _], Hy as [Hy _]. apply numbering_elem in Hx, Hy. rewrite E, Hy in Hx.
        destruct x, y; cbn in *. congruence.
      + apply NoDup_ListNoDup, List.NoDup_filter, NoDup_ListNoDup. eapply NoDup_fmap_1, numbering_ids.
    - intros id ([id' i] & -> & Hp)%list_elem_of_fmap. apply elem_of_filterb in Hp as [Hp%numbering_elem Hf]. cbn [fst snd] in *.
      unfold tried in Hf. cbn [snd] in Hf. apply andb_true_iff in Hf as [Ht Hbk]. rewrite Z.eqb_eq in Hbk. subst b. by apply tried_bucket. }
  apply submseteq_length in Hsub. rewrite length_fmap in Hsub. pose proof (inv_tsize _ _ (proj2 HI)) as Hs. rewrite Forall_forall in Hs.
  specialize (Hs (vTried_at s b)). unfold lenZ in *. etransitivity; [|apply Hs].
  - lia.
  - eapply list_elem_of_lookup_2, nthZ_lookup_at. by rewrite (inv_tlen _ _ (proj2 HI)).
Qed.

Lemma img_le k : new_count (img rank <$> vvNew s) k <= ADDRMAN_NEW_BUCKETS_PER_ADDRESS.
Proof.
  destruct (decide (0 <= k < lenZ (numbering s))) as [Hk|Hn].
  - rewrite <-(Z2Nat.id k) by lia. set (j := Z.to_nat k). assert (Hj : (j < length (numbering s))%nat) by (unfold lenZ in Hk; lia).
    apply lookup_lt_is_Some_2 in Hj as [p Hp]. rewrite (img_count j p Hp), <-(entry_count p) by (by eapply list_elem_of_lookup_2).
    apply list_elem_of_lookup_2, numbering_elem in Hp. destruct (inv_info _ _ (proj2 HI) _ _ Hp) as (_ & _ & Hr).
    destruct (fInTried p.2); unfold ADDRMAN_NEW_BUCKETS_PER_ADDRESS in *; lia.
  - rewrite img_count_out; [done|]. intros j p Hj ->. apply Hn. apply lookup_lt_Some in Hj. unfold lenZ. lia.
Qed.

(** ** Reading back *)

(** What has been read from what was written. *)
Record read_back s' : Prop := {
  rb_tab : Tab (numbering s) s';
  rb_buckets : Buckets (numbering s) s';
  rb_new : vvNew s' = img rank <$> vvNew s;
  rb_key : nKey s' = nKey s;
  rb_nNew : nNew s' = nNew s;
  rb_nTried : nTried s' = nTried s;
  rb_count : nIdCount s' = lenZ (numbering s) }.

Lemma Unserialize_Serialize am0 rest :
  placed s -> storable s -> exists s', Unserialize (am0, Serialize s ++ rest) = (Done tt, (s', rest)) /\ read_back s'.
Proof.
  intros Hpl [Hkey Hfit].
  pose proof numbering_small as Hsm. pose proof numbering_length as Hnl. pose proof news_length as Hnn. pose proof trieds_length as Htl.
  pose proof (lenZ_nonneg (news s)). pose proof (lenZ_nonneg (trieds s)).
  pose proof (ser_new_spec (entries s) 0 ∅ (nNew s) (by_key_NoDup _) ltac:(by rewrite <-Hnn)) as Hnew.
  unfold Serialize. fold (entries s). destruct (ser_new (nNew s) 0 (entries s) ∅) as [nb m]. destruct Hnew as (-> & _ & Hm).
  fold (news s) in Hm |- *. rewrite (ser_tried_spec (entries s) 0 (nTried s)) by (by rewrite <-Htl). fold (trieds s).
  rewrite (bucket_bytes m Hm). unfold Unserialize. rewrite <-!app_assoc. cbn [app].
  erewrite bind_Done by (by apply rdv_ok). erewrite bind_Done by (by apply rdv_ok, rd_ser_key). erewrite bind_Done by done.
  erewrite bind_Done by (apply rdv_ok, rd_ser_int; unfold in_s; lia). erewrite bind_Done by done.
  erewrite bind_Done by (apply rdv_ok, rd_ser_int; unfold in_s; lia). erewrite bind_Done by done.
  erewrite bind_Done by (by apply rdv_ok, rd_ser_int). erewrite bind_Done by done. cbn [fst snd].
  set (s0 := clear_tables _).
  assert (HT0 : Tab [] s0).
  { split; try done. intros ip k. split; [done|]. by intros (j & p & _ & Hj & _). }
  assert (Hfits : forall p, p ∈ numbering s -> info_fits p.2) by (intros p Hp%numbering_elem; by apply (Hfit p.1)).
  assert (Hnews : Forall (fun p => info_fits p.2 /\ fInTried p.2 = false) (news s)).
  { apply Forall_forall. intros p Hp. split; [apply Hfits, elem_of_app; by left|]. apply elem_of_filterb in Hp as [Hp Hl].
    rewrite (live_untried p Hp) in Hl. unfold tried in Hl. by destruct (fInTried p.2). }
  assert (Htrieds : Forall (fun p => info_fits p.2 /\ nRefCount p.2 = 0 /\ fInTried p.2 = true) (trieds s)).
  { apply Forall_forall. intros p Hp. split; [apply Hfits, elem_of_app; by right|]. apply elem_of_filterb in Hp as [Hp Hl].
    destruct (entry_ok p Hp) as (_ & _ & Hr). unfold tried in Hl. rewrite Hl in Hr. by destruct Hr. }
  pose proof numbering_addresses as Hnd.
  destruct (rd_new_spec (news s) [] s0 (infos_of (trieds s) ++ concat ((fun c => ser_int (Z.of_nat (base.size c)) ++ concat ((fun id => ser_int (rank id)) <$> ascending (elements c))) <$> vvNew s) ++ rest))
    as (s1 & E1 & HT1 & (K1 & K2 & K3) & K4 & K5 & K6); [done|done| |done|].
  { unfold numbering, addresses in Hnd. rewrite fmap_app in Hnd. cbn. by apply NoDup_app in Hnd as [Hnd _]. }
  change (lenZ ([] : list (Z * CAddrInfo))) with 0 in E1. replace (length (news s)) with (Z.to_nat (nNew s)) in E1 by (unfold lenZ in Hnn; lia).
  erewrite bind_Done by exact E1. erewrite bind_Done by done. cbn [fst snd].
  set (s1' := set_nIdCount (fun _ => nNew s) s1).
  destruct (rd_tried_spec (trieds s) (news s) s1' 0 (concat ((fun c => ser_int (Z.of_nat (base.size c)) ++ concat ((fun id => ser_int (rank id)) <$> ascending (elements c))) <$> vvNew s) ++ rest))
    as (s2 & E2 & HT2 & HB2 & (L1 & L2 & L3) & L4 & L5); try done.
  { destruct HT1 as [T1 T2 T3 T4]. by split. }
  { apply untried_buckets; [by unfold s1'; cbn; rewrite K5|]. intros p Hp. rewrite Forall_forall in Hnews. by apply Hnews. }
  { intros b Hb. fold (numbering s). change (nKey s1') with (nKey s1). rewrite K1. by apply ranks_room. }
  replace (length (trieds s)) with (Z.to_nat (nTried s)) in E2 by (unfold lenZ in Htl; lia).
  erewrite bind_Done by exact E2. erewrite bind_Done by done. cbn [fst snd].
  set (s2' := set_nTried (fun n => n - 0) s2).
  destruct (rd_buckets_spec (numbering s) rank (vvNew s) [] s2' rest) as (s3 & E3 & HT3 & M1 & M2 & M3 & M4 & M5 & M6).
  { destruct HT2 as [T1 T2 T3 T4]. by split. }
  { unfold s2'. cbn. rewrite L3. unfold s1'. cbn. rewrite K3. unfold s0. cbn. f_equal.
    pose proof (inv_nlen _ _ (proj2 HI)) as Hl. unfold lenZ in Hl. unfold ADDRMAN_NEW_BUCKET_COUNT in *. lia. }
  { apply buckets_numbered. }
  { intros k. cbn [app]. apply img_le. }
  change (lenZ ([] : list (gset Z))) with 0 in E3.
  replace (length (vvNew s)) with (Z.to_nat ADDRMAN_NEW_BUCKET_COUNT) in E3 by (pose proof (inv_nlen _ _ (proj2 HI)) as Hl; unfold lenZ in Hl; lia).
  exists s3. split; [exact E3|]. split; try done; try congruence.
  - destruct HB2 as (B1 & B2 & B3). unfold Buckets, vTried_at. rewrite M5. change (vvTried s2') with (vvTried s2).
    split_and!; [done|done|]. intros b Hb. rewrite M2. exact (B3 b Hb).
  - rewrite M2. unfold s2'. cbn. rewrite L1. unfold s1'. cbn. by rewrite K1.
  - rewrite M3. unfold s2'. cbn. rewrite L2. unfold s1'. cbn. by rewrite K2.
  - rewrite M4. unfold s2'. cbn. rewrite L4. unfold s1'. cbn. rewrite K4. unfold s0. cbn. lia.
  - rewrite M6. unfold s2'. cbn. exact L5.
Qed.

Section Result.
Context (s' : CAddrMan) (HR : read_back s') (Hpl : placed s).

Lemma read_info (k : nat) p : numbering s !! k = Some p -> mapInfo s' !! Z.of_nat k = Some (image (Z.of_nat k) (nRefCount p.2) p.2).
Proof.
  intros Hk. rewrite (tab_info _ _ (rb_tab _ HR)), Hk, (rb_new _ HR), (img_count k p Hk). cbn.
  by rewrite (entry_count p) by (by eapply list_elem_of_lookup_2).
Qed.
Lemma read_info_inv id i' : mapInfo s' !! id = Some i' ->
  exists (k : nat) p, id = Z.of_nat k /\ numbering s !! k = Some p /\ i' = image id (nRefCount p.2) p.2.
Proof.
  intros Hi. destruct (Z.neg_nonneg_cases id) as [Hn|Hn]; [by rewrite (tab_neg _ _ (rb_tab _ HR)) in Hi|].
  assert (E : id = Z.of_nat (Z.to_nat id)) by lia. pose proof Hi as Hx. rewrite E, (tab_info _ _ (rb_tab _ HR)) in Hx.
  apply fmap_Some in Hx as (p & Hp & _). exists (Z.to_nat id), p. split_and!; [done|done|]. rewrite E, (read_info _ _ Hp) in Hi.
  injection Hi as <-. by rewrite <-E.
Qed.

Lemma read_tried b k : 0 <= b < ADDRMAN_TRIED_BUCKET_COUNT ->
  k ∈ vTried_at s' b <-> exists (j : nat) p, k = Z.of_nat j /\ numbering s !! j = Some p /\ fInTried p.2 = true /\ CAddrInfo.GetTriedBucket p.2 (nKey s) = b.
Proof. intros Hb. destruct (rb_buckets _ HR) as (_ & _ & E). rewrite (E b Hb), (rb_key _ HR). apply elem_of_ranks. Qed.

Lemma read_placed : placed s'.
Proof.
  intros b id i Hb Hid Hi. apply (read_tried b id Hb) in Hid as (j & p & -> & Hj & Ht & Hbk).
  rewrite (read_info _ _ Hj) in Hi. injection Hi as <-. rewrite (rb_key _ HR). exact Hbk.
Qed.

Lemma read_inv : AddrInv s'.
Proof.
  destruct (rb_tab _ HR) as [Ti Tn Tr Ta]. destruct (rb_buckets _ HR) as (B1 & B2 & B3). split; [|split].
  - intros id p. rewrite lookup_fmap, Tr, lookup_seqZ. split.
    + intros (i & (k & q & -> & Hk & ->)%read_info_inv & ->)%fmap_Some. cbn. apply lookup_lt_Some in Hk. unfold lenZ. lia.
    + intros (Hp & -> & Hlt). rewrite Z.add_0_l. destruct (lookup_lt_is_Some_2 (numbering s) (Z.to_nat p)) as [q Hq]; [unfold lenZ in Hlt; lia|].
      rewrite (read_info _ _ Hq). cbn. f_equal. lia.
  - intros ip id. rewrite Ta, lookup_fmap. split.
    + intros (j & p & -> & Hj & <-). by rewrite (read_info _ _ Hj).
    + intros (i & (k & q & -> & Hk & ->)%read_info_inv & ->)%fmap_Some. by exists k, q.
  - intros id [i (k & q & -> & Hk & _)%read_info_inv]. rewrite (rb_count _ HR). apply lookup_lt_Some in Hk. unfold lenZ. lia.
  - rewrite (rb_count _ HR). apply lenZ_nonneg.
  - split; [rewrite B2; apply NoDup_nums|]. intros id. rewrite B2, elem_of_tried_nums, lookup_fmap. split.
    + intros (j & p & -> & Hj & Ht). rewrite (read_info _ _ Hj). cbn. by rewrite Ht.
    + intros (i & (k & q & -> & Hk & ->)%read_info_inv & Ht)%fmap_Some. by exists k, q.
  - exact B1.
  - apply Forall_lookup. intros k l Hk. assert (Hkb : 0 <= Z.of_nat k < ADDRMAN_TRIED_BUCKET_COUNT) by (rewrite <-B1; apply lookup_lt_Some in Hk; unfold lenZ; lia).
    assert (E : vTried_at s' (Z.of_nat k) = l) by (apply nthZ_Some; [lia|by rewrite Nat2Z.id]). rewrite <-E, (B3 _ Hkb), (rb_key _ HR). by apply ranks_room.
  - intros id. rewrite lookup_fmap. destruct (mapInfo s' !! id) as [i|] eqn:Ei; cbn.
    + apply read_info_inv in Ei as (k & q & -> & Hk & ->). cbn. rewrite (rb_new _ HR), (img_count k q Hk), (entry_count q) by (by eapply list_elem_of_lookup_2).
      unfold no_pending. lia.
    + rewrite (rb_new _ HR). apply img_count_out. intros j p Hj ->. by rewrite (read_info _ _ Hj) in Ei.
  - rewrite (rb_new _ HR). unfold lenZ. rewrite length_fmap. exact (inv_nlen _ _ (proj2 HI)).
  - rewrite (rb_new _ HR). apply Forall_fmap, Forall_forall. intros c Hc. cbn.
    pose proof (inv_nsize _ _ (proj2 HI)) as Hs. rewrite Forall_forall in Hs. specialize (Hs c Hc).
    pose proof buckets_numbered as Hn. rewrite Forall_forall in Hn. unfold img. rewrite size_list_to_set by (by eapply img_NoDup, Hn).
    rewrite length_fmap. unfold ascending. by rewrite (Permutation_length (merge_sort_Permutation Z.le (elements c))).
  - intros id i (k & q & -> & Hk & ->)%read_info_inv. apply list_elem_of_lookup_2, numbering_elem in Hk.
    destruct (inv_info _ _ (proj2 HI) _ _ Hk) as (_ & Hl & Hr). split_and!; [done|exact Hl|exact Hr].
  - rewrite (rb_nTried _ HR). unfold lenZ at 1. rewrite (Permutation_length B2). change (nTried s = lenZ (tried_nums (numbering s))).
    rewrite tried_nums_length. unfold numbering. rewrite List.filter_app, lenZ_app. rewrite (filterb_none tried (news s)).
    + rewrite <-trieds_length. unfold trieds. by rewrite filterb_twice.
    + intros p Hp. apply elem_of_filterb in Hp as [Hp Hl]. rewrite (live_untried p Hp) in Hl. by destruct (tried p).
  - rewrite Tr, (rb_nTried _ HR), (rb_nNew _ HR), <-numbering_length. unfold lenZ. rewrite length_seqZ. lia.
Qed.
End Result.
End Consistent.

(** The same tables with entries numbered by [f]: the same addresses with the same statistics in the same buckets. *)
Record same_tables (f : Z -> Z) s s' : Prop := {
  st_counts : nKey s' = nKey s /\ nNew s' = nNew s /\ nTried s' = nTried s;
  st_info id i : mapInfo s !! id = Some i -> mapInfo s' !! f id = Some (image (f id) (nRefCount i) i);
  st_onto id' : is_Some (mapInfo s' !! id') -> exists id, is_Some (mapInfo s !! id) /\ f id = id';
  st_inj id id' : is_Some (mapInfo s !! id) -> is_Some (mapInfo s !! id') -> f id = f id' -> id = id';
  st_new b id : 0 <= b < ADDRMAN_NEW_BUCKET_COUNT -> is_Some (mapInfo s !! id) -> f id ∈ vNew_at s' b <-> id ∈ vNew_at s b;
  st_tried b id : 0 <= b < ADDRMAN_TRIED_BUCKET_COUNT -> is_Some (mapInfo s !! id) -> f id ∈ vTried_at s' b <-> id ∈ vTried_at s b;
}.

Lemma numbering_index s id i : AddrInv s -> mapInfo s !! id = Some i -> exists k : nat, numbering s !! k = Some (id, i) /\ rank s id = Z.of_nat k.
Proof.
  intros HI Hi. assert (Hp : (id, i) ∈ numbering s) by (by apply numbering_elem). apply list_elem_of_lookup in Hp as [k Hk].
  exists k. split; [done|]. by apply (rank_at s HI k (id, i)).
Qed.

Lemma read_back_same s s' : AddrInv s -> placed s -> read_back s s' -> same_tables (rank s) s s'.
Proof.
  intros HI Hpl HR. split.
  - split_and!; [apply HR|apply HR|apply HR].
  - intros id i Hi. destruct (numbering_index s id i HI Hi) as (k & Hk & ->). by rewrite (read_info s HI s' HR k _ Hk).
  - intros id' [i' (k & [id i] & -> & Hk & _)%(read_info_inv s HI s' HR)]. exists id. split.
    + exists i. by apply list_elem_of_lookup_2, (numbering_elem s HI) in Hk.
    + exact (rank_at s HI k _ Hk).
  - intros id id' [i Hi] [i' Hi'] E. destruct (numbering_index s id i HI Hi) as (k & Hk & Ek), (numbering_index s id' i' HI Hi') as (k' & Hk' & Ek').
    assert (k = k') as -> by lia. rewrite Hk in Hk'. by injection Hk'.
  - intros b id Hb [i Hi]. destruct (numbering_index s id i HI Hi) as (k & Hk & ->).
    assert (Hl : vNew_at s' b = img (rank s) (vNew_at s b)).
    { apply nthZ_Some; [lia|]. rewrite (rb_new _ _ HR), list_lookup_fmap, (nthZ_lookup_at ∅); [done|]. by rewrite (inv_nlen _ _ (proj2 HI)). }
    rewrite Hl, (in_img s HI _ k (id, i)); [done| |done]. pose proof (buckets_known s HI) as Hbk. rewrite Forall_forall in Hbk. apply Hbk.
    eapply list_elem_of_lookup_2, nthZ_lookup_at. by rewrite (inv_nlen _ _ (proj2 HI)).
  - intros b id Hb [i Hi]. destruct (numbering_index s id i HI Hi) as (k & Hk & ->). rewrite (read_tried s s' HR b _ Hb). split.
    + intros (j & q & Ej & Hj & Ht & <-). assert (j = k) as -> by lia. rewrite Hk in Hj. injection Hj as <-. by apply tried_bucket.
    + intros Hid. destruct (tried_entry s HI b id Hb Hid) as (i2 & Hi2 & Ht). rewrite Hi in Hi2. injection Hi2 as <-.
      exists k, (id, i). split_and!; [done|done|done|]. by apply (Hpl b id).
Qed.

End Store.

(** ** A concrete file *)

Module Examples.
Import AddrManThms.Examples.

#[local] Existing Instance ex_hasher.
#[local] Existing Instance ex_types.
#[local] Existing Instance Group.enum0.
#[local] Existing Instance script_environment.

(** Numbers are one cell, texts follow their length. *)
Definition ser_text (l : bytes) : bytes := lenZ l :: l.
Definition rd_cell (b : bytes) : option (Z * bytes) := match b with n :: r => Some (n, r) | [] => None end.
Definition rd_text (b : bytes) : option (bytes * bytes) :=
  match b with n :: r => Some (take (Z.to_nat n) r, drop (Z.to_nat n) r) | [] => None end.
Definition ser_addr (a : CAddress) : bytes := [nServices a; nTime a; port (ca_service a)] ++ ser_text (sv_ip (ca_service a)).
Definition rd_addr (b : bytes) : option (CAddress * bytes) :=
  '(n, b) ← rd_cell b; '(t, b) ← rd_cell b; '(p, b) ← rd_cell b; '(ip, b) ← rd_text b;
  Some (mkAddress (mkService ip p) n t 0, b).

Lemma rd_ser_text l r : rd_text (ser_text l ++ r) = Some (l, r).
Proof.
  unfold ser_text, rd_text. cbn. assert (E : Z.to_nat (lenZ l) = length l) by (unfold lenZ; lia).
  by rewrite E, take_app_length, drop_app_length.
Qed.

#[local] Instance codec : PeerCodec.
Proof.
  refine {|
    ser_int n := [n]; ser_int64 n := [n]; ser_key := ser_text; ser_address := ser_addr; ser_netaddr := ser_text;
    ser_uint256 n := n :: replicate 31 0; rd_int := rd_cell; rd_int64 := rd_cell; rd_key := rd_text; rd_address := rd_addr;
    rd_netaddr := rd_text; rd_uint256 b := match b with n :: r => Some (n, drop 31 r) | [] => None end;
    HashPeers := foldr Z.add 0; pchMessageStart := [1; 2; 3; 4]; address_fits _ := true; netaddr_fits _ := true;
    key_fits _ := true |}; try done.
  - intros. apply rd_ser_text.
  - intros a r _. unfold rd_addr, ser_addr. cbn. change (lenZ ?l :: ?l ++ r) with (ser_text l ++ r).
    fold (ser_text (sv_ip (ca_service a))). unfold forget. destruct a as [[ip port] n t l]. cbn.
    assert (E : Z.to_nat (lenZ ip) = length ip) by (unfold lenZ; lia). by rewrite E, take_app_length, drop_app_length.
  - intros. apply rd_ser_text.
Defined.

(** One address in the new table, one in the tried table. *)
Definition stored : CAddrMan := ex_run (take 3 ex_calls).

Lemma stored_inv : AddrInv stored.
Proof.
  pose proof (run_calls_spec [1; 2; 3] ex_env _ (ex_valid 3)) as Hw.
  apply wp_elim in Hw as (u & [s' e'] & Hr & HI). unfold stored, ex_run. rewrite Hr. exact HI.
Qed.

Definition placed_check (s : CAddrMan) : bool :=
  forallb (fun b => forallb (fun id => match mapInfo s !! id with
    | Some i => CAddrInfo.GetTriedBucket i (nKey s) =? b | None => true end) (vTried_at s b)) (seqZ 0 ADDRMAN_TRIED_BUCKET_COUNT).
Lemma placed_checked s : placed_check s = true -> placed s.
Proof.
  intros Hc b id i Hb Hid Hi. unfold placed_check in Hc. rewrite forallb_forall in Hc. specialize (Hc b).
  rewrite forallb_forall in Hc. specialize (Hc ltac:(by apply list_elem_of_In, elem_of_seqZ; lia) id).
  rewrite Hi in Hc. apply Z.eqb_eq, Hc. by apply list_elem_of_In.
Qed.

Definition fits_check (i : CAddrInfo) : bool :=
  (- 2 ^ 63 <=? nLastSuccess i) && (nLastSuccess i <? 2 ^ 63) && (- 2 ^ 31 <=? nAttempts i) && (nAttempts i <? 2 ^ 31).
Lemma fits_checked s : forallb (fun p => fits_check p.2) (map_to_list (mapInfo s)) = true -> storable s.
Proof.
  intros Hc. split; [done|]. apply map_Forall_to_list, Forall_forall. intros [id i] Hp. rewrite forallb_forall in Hc.
  apply list_elem_of_In, Hc in Hp. unfold fits_check in Hp. cbn [snd] in Hp. cbn. unfold info_fits, in_s. split_and!; try done; lia.
Qed.


(** The hash is right but the file ends early: the object keeps the entry that was being read. *)
Definition cut_short : bytes := let d := pchMessageStart ++ [0] ++ ser_text [7] ++ [2; 0; 256] ++ ser_addr (ex_address 1 8333 5) in d ++ ser_uint256 (HashPeers d).
Example half_read : let r := CAddrDB_Read (Some cut_short) (CAddrMan_new []) in
  (r.1, nNew r.2, vRandom r.2, Check_ r.2) = (false, 2, [], -7).
Proof. by vm_compute. Qed.
End Examples.
