(* ===== verification/Db.v ===== *)
(** The Berkeley data bases: [CDBEnv] and [CDB] of src/db.h and src/db.cpp, and the two functions of src/walletdb.cpp that
    close a file behind the back of its users, [ThreadFlushWalletDB] and [BackupWallet].

    Berkeley DB is a parameter (class [Berkeley]): the n-th call of the library returns [code n], a cursor opened by
    it reads the records [scan n].  What is kept of the library is which [Db] handles and transactions exist: using one
    that has been deleted is [Stuck], as a failing [assert] is.  [operator[]] inserts in [mapDb] and [mapFileUseCount] as
    in the source; the use counts are unbounded integers.  Objects of class [CDB] are numbered.  A loop that sleeps while a file is in use is one attempt
    here, which tells that the file was in use.  Locks, paths, interruption points and printed texts are left out. *)

From stdpp Require Import sorting.
From S2P Require Import Prelude Monad NetAddr Util.

Inductive Call :=
  | EnvOpen | EnvClose | EnvRemove | TxnCheckpoint | LsnReset (f : bytes) | LogArchive | RemoveAll
  | NoFile (h : nat) | DbOpen (h : nat) (f : bytes) | DbClose (h : nat) | DbRemove (f : bytes) | DbRename (f g : bytes)
  | EnvDbRemove (f : bytes) | DbVerify (f : bytes) (flags : Z)
  | Get (h : nat) (k : bytes) | Put (h : nat) (t : option nat) (k v : bytes) (flags : Z) | Del (h : nat) (k : bytes)
  | ExistsCall (h : nat) (k : bytes) | Cursor (h : nat)
  | Begin | Commit (t : nat) | AbortCall (t : nat) | CopyFile (f g : bytes).

Record CDB := mkCDB { pdb : option nat; strFile : bytes; activeTxn : option nat; fReadOnly : bool }.

Record Env := mkEnv {
  fDbEnvInit : bool; fMockDb : bool;
  mapFileUseCount : gmap bytes Z; mapDb : gmap bytes (option nat);
  handles : gset nat;           (* the Db objects that have not been deleted *)
  txns : gset nat;              (* the transactions begun and not ended *)
  fresh_id : nat;
  objects : gmap nat CDB;
  calls : list Call }.

Definition set_init i m s := mkEnv i m (mapFileUseCount s) (mapDb s) (handles s) (txns s) (fresh_id s) (objects s) (calls s).
Definition set_count f s := mkEnv (fDbEnvInit s) (fMockDb s) (f (mapFileUseCount s)) (mapDb s) (handles s) (txns s) (fresh_id s) (objects s) (calls s).
Definition set_db f s := mkEnv (fDbEnvInit s) (fMockDb s) (mapFileUseCount s) (f (mapDb s)) (handles s) (txns s) (fresh_id s) (objects s) (calls s).
Definition set_handles x n s := mkEnv (fDbEnvInit s) (fMockDb s) (mapFileUseCount s) (mapDb s) x (txns s) n (objects s) (calls s).
Definition set_txns x n s := mkEnv (fDbEnvInit s) (fMockDb s) (mapFileUseCount s) (mapDb s) (handles s) x n (objects s) (calls s).
Definition set_objects f s := mkEnv (fDbEnvInit s) (fMockDb s) (mapFileUseCount s) (mapDb s) (handles s) (txns s) (fresh_id s) (f (objects s)) (calls s).
Definition set_calls x s := mkEnv (fDbEnvInit s) (fMockDb s) (mapFileUseCount s) (mapDb s) (handles s) (txns s) (fresh_id s) (objects s) x.

Definition env0 : Env := mkEnv false false ∅ ∅ ∅ ∅ 0 ∅ [].

(** "\x07version", the key a data base keeps its version under. *)
Definition version_key : bytes := 7 :: lit "version".

Class Berkeley := {
  code : nat -> Z;
  scan : nat -> list (bytes * bytes) * Z;    (* the records in their order, and what the cursor returns behind them *)
  get_data : nat -> option bytes;
  dump : nat -> bytes;                       (* the text [verify] writes *)
  client_version : bytes;                    (* CLIENT_VERSION, serialized *)
  DB_NOTFOUND : Z;
  DB_VERIFY_BAD : Z;
  DB_NOOVERWRITE : Z;
  DB_SALVAGE : Z;
  DB_AGGRESSIVE : Z;
  DB_NOTFOUND_not_0 : DB_NOTFOUND <> 0;
  DB_VERIFY_BAD_not_0 : DB_VERIFY_BAD <> 0;
}.

Section Db.
Context `{Berkeley}.

Abbreviation D := (X Env).
Definition rd {A} (f : Env -> A) : D A := X.gets f.
Definition upd (f : Env -> Env) : D unit := X.modify f.

(** A call of the library: what it returns. *)
Definition call (c : Call) : D Z :=
  n <~ rd (fun s => length (calls s)) ;; upd (fun s => set_calls (calls s ++ [c]) s) ;~ X.ret (code n).
Definition stuck {A} : D A := fun s => (Stuck, s).
(** A call through a handle, which has to exist. *)
Definition use (h : nat) (c : Call) : D Z :=
  ok <~ rd (fun s => bool_decide (h ∈ handles s)) ;; if (ok : bool) then call c else stuck.
Definition use_txn (t : nat) (c : Call) : D Z :=
  ok <~ rd (fun s => bool_decide (t ∈ txns s)) ;;
  if (ok : bool) then upd (fun s => set_txns (txns s ∖ {[t]}) (fresh_id s) s) ;~ call c else stuck.

Definition new_handle : D nat :=
  h <~ rd fresh_id ;; upd (fun s => set_handles ({[h]} ∪ handles s) (S h) s) ;~ X.ret h.
Definition delete_handle (h : nat) : D unit :=
  ok <~ rd (fun s => bool_decide (h ∈ handles s)) ;;
  if (ok : bool) then upd (fun s => set_handles (handles s ∖ {[h]}) (fresh_id s) s) else stuck.

Definition add_count (f : bytes) (n : Z) : D unit :=
  upd (set_count (fun m => <[f := default 0 (m !! f) + n]> m)).

(** ** The environment *)

Definition EnvShutdown : D unit :=
  i <~ rd fDbEnvInit ;; m <~ rd fMockDb ;;
  if negb i then X.ret tt
  else upd (set_init false m) ;~ ret <~ call EnvClose ;; if negb m then ret <~ call EnvRemove ;; X.ret tt else X.ret tt.

Definition Env_Open : D bool :=
  i <~ rd fDbEnvInit ;;
  if (i : bool) then X.ret true
  else ret <~ call EnvOpen ;; if negb (ret =? 0) then X.ret false else upd (set_init true false) ;~ X.ret true.

Definition MakeMock : D unit :=
  i <~ rd fDbEnvInit ;;
  if (i : bool) then X.throw else ret <~ call EnvOpen ;; if 0 <? ret then X.throw else upd (set_init true true).

(** [recoverFunc] is an argument. *)
Inductive VerifyResult := VERIFY_OK | RECOVER_OK | RECOVER_FAIL.
Definition Verify (f : bytes) (recoverFunc : option (bytes -> D bool)) : D VerifyResult :=
  used <~ rd (fun s => bool_decide (is_Some (mapFileUseCount s !! f))) ;;
  if (used : bool) then stuck
  else
    result <~ call (DbVerify f 0) ;;
    if result =? 0 then X.ret VERIFY_OK
    else match recoverFunc with
         | None => X.ret RECOVER_FAIL
         | Some g => ok <~ g f ;; X.ret (if (ok : bool) then RECOVER_OK else RECOVER_FAIL)
         end.

Definition CheckpointLSN (f : bytes) : D unit :=
  ret <~ call TxnCheckpoint ;; m <~ rd fMockDb ;;
  if (m : bool) then X.ret tt else ret <~ call (LsnReset f) ;; X.ret tt.

Definition CloseDb (f : bytes) : D unit :=
  p <~ rd (fun s => default None (mapDb s !! f)) ;; upd (set_db <[f := p]>) ;~
  match p with
  | Some h => ret <~ use h (DbClose h) ;; delete_handle h ;~ upd (set_db <[f := None]>)
  | None => X.ret tt
  end.

Definition RemoveDb (f : bytes) : D bool := CloseDb f ;~ rc <~ call (EnvDbRemove f) ;; X.ret (rc =? 0).

(** ** Salvage *)

(** [getline]: the line, the rest, and whether the end was reached. *)
Fixpoint getline (s : bytes) : bytes * bytes * bool :=
  match s with
  | [] => ([], [], true)
  | c :: r => if c =? 10 then ([], r, false) else let '(l, r, e) := getline r in (c :: l, r, e)
  end.

(** The loops over the dump; every round reads a line, so the length of the text is fuel enough. *)
Fixpoint skip_header (fuel : nat) (s strLine : bytes) (eof : bool) : bytes * bool :=
  match fuel with
  | O => (s, eof)
  | S fuel' =>
    if eof || bool_decide (strLine = lit "HEADER=END") then (s, eof)
    else let '(l, r, e) := getline s in skip_header fuel' r l e
  end.

(** At the end of the stream [getline] leaves its string as it is. *)
Fixpoint read_pairs (fuel : nat) (s keyHex valueHex : bytes) (eof : bool) : list (bytes * bytes) :=
  match fuel with
  | O => []
  | S fuel' =>
    if eof || bool_decide (keyHex = lit "DATA=END") then []
    else
      let '(keyHex, s, eof) := getline s in
      if bool_decide (keyHex = lit "DATA_END") then read_pairs fuel' s keyHex valueHex eof
      else
        let '(valueHex, s, eof) := if (eof : bool) then (valueHex, s, true) else getline s in
        (ParseHex keyHex, ParseHex valueHex) :: read_pairs fuel' s keyHex valueHex eof
  end.

Definition parse_dump (strDump : bytes) : list (bytes * bytes) :=
  let fuel := S (S (length strDump)) in
  let '(s, eof) := skip_header fuel strDump [] false in read_pairs fuel s [] [] eof.

Definition Salvage (f : bytes) (fAggressive : bool) (vResult : list (bytes * bytes)) : D (bool * list (bytes * bytes)) :=
  used <~ rd (fun s => bool_decide (is_Some (mapFileUseCount s !! f))) ;;
  if (used : bool) then stuck
  else
    n <~ rd (fun s => length (calls s)) ;;
    result <~ call (DbVerify f (if fAggressive then Z.lor DB_SALVAGE DB_AGGRESSIVE else DB_SALVAGE)) ;;
    if (result =? DB_VERIFY_BAD) && negb fAggressive then X.ret (false, vResult)
    else if negb (result =? 0) && negb (result =? DB_VERIFY_BAD) then X.ret (false, vResult)
    else X.ret (result =? 0, vResult ++ parse_dump (dump n)).

(** ** The class [CDB] *)

Definition object (o : nat) : D CDB := rd (fun s => default (mkCDB None [] None false) (objects s !! o)).
Definition set_object (o : nat) (c : CDB) : D unit := upd (set_objects <[o := c]>).
Definition set_txn (x : option nat) (c : CDB) : CDB := mkCDB (pdb c) (strFile c) x (fReadOnly c).
Definition set_pdb (x : option nat) (c : CDB) : CDB := mkCDB x (strFile c) (activeTxn c) (fReadOnly c).

Definition Flush_cdb (o : nat) : D unit :=
  c <~ object o ;; match activeTxn c with Some _ => X.ret tt | None => ret <~ call TxnCheckpoint ;; X.ret tt end.

Definition CDB_Close (o : nat) : D unit :=
  c <~ object o ;;
  match pdb c with
  | None => X.ret tt
  | Some _ =>
    (match activeTxn c with Some t => ret <~ use_txn t (AbortCall t) ;; X.ret tt | None => X.ret tt end) ;~
    set_object o (set_pdb None (set_txn None c)) ;~ Flush_cdb o ;~ add_count (strFile c) (-1)
  end.

(** [strchr(pszMode, c)] *)
Definition has_flag (c : Z) (pszMode : bytes) : bool := existsb (Z.eqb c) pszMode.

(** The constructor of object [o]. *)
Definition CDB_open (o : nat) (pszFile : option bytes) (pszMode : bytes) : D unit :=
  match pszFile with
  | None => set_object o (mkCDB None [] None false)
  | Some f =>
    let readOnly := negb (has_flag 43 pszMode) && negb (has_flag 119 pszMode) in
    let fCreate := has_flag 99 pszMode in
    ok <~ Env_Open ;;
    if negb ok then X.throw
    else
      add_count f 1 ;~
      p <~ rd (fun s => default None (mapDb s !! f)) ;; upd (set_db <[f := p]>) ;~
      match p with
      | Some h => set_object o (mkCDB (Some h) f None readOnly)
      | None =>
        h <~ new_handle ;;
        m <~ rd fMockDb ;;
        (if (m : bool) then ret <~ use h (NoFile h) ;; if negb (ret =? 0) then X.throw else X.ret tt else X.ret tt) ;~
        ret <~ use h (DbOpen h f) ;;
        if negb (ret =? 0) then delete_handle h ;~ add_count f (-1) ;~ X.throw
        else
          (if fCreate then
             ret <~ use h (ExistsCall h version_key) ;;
             if ret =? 0 then X.ret tt else ret <~ use h (Put h None version_key client_version 0) ;; X.ret tt
           else X.ret tt) ;~
          upd (set_db <[f := Some h]>) ;~ set_object o (mkCDB (Some h) f None readOnly)
      end
  end.

(** [~CDB] *)
Definition CDB_destroy (o : nat) : D unit := CDB_Close o ;~ upd (set_objects (delete o)).

(** [parse] reads the value, if it can.  The value is assigned even if the call is reported to have failed. *)
Definition Read {A} (o : nat) (key : bytes) (parse : bytes -> option A) : D (bool * option A) :=
  c <~ object o ;;
  match pdb c with
  | None => X.ret (false, None)
  | Some h =>
    n <~ rd (fun s => length (calls s)) ;; ret <~ use h (Get h key) ;;
    match get_data n with
    | None => X.ret (false, None)
    | Some data => match parse data with None => X.ret (false, None) | Some v => X.ret (ret =? 0, Some v) end
    end
  end.

(** A read only data base fails the assertion. *)
Definition Write (o : nat) (key value : bytes) (fOverwrite : bool) : D bool :=
  c <~ object o ;;
  match pdb c with
  | None => X.ret false
  | Some h =>
    if fReadOnly c then stuck
    else ret <~ use h (Put h (activeTxn c) key value (if fOverwrite then 0 else DB_NOOVERWRITE)) ;; X.ret (ret =? 0)
  end.
Definition Erase (o : nat) (key : bytes) : D bool :=
  c <~ object o ;;
  match pdb c with
  | None => X.ret false
  | Some h => if fReadOnly c then stuck else ret <~ use h (Del h key) ;; X.ret ((ret =? 0) || (ret =? DB_NOTFOUND))
  end.
Definition Exists (o : nat) (key : bytes) : D bool :=
  c <~ object o ;; match pdb c with None => X.ret false | Some h => ret <~ use h (ExistsCall h key) ;; X.ret (ret =? 0) end.

Definition WriteVersion (o : nat) (nVersion : bytes) : D bool := Write o version_key nVersion true.

(** [GetCursor]: the records it will read, and the code behind them. *)
Definition GetCursor (o : nat) : D (option (list (bytes * bytes) * Z)) :=
  c <~ object o ;;
  match pdb c with
  | None => X.ret None
  | Some h => n <~ rd (fun s => length (calls s)) ;; ret <~ use h (Cursor h) ;; X.ret (if ret =? 0 then Some (scan n) else None)
  end.

Definition TxnBegin (o : nat) : D bool :=
  c <~ object o ;;
  match pdb c, activeTxn c with
  | Some _, None =>
    ret <~ call Begin ;;
    if negb (ret =? 0) then X.ret false
    else t <~ rd fresh_id ;; upd (fun s => set_txns ({[t]} ∪ txns s) (S t) s) ;~ set_object o (set_txn (Some t) c) ;~ X.ret true
  | _, _ => X.ret false
  end.
Definition end_txn (o : nat) (c' : nat -> Call) : D bool :=
  c <~ object o ;;
  match pdb c, activeTxn c with
  | Some _, Some t => ret <~ use_txn t (c' t) ;; set_object o (set_txn None c) ;~ X.ret (ret =? 0)
  | _, _ => X.ret false
  end.
Definition TxnCommit (o : nat) : D bool := end_txn o Commit.
Definition TxnAbort (o : nat) : D bool := end_txn o AbortCall.

(** ** Closing files that are not in use *)

(** The order of [std::string], a prefix first, and the keys of a map in that order. *)
Fixpoint string_leb (a b : bytes) : bool :=
  match a, b with
  | [], _ => true
  | _ :: _, [] => false
  | x :: a', y :: b' => (x <? y) || ((x =? y) && string_leb a' b')
  end.
Definition string_le (a b : bytes) : Prop := string_leb a b = true.
#[local] Instance string_le_dec a b : Decision (string_le a b).
Proof. unfold string_le. apply _. Defined.
Definition files {A} (m : gmap bytes A) : list bytes := merge_sort string_le (map_to_list m).*1.

Definition flush_file (f : bytes) : D unit :=
  nRefCount <~ rd (fun s => default 0 (mapFileUseCount s !! f)) ;;
  if nRefCount =? 0 then
    CloseDb f ;~ ret <~ call TxnCheckpoint ;; m <~ rd fMockDb ;;
    (if (m : bool) then X.ret tt else ret <~ call (LsnReset f) ;; X.ret tt) ;~ upd (set_count (delete f))
  else X.ret tt.

Definition Flush (fShutdown : bool) : D unit :=
  i <~ rd fDbEnvInit ;;
  if negb i then X.ret tt
  else
    fs <~ rd (fun s => files (mapFileUseCount s)) ;;
    X.each flush_file fs ;~
    if (fShutdown : bool) then
      e <~ rd (fun s => bool_decide (mapFileUseCount s = ∅)) ;;
      if (e : bool) then ret <~ call LogArchive ;; EnvShutdown ;~ m <~ rd fMockDb ;; if (m : bool) then X.ret tt else ret <~ call RemoveAll ;; X.ret tt
      else X.ret tt
    else X.ret tt.

(** [count(f) == 0 || mapFileUseCount[f] == 0]; the file is then closed and forgotten. *)
Definition unused (f : bytes) : D bool := rd (fun s => default 0 (mapFileUseCount s !! f) =? 0).
Definition detach (f : bytes) : D unit := CloseDb f ;~ CheckpointLSN f ;~ upd (set_count (delete f)).

(** A round of [ThreadFlushWalletDB] that has seen no writes for two seconds: whether the file was flushed. *)
Definition flush_round (f : bytes) : D bool :=
  n <~ rd (fun s => map_fold (fun _ v a => a + v) 0 (mapFileUseCount s)) ;;
  known <~ rd (fun s => bool_decide (is_Some (mapFileUseCount s !! f))) ;;
  if (n =? 0) && known then detach f ;~ X.ret true else X.ret false.

(** [BackupWallet]: [None] when the file is in use. *)
Definition BackupWallet (fFileBacked : bool) (f dest : bytes) : D (option bool) :=
  if negb fFileBacked then X.ret (Some false)
  else
    u <~ unused f ;;
    if negb u then X.ret None else detach f ;~ ret <~ call (CopyFile f dest) ;; X.ret (Some (ret =? 0)).

(** ** Rewriting *)

(** [strncmp(a, b, n) == 0]; [b] is without its NUL; [None]: it reads behind the end of [a]. *)
Fixpoint strncmp_eq (n : nat) (a b : bytes) : option bool :=
  match n with
  | O => Some true
  | S n' =>
    match a with
    | [] => None
    | x :: a' => let y := match b with y :: _ => y | [] => 0 end in
                 if negb (x =? y) then Some false else if x =? 0 then Some true else strncmp_eq n' a' (tail b)
    end
  end.

(** What becomes of a record: [None] when it is skipped. *)
Definition rewrite_record (pszSkip : option bytes) (r : bytes * bytes) : option (option (bytes * bytes)) :=
  let '(k, v) := r in
  skip ← (match pszSkip with Some p => strncmp_eq (Nat.min (length k) (length p)) k p | None => Some false end);
  if (skip : bool) then Some None
  else isv ← strncmp_eq 8 k version_key; Some (Some (k, if (isv : bool) then client_version else v)).

(** The loop over the records: [fSuccess]. *)
Fixpoint copy_records (copy : nat) (pszSkip : option bytes) (rs : list (bytes * bytes)) (ending : Z) : D bool :=
  match rs with
  | [] => X.ret (ending =? DB_NOTFOUND)
  | r :: rs' =>
    match rewrite_record pszSkip r with
    | None => stuck
    | Some None => copy_records copy pszSkip rs' ending
    | Some (Some (k, v)) =>
      ret2 <~ use copy (Put copy None k v DB_NOOVERWRITE) ;;
      if 0 <? ret2 then X.ret false else copy_records copy pszSkip rs' ending
    end
  end.

Definition rewrite_name (f : bytes) : bytes := f ++ lit ".rewrite".

(** [CDB::Rewrite]: [None] when the file is in use; [o] is the number of its local object. *)
Definition Rewrite (o : nat) (f : bytes) (pszSkip : option bytes) : D (option bool) :=
  u <~ unused f ;;
  if negb u then X.ret None
  else
    detach f ;~
    CDB_open o (Some f) (lit "r") ;~
    copy <~ new_handle ;;
    ret <~ use copy (DbOpen copy (rewrite_name f)) ;;
    cur <~ GetCursor o ;;
    fSuccess <~ (match cur with
                 | Some (rs, ending) => if 0 <? ret then X.ret false else copy_records copy pszSkip rs ending
                 | None => X.ret (negb (0 <? ret))
                 end) ;;
    fSuccess <~ (if (fSuccess : bool) then
                   CDB_Close o ;~ CloseDb f ;~ ret <~ use copy (DbClose copy) ;; delete_handle copy ;~ X.ret (ret =? 0)
                 else X.ret false) ;;
    CDB_destroy o ;~
    (if (fSuccess : bool) then
       ra <~ call (DbRemove f) ;; rb <~ call (DbRename (rewrite_name f) f) ;; X.ret (Some ((ra =? 0) && (rb =? 0)))
     else X.ret (Some false)).
End Db.
