(* ===== verification/DbThms.v ===== *)
(** Theorems on the Berkeley data bases (Db.v): whatever is opened, closed, flushed and rewritten, no handle and no
    transaction is used after its end; what a rewritten file holds; what is read from a salvaged file. *)

From S2P Require Import Prelude Monad Util UtilThms Db.

(** ** The invariant *)

Definition user (f : bytes) (c : CDB) : bool := bool_decide (is_Some (pdb c)) && bool_decide (strFile c = f).
(** How many objects have [f] open. *)
Definition users (f : bytes) (os : gmap nat CDB) : Z := lenZ (map_to_list (filter (fun p => user f p.2 = true) os)).

Lemma users_insert_new f o c os : os !! o = None ->
  users f (<[o := c]> os) = users f os + (if user f c then 1 else 0).
Proof.
  intros Ho. unfold users, lenZ. rewrite !length_map_to_list. destruct (user f c) eqn:E.
  - rewrite map_filter_insert_True by done.
    rewrite map_size_insert_None; [lia|]. apply map_lookup_filter_None. by left.
  - rewrite map_filter_insert_not' by (cbn; rewrite ?E; naive_solver). lia.
Qed.
Lemma users_delete f o c os : os !! o = Some c ->
  users f os = users f (delete o os) + (if user f c then 1 else 0).
Proof.
  intros Ho. rewrite <-(users_insert_new f o) by (by rewrite lookup_delete_eq).
  by rewrite insert_delete_id.
Qed.
Lemma users_insert f o c c' os : os !! o = Some c ->
  users f (<[o := c']> os) = users f os + (if user f c' then 1 else 0) - (if user f c then 1 else 0).
Proof.
  intros Ho. rewrite (users_delete f o c os Ho), <-insert_delete_eq, users_insert_new by (by rewrite lookup_delete_eq). lia.
Qed.
Lemma users_nonneg f os : 0 <= users f os.
Proof. unfold users, lenZ. lia. Qed.
Lemma users_zero f os o c : users f os = 0 -> os !! o = Some c -> is_Some (pdb c) -> strFile c <> f.
Proof.
  intros Hu Ho Hc E. rewrite (users_delete f o c os Ho) in Hu. pose proof (users_nonneg f (delete o os)).
  unfold user in Hu. rewrite !bool_decide_true in Hu by done. cbn in Hu. lia.
Qed.

Section Good.
Implicit Types (cnt : gmap bytes Z) (db : gmap bytes (option nat)) (hs ts : gset nat) (n : nat) (os : gmap nat CDB).

Definition count cnt (f : bytes) : Z := default 0 (cnt !! f).
Definition handle db (f : bytes) : option nat := default None (db !! f).

(** What holds between two operations. *)
Record good cnt db hs ts n os : Prop := mkGood {
  g_live : forall f h, handle db f = Some h -> h ∈ hs;
  g_inj : forall f g h, handle db f = Some h -> handle db g = Some h -> f = g;
  g_known : forall f h, handle db f = Some h -> is_Some (cnt !! f);
  g_obj : forall o c h, os !! o = Some c -> pdb c = Some h -> handle db (strFile c) = Some h;
  g_users : forall f, users f os <= count cnt f;
  g_txn : forall o c t, os !! o = Some c -> activeTxn c = Some t -> t ∈ ts /\ is_Some (pdb c);
  g_txn_inj : forall o o' c c' t, os !! o = Some c -> os !! o' = Some c' ->
    activeTxn c = Some t -> activeTxn c' = Some t -> o = o';
  g_fresh : forall i, i ∈ hs \/ i ∈ ts -> (i < n)%nat }.

Lemma handle_touch db f g : handle (<[f := handle db f]> db) g = handle db g.
Proof. unfold handle. destruct (decide (f = g)) as [->|]; [by rewrite lookup_insert_eq|by rewrite lookup_insert_ne]. Qed.
Lemma handle_insert db f x g : handle (<[f := x]> db) g = if decide (f = g) then x else handle db g.
Proof. unfold handle. case_decide as E; [subst; by rewrite lookup_insert_eq|by rewrite lookup_insert_ne]. Qed.
Lemma count_insert cnt f x g : count (<[f := x]> cnt) g = if decide (f = g) then x else count cnt g.
Proof. unfold count. case_decide as E; [subst; by rewrite lookup_insert_eq|by rewrite lookup_insert_ne]. Qed.
Lemma count_delete cnt f g : count (delete f cnt) g = if decide (f = g) then 0 else count cnt g.
Proof. unfold count. case_decide as E; [subst; by rewrite lookup_delete_eq|by rewrite lookup_delete_ne]. Qed.

(** No object has [f] open. *)
Definition idle (f : bytes) os : Prop := forall o c, os !! o = Some c -> is_Some (pdb c) -> strFile c <> f.
Lemma idle_users f os : users f os <= 0 -> idle f os.
Proof. intros Hu o c Ho Hc. pose proof (users_nonneg f os). eapply users_zero; [|done|done]. lia. Qed.
Lemma users_idle f os : idle f os -> users f os = 0.
Proof.
  intros Hi. unfold users. replace (filter _ os) with (∅ : gmap nat CDB); [done|]. symmetry.
  apply map_empty_filter_2. intros o c Ho Hu. unfold user in Hu. apply andb_true_iff in Hu as [H1 H2].
  apply bool_decide_eq_true in H1, H2. by eapply Hi.
Qed.

Lemma user_same f c c' : pdb c = pdb c' -> strFile c = strFile c' -> user f c = user f c'.
Proof. unfold user. by intros -> ->. Qed.
Lemma user_open f c : is_Some (pdb c) -> (if user f c then 1 else 0) = if decide (f = strFile c) then 1 else 0.
Proof. intros Hc. unfold user. rewrite bool_decide_true by done. case_decide; case_bool_decide; naive_solver. Qed.
Lemma user_closed f c : pdb c = None -> user f c = false.
Proof. intros Hc. unfold user. by rewrite Hc. Qed.

Lemma good_count_incr cnt db hs ts n os f :
  good cnt db hs ts n os -> good (<[f := count cnt f + 1]> cnt) db hs ts n os.
Proof.
  intros [? ? Hk ? Hu ? ? ?]. constructor; try done.
  - intros g h Hh. apply lookup_insert_is_Some. destruct (decide (f = g)); [by left|right]. eauto.
  - intros g. rewrite count_insert. case_decide; [subst; specialize (Hu g); lia|done].
Qed.
Lemma good_count_decr cnt db hs ts n os f : users f os + 1 <= count cnt f ->
  good cnt db hs ts n os -> good (<[f := count cnt f + -1]> cnt) db hs ts n os.
Proof.
  intros Hf [? ? Hk ? Hu ? ? ?]. constructor; try done.
  - intros g h Hh. apply lookup_insert_is_Some. destruct (decide (f = g)); [by left|right]. eauto.
  - intros g. rewrite count_insert. case_decide; [subst; lia|done].
Qed.
Lemma good_touch cnt db hs ts n os f :
  good cnt db hs ts n os -> good cnt (<[f := handle db f]> db) hs ts n os.
Proof. intros [? ? ? Ho ? ? ? ?]. constructor; try setoid_rewrite handle_touch; eauto. Qed.
Lemma good_close cnt db hs ts n os f h : handle db f = Some h -> idle f os ->
  good cnt db hs ts n os -> good cnt (<[f := None]> db) (hs ∖ {[h]}) ts n os.
Proof.
  intros Hf Hi [Hl Hj Hk Ho Hu Ht Htj Hn]. constructor; try done; try setoid_rewrite handle_insert.
  - intros g k. case_decide; [done|]. intros Hg. apply elem_of_difference. split; [by eapply Hl|].
    rewrite elem_of_singleton. intros ->. by assert (f = g) by (by eapply Hj).
  - intros g g' k. do 2 case_decide; try done. eauto.
  - intros g k. case_decide; [done|eauto].
  - intros o c k Hc Hp. rewrite decide_False; [by eapply Ho|]. intros E. by eapply (Hi o c).
  - intros i Hi'. apply Hn. set_solver.
Qed.
Lemma good_forget cnt db hs ts n os f : handle db f = None -> idle f os ->
  good cnt db hs ts n os -> good (delete f cnt) db hs ts n os.
Proof.
  intros Hf Hi [Hl Hj Hk Ho Hu Ht Htj Hn]. constructor; try done.
  - intros g h Hg. rewrite lookup_delete_ne; [by eapply Hk|]. intros ->. congruence.
  - intros g. rewrite count_delete. case_decide; [subst; by rewrite users_idle|done].
Qed.
Lemma good_new cnt db hs ts n os :
  good cnt db hs ts n os -> good cnt db ({[n]} ∪ hs) ts (S n) os /\ n ∉ hs /\ forall f, handle db f <> Some n.
Proof.
  intros [Hl Hj Hk Ho Hu Ht Htj Hn]. split_and!; [constructor; try done|..].
  - intros f h Hf. apply elem_of_union_r. by eapply Hl.
  - intros i Hi. assert (i = n \/ i ∈ hs \/ i ∈ ts) as [->|Hi'] by set_solver; [lia|]. pose proof (Hn i Hi'). lia.
  - intros E. specialize (Hn n (or_introl E)). lia.
  - intros f E. specialize (Hn n (or_introl (Hl _ _ E))). lia.
Qed.
Lemma good_drop cnt db hs ts n os h : (forall f, handle db f <> Some h) ->
  good cnt db hs ts n os -> good cnt db (hs ∖ {[h]}) ts n os.
Proof.
  intros Hf [Hl Hj Hk Ho Hu Ht Htj Hn]. constructor; try done.
  - intros f k Hk'. specialize (Hl _ _ Hk'). specialize (Hf f). set_unfold. split; [done|congruence].
  - intros i Hi. apply Hn. set_solver.
Qed.
Lemma good_register cnt db hs ts n os f h : handle db f = None -> h ∈ hs -> is_Some (cnt !! f) ->
  (forall g, handle db g <> Some h) -> good cnt db hs ts n os -> good cnt (<[f := Some h]> db) hs ts n os.
Proof.
  intros Hf Hh Hc Hg [Hl Hj Hk Ho Hu Ht Htj Hn]. constructor; try done; try setoid_rewrite handle_insert.
  - intros g k. case_decide; [by intros [= <-]|eauto].
  - intros g g' k. do 2 case_decide; subst; try done.
    + intros [= <-] E. by destruct (Hg g').
    + intros E [= <-]. by destruct (Hg g).
    + eauto.
  - intros g k. case_decide; [by intros; subst|eauto].
  - intros o c k Hc' Hp. pose proof (Ho _ _ _ Hc' Hp). rewrite decide_False; [done|congruence].
Qed.

Lemma good_object_new cnt db hs ts n os o c : os !! o = None -> activeTxn c = None ->
  (forall h, pdb c = Some h -> handle db (strFile c) = Some h /\ users (strFile c) os + 1 <= count cnt (strFile c)) ->
  good cnt db hs ts n os -> good cnt db hs ts n (<[o := c]> os).
Proof.
  intros Ho Ha Hc [Hl Hj Hk Hob Hu Ht Htj Hn]. constructor; try done.
  - intros o' c' h [[<- <-]|[Hne Hc']]%lookup_insert_Some Hp; [by apply Hc|eauto].
  - intros f. rewrite users_insert_new by done. destruct (pdb c) as [h|] eqn:E.
    + rewrite user_open by (by eexists). specialize (Hu f). destruct (Hc h eq_refl) as [_ Hcount].
      case_decide; subst; lia.
    + rewrite user_closed by done. specialize (Hu f). lia.
  - intros o' c' t [[<- <-]|[Hne Hc']]%lookup_insert_Some Hp; [congruence|eauto].
  - intros o1 o2 c1 c2 t [[<- <-]|[Hne1 Hc1]]%lookup_insert_Some [[<- <-]|[Hne2 Hc2]]%lookup_insert_Some; try congruence.
    eauto.
Qed.
(** The same object, with another transaction or closed: it holds no transaction it did not hold or that is not new. *)
Lemma good_object_txn cnt db hs ts ts' n n' os o c x : os !! o = Some c -> is_Some (pdb c) ->
  (forall t, t ∈ ts -> Some t <> activeTxn c -> t ∈ ts') -> (forall t, x = Some t -> t ∈ ts' /\ t ∉ ts) ->
  (n <= n')%nat -> (forall t, t ∈ ts' -> (t < n')%nat) ->
  good cnt db hs ts n os -> good cnt db hs ts' n' (<[o := set_txn x c]> os).
Proof.
  intros Ho Hp Hts Hx Hnn Hn' [Hl Hj Hk Hob Hu Ht Htj Hn]. constructor; try done.
  - intros o' c' h [[<- <-]|[Hne Hc']]%lookup_insert_Some; [|eauto]. cbn. by apply Hob with o.
  - intros f. rewrite (users_insert f o c) by done. rewrite (user_same f (set_txn x c) c) by done. specialize (Hu f). lia.
  - intros o' c' t [[<- <-]|[Hne Hc']]%lookup_insert_Some; cbn.
    + intros E. split; [by apply Hx|done].
    + intros E. destruct (Ht _ _ _ Hc' E) as [Hin ?]. split; [|done]. apply Hts; [done|]. intros E'.
      apply Hne. by eapply Htj.
  - intros o1 o2 c1 c2 t [[<- <-]|[Hne1 Hc1]]%lookup_insert_Some [[<- <-]|[Hne2 Hc2]]%lookup_insert_Some; cbn; try done.
    + intros E1 E2. destruct (Hx _ E1) as [_ []]. by eapply Ht.
    + intros E1 E2. destruct (Hx _ E2) as [_ []]. by eapply Ht.
    + eauto.
  - intros i [Hi|Hi]; [|eauto]. specialize (Hn i (or_introl Hi)). lia.
Qed.
Lemma good_object_close cnt db hs ts n os o c : os !! o = Some c -> activeTxn c = None -> is_Some (pdb c) ->
  good cnt db hs ts n os ->
  good cnt db hs ts n (<[o := set_pdb None c]> os) /\ users (strFile c) (<[o := set_pdb None c]> os) + 1 <= count cnt (strFile c).
Proof.
  intros Ho Ha Hp [Hl Hj Hk Hob Hu Ht Htj Hn].
  assert (U : forall f, users f (<[o := set_pdb None c]> os) = users f os - (if decide (f = strFile c) then 1 else 0)).
  { intros f. rewrite (users_insert f o c), user_closed, user_open by done. lia. }
  split; [|rewrite U, decide_True by done; specialize (Hu (strFile c)); lia].
  constructor; try done.
  - intros o' c' h [[<- <-]|[Hne Hc']]%lookup_insert_Some; [done|eauto].
  - intros f. rewrite U. specialize (Hu f). case_decide; lia.
  - intros o' c' t [[<- <-]|[Hne Hc']]%lookup_insert_Some; cbn; [congruence|eauto].
  - intros o1 o2 c1 c2 t [[<- <-]|[Hne1 Hc1]]%lookup_insert_Some [[<- <-]|[Hne2 Hc2]]%lookup_insert_Some; cbn; try congruence.
    eauto.
Qed.
Lemma good_object_delete cnt db hs ts n os o : (forall c, os !! o = Some c -> pdb c = None) ->
  good cnt db hs ts n os -> good cnt db hs ts n (delete o os).
Proof.
  intros Ho [Hl Hj Hk Hob Hu Ht Htj Hn]. constructor; try done.
  - intros o' c h [_ Hc]%lookup_delete_Some. eauto.
  - intros f. destruct (os !! o) as [c|] eqn:E; [|by rewrite delete_id].
    specialize (Hu f). rewrite (users_delete f o c os E), user_closed in Hu by auto. lia.
  - intros o' c t [_ Hc]%lookup_delete_Some. eauto.
  - intros o1 o2 c1 c2 t [_ Hc1]%lookup_delete_Some [_ Hc2]%lookup_delete_Some. eauto.
Qed.
End Good.

Definition Good (s : Env) : Prop := good (mapFileUseCount s) (mapDb s) (handles s) (txns s) (fresh_id s) (objects s).

Lemma Good_env0 : Good env0.
Proof. constructor; cbn; try (intros *; rewrite ?lookup_empty); try done; intros *; set_solver. Qed.

(** A handle that no file name leads to. *)
Definition spare (h : nat) (s : Env) : Prop := h ∈ handles s /\ forall g, handle (mapDb s) g <> Some h.

Section Ops.
Context `{Berkeley}.
Implicit Types s : Env.

(** ** Weakest preconditions: nothing deleted is used, and an exception leaves a good state *)

Definition ok {A} (m : X Env A) (Q : A -> Env -> Prop) (s : Env) : Prop :=
  X.sp m (fun o st => match o with Done a => Q a st | Thrown => Good st | Stuck => False end) s.

Lemma ok_bind {A B} (m : X Env A) (f : A -> X Env B) Q s : ok m (fun a => ok (f a) Q) s -> ok (X.bind m f) Q s.
Proof. intros Hm. unfold ok, X.sp, X.bind in *. by destruct (m s) as [[a| |] st]. Qed.
Lemma ok_mono {A} (m : X Env A) (P Q : A -> Env -> Prop) s : ok m P s -> (forall a st, P a st -> Q a st) -> ok m Q s.
Proof. intros Hm Himp. unfold ok, X.sp in *. destruct (m s) as [[a| |] st]; cbn in *; auto. Qed.
Lemma ok_ret {A} (a : A) (Q : A -> Env -> Prop) s : Q a s -> ok (X.ret a) Q s.
Proof. done. Qed.
Lemma ok_throw {A} (Q : A -> Env -> Prop) s : Good s -> ok X.throw Q s.
Proof. done. Qed.
Lemma ok_rd {A} (f : Env -> A) (Q : A -> Env -> Prop) s : Q (f s) s -> ok (rd f) Q s.
Proof. done. Qed.
Lemma ok_upd f (Q : unit -> Env -> Prop) s : Q tt (f s) -> ok (upd f) Q s.
Proof. done. Qed.
Lemma ok_call c (Q : Z -> Env -> Prop) s : (forall r x, Q r (set_calls x s)) -> ok (call c) Q s.
Proof. intros HQ. apply HQ. Qed.
Lemma ok_use h c (Q : Z -> Env -> Prop) s : h ∈ handles s -> (forall r x, Q r (set_calls x s)) -> ok (use h c) Q s.
Proof.
  intros Hh HQ. unfold use. apply ok_bind, ok_rd. rewrite bool_decide_true by done. by apply ok_call.
Qed.
Lemma ok_use_txn t c (Q : Z -> Env -> Prop) s : t ∈ txns s ->
  (forall r x, Q r (set_calls x (set_txns (txns s ∖ {[t]}) (fresh_id s) s))) -> ok (use_txn t c) Q s.
Proof.
  intros Ht HQ. unfold use_txn. apply ok_bind, ok_rd. rewrite bool_decide_true by done. apply ok_bind, ok_upd. by apply ok_call.
Qed.
Lemma ok_new_handle (Q : nat -> Env -> Prop) s :
  Q (fresh_id s) (set_handles ({[fresh_id s]} ∪ handles s) (S (fresh_id s)) s) -> ok new_handle Q s.
Proof. done. Qed.
Lemma ok_delete_handle h (Q : unit -> Env -> Prop) s : h ∈ handles s ->
  Q tt (set_handles (handles s ∖ {[h]}) (fresh_id s) s) -> ok (delete_handle h) Q s.
Proof.
  intros Hh HQ. unfold delete_handle. apply ok_bind, ok_rd. by rewrite bool_decide_true.
Qed.
Lemma ok_each {A} (f : A -> X Env unit) (I : Env -> Prop) l s : I s ->
  (forall a st, I st -> ok (f a) (fun _ => I) st) -> ok (X.each f l) (fun _ => I) s.
Proof.
  intros HI Hf. revert s HI. induction l as [|a l IH]; intros s HI; cbn; [done|].
  apply ok_bind. eapply ok_mono; [by apply Hf|]. intros u st HI'. by apply IH.
Qed.

#[local] Opaque ok.
Ltac step := first
  [ apply ok_bind | apply ok_ret | apply ok_rd | apply ok_upd | apply ok_throw | apply ok_new_handle
  | apply ok_call; intros ?r ?x | (apply ok_use; [|intros ?r ?x]) | apply ok_delete_handle | case_match ].
Ltac steps := repeat (step; cbn [negb andb]); try done.

(** ** Closing a file nobody has open *)

Lemma ok_CloseDb f (Q : unit -> Env -> Prop) s : Good s -> idle f (objects s) ->
  (forall st, Good st -> handle (mapDb st) f = None -> objects st = objects s ->
     mapFileUseCount st = mapFileUseCount s -> (forall h, spare h s -> spare h st) -> Q tt st) ->
  ok (CloseDb f) Q s.
Proof.
  intros HG Hi HQ. unfold CloseDb. apply ok_bind, ok_rd, ok_bind, ok_upd.
  change (default None (mapDb s !! f)) with (handle (mapDb s) f).
  pose proof (good_touch _ _ _ _ _ _ f HG) as HG'. destruct (handle (mapDb s) f) as [h|] eqn:E.
  - apply ok_bind, ok_use; [by eapply g_live; [exact HG|]|]. intros r x. apply ok_bind, ok_delete_handle; [by eapply g_live; [exact HG|]|].
    apply ok_upd, HQ; [|cbn; rewrite !handle_insert; by case_decide|done|done|].
    + unfold Good. cbn. apply (good_close _ _ _ _ _ _ f h); [rewrite handle_insert; by case_decide|done|exact HG'].
    + intros k [Hk Hg]. split; cbn; [|intros g; rewrite !handle_insert; case_decide; auto].
      pose proof (Hg f). set_unfold. split; congruence.
  - apply ok_ret, HQ; [done|cbn; rewrite handle_insert; by case_decide|done|done|].
    intros k [Hk Hg]. split; [done|]. intros g. cbn. rewrite handle_insert. by case_decide.
Qed.

Lemma ok_CheckpointLSN f (Q : unit -> Env -> Prop) s : (forall x, Q tt (set_calls x s)) -> ok (CheckpointLSN f) Q s.
Proof. intros HQ. unfold CheckpointLSN. apply ok_bind, ok_call. intros r x. apply ok_bind, ok_rd. steps; apply HQ. Qed.

Lemma ok_detach f (Q : unit -> Env -> Prop) s : Good s -> idle f (objects s) ->
  (forall st, Good st -> handle (mapDb st) f = None -> objects st = objects s -> Q tt st) -> ok (detach f) Q s.
Proof.
  intros HG Hi HQ. unfold detach. apply ok_bind, ok_CloseDb; [done..|]. intros st HG' Hf Ho _ _.
  apply ok_bind, ok_CheckpointLSN. intros x. apply ok_upd, HQ; [|done|done].
  apply good_forget; [done| |done]. cbn. by rewrite Ho.
Qed.

Lemma idle_unused f s : Good s -> default 0 (mapFileUseCount s !! f) = 0 -> idle f (objects s).
Proof. intros HG Hc. apply idle_users. pose proof (g_users _ _ _ _ _ _ HG f). unfold count in *. lia. Qed.

(** ** Objects *)

Lemma ok_Env_Open (Q : bool -> Env -> Prop) s : (forall b i m x, Q b (set_calls x (set_init i m s))) -> ok Env_Open Q s.
Proof.
  intros HQ. unfold Env_Open. apply ok_bind, ok_rd. destruct s as [i m cnt db hs ts n os cs]. cbn [fDbEnvInit].
  destruct i; [apply ok_ret; exact (HQ true true m cs)|]. apply ok_bind, ok_call. intros r x.
  destruct (negb _); [apply ok_ret; exact (HQ false false m x)|]. apply ok_bind, ok_upd, ok_ret. exact (HQ true true false x).
Qed.

Lemma ok_CDB_open o pszFile mode (Q : unit -> Env -> Prop) s : Good s -> objects s !! o = None ->
  (forall st c, Good st -> objects st = <[o := c]> (objects s) -> strFile c = default [] pszFile -> activeTxn c = None ->
     Q tt st) ->
  ok (CDB_open o pszFile mode) Q s.
Proof.
  intros HG Ho HQ. unfold CDB_open. destruct pszFile as [f|].
  2: { apply ok_upd. eapply HQ; [|done..]. by apply good_object_new. }
  apply ok_bind, ok_Env_Open. intros [] i m x; [|by apply ok_throw]. cbn [negb].
  apply ok_bind, ok_upd, ok_bind, ok_rd, ok_bind, ok_upd. cbn.
  change (default None (mapDb s !! f)) with (handle (mapDb s) f). set (readOnly := _ && _). clearbody readOnly.
  pose proof (good_touch _ _ _ _ _ _ f (good_count_incr _ _ _ _ _ _ f HG)) as HG1.
  pose proof (g_users _ _ _ _ _ _ HG f) as Hu.
  set (cnt := <[f := _]> _) in *.
  assert (Hc : users f (objects s) + 1 <= count cnt f) by (subst cnt; rewrite count_insert; case_decide; [lia|done]).
  assert (Hk : is_Some (cnt !! f)) by (subst cnt; rewrite lookup_insert_eq; by eexists). clear Hu.
  destruct (handle (mapDb s) f) as [h|] eqn:E.
  - apply ok_upd. eapply HQ; [|done..]. apply good_object_new; [done|done| |exact HG1]. intros k [= <-]. split; [|done].
    cbn. rewrite handle_insert. by case_decide.
  - set (db := <[f := None]> _) in *. assert (Hdb : handle db f = None) by (subst db; rewrite handle_insert; by case_decide).
    destruct (good_new _ _ _ _ _ _ HG1) as (HG2 & Hn & Hg).
    apply ok_bind, ok_new_handle, ok_bind, ok_rd, ok_bind. set (h := fresh_id s).
    set (s1 := set_handles _ _ _).
    assert (Hin : forall y, ok (ret <~ use h (DbOpen h f) ;;
        (if negb (ret =? 0) then delete_handle h ;~ add_count f (-1) ;~ X.throw
         else (if has_flag 99 mode then
                 ret <~ use h (ExistsCall h version_key) ;;
                 if ret =? 0 then X.ret tt else ret <~ use h (Put h None version_key client_version 0) ;; X.ret tt
               else X.ret tt) ;~
              upd (set_db <[f := Some h]>) ;~ set_object o (mkCDB (Some h) f None readOnly))) Q (set_calls y s1)).
    { intros y. apply ok_bind, ok_use; [cbn; set_solver|]. intros r z. destruct (negb (r =? 0)).
      - apply ok_bind, ok_delete_handle; [cbn; set_solver|]. apply ok_bind, ok_upd, ok_throw.
        apply good_count_decr; [done|]. by apply good_drop.
      - assert (Hend : forall w, ok (upd (set_db <[f := Some h]>) ;~ set_object o (mkCDB (Some h) f None readOnly)) Q (set_calls w s1)).
        { intros w. apply ok_bind, ok_upd, ok_upd. eapply HQ; [|done..]. apply good_object_new; [done|done| |].
          - intros k [= <-]. split; [|done]. cbn. rewrite handle_insert. by case_decide.
          - apply good_register; [done|set_solver|done|done|done]. }
        apply ok_bind. destruct (has_flag _ _); [|apply ok_ret, Hend].
        apply ok_bind, ok_use; [cbn; set_solver|]. intros r' z'. destruct (r' =? 0); [apply ok_ret, Hend|].
        apply ok_bind, ok_use; [cbn; set_solver|]. intros r2 z2. apply ok_ret, Hend. }
    destruct (fMockDb _).
    + apply ok_bind, ok_use; [cbn; set_solver|]. intros r y. destruct (negb _); [by apply ok_throw|apply ok_ret, Hin].
    + apply ok_ret. exact (Hin x).
Qed.

Lemma ok_object o (Q : CDB -> Env -> Prop) s :
  (forall c, objects s !! o = Some c -> Q c s) -> (objects s !! o = None -> Q (mkCDB None [] None false) s) -> ok (object o) Q s.
Proof. intros H1 H2. apply ok_rd. destruct (objects s !! o) as [c|]; cbn; auto. Qed.

Lemma ok_Flush_cdb o (Q : unit -> Env -> Prop) s : (forall x, Q tt (set_calls x s)) -> ok (Flush_cdb o) Q s.
Proof.
  intros HQ. unfold Flush_cdb. apply ok_bind, ok_rd. destruct (activeTxn _) as [t|]; [|apply ok_bind, ok_call; intros r x; apply ok_ret, HQ].
  apply ok_ret. destruct s as [i m cnt db hs ts n os cs]. exact (HQ cs).
Qed.

(** Afterwards the object is closed; the other objects and the handles are as before. *)
Lemma ok_CDB_Close o (Q : unit -> Env -> Prop) s : Good s ->
  (forall st, Good st -> mapDb st = mapDb s -> handles st = handles s ->
     (objects s !! o = None /\ objects st = objects s \/
      exists c, objects s !! o = Some c /\ objects st = <[o := set_pdb None (set_txn None c)]> (objects s)) -> Q tt st) ->
  ok (CDB_Close o) Q s.
Proof.
  intros HG HQ. unfold CDB_Close. apply ok_bind, ok_object; [|intros Ho; apply ok_ret, HQ; auto]. intros c Ho.
  destruct (pdb c) as [h|] eqn:Hp.
  2: { assert (Hc : set_pdb None (set_txn None c) = c).
       { pose proof (g_txn _ _ _ _ _ _ HG o c). destruct c as [p f [t|] r]; cbn in *; [|by subst].
         destruct (H0 t Ho eq_refl) as [_ [? ?]]. congruence. }
       apply ok_ret, HQ; try done. right. exists c. rewrite Hc. split; [done|]. by rewrite insert_id. }
  assert (Hp' : is_Some (pdb c)) by (by eexists).
  assert (Hend : forall ts, (forall t, t ∈ txns s -> Some t <> activeTxn c -> t ∈ ts) -> (forall t, t ∈ ts -> t ∈ txns s) ->
    forall x, ok (set_object o (set_pdb None (set_txn None c)) ;~ Flush_cdb o ;~ add_count (strFile c) (-1)) Q
              (set_calls x (set_txns ts (fresh_id s) s))).
  { intros ts Hts Hts' x. apply ok_bind, ok_upd, ok_bind, ok_Flush_cdb. intros y.
    assert (HG1 : good (mapFileUseCount s) (mapDb s) (handles s) ts (fresh_id s) (<[o := set_txn None c]> (objects s))).
    { eapply good_object_txn; try done. intros t Ht. apply (g_fresh _ _ _ _ _ _ HG). right. auto. }
    apply (good_object_close _ _ _ _ _ _ o (set_txn None c)) in HG1 as [HG2 Hu]; [|by rewrite lookup_insert_eq|done|done].
    rewrite insert_insert_eq in HG2, Hu. apply ok_upd, HQ; [by apply good_count_decr|done|done|]. right. by exists c. }
  apply ok_bind. destruct (activeTxn c) as [t|] eqn:Et.
  - destruct (g_txn _ _ _ _ _ _ HG _ _ _ Ho Et) as [Hin _]. apply ok_bind, ok_use_txn; [done|]. intros r x. apply ok_ret, Hend.
    + intros t' Ht' Hne. set_unfold. split; congruence.
    + set_solver.
  - apply ok_ret. specialize (Hend (txns s)). destruct s as [i m cnt db hs ts n os cs]. by apply (Hend ltac:(auto) ltac:(auto) cs).
Qed.

(** [o] is closed, or was never opened. *)
Lemma ok_CDB_destroy o (Q : unit -> Env -> Prop) s : Good s ->
  (forall st, Good st -> mapDb st = mapDb s -> handles st = handles s -> objects st = delete o (objects s) -> Q tt st) ->
  ok (CDB_destroy o) Q s.
Proof.
  intros HG HQ. unfold CDB_destroy. apply ok_bind, ok_CDB_Close; [done|]. intros st HG' Hm Hh Ho. apply ok_upd, HQ; [|done|done|].
  - apply good_object_delete; [|done]. intros c Hc. destruct Ho as [[Ho E]|(c' & _ & E)]; [congruence|].
    rewrite E, lookup_insert_eq in Hc. by injection Hc as <-.
  - cbn. destruct Ho as [[Ho E]|(c' & _ & E)]; rewrite E; [done|]. apply delete_insert_eq.
Qed.

Lemma live_object o c h s : Good s -> objects s !! o = Some c -> pdb c = Some h -> h ∈ handles s.
Proof. intros HG Ho Hp. eapply g_live; [exact HG|]. by eapply g_obj. Qed.

(** An access through an object that only calls the library. *)
Lemma ok_through {A} o (m : CDB -> X Env A) (Q : A -> Env -> Prop) s : Good s ->
  (forall c, pdb c = None -> ok (m c) Q s) ->
  (forall c h, objects s !! o = Some c -> pdb c = Some h -> h ∈ handles s -> ok (m c) Q s) ->
  ok (c <~ object o ;; m c) Q s.
Proof.
  intros HG H1 H2. apply ok_bind, ok_object; [|auto]. intros c Ho.
  destruct (pdb c) as [h|] eqn:Hp; [|auto]. eapply H2; [done|done|]. by eapply live_object.
Qed.

(** ** Every operation *)

Inductive Op :=
  | OMock | OOpen (o : nat) (f : option bytes) (mode : bytes) | OClose (o : nat) | ODestroy (o : nat)
  | ORead (o : nat) (k : bytes) | OWrite (o : nat) (k v : bytes) (fOverwrite : bool) | OErase (o : nat) (k : bytes)
  | OExists (o : nat) (k : bytes) | OCursor (o : nat) | OBegin (o : nat) | OCommit (o : nat) | OAbort (o : nat)
  | OFlush (fShutdown : bool) | OFlushRound (f : bytes) | OBackup (fFileBacked : bool) (f dest : bytes)
  | ORewrite (o : nat) (f : bytes) (pszSkip : option bytes) | ORemove (f : bytes) | OVerify (f : bytes)
  | OSalvage (f : bytes) (fAggressive : bool).

Definition void {A} (m : X Env A) : X Env unit := m ;~ X.ret tt.
Definition run (op : Op) : X Env unit :=
  match op with
  | OMock => MakeMock
  | OOpen o f mode => CDB_open o f mode
  | OClose o => CDB_Close o
  | ODestroy o => CDB_destroy o
  | ORead o k => void (Read o k Some)
  | OWrite o k v b => void (Write o k v b)
  | OErase o k => void (Erase o k)
  | OExists o k => void (Exists o k)
  | OCursor o => void (GetCursor o)
  | OBegin o => void (TxnBegin o)
  | OCommit o => void (TxnCommit o)
  | OAbort o => void (TxnAbort o)
  | OFlush b => Flush b
  | OFlushRound f => void (flush_round f)
  | OBackup b f d => void (BackupWallet b f d)
  | ORewrite o f p => void (Rewrite o f p)
  | ORemove f => void (RemoveDb f)
  | OVerify f => void (Verify f None)
  | OSalvage f b => void (Salvage f b [])
  end.

(** What the callers see to: an object is constructed once; nothing is written through a read only object; a file is removed
    when nobody has it open, and verified before anybody opens it; no key of a rewritten file is a part of the version's key. *)
Definition allowed (s : Env) (op : Op) : Prop :=
  match op with
  | OOpen o _ _ => objects s !! o = None
  | OWrite o _ _ _ | OErase o _ => forall c, objects s !! o = Some c -> fReadOnly c = false
  | ORewrite o _ p => objects s !! o = None /\ forall n, Forall (fun r => rewrite_record p r <> None) (scan n).1
  | ORemove f => default 0 (mapFileUseCount s !! f) = 0
  | OVerify f | OSalvage f _ => mapFileUseCount s !! f = None
  | _ => True
  end.

Definition stays {A} (m : X Env A) (s : Env) : Prop := ok m (fun _ => Good) s.

Lemma stays_void {A} (m : X Env A) s : stays m s -> stays (void m) s.
Proof. intros Hm. apply ok_bind. eapply ok_mono; [exact Hm|]. intros a st HG. by apply ok_ret. Qed.

(** What only calls the library keeps the invariant. *)
Lemma Good_calls x s : Good s -> Good (set_calls x s).
Proof. done. Qed.

Lemma stays_access o s : Good s ->
  (forall k, stays (Read o k (@Some bytes)) s) /\ (forall k, stays (Exists o k) s) /\ stays (GetCursor o) s /\
  ((forall c, objects s !! o = Some c -> fReadOnly c = false) ->
   (forall k v b, stays (Write o k v b) s) /\ forall k, stays (Erase o k) s).
Proof.
  intros HG. split_and!; [intros k|intros k| |intros Hw; split; [intros k v b|intros k]].
  all: apply ok_through; [done|by intros c ->; apply ok_ret|]; intros c h Ho Hp Hin; rewrite Hp.
  - apply ok_bind, ok_rd, ok_bind, ok_use; [done|]. intros r x. repeat case_match; by apply ok_ret.
  - apply ok_bind, ok_use; [done|]. intros r x. by apply ok_ret.
  - apply ok_bind, ok_rd, ok_bind, ok_use; [done|]. intros r x. by apply ok_ret.
  - rewrite (Hw _ Ho). apply ok_bind, ok_use; [done|]. intros r x. by apply ok_ret.
  - rewrite (Hw _ Ho). apply ok_bind, ok_use; [done|]. intros r x. by apply ok_ret.
Qed.

Lemma stays_TxnBegin o s : Good s -> stays (TxnBegin o) s.
Proof.
  intros HG. apply ok_through; [done|by intros c ->; apply ok_ret|]. intros c h Ho Hp Hin. rewrite Hp.
  destruct (activeTxn c) as [t|] eqn:Et; [by apply ok_ret|].
  apply ok_bind, ok_call. intros r x. destruct (negb _); [by apply ok_ret|].
  apply ok_bind, ok_rd, ok_bind, ok_upd, ok_bind, ok_upd, ok_ret. unfold Good. cbn.
  pose proof (g_fresh _ _ _ _ _ _ HG) as Hf.
  eapply good_object_txn; [done|by eexists|..|exact HG].
  - set_solver.
  - intros t [= <-]. split; [set_solver|]. intros E. specialize (Hf _ (or_intror E)). lia.
  - lia.
  - intros t Ht. assert (t = fresh_id s \/ t ∈ txns s) as [->|E] by set_solver; [lia|]. specialize (Hf _ (or_intror E)). lia.
Qed.
Lemma stays_end_txn o e s : Good s -> stays (end_txn o e) s.
Proof.
  intros HG. apply ok_through; [done|by intros c ->; apply ok_ret|]. intros c h Ho Hp Hin. rewrite Hp.
  destruct (activeTxn c) as [t|] eqn:Et; [|by apply ok_ret].
  apply ok_bind, ok_use_txn; [by eapply g_txn; [exact HG| |]|]. intros r x. apply ok_bind, ok_upd, ok_ret. unfold Good. cbn.
  eapply good_object_txn; [done|by eexists|..|exact HG].
  - intros t' Ht' Hne. set_unfold. split; congruence.
  - done.
  - lia.
  - intros t' Ht'. apply (g_fresh _ _ _ _ _ _ HG). set_solver.
Qed.

Lemma stays_flush_file f s : Good s -> stays (flush_file f) s.
Proof.
  intros HG. apply ok_bind, ok_rd. destruct (_ =? 0) eqn:E; [|by apply ok_ret]. apply Z.eqb_eq in E.
  pose proof (idle_unused _ _ HG E) as Hi. apply ok_bind, ok_CloseDb; [done..|]. intros st HG' Hf Ho _ _.
  apply ok_bind, ok_call. intros r x. apply ok_bind, ok_rd. rewrite <-Ho in Hi.
  assert (Hend : forall y, ok (upd (set_count (delete f))) (fun _ => Good) (set_calls y st)).
  { intros y. apply ok_upd. by apply good_forget. }
  apply ok_bind. destruct (fMockDb _); [apply ok_ret, Hend|]. apply ok_bind, ok_call. intros r' x'. apply ok_ret, Hend.
Qed.
Lemma stays_EnvShutdown s : Good s -> stays EnvShutdown s.
Proof.
  intros HG. apply ok_bind, ok_rd, ok_bind, ok_rd. destruct (negb (fDbEnvInit s)); [by apply ok_ret|].
  apply ok_bind, ok_upd, ok_bind, ok_call. intros r x. destruct (negb _); [|by apply ok_ret].
  apply ok_bind, ok_call. intros r' x'. by apply ok_ret.
Qed.
Lemma stays_Flush b s : Good s -> stays (Flush b) s.
Proof.
  intros HG. apply ok_bind, ok_rd. destruct (negb _); [by apply ok_ret|]. apply ok_bind, ok_rd, ok_bind.
  eapply ok_mono; [apply (ok_each _ Good); [done|intros f st; apply stays_flush_file]|]. intros u st HG'.
  destruct b; [|by apply ok_ret]. apply ok_bind, ok_rd. destruct (bool_decide _); [|by apply ok_ret].
  apply ok_bind, ok_call. intros r x. apply ok_bind. eapply ok_mono; [by apply stays_EnvShutdown|]. intros v st2 HG2.
  apply ok_bind, ok_rd. destruct (fMockDb st2); [by apply ok_ret|]. apply ok_bind, ok_call. intros r' x'. by apply ok_ret.
Qed.

Lemma sum_zero (m : gmap bytes Z) : (forall f, 0 <= count m f) ->
  map_fold (fun _ v a => a + v) 0 m = 0 -> forall f, count m f = 0.
Proof.
  assert (G : (forall f, 0 <= count m f) ->
              0 <= map_fold (fun _ v a => a + v) 0 m /\ forall f, count m f <= map_fold (fun _ v a => a + v) 0 m).
  { induction m as [|f v m Hf IH] using map_ind; [done|]. intros Hm. rewrite map_fold_insert_L by (intros; lia || done).
    destruct IH as [IH0 IH1].
    - intros g. specialize (Hm g). rewrite count_insert in Hm. case_decide; [subst; unfold count; by rewrite Hf|done].
    - pose proof (Hm f) as Hv. rewrite count_insert, decide_True in Hv by done. split; [lia|].
      intros g. rewrite count_insert. specialize (IH1 g). case_decide; lia. }
  intros Hm H0 f. destruct (G Hm) as [_ G2]. specialize (G2 f). specialize (Hm f). lia.
Qed.

Lemma stays_detach f s : Good s -> idle f (objects s) -> stays (detach f) s.
Proof. intros HG Hi. by apply ok_detach. Qed.
Lemma stays_flush_round f s : Good s -> stays (flush_round f) s.
Proof.
  intros HG. apply ok_bind, ok_rd, ok_bind, ok_rd. destruct (_ =? 0) eqn:E; [|by apply ok_ret].
  destruct (bool_decide _); [|by apply ok_ret]. apply Z.eqb_eq in E. apply ok_bind.
  eapply ok_mono; [apply stays_detach; [done|]|intros u st HG'; by apply ok_ret].
  apply idle_unused; [done|]. apply (sum_zero (mapFileUseCount s)); [|done]. intros g.
  pose proof (g_users _ _ _ _ _ _ HG g). pose proof (users_nonneg g (objects s)). lia.
Qed.
Lemma stays_BackupWallet b f d s : Good s -> stays (BackupWallet b f d) s.
Proof.
  intros HG. unfold BackupWallet. destruct (negb b); [by apply ok_ret|]. apply ok_bind, ok_rd.
  destruct (_ =? 0) eqn:E; [|by apply ok_ret]. apply Z.eqb_eq in E. apply ok_bind.
  eapply ok_mono; [apply stays_detach; [done|by apply idle_unused]|]. intros u st HG'.
  apply ok_bind, ok_call. intros r x. by apply ok_ret.
Qed.

(** ** Rewriting *)

Lemma ok_copy_records copy p e rs (Q : bool -> Env -> Prop) s : copy ∈ handles s ->
  Forall (fun r => rewrite_record p r <> None) rs -> (forall b x, Q b (set_calls x s)) ->
  ok (copy_records copy p rs e) Q s.
Proof.
  intros Hc Hrs HQ. revert s Hc HQ. induction Hrs as [|r rs Hr Hrs IH]; intros s Hc HQ; cbn.
  - apply ok_ret. destruct s as [i m cnt db hs ts n os cs]. exact (HQ _ cs).
  - destruct (rewrite_record p r) as [[[k v]|]|]; [|by apply IH|done].
    apply ok_bind, ok_use; [done|]. intros r2 x. destruct (0 <? r2); [apply ok_ret, HQ|]. apply IH; [done|]. intros b y. exact (HQ b y).
Qed.

Lemma stays_Rewrite o f p s : Good s -> objects s !! o = None ->
  (forall n, Forall (fun r => rewrite_record p r <> None) (scan n).1) -> stays (Rewrite o f p) s.
Proof.
  intros HG Ho Hp. apply ok_bind, ok_rd. destruct (_ =? 0) eqn:E; [|by apply ok_ret]. apply Z.eqb_eq in E.
  pose proof (idle_unused _ _ HG E) as Hi. apply ok_bind, ok_detach; [done..|]. intros s1 HG1 _ Ho1.
  apply ok_bind, ok_CDB_open; [done|by rewrite Ho1|]. intros s2 c HG2 Ho2 Hf _. cbn in Hf.
  destruct (good_new _ _ _ _ _ _ HG2) as (HG3 & _ & Hsp). apply ok_bind, ok_new_handle.
  set (copy := fresh_id s2). set (s3 := set_handles _ _ _).
  assert (Hs3 : spare copy s3) by (split; [cbn; set_solver|exact Hsp]).
  assert (HG3' : Good s3) by exact HG3. clearbody copy.
  assert (Ho3 : objects s3 = <[o := c]> (objects s)) by (by rewrite <-Ho1).
  clearbody s3. clear dependent s1 s2.
  apply ok_bind, ok_use; [by destruct Hs3|]. intros ret x3.
  (* up to the end of the copying only the library is called *)
  assert (Hend : forall b x, ok (fSuccess <~ (if (b : bool) then
                   CDB_Close o ;~ CloseDb f ;~ ret <~ use copy (DbClose copy) ;; delete_handle copy ;~ X.ret (ret =? 0)
                 else X.ret false) ;;
    CDB_destroy o ;~
    (if (fSuccess : bool) then
       ra <~ call (DbRemove f) ;; rb <~ call (DbRename (rewrite_name f) f) ;; X.ret (Some ((ra =? 0) && (rb =? 0)))
     else X.ret (Some false))) (fun _ => Good) (set_calls x s3)).
  { intros b x.
    assert (Hlast : forall b st, Good st -> ok (CDB_destroy o ;~
       (if (b : bool) then
         ra <~ call (DbRemove f) ;; rb <~ call (DbRename (rewrite_name f) f) ;; X.ret (Some ((ra =? 0) && (rb =? 0)))
        else X.ret (Some false))) (fun _ => Good) st).
    { clear -H. intros b st HG. apply ok_bind, ok_CDB_destroy; [done|]. intros st' HG' _ _ _. destruct b; [|by apply ok_ret].
      apply ok_bind, ok_call. intros ra x. apply ok_bind, ok_call. intros rb y. by apply ok_ret. }
    apply ok_bind. destruct b; [|apply ok_ret, (Hlast false); done].
    apply ok_bind, ok_CDB_Close; [done|]. intros s4 HG4 Hm4 Hh4 Ho4.
    assert (Hi4 : idle f (objects s4)).
    { intros o' c' Hc' Hp' Hf'. destruct Ho4 as [[Hn _]|(c2 & Hc2 & E4)].
      - cbn in Hn. rewrite Ho3, lookup_insert_eq in Hn. done.
      - rewrite E4 in Hc'. cbn in Hc'. destruct (decide (o' = o)) as [->|Hne].
        + rewrite lookup_insert_eq in Hc'. injection Hc' as <-. by destruct Hp'.
        + rewrite lookup_insert_ne in Hc' by done. rewrite Ho3, lookup_insert_ne in Hc' by done. by eapply Hi. }
    assert (Hs4 : spare copy s4) by (destruct Hs3 as [Ha Hb]; split; [by rewrite Hh4|by rewrite Hm4]).
    apply ok_bind, ok_CloseDb; [done..|]. intros s5 HG5 _ _ _ Hs5. destruct (Hs5 _ Hs4) as [Hin Hno].
    apply ok_bind, ok_use; [done|]. intros r y. apply ok_bind, ok_delete_handle; [done|]. apply ok_ret, (Hlast (r =? 0)).
    by apply good_drop. }
  unfold GetCursor. apply ok_bind, ok_bind, ok_object; [|cbn; rewrite Ho3, lookup_insert_eq; done].
  cbn. intros c' Hc'. destruct (pdb c') as [h|] eqn:Ep.
  - apply ok_bind, ok_rd, ok_bind, ok_use; [by eapply (live_object o c' h s3)|]. intros r x. apply ok_ret.
    destruct (r =? 0).
    + destruct (scan _) as [rs e] eqn:Es. apply ok_bind. destruct (0 <? ret); [apply ok_ret, (Hend false x)|].
      apply ok_copy_records; [by destruct Hs3| |intros b y; exact (Hend b y)].
      pose proof (Hp (length (calls (set_calls x3 s3)))) as Hall. cbn in Hall, Es. by rewrite Es in Hall.
    + apply ok_bind, ok_ret, (Hend (negb (0 <? ret)) x).
  - apply ok_ret, ok_bind, ok_ret, (Hend (negb (0 <? ret)) x3).
Qed.

(** ** Safety *)

Lemma stays_run op s : Good s -> allowed s op -> stays (run op) s.
Proof.
  intros HG Ha. destruct (stays_access (match op with
    | ORead o _ | OWrite o _ _ _ | OErase o _ | OExists o _ | OCursor o => o | _ => 0%nat end) s HG) as (HR & HE & HC & HW).
  destruct op; cbn [run]; try apply stays_void; cbn in *.
  - apply ok_bind, ok_rd. destruct (fDbEnvInit s); [by apply ok_throw|].
    apply ok_bind, ok_call. intros r x. destruct (0 <? r); [by apply ok_throw|by apply ok_upd].
  - by apply ok_CDB_open.
  - by apply ok_CDB_Close.
  - by apply ok_CDB_destroy.
  - apply HR.
  - by apply HW.
  - by apply HW.
  - apply HE.
  - apply HC.
  - by apply stays_TxnBegin.
  - by apply stays_end_txn.
  - by apply stays_end_txn.
  - by apply stays_Flush.
  - by apply stays_flush_round.
  - by apply stays_BackupWallet.
  - destruct Ha as [Ho Hk]. by apply stays_Rewrite.
  - apply ok_bind, ok_CloseDb; [done|by apply idle_unused|]. intros st HG' _ _ _ _.
    apply ok_bind, ok_call. intros r x. by apply ok_ret.
  - apply ok_bind, ok_rd. rewrite Ha, bool_decide_false by (intros [? ?]; done).
    apply ok_bind, ok_call. intros r x. destruct (r =? 0); by apply ok_ret.
  - apply ok_bind, ok_rd. rewrite Ha, bool_decide_false by (intros [? ?]; done).
    apply ok_bind, ok_rd, ok_bind, ok_call. intros r x. repeat case_match; by apply ok_ret.
Qed.

(** The states that operations lead to, whatever they return or throw. *)
Inductive reach : Env -> Prop :=
  | reach_start : reach env0
  | reach_step s op : reach s -> allowed s op -> reach (run op s).2.

Lemma stays_elim {A} (m : X Env A) s : stays m s -> (m s).1 <> Stuck /\ Good (m s).2.
Proof. unfold stays. Transparent ok. unfold ok, X.sp. by destruct (m s) as [[a| |] st]. Qed.

Lemma reach_Good s : reach s -> Good s.
Proof. induction 1 as [|s op _ IH Ha]; [apply Good_env0|]. by apply stays_elim, stays_run. Qed.

(** C29 Whatever has been opened, closed, flushed, backed up and rewritten, and however Berkeley DB has answered, the next
    operation uses no handle and no transaction that has ended; and an open object has a live handle, the one [mapDb] has
    for its file, whose use count is positive, so nothing closes the file. *)
Theorem Db_safe s op : reach s -> allowed s op ->
  (run op s).1 <> Stuck /\
  forall o c h, objects (run op s).2 !! o = Some c -> pdb c = Some h ->
    h ∈ handles (run op s).2 /\ mapDb (run op s).2 !! strFile c = Some (Some h) /\
    0 < default 0 (mapFileUseCount (run op s).2 !! strFile c).
Proof.
  intros Hs Ha. destruct (stays_elim _ _ (stays_run op s (reach_Good s Hs) Ha)) as [Hn HG]. split; [done|].
  intros o c h Ho Hp. pose proof (live_object o c h _ HG Ho Hp) as Hl. pose proof (g_obj _ _ _ _ _ _ HG o c h Ho Hp) as Hm.
  split_and!; [done| |].
  - unfold handle in Hm. by destruct (mapDb _ !! strFile c) as [[k|]|]; simplify_eq/=.
  - pose proof (g_users _ _ _ _ _ _ HG (strFile c)) as Hu. rewrite (users_delete _ o c _ Ho), user_open in Hu by (by eexists).
    rewrite decide_True in Hu by done. pose proof (users_nonneg (strFile c) (delete o (objects (run op s).2))). unfold count in Hu. lia.
Qed.

(** ** What a rewritten file holds *)

(** Calls that put no record and neither remove nor rename a file. *)
Definition ordinary (c : Call) : Prop :=
  match c with Put _ _ _ _ _ | DbRemove _ | DbRename _ _ => False | _ => True end.
Definition adds (s st : Env) : Prop := exists cs, calls st = calls s ++ cs /\ Forall ordinary cs.

#[local] Instance adds_preorder : PreOrder adds.
Proof.
  split; [intros s; exists []; by rewrite app_nil_r|]. intros s1 s2 s3 (cs & E & F) (ds & E' & F').
  exists (cs ++ ds). rewrite E', E, app_assoc. split; [done|by apply Forall_app].
Qed.
Lemma adds_upd f : (forall s, calls (f s) = calls s) -> X.keeps adds (upd f).
Proof. intros Hf s. exists []. cbn. by rewrite Hf, app_nil_r. Qed.
Lemma adds_call c : ordinary c -> X.keeps adds (call c).
Proof. intros Hc s. exists [c]. split; [done|by constructor]. Qed.
Lemma adds_stuck {A} : X.keeps adds (@stuck A).
Proof. intros s. reflexivity. Qed.

Ltac adding := repeat first
  [ assumption | apply (X.keeps_ret adds) | apply (X.keeps_throw adds) | apply (X.keeps_gets adds) | apply adds_stuck
  | (apply adds_upd; intros ?; reflexivity) | (apply adds_call; exact I) | (apply (X.keeps_bind adds); [|intros ?]) | case_match ].

Lemma adds_use h c : ordinary c -> X.keeps adds (use h c).
Proof. intros Hc. unfold use. adding. by apply adds_call. Qed.
Lemma adds_detach f : X.keeps adds (detach f).
Proof. unfold detach, CheckpointLSN. adding. Qed.
Lemma adds_CDB_destroy o : X.keeps adds (CDB_destroy o).
Proof. unfold CDB_destroy. adding. Qed.
Lemma adds_CDB_open o f mode : has_flag 99 mode = false -> X.keeps adds (CDB_open o f mode).
Proof.
  intros Hm. unfold CDB_open, Env_Open, set_object, new_handle, add_count. rewrite Hm. adding.
Qed.

(** An object whose constructor returns is open. *)
Lemma CDB_open_result o f mode s st : CDB_open o (Some f) mode s = (Done tt, st) ->
  exists c h, objects st !! o = Some c /\ pdb c = Some h.
Proof.
  intros E. cbn in E. apply X.bind_result in E as (ok & s1 & _ & E). destruct ok; [|done]. cbn [negb] in E.
  apply X.bind_result in E as (u1 & s2 & _ & E). apply X.bind_result in E as (p & s3 & _ & E). apply X.bind_result in E as (u2 & s4 & _ & E).
  assert (G : forall h r s5, set_object o (mkCDB (Some h) f None r) s5 = (Done tt, st) -> exists c k, objects st !! o = Some c /\ pdb c = Some k).
  { intros h r s5 [= <-]. cbn. rewrite lookup_insert_eq. by eexists _, _. }
  destruct p as [h|]; [by eapply G|].
  apply X.bind_result in E as (h & s5 & _ & E). apply X.bind_result in E as (m & s6 & _ & E).
  apply X.bind_result in E as (u3 & s7 & _ & E). apply X.bind_result in E as (ret & s8 & _ & E). destruct (negb (ret =? 0)).
  - apply X.bind_result in E as (u4 & s9 & _ & E). by apply X.bind_result in E as (u5 & s10 & _ & E).
  - apply X.bind_result in E as (u4 & s9 & _ & E). apply X.bind_result in E as (u5 & s10 & _ & E). by eapply G.
Qed.

(** The records that are not skipped, the version brought up to date. *)
Definition kept (pszSkip : option bytes) (rs : list (bytes * bytes)) : list (bytes * bytes) :=
  omap (fun r => match rewrite_record pszSkip r with Some x => x | None => None end) rs.
Definition put_to (copy : nat) (r : bytes * bytes) : Call := Put copy None r.1 r.2 DB_NOOVERWRITE.

Lemma copy_records_result copy p e rs s st : copy_records copy p rs e s = (Done true, st) ->
  calls st = calls s ++ (put_to copy <$> kept p rs) /\ e = DB_NOTFOUND.
Proof.
  revert s. induction rs as [|r rs IH]; intros s E; cbn in E |- *.
  - injection E as E <-. apply Z.eqb_eq in E. by rewrite app_nil_r.
  - destruct (rewrite_record p r) as [[[k v]|]|] eqn:Er; cbn; [|by apply IH|done].
    apply X.bind_result in E as (r2 & s1 & E1 & E). destruct (0 <? r2); [done|]. apply IH in E as [E ->]. split; [|done].
    unfold use in E1. cbn in E1. unfold X.bind, rd, X.gets in E1. case_bool_decide; [|done].
    injection E1 as _ <-. rewrite E. cbn. by rewrite <-app_assoc.
Qed.


(** ** What is salvaged *)

(** The text of a dump: lines of a header, and a line for every key and every value in hexadecimal, behind a space. *)
Definition text_line (l : bytes) : bytes := l ++ [10].
Definition hex_line (b : bytes) : bytes := 32 :: mjoin (hex2 <$> b).
Definition record_lines (r : bytes * bytes) : bytes := text_line (hex_line r.1) ++ text_line (hex_line r.2).
Definition dump_text (header : list bytes) (rs : list (bytes * bytes)) : bytes :=
  mjoin (text_line <$> header) ++ text_line (lit "HEADER=END") ++ mjoin (record_lines <$> rs) ++ text_line (lit "DATA=END").

Lemma getline_line l r : 10 ∉ l -> getline (text_line l ++ r) = (l, r, false).
Proof.
  unfold text_line. rewrite <-app_assoc. induction l as [|c l IH]; intros Hl; cbn; [done|].
  apply not_elem_of_cons in Hl as [Hc Hl]. destruct (Z.eqb_spec c 10); [done|]. cbn in IH. by rewrite IH.
Qed.

Lemma hex_line_nl b : is_bytes b -> 10 ∉ hex_line b.
Proof.
  intros Hb Hin. apply elem_of_cons in Hin as [|Hin]; [done|]. apply list_elem_of_join in Hin as (x & Hx & Hin).
  apply list_elem_of_fmap in Hin as (c & -> & Hc). unfold is_bytes in Hb. rewrite Forall_forall in Hb. specialize (Hb c Hc).
  pose proof (all_byte (fun c => forallb (fun d => negb (d =? 10)) (hex2 c)) ltac:(by vm_compute) c Hb) as Hall.
  cbv beta in Hall. rewrite forallb_forall in Hall. by specialize (Hall 10 (proj1 (list_elem_of_In _ _) Hx)).
Qed.
Lemma ParseHex_line b : is_bytes b -> ParseHex (hex_line b) = b.
Proof.
  intros Hb. unfold ParseHex, hex_line. change (32 :: mjoin (hex2 <$> b)) with ([32] ++ mjoin (hex2 <$> b)).
  rewrite ParseHex_skip by (by repeat constructor).
  replace (mjoin (hex2 <$> b)) with (hex_text ((fun c => ([], c)) <$> b)) by (unfold hex_text; by rewrite <-list_fmap_compose).
  rewrite ParseHex_loop_text; [cbn; rewrite <-list_fmap_compose; apply list_fmap_id| |cbn; lia].
  apply Forall_fmap. eapply Forall_impl; [exact Hb|]. intros c Hc. split; [by constructor|exact Hc].
Qed.
Lemma hex_line_not b x : head x <> Some 32 -> hex_line b <> x.
Proof. by intros Hx <-. Qed.

Lemma skip_header_text header r cur fuel : (S (length header) < fuel)%nat ->
  Forall (fun l => 10 ∉ l /\ l <> lit "HEADER=END") header -> cur <> lit "HEADER=END" ->
  skip_header fuel (mjoin (text_line <$> header) ++ text_line (lit "HEADER=END") ++ r) cur false = (r, false).
Proof.
  intros Hf Hh. revert cur fuel Hf. induction Hh as [|l header [Hl Hn] _ IH]; intros cur [|fuel] Hf Hc; try (cbn in Hf; lia);
    cbn [skip_header orb]; rewrite bool_decide_false by done.
  - change (mjoin (text_line <$> []) ++ ?x) with x. rewrite getline_line by (vm_compute; set_solver).
    destruct fuel as [|fuel]; [cbn in Hf; lia|]. done.
  - cbn [fmap list_fmap mjoin list_join]. rewrite <-app_assoc, getline_line by done. apply IH; [cbn in Hf; lia|done].
Qed.

Lemma read_pairs_text rs key value fuel : (S (length rs) < fuel)%nat ->
  Forall (fun r => is_bytes r.1 /\ is_bytes r.2) rs -> key <> lit "DATA=END" ->
  read_pairs fuel (mjoin (record_lines <$> rs) ++ text_line (lit "DATA=END")) key value false = rs ++ [([0xDA], [])].
Proof.
  intros Hf Hrs. revert key value fuel Hf. induction Hrs as [|[k v] rs [Hk Hv] _ IH]; intros key value [|fuel] Hf Hkey; try (cbn in Hf; lia);
    cbn [read_pairs orb]; rewrite bool_decide_false by done.
  - destruct fuel as [|fuel]; [cbn in Hf; lia|]. vm_compute. reflexivity.
  - cbn [fmap list_fmap mjoin list_join]. unfold record_lines at 1. cbn [fst snd] in *. rewrite <-!app_assoc.
    rewrite getline_line by (by apply hex_line_nl). rewrite bool_decide_false by (by apply hex_line_not).
    rewrite getline_line by (by apply hex_line_nl). rewrite !ParseHex_line by done. cbn [app]. f_equal.
    apply IH; [cbn in Hf; lia|by apply hex_line_not].
Qed.

Lemma length_text_lines ls : (length ls <= length (mjoin (text_line <$> ls)))%nat.
Proof.
  induction ls as [|l ls IH]; cbn [fmap list_fmap mjoin list_join length]; [lia|]. unfold text_line at 1. rewrite !length_app. cbn [length].
  unfold mjoin, fmap in *. lia.
Qed.
Lemma length_record_lines rs : (length rs <= length (mjoin (record_lines <$> rs)))%nat.
Proof.
  induction rs as [|r rs IH]; cbn [fmap list_fmap mjoin list_join length]; [lia|]. unfold record_lines at 1, text_line.
  rewrite !length_app. cbn [length]. unfold mjoin, fmap in *. lia.
Qed.

(** C31 What [Salvage] appends for a dump: the records in their order, each key and each value byte for byte, and
    behind them one record that is not in the file, the key 0xDA with nothing: the line DATA=END, which is compared
    with DATA_END, is read as a key in hexadecimal. *)
Theorem Salvage_reads f fAggressive vResult s header rs :
  mapFileUseCount s !! f = None -> code (length (calls s)) = 0 \/ code (length (calls s)) = DB_VERIFY_BAD /\ fAggressive = true ->
  dump (length (calls s)) = dump_text header rs ->
  Forall (fun l => 10 ∉ l /\ l <> lit "HEADER=END") header -> Forall (fun r => is_bytes r.1 /\ is_bytes r.2) rs ->
  (Salvage f fAggressive vResult s).1 = Done (code (length (calls s)) =? 0, vResult ++ rs ++ [([0xDA], [])]).
Proof.
  intros Hf Hcode Hd Hh Hrs. unfold Salvage, X.bind, rd, X.gets, upd, X.modify. rewrite Hf, bool_decide_false by (by intros []).
  cbn [call]. unfold call, X.bind, rd, X.gets, upd, X.modify, X.ret.
  replace ((code (length (calls s)) =? DB_VERIFY_BAD) && negb fAggressive) with false
    by (pose proof DB_VERIFY_BAD_not_0; destruct Hcode as [->|[_ ->]]; [by destruct (Z.eqb_spec 0 DB_VERIFY_BAD)|by rewrite andb_false_r]).
  replace (negb (code (length (calls s)) =? 0) && negb (code (length (calls s)) =? DB_VERIFY_BAD)) with false
    by (destruct Hcode as [->|[-> _]]; rewrite ?Z.eqb_refl, ?andb_false_r; done).
  cbn [fst]. do 4 f_equal. rewrite Hd. unfold parse_dump.
  assert (Hl : (length header + length rs + 2 <= length (dump_text header rs))%nat).
  { unfold dump_text. rewrite !length_app. pose proof (length_text_lines header). pose proof (length_record_lines rs).
    change (length (text_line (lit "HEADER=END"))) with 11%nat. change (length (text_line (lit "DATA=END"))) with 9%nat. lia. }
  unfold dump_text at 2. rewrite skip_header_text by (done || lia). apply read_pairs_text; [lia|done|done].
Qed.
End Ops.

(** ** Examples *)

(** A Berkeley DB whose n-th call returns [c n], with the records [rs] in every file and the dump [d]. *)
Definition library (c : nat -> Z) (rs : list (bytes * bytes)) (d : bytes) : Berkeley.
Proof.
  refine {| code := c; scan _ := (rs, -30988); get_data _ := None; dump _ := d; client_version := [0; 1; 2; 3];
            DB_NOTFOUND := -30988; DB_VERIFY_BAD := -30970; DB_NOOVERWRITE := 20; DB_SALVAGE := 64; DB_AGGRESSIVE := 1 |}; done.
Defined.

(** A key pool entry, a name, and the version. *)
Definition some_records : list (bytes * bytes) :=
  [(4 :: lit "pool" ++ [0; 0], [1]); (4 :: lit "name", [2; 3]); (version_key, [9; 9; 9; 9])].
Definition fails_at (n : nat) (e : Z) (i : nat) : Z := if (i =? n)%nat then e else 0.

(** An object opens the file, begins a transaction and writes; the same file cannot be rewritten, so the flush of the
    shutdown leaves it alone; when the object is gone it is closed. *)
Lemma Db_safe_witness :
  let B := library (fun _ => 0) some_records [] in
  let w := lit "wallet.dat" in
  let s1 := (run (OOpen 0 (Some w) (lit "cr+")) env0).2 in
  let s2 := (run (OBegin 0) s1).2 in
  let s3 := (run (OWrite 0 [1; 107] [5] true) s2).2 in
  let s4 := (run (OFlush true) s3).2 in
  (run (ODestroy 0) s4).1 <> Stuck /\ default 0 (mapFileUseCount s4 !! w) = 1.
Proof.
  intros B w s1 s2 s3 s4.
  assert (R1 : reach s1) by (apply (reach_step env0 (OOpen 0 (Some w) (lit "cr+"))); [constructor|reflexivity]).
  assert (R2 : reach s2) by (by apply (reach_step s1 (OBegin 0))).
  assert (R3 : reach s3).
  { apply (reach_step s2 (OWrite 0 [1; 107] [5] true)); [done|]. intros c Hc. vm_compute in Hc. by injection Hc as <-. }
  assert (R4 : reach s4) by (by apply (reach_step s3 (OFlush true))).
  split; [|vm_compute; reflexivity]. apply (Db_safe s4 (ODestroy 0) R4 I).
Defined.


Definition is_put (c : Call) : bool := match c with Put _ _ _ _ _ => true | _ => false end.

(** When the cursor is refused, the file with the records is replaced by an empty one, and that is a success. *)
Example Rewrite_without_cursor :
  let B := library (fails_at 5 22) some_records [] in
  let r := Rewrite 0 (lit "w") None env0 in
  r.1 = Done (Some true) /\ existsb is_put (calls r.2) = false /\ (calls r.2) !! 5%nat = Some (Cursor 0).
Proof. vm_compute. done. Qed.

(** An error of Berkeley DB's own is negative: the put of the second record fails, and the rewriting succeeds. *)
Example Rewrite_put_fails :
  let B := library (fails_at 7 (-30973)) some_records [] in
  let r := Rewrite 0 (lit "w") None env0 in
  r.1 = Done (Some true) /\ (calls r.2) !! 7%nat = Some (Put 1 None (4 :: lit "name") [2; 3] 20).
Proof. vm_compute. done. Qed.

Lemma Salvage_reads_witness :
  let rs := [([1; 107; 255], [0; 10]); ([4], [])] in
  let header := [lit "VERSION=3"; lit "type=btree"] in
  let B := library (fun _ => -30970) [] (dump_text header rs) in
  (Salvage (lit "w") true [] env0).1 = Done (false, rs ++ [([0xDA], [])]).
Proof.
  intros rs header B. rewrite (Salvage_reads (lit "w") true [] env0 header rs); [reflexivity|reflexivity|right; done|reflexivity|..].
  - repeat constructor; vm_compute; set_solver.
  - repeat constructor; done.
Defined.
