(* ===== verification/WalletBook.v ===== *)
(** The transactions of the wallet: src/wallet.cpp, from [IncOrderPosNext] to [RelayWalletTransaction],
    [CommitTransaction], the address book and [GetAddressBalances].

    [mapWallet] is a map from the hash; a walk over it is in the order of the hashes.  A pointer to a transaction of
    the wallet is its hash.  What is written, announced and run is recorded in order in [events].  The key pool is the
    state of KeyPool.v.  A member that may throw runs in the monad [X].

    wallet.h, walletdb.h and main.h are not in the tree.  Parameters (class [BookWorld]): the flags of spent outputs with
    what the code relies on, what the wallet owns and owes of a transaction, the depth of a transaction in the main
    chain, the index of the blocks and the blocks themselves, the clock, the accounting entries, the script that pays
    to a key, the coins of the main chain, the options, and what the n-th write to the data base returns.  That a
    transaction is given to the memory pool ([AcceptWalletTransaction], main.cpp) is an event.  Locks, printed texts
    and the amounts that are remembered ([MarkDirty]) are left out. *)

From stdpp Require Import sorting.
From S2P Require Import Prelude Monad Core Key KeyPool Groupings Alert.

Record CMerkleTx := mkMerkleTx {
  base : CTransaction; hashBlock : uint256; vMerkleBranch : list uint256; nIndex : Z }.

Record CWalletTx := mkWtx {
  merkle : CMerkleTx; vtxPrev : list CMerkleTx; fFromMe : bool; strFromAccount : bytes;
  nTimeReceived : Z; nTimeSmart : Z; nOrderPos : Z; vfSpent : list bool }.

Definition set_merkle x t := mkWtx x (vtxPrev t) (fFromMe t) (strFromAccount t) (nTimeReceived t) (nTimeSmart t) (nOrderPos t) (vfSpent t).
Definition set_prev x t := mkWtx (merkle t) x (fFromMe t) (strFromAccount t) (nTimeReceived t) (nTimeSmart t) (nOrderPos t) (vfSpent t).
Definition set_from_me x t := mkWtx (merkle t) (vtxPrev t) x (strFromAccount t) (nTimeReceived t) (nTimeSmart t) (nOrderPos t) (vfSpent t).
Definition set_times r s t := mkWtx (merkle t) (vtxPrev t) (fFromMe t) (strFromAccount t) r s (nOrderPos t) (vfSpent t).
Definition set_pos x t := mkWtx (merkle t) (vtxPrev t) (fFromMe t) (strFromAccount t) (nTimeReceived t) (nTimeSmart t) x (vfSpent t).
Definition set_spent x t := mkWtx (merkle t) (vtxPrev t) (fFromMe t) (strFromAccount t) (nTimeReceived t) (nTimeSmart t) (nOrderPos t) x.

Definition tx_of (t : CWalletTx) : CTransaction := base (merkle t).

Inductive Change := CT_NEW | CT_UPDATED | CT_DELETED.

Record CAccountingEntry := mkEntry { ae_nOrderPos : Z; ae_nTime : Z }.
#[global] Instance CAccountingEntry_eq_dec : EqDecision CAccountingEntry.
Proof. solve_decision. Defined.

(** A transaction of the wallet, or an accounting entry. *)
Abbreviation TxPair := (uint256 + CAccountingEntry)%type.

Section Book.
Context `{Destinations}.

Inductive Event :=
  | EvWriteTx (h : uint256)
  | EvEraseTx (h : uint256)
  | EvWriteOrderPosNext (n : Z)
  | EvChanged (h : uint256) (c : Change)
  | EvBook (address : CTxDestination) (strName : bytes) (c : Change)
  | EvWriteName (address : CTxDestination) (strName : bytes)
  | EvEraseName (address : CTxDestination)
  | EvCommand (strCmd : bytes)
  | EvRelay (h : uint256)
  | EvAccept (h : uint256).

Record Book := mkBook {
  mapWallet : gmap uint256 CWalletTx;
  nOrderPosNext : Z;
  mapAddressBook : gmap CTxDestination bytes;
  mapRequestCount : gmap uint256 Z;
  keys : KeyPool.Wallet;
  events : list Event }.

Definition set_wallet x b := mkBook x (nOrderPosNext b) (mapAddressBook b) (mapRequestCount b) (keys b) (events b).
Definition set_next x b := mkBook (mapWallet b) x (mapAddressBook b) (mapRequestCount b) (keys b) (events b).
Definition set_book x b := mkBook (mapWallet b) (nOrderPosNext b) x (mapRequestCount b) (keys b) (events b).
Definition set_count x b := mkBook (mapWallet b) (nOrderPosNext b) (mapAddressBook b) x (keys b) (events b).
Definition set_keys x b := mkBook (mapWallet b) (nOrderPosNext b) (mapAddressBook b) (mapRequestCount b) x (events b).
Definition set_events x b := mkBook (mapWallet b) (nOrderPosNext b) (mapAddressBook b) (mapRequestCount b) (keys b) x.

Class BookWorld := {
  GetHash : CTransaction -> uint256;
  GetHex : uint256 -> bytes;
  IsSpent : list bool -> Z -> bool;
  MarkSpent : CWalletTx -> Z -> option (list bool);       (* [None]: it throws *)
  UpdateSpent : list bool -> list bool -> bool * list bool;
  IsMine_tx : CTransaction -> bool;
  IsFromMe : gmap uint256 CWalletTx -> CTransaction -> bool;
  GetDebit_tx : gmap uint256 CWalletTx -> CTransaction -> Z;
  GetValueOut : CTransaction -> option Z;                  (* [None]: it throws *)
  IsFinalTx : CTransaction -> bool;
  IsConfirmed : CWalletTx -> bool;
  GetBlocksToMaturity : CWalletTx -> Z;
  GetDepthInMainChain : CMerkleTx -> Z;
  SetMerkleBranch : CMerkleTx -> Z * CMerkleTx;            (* the depth, and the members it fills *)
  SetMerkleBranch_block : CMerkleTx -> nat -> CMerkleTx;   (* from the block at a height *)
  CMerkleTx_new : CMerkleTx;                               (* CMerkleTx() *)
  CWalletTx_of : CTransaction -> CWalletTx;                (* CWalletTx(this, tx) *)
  mapBlockIndex : gmap uint256 Z;                          (* the times of the blocks *)
  main_chain : list (Z * list CTransaction);               (* times and transactions, from the first block on *)
  GetAdjustedTime : Z;
  GetTime : nat -> Z;
  GetRand_1800 : Z;
  nTimeBestReceived : Z;
  ListAccountCreditDebit : bytes -> list CAccountingEntry;
  script_of_key : Z -> CScript;
  dest_of_key : Z -> CTxDestination;
  AcceptToMemoryPool : CTransaction -> bool;
  GetCoins_tip : uint256 -> option CCoins;                 (* [pcoinsTip->GetCoins] *)
  fHaveGUI : bool;
  fFileBacked_book : bool;
  walletnotify : bytes;
  disk_book : nat -> bool;
  IsSpent_nil i : IsSpent [] i = false;
  MarkSpent_spec t n v : MarkSpent t n = Some v -> forall i, IsSpent v i = IsSpent (vfSpent t) i || (i =? n);
  MarkSpent_range t n : is_Some (MarkSpent t n) <-> 0 <= n < lenZ (vout (tx_of t));
  SetMerkleBranch_base t : base (SetMerkleBranch t).2 = base t;
  SetMerkleBranch_block_base t n : base (SetMerkleBranch_block t n) = base t;
  CMerkleTx_new_base : base CMerkleTx_new = CTransaction.SetNull;
  CWalletTx_of_tx t : tx_of (CWalletTx_of t) = t;
  GetValueOut_spec t n : GetValueOut t = Some n -> n = foldr (fun o s => nValue o + s) 0 (vout t) /\ 0 <= n < 2 ^ 63;
  UpdateSpent_spec v v' i : IsSpent (UpdateSpent v v').2 i = IsSpent v i || IsSpent v' i;
}.

Context `{KeyWorld} `{BookWorld}.

Abbreviation B := (X Book).

(** ** Reading and recording *)

(** A walk over a map in the order of its keys. *)
Definition key_le {A} (p q : uint256 * A) : Prop := p.1 <= q.1.
#[local] Instance key_le_dec {A} (p q : uint256 * A) : Decision (key_le p q).
Proof. unfold key_le. apply _. Defined.
Definition walk {A} (m : gmap uint256 A) : list (uint256 * A) := merge_sort key_le (map_to_list m).

Definition upd (f : Book -> Book) : B unit := X.modify f.
Definition rd {A} (f : Book -> A) : B A := X.gets f.
Definition event (e : Event) : B unit := upd (fun b => set_events (events b ++ [e]) b).

(** A write to the data base: whether it succeeds. *)
Definition write_event (e : Event) : B bool :=
  n <~ rd (fun b => length (events b)) ;; event e ;~ X.ret (disk_book n).
Definition WriteToDisk (h : uint256) : B bool := write_event (EvWriteTx h).
Definition NotifyTransactionChanged (h : uint256) (c : Change) : B unit := event (EvChanged h c).

(** [wtx] is a reference into the map. *)
Definition set_tx (h : uint256) (t : CWalletTx) : B unit := upd (fun b => set_wallet (<[h := t]> (mapWallet b)) b).

Definition on_keys {A} (m : X KeyPool.Wallet A) : B A :=
  fun b => let '(o, k) := m (keys b) in (o, set_keys k b).

Definition IncOrderPosNext : B Z :=
  nRet <~ rd nOrderPosNext ;; upd (set_next (s64 (nRet + 1))) ;~
  event (EvWriteOrderPosNext (s64 (nRet + 1))) ;~ X.ret nRet.

(** ** The order of the transactions *)

(** [multimap::insert]: behind the entries of the same key. *)
Fixpoint multi_insert {A} (k : Z) (v : A) (l : list (Z * A)) : list (Z * A) :=
  match l with
  | [] => [(k, v)]
  | (k', v') :: r => if k <? k' then (k, v) :: l else (k', v') :: multi_insert k v r
  end.

Definition OrderedTxItems (m : gmap uint256 CWalletTx) (strAccount : bytes) : list (Z * TxPair) :=
  let txs := foldl (fun l p => multi_insert (nOrderPos p.2) (inl p.1) l) [] (walk m) in
  foldl (fun l e => multi_insert (ae_nOrderPos e) (inr e) l) txs (ListAccountCreditDebit strAccount).

Definition GetTxTime (t : CWalletTx) : Z := if nTimeSmart t =? 0 then nTimeReceived t else nTimeSmart t.

(** The loop from the end of [txOrdered]: the time of the last item that is not too far ahead. *)
Fixpoint latest_entry (m : gmap uint256 CWalletTx) (h : uint256) (latestTolerated : Z) (items : list (Z * TxPair)) : option Z :=
  match items with
  | [] => None
  | (_, item) :: r =>
    if bool_decide (item = inl h) then latest_entry m h latestTolerated r
    else
      let nSmartTime := match item with
                        | inl h' => match m !! h' with Some t => GetTxTime t | None => 0 end
                        | inr e => ae_nTime e end in
      if nSmartTime <=? latestTolerated then Some nSmartTime else latest_entry m h latestTolerated r
  end.

(** [nTimeSmart] of a new transaction in a block of time [blocktime]. *)
Definition smart_time (m : gmap uint256 CWalletTx) (h : uint256) (received blocktime : Z) : Z :=
  let latestTolerated := u32 (received + 300) in
  let found := latest_entry m h latestTolerated (rev (OrderedTxItems m [])) in
  let latestEntry := match found with Some n => u32 n | None => 0 end in
  let latestNow := match found with Some n => if received <? n then u32 n else received | None => received end in
  Z.max latestEntry (Z.min blocktime latestNow).

(** ** Adding and changing *)

Definition UpdateSpent_input (txin : CTxIn) : B unit :=
  let h := hash (prevout txin) in let n := op_n (prevout txin) in
  m <~ rd mapWallet ;;
  match m !! h with
  | Some wtx =>
    match vout (tx_of wtx) !! Z.to_nat n with
    | None => X.ret tt
    | Some o =>
      if negb (IsSpent (vfSpent wtx) n) && IsMine_out o then
        v <~ (match MarkSpent wtx n with Some v => X.ret v | None => X.throw end) ;;
        set_tx h (set_spent v wtx) ;~ ok <~ WriteToDisk h ;; NotifyTransactionChanged h CT_UPDATED
      else X.ret tt
    end
  | None => X.ret tt
  end.

Definition WalletUpdateSpent (tx : CTransaction) : B unit := X.each UpdateSpent_input (vin tx).

(** What [AddToWallet] does to a transaction that is there already: the transaction and [fUpdated]. *)
Definition merge_tx (wtx wtxIn : CWalletTx) : CWalletTx * bool :=
  let a := merkle wtx in let i := merkle wtxIn in
  let newBlock := negb (hashBlock i =? 0) && negb (hashBlock i =? hashBlock a) in
  let a := if newBlock then mkMerkleTx (base a) (hashBlock i) (vMerkleBranch a) (nIndex a) else a in
  let newBranch := negb (nIndex i =? -1) && (negb (bool_decide (vMerkleBranch i = vMerkleBranch a)) || negb (nIndex i =? nIndex a)) in
  let a := if newBranch then mkMerkleTx (base a) (hashBlock a) (vMerkleBranch i) (nIndex i) else a in
  let newFrom := fFromMe wtxIn && negb (fFromMe wtx) in
  let '(newSpent, v) := UpdateSpent (vfSpent wtx) (vfSpent wtxIn) in
  (set_spent v (if newFrom then set_from_me true (set_merkle a wtx) else set_merkle a wtx),
   newBlock || newBranch || newFrom || newSpent).

Definition SetAddressBookName (address : CTxDestination) (strName : bytes) : B bool :=
  b <~ rd mapAddressBook ;;
  upd (set_book (<[address := strName]> b)) ;~
  (* the iterator was taken before the insertion *)
  event (EvBook address strName (if b !! address then CT_UPDATED else CT_NEW)) ;~
  if negb fFileBacked_book then X.ret false else write_event (EvWriteName address strName).

Definition DelAddressBookName (address : CTxDestination) : B bool :=
  b <~ rd mapAddressBook ;;
  upd (set_book (base.delete address b)) ;~ event (EvBook address [] CT_DELETED) ;~
  if negb fFileBacked_book then X.ret false else write_event (EvEraseName address).

(** The default key is replaced for each output that pays to it. *)
Fixpoint replace_default (script : CScript) (outs : list CTxOut) : B unit :=
  match outs with
  | [] => X.ret tt
  | o :: r =>
    (if bool_decide (scriptPubKey o = script) then
       k <~ on_keys (GetKeyFromPool false) ;;
       match k with
       | Some k =>
         ok <~ on_keys (SetDefaultKey k) ;;
         d <~ rd (fun b => vchDefaultKey (keys b)) ;;
         ok <~ SetAddressBookName (dest_of_key (GetID d)) [] ;; X.ret tt
       | None => X.ret tt
       end
     else X.ret tt) ;~ replace_default script r
  end.

Definition notify_command (h : uint256) : B unit :=
  if bool_decide (walletnotify = []) then X.ret tt else event (EvCommand (replace_all walletnotify (GetHex h))).

(** The new transaction as it is kept. *)
Definition receive_tx (wtxIn : CWalletTx) : B unit :=
  let h := GetHash (tx_of wtxIn) in
  set_tx h wtxIn ;~
  nPos <~ IncOrderPosNext ;;
  let received := u32 GetAdjustedTime in
  let wtx := set_pos nPos (set_times received received wtxIn) in
  set_tx h wtx ;~
  let hb := hashBlock (merkle wtxIn) in
  if hb =? 0 then X.ret tt
  else match mapBlockIndex !! hb with
       | Some blocktime => m <~ rd mapWallet ;; set_tx h (set_times received (smart_time m h received blocktime) wtx)
       | None => X.ret tt
       end.

(** The transaction is inserted or merged: whether it has to be written. *)
Definition store_tx (found : option CWalletTx) (wtxIn : CWalletTx) : B bool :=
  match found with
  | None => receive_tx wtxIn ;~ X.ret true
  | Some wtx => let '(t, fUpdated) := merge_tx wtx wtxIn in set_tx (GetHash (tx_of wtxIn)) t ;~ X.ret fUpdated
  end.

(** What follows for [wtx], whose transaction is [tx]. *)
Definition finish_add (h : uint256) (tx : CTransaction) (fWrite : bool) (c : Change) : B bool :=
  ok <~ (if fWrite then WriteToDisk h else X.ret true) ;;
  if negb ok then X.ret false
  else
    (if negb fHaveGUI then
       d <~ rd (fun b => vchDefaultKey (keys b)) ;;
       if CPubKey.IsValid d then replace_default (script_of_key (GetID d)) (vout tx) else X.ret tt
     else X.ret tt) ;~
    WalletUpdateSpent tx ;~ NotifyTransactionChanged h c ;~ notify_command h ;~ X.ret true.

Definition AddToWallet (wtxIn : CWalletTx) : B bool :=
  let h := GetHash (tx_of wtxIn) in
  found <~ rd (fun b => mapWallet b !! h) ;;
  fWrite <~ store_tx found wtxIn ;;
  finish_add h (match found with Some wtx => tx_of wtx | None => tx_of wtxIn end) fWrite
    (match found with Some _ => CT_UPDATED | None => CT_NEW end).

(** With the Merkle branch from the block at [height]. *)
Definition new_wtx (tx : CTransaction) (height : option nat) : CWalletTx :=
  let t := CWalletTx_of tx in
  match height with Some i => set_merkle (SetMerkleBranch_block (merkle t) i) t | None => t end.

Definition AddToWalletIfInvolvingMe (h : uint256) (tx : CTransaction) (height : option nat) (fUpdate : bool) : B bool :=
  m <~ rd mapWallet ;;
  let fExisted := bool_decide (is_Some (m !! h)) in
  if fExisted && negb fUpdate then X.ret false
  else if fExisted || IsMine_tx tx || IsFromMe m tx then AddToWallet (new_wtx tx height)
  else WalletUpdateSpent tx ;~ X.ret false.

Definition EraseFromWallet (h : uint256) : B bool :=
  if negb fFileBacked_book then X.ret false
  else
    m <~ rd mapWallet ;;
    (match m !! h with
     | Some _ => upd (fun b => set_wallet (base.delete h (mapWallet b)) b) ;~ event (EvEraseTx h)
     | None => X.ret tt
     end) ;~ X.ret true.

Definition GetTransaction (h : uint256) : B (option CWalletTx) := rd (fun b => mapWallet b !! h).
Definition UpdatedTransaction (h : uint256) : B unit :=
  m <~ rd mapWallet ;; match m !! h with Some _ => NotifyTransactionChanged h CT_UPDATED | None => X.ret tt end.

(** ** The chain *)

(** The loop over the blocks from [height] on; [ret] counts. *)
Fixpoint scan_txs (txs : list CTransaction) (height : nat) (fUpdate : bool) (ret : Z) : B Z :=
  match txs with
  | [] => X.ret ret
  | tx :: r =>
    added <~ AddToWalletIfInvolvingMe (GetHash tx) tx (Some height) fUpdate ;;
    scan_txs r height fUpdate (if (added : bool) then ret + 1 else ret)
  end.
Fixpoint scan_blocks (blocks : list (Z * list CTransaction)) (height : nat) (fUpdate : bool) (ret : Z) : B Z :=
  match blocks with
  | [] => X.ret ret
  | (nTime, vtx) :: r =>
    nFirst <~ rd (fun b => KeyPool.nTimeFirstKey (keys b)) ;;
    if negb (nFirst =? 0) && (nTime <? nFirst - 7200) then scan_blocks r (S height) fUpdate ret
    else ret <~ scan_txs vtx height fUpdate ret ;; scan_blocks r (S height) fUpdate ret
  end.
Definition ScanForWalletTransactions (start : nat) (fUpdate : bool) : B Z :=
  scan_blocks (drop start main_chain) start fUpdate 0.

(** The outputs that the main chain does not have any more are marked: the transaction, and [fUpdated]. *)
Fixpoint mark_missing (coins outs : list CTxOut) (i : Z) (t : CWalletTx) : option (CWalletTx * bool) :=
  match outs with
  | [] => Some (t, false)
  | o :: r =>
    if IsSpent (vfSpent t) i then mark_missing coins r (i + 1) t
    else if (match coins !! Z.to_nat i with None => true | Some c => CTxOut.IsNull c end) && IsMine_out o then
      v ← MarkSpent t i;
      '(t, _) ← mark_missing coins r (i + 1) (set_spent v t);
      Some (t, true)
    else mark_missing coins r (i + 1) t
  end.

(** One round for the transaction at [h]: [fMissing]. *)
Definition reaccept_tx (h : uint256) : B bool :=
  m <~ rd mapWallet ;;
  match m !! h with
  | None => X.ret false
  | Some wtx =>
    let tx := tx_of wtx in
    if CTransaction.IsCoinBase tx && IsSpent (vfSpent wtx) 0 then X.ret false
    else
      let coins := GetCoins_tip (GetHash tx) in
      if bool_decide (is_Some coins) || (0 <? GetDepthInMainChain (merkle wtx)) then
        p <~ (match mark_missing (match coins with Some c => cc_vout c | None => [] end) (vout tx) 0 wtx with
              | Some p => X.ret p | None => X.throw end) ;;
        if (p.2 : bool) then set_tx h p.1 ;~ ok <~ WriteToDisk (GetHash tx) ;; X.ret true else X.ret false
      else (if CTransaction.IsCoinBase tx then X.ret tt else event (EvAccept (GetHash tx))) ;~ X.ret false
  end.

Fixpoint reaccept_all (hs : list uint256) : B bool :=
  match hs with
  | [] => X.ret false
  | h :: r => fMissing <~ reaccept_tx h ;; fMissing' <~ reaccept_all r ;; X.ret (fMissing || fMissing')
  end.

(** The loop while [fRepeat]; the result tells whether [fuel] rounds were enough. *)
Fixpoint ReacceptWalletTransactions (fuel : nat) : B bool :=
  match fuel with
  | O => X.ret false
  | S fuel' =>
    hs <~ rd (fun b => (walk (mapWallet b)).*1) ;;
    fMissing <~ reaccept_all hs ;;
    if (fMissing : bool) then
      n <~ ScanForWalletTransactions 0 false ;;
      if n =? 0 then X.ret true else ReacceptWalletTransactions fuel'
    else X.ret true
  end.

(** ** Amounts *)

(** Wallets as Groupings.v sees them. *)
Definition grouping_wallet (b : Book) : Groupings.Wallet :=
  Groupings.mkWallet ((fun p => (p.1, tx_of p.2)) <$> walk (mapWallet b)) (dom (mapAddressBook b)).

(** [listReceived], [listSent], [nFee] and the account; an output without a destination has [CNoDestination]. *)
Fixpoint list_outs (b : Book) (nDebit : Z) (outs : list CTxOut) : list (option CTxDestination * Z) * list (option CTxDestination * Z) :=
  match outs with
  | [] => ([], [])
  | o :: r =>
    let '(received, sent) := list_outs b nDebit r in
    let address := ExtractDestination (scriptPubKey o) in
    if (0 <? nDebit) && IsChange (grouping_wallet b) o then (received, sent)
    else (if IsMine_out o then (address, nValue o) :: received else received,
          if 0 <? nDebit then (address, nValue o) :: sent else sent)
  end.

Record Amounts := mkAmounts {
  listReceived : list (option CTxDestination * Z); listSent : list (option CTxDestination * Z);
  nFee : Z; strSentAccount : bytes }.

Definition GetAmounts (b : Book) (t : CWalletTx) : option Amounts :=
  let nDebit := GetDebit_tx (mapWallet b) (tx_of t) in
  nFee ← (if 0 <? nDebit then nValueOut ← GetValueOut (tx_of t); Some (s64 (nDebit - nValueOut)) else Some 0);
  let '(received, sent) := list_outs b nDebit (vout (tx_of t)) in
  Some (mkAmounts received sent nFee (strFromAccount t)).

Definition sum_amounts (l : list (option CTxDestination * Z)) : Z := foldl (fun n p => s64 (n + p.2)) 0 l.

(** [CNoDestination] is not in the address book. *)
Definition in_account (b : Book) (strAccount : bytes) (address : option CTxDestination) : bool :=
  match address ≫= (fun a => mapAddressBook b !! a) with
  | Some name => bool_decide (name = strAccount)
  | None => bool_decide (strAccount = [])
  end.

(** [nReceived], [nSent] and [nFee]. *)
Definition GetAccountAmounts (b : Book) (t : CWalletTx) (strAccount : bytes) : option (Z * Z * Z) :=
  a ← GetAmounts b t;
  let mine := bool_decide (strAccount = strSentAccount a) in
  Some (sum_amounts (List.filter (fun p => in_account b strAccount p.1) (listReceived a)),
        if mine then sum_amounts (listSent a) else 0, if mine then nFee a else 0).

Definition GetRequestCount (b : Book) (t : CWalletTx) : Z :=
  let hb := hashBlock (merkle t) in
  if CTransaction.IsCoinBase (tx_of t) then
    if hb =? 0 then -1 else default (-1) (mapRequestCount b !! hb)
  else
    match mapRequestCount b !! GetHash (tx_of t) with
    | None => -1
    | Some n => if (n =? 0) && negb (hb =? 0) then default 1 (mapRequestCount b !! hb) else n
    end.

(** One output in [GetAddressBalances]. *)
Definition add_balance (t : CWalletTx) (balances : gmap CTxDestination Z) (p : Z * CTxOut) : gmap CTxDestination Z :=
  let '(i, o) := p in
  if negb (IsMine_out o) then balances
  else match ExtractDestination (scriptPubKey o) with
       | None => balances
       | Some addr =>
         let n := if IsSpent (vfSpent t) i then 0 else nValue o in
         <[addr := s64 (default 0 (balances !! addr) + n)]> balances
       end.

Definition counts (b : Book) (t : CWalletTx) : bool :=
  IsFinalTx (tx_of t) && IsConfirmed t &&
  negb (CTransaction.IsCoinBase (tx_of t) && (0 <? GetBlocksToMaturity t)) &&
  ((if IsFromMe (mapWallet b) (tx_of t) then 0 else 1) <=? GetDepthInMainChain (merkle t)).

Definition GetAddressBalances (b : Book) : gmap CTxDestination Z :=
  foldl (fun balances p =>
    if counts b p.2 then foldl (add_balance p.2) balances (zip (seqZ 0 (lenZ (vout (tx_of p.2)))) (vout (tx_of p.2)))
    else balances) ∅ (walk (mapWallet b)).

(** ** Supporting transactions *)

Definition COPY_DEPTH : Z := 3.
Definition prev_hashes (tx : CTransaction) : list uint256 := (fun i => hash (prevout i)) <$> vin tx.

(** The loop over [vWorkQueue], of which [queue] is still to come: [mapWalletPrev], [setAlreadyDone], [vtxPrev]. *)
Fixpoint support_loop (fuel : nat) (m : gmap uint256 CWalletTx) (queue : list uint256) (prevs : gmap uint256 CMerkleTx)
    (done_ : gset uint256) (acc : list CMerkleTx) : option (list CMerkleTx) :=
  match fuel with
  | O => None
  | S fuel' =>
    match queue with
    | [] => Some acc
    | h :: r =>
      if bool_decide (h ∈ done_) then support_loop fuel' m r prevs done_ acc
      else
        let done_ := {[h]} ∪ done_ in
        let '(tx, prevs) :=
          match m !! h with
          | Some wtx => (merkle wtx, foldl (fun p t => <[GetHash (base t) := t]> p) prevs (vtxPrev wtx))
          | None => (default CMerkleTx_new (prevs !! h), prevs)
          end in
        let '(nDepth, tx) := SetMerkleBranch tx in
        let queue := if nDepth <? COPY_DEPTH then r ++ prev_hashes (base tx) else r in
        support_loop fuel' m queue prevs done_ (acc ++ [tx])
    end
  end.

(** The inputs of all transactions that can be looked up. *)
Definition all_known (m : gmap uint256 CWalletTx) : list CMerkleTx :=
  mjoin ((fun p => merkle p.2 :: vtxPrev p.2) <$> map_to_list m).
Definition support_fuel (m : gmap uint256 CWalletTx) (t : CWalletTx) : nat :=
  S (length (vin (tx_of t)) + sum_list ((fun x => length (vin (base x))) <$> all_known m)).

(** The result is what [vtxPrev] becomes, and the transaction with its Merkle branch. *)
Definition AddSupportingTransactions (b : Book) (t : CWalletTx) : option CWalletTx :=
  let '(nDepth, a) := SetMerkleBranch (merkle t) in
  let t := set_merkle a t in
  if nDepth <? COPY_DEPTH then
    l ← support_loop (support_fuel (mapWallet b) t) (mapWallet b) (prev_hashes (tx_of t)) ∅ ∅ [];
    Some (set_prev (rev l) t)
  else Some (set_prev [] t).

(** ** Relaying *)

Definition relay_if_new (t : CMerkleTx) : B unit :=
  if negb (CTransaction.IsCoinBase (base t)) && (GetDepthInMainChain t =? 0) then event (EvRelay (GetHash (base t))) else X.ret tt.

Definition RelayWalletTransaction (t : CWalletTx) : B unit := X.each relay_if_new (vtxPrev t) ;~ relay_if_new (merkle t).

(** The static variables [nNextTime] and [nLastTime]; the first call only sets the time of the next. *)
Definition ResendWalletTransactions (st : Z * Z) (now : nat) : B (Z * Z) :=
  let '(nNextTime, nLastTime) := st in
  if GetTime now <? nNextTime then X.ret st
  else
    let fFirst := nNextTime =? 0 in
    let nNextTime := s64 (GetTime (S now) + GetRand_1800) in
    if (fFirst : bool) then X.ret (nNextTime, nLastTime)
    else if nTimeBestReceived <? nLastTime then X.ret (nNextTime, nLastTime)
    else
      m <~ rd mapWallet ;;
      let mapSorted := foldl (fun l p => if 5 * 60 <? s64 (nTimeBestReceived - nTimeReceived p.2)
                                         then multi_insert (nTimeReceived p.2) p.2 l else l) [] (walk m) in
      X.each (fun p => RelayWalletTransaction p.2) mapSorted ;~
      X.ret (nNextTime, GetTime (S (S now))).

(** ** Sending *)

(** [mapWallet[txin.prevout.hash]] makes an entry when there is none, with a transaction that is empty. *)
Definition CWalletTx_new : CWalletTx := CWalletTx_of CTransaction.SetNull.

Definition mark_input (txin : CTxIn) : B unit :=
  let h := hash (prevout txin) in
  m <~ rd mapWallet ;;
  let coin := default CWalletTx_new (m !! h) in
  set_tx h coin ;~
  v <~ (match MarkSpent coin (op_n (prevout txin)) with Some v => X.ret v | None => X.throw end) ;;
  let coin := set_spent v coin in
  set_tx h coin ;~ ok <~ WriteToDisk (GetHash (tx_of coin)) ;;
  NotifyTransactionChanged (GetHash (tx_of coin)) CT_UPDATED.

Definition CommitTransaction (wtxNew : CWalletTx) (reservekey : Holder) : B bool :=
  on_keys (Reserve_KeepKey reservekey) ;~
  ok <~ AddToWallet wtxNew ;;
  X.each mark_input (vin (tx_of wtxNew)) ;~
  upd (fun b => set_count (<[GetHash (tx_of wtxNew) := 0]> (mapRequestCount b)) b) ;~
  if negb (AcceptToMemoryPool (tx_of wtxNew)) then X.ret false
  else RelayWalletTransaction wtxNew ;~ X.ret true.
End Book.
