(* ===== verification/WalletBookThms.v ===== *)
(** Theorems on the transactions of the wallet (WalletBook.v): what is spent stays spent, the time given to a new
    transaction, the amounts of a transaction, and the search for supporting transactions ends. *)

From stdpp Require Import sorting.
From S2P Require Import Prelude Monad Core Key KeyPool Groupings Alert WalletBook.
From S2P Require KeyPoolThms GroupingsThms.

Section Book.
Context `{Destinations} `{KeyWorld} `{!BookWorld}.
Implicit Types b : Book.

(** ** The wallet only grows *)

(** The same transaction at the same place, with nothing spent that has become unspent. *)
Definition better (t t' : CWalletTx) : Prop :=
  tx_of t' = tx_of t /\ nOrderPos t' = nOrderPos t /\
  forall i, IsSpent (vfSpent t) i = true -> IsSpent (vfSpent t') i = true.

Definition grows b b' : Prop :=
  forall h t, mapWallet b !! h = Some t -> exists t', mapWallet b' !! h = Some t' /\ better t t'.

#[local] Instance better_preorder : PreOrder better.
Proof.
  split; [by intros t; split_and!|]. intros t1 t2 t3 (E1 & E2 & E3) (F1 & F2 & F3).
  split_and!; [by rewrite F1|by rewrite F2|auto].
Qed.
#[local] Instance grows_preorder : PreOrder grows.
Proof.
  split; [by intros b h t Ht; eexists|]. intros b1 b2 b3 H12 H23 h t Ht.
  destruct (H12 h t Ht) as (t2 & Ht2 & B2). destruct (H23 h t2 Ht2) as (t3 & Ht3 & B3).
  exists t3. split; [done|]. by etransitivity.
Qed.

Lemma grows_same b b' : mapWallet b' = mapWallet b -> grows b b'.
Proof. intros E h t Ht. rewrite E. by eexists. Qed.
Lemma grows_insert b b' h t' :
  mapWallet b' = <[h := t']> (mapWallet b) -> (forall t, mapWallet b !! h = Some t -> better t t') -> grows b b'.
Proof.
  intros E Ht' k t Ht. rewrite E. destruct (decide (k = h)) as [->|].
  - exists t'. rewrite lookup_insert_eq. split; [done|by apply Ht'].
  - exists t. by rewrite lookup_insert_ne.
Qed.

Abbreviation K m := (X.keeps grows m).

Lemma K_event e : K (event e).
Proof. intros b. by apply grows_same. Qed.
Lemma K_write_event e : K (write_event e).
Proof. intros b. by apply grows_same. Qed.
Lemma K_keys {A} (m : X KeyPool.Wallet A) : K (on_keys m).
Proof. intros b. apply grows_same. unfold on_keys. by destruct (m (keys b)). Qed.
Lemma K_upd f : (forall b, mapWallet (f b) = mapWallet b) -> K (WalletBook.upd f).
Proof. intros Hf b. apply grows_same, Hf. Qed.
Lemma K_ret {A} (a : A) : K (X.ret a).
Proof. intros b. reflexivity. Qed.
Lemma K_rd {A} (f : Book -> A) : K (rd f).
Proof. intros b. reflexivity. Qed.
Lemma K_bind {A B} (m : X Book A) (f : A -> X Book B) : K m -> (forall a, K (f a)) -> K (X.bind m f).
Proof. apply X.keeps_bind. apply _. Qed.

(** Through the steps that do not touch the transactions. *)
Create HintDb keeps.
#[local] Hint Constants Opaque : keeps.
Ltac keep := repeat first
  [ solve [eauto 1 with keeps] | assumption | apply K_ret | apply K_rd | apply K_event | apply K_write_event | apply K_keys
  | (apply K_upd; by intros) | (apply K_bind; [|intros ?]) | case_match ].

Lemma K_name a n : K (SetAddressBookName a n).
Proof. unfold SetAddressBookName. keep. Qed.

Lemma better_spent t n v : MarkSpent t n = Some v -> better t (set_spent v t).
Proof. intros Hv. split_and!; [done|done|]. intros i Hi. cbn. by rewrite (MarkSpent_spec _ _ _ Hv), Hi. Qed.

Lemma K_UpdateSpent tx : K (WalletUpdateSpent tx).
Proof.
  apply (X.keeps_each _). intros txin b. unfold UpdateSpent_input. set (h := hash (prevout txin)). set (n := op_n (prevout txin)).
  unfold X.bind at 1, rd, X.gets.
  destruct (mapWallet b !! h) as [wtx|] eqn:E; [|reflexivity].
  destruct (vout (tx_of wtx) !! _) as [o|]; [|reflexivity]. destruct (negb _ && _); [|reflexivity].
  destruct (MarkSpent wtx n) as [v|] eqn:Ev; [|reflexivity].
  apply (grows_insert _ _ h (set_spent v wtx)); [done|].
  intros t. rewrite E. intros [= <-]. by eapply better_spent.
Qed.

Lemma K_replace script outs : K (replace_default script outs).
Proof. induction outs as [|o outs IH]; cbn [replace_default]; keep; apply K_name. Qed.

(** ** A new transaction *)

(** What [receive_tx] keeps for a hash that is new. *)
Definition received b (wtxIn t : CWalletTx) : Prop :=
  tx_of t = tx_of wtxIn /\ vfSpent t = vfSpent wtxIn /\ nOrderPos t = nOrderPosNext b /\
  nTimeReceived t = u32 GetAdjustedTime.

Lemma receive_tx_spec wtxIn b :
  mapWallet b !! GetHash (tx_of wtxIn) = None ->
  exists t b', receive_tx wtxIn b = (Done tt, b') /\ received b wtxIn t /\
    mapWallet b' = <[GetHash (tx_of wtxIn) := t]> (mapWallet b) /\ nOrderPosNext b' = s64 (nOrderPosNext b + 1) /\
    (forall hb blocktime, hb = hashBlock (merkle wtxIn) -> hb <> 0 -> mapBlockIndex !! hb = Some blocktime ->
      exists m, nTimeSmart t = smart_time m (GetHash (tx_of wtxIn)) (nTimeReceived t) blocktime /\
        m = <[GetHash (tx_of wtxIn) := set_times (nTimeReceived t) (nTimeReceived t) t]> (mapWallet b)) /\
    (hashBlock (merkle wtxIn) = 0 \/ mapBlockIndex !! hashBlock (merkle wtxIn) = None -> nTimeSmart t = nTimeReceived t).
Proof.
  intros Hn. set (h := GetHash (tx_of wtxIn)). set (r := u32 GetAdjustedTime).
  set (wtx := set_pos (nOrderPosNext b) (set_times r r wtxIn)).
  unfold receive_tx. fold h. destruct (Z.eqb_spec (hashBlock (merkle wtxIn)) 0) as [Hz|Hz].
  - exists wtx. eexists. split; [reflexivity|]. split; [by split_and!|]. cbn. rewrite insert_insert_eq.
    split_and!; [done|done| |done]. by intros hb bt -> ?.
  - destruct (mapBlockIndex !! hashBlock (merkle wtxIn)) as [bt|] eqn:Eb.
    + exists (set_times r (smart_time (<[h := wtx]> (<[h := wtxIn]> (mapWallet b))) h r bt) wtx). eexists.
      split; [reflexivity|]. split; [by split_and!|]. cbn. rewrite !insert_insert_eq.
      split_and!; [done|done| |]; [|by intros [?|?]]. intros hb bt' -> _. rewrite Eb. intros [= <-]. by eexists.
    + exists wtx. eexists. split; [reflexivity|]. split; [by split_and!|]. cbn. rewrite insert_insert_eq.
      split_and!; [done|done| |done]. intros hb bt' -> _. by rewrite Eb.
Qed.

Lemma merge_better wtx wtxIn : better wtx (merge_tx wtx wtxIn).1.
Proof.
  unfold merge_tx. pose proof (UpdateSpent_spec (vfSpent wtx) (vfSpent wtxIn)) as Hs.
  destruct (UpdateSpent (vfSpent wtx) (vfSpent wtxIn)) as [new v]. cbn [snd] in Hs. split_and!.
  - by repeat case_match.
  - by repeat case_match.
  - intros i Hi. cbn. by rewrite Hs, Hi.
Qed.

Lemma store_tx_grows wtxIn b :
  grows b (store_tx (mapWallet b !! GetHash (tx_of wtxIn)) wtxIn b).2 /\
  is_Some (mapWallet (store_tx (mapWallet b !! GetHash (tx_of wtxIn)) wtxIn b).2 !! GetHash (tx_of wtxIn)).
Proof.
  destruct (mapWallet b !! GetHash (tx_of wtxIn)) as [wtx|] eqn:E; cbn [store_tx].
  - pose proof (merge_better wtx wtxIn) as Hb. destruct (merge_tx wtx wtxIn) as [t f]. cbn [fst] in Hb. split.
    + apply (grows_insert _ _ (GetHash (tx_of wtxIn)) t); [done|]. intros t'. rewrite E. by intros [= <-].
    + cbn. rewrite lookup_insert_eq. by eexists.
  - destruct (receive_tx_spec wtxIn b E) as (t & b' & Er & _ & Em & _). unfold X.bind. rewrite Er. cbn [X.ret snd]. split.
    + apply (grows_insert _ _ _ _ Em). intros t'. by rewrite E.
    + rewrite Em, lookup_insert_eq. by eexists.
Qed.

Lemma K_finish h tx f c : K (finish_add h tx f c).
Proof.
  unfold finish_add, WriteToDisk, NotifyTransactionChanged, notify_command. keep; try apply K_replace. apply K_UpdateSpent.
Qed.

Lemma K_AddToWallet wtxIn : K (AddToWallet wtxIn).
Proof.
  intros b. unfold AddToWallet. unfold X.bind at 1, rd, X.gets. unfold X.bind at 1.
  destruct (store_tx_grows wtxIn b) as [Hs _].
  destruct (store_tx (mapWallet b !! GetHash (tx_of wtxIn)) wtxIn b) as [[f| |] b1]; [|done|done].
  etransitivity; [exact Hs|apply K_finish].
Qed.

#[local] Hint Resolve K_AddToWallet K_UpdateSpent : keeps.

Lemma K_Involving h tx height f : K (AddToWalletIfInvolvingMe h tx height f).
Proof. unfold AddToWalletIfInvolvingMe. keep. Qed.

#[local] Hint Resolve K_Involving : keeps.

Lemma grows_dom b b' : grows b b' -> dom (mapWallet b) ⊆ dom (mapWallet b').
Proof. intros Hg h [t Ht]%elem_of_dom. destruct (Hg h t Ht) as (t' & Ht' & _). by apply elem_of_dom. Qed.

Lemma bind_done {A B} (m : X Book A) (f : A -> X Book B) b x b' :
  X.bind m f b = (Done x, b') -> exists a b1, m b = (Done a, b1) /\ f a b1 = (Done x, b').
Proof. unfold X.bind. destruct (m b) as [[a| |] b1]; [|done|done]. eauto. Qed.

(** ** Rounds over the wallet and the chain *)

Lemma mark_missing_spec coins outs i t t' f :
  mark_missing coins outs i t = Some (t', f) -> better t t'.
Proof.
  revert i t t' f. induction outs as [|o outs IH]; intros i t t' f; cbn [mark_missing]; [by intros [= -> _]|].
  case_match; [apply IH|]. case_match; [|apply IH]. destruct (MarkSpent t i) as [v|] eqn:Ev; [|done]. cbn.
  destruct (mark_missing coins outs (i + 1) (set_spent v t)) as [[t1 f1]|] eqn:E; [|done]. cbn. intros [= <- _].
  etransitivity; [by eapply better_spent|by eapply IH].
Qed.

Lemma K_reaccept_tx h : K (reaccept_tx h).
Proof.
  intros b. unfold reaccept_tx, WriteToDisk. unfold X.bind at 1, rd, X.gets.
  destruct (mapWallet b !! h) as [wtx|] eqn:E; [|reflexivity]. case_match; [reflexivity|].
  cbn zeta. destruct (bool_decide _ || _).
  - destruct (mark_missing _ (vout (tx_of wtx)) 0 wtx) as [[t f]|] eqn:Em; [|reflexivity].
    unfold X.bind at 1, X.ret at 1. cbn [fst snd]. destruct f; [|reflexivity].
    apply (grows_insert _ _ h t); [done|]. intros t'. rewrite E. intros [= <-]. by eapply mark_missing_spec.
  - destruct (CTransaction.IsCoinBase _); by apply grows_same.
Qed.
#[local] Hint Resolve K_reaccept_tx : keeps.
Lemma K_reaccept_all hs : K (reaccept_all hs).
Proof. induction hs as [|h hs IH]; cbn [reaccept_all]; keep. Qed.

(** The transactions of the chain that the wallet does not have. *)
Definition missing_of (txs : list CTransaction) b : gset uint256 := list_to_set (GetHash <$> txs) ∖ dom (mapWallet b).
Definition chain_txs : list CTransaction := mjoin (main_chain.*2).
Definition unknown b : nat := size (missing_of chain_txs b).

Lemma AddToWallet_has wtx b b' ok :
  AddToWallet wtx b = (Done ok, b') -> GetHash (tx_of wtx) ∈ dom (mapWallet b').
Proof.
  intros E. apply bind_done in E as (found & b0 & [= <- <-] & E). apply bind_done in E as (w & b1 & Es & E).
  destruct (store_tx_grows wtx b) as [_ Hi]. rewrite Es in Hi. cbn [snd] in Hi.
  pose proof (K_finish (GetHash (tx_of wtx)) (match mapWallet b !! GetHash (tx_of wtx) with Some w => tx_of w | None => tx_of wtx end) w
    (match mapWallet b !! GetHash (tx_of wtx) with Some _ => CT_UPDATED | None => CT_NEW end) b1) as Hg.
  rewrite E in Hg. apply (grows_dom _ _ Hg), elem_of_dom, Hi.
Qed.

Lemma tx_of_new_wtx tx height : tx_of (new_wtx tx height) = tx.
Proof.
  pose proof (CWalletTx_of_tx tx) as E. destruct height as [i|]; [|done]. cbn [new_wtx].
  unfold tx_of in *. cbn [merkle set_merkle]. by rewrite SetMerkleBranch_block_base.
Qed.

(** What is counted in a scan has been unknown. *)
Lemma Involving_new tx height b b' :
  AddToWalletIfInvolvingMe (GetHash tx) tx height false b = (Done true, b') ->
  GetHash tx ∉ dom (mapWallet b) /\ GetHash tx ∈ dom (mapWallet b').
Proof.
  unfold AddToWalletIfInvolvingMe. intros E. apply bind_done in E as (m & b0 & [= <- <-] & E).
  case_bool_decide as Hx; [done|]. split; [by rewrite not_elem_of_dom, eq_None_not_Some|]. cbn [andb orb] in E.
  destruct (IsMine_tx tx || _); [|by apply bind_done in E as (? & ? & _ & [=])].
  apply AddToWallet_has in E. by rewrite tx_of_new_wtx in E.
Qed.

(** Something of [txs] has been found. *)
Definition found (txs : list CTransaction) b b' : Prop :=
  exists tx, tx ∈ txs /\ GetHash tx ∉ dom (mapWallet b) /\ GetHash tx ∈ dom (mapWallet b').
Lemma found_grows txs txs' b b1 b2 b3 :
  grows b b1 -> grows b2 b3 -> found txs b1 b2 -> (forall tx, tx ∈ txs -> tx ∈ txs') -> found txs' b b3.
Proof.
  intros HA%grows_dom HB%grows_dom (tx & Ht & Hn & Hi) Hs. exists tx. split; [by apply Hs|]. set_solver.
Qed.

Lemma K_scan_txs txs height f n : K (scan_txs txs height f n).
Proof. revert n. induction txs as [|tx txs IH]; intros n; cbn [scan_txs]; keep. Qed.
Lemma K_scan_blocks l start f n : K (scan_blocks l start f n).
Proof.
  revert start n. induction l as [|[t vtx] l IH]; intros start n; cbn [scan_blocks]; keep; first [apply IH|apply K_scan_txs].
Qed.

Lemma K_Scan start f : K (ScanForWalletTransactions start f).
Proof. apply K_scan_blocks. Qed.

Lemma scan_txs_new txs height n b n' b' :
  scan_txs txs height false n b = (Done n', b') -> n' = n \/ found txs b b'.
Proof.
  revert n b. induction txs as [|tx txs IH]; intros n b; cbn [scan_txs]; [intros [= -> _]; by left|].
  intros E. apply bind_done in E as (a & b1 & Ea & E).
  pose proof (K_Involving (GetHash tx) tx (Some height) false b) as Ka. rewrite Ea in Ka.
  pose proof (K_scan_txs txs height false (if a then n + 1 else n) b1) as Ks. rewrite E in Ks. cbn [snd] in *. destruct a.
  - right. apply Involving_new in Ea as [Hn Hi]. exists tx. split; [by left|]. split; [done|]. by apply (grows_dom _ _ Ks).
  - destruct (IH _ _ E) as [->|Hf]; [by left|right].
    apply (found_grows txs _ b b1 b' b' Ka (reflexivity b') Hf). intros. by right.
Qed.

Lemma scan_blocks_new l start n b n' b' :
  scan_blocks l start false n b = (Done n', b') -> n' = n \/ found (mjoin l.*2) b b'.
Proof.
  revert start n b. induction l as [|[t vtx] l IH]; intros start n b; cbn [scan_blocks]; [intros [= -> _]; by left|].
  intros E. apply bind_done in E as (k & b0 & [= _ <-] & E).
  assert (Hr : forall m b1, scan_blocks l (S start) false m b1 = (Done n', b') -> grows b b1 -> n' = m \/ found (mjoin ((t, vtx) :: l).*2) b b').
  { intros m b1 E1 K1. destruct (IH _ _ _ E1) as [->|Hf]; [by left|right].
    apply (found_grows _ _ b b1 b' b' K1 (reflexivity b') Hf). intros tx Htx. cbn. apply elem_of_app. by right. }
  destruct (negb (k =? 0) && _); [by apply (Hr _ _ E)|].
  apply bind_done in E as (n1 & b1 & E1 & E2).
  pose proof (K_scan_txs vtx start false n b) as K1. rewrite E1 in K1.
  pose proof (K_scan_blocks l (S start) false n1 b1) as K2. rewrite E2 in K2. cbn [snd] in *.
  destruct (scan_txs_new _ _ _ _ _ _ E1) as [->|Hf]; [by apply (Hr _ _ E2)|right].
  apply (found_grows _ _ b b b1 b' (reflexivity b) K2 Hf). intros tx Htx. cbn. apply elem_of_app. by left.
Qed.

Lemma unknown_mono b b' : grows b b' -> (unknown b' <= unknown b)%nat.
Proof. intros Hg%grows_dom. unfold unknown, missing_of. apply subseteq_size. set_solver. Qed.
Lemma unknown_found b b' : grows b b' -> found chain_txs b b' -> (unknown b' < unknown b)%nat.
Proof.
  intros Hg%grows_dom (tx & Ht & Hn & Hi). unfold unknown, missing_of. apply subset_size. split; [set_solver|].
  intros Hs. assert (Hx : GetHash tx ∈ (list_to_set (GetHash <$> chain_txs) : gset uint256) ∖ dom (mapWallet b)).
  { apply elem_of_difference. split; [|done]. apply elem_of_list_to_set, list_elem_of_fmap. by exists tx. }
  apply Hs in Hx. set_solver.
Qed.

Lemma K_Reaccept fuel : K (ReacceptWalletTransactions fuel).
Proof.
  induction fuel as [|fuel IH]; cbn [ReacceptWalletTransactions]; keep; first [apply K_reaccept_all|apply K_scan_blocks].
Qed.

(** One round more, as the state is passed on. *)
Lemma Reaccept_round fuel b :
  ReacceptWalletTransactions (S fuel) b =
  match reaccept_all (walk (mapWallet b)).*1 b with
  | (Done true, b1) =>
    match ScanForWalletTransactions 0 false b1 with
    | (Done n, b2) => if n =? 0 then (Done true, b2) else ReacceptWalletTransactions fuel b2
    | (Thrown, b2) => (Thrown, b2)
    | (Stuck, b2) => (Stuck, b2)
    end
  | (Done false, b1) => (Done true, b1)
  | (Thrown, b1) => (Thrown, b1)
  | (Stuck, b1) => (Stuck, b1)
  end.
Proof.
  cbn [ReacceptWalletTransactions]. set (hs := (walk (mapWallet b)).*1). unfold X.bind at 1, rd, X.gets. fold hs.
  unfold X.bind at 1. destruct (reaccept_all hs b) as [[[]| |] b1]; try done. unfold X.bind.
  destruct (ScanForWalletTransactions 0 false b1) as [[n| |] b2]; try done. by destruct (n =? 0).
Qed.

Lemma Reaccept_enough fuel b : (unknown b < fuel)%nat -> (ReacceptWalletTransactions fuel b).1 <> Done false.
Proof.
  revert b. induction fuel as [|fuel IH]; intros b Hf; [lia|]. rewrite Reaccept_round.
  pose proof (K_reaccept_all (walk (mapWallet b)).*1 b) as K1.
  destruct (reaccept_all (walk (mapWallet b)).*1 b) as [[[]| |] b1]; try done. cbn [snd] in K1.
  pose proof (K_Scan 0 false b1) as K2.
  destruct (ScanForWalletTransactions 0 false b1) as [[n| |] b2] eqn:Es; [|done|done]. cbn [snd] in K2.
  destruct (Z.eqb_spec n 0) as [|Hn]; [done|]. apply IH.
  destruct (scan_blocks_new _ _ _ _ _ _ Es) as [->|Hx]; [done|]. rewrite drop_0 in Hx.
  pose proof (unknown_found _ _ K2 Hx). pose proof (unknown_mono _ _ K1). lia.
Qed.

Lemma Reaccept_fuel fuel (n : nat) b :
  (ReacceptWalletTransactions fuel b).1 <> Done false -> ReacceptWalletTransactions (fuel + n) b = ReacceptWalletTransactions fuel b.
Proof.
  revert b. induction fuel as [|fuel IH]; intros b; [done|]. rewrite Nat.add_succ_l, !Reaccept_round.
  destruct (reaccept_all (walk (mapWallet b)).*1 b) as [[[]| |] b1]; try done.
  destruct (ScanForWalletTransactions 0 false b1) as [[k| |] b2]; try done. destruct (k =? 0); [done|]. apply IH.
Qed.

(** C27 The rounds that mark what the chain has spent and offer the rest to the memory pool again come to an end: a new
    round follows only on a scan that has found a transaction of the chain that the wallet did not have, so that one round
    more than there are such transactions is enough, and more rounds change nothing.  No transaction is lost, nothing
    spent becomes unspent. *)
Theorem ReacceptWalletTransactions_ends b (n : nat) :
  (ReacceptWalletTransactions (S (unknown b)) b).1 <> Done false /\
  ReacceptWalletTransactions (S (unknown b) + n) b = ReacceptWalletTransactions (S (unknown b)) b /\
  grows b (ReacceptWalletTransactions (S (unknown b)) b).2.
Proof.
  assert (Hf := Reaccept_enough (S (unknown b)) b ltac:(lia)). split_and!; [done|by apply Reaccept_fuel|apply K_Reaccept].
Qed.

(** ** Payments *)

Lemma mark_input_spec txin b :
  let h := hash (prevout txin) in
  let out := mark_input txin b in
  grows b out.2 /\
  forall u, out.1 = Done u -> exists t, mapWallet out.2 !! h = Some t /\ IsSpent (vfSpent t) (op_n (prevout txin)) = true.
Proof.
  intros h out. set (coin := default CWalletTx_new (mapWallet b !! h)).
  assert (Hc : forall t, mapWallet b !! h = Some t -> better t coin) by (intros t Ht; unfold coin; by rewrite Ht).
  assert (E : match MarkSpent coin (op_n (prevout txin)) with
              | None => out = (Thrown, set_wallet (<[h := coin]> (mapWallet b)) b)
              | Some v => out.1 = Done tt /\ mapWallet out.2 = <[h := set_spent v coin]> (<[h := coin]> (mapWallet b))
              end).
  { unfold out, mark_input, X.bind, rd, X.gets, set_tx, WalletBook.upd, X.modify. fold h coin. by destruct (MarkSpent coin _). }
  destruct (MarkSpent coin (op_n (prevout txin))) as [v|] eqn:Ev.
  2: { rewrite E. split; [|done]. by apply (grows_insert _ _ h coin). }
  destruct E as [_ E]. rewrite insert_insert_eq in E.
  split.
  - apply (grows_insert _ _ h (set_spent v coin)); [done|].
    intros t Ht. etransitivity; [by apply Hc|by eapply better_spent].
  - intros u _. exists (set_spent v coin). rewrite E, lookup_insert_eq. split; [done|].
    rewrite (MarkSpent_spec _ _ _ Ev), Z.eqb_refl. apply orb_true_r.
Qed.

(** The output an input spends is marked. *)
Definition input_spent b (txin : CTxIn) : Prop :=
  exists t, mapWallet b !! hash (prevout txin) = Some t /\ IsSpent (vfSpent t) (op_n (prevout txin)) = true.

Lemma input_spent_grows b b' txin : input_spent b txin -> grows b b' -> input_spent b' txin.
Proof. intros (t & Ht & Hs) Hg. destruct (Hg _ _ Ht) as (t' & Ht' & _ & _ & Hi). exists t'. split; [done|by apply Hi]. Qed.

Lemma mark_inputs_spec ins b :
  grows b (X.each mark_input ins b).2 /\
  (forall u, (X.each mark_input ins b).1 = Done u -> Forall (input_spent (X.each mark_input ins b).2) ins).
Proof.
  revert b. induction ins as [|txin ins IH]; intros b; [split; [reflexivity|by constructor]|].
  cbn [X.each]. unfold X.bind. destruct (mark_input_spec txin b) as [Hg Hm].
  destruct (mark_input txin b) as [[u| |] b1]; cbn [fst snd] in *; [|by split|by split].
  destruct (IH b1) as [Hg' Hm']. split; [by etransitivity|]. intros u' Hu'. constructor; [|by apply (Hm' u')].
  destruct (Hm u eq_refl) as (t & Ht & Hs). apply (input_spent_grows b1); [by exists t|done].
Qed.

Lemma K_relay t : K (RelayWalletTransaction t).
Proof. unfold RelayWalletTransaction, relay_if_new. apply K_bind; [apply (X.keeps_each _); intros a|intros _]; keep. Qed.

#[local] Hint Resolve K_relay : keeps.

Lemma K_commit_end wtx :
  K (WalletBook.upd (fun b => set_count (<[GetHash (tx_of wtx) := 0]> (mapRequestCount b)) b) ;~
     if negb (AcceptToMemoryPool (tx_of wtx)) then X.ret false else RelayWalletTransaction wtx ;~ X.ret true).
Proof. keep. Qed.

(** C26 Whatever the wallet is told - a new or known transaction, a block, its own payment - and however it ends, an
    exception included, the transactions it has stay, at their places in the order, and what is spent stays spent.
    After a payment has been committed every output it spends is marked. *)
Theorem Wallet_stays_spent wtx tx h height fUpdate start reservekey b :
  grows b (AddToWallet wtx b).2 /\ grows b (WalletUpdateSpent tx b).2 /\
  grows b (AddToWalletIfInvolvingMe h tx height fUpdate b).2 /\ grows b (ScanForWalletTransactions start fUpdate b).2 /\
  grows b (CommitTransaction wtx reservekey b).2 /\
  (forall ok, (CommitTransaction wtx reservekey b).1 = Done ok ->
     Forall (input_spent (CommitTransaction wtx reservekey b).2) (vin (tx_of wtx))).
Proof.
  split_and!; [apply K_AddToWallet|apply K_UpdateSpent|apply K_Involving|apply K_Scan| |].
  - assert (Kc : K (CommitTransaction wtx reservekey)); [|apply Kc].
    unfold CommitTransaction. apply K_bind; [apply K_keys|intros _]. apply K_bind; [apply K_AddToWallet|intros ok].
    apply K_bind; [intros b1; apply mark_inputs_spec|intros _]. apply K_commit_end.
  - intros ok. destruct (CommitTransaction wtx reservekey b) as [o b'] eqn:E. cbn [fst snd]. intros ->.
    apply bind_done in E as (u & b1 & _ & E). apply bind_done in E as (ok1 & b2 & _ & E).
    apply bind_done in E as (u' & b3 & Em & E). destruct (mark_inputs_spec (vin (tx_of wtx)) b2) as [_ Hm].
    rewrite Em in Hm. specialize (Hm u' eq_refl). eapply Forall_impl; [exact Hm|]. intros txin Hi.
    eapply input_spent_grows; [exact Hi|]. pose proof (K_commit_end wtx b3) as Kr. by rewrite E in Kr.
Qed.

(** ** The time of a new transaction *)

Definition item_time (m : gmap uint256 CWalletTx) (item : TxPair) : Z :=
  match item with inl h => match m !! h with Some t => GetTxTime t | None => 0 end | inr e => ae_nTime e end.

Lemma latest_entry_spec m h tol items n :
  latest_entry m h tol items = Some n -> n <= tol /\ exists k item, (k, item) ∈ items /\ item_time m item = n.
Proof.
  induction items as [|[k item] items IH]; [done|]. cbn [latest_entry].
  case_bool_decide; [intros [Hn (k' & i' & Hin & Ht)]%IH; split; [done|]; exists k', i'; split; [by right|done]|].
  change (match item with inl h' => _ | inr e => _ end) with (item_time m item).
  destruct (Z.leb_spec (item_time m item) tol).
  - intros [= <-]. split; [done|]. exists k, item. split; [by left|done].
  - intros [Hn (k' & i' & Hin & Ht)]%IH. split; [done|]. exists k', i'. split; [by right|done].
Qed.

Lemma multi_insert_elem {A} k (v : A) l p : p ∈ multi_insert k v l -> p = (k, v) \/ p ∈ l.
Proof.
  induction l as [|[k' v'] l IH]; cbn [multi_insert]; [set_solver|]. destruct (k <? k'); [set_solver|].
  rewrite elem_of_cons. intros [->|[->|Hp]%IH]; set_solver.
Qed.
Lemma ordered_entry m a k e : (k, inr e) ∈ OrderedTxItems m a -> e ∈ ListAccountCreditDebit a.
Proof.
  unfold OrderedTxItems. set (txs := foldl _ [] (walk m)).
  assert (Ht : forall k e, (k, inr e) ∈ txs -> False).
  { unfold txs. generalize (walk m). intros l. assert (K0 : forall k e, (k, inr e : TxPair) ∈ ([] : list (Z * TxPair)) -> False) by set_solver.
    revert K0. generalize ([] : list (Z * TxPair)). induction l as [|p l IH]; intros acc Hacc k' e'; [apply Hacc|].
    cbn [foldl]. apply IH. intros k2 e2 [[=]|Hin]%multi_insert_elem. by eapply Hacc. }
  assert (G : forall es (acc : list (Z * TxPair)) k e, (k, inr e) ∈ foldl (fun l e => multi_insert (ae_nOrderPos e) (inr e) l) acc es ->
                (k, inr e) ∈ acc \/ e ∈ es).
  { intros es. induction es as [|x es IH]; intros acc k' e' Hin; [by left|]. cbn [foldl] in Hin.
    apply IH in Hin as [[[= -> ->]|Hin]%multi_insert_elem|Hin]; [right; left|by left|by right; right]. }
  intros [Hin|Hin]%G; [by apply Ht in Hin|done].
Qed.

Lemma smart_time_bounds m h received blocktime :
  0 <= received -> received + 300 < 2 ^ 32 ->
  (forall k t, m !! k = Some t -> 0 <= GetTxTime t) -> Forall (fun e => 0 <= ae_nTime e) (ListAccountCreditDebit []) ->
  Z.min blocktime received <= smart_time m h received blocktime <= received + 300.
Proof.
  intros Hr Hr' Ht He. unfold smart_time. rewrite (wrapu_small 32 (received + 300)) by (unfold in_u; lia).
  destruct (latest_entry m h (received + 300) _) as [n|] eqn:E; [|lia].
  apply latest_entry_spec in E as (Hn & k & item & Hin & <-).
  assert (H0' : 0 <= item_time m item).
  { destruct item as [k'|e]; cbn [item_time].
    - destruct (m !! k') as [t|] eqn:Ek; [by eapply Ht|lia].
    - rewrite list_elem_of_In, <-in_rev, <-list_elem_of_In in Hin. apply ordered_entry in Hin. rewrite Forall_forall in He. by apply He. }
  rewrite (wrapu_small 32 (item_time m item)) by (unfold in_u; lia). destruct (Z.ltb_spec received (item_time m item)); lia.
Qed.

(** A transaction that is new to the wallet is kept as it came, under its hash, behind all others in the order,
    with the current time as its time of receipt; when its block is not known this is also its time for display, else that
    time is not before the earlier of receipt and block, and at most five minutes after the receipt. *)
Theorem receive_tx_kept wtxIn b :
  let h := GetHash (tx_of wtxIn) in
  let now := u32 GetAdjustedTime in
  mapWallet b !! h = None -> now + 300 < 2 ^ 32 ->
  (forall k t, mapWallet b !! k = Some t -> 0 <= GetTxTime t) -> Forall (fun e => 0 <= ae_nTime e) (ListAccountCreditDebit []) ->
  exists t b', receive_tx wtxIn b = (Done tt, b') /\ mapWallet b' = <[h := t]> (mapWallet b) /\
    tx_of t = tx_of wtxIn /\ vfSpent t = vfSpent wtxIn /\ nTimeReceived t = now /\
    nOrderPos t = nOrderPosNext b /\ nOrderPosNext b' = s64 (nOrderPosNext b + 1) /\
    match mapBlockIndex !! hashBlock (merkle wtxIn) with
    | Some blocktime => hashBlock (merkle wtxIn) <> 0 -> Z.min blocktime now <= nTimeSmart t <= now + 300
    | None => nTimeSmart t = now
    end.
Proof.
  intros h now Hn Hnow Ht He. destruct (receive_tx_spec wtxIn b Hn) as (t & b' & Er & (R1 & R2 & R3 & R4) & Em & En & Hs & Hz).
  assert (H0' : 0 <= now) by (unfold now; pose proof (wrapu_range 32 GetAdjustedTime); unfold in_u in *; lia).
  exists t, b'. split_and!; try done. destruct (mapBlockIndex !! hashBlock (merkle wtxIn)) as [bt|] eqn:Eb.
  - intros Hb. destruct (Hs _ bt eq_refl Hb Eb) as (m & -> & ->). rewrite R4. apply smart_time_bounds; [done|done| |done].
    intros k t'. rewrite lookup_insert_Some. intros [[_ <-]|[_ Hk]]; [|by eapply Ht]. unfold GetTxTime. cbn. by destruct (_ =? 0).
  - rewrite Hz by by right. done.
Qed.

(** ** Amounts *)

Definition is_change b (o : CTxOut) : bool := IsChange (grouping_wallet b) o.
Definition pay (o : CTxOut) : option CTxDestination * Z := (ExtractDestination (scriptPubKey o), nValue o).
Definition total (l : list (option CTxDestination * Z)) : Z := foldr (fun p n => p.2 + n) 0 l.
Definition value_of (outs : list CTxOut) : Z := foldr (fun o n => nValue o + n) 0 outs.

(** The amounts shown for a transaction.  When the wallet has paid for it, fee, sent outputs and change add up to what was
    taken from the wallet, and received are the outputs to the wallet that are not change; else nothing was sent
    and there is no fee, and received are all outputs to the wallet. *)
Theorem GetAmounts_balance b t a :
  GetAmounts b t = Some a ->
  let nDebit := GetDebit_tx (mapWallet b) (tx_of t) in
  let outs := vout (tx_of t) in
  nDebit < 2 ^ 63 ->
  if 0 <? nDebit then
    nFee a + total (listSent a) + value_of (List.filter (is_change b) outs) = nDebit /\
    listSent a = pay <$> List.filter (fun o => negb (is_change b o)) outs /\
    listReceived a = pay <$> List.filter (fun o => negb (is_change b o) && IsMine_out o) outs
  else nFee a = 0 /\ listSent a = [] /\ listReceived a = pay <$> List.filter IsMine_out outs.
Proof.
  unfold GetAmounts. set (nDebit := GetDebit_tx _ _). intros Ha. cbn zeta. intros Hd.
  assert (K1 : forall outs, 0 < nDebit -> list_outs b nDebit outs =
    (pay <$> List.filter (fun o => negb (is_change b o) && IsMine_out o) outs, pay <$> List.filter (fun o => negb (is_change b o)) outs)).
  { intros outs Hpos. induction outs as [|o outs IH]; [done|]. cbn [list_outs List.filter]. rewrite IH.
    replace (0 <? nDebit) with true by lia. cbn [andb]. fold (is_change b o). destruct (is_change b o); [done|]. cbn [negb andb].
    by destruct (IsMine_out o). }
  assert (K2 : forall outs, nDebit <= 0 -> list_outs b nDebit outs = (pay <$> List.filter IsMine_out outs, [])).
  { intros outs Hneg. induction outs as [|o outs IH]; [done|]. cbn [list_outs List.filter]. rewrite IH.
    replace (0 <? nDebit) with false by lia. cbn [andb]. by destruct (IsMine_out o). }
  assert (K3 : forall outs, total (pay <$> List.filter (fun o => negb (is_change b o)) outs) + value_of (List.filter (is_change b) outs)
                       = foldr (fun o s => nValue o + s) 0 outs).
  { induction outs as [|o outs IH]; [done|]. cbn [List.filter foldr]. unfold total, value_of in *.
    destruct (is_change b o); cbn [negb fmap list_fmap foldr pay snd]; rewrite <-IH; ring. }
  destruct (Z.ltb_spec 0 nDebit) as [Hpos|Hneg].
  - rewrite K1 in Ha by done. destruct (GetValueOut (tx_of t)) as [n|] eqn:Ev; [|done]. cbn in Ha. injection Ha as <-.
    apply GetValueOut_spec in Ev as [En Hr]. cbn [nFee listSent listReceived]. split_and!; [|done|done].
    rewrite wraps_small by (try lia; unfold in_s; lia). specialize (K3 (vout (tx_of t))). lia.
  - rewrite K2 in Ha by lia. cbn in Ha. by injection Ha as <-.
Qed.

(** ** Supporting transactions *)

Definition weight (t : CMerkleTx) : nat := length (vin (base t)).

(** The transactions that can be looked up, with the hash they are found under. *)
Definition pool (m : gmap uint256 CWalletTx) : list (uint256 * nat) :=
  mjoin ((fun p : uint256 * CWalletTx => (p.1, weight (merkle p.2)) :: ((fun t => (GetHash (base t), weight t)) <$> vtxPrev p.2))
    <$> map_to_list m).

(** What those that have not been taken yet can still add to the queue. *)
Definition potential (l : list (uint256 * nat)) (done_ : gset uint256) : nat :=
  sum_list ((fun p : uint256 * nat => if bool_decide (p.1 ∈ done_) then 0%nat else p.2) <$> l).

Lemma potential_take l done_ h w :
  (h, w) ∈ l -> h ∉ done_ -> (potential l ({[h]} ∪ done_) + w <= potential l done_)%nat.
Proof.
  assert (Hmono : forall l, (potential l ({[h]} ∪ done_) <= potential l done_)%nat).
  { intros k. unfold potential. induction k as [|p k IH]; [done|]. cbn. repeat case_bool_decide; set_solver by lia. }
  intros Hin Hh. induction l as [|p l IH]; [by apply elem_of_nil in Hin|]. unfold potential in *. cbn.
  apply elem_of_cons in Hin as [<-|Hin].
  - cbn [fst snd]. rewrite bool_decide_eq_true_2 by set_solver. rewrite bool_decide_eq_false_2 by done. specialize (Hmono l). lia.
  - specialize (IH Hin). repeat case_bool_decide; set_solver by lia.
Qed.

Lemma pool_wallet m h wtx : m !! h = Some wtx -> (h, weight (merkle wtx)) ∈ pool m.
Proof.
  intros Hm. apply list_elem_of_join. exists ((h, weight (merkle wtx)) :: ((fun t => (GetHash (base t), weight t)) <$> vtxPrev wtx)).
  split; [left|]. apply list_elem_of_fmap. exists (h, wtx). split; [done|]. by apply elem_of_map_to_list.
Qed.
Lemma pool_prev m h wtx t : m !! h = Some wtx -> t ∈ vtxPrev wtx -> (GetHash (base t), weight t) ∈ pool m.
Proof.
  intros Hm Ht. apply list_elem_of_join. exists ((h, weight (merkle wtx)) :: ((fun t => (GetHash (base t), weight t)) <$> vtxPrev wtx)).
  split; [right; apply list_elem_of_fmap; by exists t|]. apply list_elem_of_fmap. exists (h, wtx). split; [done|]. by apply elem_of_map_to_list.
Qed.

Lemma support_loop_total fuel m queue prevs done_ acc :
  (forall h t, prevs !! h = Some t -> (h, weight t) ∈ pool m) ->
  (length queue + potential (pool m) done_ < fuel)%nat ->
  is_Some (support_loop fuel m queue prevs done_ acc).
Proof.
  revert queue prevs done_ acc. induction fuel as [|fuel IH]; intros queue prevs done_ acc Hp Hf; [lia|].
  cbn [support_loop]. destruct queue as [|h r]; [by eexists|]. cbn [length] in Hf. case_bool_decide as Hd.
  { apply IH; [done|lia]. }
  set (x := match m !! h with Some wtx => _ | None => _ end).
  assert (Hx : (forall h t, x.2 !! h = Some t -> (h, weight t) ∈ pool m) /\
               (weight x.1 + potential (pool m) ({[h]} ∪ done_) <= potential (pool m) done_)%nat).
  { unfold x. destruct (m !! h) as [wtx|] eqn:Em; cbn [fst snd]; split.
    - intros k t. assert (G : forall ts (p : gmap uint256 CMerkleTx), (forall h t, p !! h = Some t -> (h, weight t) ∈ pool m) -> (forall t, t ∈ ts -> t ∈ vtxPrev wtx) ->
        forall k t, foldl (fun p t => <[GetHash (base t) := t]> p) p ts !! k = Some t -> (k, weight t) ∈ pool m).
      { intros ts. induction ts as [|t' ts IHt]; intros p Hpp Hts; [exact Hpp|]. cbn [foldl]. apply IHt; [|set_solver].
        intros k' t2. rewrite lookup_insert_Some. intros [[<- <-]|[_ Hk]]; [|by apply Hpp]. eapply pool_prev; [exact Em|]. set_solver. }
      by apply (G (vtxPrev wtx) prevs Hp).
    - pose proof (potential_take (pool m) done_ h _ (pool_wallet m h wtx Em) Hd). lia.
    - done.
    - destruct (prevs !! h) as [t|] eqn:Et; cbn [default from_option].
      + pose proof (potential_take (pool m) done_ h _ (Hp h t Et) Hd). unfold id. lia.
      + unfold weight, id. rewrite CMerkleTx_new_base. cbn [vin CTransaction.SetNull length].
        assert (Hmono : forall l, (potential l ({[h]} ∪ done_) <= potential l done_)%nat); [|apply Hmono].
        intros k. unfold potential. induction k as [|p k IHk]; [done|]. cbn. repeat case_bool_decide; set_solver by lia. }
  destruct x as [tx prevs']. cbn [fst snd] in Hx. destruct Hx as [Hp' Hw].
  pose proof (SetMerkleBranch_base tx) as Hb. destruct (SetMerkleBranch tx) as [nDepth tx']. cbn [snd] in Hb.
  apply IH; [done|]. destruct (nDepth <? COPY_DEPTH); [|lia]. rewrite length_app. unfold prev_hashes. rewrite length_fmap, Hb.
  unfold weight in Hw. lia.
Qed.

Lemma potential_all m : potential (pool m) ∅ = sum_list ((fun x => length (vin (base x))) <$> all_known m).
Proof.
  unfold potential, pool, all_known. induction (map_to_list m) as [|p l IH]; [done|].
  cbn [fmap list_fmap mjoin list_join]. rewrite !fmap_app, !sum_list_with_app.
  f_equal; [|exact IH]. cbn [fmap list_fmap sum_list_with fst snd]. rewrite bool_decide_eq_false_2 by set_solver.
  f_equal. by rewrite <-list_fmap_compose.
Qed.

(** The search for supporting transactions ends: it takes every hash at most once, so that the queue gets at most the
    inputs of all transactions that can be looked up. *)
Theorem AddSupportingTransactions_total b t : is_Some (AddSupportingTransactions b t).
Proof.
  unfold AddSupportingTransactions. pose proof (SetMerkleBranch_base (merkle t)) as Hb.
  destruct (SetMerkleBranch (merkle t)) as [nDepth a]. cbn [snd] in Hb. destruct (nDepth <? COPY_DEPTH); [|by eexists].
  destruct (support_loop_total (support_fuel (mapWallet b) (set_merkle a t)) (mapWallet b) (prev_hashes (tx_of (set_merkle a t))) ∅ ∅ [])
    as [l ->]; [done| |by eexists].
  rewrite potential_all. unfold support_fuel, prev_hashes. rewrite length_fmap. lia.
Qed.
End Book.

(** ** Concrete wallets *)

Module Examples.
Import GroupingsThms.Examples.

#[local] Instance dests : Destinations := names.
#[local] Instance key_world : KeyWorld := KeyPoolThms.Examples.world 2.

Definition spent_at (v : list bool) (i : Z) : bool := (0 <=? i) && default false (v !! Z.to_nat i).
Fixpoint or_flags (v v' : list bool) : list bool :=
  match v, v' with a :: r, b :: r' => (a || b) :: or_flags r r' | [], _ => v' | _, [] => v end.
Definition mark (t : CWalletTx) (n : Z) : option (list bool) :=
  if (0 <=? n) && (n <? lenZ (vout (tx_of t))) then Some (or_flags (vfSpent t) (replicate (Z.to_nat n) false ++ [true])) else None.

Lemma or_flags_lookup v v' i : default false (or_flags v v' !! i) = default false (v !! i) || default false (v' !! i).
Proof. revert v' i. induction v as [|a v IH]; intros [|b v'] [|i]; cbn; rewrite ?orb_false_r; first [done|apply IH]. Qed.

Lemma spent_or_flags v v' i : spent_at (or_flags v v') i = spent_at v i || spent_at v' i.
Proof. unfold spent_at. rewrite or_flags_lookup. by destruct (0 <=? i). Qed.

Lemma mark_spec t n v : mark t n = Some v -> forall i, spent_at v i = spent_at (vfSpent t) i || (i =? n).
Proof.
  unfold mark. destruct (Z.leb_spec 0 n); [|done]. destruct (n <? _); [|done]. intros [= <-] i. rewrite spent_or_flags. f_equal.
  unfold spent_at. destruct (Z.leb_spec 0 i); [|symmetry; cbn; lia]. cbn [andb].
  destruct (Z.eqb_spec i n) as [->|]; [by rewrite list_lookup_middle by (by rewrite length_replicate)|].
  destruct (decide (i < n)).
  - rewrite lookup_app_l by (rewrite length_replicate; lia). by rewrite lookup_replicate_2 by lia.
  - rewrite lookup_ge_None_2; [done|]. rewrite length_app, length_replicate. cbn. lia.
Qed.

Definition in_block (h : uint256) (tx : CTransaction) : CMerkleTx := mkMerkleTx tx h [] (-1).
Definition kept (h : uint256) (smart : Z) (tx : CTransaction) : CWalletTx := mkWtx (in_block h tx) [] false [] 900 smart 0 [].
Definition sum_out (tx : CTransaction) : Z := foldr (fun o s => nValue o + s) 0 (vout tx).

(** The hash of a transaction is its lock time; keys below 10 are the wallet's; one block, at time 20000. *)
#[local] Instance book_world : BookWorld.
Proof.
  refine {|
    WalletBook.GetHash := nLockTime; GetHex h := [h]; WalletBook.IsSpent := spent_at; WalletBook.MarkSpent := mark;
    UpdateSpent v v' := (negb (bool_decide (or_flags v v' = v)), or_flags v v');
    IsMine_tx tx := existsb IsMine_out (vout tx);
    IsFromMe m tx := existsb (fun i => bool_decide (is_Some (m !! hash (prevout i)))) (vin tx);
    GetDebit_tx m tx := foldr (fun i s => Groupings.GetDebit (Groupings.mkWallet ((fun p : uint256 * CWalletTx => (p.1, tx_of p.2)) <$> map_to_list m) ∅) i + s) 0 (vin tx);
    WalletBook.GetValueOut tx := if (0 <=? sum_out tx) && (sum_out tx <? 2 ^ 63) then Some (sum_out tx) else None;
    IsFinalTx _ := true; IsConfirmed _ := true; GetBlocksToMaturity _ := 0;
    GetDepthInMainChain t := if hashBlock t =? 0 then 0 else 1;
    SetMerkleBranch t := (0, t); SetMerkleBranch_block t n := mkMerkleTx (base t) 5 [] (Z.of_nat n);
    CMerkleTx_new := in_block 0 CTransaction.SetNull; CWalletTx_of := kept 0 0;
    mapBlockIndex := {[5 := 20000]}; main_chain := [(20000, [mkTx 1 [spends 100 0] [pays 2 40] 300])];
    GetAdjustedTime := 1000; WalletBook.GetTime _ := 1000; GetRand_1800 := 10; nTimeBestReceived := 1000;
    ListAccountCreditDebit _ := [mkEntry 7 2000]; script_of_key k := [k]; dest_of_key k := k;
    WalletBook.AcceptToMemoryPool _ := true; GetCoins_tip h := None; fHaveGUI := false; fFileBacked_book := true;
    walletnotify := []; disk_book _ := true |}; try done.
  - by destruct i.
  - apply mark_spec.
  - intros t n. unfold mark. destruct (Z.leb_spec 0 n), (Z.ltb_spec n (lenZ (vout (tx_of t)))); cbn [andb]; split; try lia; try (by intros [? [=]]); by eexists.
  - intros t n. destruct (Z.leb_spec 0 (sum_out t)), (Z.ltb_spec (sum_out t) (2 ^ 63)); cbn; try done. intros [= <-]. split; [done|lia].
  - intros. apply spent_or_flags.
Defined.

Definition coins_tx : CTransaction := mkTx 1 [spends 7 0] [pays 1 50; pays 3 20] 100.
Definition book : Book :=
  {| mapWallet := {[100 := kept 5 1100 coins_tx]}; WalletBook.nOrderPosNext := 1; mapAddressBook := {[1 := []]}; mapRequestCount := ∅;
     keys := KeyPoolThms.fresh_wallet; events := [] |}.

Definition pay_20 : CWalletTx := kept 0 0 (mkTx 1 [spends 100 0] [pays 20 40; pays 2 10] 200).

Lemma Wallet_stays_spent_witness :
  (CommitTransaction pay_20 1 book).1 = Done true /\ input_spent (CommitTransaction pay_20 1 book).2 (spends 100 0).
Proof.
  assert (E : (CommitTransaction pay_20 1 book).1 = Done true) by by vm_compute.
  split; [exact E|].
  destruct (Wallet_stays_spent pay_20 (tx_of pay_20) 200 None false 0 1 book) as (_ & _ & _ & _ & _ & Hs).
  exact (Forall_inv (Hs true E)).
Defined.

Lemma receive_tx_kept_witness :
  exists t b', receive_tx (kept 5 0 (mkTx 1 [spends 100 1] [pays 2 15] 200)) book = (Done tt, b') /\
    mapWallet b' = <[200 := t]> (mapWallet book) /\ nOrderPos t = 1 /\ 1000 <= nTimeSmart t <= 1300.
Proof.
  destruct (receive_tx_kept (kept 5 0 (mkTx 1 [spends 100 1] [pays 2 15] 200)) book) as (t & b' & Hr & Hm & _ & _ & _ & Hp & _ & Hs).
  - by vm_compute.
  - done.
  - intros k t Hk. cbn in Hk. apply lookup_singleton_Some in Hk as [<- <-]. done.
  - by repeat constructor.
  - destruct (mapBlockIndex !! _) as [n|] eqn:En in Hs; [|by vm_compute in En].
    assert (n = 20000) as -> by (vm_compute in En; congruence).
    exists t, b'. split; [exact Hr|]. split; [exact Hm|]. split; [exact Hp|]. apply Hs. done.
Defined.

Lemma GetAmounts_balance_witness :
  exists a, GetAmounts book (kept 0 0 (mkTx 1 [spends 100 0] [pays 20 40; pays 2 8] 200)) = Some a /\
    nFee a = 2 /\ listSent a = [(Some 20, 40)] /\ listReceived a = [].
Proof.
  set (t := kept 0 0 (mkTx 1 [spends 100 0] [pays 20 40; pays 2 8] 200)).
  destruct (GetAmounts book t) as [a|] eqn:E; [|by vm_compute in E]. exists a. split; [done|].
  pose proof (GetAmounts_balance book t a E ltac:(by vm_compute)) as H.
  assert (Hd : (0 <? GetDebit_tx (mapWallet book) (tx_of t)) = true) by by vm_compute. rewrite Hd in H.
  destruct H as (Hf & Hs & Hr). split_and!; [|by rewrite Hs; vm_compute|by rewrite Hr; vm_compute].
  rewrite Hs in Hf. set (sent := total _) in Hf. set (change := value_of _) in Hf.
  assert (sent = 40) by by vm_compute. assert (change = 8) by by vm_compute.
  assert (GetDebit_tx (mapWallet book) (tx_of t) = 50) by by vm_compute. lia.
Defined.

(** A payment that spends an output of a transaction the wallet does not know. *)
Definition foreign : CWalletTx := kept 0 0 (mkTx 1 [spends 999 0] [pays 20 40] 200).

(** The empty transaction is taken for a supporting one, and announced. *)
Example empty_supporting_transaction :
  (t ← AddSupportingTransactions book foreign; Some (base <$> vtxPrev t, events (RelayWalletTransaction t book).2)) =
  Some ([CTransaction.SetNull], [EvRelay 0; EvRelay 200]).
Proof. by vm_compute. Qed.

(** The chain spends the output 0 of the transaction 100 in a transaction that pays to the wallet. *)
Example reaccept_finds :
  let out := ReacceptWalletTransactions 2 book in
  out.1 = Done true /\ fmap vfSpent (mapWallet out.2 !! 100) = Some [true; true] /\ fmap vfSpent (mapWallet out.2 !! 300) = Some [true].
Proof. by vm_compute. Qed.
End Examples.
