(* ===== verification/Accounts.v ===== *)
(** The accounting entries of the wallet and the order of its records: [CWalletDB::ReadAccount], [WriteAccountingEntry],
    [ListAccountCreditDebit], [GetAccountCreditDebit] and [ReorderTransactions] of src/walletdb.cpp.

    A cursor of the data base is what Db.v makes of it: the records in the order of their keys, and the code behind the
    last one.  walletdb.h and serialize.h are not in the tree.  Parameters (class [Stream]): the format of texts and of
    numbers, and what is read of the value of an entry.  What is written is recorded in [writes]; [disk n] tells whether
    the n-th write succeeds. *)

From S2P Require Import Prelude Monad Core.
From S2P Require Db WalletBook.

Import Db(string_leb).

Record CAccountingEntry := mkAcentry {
  strAccount : bytes; nEntryNo : Z; nCreditDebit : Z; nTime : Z; strOtherAccount : bytes; nOrderPos : Z }.
Definition set_no n e := mkAcentry (strAccount e) n (nCreditDebit e) (nTime e) (strOtherAccount e) (nOrderPos e).
Definition set_pos n e := mkAcentry (strAccount e) (nEntryNo e) (nCreditDebit e) (nTime e) (strOtherAccount e) n.
Definition of_account (a : bytes) : CAccountingEntry := mkAcentry a 0 0 0 [] (-1).

Class Stream := {
  write_string : bytes -> bytes;
  read_string : bytes -> option (bytes * bytes);       (* [None]: it throws *)
  write_u64 : Z -> bytes;
  read_u64 : bytes -> option (Z * bytes);
  read_acentry : CAccountingEntry -> bytes -> option CAccountingEntry;
  read_write_string s r : lenZ s < 2 ^ 25 -> read_string (write_string s ++ r) = Some (s, r);
  read_write_u64 n r : in_u 64 n -> read_u64 (write_u64 n ++ r) = Some (n, r);
  write_u64_least n : string_leb (write_u64 0) (write_u64 n) = true;
  write_string_least s r r' : s <> [] -> string_leb (write_string [] ++ r) (write_string s ++ r') = true;
  read_acentry_account e v e' : read_acentry e v = Some e' -> strAccount e' = strAccount e;
}.

Section Accounts.
Context `{Stream}.

(** A cursor: the records, and what it returns behind them. *)
Abbreviation Cursor := (list (bytes * bytes) * Z)%type.

Definition acentry_key (a : bytes) (n : Z) : bytes := write_string (lit "acentry") ++ write_string a ++ write_u64 n.

(** [DB_SET_RANGE]: from the first key that is not less. *)
Definition set_range (start : bytes) (rs : list (bytes * bytes)) : list (bytes * bytes) :=
  filter (fun r => string_leb start r.1 = true) rs.

Context (DB_NOTFOUND : Z).

(** The loop; [None]: it throws. *)
Fixpoint list_loop (fAllAccounts : bool) (a : bytes) (rs : list (bytes * bytes)) (ending : Z) (entries : list CAccountingEntry)
    : option (list CAccountingEntry) :=
  match rs with
  | [] => if ending =? DB_NOTFOUND then Some entries else None
  | (k, v) :: rs' =>
    '(strType, k) ← read_string k;
    if negb (bool_decide (strType = lit "acentry")) then Some entries
    else
      '(b, k) ← read_string k;
      if negb fAllAccounts && negb (bool_decide (b = a)) then Some entries
      else
        e ← read_acentry (of_account b) v;
        '(n, _) ← read_u64 k;
        list_loop fAllAccounts a rs' ending (entries ++ [set_no n e])
  end.

Definition ListAccountCreditDebit (a : bytes) (cursor : option Cursor) : option (list CAccountingEntry) :=
  let fAllAccounts := bool_decide (a = lit "*") in
  '(rs, ending) ← cursor;
  list_loop fAllAccounts a (set_range (acentry_key (if fAllAccounts then [] else a) 0) rs) ending [].

Definition GetAccountCreditDebit (a : bytes) (cursor : option Cursor) : option Z :=
  entries ← ListAccountCreditDebit a cursor;
  Some (fold_left (fun n e => s64 (n + nCreditDebit e)) entries 0).

(** ** The order of the transactions and the entries *)

Inductive Item := ItTx (h : uint256) | ItEntry (e : CAccountingEntry).
Inductive WriteCall := WriteTx (h : uint256) (nOrderPos : Z) | WriteAccountingEntry (e : CAccountingEntry).

Record Ordering := mkOrdering {
  mapWallet : gmap uint256 WalletBook.CWalletTx; nOrderPosNext : Z; writes : list WriteCall }.

Context (disk : nat -> bool).

Inductive DBErrors := DB_LOAD_OK | DB_CORRUPT | DB_NONCRITICAL_ERROR | DB_TOO_NEW | DB_LOAD_FAIL | DB_NEED_REWRITE.

Definition by_time (m : gmap uint256 WalletBook.CWalletTx) (acentries : list CAccountingEntry) : list (Z * Item) :=
  let txs := foldl (fun l p => WalletBook.multi_insert (WalletBook.nTimeReceived p.2) (ItTx p.1) l) [] (WalletBook.walk m) in
  foldl (fun l e => WalletBook.multi_insert (nTime e) (ItEntry e) l) txs acentries.

Definition write (c : WriteCall) (s : Ordering) : bool * Ordering :=
  (disk (length (writes s)), mkOrdering (mapWallet s) (nOrderPosNext s) (writes s ++ [c])).

Definition pos_of (s : Ordering) (i : Item) : Z :=
  match i with
  | ItTx h => match mapWallet s !! h with Some t => WalletBook.nOrderPos t | None => 0 end
  | ItEntry e => nOrderPos e
  end.
(** [nOrderPos] is a reference: the transaction changes in the wallet, the entry in the list that is written from. *)
Definition assign (i : Item) (n : Z) (s : Ordering) : Item * Ordering :=
  match i with
  | ItTx h => (i, mkOrdering (alter (WalletBook.set_pos n) h (mapWallet s)) (nOrderPosNext s) (writes s))
  | ItEntry e => (ItEntry (set_pos n e), s)
  end.
Definition set_next (n : Z) (s : Ordering) : Ordering := mkOrdering (mapWallet s) n (writes s).

Definition offset (nOrderPos : Z) (nOrderPosOffsets : list Z) : Z := lenZ (filter (fun o => o <= nOrderPos) nOrderPosOffsets).

(** One round of the loop: whether a write has failed, the offsets and the state. *)
Definition reorder_item (i : Item) (offsets : list Z) (s : Ordering) : bool * list Z * Ordering :=
  let p := pos_of s i in
  if p =? -1 then
    let p := nOrderPosNext s in
    let s := set_next (s64 (p + 1)) s in
    let '(i, s) := assign i p s in
    let offsets := offsets ++ [p] in
    match i with
    | ItEntry e => let '(ok, s) := write (WriteAccountingEntry e) s in (negb ok, offsets, s)
    | ItTx _ => (false, offsets, s)
    end
  else
    let nOrderPosOff := offset p offsets in
    let p := s64 (p + nOrderPosOff) in
    let '(i, s) := assign i p s in
    let s := set_next (Z.max (nOrderPosNext s) (s64 (p + 1))) s in
    if nOrderPosOff =? 0 then (false, offsets, s)
    else
      let '(ok, s) := write (match i with ItTx h => WriteTx h p | ItEntry e => WriteAccountingEntry e end) s in
      (negb ok, offsets, s).

Fixpoint reorder_loop (items : list Item) (offsets : list Z) (s : Ordering) : DBErrors * Ordering :=
  match items with
  | [] => (DB_LOAD_OK, s)
  | i :: r =>
    let '(failed, offsets, s) := reorder_item i offsets s in
    if (failed : bool) then (DB_LOAD_FAIL, s) else reorder_loop r offsets s
  end.

(** [None]: the entries could not be read, which throws. *)
Definition ReorderTransactions (cursor : option Cursor) (s : Ordering) : option (DBErrors * Ordering) :=
  acentries ← ListAccountCreditDebit [] cursor;
  Some (reorder_loop (snd <$> by_time (mapWallet s) acentries) [] (set_next 0 s)).
End Accounts.

(** ** Names, accounts and entries *)

Section Records.
Context `{Stream} `{Db.Berkeley}.

(** The data base, and two counters that are static. *)
Record WalletDB := mkWalletDB { nWalletDBUpdated : Z; nAccountingEntryNumber : Z; env : Db.Env }.

Definition on_env {A} (m : X Db.Env A) : X WalletDB A :=
  fun s => let '(o, e) := m (env s) in (o, mkWalletDB (nWalletDBUpdated s) (nAccountingEntryNumber s) e).
Definition updated : X WalletDB unit :=
  X.modify (fun s => mkWalletDB (u32 (nWalletDBUpdated s + 1)) (nAccountingEntryNumber s) (env s)).

Definition name_key (strAddress : bytes) : bytes := write_string (lit "name") ++ write_string strAddress.
Definition account_key (a : bytes) : bytes := write_string (lit "acc") ++ write_string a.

(** [o] is the object. *)
Definition WriteName (o : nat) (strAddress strName : bytes) : X WalletDB bool :=
  updated ;~ on_env (Db.Write o (name_key strAddress) (write_string strName) true).
Definition EraseName (o : nat) (strAddress : bytes) : X WalletDB bool :=
  updated ;~ on_env (Db.Erase o (name_key strAddress)).

(** An account, what [SetNull] makes of it, and its format. *)
Context {CAccount : Type} (SetNull : CAccount) (parse_account : bytes -> option CAccount) (write_account : CAccount -> bytes).
Definition ReadAccount (o : nat) (a : bytes) : X WalletDB (bool * CAccount) :=
  on_env (r <~ Db.Read o (account_key a) parse_account ;; X.ret (r.1, default SetNull r.2)).
Definition WriteAccount (o : nat) (a : bytes) (account : CAccount) : X WalletDB bool :=
  on_env (Db.Write o (account_key a) (write_account account) true).

Context (write_entry : CAccountingEntry -> bytes).
Definition WriteAccountingEntry_at (o : nat) (nAccEntryNum : Z) (acentry : CAccountingEntry) : X WalletDB bool :=
  on_env (Db.Write o (acentry_key (strAccount acentry) nAccEntryNum) (write_entry acentry) true).
(** A new entry gets the next number. *)
Definition WriteNewAccountingEntry (o : nat) (acentry : CAccountingEntry) : X WalletDB bool :=
  n <~ X.gets (fun s => u64 (nAccountingEntryNumber s + 1)) ;;
  X.modify (fun s => mkWalletDB (nWalletDBUpdated s) n (env s)) ;~
  WriteAccountingEntry_at o n acentry.
End Records.

#[global] Instance DBErrors_eq_dec : EqDecision DBErrors.
Proof. solve_decision. Defined.
