(* ===== verification/AccountsThms.v ===== *)
(** Theorems on the accounting entries and the order of the wallet (Accounts.v). *)

From stdpp Require Import sorting.
From S2P Require Import Prelude Core Digits UtilThms Accounts.
From S2P Require Db WalletBook.
Import Db(string_leb).

(** ** The order of texts *)

Lemma string_leb_refl a : string_leb a a = true.
Proof. induction a as [|x a IH]; cbn; [done|]. by rewrite Z.eqb_refl, IH, orb_true_r. Qed.
Lemma string_leb_cons x y a b : string_leb (x :: a) (y :: b) = true <-> x < y \/ (x = y /\ string_leb a b = true).
Proof. cbn. rewrite orb_true_iff, andb_true_iff, Z.ltb_lt, Z.eqb_eq. done. Qed.
Lemma string_leb_trans a b c : string_leb a b = true -> string_leb b c = true -> string_leb a c = true.
Proof.
  revert b c. induction a as [|x a IH]; intros [|y b] [|z c]; try done.
  rewrite !string_leb_cons. intros [?|[-> H1]] [?|[-> H2]]; [left; lia|left; lia|left; lia|right].
  split; [done|]. by eapply IH.
Qed.
Lemma string_leb_app p a b : string_leb (p ++ a) (p ++ b) = string_leb a b.
Proof. induction p as [|x p IH]; cbn; [done|]. by rewrite Z.ltb_irrefl, Z.eqb_refl. Qed.

(** The texts that begin with [p] lie next to each other. *)
Lemma prefix_between p a b c : p `prefix_of` a -> p `prefix_of` c ->
  string_leb a b = true -> string_leb b c = true -> p `prefix_of` b.
Proof.
  intros [a' ->] [c' ->]. revert b. induction p as [|x p IH]; intros b Ha Hc; [apply prefix_nil|].
  destruct b as [|y b]; [done|]. cbn [app] in *. rewrite string_leb_cons in Ha, Hc.
  assert (x = y) as <- by lia. apply prefix_cons, IH.
  - destruct Ha as [?|[_ ?]]; [lia|done].
  - destruct Hc as [?|[_ ?]]; [lia|done].
Qed.

Lemma filter_none {A} (P : A -> Prop) `{!forall x, Decision (P x)} l : (forall x, x ∈ l -> ~ P x) -> filter P l = [].
Proof.
  induction l as [|x l IH]; intros Hl; [done|]. rewrite filter_cons_False by (apply Hl; set_solver). apply IH. set_solver.
Qed.
Lemma Forall_filter {A} (Q P : A -> Prop) `{!forall x, Decision (P x)} l : Forall Q l -> Forall Q (filter P l).
Proof. rewrite !Forall_forall. intros Hl x [_ Hx]%list_elem_of_filter. auto. Qed.
Lemma StronglySorted_filter {A} (R : A -> A -> Prop) (P : A -> Prop) `{!forall x, Decision (P x)} l :
  StronglySorted R l -> StronglySorted R (filter P l).
Proof.
  induction 1 as [|x l Hl IH Hx]; [constructor|]. destruct (decide (P x)).
  - rewrite filter_cons_True by done. constructor; [done|]. by apply Forall_filter.
  - by rewrite filter_cons_False.
Qed.

Section Accounts.
Context `{Stream} (DB_NOTFOUND : Z).
Implicit Types (rs : list (bytes * bytes)).

(** ** The entries of an account *)

(** The entry a record holds. *)
Definition entry_of (r : bytes * bytes) : option CAccountingEntry :=
  '(t, k) ← read_string r.1;
  if bool_decide (t = lit "acentry") then
    '(a, k) ← read_string k; e ← read_acentry (of_account a) r.2; '(n, _) ← read_u64 k; Some (set_no n e)
  else None.

(** A data base: the keys ascend, every key begins with a readable type, and the records of the type acentry are entries. *)
Definition entry_record (r : bytes * bytes) : Prop :=
  exists t k, read_string r.1 = Some (t, k) /\
    (t = lit "acentry" -> exists a n e, lenZ a < 2 ^ 25 /\ in_u 64 n /\ r.1 = acentry_key a n /\ read_acentry (of_account a) r.2 = Some e).
Definition ascending rs : Prop := StronglySorted (fun r r' => string_leb r.1 r'.1 = true) rs.

Lemma entry_of_key a n v e : lenZ a < 2 ^ 25 -> in_u 64 n -> read_acentry (of_account a) v = Some e ->
  entry_of (acentry_key a n, v) = Some (set_no n e).
Proof.
  intros Ha Hn He. unfold entry_of, acentry_key. cbn. rewrite read_write_string by done. cbn. rewrite bool_decide_true by done.
  rewrite read_write_string by done. cbn. rewrite He. cbn. rewrite <-(app_nil_r (write_u64 n)), read_write_u64 by done. done.
Qed.

(** The records the loop goes through. *)
Definition wanted (all : bool) (a : bytes) (r : bytes * bytes) : bool :=
  match entry_of r with Some e => all || bool_decide (strAccount e = a) | None => false end.
Definition start (all : bool) (a : bytes) : bytes := acentry_key (if all then [] else a) 0.
Definition common (all : bool) (a : bytes) : bytes := write_string (lit "acentry") ++ (if all then [] else write_string a).

Lemma wanted_key all a r : entry_record r -> wanted all a r = true ->
  string_leb (start all a) r.1 = true /\ common all a `prefix_of` r.1.
Proof.
  intros (t & k & Hr & He) Hw. unfold wanted in Hw. destruct (entry_of r) as [e|] eqn:E; [|done].
  unfold entry_of in E. rewrite Hr in E. cbn in E.
  destruct (decide (t = lit "acentry")) as [Ht|Ht]; [|by rewrite bool_decide_false in E]. destruct (He Ht) as (b & n & e' & Hb & Hn & Hk & Hv).
  destruct r as [k' v]. cbn [fst snd] in *. subst k'. assert (e = set_no n e') as ->.
  { pose proof (entry_of_key b n v e' Hb Hn Hv) as E2. unfold entry_of in E2. cbn in E2. rewrite Hr in E2. cbn in E2.
    rewrite bool_decide_true in E, E2 by done. rewrite E in E2. by injection E2. }
  cbn in Hw. rewrite (read_acentry_account _ _ _ Hv) in Hw. cbn in Hw. unfold start, common, acentry_key. destruct all; cbn [orb] in Hw.
  - split; [|rewrite app_nil_r; apply prefix_app_r; reflexivity]. rewrite string_leb_app. destruct (decide (b = [])) as [->|Hne].
    + rewrite string_leb_app. apply write_u64_least.
    + by apply write_string_least.
  - apply bool_decide_eq_true in Hw as ->. split; [rewrite !string_leb_app; apply write_u64_least|].
    rewrite app_assoc. apply prefix_app_r. reflexivity.
Qed.

(** A record of the type acentry with the common beginning is wanted. *)
Lemma common_wanted all a r : lenZ a < 2 ^ 25 -> entry_record r -> common all a `prefix_of` r.1 -> wanted all a r = true.
Proof.
  intros Ha (t & k & Hr & He) [k' Hp]. destruct r as [key v]. cbn [fst snd] in *. unfold common in Hp.
  rewrite Hp, <-app_assoc, read_write_string in Hr by done. injection Hr as <- <-.
  destruct (He eq_refl) as (b & n & e & Hb & Hn & Hk & Hv). unfold wanted. rewrite Hk, (entry_of_key b n v e Hb Hn Hv). cbn.
  rewrite (read_acentry_account _ _ _ Hv). cbn. destruct all; [done|]. cbn. apply bool_decide_eq_true.
  rewrite Hp in Hk. unfold acentry_key in Hk. rewrite <-app_assoc in Hk. apply app_inv_head in Hk.
  change (write_string a ++ k' = write_string b ++ write_u64 n) in Hk.
  pose proof (read_write_string b (write_u64 n) Hb) as Eb. rewrite <-Hk, read_write_string in Eb by done. congruence.
Qed.

Lemma list_loop_step all a k v rs e acc : entry_record (k, v) -> list_loop DB_NOTFOUND all a ((k, v) :: rs) e acc =
  if wanted all a (k, v) then match entry_of (k, v) with Some x => list_loop DB_NOTFOUND all a rs e (acc ++ [x]) | None => None end
  else Some acc.
Proof.
  intros (t & k' & Hr & He). cbn [list_loop fst snd] in *. rewrite Hr. cbn.
  destruct (decide (t = lit "acentry")) as [Ht|Ht].
  - destruct (He Ht) as (b & n & x & Hb & Hn & -> & Hv). unfold wanted. rewrite (entry_of_key b n v x Hb Hn Hv). cbn.
    rewrite (read_acentry_account _ _ _ Hv). cbn. rewrite (bool_decide_true (t = _)) by done. cbn.
    unfold acentry_key in Hr. rewrite read_write_string in Hr by done. injection Hr as _ <-.
    rewrite read_write_string by done. cbn. destruct all; [|case_bool_decide; [|done]]; cbn;
      rewrite Hv; cbn; rewrite <-(app_nil_r (write_u64 n)), read_write_u64 by done; done.
  - rewrite bool_decide_false by done. cbn. unfold wanted, entry_of. cbn. rewrite Hr. cbn. by rewrite bool_decide_false by done.
Qed.

Lemma list_loop_spec all a rs acc : lenZ a < 2 ^ 25 -> Forall entry_record rs -> ascending rs ->
  (forall r, r ∈ rs -> string_leb (start all a) r.1 = true) ->
  list_loop DB_NOTFOUND all a rs DB_NOTFOUND acc = Some (acc ++ omap entry_of (filter (fun r => wanted all a r = true) rs)).
Proof.
  intros Ha Hrs. revert acc. induction Hrs as [|[k v] rs Hr Hrs IH]; intros acc Hs Hst.
  { cbn. by rewrite Z.eqb_refl, app_nil_r. }
  apply StronglySorted_inv in Hs as [Hs Hle].
  etransitivity; [by apply list_loop_step|]. destruct (wanted all a (k, v)) eqn:Hw.
  - rewrite filter_cons_True by done. cbn [omap list_omap]. pose proof Hw as Hw'. unfold wanted in Hw'.
    destruct (entry_of (k, v)) as [x|]; [|done]. rewrite IH by (done || (intros r Hin; apply Hst; set_solver)). by rewrite <-app_assoc.
  - rewrite filter_cons_False by (by rewrite Hw). replace (filter _ rs) with (@nil (bytes * bytes)); [by rewrite app_nil_r|].
    symmetry. apply filter_none. intros r Hin Hwr. rewrite Forall_forall in Hrs, Hle.
    destruct (wanted_key all a r (Hrs r Hin) Hwr) as [_ Hp].
    assert (Hpk : common all a `prefix_of` k).
    { apply (prefix_between _ (start all a) k r.1); [|exact Hp|apply (Hst (k, v)); set_solver|by apply (Hle r)].
      unfold start, common, acentry_key. destruct all; rewrite ?app_nil_r, ?app_assoc;
        repeat first [reflexivity|apply prefix_app_r]. }
    by rewrite (common_wanted all a (k, v) Ha Hr Hpk) in Hw.
Qed.

(** C34 The entries of an account are read exactly, each once and in the order of their keys, whatever other records
    the data base holds, and for the account "*" all entries; unless the cursor is refused or fails, which throws. *)
Theorem ListAccountCreditDebit_spec a rs : lenZ a < 2 ^ 25 -> Forall entry_record rs -> ascending rs ->
  ListAccountCreditDebit DB_NOTFOUND a (Some (rs, DB_NOTFOUND)) =
    Some (filter (fun e => a = lit "*" \/ strAccount e = a) (omap entry_of rs)).
Proof.
  intros Ha Hrs Hs. unfold ListAccountCreditDebit. cbn [mbind option_bind].
  assert (Hall : bool_decide (a = lit "*") = true <-> a = lit "*") by apply bool_decide_eq_true.
  revert Hall. generalize (bool_decide (a = lit "*")). generalize (lit "*"). intros star all Hall.
  change (acentry_key (if all then [] else a) 0) with (start all a). unfold set_range.
  rewrite list_loop_spec; [|done|by apply Forall_filter|by apply StronglySorted_filter|].
  2: { intros r Hin. by apply list_elem_of_filter in Hin as [? _]. }
  cbn [app]. f_equal. rewrite list_filter_filter.
  induction Hrs as [|r rs Hr Hrs IH]; [done|]. apply StronglySorted_inv in Hs as [Hs _]. specialize (IH Hs).
  assert (Hw' : wanted all a r = true -> string_leb (start all a) r.1 = true) by (intros Hw; by apply wanted_key).
  destruct (wanted all a r) eqn:Hw.
  - rewrite filter_cons_True by auto. cbn [omap list_omap]. unfold wanted in Hw.
    destruct (entry_of r) as [e|]; [|done]. rewrite filter_cons_True; [by rewrite IH|].
    apply orb_true_iff in Hw as [Hw|Hw]; [tauto|]. apply bool_decide_eq_true in Hw. tauto.
  - rewrite filter_cons_False by (intros [? ?]; congruence). cbn [omap list_omap]. unfold wanted in Hw.
    destruct (entry_of r) as [e|]; [|done]. rewrite filter_cons_False; [done|].
    apply orb_false_iff in Hw as [H1 H2]. apply bool_decide_eq_false in H2. intros [E|E]; [|done]. apply Hall in E. congruence.
Qed.
End Accounts.

(** ** The order of the wallet *)

Section Order.
Context (disk : nat -> bool).
Implicit Types (s : Ordering) (m : gmap uint256 WalletBook.CWalletTx) (items : list Item).

Lemma multi_insert_perm {A} k (v : A) l : WalletBook.multi_insert k v l ≡ₚ (k, v) :: l.
Proof.
  induction l as [|[k' v'] l IH]; cbn; [done|]. destruct (k <? k'); [done|]. rewrite IH. apply Permutation_swap.
Qed.
Lemma multi_insert_sorted {A} k (v : A) l : StronglySorted Z.le l.*1 -> StronglySorted Z.le (WalletBook.multi_insert k v l).*1.
Proof.
  induction l as [|[k' v'] l IH]; cbn; [intros _; repeat constructor|]. intros Hs. apply StronglySorted_inv in Hs as Hs'. destruct Hs' as [Hl Hk].
  destruct (Z.ltb_spec k k'); cbn.
  - constructor; [done|]. constructor; [lia|]. eapply Forall_impl; [exact Hk|]. cbn. lia.
  - constructor; [by apply IH|]. rewrite (multi_insert_perm k v l). cbn. constructor; [lia|done].
Qed.
Lemma foldl_insert {A B} (key : B -> Z) (val : B -> A) bs l : StronglySorted Z.le l.*1 ->
  let l' := foldl (fun l b => WalletBook.multi_insert (key b) (val b) l) l bs in
  l' ≡ₚ l ++ ((fun b => (key b, val b)) <$> bs) /\ StronglySorted Z.le l'.*1.
Proof.
  revert l. induction bs as [|b bs IH]; intros l Hl; cbn; [by rewrite app_nil_r|].
  destruct (IH (WalletBook.multi_insert (key b) (val b) l) (multi_insert_sorted _ _ _ Hl)) as [IHp IHs]. split; [|done].
  rewrite IHp, multi_insert_perm. cbn. by rewrite <-Permutation_middle.
Qed.

(** The transactions of the wallet and the entries, in the order of their times. *)
Lemma by_time_spec m es :
  by_time m es ≡ₚ ((fun p => (WalletBook.nTimeReceived p.2, ItTx p.1)) <$> map_to_list m) ++ ((fun e => (nTime e, ItEntry e)) <$> es) /\
  StronglySorted Z.le (by_time m es).*1.
Proof.
  unfold by_time.
  destruct (foldl_insert (fun p : uint256 * WalletBook.CWalletTx => WalletBook.nTimeReceived p.2) (fun p => ItTx p.1) (WalletBook.walk m) [])
    as [Hp Hs]; [constructor|].
  destruct (foldl_insert nTime ItEntry es _ Hs) as [Hp' Hs']. split; [|done]. rewrite Hp', Hp. cbn. f_equiv.
  apply fmap_Permutation, merge_sort_Permutation.
Qed.

(** The transactions among the items. *)
Definition item_tx (i : Item) : option uint256 := match i with ItTx h => Some h | ItEntry _ => None end.
Definition txs_of items : list uint256 := omap item_tx items.

Lemma by_time_txs m es : txs_of (by_time m es).*2 ≡ₚ (map_to_list m).*1.
Proof.
  destruct (by_time_spec m es) as [Hp _]. unfold txs_of. rewrite Hp, fmap_app, omap_app, <-!list_fmap_compose.
  assert (E : omap item_tx (snd ∘ (fun e => (nTime e, ItEntry e)) <$> es) = []) by (clear Hp; induction es as [|e es IHes]; [done|exact IHes]).
  rewrite E, app_nil_r. clear E Hp. induction (map_to_list m) as [|p l IH]; [done|]. apply (Permutation_skip p.1), IH.
Qed.
Lemma by_time_nodup m es : NoDup (txs_of (by_time m es).*2).
Proof. rewrite by_time_txs. apply NoDup_fst_map_to_list. Qed.

Definition no_failure : Prop := forall n, disk n = true.

(** What is written for entries that get the positions from [n] on. *)
Fixpoint entries_written (n : Z) items : list WriteCall :=
  match items with
  | [] => []
  | ItEntry e :: r => WriteAccountingEntry (set_pos n e) :: entries_written (n + 1) r
  | ItTx _ :: r => entries_written (n + 1) r
  end.

Lemma reorder_fresh items offsets s : no_failure -> NoDup (txs_of items) ->
  (forall i, i ∈ items -> pos_of s i = -1) -> 0 <= nOrderPosNext s -> nOrderPosNext s + lenZ items < 2 ^ 63 ->
  exists s', reorder_loop disk items offsets s = (DB_LOAD_OK, s') /\
    nOrderPosNext s' = nOrderPosNext s + lenZ items /\ writes s' = writes s ++ entries_written (nOrderPosNext s) items /\
    (forall h, h ∉ txs_of items -> mapWallet s' !! h = mapWallet s !! h) /\
    (forall j h, items !! j = Some (ItTx h) ->
       mapWallet s' !! h = WalletBook.set_pos (nOrderPosNext s + Z.of_nat j) <$> mapWallet s !! h).
Proof.
  intros Hd. revert offsets s. induction items as [|i items IH]; intros offsets s Hn Hi H0 Hlt; cbn [reorder_loop].
  { exists s. split_and!; try done; [unfold lenZ; cbn; lia|cbn; by rewrite app_nil_r]. }
  unfold reorder_item. rewrite (Hi i) by set_solver. cbn [Z.eqb].
  replace (-1 =? -1) with true by done.
  assert (Hl : lenZ (i :: items) = lenZ items + 1) by (unfold lenZ; cbn; lia). rewrite Hl in Hlt |- *.
  assert (Hs64 : s64 (nOrderPosNext s + 1) = nOrderPosNext s + 1) by (apply s64_small; pose proof (lenZ_nonneg items); lia).
  rewrite Hs64. destruct i as [h|e].
  - cbn [assign]. set (s1 := mkOrdering _ _ _). cbn in Hn. apply NoDup_cons in Hn as [Hh Hn].
    assert (Hw : forall k, k <> h -> mapWallet s1 !! k = mapWallet s !! k) by (intros k Hk; cbn; by apply lookup_alter_ne).
    destruct (IH (offsets ++ [nOrderPosNext s]) s1) as (s' & E & En & Ew & Eo & Ei).
    + done.
    + intros i Hin. rewrite <-(Hi i) by set_solver. destruct i as [k|e]; [|done]. unfold pos_of. rewrite Hw; [done|].
      intros ->. apply Hh. unfold txs_of. apply list_elem_of_omap. by exists (ItTx h).
    + cbn. lia.
    + cbn. lia.
    + exists s'. split_and!; [exact E|cbn in En; lia|exact Ew| |].
      * intros k Hk. cbn in Hk. rewrite Eo by set_solver. apply Hw. set_solver.
      * intros [|j] k Hj; cbn in Hj.
        -- injection Hj as <-. rewrite Eo by done. cbn. rewrite lookup_alter_eq. by rewrite Z.add_0_r.
        -- rewrite (Ei j k Hj). cbn. rewrite lookup_alter_ne.
           ++ f_equal. f_equal. lia.
           ++ intros ->. apply Hh. unfold txs_of. apply list_elem_of_omap. exists (ItTx k). split; [|done].
              by eapply list_elem_of_lookup_2.
  - cbn [assign write]. rewrite Hd. cbn [negb]. set (s1 := mkOrdering _ _ _). cbn in Hn.
    destruct (IH (offsets ++ [nOrderPosNext s]) s1) as (s' & E & En & Ew & Eo & Ei).
    + done.
    + intros i Hin. rewrite <-(Hi i) by set_solver. by destruct i.
    + cbn. lia.
    + cbn. lia.
    + exists s'. split_and!; [exact E|cbn in En; lia| |exact Eo|].
      * rewrite Ew. cbn. by rewrite <-app_assoc.
      * intros [|j] k Hj; cbn in Hj; [done|]. rewrite (Ei j k Hj). cbn. f_equal. f_equal. lia.
Qed.

Lemma offset_range p offsets : 0 <= offset p offsets <= lenZ offsets.
Proof. unfold offset, lenZ. pose proof (length_filter (fun o => o <= p) offsets). lia. Qed.

Lemma pos_of_alter s i f h n w : h ∉ txs_of [i] ->
  pos_of (mkOrdering (alter f h (mapWallet s)) n w) i = pos_of s i.
Proof. intros Hh. destruct i as [k|e]; [|done]. cbn in *. rewrite lookup_alter_ne; [done|set_solver]. Qed.

(** What a round does to the wallet and to the next position. *)
Lemma reorder_item_effect i offsets s failed offs s1 : reorder_item disk i offsets s = (failed, offs, s1) ->
  let p := pos_of s i in
  let fresh := p =? -1 in
  let p' := if fresh then nOrderPosNext s else s64 (p + offset p offsets) in
  offs = (if fresh then offsets ++ [p'] else offsets) /\
  nOrderPosNext s1 = (if fresh then s64 (p' + 1) else Z.max (nOrderPosNext s) (s64 (p' + 1))) /\
  mapWallet s1 = match i with ItTx h => alter (WalletBook.set_pos p') h (mapWallet s) | ItEntry _ => mapWallet s end.
Proof.
  unfold reorder_item. intros E. cbv zeta. destruct (pos_of s i =? -1); destruct i as [h|e]; cbn [assign write] in E.
  1,2: by injection E as <- <- <-.
  all: destruct (_ =? 0); by injection E as <- <- <-.
Qed.

Lemma reorder_item_bound B i offsets s failed offs s1 : reorder_item disk i offsets s = (failed, offs, s1) ->
  -1 <= pos_of s i < B -> 0 <= nOrderPosNext s <= B + lenZ offsets -> B + lenZ offsets < 2 ^ 62 ->
  nOrderPosNext s <= nOrderPosNext s1 /\ 0 <= nOrderPosNext s1 <= B + lenZ offs /\ lenZ offs <= lenZ offsets + 1 /\
  (forall h, h ∉ txs_of [i] -> mapWallet s1 !! h = mapWallet s !! h) /\
  (forall h, i = ItTx h -> pos_of s1 (ItTx h) < nOrderPosNext s1).
Proof.
  intros E Hp Hn HB. destruct (reorder_item_effect _ _ _ _ _ _ E) as (-> & En & Em). cbv zeta in *.
  pose proof (offset_range (pos_of s i) offsets) as Ho. pose proof (lenZ_nonneg offsets).
  set (p' := if pos_of s i =? -1 then nOrderPosNext s else s64 (pos_of s i + offset (pos_of s i) offsets)) in *.
  assert (Hp' : 0 <= p' <= B + lenZ offsets).
  { subst p'. destruct (Z.eqb_spec (pos_of s i) (-1)); [lia|]. rewrite s64_small by lia. lia. }
  rewrite (s64_small (p' + 1)) in En by lia.
  assert (Hb : p' < nOrderPosNext s1 /\ nOrderPosNext s <= nOrderPosNext s1 <= B + lenZ (if pos_of s i =? -1 then offsets ++ [p'] else offsets) /\
    lenZ (if pos_of s i =? -1 then offsets ++ [p'] else offsets) <= lenZ offsets + 1).
  { rewrite En. subst p'. destruct (Z.eqb_spec (pos_of s i) (-1)); [unfold lenZ in *; rewrite length_app; cbn; lia|].
    rewrite s64_small in * by lia. lia. }
  split_and!; try lia.
  - intros h Hh. rewrite Em. destruct i as [k|e]; [|done]. rewrite lookup_alter_ne; [done|]. set_solver.
  - intros h ->. unfold pos_of. rewrite Em, lookup_alter_eq. destruct (mapWallet s !! h); cbn; lia.
Qed.

(** The next position is free. *)
Lemma reorder_bound B items offsets s s' : reorder_loop disk items offsets s = (DB_LOAD_OK, s') -> NoDup (txs_of items) ->
  (forall i, i ∈ items -> -1 <= pos_of s i < B) -> 0 <= nOrderPosNext s <= B + lenZ offsets -> B + lenZ offsets + lenZ items < 2 ^ 62 ->
  nOrderPosNext s <= nOrderPosNext s' /\ (forall h, h ∉ txs_of items -> mapWallet s' !! h = mapWallet s !! h) /\
  forall h, h ∈ txs_of items -> pos_of s' (ItTx h) < nOrderPosNext s'.
Proof.
  revert offsets s. induction items as [|i items IH]; intros offsets s E Hn Hi Hs HB; cbn [reorder_loop] in E.
  { injection E as <-. split_and!; [lia|done|intros h Hh; by apply elem_of_nil in Hh]. }
  assert (Hl : lenZ (i :: items) = lenZ items + 1) by (unfold lenZ; cbn; lia). rewrite Hl in HB. pose proof (lenZ_nonneg items).
  destruct (reorder_item disk i offsets s) as [[failed offs] s1] eqn:E1. destruct failed; [done|].
  destruct (reorder_item_bound B _ _ _ _ _ _ E1) as (Hr1 & Hr2 & Hr3 & Hr4 & Hr5); [apply Hi; set_solver|lia|lia|].
  assert (Hnd : NoDup (txs_of items) /\ forall h, i = ItTx h -> h ∉ txs_of items).
  { destruct i as [h|e]; cbn in Hn; [|done]. apply NoDup_cons in Hn as [? ?]. split; [done|]. by intros k [= <-]. }
  destruct Hnd as [Hnd Hni]. destruct (IH offs s1 E Hnd) as (I1 & I2 & I3); [|lia|lia|].
  { intros j Hj. pose proof (Hi j ltac:(set_solver)) as Hp. destruct j as [h|e]; [|done]. unfold pos_of in *. rewrite Hr4; [done|].
    destruct i as [k|e]; [|apply not_elem_of_nil]. cbn. intros ->%list_elem_of_singleton. apply (Hni k eq_refl).
    apply list_elem_of_omap. by exists (ItTx k). }
  split_and!; [lia| |].
  - intros h Hh. assert (Hh' : h ∉ txs_of [i] /\ h ∉ txs_of items) by (destruct i; cbn in *; set_solver).
    destruct Hh' as [H1 H2]. rewrite I2 by done. by apply Hr4.
  - intros h Hh. destruct (decide (h ∈ txs_of items)) as [|Hno]; [by apply I3|].
    assert (i = ItTx h) as Hih by (destruct i; cbn in Hh; set_solver). specialize (Hr5 h Hih).
    unfold pos_of in *. rewrite (I2 h Hno). lia.
Qed.

(** Where everything has a position nothing is moved or written. *)
Lemma reorder_kept items s : (forall i, i ∈ items -> pos_of s i <> -1 /\ - 2 ^ 62 < pos_of s i < 2 ^ 62) ->
  reorder_loop disk items [] s =
    (DB_LOAD_OK, set_next (foldl (fun n i => Z.max n (pos_of s i + 1)) (nOrderPosNext s) items) s).
Proof.
  revert s. induction items as [|i items IH]; intros s Hi; cbn [reorder_loop foldl]; [by destruct s|].
  destruct (Hi i ltac:(set_solver)) as [Hm Hp]. unfold reorder_item. destruct (Z.eqb_spec (pos_of s i) (-1)); [done|].
  change (offset (pos_of s i) []) with 0. rewrite Z.add_0_r, !s64_small by lia. cbn [Z.eqb].
  set (s1 := set_next (Z.max (nOrderPosNext s) (pos_of s i + 1)) s).
  assert (Ea : (let '(i', s0) := assign i (pos_of s i) s in (false, @nil Z, set_next (Z.max (nOrderPosNext s0) (pos_of s i + 1)) s0)) = (false, [], s1)).
  { subst s1. destruct i as [h|e]; [|done]. cbn. f_equal. unfold set_next. cbn. f_equal. apply map_eq. intros k.
    destruct (decide (k = h)) as [->|]; [|by rewrite lookup_alter_ne]. rewrite lookup_alter_eq.
    destruct (mapWallet s !! h) as [[]|]; done. }
  destruct (assign i (pos_of s i) s) as [i' s0]. apply (f_equal snd) in Ea. cbn [snd] in Ea. rewrite Ea. rewrite IH; [done|].
  intros j Hj. apply (Hi j). set_solver.
Qed.

Context `{Stream} (DB_NOTFOUND : Z).


(** After an order that could be written the next position is above the position of every transaction. *)
Lemma Reorder_next_free B cursor es s s' : ListAccountCreditDebit DB_NOTFOUND [] cursor = Some es ->
  (forall h t, mapWallet s !! h = Some t -> -1 <= WalletBook.nOrderPos t < B) -> (forall e, e ∈ es -> -1 <= nOrderPos e < B) ->
  0 <= B -> B + lenZ (by_time (mapWallet s) es) < 2 ^ 62 ->
  ReorderTransactions DB_NOTFOUND disk cursor s = Some (DB_LOAD_OK, s') ->
  forall h t, mapWallet s' !! h = Some t -> WalletBook.nOrderPos t < nOrderPosNext s'.
Proof.
  intros Hes Hm He HB Hlen Hr h t Ht. unfold ReorderTransactions in Hr. rewrite Hes in Hr. cbn [mbind option_bind] in Hr. injection Hr as Hr.
  assert (Hi : forall i, i ∈ (by_time (mapWallet s) es).*2 -> -1 <= pos_of (set_next 0 s) i < B).
  { intros i Hi. apply list_elem_of_fmap in Hi as ([k i'] & -> & Hi). rewrite (proj1 (by_time_spec _ _)) in Hi.
    apply elem_of_app in Hi as [Hi|Hi]; apply list_elem_of_fmap in Hi as (x & [= -> ->] & Hx); cbn; [|by apply He].
    destruct x as [h' t']. apply elem_of_map_to_list in Hx. cbn in *. rewrite Hx. by eapply Hm. }
  assert (Hl : lenZ (by_time (mapWallet s) es).*2 = lenZ (by_time (mapWallet s) es)) by (unfold lenZ; by rewrite length_fmap).
  destruct (reorder_bound B _ _ _ _ Hr (by_time_nodup _ _) Hi) as (_ & Hout & Hin);
    [unfold lenZ; cbn [length nOrderPosNext set_next]; lia|rewrite Hl; unfold lenZ in *; cbn [length]; lia|].
  destruct (decide (h ∈ txs_of (by_time (mapWallet s) es).*2)) as [Hh|Hh].
  - specialize (Hin h Hh). unfold pos_of in Hin. by rewrite Ht in Hin.
  - rewrite (Hout h Hh) in Ht. destruct Hh. rewrite by_time_txs. apply list_elem_of_fmap. exists (h, t).
    split; [done|]. by apply elem_of_map_to_list.
Qed.

(** A wallet with an order keeps it. *)
Lemma Reorder_ordered cursor es s : ListAccountCreditDebit DB_NOTFOUND [] cursor = Some es ->
  (forall h t, mapWallet s !! h = Some t -> 0 <= WalletBook.nOrderPos t < 2 ^ 62) -> (forall e, e ∈ es -> 0 <= nOrderPos e < 2 ^ 62) ->
  exists n, ReorderTransactions DB_NOTFOUND disk cursor s = Some (DB_LOAD_OK, set_next n s).
Proof.
  intros Hes Hm He. unfold ReorderTransactions. rewrite Hes. cbn [mbind option_bind]. eexists. f_equal. rewrite reorder_kept; [done|].
  intros i Hi. apply list_elem_of_fmap in Hi as ([k i'] & -> & Hi). rewrite (proj1 (by_time_spec _ _)) in Hi.
  apply elem_of_app in Hi as [Hi|Hi]; apply list_elem_of_fmap in Hi as (x & [= -> ->] & Hx); cbn; [|specialize (He _ Hx); lia].
  destruct x as [h t]. apply elem_of_map_to_list in Hx. cbn in *. rewrite Hx. specialize (Hm _ _ Hx). lia.
Qed.
End Order.

(** ** Examples *)

(** Texts with one byte for their length and numbers in eight, most significant first. *)
Lemma zeros_least ds : Forall (Z.le 0) ds -> string_leb (replicate (length ds) 0) ds = true.
Proof.
  induction 1 as [|d ds Hd _ IH]; [done|]. cbn [length replicate]. apply string_leb_cons. destruct (decide (d = 0)); [right|left]; [by subst|lia].
Qed.

#[local] Program Instance stream : Stream := {|
  write_string s := lenZ s :: s;
  read_string b := match b with n :: r => if n <=? lenZ r then Some (take (Z.to_nat n) r, drop (Z.to_nat n) r) else None | [] => None end;
  write_u64 n := be_digits 256 8 n;
  read_u64 b := if lenZ b <? 8 then None else Some (be_val 256 (take 8 b), drop 8 b);
  read_acentry e v := match v with
    | [c; t; p] => Some (mkAcentry (strAccount e) 0 c t [] (p - 1)) | _ => None end |}.
Next Obligation.
  intros s r _. cbn. unfold lenZ. rewrite length_app. destruct (Z.leb_spec (Z.of_nat (length s)) (Z.of_nat (length s + length r))); [|lia].
  rewrite Nat2Z.id. by rewrite take_app_length, drop_app_length.
Qed.
Next Obligation.
  intros n r Hn. cbn beta. assert (Hl : length (be_digits 256 8 n) = 8%nat) by apply be_digits_length. unfold lenZ. rewrite length_app, Hl.
  destruct (Z.ltb_spec (Z.of_nat (8 + length r)) 8); [lia|]. rewrite take_app_length', drop_app_length' by done.
  rewrite be_val_digits by lia. by rewrite Z.mod_small by exact Hn.
Qed.
Next Obligation.
  intros n. cbn beta. change (be_digits 256 8 0) with (replicate 8 0). replace 8%nat with (length (be_digits 256 8 n)) at 1 by apply be_digits_length.
  apply zeros_least. eapply Forall_impl; [apply (be_digits_ok 256); lia|]. intros d Hd. cbn in Hd. lia.
Qed.
Next Obligation. intros s r r' Hs. cbn beta. apply string_leb_cons. left. destruct s; [done|]. unfold lenZ. cbn. lia. Qed.
Next Obligation. intros e v e' He. cbn beta in He. repeat case_match; by simplify_eq/=. Qed.

Definition bob : bytes := lit "bob".
Definition acentry (a : bytes) (n : Z) (v : bytes) : bytes * bytes := (acentry_key a n, v).
(** Two entries of the account "", one of bob between other records. *)
Definition records : list (bytes * bytes) :=
  [(write_string (lit "acc"), []); acentry [] 1 [10; 5; 0]; acentry [] 2 [20; 9; 0]; acentry bob 3 [30; 7; 0];
   (write_string (lit "keymeta"), [])].

Lemma records_fine : Forall entry_record records /\ ascending records.
Proof.
  split; [|unfold ascending; repeat constructor].
  assert (Ha : forall a n v e, lenZ a < 2 ^ 25 -> in_u 64 n -> read_acentry (of_account a) v = Some e -> entry_record (acentry a n v)).
  { intros a n v e H1 H2 H3. exists (lit "acentry"), (write_string a ++ write_u64 n). split; [|by intros _; exists a, n, e].
    unfold acentry, acentry_key. cbn [fst]. by rewrite read_write_string. }
  assert (Ho : forall t v, lenZ t < 2 ^ 25 -> t <> lit "acentry" -> entry_record (write_string t, v)).
  { intros t v Ht Hne. exists t, []. split; [|done]. cbn [fst]. rewrite <-(app_nil_r (write_string t)). by rewrite read_write_string. }
  unfold records. apply Forall_cons. split; [apply Ho; [vm_compute; reflexivity|vm_compute; discriminate]|].
  do 3 (apply Forall_cons; split; [eapply Ha; [vm_compute; reflexivity|split; [discriminate|reflexivity]|reflexivity]|]).
  apply Forall_cons. split; [apply Ho; [vm_compute; reflexivity|vm_compute; discriminate]|constructor].
Qed.

Lemma ListAccountCreditDebit_spec_witness :
  ListAccountCreditDebit (-30988) bob (Some (records, -30988)) = Some [mkAcentry bob 3 30 7 [] (-1)] /\
  ListAccountCreditDebit (-30988) (lit "*") (Some (records, -30988)) =
    Some [mkAcentry [] 1 10 5 [] (-1); mkAcentry [] 2 20 9 [] (-1); mkAcentry bob 3 30 7 [] (-1)].
Proof.
  destruct records_fine as [H1 H2].
  split; (etransitivity; [apply (ListAccountCreditDebit_spec (-30988)); [done|exact H1|exact H2]|vm_compute; reflexivity]).
Defined.

Definition wtx (time pos : Z) : WalletBook.CWalletTx :=
  WalletBook.mkWtx (WalletBook.mkMerkleTx CTransaction.SetNull 0 [] (-1)) [] true [] time time pos [].
Definition position (s : Ordering) (h : uint256) : option Z := WalletBook.nOrderPos <$> mapWallet s !! h.
Definition unordered : Ordering := mkOrdering (<[1 := wtx 6 (-1)]> {[2 := wtx 3 (-1)]}) 0 [].


(** What is not written: the first position of a transaction; and bob's entry gets no position at all. *)
Example first_positions :
  (writes ∘ snd) <$> ReorderTransactions (-30988) (fun _ => true) (Some (records, -30988)) unordered =
    Some [WriteAccountingEntry (mkAcentry [] 1 10 5 [] 1); WriteAccountingEntry (mkAcentry [] 2 20 9 [] 3)].
Proof. vm_compute. reflexivity. Qed.

(** Two transactions without a position among two with one: the third and the fourth share the position 2. *)
Example shared_position :
  let s := mkOrdering (<[1 := wtx 1 (-1)]> (<[2 := wtx 2 0]> (<[3 := wtx 3 (-1)]> {[4 := wtx 4 1]}))) 2 [] in
  (fun r => (position r.2 <$> [1; 2; 3; 4])) <$> ReorderTransactions (-30988) (fun _ => true) (Some ([], -30988)) s =
    Some [Some 0; Some 1; Some 2; Some 2].
Proof. vm_compute. reflexivity. Qed.
