(* ===== verification/WalletLoad.v ===== *)
(** Loading the wallet: [ReadKeyValue], [IsKeyType], [CWalletDB::LoadWallet] and [CWalletDB::Recover] of src/walletdb.cpp and
    [CWallet::LoadWallet] of src/wallet.cpp.

    A record is read in the monad [X]: what was assigned before an exception stays assigned, and [ReadKeyValue] catches
    it.  The key store is the one of Crypt.v, CheckTransaction that of Validation.v, and the order of the wallet is made by
    Accounts.v.  wallet.h, walletdb.h, serialize.h and keystore.cpp are not in the tree.  Parameters (class [Reading]):
    what the stream operators read ([None]: they throw); what is left in an object whose reading throws; the
    members of keystore.cpp that add a key, with what the code relies on; what OpenSSL makes of a private key.  An integer whose
    reading throws is as it was.  What is written is recorded in [events]; printed texts and locks are left out. *)

From S2P Require Import Prelude Monad Core Key Validation Groupings.
From S2P Require Block Crypt WalletBook Accounts.
Import Accounts (DBErrors, DB_LOAD_OK, DB_CORRUPT, DB_NONCRITICAL_ERROR, DB_TOO_NEW, DB_LOAD_FAIL, DB_NEED_REWRITE).

#[local] Notation "' p <~ m ;; k" := (X.bind m (fun x => let 'p := x in k))
  (at level 90, p pattern, m at next level, right associativity) : tt_scope.

(** A transaction of the wallet with the members that are used only here; [bound]: [BindWallet] was called. *)
Record LoadedTx := mkLoadedTx { lt_wtx : WalletBook.CWalletTx; fTimeReceivedIsTxTime : Z; bound : bool }.
Definition set_istxtime n t := mkLoadedTx (lt_wtx t) n (bound t).
Definition set_from s t := mkLoadedTx (let w := lt_wtx t in WalletBook.mkWtx (WalletBook.merkle w) (WalletBook.vtxPrev w) (WalletBook.fFromMe w) s
  (WalletBook.nTimeReceived w) (WalletBook.nTimeSmart w) (WalletBook.nOrderPos w) (WalletBook.vfSpent w)) (fTimeReceivedIsTxTime t) (bound t).
Definition BindWallet t := mkLoadedTx (lt_wtx t) (fTimeReceivedIsTxTime t) true.

Record CWalletScanState := mkScan {
  nKeys : Z; nCKeys : Z; nKeyMeta : Z; fIsEncrypted : bool; fAnyUnordered : bool; nFileVersion : Z; vWalletUpgrade : list uint256 }.
Definition CWalletScanState_new : CWalletScanState := mkScan 0 0 0 false false 0 [].

Inductive LoadEvent := LoadMinVersionEvent (n : Z) | LoadWriteTx (h : uint256) | LoadWriteVersion | LoadReorder (ws : list Accounts.WriteCall).

Section Load.
Context `{Destinations}.

Record CWallet := mkWallet {
  mapAddressBook : gmap CTxDestination bytes;
  mapWallet : gmap uint256 LoadedTx;
  store : Crypt.KeyStore;
  mapMasterKeys : gmap Z Crypt.CMasterKey;
  nMasterKeyMaxID : Z;
  nTimeFirstKey : Z;
  vchDefaultKey : CPubKey;
  setKeyPool : gset Z;
  nOrderPosNext : Z;
  mapScripts : list CScript;
  nAccountingEntryNumber : Z;        (* a static variable *)
  fRescan : bool;                    (* SoftSetBoolArg("-rescan", true) was called *)
  wss : CWalletScanState;
  events : list LoadEvent }.

Definition set_book x w := mkWallet x (mapWallet w) (store w) (mapMasterKeys w) (nMasterKeyMaxID w) (nTimeFirstKey w) (vchDefaultKey w) (setKeyPool w) (nOrderPosNext w) (mapScripts w) (nAccountingEntryNumber w) (fRescan w) (wss w) (events w).
Definition set_txs x w := mkWallet (mapAddressBook w) x (store w) (mapMasterKeys w) (nMasterKeyMaxID w) (nTimeFirstKey w) (vchDefaultKey w) (setKeyPool w) (nOrderPosNext w) (mapScripts w) (nAccountingEntryNumber w) (fRescan w) (wss w) (events w).
Definition set_store x w := mkWallet (mapAddressBook w) (mapWallet w) x (mapMasterKeys w) (nMasterKeyMaxID w) (nTimeFirstKey w) (vchDefaultKey w) (setKeyPool w) (nOrderPosNext w) (mapScripts w) (nAccountingEntryNumber w) (fRescan w) (wss w) (events w).
Definition set_masters x n w := mkWallet (mapAddressBook w) (mapWallet w) (store w) x n (nTimeFirstKey w) (vchDefaultKey w) (setKeyPool w) (nOrderPosNext w) (mapScripts w) (nAccountingEntryNumber w) (fRescan w) (wss w) (events w).
Definition set_first x w := mkWallet (mapAddressBook w) (mapWallet w) (store w) (mapMasterKeys w) (nMasterKeyMaxID w) x (vchDefaultKey w) (setKeyPool w) (nOrderPosNext w) (mapScripts w) (nAccountingEntryNumber w) (fRescan w) (wss w) (events w).
Definition set_default x w := mkWallet (mapAddressBook w) (mapWallet w) (store w) (mapMasterKeys w) (nMasterKeyMaxID w) (nTimeFirstKey w) x (setKeyPool w) (nOrderPosNext w) (mapScripts w) (nAccountingEntryNumber w) (fRescan w) (wss w) (events w).
Definition set_pool x w := mkWallet (mapAddressBook w) (mapWallet w) (store w) (mapMasterKeys w) (nMasterKeyMaxID w) (nTimeFirstKey w) (vchDefaultKey w) x (nOrderPosNext w) (mapScripts w) (nAccountingEntryNumber w) (fRescan w) (wss w) (events w).
Definition set_next x w := mkWallet (mapAddressBook w) (mapWallet w) (store w) (mapMasterKeys w) (nMasterKeyMaxID w) (nTimeFirstKey w) (vchDefaultKey w) (setKeyPool w) x (mapScripts w) (nAccountingEntryNumber w) (fRescan w) (wss w) (events w).
Definition set_scripts x w := mkWallet (mapAddressBook w) (mapWallet w) (store w) (mapMasterKeys w) (nMasterKeyMaxID w) (nTimeFirstKey w) (vchDefaultKey w) (setKeyPool w) (nOrderPosNext w) x (nAccountingEntryNumber w) (fRescan w) (wss w) (events w).
Definition set_number x w := mkWallet (mapAddressBook w) (mapWallet w) (store w) (mapMasterKeys w) (nMasterKeyMaxID w) (nTimeFirstKey w) (vchDefaultKey w) (setKeyPool w) (nOrderPosNext w) (mapScripts w) x (fRescan w) (wss w) (events w).
Definition set_rescan w := mkWallet (mapAddressBook w) (mapWallet w) (store w) (mapMasterKeys w) (nMasterKeyMaxID w) (nTimeFirstKey w) (vchDefaultKey w) (setKeyPool w) (nOrderPosNext w) (mapScripts w) (nAccountingEntryNumber w) true (wss w) (events w).
Definition set_wss x w := mkWallet (mapAddressBook w) (mapWallet w) (store w) (mapMasterKeys w) (nMasterKeyMaxID w) (nTimeFirstKey w) (vchDefaultKey w) (setKeyPool w) (nOrderPosNext w) (mapScripts w) (nAccountingEntryNumber w) (fRescan w) x (events w).
Definition set_events x w := mkWallet (mapAddressBook w) (mapWallet w) (store w) (mapMasterKeys w) (nMasterKeyMaxID w) (nTimeFirstKey w) (vchDefaultKey w) (setKeyPool w) (nOrderPosNext w) (mapScripts w) (nAccountingEntryNumber w) (fRescan w) (wss w) x.

Class Reading := {
  stream :: Accounts.Stream;
  read_uint256 : bytes -> option (uint256 * bytes);
  read_uint160 : bytes -> option (Z * bytes);
  read_pubkey : CPubKey -> bytes -> CPubKey * option bytes;          (* the object after, and the rest unless it throws *)
  read_vector : bytes -> option (bytes * bytes);
  read_wkey : bytes -> option bytes;                                  (* [vchPrivKey] of a CWalletKey *)
  read_master : bytes -> option Crypt.CMasterKey;
  read_keymeta : bytes -> option Z;                                   (* [nCreateTime] *)
  read_u32 : bytes -> option (Z * bytes);
  read_i32 : bytes -> option Z;
  read_i64 : bytes -> option (Z * bytes);
  read_char : bytes -> option (Z * bytes);
  read_script : bytes -> option CScript;
  read_text_into : bytes -> bytes -> bytes * option bytes;
  read_wtx : LoadedTx -> bytes -> LoadedTx * option bytes;
  CPubKey_new : CPubKey;                                              (* CPubKey() *)
  raw_pubkey : bytes;                                                 (* the memory of a CPubKey that is constructed from bytes *)
  new_tx : LoadedTx;                                                  (* CWalletTx() *)
  address_Get : bytes -> CTxDestination;                              (* CBitcoinAddress(s).Get() *)
  SetPrivKey : bytes -> bool -> option CKey;
  GetPubKey : CKey -> CPubKey;
  GetID : CPubKey -> Z;
  LoadKey : CKey -> CPubKey -> Crypt.KeyStore -> bool * Crypt.KeyStore;
  AddCryptedKey : CPubKey -> bytes -> Crypt.KeyStore -> bool * Crypt.KeyStore;
  LoadCScript : CScript -> list CScript -> bool * list CScript;
  new_tx_unbound : bound new_tx = false;
  LoadKey_keeps k p s a : Crypt.HaveKey s a = true -> Crypt.HaveKey (LoadKey k p s).2 a = true;
  LoadKey_has k p s : (LoadKey k p s).1 = true -> Crypt.HaveKey (LoadKey k p s).2 (GetID p) = true;
  AddCryptedKey_keeps p c s a : Crypt.HaveKey s a = true -> Crypt.HaveKey (AddCryptedKey p c s).2 a = true;
  AddCryptedKey_has p c s : (AddCryptedKey p c s).1 = true -> Crypt.HaveKey (AddCryptedKey p c s).2 (GetID p) = true;
}.

Context `{Chain} `{!Reading}.

Abbreviation W := (X CWallet).
Definition upd (f : CWallet -> CWallet) : W unit := X.modify f.
Definition rd {A} (f : CWallet -> A) : W A := X.gets f.
(** A stream operator. *)
Definition get {A} (o : option A) : W A := match o with Some a => X.ret a | None => X.throw end.
Definition upd_wss (f : CWalletScanState -> CWalletScanState) : W unit := upd (fun w => set_wss (f (wss w)) w).
Definition event (e : LoadEvent) : W unit := upd (fun w => set_events (events w ++ [e]) w).

(** ** A record *)

Definition read_name (k v : bytes) : W bool :=
  '(strAddress, _) <~ get (Accounts.read_string k) ;;
  let d := address_Get strAddress in
  old <~ rd (fun w => default [] (mapAddressBook w !! d)) ;;
  let '(s, rest) := read_text_into old v in
  upd (fun w => set_book (<[d := s]> (mapAddressBook w)) w) ;~
  get rest ;~ X.ret true.

Definition set_tx (h : uint256) (t : LoadedTx) : W unit := upd (fun w => set_txs (<[h := t]> (mapWallet w)) w).
Definition add_upgrade h s := mkScan (nKeys s) (nCKeys s) (nKeyMeta s) (fIsEncrypted s) (fAnyUnordered s) (nFileVersion s) (vWalletUpgrade s ++ [h]).
Definition set_unordered s := mkScan (nKeys s) (nCKeys s) (nKeyMeta s) (fIsEncrypted s) true (nFileVersion s) (vWalletUpgrade s).

(** Undo the serialization of version 31600. *)
Definition upgrade_tx (hash : uint256) (t : LoadedTx) (v : bytes) : W LoadedTx :=
  if (31404 <=? fTimeReceivedIsTxTime t) && (fTimeReceivedIsTxTime t <=? 31703) then
    t <~ (match v with
          | _ :: _ =>
            '(fTmp, v) <~ get (read_char v) ;;
            '(_, v) <~ get (read_char v) ;;
            let '(s, rest) := read_text_into (WalletBook.strFromAccount (lt_wtx t)) v in
            set_tx hash (set_from s t) ;~ get rest ;~ X.ret (set_istxtime fTmp (set_from s t))
          | [] => X.ret (set_istxtime 0 t)
          end) ;;
    set_tx hash t ;~ upd_wss (add_upgrade hash) ;~ X.ret t
  else X.ret t.

Definition read_tx (k v : bytes) : W bool :=
  '(hash, _) <~ get (read_uint256 k) ;;
  old <~ rd (fun w => default new_tx (mapWallet w !! hash)) ;;
  let '(t, rest) := read_wtx old v in
  set_tx hash t ;~
  v <~ get rest ;;
  let tx := WalletBook.tx_of (lt_wtx t) in
  if bool_decide (CheckTransaction tx = Accept) && (Block.TxHash tx =? hash) then
    set_tx hash (BindWallet t) ;~
    t <~ upgrade_tx hash (BindWallet t) v ;;
    (if WalletBook.nOrderPos (lt_wtx t) =? -1 then upd_wss set_unordered else X.ret tt) ;~ X.ret true
  else upd (fun w => set_txs (delete hash (mapWallet w)) w) ;~ X.ret false.

Definition read_acentry (k v : bytes) : W bool :=
  '(_, k) <~ get (Accounts.read_string k) ;;
  '(nNumber, _) <~ get (Accounts.read_u64 k) ;;
  upd (fun w => if nAccountingEntryNumber w <? nNumber then set_number nNumber w else w) ;~
  un <~ rd (fun w => fAnyUnordered (wss w)) ;;
  if negb un then
    e <~ get (Accounts.read_acentry (Accounts.of_account []) v) ;;
    (if Accounts.nOrderPos e =? -1 then upd_wss set_unordered else X.ret tt) ;~ X.ret true
  else X.ret true.

Definition add_key s := mkScan (u32 (nKeys s + 1)) (nCKeys s) (nKeyMeta s) (fIsEncrypted s) (fAnyUnordered s) (nFileVersion s) (vWalletUpgrade s).
Definition add_ckey s := mkScan (nKeys s) (u32 (nCKeys s + 1)) (nKeyMeta s) (fIsEncrypted s) (fAnyUnordered s) (nFileVersion s) (vWalletUpgrade s).
Definition add_meta s := mkScan (nKeys s) (nCKeys s) (u32 (nKeyMeta s + 1)) (fIsEncrypted s) (fAnyUnordered s) (nFileVersion s) (vWalletUpgrade s).
Definition set_encrypted s := mkScan (nKeys s) (nCKeys s) (nKeyMeta s) true (fAnyUnordered s) (nFileVersion s) (vWalletUpgrade s).
Definition set_version n s := mkScan (nKeys s) (nCKeys s) (nKeyMeta s) (fIsEncrypted s) (fAnyUnordered s) n (vWalletUpgrade s).

(** Through a member of the key store. *)
Definition on_store (f : Crypt.KeyStore -> bool * Crypt.KeyStore) : W bool :=
  s <~ rd store ;; let '(ok, s) := f s in upd (set_store s) ;~ X.ret ok.

Definition read_key (wkey : bool) (k v : bytes) : W bool :=
  let '(vchPubKey, rest) := read_pubkey CPubKey_new k in
  get rest ;~
  if negb (CPubKey.IsValid vchPubKey) then X.ret false
  else
    pkey <~ (if wkey then get (read_wkey v) else upd_wss add_key ;~ '(p, _) <~ get (read_vector v) ;; X.ret p) ;;
    match SetPrivKey pkey (CPubKey.IsCompressed vchPubKey) with
    | None => X.ret false
    | Some key => if CPubKey.neqb (GetPubKey key) vchPubKey then X.ret false else on_store (LoadKey key vchPubKey)
    end.

Definition read_mkey (k v : bytes) : W bool :=
  '(nID, _) <~ get (read_u32 k) ;;
  kMasterKey <~ get (read_master v) ;;
  dup <~ rd (fun w => bool_decide (is_Some (mapMasterKeys w !! nID))) ;;
  if (dup : bool) then X.ret false
  else
    upd (fun w => set_masters (<[nID := kMasterKey]> (mapMasterKeys w)) (if nMasterKeyMaxID w <? nID then nID else nMasterKeyMaxID w) w) ;~
    X.ret true.

Definition read_ckey (k v : bytes) : W bool :=
  '(vchPubKey, _) <~ get (read_vector k) ;;
  '(vchPrivKey, _) <~ get (read_vector v) ;;
  upd_wss add_ckey ;~
  ok <~ on_store (AddCryptedKey (CPubKey.of_bytes raw_pubkey vchPubKey) vchPrivKey) ;;
  if negb ok then X.ret false else upd_wss set_encrypted ;~ X.ret true.

Definition read_meta (k v : bytes) : W bool :=
  '(_, _) <~ get (read_vector k) ;;
  nCreateTime <~ get (read_keymeta v) ;;
  upd_wss add_meta ;~
  upd (fun w => if (nTimeFirstKey w =? 0) || (nCreateTime <? nTimeFirstKey w) then set_first nCreateTime w else w) ;~ X.ret true.

Definition read_default (v : bytes) : W bool :=
  old <~ rd vchDefaultKey ;; let '(p, rest) := read_pubkey old v in upd (set_default p) ;~ get rest ;~ X.ret true.

Definition read_pool (k : bytes) : W bool :=
  '(nIndex, _) <~ get (read_i64 k) ;; upd (fun w => set_pool ({[nIndex]} ∪ setKeyPool w) w) ;~ X.ret true.

Definition read_version (v : bytes) : W bool :=
  n <~ get (read_i32 v) ;; upd_wss (set_version (if n =? 10300 then 300 else n)) ;~ X.ret true.

Definition read_cscript (k v : bytes) : W bool :=
  '(_, _) <~ get (read_uint160 k) ;;
  script <~ get (read_script v) ;;
  l <~ rd mapScripts ;; let '(ok, l) := LoadCScript script l in upd (set_scripts l) ;~ X.ret ok.

Definition read_orderposnext (v : bytes) : W bool := '(n, _) <~ get (read_i64 v) ;; upd (set_next n) ;~ X.ret true.

(** What is done for a record of a type; [k] is the key behind the type. *)
Definition read_record (strType k v : bytes) : W bool :=
  if bool_decide (strType = lit "name") then read_name k v
  else if bool_decide (strType = lit "tx") then read_tx k v
  else if bool_decide (strType = lit "acentry") then read_acentry k v
  else if bool_decide (strType = lit "key") || bool_decide (strType = lit "wkey") then read_key (bool_decide (strType = lit "wkey")) k v
  else if bool_decide (strType = lit "mkey") then read_mkey k v
  else if bool_decide (strType = lit "ckey") then read_ckey k v
  else if bool_decide (strType = lit "keymeta") then read_meta k v
  else if bool_decide (strType = lit "defaultkey") then read_default v
  else if bool_decide (strType = lit "pool") then read_pool k
  else if bool_decide (strType = lit "version") then read_version v
  else if bool_decide (strType = lit "cscript") then read_cscript k v
  else if bool_decide (strType = lit "orderposnext") then read_orderposnext v
  else X.ret true.

(** The result, [strType] and the wallet. *)
Definition ReadKeyValue (ssKey ssValue : bytes) (w : CWallet) : bool * bytes * CWallet :=
  match Accounts.read_string ssKey with
  | None => (false, [], w)
  | Some (strType, k) =>
    match read_record strType k ssValue w with
    | (Done ok, w) => (ok, strType, w)
    | (_, w) => (false, strType, w)
    end
  end.

Definition IsKeyType (strType : bytes) : bool :=
  bool_decide (strType = lit "key") || bool_decide (strType = lit "wkey") ||
  bool_decide (strType = lit "mkey") || bool_decide (strType = lit "ckey").

(** ** The wallet *)

Context (CLIENT_VERSION DB_NOTFOUND : Z) (disk : nat -> bool).

(** The loop: [result] and [fNoncriticalErrors]. *)
Definition load_one (r : bytes * bytes) (st : DBErrors * bool * CWallet) : DBErrors * bool * CWallet :=
  let '(result, fNoncriticalErrors, w) := st in
  let '(ok, strType, w) := ReadKeyValue r.1 r.2 w in
  if (ok : bool) then (result, fNoncriticalErrors, w)
  else if IsKeyType strType then (DB_CORRUPT, fNoncriticalErrors, w)
  else (result, true, if bool_decide (strType = lit "tx") then set_rescan w else w).
Definition load_loop (rs : list (bytes * bytes)) (st : DBErrors * bool * CWallet) : DBErrors * bool * CWallet :=
  foldl (fun st r => load_one r st) st rs.

(** The positions [ReorderTransactions] has given are those of the transactions. *)
Definition reorder (cursor : option (list (bytes * bytes) * Z)) : W DBErrors :=
  w <~ rd (fun w => w) ;;
  match Accounts.ReorderTransactions DB_NOTFOUND disk cursor (Accounts.mkOrdering (lt_wtx <$> mapWallet w) (nOrderPosNext w) []) with
  | None => X.throw
  | Some (r, o) =>
    upd (fun w => set_next (Accounts.nOrderPosNext o)
      (set_txs (map_zip_with (fun t x => mkLoadedTx x (fTimeReceivedIsTxTime t) (bound t)) (mapWallet w) (Accounts.mapWallet o)) w)) ;~
    event (LoadReorder (Accounts.writes o)) ;~ X.ret r
  end.

Definition write_upgrade (hash : uint256) : W unit :=
  t <~ rd (fun w => default new_tx (mapWallet w !! hash)) ;; set_tx hash t ;~ event (LoadWriteTx hash).

(** What follows the loop. *)
Definition after_load (result : DBErrors) (fNoncriticalErrors : bool) (cursor : option (list (bytes * bytes) * Z)) : W DBErrors :=
  let result := if fNoncriticalErrors && bool_decide (result = DB_LOAD_OK) then DB_NONCRITICAL_ERROR else result in
  if negb (bool_decide (result = DB_LOAD_OK)) then X.ret result
  else
    upd (fun w => if negb (u32 (nKeys (wss w) + nCKeys (wss w)) =? nKeyMeta (wss w)) then set_first 0 w else w) ;~
    s <~ rd wss ;;
    X.each write_upgrade (vWalletUpgrade s) ;~
    if fIsEncrypted s && ((nFileVersion s =? 40000) || (nFileVersion s =? 50000)) then X.ret DB_NEED_REWRITE
    else
      (if nFileVersion s <? CLIENT_VERSION then event LoadWriteVersion else X.ret tt) ;~
      if fAnyUnordered s then reorder cursor else X.ret DB_LOAD_OK.

(** [minversion]: what is read of that record; [cursor] is opened for the records, [cursor'] for the entries. *)
Definition LoadWallet_db (minversion : option Z) (cursor cursor' : option (list (bytes * bytes) * Z)) : W DBErrors :=
  upd (fun w => set_wss CWalletScanState_new (set_default CPubKey_new w)) ;~
  let go :=
    match cursor with
    | None => X.ret DB_CORRUPT
    | Some (rs, ending) =>
      st <~ rd (fun w => load_loop rs (DB_LOAD_OK, false, w)) ;;
      upd (fun _ => st.2) ;~
      if negb (ending =? DB_NOTFOUND) then X.ret DB_CORRUPT else after_load st.1.1 st.1.2 cursor'
    end in
  match minversion with
  | Some n => if CLIENT_VERSION <? n then X.ret DB_TOO_NEW else event (LoadMinVersionEvent n) ;~ go
  | None => go
  end.

(** [CWallet::LoadWallet]: the result and [fFirstRunRet]; [rewrite] is what [CDB::Rewrite] without the key pool returns. *)
Definition LoadWallet (fFileBacked : bool) (rewrite : bool) (minversion : option Z) (cursor cursor' : option (list (bytes * bytes) * Z))
    (fFirstRun : bool) : W (DBErrors * bool) :=
  if negb fFileBacked then X.ret (DB_LOAD_OK, fFirstRun)
  else
    r <~ LoadWallet_db minversion cursor cursor' ;;
    (if bool_decide (r = DB_NEED_REWRITE) && rewrite then upd (set_pool ∅) else X.ret tt) ;~
    if negb (bool_decide (r = DB_LOAD_OK)) then X.ret (r, false)
    else p <~ rd vchDefaultKey ;; X.ret (DB_LOAD_OK, negb (CPubKey.IsValid p)).

(** ** Recovery *)

(** The records that are put into the new file, from a dummy wallet on. *)
Fixpoint recover_loop (fOnlyKeys : bool) (rows : list (bytes * bytes)) (dummy : CWallet) : list (bytes * bytes) :=
  match rows with
  | [] => []
  | r :: rows' =>
    if negb fOnlyKeys then r :: recover_loop fOnlyKeys rows' dummy
    else
      let '(fReadOK, strType, dummy) := ReadKeyValue r.1 r.2 dummy in
      if negb (IsKeyType strType) then recover_loop fOnlyKeys rows' dummy
      else if negb fReadOK then recover_loop fOnlyKeys rows' dummy
      else r :: recover_loop fOnlyKeys rows' dummy
  end.

(** [renamed]: the result of the renaming; [salvaged]: what [Salvage] returns and appends; [opened]: the result of opening
    the new file; [begun]: a transaction was begun (otherwise a null pointer is committed: [None]); [put n]: what the n-th
    [put] returns.  The result, and the records given to [put]. *)
Definition Recover (renamed : Z) (salvaged : bool * list (bytes * bytes)) (opened : Z) (begun : bool) (put : nat -> Z)
    (fOnlyKeys : bool) (dummy : CWallet) : option (bool * list (bytes * bytes)) :=
  if negb (renamed =? 0) then Some (false, [])
  else
    let '(allOK, rows) := salvaged in
    if bool_decide (rows = []) then Some (false, [])
    else if 0 <? opened then Some (false, [])
    else
      let rs := recover_loop fOnlyKeys rows dummy in
      if negb begun then None
      else Some (allOK && forallb (fun n => negb (0 <? put n)) (seq 0 (length rs)), rs).
End Load.
