(* ===== verification/WalletLoadThms.v ===== *)
(** Theorems on loading the wallet (WalletLoad.v): a load that does not report corruption has loaded every key; what the
    result says; nothing is written to a wallet with errors; what recovery keeps. *)

From S2P Require Import Prelude Monad Core Key Validation Groupings WalletLoad.
From S2P Require Crypt WalletBook Accounts AccountsThms ValidationThms GroupingsThms.
Import Accounts (DBErrors, DB_LOAD_OK, DB_CORRUPT, DB_NONCRITICAL_ERROR, DB_TOO_NEW, DB_LOAD_FAIL, DB_NEED_REWRITE).

Section Load.
Context `{Destinations} `{Chain} `{!Reading}.
Implicit Types w : CWallet.

(** ** Keys are not lost *)

Definition keys_stay w w' : Prop :=
  (forall a, Crypt.HaveKey (store w) a = true -> Crypt.HaveKey (store w') a = true) /\
  (forall n m, mapMasterKeys w !! n = Some m -> mapMasterKeys w' !! n = Some m).
#[local] Instance keys_stay_preorder : PreOrder keys_stay.
Proof. split; [by intros w; split|]. intros w1 w2 w3 [P1 P2] [P3 P4]. split; eauto. Qed.

(** Reading a record writes nothing. *)
Definition quiet w w' : Prop := keys_stay w w' /\ events w' = events w.
#[local] Instance quiet_preorder : PreOrder quiet.
Proof.
  split; [by intros w; split|]. intros w1 w2 w3 [P1 E1] [P2 E2]. split; [by etransitivity|congruence].
Qed.

Abbreviation K m := (X.keeps quiet m).

Lemma KL_ret {A} (a : A) : K (X.ret a).
Proof. apply X.keeps_ret; apply _. Qed.
Lemma KL_rd {A} (f : CWallet -> A) : K (rd f).
Proof. apply X.keeps_gets; apply _. Qed.
Lemma K_get {A} (o : option A) : K (get o).
Proof. destruct o; [apply X.keeps_ret|apply X.keeps_throw]; apply _. Qed.
Lemma KL_upd f : (forall w, store (f w) = store w /\ mapMasterKeys (f w) = mapMasterKeys w /\ events (f w) = events w) -> K (upd f).
Proof. intros Hf w. destruct (Hf w) as (E1 & E2 & E3). split; [split|done]; cbn; [by rewrite E1|by rewrite E2]. Qed.
Lemma KL_bind {A B} (m : X CWallet A) (f : A -> X CWallet B) : K m -> (forall a, K (f a)) -> K (X.bind m f).
Proof. apply X.keeps_bind; apply _. Qed.

Lemma K_on_store f : (forall s a, Crypt.HaveKey s a = true -> Crypt.HaveKey (f s).2 a = true) -> K (on_store f).
Proof.
  intros Hf w. unfold on_store, X.bind, rd, X.gets. specialize (Hf (store w)). destruct (f (store w)) as [ok s]. split; [split|]; cbn; auto.
Qed.

Lemma K_LoadKey k p : K (on_store (LoadKey k p)).
Proof. apply K_on_store, LoadKey_keeps. Qed.
Lemma K_AddCryptedKey p c : K (on_store (AddCryptedKey p c)).
Proof. apply K_on_store, AddCryptedKey_keeps. Qed.

Ltac keep := repeat first
  [ apply K_LoadKey | apply K_AddCryptedKey | apply KL_ret | apply KL_rd | apply K_get | (apply KL_upd; intros ?; repeat case_match; done) | (apply KL_bind; [|intros ?]) | case_match ].

Lemma KL_name k v : K (read_name k v).
Proof. unfold read_name. keep. Qed.
Lemma K_tx k v : K (read_tx k v).
Proof. unfold read_tx, upgrade_tx, set_tx, upd_wss. keep. Qed.
Lemma K_acentry k v : K (read_acentry k v).
Proof. unfold read_acentry, upd_wss. keep. Qed.
Lemma K_key b k v : K (read_key b k v).
Proof. unfold read_key, upd_wss. keep. Qed.
Lemma K_ckey k v : K (read_ckey k v).
Proof. unfold read_ckey, upd_wss. keep. Qed.
Lemma K_meta k v : K (read_meta k v).
Proof. unfold read_meta, upd_wss. keep. Qed.
Lemma K_default v : K (read_default v).
Proof. unfold read_default. keep. Qed.
Lemma K_pool k : K (read_pool k).
Proof. unfold read_pool. keep. Qed.
Lemma K_version v : K (read_version v).
Proof. unfold read_version, upd_wss. keep. Qed.
Lemma K_cscript k v : K (read_cscript k v).
Proof. unfold read_cscript. keep. Qed.
Lemma K_orderposnext v : K (read_orderposnext v).
Proof. unfold read_orderposnext. keep. Qed.
(** A master key is added under a number that is free. *)
Lemma K_mkey k v : K (read_mkey k v).
Proof.
  unfold read_mkey. apply KL_bind; [apply K_get|]. intros [n r]. apply KL_bind; [apply K_get|]. intros m w.
  unfold X.bind, rd, X.gets. case_bool_decide as Hd; [reflexivity|]. split; [split|]; cbn; [done| |done].
  intros n' m' Hm. rewrite lookup_insert_ne; [done|]. intros ->. apply Hd. by eexists.
Qed.

Lemma K_record t k v : K (read_record t k v).
Proof.
  unfold read_record. repeat (apply X.keeps_if).
  all: first [apply KL_name|apply K_tx|apply K_acentry|apply K_key|apply K_mkey|apply K_ckey|apply K_meta|apply K_default|apply K_pool
             |apply K_version|apply K_cscript|apply K_orderposnext|apply KL_ret].
Qed.

(** A result of a sequence comes from results of its parts. *)
Lemma then_result {A B} (m : X CWallet A) (f : A -> X CWallet B) b w w' : X.bind m f w = (Done b, w') ->
  exists a w1, m w = (Done a, w1) /\ f a w1 = (Done b, w').
Proof. unfold X.bind. destruct (m w) as [[a| |] w1]; [|done|done]. eauto. Qed.
Lemma get_result {A} (o : option A) a w w' : get o w = (Done a, w') -> o = Some a /\ w' = w.
Proof. destruct o; [|done]. by intros [= <- <-]. Qed.
Ltac results E := repeat match type of E with
  | X.bind _ _ _ = (Done _, _) =>
    let a := fresh "a" in let w := fresh "w" in let E1 := fresh "E" in apply then_result in E as (a & w & E1 & E);
    try (apply get_result in E1 as [E1 ->]); try (injection E1 as <- <-)
  end.

Lemma on_store_result f ok w w' : on_store f w = (Done ok, w') -> (f (store w)).1 = ok /\ store w' = (f (store w)).2.
Proof. unfold on_store, X.bind, rd, X.gets. destruct (f (store w)) as [b s]. by intros [= <- <-]. Qed.

(** The key of a record of a key type is in the wallet. *)
Definition holds w (r : bytes * bytes) : Prop :=
  forall t k, Accounts.read_string r.1 = Some (t, k) ->
    (t = lit "key" \/ t = lit "wkey" -> Crypt.HaveKey (store w) (GetID (read_pubkey CPubKey_new k).1) = true) /\
    (t = lit "ckey" -> exists p x, read_vector k = Some (p, x) /\
       Crypt.HaveKey (store w) (GetID (CPubKey.of_bytes raw_pubkey p)) = true) /\
    (t = lit "mkey" -> exists n x m, read_u32 k = Some (n, x) /\ read_master r.2 = Some m /\ mapMasterKeys w !! n = Some m).

Lemma holds_stays w w' r : keys_stay w w' -> holds w r -> holds w' r.
Proof.
  intros [Hk Hm] Hh t k Hr. destruct (Hh t k Hr) as (P1 & P2 & P3). split_and!; intros Ht.
  - by apply Hk, P1.
  - destruct (P2 Ht) as (p & x & Hp & Hx). exists p, x. split; [done|by apply Hk].
  - destruct (P3 Ht) as (n & x & m & Hn & Hv & Hx). exists n, x, m. split_and!; [done|done|by apply Hm].
Qed.

Lemma read_key_holds b k v w w' : read_key b k v w = (Done true, w') ->
  Crypt.HaveKey (store w') (GetID (read_pubkey CPubKey_new k).1) = true.
Proof.
  unfold read_key. destruct (read_pubkey CPubKey_new k) as [p rest]. intros E. results E. destruct (negb _); [done|].
  results E. destruct (SetPrivKey _ _) as [key|]; [|done]. destruct (CPubKey.neqb _ _); [done|].
  apply on_store_result in E as [E Es]. rewrite Es. by apply LoadKey_has.
Qed.
Lemma read_ckey_holds k v w w' : read_ckey k v w = (Done true, w') ->
  exists p x, read_vector k = Some (p, x) /\ Crypt.HaveKey (store w') (GetID (CPubKey.of_bytes raw_pubkey p)) = true.
Proof.
  unfold read_ckey. intros E. results E. destruct a as [p x]. exists p, x. split; [done|]. results E. destruct a as [c y]. results E.
  destruct (negb _) eqn:Eok; [done|]. results E. injection E as <-. match goal with Eb : on_store _ _ = _ |- _ => apply on_store_result in Eb as [E2 Es] end.
  apply negb_false_iff in Eok. cbn in *. rewrite Es. apply AddCryptedKey_has. by rewrite E2.
Qed.
Lemma read_mkey_holds k v w w' : read_mkey k v w = (Done true, w') ->
  exists n x m, read_u32 k = Some (n, x) /\ read_master v = Some m /\ mapMasterKeys w' !! n = Some m.
Proof.
  unfold read_mkey. intros E. results E. destruct a as [n x]. results E. exists n, x, a. split_and!; [done|done|].
  case_bool_decide; [done|]. results E. injection E as <-. cbn. apply lookup_insert_eq.
Qed.

Lemma ReadKeyValue_quiet k v w : quiet w (ReadKeyValue k v w).2.
Proof.
  unfold ReadKeyValue. destruct (Accounts.read_string k) as [[t k']|]; [|reflexivity].
  pose proof (K_record t k' v w) as Hk. by destruct (read_record t k' v w) as [[ok| |] w'].
Qed.

Lemma ReadKeyValue_holds k v w t w' : ReadKeyValue k v w = (true, t, w') -> holds w' (k, v).
Proof.
  unfold ReadKeyValue. destruct (Accounts.read_string k) as [[t' k']|] eqn:Ek; [|done].
  destruct (read_record t' k' v w) as [[ok| |] w1] eqn:E; [|done|done]. intros [= -> <- <-].
  intros t2 k2 E2. cbn [fst] in E2. rewrite Ek in E2. injection E2 as <- <-.
  unfold read_record in E. split_and!.
  - intros [->| ->].
    + exact (read_key_holds false k' v w w1 E).
    + exact (read_key_holds true k' v w w1 E).
  - intros ->. exact (read_ckey_holds k' v w w1 E).
  - intros ->. exact (read_mkey_holds k' v w w1 E).
Qed.

(** ** The loop *)

(** The types of the records that could not be read, in order. *)
Fixpoint unread (rs : list (bytes * bytes)) w : list bytes :=
  match rs with
  | [] => []
  | r :: rs' => let '(ok, t, w') := ReadKeyValue r.1 r.2 w in
                let w'' := if (ok : bool) || IsKeyType t || negb (bool_decide (t = lit "tx")) then w' else set_rescan w' in
                if (ok : bool) then unread rs' w'' else t :: unread rs' w''
  end.

Lemma load_loop_spec rs result bad w : let st := load_loop rs (result, bad, w) in
  st.1.1 = (if existsb IsKeyType (unread rs w) then DB_CORRUPT else result) /\
  st.1.2 = bad || existsb (negb ∘ IsKeyType) (unread rs w) /\ quiet w st.2 /\
  (st.1.1 <> DB_CORRUPT -> forall r, r ∈ rs -> (exists t k, Accounts.read_string r.1 = Some (t, k) /\ IsKeyType t = true) -> holds st.2 r).
Proof.
  revert result bad w. induction rs as [|r rs IH]; intros result bad w; cbn [load_loop foldl].
  { split_and!; [done|by rewrite orb_false_r|reflexivity|]. intros _ r Hr. by apply elem_of_nil in Hr. }
  change (foldl _ ?st rs) with (load_loop rs st). cbn [unread]. unfold load_one.
  pose proof (ReadKeyValue_quiet r.1 r.2 w) as Hq. pose proof (ReadKeyValue_holds r.1 r.2 w) as Hh.
  assert (Ht : forall t k, Accounts.read_string r.1 = Some (t, k) -> (ReadKeyValue r.1 r.2 w).1.2 = t).
  { intros t k Et. unfold ReadKeyValue. rewrite Et. by destruct (read_record t k r.2 w) as [[]]. }
  destruct (ReadKeyValue r.1 r.2 w) as [[ok t] w1]. cbn [fst snd] in *.
  assert (Hhead : forall w2 w3, quiet w1 w2 -> quiet w2 w3 -> ok = true -> holds w3 r).
  { intros w2 w3 [Ha _] [Hb _] ->. eapply holds_stays; [exact Hb|]. eapply holds_stays; [exact Ha|].
    destruct r. by apply (Hh t w1). }
  destruct ok; cbn [orb].
  - destruct (IH result bad w1) as (I1 & I2 & I3 & I4). split_and!; [done|done|by etransitivity|].
    intros Hc r' [->|Hr]%elem_of_cons Hk; [|by apply I4]. by apply (Hhead w1); [reflexivity| |].
  - cbn [existsb compose]. destruct (IsKeyType t) eqn:Hkt; cbn [orb].
    + destruct (IH DB_CORRUPT bad w1) as (I1 & I2 & I3 & I4). cbn [compose] in *. rewrite ?Hkt. cbn [negb orb].
      assert (Hc : (load_loop rs (DB_CORRUPT, bad, w1)).1.1 = DB_CORRUPT) by (rewrite I1; by destruct (existsb _ _)).
      split_and!; [done|done|by etransitivity|]. by rewrite Hc.
    + assert (Hw : quiet w1 (if negb (bool_decide (t = lit "tx")) then w1 else set_rescan w1)) by (by case_bool_decide).
      replace (if bool_decide (t = lit "tx") then set_rescan w1 else w1) with (if negb (bool_decide (t = lit "tx")) then w1 else set_rescan w1)
        by (by case_bool_decide).
      set (w2 := if negb _ then w1 else _) in *. destruct (IH result true w2) as (I1 & I2 & I3 & I4).
      rewrite ?Hkt. cbn [negb orb]. split_and!; [done|by rewrite orb_true_r|by do 2 (etransitivity; [eassumption|])|].
      intros Hc r' [->|Hr]%elem_of_cons (t' & k' & Et & Hk); [|by apply I4; [| |exists t', k']].
      rewrite (Ht _ _ Et) in Hkt. congruence.
Qed.

(** ** The result *)

Section Result.
Context (CLIENT_VERSION DB_NOTFOUND : Z) (disk : nat -> bool).
Abbreviation LoadWallet_db := (LoadWallet_db CLIENT_VERSION DB_NOTFOUND disk).
Abbreviation after_load := (after_load CLIENT_VERSION DB_NOTFOUND disk).

(** The wallet when its records are read. *)
Definition prepared (minversion : option Z) w : CWallet :=
  let w := set_wss CWalletScanState_new (set_default CPubKey_new w) in
  match minversion with Some n => set_events (events w ++ [LoadMinVersionEvent n]) w | None => w end.

Lemma LoadWallet_step minversion rs ending cursor' w : (forall n, minversion = Some n -> n <= CLIENT_VERSION) ->
  LoadWallet_db minversion (Some (rs, ending)) cursor' w =
    let st := load_loop rs (DB_LOAD_OK, false, prepared minversion w) in
    if negb (ending =? DB_NOTFOUND) then (Done DB_CORRUPT, st.2) else after_load st.1.1 st.1.2 cursor' st.2.
Proof.
  intros Hm. unfold WalletLoad.LoadWallet_db, X.bind, upd, rd, X.modify, X.gets. destruct minversion as [n|].
  - destruct (Z.ltb_spec CLIENT_VERSION n); [specialize (Hm n eq_refl); lia|]. cbv zeta. by destruct (negb _).
  - cbv zeta. by destruct (negb _).
Qed.

Abbreviation KS m := (X.keeps keys_stay m).
Lemma KS_upd f : (forall w, store (f w) = store w /\ mapMasterKeys (f w) = mapMasterKeys w) -> KS (upd f).
Proof. intros Hf w. destruct (Hf w) as [E1 E2]. split; cbn; [by rewrite E1|by rewrite E2]. Qed.
Lemma KS_bind {A B} (m : X CWallet A) (f : A -> X CWallet B) : KS m -> (forall a, KS (f a)) -> KS (X.bind m f).
Proof. apply X.keeps_bind; apply _. Qed.
Ltac stay := repeat first
  [ apply (X.keeps_ret keys_stay) | apply (X.keeps_throw keys_stay) | apply (X.keeps_gets keys_stay)
  | (apply KS_upd; intros ?; repeat case_match; done) | (apply KS_bind; [|intros ?]) | case_match ].

Lemma KS_after result bad cursor : KS (after_load result bad cursor).
Proof.
  unfold WalletLoad.after_load, reorder, event. stay.
  all: try (apply (X.keeps_each keys_stay); intros h; unfold write_upgrade, set_tx, event; stay).
Qed.

(** A result that is reached behind the loop. *)
Lemma LoadWallet_db_result minversion cursor cursor' w r w' : LoadWallet_db minversion cursor cursor' w = (Done r, w') ->
  r <> DB_CORRUPT -> r <> DB_TOO_NEW ->
  exists rs, cursor = Some (rs, DB_NOTFOUND) /\ (forall n, minversion = Some n -> n <= CLIENT_VERSION).
Proof.
  intros E Hc Hn. unfold WalletLoad.LoadWallet_db in E. destruct minversion as [n|].
  - destruct (Z.ltb_spec CLIENT_VERSION n); [injection E as <- _; done|].
    destruct cursor as [[rs e]|]; [|injection E as <- _; done]. cbn -[load_loop WalletLoad.after_load] in E.
    destruct (Z.eqb_spec e DB_NOTFOUND) as [->|]; [|injection E as <- _; done]. exists rs. split; [done|]. by intros m [= <-].
  - destruct cursor as [[rs e]|]; [|injection E as <- _; done]. cbn -[load_loop WalletLoad.after_load] in E.
    destruct (Z.eqb_spec e DB_NOTFOUND) as [->|]; [|injection E as <- _; done]. by exists rs.
Qed.

Lemma after_load_corrupt bad cursor w : after_load DB_CORRUPT bad cursor w = (Done DB_CORRUPT, w).
Proof. by destruct bad. Qed.

Lemma write_upgrades l w : exists w', X.each write_upgrade l w = (Done tt, w').
Proof.
  revert w. induction l as [|h l IH]; intros w; [by eexists|]. cbn [X.each]. unfold X.bind at 1, write_upgrade at 1.
  unfold X.bind, rd, X.gets, set_tx, event, upd, X.modify. apply IH.
Qed.
Lemma reorder_loop_result items offsets s :
  (Accounts.reorder_loop disk items offsets s).1 = DB_LOAD_OK \/ (Accounts.reorder_loop disk items offsets s).1 = DB_LOAD_FAIL.
Proof.
  revert offsets s. induction items as [|i items IH]; intros offsets s; cbn; [by left|].
  destruct (Accounts.reorder_item _ _ _ _) as [[[] offs] s1]; [by right|apply IH].
Qed.
Definition loaded (o : Outcome DBErrors) : Prop :=
  o = Done DB_LOAD_OK \/ o = Done DB_NEED_REWRITE \/ o = Done DB_LOAD_FAIL \/ o = Thrown.
Lemma reorder_loaded cursor w : loaded (reorder DB_NOTFOUND disk cursor w).1.
Proof.
  unfold reorder, X.bind, rd, X.gets, Accounts.ReorderTransactions.
  destruct (Accounts.ListAccountCreditDebit _ _ _) as [es|]; [|by right; right; right]. cbn [mbind option_bind].
  set (s := Accounts.mkOrdering _ _ _). set (items := (Accounts.by_time _ es).*2).
  destruct (reorder_loop_result items [] (Accounts.set_next 0 s)) as [E|E];
    destruct (Accounts.reorder_loop disk items [] (Accounts.set_next 0 s)) as [r o]; cbn in E; subst r; [by left|by right; right; left].
Qed.
Lemma after_load_fine cursor w : loaded (after_load DB_LOAD_OK false cursor w).1.
Proof.
  unfold WalletLoad.after_load. cbn [andb]. rewrite bool_decide_true by done. cbn [negb].
  unfold X.bind at 1, upd at 1, X.modify at 1. unfold X.bind at 1, rd at 1, X.gets at 1. set (w1 := if negb _ then _ else _).
  unfold X.bind at 1. destruct (write_upgrades (vWalletUpgrade (wss w1)) w1) as [w2 ->].
  destruct (fIsEncrypted (wss w1) && _); [by right; left|]. unfold X.bind at 1.
  assert (Hr : forall w, loaded ((if fAnyUnordered (wss w1) then reorder DB_NOTFOUND disk cursor else X.ret DB_LOAD_OK) w).1).
  { intros w3. destruct (fAnyUnordered (wss w1)); [apply reorder_loaded|by left]. }
  destruct (nFileVersion (wss w1) <? CLIENT_VERSION); [unfold event, upd, X.modify|unfold X.ret at 1]; apply Hr.
Qed.


End Result.
End Load.

Section More.
Context `{Destinations} `{Chain} `{!Reading}.
Implicit Types w : CWallet.

(** ** Single records *)

(** A transaction whose reading throws stays in the wallet as far as it was read, and is not bound to it. *)
Lemma unread_tx_stays k v w hash k' : Accounts.read_string k = Some (lit "tx", k') -> read_uint256 k' = Some (hash, []) ->
  mapWallet w !! hash = None -> (read_wtx new_tx v).2 = None ->
  ReadKeyValue k v w = (false, lit "tx", set_txs (<[hash := (read_wtx new_tx v).1]> (mapWallet w)) w).
Proof.
  intros Hk Hh Hw Hv. unfold ReadKeyValue. rewrite Hk.
  change (read_record (lit "tx") k' v w) with (read_tx k' v w). unfold read_tx. rewrite Hh.
  unfold X.bind, get, X.ret, rd, X.gets. rewrite Hw. cbn [default]. destruct (read_wtx new_tx v) as [t rest]. cbn in Hv. by subst rest.
Qed.

(** A transaction that is kept passed the check under the hash of its record. *)
Lemma read_tx_checked k v w w' : read_tx k v w = (Done true, w') ->
  exists hash t, mapWallet w' !! hash = Some t /\ bound t = true /\
    CheckTransaction (WalletBook.tx_of (lt_wtx t)) = Accept /\ Block.TxHash (WalletBook.tx_of (lt_wtx t)) = hash.
Proof.
  unfold read_tx. intros E. apply then_result in E as ([hash k'] & w1 & E1 & E). apply get_result in E1 as [_ ->].
  apply then_result in E as (old & w1 & E1 & E). destruct (read_wtx old v) as [t rest]. clear E1.
  apply then_result in E as (u & wa & E1 & E). clear E1. apply then_result in E as (v' & wb & E1 & E). apply get_result in E1 as [_ ->].
  destruct (bool_decide (CheckTransaction _ = Accept) && _) eqn:Ec; [|by apply then_result in E as (? & ? & _ & ?)].
  apply andb_true_iff in Ec as [Ec Eh]. apply bool_decide_eq_true in Ec. apply Z.eqb_eq in Eh.
  apply then_result in E as (u2 & w2 & E1 & E). injection E1 as _ <-.
  apply then_result in E as (t' & w3 & E1 & E).
  assert (Ht : mapWallet w3 !! hash = Some t' /\ bound t' = true /\ WalletBook.tx_of (lt_wtx t') = WalletBook.tx_of (lt_wtx t)).
  { unfold upgrade_tx in E1. destruct (_ && _); [|injection E1 as <- <-; cbn; by rewrite lookup_insert_eq].
    apply then_result in E1 as (t2 & w4 & E2 & E1). apply then_result in E1 as (u3 & w5 & E3 & E1). injection E3 as _ <-.
    apply then_result in E1 as (u4 & w6 & E4 & E1). injection E4 as _ <-. injection E1 as <- <-. cbn. rewrite lookup_insert_eq. split; [done|].
    destruct v' as [|c v']; [by injection E2 as <- _|].
    apply then_result in E2 as ([f v2] & w7 & _ & E2). apply then_result in E2 as ([g v3] & w8 & _ & E2).
    destruct (read_text_into _ v3) as [s rest']. apply then_result in E2 as (u5 & w9 & _ & E2). apply then_result in E2 as (u6 & w10 & _ & E2).
    by injection E2 as <- _. }
  destruct Ht as (Hw & Hb & Htx). exists hash, t'. rewrite Htx. split_and!; [|done|done|done].
  apply then_result in E as (u7 & w4 & E2 & E). injection E as <-. destruct (_ =? -1); injection E2 as _ <-; done.
Qed.

(** ** Recovery *)

(** Without [fOnlyKeys] everything that was salvaged is put into the new file; with it the records of key types that
    can be read, and nothing else. *)
Lemma recover_loop_all rows w : recover_loop false rows w = rows.
Proof. induction rows as [|r rows IH]; cbn; [done|by rewrite IH]. Qed.
Lemma recover_loop_keys rows w : sublist (recover_loop true rows w) rows /\
  Forall (fun r => exists t k, Accounts.read_string r.1 = Some (t, k) /\ IsKeyType t = true) (recover_loop true rows w).
Proof.
  revert w. induction rows as [|r rows IH]; intros w; cbn [recover_loop negb]; [split; constructor|].
  destruct (ReadKeyValue r.1 r.2 w) as [[ok t] w1] eqn:E. destruct (IH w1) as [I1 I2].
  destruct (IsKeyType t) eqn:Et; [|split; [by constructor|done]]. destruct ok; [|split; [by constructor|done]]. cbn [negb].
  split; [by constructor|]. constructor; [|done]. unfold ReadKeyValue in E. destruct (Accounts.read_string r.1) as [[t' k]|] eqn:Er; [|done].
  exists t', k. split; [done|]. destruct (read_record t' k r.2 w) as [[[]| |] w2]; by simplify_eq.
Qed.

(** ** The numbers of the entries *)

Abbreviation N m := (X.keeps (fun w w' => nAccountingEntryNumber w <= nAccountingEntryNumber w') m).
#[local] Instance number_preorder : PreOrder (fun w w' => nAccountingEntryNumber w <= nAccountingEntryNumber w').
Proof. split; [intros w; lia|intros w1 w2 w3 ? ?; lia]. Qed.
Lemma N_upd f : (forall w, nAccountingEntryNumber w <= nAccountingEntryNumber (f w)) -> N (upd f).
Proof. intros Hf w. apply Hf. Qed.
Ltac count := repeat first
  [ apply (X.keeps_ret _) | apply (X.keeps_throw _) | apply (X.keeps_gets _)
  | (apply N_upd; intros ?; repeat case_match; (reflexivity || (cbn; lia))) | (apply (X.keeps_bind _); [|intros ?]) | case_match ].
Lemma N_record t k v : N (read_record t k v).
Proof.
  unfold read_record. repeat (apply X.keeps_if).
  all: unfold read_name, read_tx, upgrade_tx, set_tx, read_acentry, read_key, read_mkey, read_ckey, read_meta, read_default, read_pool,
    read_version, read_cscript, read_orderposnext, on_store, upd_wss, get; count.
Qed.
Lemma ReadKeyValue_number k v w : nAccountingEntryNumber w <= nAccountingEntryNumber (ReadKeyValue k v w).2.
Proof.
  unfold ReadKeyValue. destruct (Accounts.read_string k) as [[t k']|]; [|cbn; lia].
  pose proof (N_record t k' v w) as Hk. by destruct (read_record t k' v w) as [[ok| |] w'].
Qed.
Lemma load_loop_number rs st : nAccountingEntryNumber st.2 <= nAccountingEntryNumber (load_loop rs st).2.
Proof.
  revert st. induction rs as [|r rs IH]; intros [[res bad] w]; [cbn; lia|]. cbn [load_loop foldl].
  change (foldl _ ?st rs) with (load_loop rs st). etransitivity; [|apply IH]. unfold load_one.
  pose proof (ReadKeyValue_number r.1 r.2 w) as Hn. destruct (ReadKeyValue r.1 r.2 w) as [[[] t] w1]; [done|].
  cbn in *. destruct (IsKeyType t); [done|]. by case_bool_decide.
Qed.

(** A new accounting entry is written under a key that the file does not have. *)
Lemma new_entry_is_new rs st a n v : (Accounts.acentry_key a n, v) ∈ rs -> lenZ a < 2 ^ 25 -> in_u 64 n ->
  nAccountingEntryNumber (load_loop rs st).2 < 2 ^ 64 - 1 ->
  Accounts.acentry_key a (u64 (nAccountingEntryNumber (load_loop rs st).2 + 1)) <> Accounts.acentry_key a n.
Proof.
  intros Hin Ha Hn Hmax.
  assert (Hle : n <= nAccountingEntryNumber (load_loop rs st).2).
  { clear Hmax. revert st. induction rs as [|r rs IH]; intros [[res bad] w]; [by apply elem_of_nil in Hin|].
    cbn [load_loop foldl]. change (foldl _ ?st rs) with (load_loop rs st). apply elem_of_cons in Hin as [<-|Hin]; [|by apply IH].
    etransitivity; [|apply load_loop_number]. unfold load_one, ReadKeyValue. cbn [fst snd].
    assert (Ek : Accounts.read_string (Accounts.acentry_key a n) = Some (lit "acentry", Accounts.write_string a ++ Accounts.write_u64 n))
      by (by apply Accounts.read_write_string).
    rewrite Ek. change (read_record (lit "acentry") ?k v w) with (read_acentry k v w).
    unfold read_acentry, X.bind, get, X.ret, rd, X.gets, upd, X.modify. rewrite Accounts.read_write_string by done.
    rewrite <-(app_nil_r (Accounts.write_u64 n)), Accounts.read_write_u64 by done.
    set (w1 := if _ <? n then _ else w). assert (Hw : n <= nAccountingEntryNumber w1) by (subst w1; case_match; cbn; lia).
    destruct (negb _); [|done]. destruct (Accounts.read_acentry _ v) as [e|]; cbn; [|by case_bool_decide]. by destruct (_ =? -1). }
  intros E. unfold Accounts.acentry_key in E. do 2 apply app_inv_head in E.
  assert (Hu : in_u 64 (u64 (nAccountingEntryNumber (load_loop rs st).2 + 1))) by (apply wrapu_range; lia).
  pose proof (Accounts.read_write_u64 _ [] Hu) as E1. pose proof (Accounts.read_write_u64 _ [] Hn) as E2. rewrite E, E2 in E1.
  injection E1 as E1. unfold in_u in Hn. rewrite wrapu_small in E1 by (unfold in_u; lia). lia.
Qed.
End More.

(** ** A concrete wallet *)

Module Examples.

#[local] Existing Instance ValidationThms.Examples.hashing.
#[local] Existing Instance ValidationThms.Examples.chain.
#[local] Existing Instance GroupingsThms.Examples.names.

Definition raw : bytes := replicate 65 0.
Definition one {A} (f : Z -> A) (b : bytes) : option (A * bytes) := match b with n :: r => Some (f n, r) | [] => None end.
(** The transaction with one input and one output, and a number. *)
Definition some_tx (n : Z) : CTransaction :=
  mkTx 1 [mkTxIn (mkOutPoint 7 0) [] uint_max] [mkTxOut 1 []] n.
Definition loaded_tx (tx : CTransaction) (pos : Z) : LoadedTx :=
  mkLoadedTx (WalletBook.mkWtx (WalletBook.mkMerkleTx tx 0 [] (-1)) [] true [] 5 5 pos []) 0 false.
Definition key_id (p : CPubKey) : Z := Digits.be_val 256 (CPubKey.data p).
Definition add_plain (k : CKey) (p : CPubKey) (s : Crypt.KeyStore) : bool * Crypt.KeyStore :=
  if Crypt.fUseCrypto s then (false, s)
  else (true, Crypt.mkStore (<[key_id p := k]> (Crypt.mapKeys s)) (Crypt.mapCryptedKeys s) (Crypt.vMasterKey s) false).
Definition add_crypted (p : CPubKey) (c : bytes) (s : Crypt.KeyStore) : bool * Crypt.KeyStore :=
  if Crypt.fUseCrypto s || bool_decide (Crypt.mapKeys s = ∅)
  then (true, Crypt.mkStore (Crypt.mapKeys s) (<[key_id p := (p, c)]> (Crypt.mapCryptedKeys s)) (Crypt.vMasterKey s) true)
  else (false, s).

Definition text : bytes -> option (bytes * bytes) := @Accounts.read_string AccountsThms.stream.

#[local] Program Instance reading : Reading := {|
  stream := AccountsThms.stream;
  read_uint256 := one id; read_uint160 := one id;
  read_pubkey old b := match text b with Some (s, r) => (CPubKey.of_bytes raw s, Some r) | None => (old, None) end;
  read_vector := text;
  read_wkey v := fst <$> text v;
  read_master v := match v with n :: _ => Some (Crypt.mkMasterKey [n] [] 0 25000 []) | [] => None end;
  read_keymeta := head; read_u32 := one id; read_i32 := head; read_i64 := one id; read_char := one id; read_script := Some;
  read_text_into old v := match text v with Some (s, r) => (s, Some r) | None => (old, None) end;
  read_wtx old v := match v with [n; pos] => (loaded_tx (some_tx n) (pos - 1), Some []) | _ => (old, None) end;
  CPubKey_new := CPubKey.new raw; raw_pubkey := raw; new_tx := loaded_tx CTransaction.SetNull (-1); address_Get := lenZ;
  SetPrivKey p c := match p with [] => None | _ => Some (mkKey true c p) end;
  GetPubKey k := CPubKey.of_bytes raw (key_vch k); GetID := key_id; LoadKey := add_plain; AddCryptedKey := add_crypted;
  LoadCScript s l := (true, l ++ [s]) |}.
Next Obligation. done. Qed.
Next Obligation.
  intros k p s a. unfold add_plain. destruct (Crypt.fUseCrypto s) eqn:E; [done|]. unfold Crypt.HaveKey, Crypt.IsCrypted, Crypt.Basic.HaveKey. cbn. rewrite E. cbn.
  rewrite !bool_decide_eq_true. rewrite dom_insert. set_solver.
Qed.
Next Obligation.
  intros k p s. unfold add_plain. destruct (Crypt.fUseCrypto s) eqn:E; [done|]. intros _. unfold Crypt.HaveKey, Crypt.IsCrypted, Crypt.Basic.HaveKey. cbn.
  apply bool_decide_eq_true. rewrite dom_insert. set_solver.
Qed.
Next Obligation.
  intros p c s a Ha. unfold add_crypted. destruct (Crypt.fUseCrypto s) eqn:E; cbn [orb].
  - unfold Crypt.HaveKey, Crypt.IsCrypted in *. rewrite E in Ha. cbn [Crypt.fUseCrypto negb Crypt.mapCryptedKeys snd] in *.
    apply bool_decide_eq_true in Ha. apply bool_decide_eq_true. rewrite dom_insert. set_solver.
  - destruct (bool_decide (Crypt.mapKeys s = ∅)) eqn:Em; [|done]. apply bool_decide_eq_true in Em.
    unfold Crypt.HaveKey, Crypt.IsCrypted, Crypt.Basic.HaveKey in Ha. rewrite E, Em in Ha. cbn [negb] in Ha.
    apply bool_decide_eq_true in Ha. rewrite dom_empty in Ha. set_solver.
Qed.
Next Obligation.
  intros p c s. unfold add_crypted. destruct (_ || _); [|done]. intros _. unfold Crypt.HaveKey, Crypt.IsCrypted. cbn.
  apply bool_decide_eq_true. rewrite dom_insert. set_solver.
Qed.

Definition no_wallet : CWallet :=
  mkWallet ∅ ∅ Crypt.KeyStore_new ∅ 0 0 (CPubKey.new raw) ∅ 0 [] 0 false CWalletScanState_new [].
Definition typed (t : bytes) (k v : bytes) : bytes * bytes := (Accounts.write_string t ++ k, v).
Definition pub : bytes := 2 :: replicate 32 9.

(** A key, a name, a master key, a transaction of the number 3 under its hash, and a version. *)
Definition file : list (bytes * bytes) :=
  [typed (lit "key") (Accounts.write_string pub) (Accounts.write_string pub); typed (lit "keymeta") (Accounts.write_string pub) [77];
   typed (lit "mkey") [1] [8]; typed (lit "name") (Accounts.write_string (lit "addr")) (Accounts.write_string (lit "me"));
   typed (lit "tx") [13] [3; 5]; typed (lit "version") [] [70]].


(** A key whose private key is missing, and a transaction that is cut off. *)
Definition bad_key : bytes * bytes := typed (lit "key") (Accounts.write_string pub) [].
Definition cut_tx : bytes * bytes := typed (lit "tx") [14] [3].
Definition load rs : Outcome DBErrors * CWallet :=
  LoadWallet_db 80 (-30988) (fun _ => true) (Some 60) (Some (rs, -30988)) None no_wallet.


(** The transaction that could not be read is in the wallet, without the wallet it belongs to. *)
Example cut_tx_in_wallet : (bound <$> mapWallet (load (cut_tx :: file)).2 !! 14) = Some false.
Proof. vm_compute. reflexivity. Qed.

(** The record that [Salvage] makes of the last line is put into the recovered file, and every later load complains of it. *)
Example salvaged_record :
  let rows := file ++ [([0xDA], [])] in
  Recover 0 (true, rows) 0 true (fun _ => 0) false no_wallet = Some (true, rows) /\
  (load rows).1 = Done DB_NONCRITICAL_ERROR.
Proof. vm_compute. split; reflexivity. Qed.

(** Two keys of the times 0 (unknown) and 77: the birthday of the wallet depends on their order. *)
Example birthday :
  let key_of t k := [typed (lit "key") (Accounts.write_string k) (Accounts.write_string k); typed (lit "keymeta") (Accounts.write_string k) [t]] in
  let other := 2 :: replicate 32 8 in
  nTimeFirstKey (load (key_of 0 pub ++ key_of 77 other ++ [typed (lit "version") [] [70]])).2 = 77 /\
  nTimeFirstKey (load (key_of 77 pub ++ key_of 0 other ++ [typed (lit "version") [] [70]])).2 = 0.
Proof. vm_compute. split; reflexivity. Qed.
End Examples.
