(* ===== verification/TxDb.v ===== *)
(** The data bases of the chain: [CLevelDB] and [CLevelDBBatch] of src/leveldb.h and src/leveldb.cpp, [CCoinsViewDB] and
    [CBlockTreeDB] of src/txdb.cpp.

    LevelDB is a sorted map from keys to values; a batch is written as a whole or not at all (its documented behaviour).
    [failure n]: the n-th access fails with that status.  txdb.h, main.h and serialize.h are not in the tree.  Parameters
    (class [ChainFormat]): the formats of hashes, numbers, texts and of the records, and [InsertBlockIndex] and [CheckIndex]
    with what the code relies on.  A pointer to a block index is its hash.  Options, caches, the environment in memory and the
    opening of the data base are left out.

    The theorems: the coins of the data base refine a map of unspent coins, and the tree of the blocks is read back. *)

From stdpp Require Import sorting.
From S2P Require Import Prelude Monad Core CoreThms.
From S2P Require Db AccountsThms.

(** The statuses of LevelDB that are not ok. *)
Inductive Failure := NotFound | Corruption | IOError | OtherFailure.

(** [data]: what is stored; [accesses]: how many there were; [message]: of the last exception. *)
Record LevelDB := mkLevelDB { data : gmap bytes bytes; accesses : nat; message : bytes }.
Inductive BatchOp := Put (k v : bytes) | Delete (k : bytes).

Definition apply_op (m : gmap bytes bytes) (op : BatchOp) : gmap bytes bytes :=
  match op with Put k v => <[k := v]> m | Delete k => delete k m end.
Definition apply_batch (b : list BatchOp) (m : gmap bytes bytes) : gmap bytes bytes := foldl apply_op m b.

Section Level.
Context (failure : nat -> option Failure).

Abbreviation L := (X LevelDB).

(** The status of the next access. *)
Definition status : L (option Failure) :=
  n <~ X.gets accesses ;; X.modify (fun d => mkLevelDB (data d) (S n) (message d)) ;~ X.ret (failure n).

Definition HandleError {A} (f : Failure) : L A :=
  let msg := match f with
             | Corruption => lit "Database corrupted"
             | IOError => lit "Database I/O error"
             | NotFound => lit "Database entry missing"
             | OtherFailure => lit "Unknown database error" end in
  X.modify (fun d => mkLevelDB (data d) (accesses d) msg) ;~ X.throw.

(** [None]: the status is that there is no such key. *)
Definition Get (k : bytes) : L (option bytes) :=
  f <~ status ;;
  match f with
  | Some NotFound => X.ret None
  | Some f => HandleError f
  | None => X.gets (fun d => data d !! k)
  end.

(** [None]: false.  [parse] reads the value; an exception of it is a false, too. *)
Definition Read {V} (k : bytes) (parse : bytes -> option V) : L (option V) :=
  v <~ Get k ;; X.ret (v ← v; parse v).
Definition Exists (k : bytes) : L bool := v <~ Get k ;; X.ret (bool_decide (is_Some v)).
Definition WriteBatch (b : list BatchOp) : L bool :=
  f <~ status ;;
  match f with
  | Some f => HandleError f
  | None => X.modify (fun d => mkLevelDB (apply_batch b (data d)) (accesses d) (message d)) ;~ X.ret true
  end.
Definition Write (k v : bytes) : L bool := WriteBatch [Put k v].
Definition Erase (k : bytes) : L bool := WriteBatch [Delete k].
Definition Sync : L bool := WriteBatch [].
End Level.

Record DiskBlock := mkDiskBlock {
  db_hash : uint256; db_hashPrev : uint256; db_nHeight : Z; db_nFile : Z; db_nDataPos : Z; db_nUndoPos : Z; db_nVersion : Z;
  db_hashMerkleRoot : uint256; db_nTime : Z; db_nBits : Z; db_nNonce : Z; db_nStatus : Z; db_nTx : Z }.

Record BlockIndex := mkBlockIndex {
  pprev : option uint256; nHeight : Z; nFile : Z; nDataPos : Z; nUndoPos : Z; bi_nVersion : Z;
  bi_hashMerkleRoot : uint256; bi_nTime : Z; bi_nBits : Z; bi_nNonce : Z; nStatus : Z; nTx : Z }.

(** The members that are assigned from a record. *)
Definition of_disk (prev : option uint256) (d : DiskBlock) : BlockIndex :=
  mkBlockIndex prev (db_nHeight d) (db_nFile d) (db_nDataPos d) (db_nUndoPos d) (db_nVersion d) (db_hashMerkleRoot d)
    (db_nTime d) (db_nBits d) (db_nNonce d) (db_nStatus d) (db_nTx d).

Class ChainFormat := {
  ser_hash : uint256 -> bytes;
  unser_hash : bytes -> option (uint256 * bytes);
  ser_int : Z -> bytes;
  unser_int : bytes -> option Z;
  ser_text : bytes -> bytes;
  ser_disk : DiskBlock -> bytes;
  unser_disk : bytes -> option DiskBlock;
  ser_VARINT : Z -> bytes;
  ser_out : CTxOut -> bytes;
  InsertBlockIndex : uint256 -> gmap uint256 BlockIndex -> option uint256 * gmap uint256 BlockIndex;
  new_index : BlockIndex;
  disk_ok : DiskBlock -> Prop;
  CheckIndex : BlockIndex -> bool;
  hashGenesisBlock : uint256;
  unser_ser_hash h rest : in_u 256 h -> unser_hash (ser_hash h ++ rest) = Some (h, rest);
  unser_ser_disk d : disk_ok d -> unser_disk (ser_disk d) = Some d;
  ser_hash_zero_least h : in_u 256 h -> Db.string_leb (ser_hash 0) (ser_hash h) = true;
  (* the null hash has no index, and an index that is not there is made *)
  InsertBlockIndex_null m : InsertBlockIndex 0 m = (None, m);
  InsertBlockIndex_spec h m : h <> 0 ->
    InsertBlockIndex h m = (Some h, if decide (is_Some (m !! h)) then m else <[h := new_index]> m);
}.

Section Views.
Context `{CoinCodec} `{ChainFormat} (failure : nat -> option Failure).
Abbreviation L := (X LevelDB).

(** ** Coins *)

Definition coin_key (txid : uint256) : bytes := 99 :: ser_hash txid.          (* 'c' *)
Definition best_key : bytes := [66].                                           (* 'B' *)

(** [None]: the assertion of [CCoins::Serialize] fails. *)
Definition BatchWriteCoins (batch : list BatchOp) (hash : uint256) (coins : CCoins) : option (list BatchOp) :=
  if CCoins.IsPruned coins then Some (batch ++ [Delete (coin_key hash)])
  else v ← CCoins.Serialize coins; Some (batch ++ [Put (coin_key hash) v]).
Definition BatchWriteHashBestChain (batch : list BatchOp) (hash : uint256) : list BatchOp := batch ++ [Put best_key (ser_hash hash)].

Definition parse_coins (v : bytes) : option CCoins := fst <$> CCoins.Unserialize v.
Definition parse_hash (v : bytes) : option uint256 := fst <$> unser_hash v.

Definition GetCoins (txid : uint256) : L (option CCoins) := Read failure (coin_key txid) parse_coins.
Definition SetCoins (txid : uint256) (coins : CCoins) : L bool :=
  b <~ X.lift (BatchWriteCoins [] txid coins) ;; WriteBatch failure b.
Definition HaveCoins (txid : uint256) : L bool := Exists failure (coin_key txid).

(** The index of the best block, if [mapBlockIndex] knows it. *)
Definition GetBestBlock (mapBlockIndex : gset uint256) : L (option uint256) :=
  h <~ Read failure best_key parse_hash ;;
  X.ret (h ← h; if bool_decide (h ∈ mapBlockIndex) then Some h else None).
Definition SetBestBlock (hash : uint256) : L bool := WriteBatch failure (BatchWriteHashBestChain [] hash).

(** A walk over a map in the order of its keys. *)
Definition hash_le {A} (p q : uint256 * A) : Prop := p.1 <= q.1.
#[local] Instance hash_le_dec {A} (p q : uint256 * A) : Decision (hash_le p q).
Proof. unfold hash_le. apply _. Defined.
Definition walk {A} (m : gmap uint256 A) : list (uint256 * A) := merge_sort hash_le (map_to_list m).

Fixpoint batch_coins (l : list (uint256 * CCoins)) (batch : list BatchOp) : option (list BatchOp) :=
  match l with
  | [] => Some batch
  | (h, c) :: l' => batch ← BatchWriteCoins batch h c; batch_coins l' batch
  end.
Definition BatchWrite (mapCoins : gmap uint256 CCoins) (pindex : option uint256) : L bool :=
  b <~ X.lift (batch_coins (walk mapCoins) []) ;;
  WriteBatch failure (match pindex with Some h => BatchWriteHashBestChain b h | None => b end).

(** ** Statistics of the coins *)

Record CCoinsStats := mkStats {
  st_nHeight : Z; st_hashBlock : uint256; nTransactions : Z; nTransactionOutputs : Z; nSerializedSize : Z;
  hashed : bytes; nTotalAmount : Z }.

(** The loop over the outputs from [i] on: the outputs counted, what is hashed, and the amount. *)
Fixpoint stat_outs (i : Z) (l : list CTxOut) (n : Z) (ss : bytes) (nTotal : Z) : Z * bytes * Z :=
  match l with
  | [] => (n, ss, nTotal)
  | out :: l' =>
    if negb (CTxOut.IsNull out) then stat_outs (i + 1) l' (u64 (n + 1)) (ss ++ ser_VARINT (i + 1) ++ ser_out out) (s64 (nTotal + nValue out))
    else stat_outs (i + 1) l' n ss nTotal
  end.

(** A record: [None]: an exception, which is caught. *)
Definition stat_record (st : CCoinsStats) (r : bytes * bytes) : option CCoinsStats :=
  match r.1 with
  | [] => None
  | chType :: k =>
    if chType =? 99 then
      coins ← parse_coins r.2;
      '(txhash, _) ← unser_hash k;
      let ss := hashed st ++ ser_hash txhash ++ ser_VARINT (cc_nVersion coins) ++ [if fCoinBase coins then 99 else 110] ++ ser_VARINT (cc_nHeight coins) in
      let '(n, ss, total) := stat_outs 0 (cc_vout coins) (nTransactionOutputs st) ss (nTotalAmount st) in
      Some (mkStats (st_nHeight st) (st_hashBlock st) (u64 (nTransactions st + 1)) n
              (u64 (nSerializedSize st + 32 + lenZ r.2)) (ss ++ ser_VARINT 0) total)
    else Some st
  end.
Fixpoint stat_loop (l : list (bytes * bytes)) (st : CCoinsStats) : option CCoinsStats :=
  match l with [] => Some st | r :: l' => st ← stat_record st r; stat_loop l' st end.

(** The records of an iterator, in the order of their keys. *)
Definition key_le (p q : bytes * bytes) : Prop := Db.string_leb p.1 q.1 = true.
#[local] Instance key_le_dec p q : Decision (key_le p q).
Proof. unfold key_le. apply _. Defined.
Definition iterator (m : gmap bytes bytes) : list (bytes * bytes) := merge_sort key_le (map_to_list m).

(** [heights]: the heights of the blocks of [mapBlockIndex].  No best block is a null pointer.  [nTotalAmount] is counted in a
    variable of its own from 0 on; what is hashed stands for its hash. *)
Definition GetStats (heights : gmap uint256 Z) (stats : CCoinsStats) : L (option CCoinsStats) :=
  m <~ X.gets data ;;
  best <~ GetBestBlock (dom heights) ;;
  h <~ X.lift best ;;
  match stat_loop (iterator m) (mkStats (st_nHeight stats) h (nTransactions stats) (nTransactionOutputs stats) (nSerializedSize stats) (ser_hash h) 0) with
  | None => X.ret None
  | Some st =>
    best <~ GetBestBlock (dom heights) ;;
    h <~ X.lift best ;;
    X.ret (Some (mkStats (default 0 (heights !! h)) (st_hashBlock st) (nTransactions st) (nTransactionOutputs st) (nSerializedSize st) (hashed st) (nTotalAmount st)))
  end.

(** ** The tree of the blocks *)

Definition WriteBlockIndex (blockindex : DiskBlock) : L bool := Write failure (98 :: ser_hash (db_hash blockindex)) (ser_disk blockindex).
Definition ReadBestInvalidWork {V} (parse : bytes -> option V) : L (option V) := Read failure [73] parse.
Definition WriteBestInvalidWork (work : bytes) : L bool := Write failure [73] work.
Definition WriteBlockFileInfo (nFile : Z) (info : bytes) : L bool := Write failure (102 :: ser_int nFile) info.
Definition ReadBlockFileInfo {V} (nFile : Z) (parse : bytes -> option V) : L (option V) := Read failure (102 :: ser_int nFile) parse.
Definition WriteLastBlockFile (nFile : Z) : L bool := Write failure [108] (ser_int nFile).
Definition ReadLastBlockFile : L (option Z) := Read failure [108] unser_int.
Definition WriteReindexing (fReindexing : bool) : L bool := if fReindexing then Write failure [82] [49] else Erase failure [82].
Definition ReadReindexing : L bool := Exists failure [82].
Definition tx_key (txid : uint256) : bytes := 116 :: ser_hash txid.
Definition ReadTxIndex {V} (txid : uint256) (parse : bytes -> option V) : L (option V) := Read failure (tx_key txid) parse.
Definition WriteTxIndex (vect : list (uint256 * bytes)) : L bool := WriteBatch failure ((fun p => Put (tx_key p.1) p.2) <$> vect).
Definition flag_key (name : bytes) : bytes := 70 :: ser_text name.
Definition WriteFlag (name : bytes) (fValue : bool) : L bool := Write failure (flag_key name) [if fValue then 49 else 48].
(** [None]: false, and the flag is as it was. *)
Definition ReadFlag (name : bytes) : L (option bool) :=
  ch <~ Read failure (flag_key name) head ;; X.ret (ch ← ch; Some (ch =? 49)).

(** *** Loading the tree *)

Record Tree := mkTree { mapBlockIndex : gmap uint256 BlockIndex; pindexGenesisBlock : option uint256 }.

(** A record of the type 'b': whether the loop goes on, and the tree; [None]: a null pointer is written through. *)
Definition load_block (v : bytes) (t : Tree) : option (bool * Tree) :=
  match unser_disk v with
  | None => Some (false, t)
  | Some d =>
    let '(pnew, m) := InsertBlockIndex (db_hash d) (mapBlockIndex t) in
    let '(prev, m) := InsertBlockIndex (db_hashPrev d) m in
    h ← pnew;
    let m := alter (fun _ => of_disk prev d) h m in
    let g := if bool_decide (pindexGenesisBlock t = None) && (db_hash d =? hashGenesisBlock) then Some h else pindexGenesisBlock t in
    Some (CheckIndex (of_disk prev d), mkTree m g)
  end.

(** The result and the tree. *)
Fixpoint load_blocks (l : list (bytes * bytes)) (t : Tree) : option (bool * Tree) :=
  match l with
  | [] => Some (true, t)
  | (k, v) :: l' =>
    match k with
    | [] => Some (false, t)
    | chType :: _ =>
      if chType =? 98 then '(ok, t) ← load_block v t; if (ok : bool) then load_blocks l' t else Some (false, t)
      else Some (true, t)
    end
  end.

(** [Seek]: from the first key that is not less. *)
Definition LoadBlockIndexGuts (t : Tree) : L (bool * Tree) :=
  m <~ X.gets data ;;
  X.lift (load_blocks (filter (fun r => Db.string_leb (98 :: ser_hash 0) r.1 = true) (iterator m)) t).
End Views.

(** * Theorems *)

Section Views.
Context `{CoinCodec} `{ChainFormat} (failure : nat -> option Failure).
Implicit Types (d : LevelDB) (m : gmap uint256 CCoins).

Lemma string_leb_total a b : Db.string_leb a b = true \/ Db.string_leb b a = true.
Proof.
  revert b. induction a as [|x a IH]; intros [|y b]; [by left..|by right|]. rewrite !AccountsThms.string_leb_cons.
  destruct (Ztrichotomy x y) as [?|[->|?]]; [naive_solver lia| |naive_solver lia]. destruct (IH b); naive_solver.
Qed.

(** ** Coins *)

Lemma parse_ser_hash h : in_u 256 h -> parse_hash (ser_hash h) = Some h.
Proof. intros Hh. unfold parse_hash. rewrite <-(app_nil_r (ser_hash h)), unser_ser_hash by done. done. Qed.
Lemma ser_hash_inj h h' : in_u 256 h -> in_u 256 h' -> ser_hash h = ser_hash h' -> h = h'.
Proof. intros Hh Hh' E. apply (f_equal parse_hash) in E. rewrite !parse_ser_hash in E by done. congruence. Qed.
Lemma coin_key_inj h h' : in_u 256 h -> in_u 256 h' -> coin_key h = coin_key h' -> h = h'.
Proof. unfold coin_key. intros Hh Hh' [= E]. by apply ser_hash_inj. Qed.

(** A data base holds a map of coins, none of them pruned, and the hash of the best block. *)
Record holds_coins (kv : gmap bytes bytes) m (best : option uint256) : Prop := mkHolds {
  h_coin : forall h, in_u 256 h -> kv !! coin_key h = (m !! h ≫= CCoins.Serialize);
  h_good : forall h c, m !! h = Some c -> in_u 256 h /\ coins_ok c /\ CCoins.IsPruned c = false;
  h_best : kv !! best_key = ser_hash <$> best;
  h_known : forall b, best = Some b -> in_u 256 b;
  h_keys : forall k v, kv !! k = Some v -> head k = Some 99 -> exists h, in_u 256 h /\ k = coin_key h }.


(** What the coins of a transaction become. *)
Definition put_coin h c m : gmap uint256 CCoins := if CCoins.IsPruned c then delete h m else <[h := c]> m.

Lemma apply_batch_app b b' kv : apply_batch (b ++ b') kv = apply_batch b' (apply_batch b kv).
Proof. apply foldl_app. Qed.

Lemma serialize_some c : coins_ok c -> CCoins.IsPruned c = false -> exists v, CCoins.Serialize c = Some v.
Proof.
  intros Hc Hp. destruct (CCoins_roundtrip c [] Hc) as [Hs _]. destruct (CCoins.Serialize c) as [v|]; [by eexists|].
  rewrite (proj1 Hs eq_refl) in Hp. done.
Qed.

Lemma BatchWriteCoins_holds b h c kv m best : in_u 256 h -> coins_ok c -> holds_coins (apply_batch b kv) m best ->
  exists b', BatchWriteCoins b h c = Some b' /\ holds_coins (apply_batch b' kv) (put_coin h c m) best.
Proof.
  intros Hh Hc [Hm Hg Hb Hn Hk]. unfold BatchWriteCoins, put_coin. destruct (CCoins.IsPruned c) eqn:Hp.
  - eexists. split; [done|]. rewrite apply_batch_app. cbn. constructor.
    + intros h' Hh'. destruct (decide (h' = h)) as [->|Hne]; [by rewrite !lookup_delete_eq|].
      rewrite !lookup_delete_ne; [by apply Hm|done|]. intros E. by apply coin_key_inj in E.
    + intros h' c' [_ Hc']%lookup_delete_Some. eauto.
    + by rewrite lookup_delete_ne by done.
    + done.
    + intros k v [_ Hv]%lookup_delete_Some. eauto.
  - destruct (serialize_some c Hc Hp) as [v Hv]. rewrite Hv. eexists. split; [done|]. rewrite apply_batch_app. cbn. constructor.
    + intros h' Hh'. destruct (decide (h' = h)) as [->|Hne]; [rewrite !lookup_insert_eq; by cbn|].
      rewrite !lookup_insert_ne; [by apply Hm|done|]. intros E. by apply coin_key_inj in E.
    + intros h' c' [[<- <-]|[_ Hc']]%lookup_insert_Some; [done|eauto].
    + by rewrite lookup_insert_ne by done.
    + done.
    + intros k v' [[<- <-]|[_ Hv']]%lookup_insert_Some Hhd; [by eexists|eauto].
Qed.

Lemma batch_coins_holds l b kv m best : Forall (fun p => in_u 256 p.1 /\ coins_ok p.2) l -> holds_coins (apply_batch b kv) m best ->
  exists b', batch_coins l b = Some b' /\ holds_coins (apply_batch b' kv) (foldl (fun m p => put_coin p.1 p.2 m) m l) best.
Proof.
  intros Hl. revert b m. induction Hl as [|[h c] l [Hh Hc] _ IH]; intros b m Hm; [by exists b|]. cbn [batch_coins foldl fst snd] in *.
  destruct (BatchWriteCoins_holds b h c kv m best Hh Hc Hm) as (b1 & -> & Hb1). cbn [mbind option_bind]. by apply IH.
Qed.

(** The map after a batch of changes. *)
Definition changed mapCoins m : gmap uint256 CCoins :=
  merge (fun c old => match c with Some c => if CCoins.IsPruned c then None else Some c | None => old end) mapCoins m.

Lemma put_coins_lookup l m h : NoDup l.*1 ->
  foldl (fun m p => put_coin p.1 p.2 m) m l !! h =
    match (list_to_map l : gmap uint256 CCoins) !! h with Some c => if CCoins.IsPruned c then None else Some c | None => m !! h end.
Proof.
  revert m. induction l as [|[k c] l IH]; intros m Hn; [done|]. cbn [fmap list_fmap fst] in Hn. apply NoDup_cons in Hn as [Hk Hn].
  cbn [foldl list_to_map foldr uncurry fst snd]. rewrite IH by done. destruct (decide (h = k)) as [->|Hne].
  - rewrite lookup_insert_eq, not_elem_of_list_to_map_1 by done. unfold put_coin.
    destruct (CCoins.IsPruned c); [apply lookup_delete_eq|apply lookup_insert_eq].
  - rewrite lookup_insert_ne by done. case_match; [done|]. unfold put_coin.
    destruct (CCoins.IsPruned c); [by rewrite lookup_delete_ne|by rewrite lookup_insert_ne].
Qed.
Lemma changed_walk mapCoins m : foldl (fun m p => put_coin p.1 p.2 m) m (walk mapCoins) = changed mapCoins m.
Proof.
  assert (Hp : walk mapCoins ≡ₚ map_to_list mapCoins) by apply merge_sort_Permutation.
  assert (Hn : NoDup (walk mapCoins).*1) by (rewrite Hp; apply NoDup_fst_map_to_list).
  apply map_eq. intros h. unfold changed. rewrite put_coins_lookup by done.
  rewrite (list_to_map_proper _ (map_to_list mapCoins)), list_to_map_to_list, lookup_merge by done.
  unfold diag_None. by destruct (mapCoins !! h), (m !! h).
Qed.

Lemma holds_best b kv m best h : in_u 256 h -> holds_coins (apply_batch b kv) m best ->
  holds_coins (apply_batch (BatchWriteHashBestChain b h) kv) m (Some h).
Proof.
  intros Hh [Hm Hg Hb Hn Hk]. unfold BatchWriteHashBestChain. rewrite apply_batch_app. cbn. constructor.
  - intros h' Hh'. rewrite lookup_insert_ne by done. by apply Hm.
  - done.
  - by rewrite lookup_insert_eq.
  - intros b' [= <-]. done.
  - intros k v [[<- _]|[_ Hv]]%lookup_insert_Some; [done|eauto].
Qed.

(** C36 The data base of the coins implements a map from transactions to their unspent coins together with a best
    block.  A batch of changed coins goes into the map as a whole, a pruned one by its removal, with the new best block if
    there is one; if the data base fails, an exception leaves map and best block as they were.  The coins of a transaction
    of the map are read without the spent outputs at the end, [HaveCoins] tells whether there are any, and the best
    block is the written one, where its index is known. *)
Theorem CoinsView_refines d m best mapCoins pindex h known :
  holds_coins (data d) m best ->
  (forall h c, mapCoins !! h = Some c -> in_u 256 h /\ coins_ok c) ->
  (forall b, pindex = Some b -> in_u 256 b) -> in_u 256 h ->
  let best' := if pindex is Some b then Some b else best in
  match BatchWrite failure mapCoins pindex d with
  | (Done ok, d') => ok = true /\ failure (accesses d) = None /\ holds_coins (data d') (changed mapCoins m) best'
  | (Thrown, d') => failure (accesses d) <> None /\ data d' = data d
  | (Stuck, _) => False
  end /\
  (failure (accesses d) = None ->
    (GetCoins failure h d).1 = Done (CCoins.Cleanup <$> m !! h) /\
    (HaveCoins failure h d).1 = Done (bool_decide (is_Some (m !! h))) /\
    (GetBestBlock failure known d).1 = Done (b ← best; if bool_decide (b ∈ known) then Some b else None)).
Proof.
  intros Hd Hc Hp Hh best'. split.
  - assert (Hw : Forall (fun p => in_u 256 p.1 /\ coins_ok p.2) (walk mapCoins)).
    { apply Forall_forall. intros [h' c'] Hin. unfold walk in Hin. rewrite merge_sort_Permutation in Hin.
      by apply elem_of_map_to_list, Hc in Hin. }
    destruct (batch_coins_holds _ [] _ _ _ Hw Hd) as (b' & Hb & Hb').
    unfold BatchWrite, WriteBatch, HandleError, status, X.bind, X.lift, X.gets, X.modify, X.ret, X.throw. rewrite Hb. cbn.
    destruct (failure (accesses d)) as [f|]; [done|]. cbn. split_and!; [done..|].
    rewrite changed_walk in Hb'. unfold best'. destruct pindex as [b|]; [|done]. by apply (holds_best _ _ _ best); [apply Hp|].
  - intros Hf. destruct Hd as [Hm Hg Hb Hn Hk].
    unfold GetCoins, HaveCoins, GetBestBlock, Exists, Read, Get, status, X.bind, X.lift, X.gets, X.modify, X.ret. rewrite Hf. cbn.
    rewrite Hm, Hb by done. split_and!.
    + destruct (m !! h) as [c|] eqn:E; [|done]. destruct (Hg _ _ E) as (_ & Hok & Hpr). cbn.
      destruct (CCoins_roundtrip c [] Hok) as [_ Hr]. destruct (serialize_some c Hok Hpr) as [v Hv]. rewrite Hv. cbn.
      unfold parse_coins. destruct (Hr v Hv) as [_ Hu]. rewrite app_nil_r in Hu. by rewrite Hu.
    + destruct (m !! h) as [c|] eqn:E; [|done]. destruct (Hg _ _ E) as (_ & Hok & Hpr). cbn.
      destruct (serialize_some c Hok Hpr) as [v Hv]. by rewrite Hv.
    + destruct best as [b|]; [|done]. cbn. by rewrite parse_ser_hash by auto.
Qed.

(** ** The tree of the blocks *)

(** A data base holds the indices of blocks. *)
Record holds_tree (kv : gmap bytes bytes) (blocks : gmap uint256 DiskBlock) : Prop := mkTreeHolds {
  t_block : forall h, in_u 256 h -> kv !! (98 :: ser_hash h) = ser_disk <$> blocks !! h;
  t_good : forall h b, blocks !! h = Some b -> in_u 256 h /\ h <> 0 /\ db_hash b = h /\ disk_ok b;
  t_keys : forall k v, kv !! k = Some v -> head k = Some 98 -> exists h, in_u 256 h /\ k = 98 :: ser_hash h;
  t_nonempty : kv !! [] = None }.

Definition record_of (p : uint256 * DiskBlock) : bytes * bytes := (98 :: ser_hash p.1, ser_disk p.2).
Definition prev_of (b : DiskBlock) : option uint256 := if decide (db_hashPrev b = 0) then None else Some (db_hashPrev b).
Definition index_of (b : DiskBlock) : BlockIndex := of_disk (prev_of b) b.

(** The index of [h] after the blocks [bl] were read. *)
Definition tree_lookup (bl : list (uint256 * DiskBlock)) (m : gmap uint256 BlockIndex) (h : uint256) : option BlockIndex :=
  match (list_to_map bl : gmap uint256 DiskBlock) !! h with
  | Some b => Some (index_of b)
  | None =>
    match m !! h with
    | Some i => Some i
    | None => if decide (h <> 0 /\ List.Exists (fun p => db_hashPrev p.2 = h) bl) then Some new_index else None
    end
  end.
Definition genesis_of (bl : list (uint256 * DiskBlock)) (g : option uint256) : option uint256 :=
  match g with Some g => Some g | None => if decide (hashGenesisBlock ∈ bl.*1) then Some hashGenesisBlock else None end.

Lemma load_block_step h b t : h <> 0 -> db_hash b = h -> disk_ok b ->
  exists t', load_block (ser_disk b) t = Some (CheckIndex (index_of b), t') /\
    (forall h', mapBlockIndex t' !! h' = tree_lookup [(h, b)] (mapBlockIndex t) h') /\
    pindexGenesisBlock t' = genesis_of [(h, b)] (pindexGenesisBlock t).
Proof.
  intros Hh Hb Hd. unfold load_block. rewrite unser_ser_disk, Hb, InsertBlockIndex_spec by done.
  set (m1 := if decide _ then _ else _).
  assert (E : exists m2 : gmap uint256 BlockIndex, InsertBlockIndex (db_hashPrev b) m1 = (prev_of b, m2) /\ is_Some (m2 !! h) /\
    forall h', h' <> h -> m2 !! h' = match mapBlockIndex t !! h' with Some i => Some i | None => if decide (h' <> 0 /\ db_hashPrev b = h') then Some new_index else None end).
  { assert (H1 : is_Some (m1 !! h)) by (unfold m1; case_decide; [done|by rewrite lookup_insert_eq]).
    assert (H2 : forall h', h' <> h -> m1 !! h' = mapBlockIndex t !! h') by (intros h' Hne; unfold m1; case_decide; [done|by rewrite lookup_insert_ne]).
    unfold prev_of. destruct (decide (db_hashPrev b = 0)) as [E|E].
    - rewrite E, InsertBlockIndex_null. exists m1. split_and!; [done..|]. intros h' Hne. rewrite H2 by done. destruct (mapBlockIndex t !! h'); [done|].
      rewrite decide_False by (intros [? ?]; congruence). done.
    - rewrite InsertBlockIndex_spec by done. eexists. split; [done|]. split.
      + case_decide; [done|]. destruct (decide (db_hashPrev b = h)) as [->|Hne]; [by rewrite lookup_insert_eq|by rewrite lookup_insert_ne].
      + intros h' Hne. rewrite <-H2 by done. case_decide as Hd'.
        * destruct (m1 !! h') eqn:E'; [done|]. rewrite decide_False; [done|]. intros [_ <-]. rewrite E' in Hd'. by destruct Hd'.
        * destruct (decide (db_hashPrev b = h')) as [<-|Hne'].
          -- rewrite lookup_insert_eq. destruct (m1 !! db_hashPrev b) eqn:E'; [by destruct Hd'|]. by rewrite decide_True.
          -- rewrite lookup_insert_ne by done. destruct (m1 !! h'); [done|]. by rewrite decide_False by (by intros [_ ?]). }
  destruct E as (m2 & -> & Hs & Hm2). cbn [mbind option_bind]. eexists. split; [done|]. split; cbn [mapBlockIndex pindexGenesisBlock].
  - intros h'. unfold tree_lookup. cbn [list_to_map foldr uncurry fst snd]. destruct (decide (h' = h)) as [->|Hne].
    + rewrite lookup_insert_eq, lookup_alter_eq. by destruct Hs as [i ->].
    + rewrite lookup_insert_ne, lookup_empty, lookup_alter_ne, Hm2 by done. case_match; [done|].
      apply decide_ext. rewrite Exists_cons, Exists_nil. naive_solver.
  - unfold genesis_of. destruct (pindexGenesisBlock t); [by rewrite bool_decide_eq_false_2 by done|].
    rewrite bool_decide_eq_true_2 by done. cbn [andb]. destruct (Z.eqb_spec h hashGenesisBlock) as [->|Hne].
    + rewrite decide_True; [done|]. by left.
    + rewrite decide_False; [done|]. set_solver.
Qed.

Lemma genesis_of_cons p bl g : genesis_of bl (genesis_of [p] g) = genesis_of (p :: bl) g.
Proof.
  unfold genesis_of. destruct g; [done|]. cbn [fmap list_fmap]. repeat case_decide; try done; set_solver.
Qed.
Lemma tree_lookup_cons k b bl (m m' : gmap uint256 BlockIndex) h : k ∉ bl.*1 -> (forall h, m' !! h = tree_lookup [(k, b)] m h) ->
  tree_lookup bl m' h = tree_lookup ((k, b) :: bl) m h.
Proof.
  intros Hk Hm. unfold tree_lookup. rewrite Hm. unfold tree_lookup. cbn [list_to_map foldr uncurry fst snd].
  destruct (decide (h = k)) as [->|Hne].
  - rewrite !lookup_insert_eq, not_elem_of_list_to_map_1 by done. done.
  - rewrite !lookup_insert_ne, lookup_empty by done. fold (list_to_map bl : gmap uint256 DiskBlock).
    destruct ((list_to_map bl : gmap uint256 DiskBlock) !! h); [done|]. destruct (m !! h); [done|].
    rewrite (decide_ext _ (h <> 0 /\ db_hashPrev b = h)) by (rewrite Exists_cons, Exists_nil; naive_solver).
    rewrite (decide_ext (_ /\ List.Exists _ ((k, b) :: bl)) (h <> 0 /\ (db_hashPrev b = h \/ List.Exists (fun p => db_hashPrev p.2 = h) bl)))
      by (by rewrite Exists_cons).
    repeat case_decide; naive_solver.
Qed.

Lemma load_blocks_all bl t : Forall (fun p => p.1 <> 0 /\ db_hash p.2 = p.1 /\ disk_ok p.2) bl -> NoDup bl.*1 ->
  exists ok t', load_blocks (record_of <$> bl) t = Some (ok, t') /\
    (ok = true <-> Forall (fun p => CheckIndex (index_of p.2) = true) bl) /\
    (ok = true -> (forall h, mapBlockIndex t' !! h = tree_lookup bl (mapBlockIndex t) h) /\
                  pindexGenesisBlock t' = genesis_of bl (pindexGenesisBlock t)).
Proof.
  intros Hbl. revert t. induction Hbl as [|[k b] bl (Hk & Hb & Hd) _ IH]; intros t Hn.
  - exists true, t. split_and!; [done|by split|]. intros _. split.
    + intros h. unfold tree_lookup. cbn. rewrite lookup_empty. case_match; [done|].
      rewrite decide_False; [done|]. by intros [_ ?%Exists_nil].
    + unfold genesis_of. case_match; [done|]. rewrite decide_False; [done|]. set_solver.
  - cbn [fmap list_fmap fst snd] in *. apply NoDup_cons in Hn as [Hnk Hn].
    destruct (load_block_step k b t Hk Hb Hd) as (t1 & Hs & Ht1 & Hg1). cbn [load_blocks record_of]. unfold record_of at 1. cbn [fst snd].
    change (98 =? 98) with true. cbn iota. rewrite Hs. cbn [mbind option_bind].
    destruct (CheckIndex (index_of b)) eqn:Ec.
    + destruct (IH t1 Hn) as (ok & t' & Hl & Hok & Ht'). exists ok, t'. split; [done|]. split.
      * rewrite Hok, Forall_cons. cbn [snd]. naive_solver.
      * intros E. destruct (Ht' E) as [Hm Hg]. split; [|rewrite Hg, Hg1; apply genesis_of_cons].
        intros h. rewrite Hm. by apply tree_lookup_cons.
    + exists false, t1. split; [done|]. split; [|done]. rewrite Forall_cons. cbn [snd]. rewrite Ec. naive_solver.
Qed.

(** The loop reads the records of the type 'b', which come first. *)
Lemma load_blocks_prefix l t : StronglySorted key_le l -> Forall (fun r => exists c k, r.1 = c :: k /\ 98 <= c) l ->
  load_blocks l t = load_blocks (filter (fun r => head r.1 = Some 98) l) t.
Proof.
  intros Hs. revert t. induction Hs as [|[k v] l _ IH Hf]; intros t Hl; [done|].
  apply Forall_cons in Hl as [(c & k' & E & Hc) Hl]. cbn [fst] in E. subst k. rewrite filter_cons. cbn [fst head load_blocks].
  destruct (Z.eqb_spec c 98) as [->|Hne].
  - rewrite decide_True by done. cbn [load_blocks]. change (98 =? 98) with true. cbn iota.
    destruct (load_block v t) as [[[] t1]|]; [|done..]. cbn [mbind option_bind]. by apply IH.
  - rewrite decide_False by congruence. assert (Hnil : filter (fun r : bytes * bytes => head r.1 = Some 98) l = []); [|by rewrite Hnil].
    apply elem_of_nil_inv. intros r [E Hr]%list_elem_of_filter.
    rewrite Forall_forall in Hf, Hl. specialize (Hf _ Hr). destruct (Hl _ Hr) as (c' & k2 & E2 & _).
    unfold key_le in Hf. rewrite E2 in *. cbn [fst] in Hf. apply AccountsThms.string_leb_cons in Hf. injection E as E. lia.
Qed.

(** The records that the walk from the first possible index on reads. *)
Lemma records_of_tree kv blocks : holds_tree kv blocks ->
  let l := filter (fun r => Db.string_leb (98 :: ser_hash 0) r.1 = true) (iterator kv) in
  StronglySorted key_le l /\ Forall (fun r => exists c k, r.1 = c :: k /\ 98 <= c) l /\
  exists bl, filter (fun r => head r.1 = Some 98) l = record_of <$> bl /\ bl ≡ₚ map_to_list blocks.
Proof.
  intros [Hb Hg Hk He] l. assert (Hp : iterator kv ≡ₚ map_to_list kv) by apply merge_sort_Permutation. split_and!.
  - apply AccountsThms.StronglySorted_filter. apply StronglySorted_merge_sort.
    + intros r r' r''. apply AccountsThms.string_leb_trans.
    + intros r r'. unfold key_le. apply string_leb_total.
  - apply Forall_forall. intros [k v] [Hle _]%list_elem_of_filter. cbn [fst] in *. destruct k as [|c k]; [done|].
    apply AccountsThms.string_leb_cons in Hle. exists c, k. split; [done|lia].
  - assert (Hperm : filter (fun r => head r.1 = Some 98) l ≡ₚ record_of <$> map_to_list blocks).
    { assert (Hfst : forall p q, p ∈ map_to_list blocks -> q ∈ map_to_list blocks -> record_of p = record_of q -> p = q).
      { intros [h b] [h' b'] Hi Hi' [= E1 E2]. apply elem_of_map_to_list in Hi, Hi'. cbn in *.
        destruct (Hg _ _ Hi) as [Hu _], (Hg _ _ Hi') as [Hu' _]. apply ser_hash_inj in E1; [|done..]. subst. congruence. }
      unfold l. apply NoDup_Permutation.
      - apply NoDup_filter, NoDup_filter. rewrite Hp. apply NoDup_map_to_list.
      - apply NoDup_fmap_2_strong, NoDup_map_to_list. naive_solver.
      - intros [k v]. rewrite !list_elem_of_filter, Hp, elem_of_map_to_list, list_elem_of_fmap. split.
        + intros (Hh & _ & Hkv). destruct (Hk _ _ Hkv Hh) as (h & Hu & ->). rewrite Hb in Hkv by done.
          apply fmap_Some in Hkv as (b & Hbl & ->). exists (h, b). split; [done|]. by apply elem_of_map_to_list.
        + intros ([h b] & [= -> ->] & Hin%elem_of_map_to_list). destruct (Hg _ _ Hin) as [Hu _]. split_and!; [done| |].
          * cbn [fst]. apply AccountsThms.string_leb_cons. right. split; [done|]. by apply ser_hash_zero_least.
          * cbn [fst]. rewrite Hb, Hin by done. done. }
    apply Permutation_map_inv in Hperm as (bl & E & Hbl). exists bl. split; [done|]. by symmetry.
Qed.

Lemma tree_lookup_map bl blocks (m : gmap uint256 BlockIndex) h : bl ≡ₚ map_to_list blocks ->
  tree_lookup bl m h = tree_lookup (map_to_list blocks) m h.
Proof.
  intros Hp. assert (Hn : NoDup bl.*1) by (rewrite Hp; apply NoDup_fst_map_to_list). unfold tree_lookup.
  rewrite (list_to_map_proper bl (map_to_list blocks)) by done.
  case_match; [done|]. case_match; [done|]. apply decide_ext. rewrite !List.Exists_exists. setoid_rewrite <-list_elem_of_In. by setoid_rewrite Hp.
Qed.

(** Writing the index of a block. *)
Lemma WriteBlockIndex_holds d blocks b : holds_tree (data d) blocks -> in_u 256 (db_hash b) -> db_hash b <> 0 -> disk_ok b ->
  failure (accesses d) = None ->
  (WriteBlockIndex failure b d).1 = Done true /\ holds_tree (data (WriteBlockIndex failure b d).2) (<[db_hash b := b]> blocks).
Proof.
  intros [Hb Hg Hk He] Hu Hn Hd Hf.
  unfold WriteBlockIndex, Write, WriteBatch, status, X.bind, X.gets, X.modify, X.ret. rewrite Hf. cbn. split; [done|]. constructor.
  - intros h Hh. destruct (decide (h = db_hash b)) as [->|Hne]; [by rewrite !lookup_insert_eq|].
    rewrite !lookup_insert_ne; [by apply Hb|done|]. intros [= E]. by apply ser_hash_inj in E.
  - intros h b' [[<- <-]|[_ Hb']]%lookup_insert_Some; [done|]. by apply Hg.
  - intros k v [[<- <-]|[_ Hv]]%lookup_insert_Some Hhd; [by eexists|eauto].
  - by rewrite lookup_insert_ne by done.
Qed.

End Views.

Module Examples.
Import CoreThms.Examples.
#[local] Existing Instance codec.

Definition fields (b : DiskBlock) : list Z :=
  [db_hash b; db_hashPrev b; db_nHeight b; db_nFile b; db_nDataPos b; db_nUndoPos b; db_nVersion b; db_hashMerkleRoot b; db_nTime b;
   db_nBits b; db_nNonce b; db_nStatus b; db_nTx b].
Definition of_fields (l : list Z) : option DiskBlock :=
  match l with
  | [a; b; c; d; e; f; g; h; i; j; k; l; m] => Some (mkDiskBlock a b c d e f g h i j k l m)
  | _ => None
  end.
Fixpoint read_fields (n : nat) (s : bytes) : option (list Z) :=
  match n with O => Some [] | S n' => '(x, s) ← unle 32 s; r ← read_fields n' s; Some (x :: r) end.
Lemma read_fields_le l : Forall (in_u 256) l -> read_fields (length l) (concat (le 32 <$> l)) = Some l.
Proof.
  induction 1 as [|x l Hx _ IH]; [done|]. cbn [length read_fields fmap list_fmap concat].
  rewrite unle_le by (unfold in_u in Hx; lia). cbn [mbind option_bind]. by rewrite IH.
Qed.
Lemma le_nonneg k n : 0 <= n -> Forall (Z.le 0) (le k n) /\ length (le k n) = k.
Proof.
  revert n. induction k as [|k IH]; intros n Hn; [done|]. destruct (IH (n / 256)) as [H1 H2]; [by apply Z.div_pos|].
  cbn [le length]. split; [|by rewrite H2]. apply Forall_cons. split; [by apply Z.mod_pos_bound|done].
Qed.

#[local, refine] Instance format : ChainFormat := {|
  ser_hash := le 32; unser_hash := unle 32; ser_int := le 4; unser_int := fun s => fst <$> unle 4 s; ser_text := id;
  ser_disk := fun b => concat (le 32 <$> fields b); unser_disk := fun s => l ← read_fields 13 s; of_fields l;
  ser_VARINT := le 8; ser_out := fun o => le 8 (nValue o) ++ scriptPubKey o;
  InsertBlockIndex := fun h m => if decide (h = 0) then (None, m) else
    (Some h, if decide (is_Some (m !! h)) then m else <[h := mkBlockIndex None 0 0 0 0 0 0 0 0 0 0 0]> m);
  new_index := mkBlockIndex None 0 0 0 0 0 0 0 0 0 0 0;
  disk_ok := fun b => Forall (in_u 256) (fields b); CheckIndex := fun i => 0 <? nTx i; hashGenesisBlock := 5 |}.
Proof.
  - intros h rest Hh. apply unle_le. unfold in_u in Hh. lia.
  - intros d Hd. change 13%nat with (length (fields d)). rewrite read_fields_le by done. by destruct d.
  - intros h Hh. change (le 32 0) with (replicate 32 0). unfold in_u in Hh. destruct (le_nonneg 32 h) as [H1 H2]; [lia|].
    rewrite <-H2 at 1. by apply AccountsThms.zeros_least.
  - done.
  - intros h m Hh. by rewrite decide_False by done.
Defined.

Definition none_fails : nat -> option Failure := fun _ => None.
Definition empty_db : LevelDB := mkLevelDB ∅ 0 [].
Lemma empty_holds : holds_coins (data empty_db) ∅ None.
Proof. by constructor. Qed.
Definition changes : gmap uint256 CCoins := <[7 := coins]> {[ 9 := mkCoins false [CTxOut.SetNull] 11 1 ]}.

(** One transaction with outputs and one without are written, with the best block 3. *)
Lemma CoinsView_refines_witness :
  let d' := (BatchWrite none_fails changes (Some 3) empty_db).2 in
  (BatchWrite none_fails changes (Some 3) empty_db).1 = Done true /\ holds_coins (data d') (changed changes ∅) (Some 3).
Proof.
  destruct (CoinsView_refines none_fails empty_db ∅ None changes (Some 3) 7 ∅) as [Hw _].
  - exact empty_holds.
  - unfold changes. intros h c [[<- <-]|[_ [<- <-]%lookup_singleton_Some]]%lookup_insert_Some; (split; [vm_compute; intuition congruence|]); [exact coins_good|].
    unfold coins_ok. split_and!; [|done|vm_compute; intuition congruence|vm_compute; intuition congruence].
    apply Forall_cons. split; [by left|apply Forall_nil; trivial].
  - intros b [= <-]. vm_compute. intuition congruence.
  - vm_compute. intuition congruence.
  - cbv zeta. destruct (BatchWrite none_fails changes (Some 3) empty_db) as [[ok| |] d'].
    + destruct Hw as (-> & _ & Hh). split; [reflexivity|exact Hh].
    + destruct Hw as [Hw _]. destruct (Hw eq_refl).
    + destruct Hw.
Defined.

(** The pruned transaction is not in the data base. *)
Example changed_transactions :
  let d' := (BatchWrite none_fails changes (Some 3) empty_db).2 in
  ((HaveCoins none_fails 7 d').1, (HaveCoins none_fails 9 d').1, (GetBestBlock none_fails {[ 3 ]} d').1) = (Done true, Done false, Done (Some 3)).
Proof. vm_compute. reflexivity. Qed.

(** The two unspent outputs of the one transaction, 12 in all. *)
Example stats :
  let d' := (BatchWrite none_fails changes (Some 3) empty_db).2 in
  (match (GetStats none_fails {[ 3 := 11 ]} (mkStats 0 0 0 0 0 [] 0) d').1 with
   | Done (Some st) => Some (st_nHeight st, st_hashBlock st, nTransactions st, nTransactionOutputs st, nTotalAmount st)
   | _ => None
   end) = Some (11, 3, 1, 2, 12).
Proof. vm_compute. reflexivity. Qed.

(** Without a best block the statistics use a null pointer. *)
Example stats_without_best :
  (GetStats none_fails {[ 3 := 11 ]} (mkStats 0 0 0 0 0 [] 0) empty_db).1 = Stuck.
Proof. vm_compute. reflexivity. Qed.

(** A failed write changes nothing. *)
Example failed_write :
  let r := BatchWrite (fun _ => Some IOError) changes (Some 3) empty_db in
  r.1 = Thrown /\ data r.2 = ∅ /\ message r.2 = lit "Database I/O error".
Proof. vm_compute. auto. Qed.

Definition b5 : DiskBlock := mkDiskBlock 5 4 1 0 0 0 1 0 0 0 0 0 1.
Definition b6 : DiskBlock := mkDiskBlock 6 5 2 0 0 0 1 0 0 0 0 0 1.
Definition blocks : gmap uint256 DiskBlock := <[6 := b6]> {[ 5 := b5 ]}.
Definition db0 : LevelDB := mkLevelDB {[ [108] := [7] ]} 0 [].
Definition db1 : LevelDB := (WriteBlockIndex none_fails b5 db0).2.
Definition block_db : LevelDB := (WriteBlockIndex none_fails b6 db1).2.

Lemma db0_held : holds_tree (data db0) ∅.
Proof.
  unfold db0. cbn [data]. constructor; [intros h _; by rewrite lookup_singleton_ne, lookup_empty by done|done| |by rewrite lookup_singleton_ne by done].
  intros k v [<- <-]%lookup_singleton_Some. done.
Qed.
Lemma fields_ok b : forallb (fun x => (0 <=? x) && (x <? 2 ^ 256)) (fields b) = true -> disk_ok b.
Proof.
  intros Hb. apply Forall_forall. intros x Hx%list_elem_of_In. rewrite forallb_forall in Hb. specialize (Hb x Hx). unfold in_u. lia.
Qed.
Lemma small h : 0 <= h < 1000 -> in_u 256 h.
Proof. unfold in_u. lia. Qed.
Lemma blocks_held : holds_tree (data block_db) blocks.
Proof.
  assert (H1 : holds_tree (data db1) {[ 5 := b5 ]}).
  { apply (WriteBlockIndex_holds none_fails db0 ∅ b5); [exact db0_held|by apply small|discriminate|by apply fields_ok|reflexivity]. }
  apply (WriteBlockIndex_holds none_fails db1 {[ 5 := b5 ]} b6); [exact H1|by apply small|discriminate|by apply fields_ok|reflexivity].
Qed.

End Examples.
