(* ===== verification/Args.v ===== *)
(** The settings of the program (src/util.cpp): [ParseParameters], [InterpretNegativeSetting], [GetArg], [GetBoolArg],
    [SoftSetArg], [SoftSetBoolArg] and [ReadConfigFile].

    An argument is the list of its characters.  The walk of [ParseParameters] over [mapArgs] inserts into the map it walks
    over: an iterator is the key it is at, its successor the least greater key at that time.  [atoi] and [atoi64] of util.h,
    which is not in the tree: [atoi] of the C library, as in Http.v, and the parameter of the class [Money].
    [ReadConfigFile] is called with the global maps.  Boost reads the file into names and values; its exceptions, the branches
    for Windows and the cache of paths are left out.

    The theorems: what the command line and the file come to, and that the walk ends. *)

From S2P Require Import Prelude Util.
From S2P Require Db Http TxDb AccountsThms.

Record Args := mkArgs { mapArgs : gmap bytes bytes; mapMultiArgs : gmap bytes (list bytes) }.

(** [str.find(p) == 0]. *)
Definition starts (p str : bytes) : bool := bool_decide (p `prefix_of` str).

(** ** Reading *)

Definition GetArg_text (m : gmap bytes bytes) (strArg strDefault : bytes) : bytes := default strDefault (m !! strArg).
Definition GetArg `{Money} (m : gmap bytes bytes) (strArg : bytes) (nDefault : Z) : Z :=
  match m !! strArg with Some v => atoi64 v | None => nDefault end.
Definition GetBoolArg (m : gmap bytes bytes) (strArg : bytes) (fDefault : bool) : bool :=
  match m !! strArg with
  | Some [] => true
  | Some v => negb (Http.atoi v =? 0)
  | None => fDefault
  end.

(** ** Writing *)

(** Whether the value was set, and the map. *)
Definition SoftSetArg (strArg strValue : bytes) (m : gmap bytes bytes) : bool * gmap bytes bytes :=
  match m !! strArg with Some _ => (false, m) | None => (true, <[strArg := strValue]> m) end.
Definition flag (b : bool) : bytes := if b then lit "1" else lit "0".
Definition SoftSetBoolArg (strArg : bytes) (fValue : bool) (m : gmap bytes bytes) : bool * gmap bytes bytes :=
  if fValue then SoftSetArg strArg (lit "1") m else SoftSetArg strArg (lit "0") m.

Definition InterpretNegativeSetting (name : bytes) (m : gmap bytes bytes) : gmap bytes bytes :=
  if starts (lit "-no") name then
    let positive := lit "-" ++ drop 3 name in
    match m !! positive with
    | None => <[positive := flag (negb (GetBoolArg m name false))]> m
    | Some _ => m
    end
  else m.

(** ** The command line *)

(** An argument before and behind its first '='. *)
Fixpoint split_arg (str : bytes) : bytes * bytes :=
  match str with
  | [] => ([], [])
  | c :: r => if c =? 61 then ([], r) else let '(k, v) := split_arg r in (c :: k, v)
  end.

Definition put_arg (k v : bytes) (a : Args) : Args :=
  mkArgs (<[k := v]> (mapArgs a)) (<[k := default [] (mapMultiArgs a !! k) ++ [v]]> (mapMultiArgs a)).
Fixpoint arg_loop (argv : list bytes) (a : Args) : Args :=
  match argv with
  | [] => a
  | str :: r => let '(k, v) := split_arg str in if negb (bool_decide (head k = Some 45)) then a else arg_loop r (put_arg k v a)
  end.

(** A round of the walk, at [name] with the value [v]. *)
Definition interpret (name v : bytes) (m : gmap bytes bytes) : gmap bytes bytes :=
  if starts (lit "--") name then
    let singleDash := drop 1 name in
    let m := match m !! singleDash with None => <[singleDash := v]> m | Some _ => m end in
    InterpretNegativeSetting singleDash m
  else InterpretNegativeSetting name m.

(** The first key behind [cur], from the beginning for [None]. *)
Definition next_key (cur : option bytes) (m : gmap bytes bytes) : option bytes :=
  List.find (fun k => match cur with Some c => negb (Db.string_leb k c) | None => true end) (Db.files m).

(** [None]: not enough fuel. *)
Fixpoint walk (fuel : nat) (cur : option bytes) (m : gmap bytes bytes) : option (gmap bytes bytes) :=
  match fuel with
  | O => None
  | S fuel' =>
    match next_key cur m with
    | None => Some m
    | Some k => walk fuel' (Some k) (interpret k (default [] (m !! k)) m)
    end
  end.

(** For every argument as many keys as it has characters, and one more, can come about. *)
Definition walk_fuel (m : gmap bytes bytes) : nat := S (sum_list ((fun k => S (S (length k))) <$> (map_to_list m).*1)).

Definition ParseParameters (argv : list bytes) : option Args :=
  let a := arg_loop (drop 1 argv) (mkArgs ∅ ∅) in
  m ← walk (walk_fuel (mapArgs a)) None (mapArgs a);
  Some (mkArgs m (mapMultiArgs a)).

(** ** The file *)

(** A line: its name, without the dash, and its value. *)
Definition config_line (a : Args) (l : bytes * bytes) : Args :=
  let strKey := lit "-" ++ l.1 in
  let m := match mapArgs a !! strKey with
           | None => InterpretNegativeSetting strKey (<[strKey := l.2]> (mapArgs a))
           | Some _ => mapArgs a
           end in
  mkArgs m (<[strKey := default [] (mapMultiArgs a !! strKey) ++ [l.2]]> (mapMultiArgs a)).

(** [None]: there is no file. *)
Definition ReadConfigFile (streamConfig : option (list (bytes * bytes))) (a : Args) : Args :=
  match streamConfig with None => a | Some lines => foldl config_line a lines end.

(** * Theorems *)

Implicit Types (m g : gmap bytes bytes) (k v name : bytes).

(** ** The order of the keys *)

Lemma string_leb_anti a b : Db.string_leb a b = true -> Db.string_leb b a = true -> a = b.
Proof.
  revert b. induction a as [|x a IH]; intros [|y b]; [done..|]. rewrite !AccountsThms.string_leb_cons.
  intros [?|[-> H1]] [?|[? H2]]; [lia..|]. by rewrite (IH b).
Qed.
Definition string_lt a b : Prop := Db.string_leb b a = false.
Lemma string_lt_le a b : string_lt a b -> Db.string_leb a b = true.
Proof. unfold string_lt. destruct (TxDb.string_leb_total a b); congruence. Qed.
Lemma string_lt_trans a b c : string_lt a b -> string_lt b c -> string_lt a c.
Proof.
  intros H1 H2. unfold string_lt. destruct (Db.string_leb c a) eqn:E; [|done].
  rewrite <-H2. symmetry. eapply AccountsThms.string_leb_trans; [exact E|]. by apply string_lt_le.
Qed.
Lemma string_lt_irrefl a : ~ string_lt a a.
Proof. unfold string_lt. by rewrite AccountsThms.string_leb_refl. Qed.

Lemma files_keys m k : k ∈ Db.files m <-> is_Some (m !! k).
Proof.
  unfold Db.files. rewrite merge_sort_Permutation, list_elem_of_fmap. split.
  - intros ([k' v] & -> & Hin%elem_of_map_to_list). by eexists.
  - intros [v Hv]. exists (k, v). split; [done|]. by apply elem_of_map_to_list.
Qed.
Lemma files_sorted m : StronglySorted Db.string_le (Db.files m).
Proof.
  apply StronglySorted_merge_sort.
  - intros a b c. apply AccountsThms.string_leb_trans.
  - intros a b. apply TxDb.string_leb_total.
Qed.

(** Behind [cur]. *)
Definition behind (cur : option bytes) k : Prop := match cur with Some c => string_lt c k | None => True end.

#[local] Instance behind_dec cur k : Decision (behind cur k).
Proof. unfold behind, string_lt. destruct cur; apply _. Defined.

Lemma find_first {A} (R : A -> A -> Prop) (f : A -> bool) l x : (forall y, R y y) -> StronglySorted R l -> List.find f l = Some x ->
  x ∈ l /\ f x = true /\ forall y, y ∈ l -> f y = true -> R x y.
Proof.
  intros Hr. induction 1 as [|y l _ IH Hf]; [done|]. cbn [List.find]. destruct (f y) eqn:E.
  - intros [= <-]. split_and!; [by left|done|]. intros z [->|Hz]%elem_of_cons _; [done|]. rewrite Forall_forall in Hf. by apply Hf.
  - intros Hx. destruct (IH Hx) as (H1 & H2 & H3). split_and!; [by right|done|]. intros z [->|Hz]%elem_of_cons Hfz; [congruence|auto].
Qed.
Lemma next_key_spec cur m :
  match next_key cur m with
  | Some k => is_Some (m !! k) /\ behind cur k /\ forall k', is_Some (m !! k') -> behind cur k' -> Db.string_leb k k' = true
  | None => forall k, is_Some (m !! k) -> ~ behind cur k
  end.
Proof.
  assert (Hb : forall k, (match cur with Some c => negb (Db.string_leb k c) | None => true end) = true <-> behind cur k).
  { intros k. unfold behind, string_lt. destruct cur; [apply negb_true_iff|done]. }
  unfold next_key. destruct (List.find _ _) as [k|] eqn:E.
  - destruct (find_first Db.string_le _ _ _ AccountsThms.string_leb_refl (files_sorted m) E) as (H1 & H2 & H3).
    split_and!; [by apply files_keys|by apply Hb|]. intros k' Hk' Hk2. apply H3; [by apply files_keys|by apply Hb].
  - intros k Hk Hbe. apply files_keys, list_elem_of_In in Hk. pose proof (find_none _ _ E k Hk) as Hn. cbn beta in Hn.
    apply Hb in Hbe. congruence.
Qed.

(** ** The walk ends *)

Lemma starts_spec p k : starts p k = true <-> exists x, k = p ++ x.
Proof. unfold starts. by rewrite bool_decide_eq_true. Qed.

Lemma starts_app p x : starts p (p ++ x) = true.
Proof. apply starts_spec. by exists x. Qed.

(** What the negative of a setting adds. *)
Lemma negative_cases name m :
  InterpretNegativeSetting name m = m \/
  exists x, name = lit "-no" ++ x /\ m !! (lit "-" ++ x) = None /\
    InterpretNegativeSetting name m = <[lit "-" ++ x := flag (negb (GetBoolArg m name false))]> m.
Proof.
  unfold InterpretNegativeSetting. destruct (starts (lit "-no") name) eqn:E; [|by left]. apply starts_spec in E as [x ->].
  change (drop 3 (lit "-no" ++ x)) with x. destruct (m !! (lit "-" ++ x)) eqn:E; [by left|]. right. by exists x.
Qed.
Lemma negative_set x m : is_Some (InterpretNegativeSetting (lit "-no" ++ x) m !! (lit "-" ++ x)).
Proof.
  unfold InterpretNegativeSetting. rewrite starts_app.
  change (drop 3 (lit "-no" ++ x)) with x. destruct (m !! (lit "-" ++ x)) eqn:E; [by rewrite E|]. by rewrite lookup_insert_eq.
Qed.
Lemma negative_subseteq name m : m ⊆ InterpretNegativeSetting name m.
Proof. destruct (negative_cases name m) as [->|(x & _ & Hn & ->)]; [done|]. by apply insert_subseteq. Qed.

(** The keys that can come about. *)
Fixpoint tails (s : bytes) : list bytes := s :: match s with [] => [] | _ :: r => tails r end.
Definition cands (k : bytes) : list bytes := k :: (cons 45 <$> tails (tl k)).
Definition universe m : list bytes := concat (cands <$> (map_to_list m).*1).

Lemma tails_tail c x s : c :: x ∈ tails s -> x ∈ tails s.
Proof.
  induction s as [|b s IH]; [intros [? | ?%not_elem_of_nil]%elem_of_cons; done|].
  cbn [tails]. intros [[= -> ->]|Hin]%elem_of_cons; right; [destruct s; by left|auto].
Qed.
Lemma tails_self s : s ∈ tails s.
Proof. destruct s; by left. Qed.
Lemma cands_tail c x (g : bytes) : 45 :: c :: x ∈ cands g -> 45 :: x ∈ cands g.
Proof.
  unfold cands. intros [<-|Hin]%elem_of_cons; right.
  - apply list_elem_of_fmap. exists x. split; [done|]. cbn [tl]. eapply tails_tail, tails_self.
  - apply list_elem_of_fmap in Hin as (s & [= <-] & Hs). apply list_elem_of_fmap. exists x. split; [done|]. by eapply tails_tail.
Qed.
Lemma tails_length s : length (tails s) = S (length s).
Proof. induction s as [|c s IH]; [done|]. cbn [tails length]. by rewrite IH. Qed.
Lemma universe_length m : (length (universe m) < walk_fuel m)%nat.
Proof.
  unfold universe, walk_fuel. induction ((map_to_list m).*1) as [|k l IH]; [cbn; lia|].
  cbn [fmap list_fmap concat sum_list sum_list_with foldr]. unfold sum_list in *. cbn [sum_list_with] in *. rewrite length_app. unfold cands at 1. cbn [length]. rewrite length_fmap, tails_length.
  assert (length (tl k) <= length k)%nat by (destruct k; cbn; lia). unfold id in *. lia.
Qed.

Definition closed_keys (U : list bytes) : Prop := forall c x, 45 :: c :: x ∈ U -> 45 :: x ∈ U.
Lemma universe_closed m : closed_keys (universe m).
Proof.
  intros c x Hin. unfold universe in *. apply list_elem_of_In, in_concat in Hin as (l & Hl & Hx). apply list_elem_of_In, in_concat.
  exists l. split; [done|]. apply list_elem_of_In, list_elem_of_fmap in Hl as (g & -> & _). apply list_elem_of_In in Hx.
  apply list_elem_of_In. by eapply cands_tail.
Qed.

Definition within m (U : list bytes) : Prop := forall k, is_Some (m !! k) -> k ∈ U.
Lemma within_insert m U k v : within m U -> k ∈ U -> within (<[k := v]> m) U.
Proof. intros Hm Hk k' [w [[<- _]|[_ Hw]]%lookup_insert_Some]; [done|]. apply Hm. by eexists. Qed.
Lemma within_negative name m U : closed_keys U -> name ∈ U -> within m U -> within (InterpretNegativeSetting name m) U.
Proof.
  intros Hc Hn Hm. destruct (negative_cases name m) as [->|(x & -> & _ & ->)]; [done|]. apply within_insert; [done|].
  eapply Hc, Hc. exact Hn.
Qed.
Lemma interpret_cases name v m : interpret name v m = InterpretNegativeSetting name m /\ starts (lit "--") name = false \/
  exists x, name = lit "--" ++ x /\
    interpret name v m = InterpretNegativeSetting (lit "-" ++ x) (match m !! (lit "-" ++ x) with None => <[lit "-" ++ x := v]> m | Some _ => m end).
Proof.
  unfold interpret. destruct (starts (lit "--") name) eqn:E; [right|by left]. apply starts_spec in E as [x ->]. by exists x.
Qed.
Lemma within_interpret name v m U : closed_keys U -> name ∈ U -> within m U -> within (interpret name v m) U.
Proof.
  intros Hc Hn Hm. destruct (interpret_cases name v m) as [[-> _]|(x & -> & ->)]; [by apply within_negative|].
  assert (Hx : lit "-" ++ x ∈ U) by (eapply Hc; exact Hn).
  apply within_negative; [done..|]. case_match; [done|]. by apply within_insert.
Qed.

Lemma length_filter_lt {A} (P Q : A -> Prop) `{!forall x, Decision (P x), !forall x, Decision (Q x)} l x :
  (forall y, P y -> Q y) -> x ∈ l -> Q x -> ~ P x -> (length (filter P l) < length (filter Q l))%nat.
Proof.
  intros Hpq Hin Hq Hp.
  assert (Hle : forall l, (length (filter P l) <= length (filter Q l))%nat).
  { intros l'. induction l' as [|y l' IH]; [done|]. rewrite !filter_cons. repeat case_decide; cbn; try lia. naive_solver. }
  induction Hin as [y l|y z l Hin IH]; rewrite !filter_cons.
  - destruct (decide (P y)); [done|]. destruct (decide (Q y)); [|done]. cbn [length]. specialize (Hle l). lia.
  - specialize (IH Hq Hp). destruct (decide (P z)); destruct (decide (Q z)); cbn [length]; [lia|naive_solver|lia|lia].
Qed.

Lemma walk_ends U fuel cur m : closed_keys U -> within m U -> (length (filter (behind cur) U) < fuel)%nat -> is_Some (walk fuel cur m).
Proof.
  intros Hc. revert cur m. induction fuel as [|fuel IH]; intros cur m Hm Hf; [lia|]. cbn [walk].
  pose proof (next_key_spec cur m) as Hn. destruct (next_key cur m) as [k|]; [|done]. destruct Hn as (Hk & Hb & _).
  apply IH; [apply within_interpret; auto|].
  assert (length (filter (behind (Some k)) U) < length (filter (behind cur) U))%nat; [|lia].
  apply (length_filter_lt _ _ U k); [|by apply Hm|done|apply string_lt_irrefl].
  intros y Hy. cbn in Hy. destruct cur as [c|]; [|done]. cbn in *. by eapply string_lt_trans.
Qed.
Lemma universe_within m : within m (universe m).
Proof.
  intros k [v Hv]. apply list_elem_of_In, in_concat. exists (cands k). split; [|by left]. apply list_elem_of_In, list_elem_of_fmap.
  exists k. split; [done|]. apply list_elem_of_fmap. exists (k, v). split; [done|]. by apply elem_of_map_to_list.
Qed.
Lemma walk_total m : is_Some (walk (walk_fuel m) None m).
Proof.
  apply (walk_ends (universe m)); [apply universe_closed|apply universe_within|].
  pose proof (universe_length m). pose proof (length_filter (behind None) (universe m)). lia.
Qed.

(** ** What the walk does *)

(** A setting that was not given is that of another spelling. *)
Definition justified m k v : Prop :=
  exists x, k = lit "-" ++ x /\
    (m !! (lit "--" ++ x) = Some v \/
     is_Some (m !! (lit "-no" ++ x)) /\ v = flag (negb (GetBoolArg m (lit "-no" ++ x) false))).
(** Its other spellings are set. *)
Definition spelled m k : Prop :=
  forall x, (k = lit "--" ++ x \/ k = lit "-no" ++ x \/ k = lit "--no" ++ x) -> is_Some (m !! (lit "-" ++ x)).

Lemma GetBoolArg_mono m m' k d : m ⊆ m' -> is_Some (m !! k) -> GetBoolArg m' k d = GetBoolArg m k d.
Proof. intros Hs [v Hv]. unfold GetBoolArg. by rewrite Hv, (lookup_weaken _ _ _ _ Hv Hs). Qed.
Lemma justified_mono m m' k v : m ⊆ m' -> justified m k v -> justified m' k v.
Proof.
  intros Hs (x & -> & [Hj|[Hj ->]]); exists x; (split; [done|]); [left; by eapply lookup_weaken|right].
  split; [by eapply lookup_weaken_is_Some|]. by rewrite (GetBoolArg_mono m m').
Qed.
Lemma spelled_mono m m' k : m ⊆ m' -> spelled m k -> spelled m' k.
Proof. intros Hs Hk x Hx. eapply lookup_weaken_is_Some; [by apply Hk|done]. Qed.

(** [m'] has what [m] has and otherwise only what is justified. *)
Definition extends m m' : Prop := m ⊆ m' /\ forall k v, m' !! k = Some v -> m !! k = None -> justified m' k v.
Lemma extends_refl m : extends m m.
Proof. split; [done|]. intros k v H1 H2. congruence. Qed.
Lemma extends_trans m1 m2 m3 : extends m1 m2 -> extends m2 m3 -> extends m1 m3.
Proof.
  intros [S1 J1] [S2 J2]. split; [by etrans|]. intros k v H3 H1. destruct (m2 !! k) as [w|] eqn:E; [|by apply J2].
  assert (w = v) as -> by (apply (lookup_weaken _ _ _ _ E) in S2; congruence). eapply justified_mono; [exact S2|]. by apply J1.
Qed.
Lemma extends_insert m x v : justified (<[lit "-" ++ x := v]> m) (lit "-" ++ x) v -> m !! (lit "-" ++ x) = None ->
  extends m (<[lit "-" ++ x := v]> m).
Proof.
  intros Hj Hn. split; [by apply insert_subseteq|]. intros k w [[<- <-]|[_ Hw]]%lookup_insert_Some Hk; [done|congruence].
Qed.
Lemma extends_negative name m : is_Some (m !! name) -> extends m (InterpretNegativeSetting name m).
Proof.
  intros Hn. destruct (negative_cases name m) as [->|(x & -> & Hx & ->)]; [apply extends_refl|].
  apply extends_insert; [|done]. exists x. split; [done|]. right.
  assert (Hs : m ⊆ <[lit "-" ++ x := flag (negb (GetBoolArg m (lit "-no" ++ x) false))]> m) by by apply insert_subseteq.
  split; [by eapply lookup_weaken_is_Some|]. by rewrite (GetBoolArg_mono _ _ _ _ Hs).
Qed.
Lemma interpret_spec k v m : m !! k = Some v -> extends m (interpret k v m) /\ spelled (interpret k v m) k.
Proof.
  intros Hk. destruct (interpret_cases k v m) as [[-> Hst]|(x & -> & ->)].
  - split; [apply extends_negative; by eexists|]. intros x [->|[->| ->]].
    + by rewrite starts_app in Hst.
    + apply negative_set.
    + change (lit "--no" ++ x) with (lit "--" ++ lit "no" ++ x) in Hst. by rewrite starts_app in Hst.
  - set (m1 := match m !! (lit "-" ++ x) with None => _ | Some _ => m end).
    assert (H1 : extends m m1 /\ is_Some (m1 !! (lit "-" ++ x))).
    { unfold m1. destruct (m !! (lit "-" ++ x)) eqn:E; [split; [apply extends_refl|by rewrite E]|]. rewrite lookup_insert_eq. split; [|done].
      apply extends_insert; [|done]. exists x. split; [done|]. left.
      rewrite lookup_insert_ne; [done|]. intros E'. apply (f_equal length) in E'. cbn in E'. lia. }
    destruct H1 as [H1 H2]. split; [eapply extends_trans; [exact H1|by apply extends_negative]|].
    intros y [E|[E|E]].
    + cbn in E. injection E as <-. eapply lookup_weaken_is_Some; [exact H2|apply negative_subseteq].
    + done.
    + cbn in E. injection E as ->. apply (negative_set y m1).
Qed.

Lemma walk_spec fuel cur m m' : walk fuel cur m = Some m' ->
  extends m m' /\ forall k, is_Some (m !! k) -> behind cur k -> spelled m' k.
Proof.
  revert cur m. induction fuel as [|fuel IH]; intros cur m; [done|]. cbn [walk]. pose proof (next_key_spec cur m) as Hn.
  destruct (next_key cur m) as [k0|]; [|intros [= <-]; split; [apply extends_refl|intros k Hk Hb; by apply Hn in Hk]].
  destruct Hn as ([v Hv] & Hb & Hleast). rewrite Hv. cbn [default]. intros Hw. apply IH in Hw as [He Hs].
  destruct (interpret_spec k0 v m Hv) as [He0 Hs0]. split; [by eapply extends_trans|]. intros k Hk Hbk.
  destruct (decide (k = k0)) as [->|Hne]; [eapply spelled_mono; [apply He|done]|]. apply Hs; [eapply lookup_weaken_is_Some; [exact Hk|apply He0]|].
  cbn. unfold string_lt. destruct (Db.string_leb k k0) eqn:E; [|done]. destruct Hne. apply string_leb_anti; [done|]. by apply Hleast.
Qed.

(** ** The command line *)

(** The settings of the command line, up to the first argument that has no dash. *)
Fixpoint given (argv : list bytes) : list (bytes * bytes) :=
  match argv with
  | [] => []
  | str :: r => if bool_decide (head (split_arg str).1 = Some 45) then split_arg str :: given r else []
  end.
Definition values k (l : list (bytes * bytes)) : list bytes := (filter (fun p => p.1 = k) l).*2.
Lemma values_cons k p l : values k (p :: l) = if decide (p.1 = k) then p.2 :: values k l else values k l.
Proof. unfold values. rewrite filter_cons. by case_decide. Qed.
Lemma last_app_some {A} (l : list A) (o : option A) : default o (Some <$> last l) = match last l with Some x => Some x | None => o end.
Proof. by destruct (last l). Qed.

Lemma arg_loop_spec argv a k :
  mapArgs (arg_loop argv a) !! k = default (mapArgs a !! k) (Some <$> last (values k (given argv))) /\
  mapMultiArgs (arg_loop argv a) !! k =
    match values k (given argv) with [] => mapMultiArgs a !! k | vs => Some (default [] (mapMultiArgs a !! k) ++ vs) end.
Proof.
  revert a. induction argv as [|str r IH]; intros a; [done|]. cbn [arg_loop given]. destruct (split_arg str) as [k' v] eqn:E. cbn [fst].
  case_bool_decide as Hd; cbn [negb]; [|done]. destruct (IH (put_arg k' v a)) as [-> ->]. rewrite values_cons. cbn [fst snd put_arg mapArgs mapMultiArgs].
  case_decide as Hk; [subst k'|by rewrite !lookup_insert_ne by done]. rewrite !lookup_insert_eq. split.
  - by destruct (values k (given r)) as [|w ws] using rev_ind; [|rewrite app_comm_cons, !last_snoc].
  - destruct (values k (given r)); [done|]. cbn. by rewrite <-app_assoc.
Qed.

(** C38 Reading the command line ends, and it ends with the settings that its arguments mean.  Every setting that is given
    has its last value and all its values in order; if it is given as [--x], [-nox] or [--nox], then [-x] is set; and a
    setting that is not given is set only from another spelling of it: to the value of [--x], or to the opposite of [-nox]. *)
Theorem ParseParameters_spec argv :
  exists a, ParseParameters argv = Some a /\ forall k,
    let vs := values k (given (drop 1 argv)) in
    mapMultiArgs a !! k = (if decide (vs = []) then None else Some vs) /\
    (forall v, last vs = Some v -> mapArgs a !! k = Some v) /\
    (vs <> [] -> spelled (mapArgs a) k) /\
    (vs = [] -> forall v, mapArgs a !! k = Some v -> justified (mapArgs a) k v).
Proof.
  unfold ParseParameters. set (g := arg_loop (drop 1 argv) (mkArgs ∅ ∅)).
  destruct (walk_total (mapArgs g)) as [m Hm]. rewrite Hm. eexists. split; [done|]. intros k. set (vs := values k _). cbn [mapArgs mapMultiArgs].
  destruct (walk_spec _ _ _ _ Hm) as [[Hs Hj] Hsp]. destruct (arg_loop_spec (drop 1 argv) (mkArgs ∅ ∅) k) as [Hg Hmu].
  fold g vs in Hg, Hmu. cbn [mapArgs mapMultiArgs] in Hg, Hmu. rewrite lookup_empty in Hg. rewrite lookup_empty in Hmu. split_and!.
  - rewrite Hmu. by destruct vs.
  - intros v Hv. rewrite Hv in Hg. by eapply lookup_weaken.
  - intros Hvs. apply Hsp; [|done]. rewrite Hg. destruct (last vs) eqn:E; [by eexists|]. by apply last_None in E.
  - intros Hvs v Hv. apply Hj; [done|]. by rewrite Hg, Hvs.
Qed.

(** ** The file *)

Definition dashed (lines : list (bytes * bytes)) : list (bytes * bytes) := (fun l => (lit "-" ++ l.1, l.2)) <$> lines.
Definition negated m k v : Prop :=
  exists x, k = lit "-" ++ x /\ is_Some (m !! (lit "-no" ++ x)) /\ v = flag (negb (GetBoolArg m (lit "-no" ++ x) false)).
Lemma negated_mono m m' k v : m ⊆ m' -> negated m k v -> negated m' k v.
Proof.
  intros Hs (x & -> & Hx & ->). exists x. split_and!; [done|by eapply lookup_weaken_is_Some|]. by rewrite (GetBoolArg_mono m m').
Qed.
Lemma negative_new name m k v : is_Some (m !! name) -> InterpretNegativeSetting name m !! k = Some v -> m !! k = None ->
  negated (InterpretNegativeSetting name m) k v.
Proof.
  intros Hn Hk Hm. pose proof (negative_subseteq name m) as Hs. destruct (negative_cases name m) as [E|(x & -> & Hx & E)]; rewrite E in *; [congruence|].
  apply lookup_insert_Some in Hk as [[<- <-]|[_ Hk]]; [|congruence]. exists x. split_and!; [done|by eapply lookup_weaken_is_Some|].
  by rewrite (GetBoolArg_mono _ _ _ _ Hs).
Qed.

Lemma config_line_spec a l k :
  let strKey := lit "-" ++ l.1 in
  mapArgs a ⊆ mapArgs (config_line a l) /\ is_Some (mapArgs (config_line a l) !! strKey) /\
  (forall v, mapArgs (config_line a l) !! k = Some v -> mapArgs a !! k = None -> (k = strKey /\ v = l.2) \/ negated (mapArgs (config_line a l)) k v).
Proof.
  intros strKey. unfold config_line. fold strKey. cbn [mapArgs]. destruct (mapArgs a !! strKey) eqn:E.
  - split_and!; [done|by rewrite E|]. intros v H1 H2. congruence.
  - set (m1 := <[strKey := l.2]> (mapArgs a)). assert (H1 : is_Some (m1 !! strKey)) by (unfold m1; by rewrite lookup_insert_eq).
    split_and!.
    + etrans; [|apply negative_subseteq]. by apply insert_subseteq.
    + eapply lookup_weaken_is_Some; [exact H1|apply negative_subseteq].
    + intros v Hv Hn. destruct (m1 !! k) as [w|] eqn:Ek.
      * pose proof (lookup_weaken _ _ _ _ Ek (negative_subseteq strKey m1)) as Hw. rewrite Hw in Hv. injection Hv as ->. left.
        unfold m1 in Ek. apply lookup_insert_Some in Ek as [[<- <-]|[_ Ek]]; [done|congruence].
      * right. by apply negative_new.
Qed.

(** Settings of the command line stay; a name of the file that has none gets its first value in the file, unless an earlier
    line negates it, and every value of the file is recorded in order. *)
Theorem ReadConfigFile_spec lines a k :
  let a' := ReadConfigFile (Some lines) a in
  let vs := values k (dashed lines) in
  mapMultiArgs a' !! k = match vs with [] => mapMultiArgs a !! k | _ => Some (default [] (mapMultiArgs a !! k) ++ vs) end /\
  mapArgs a ⊆ mapArgs a' /\
  (vs <> [] -> is_Some (mapArgs a' !! k)) /\
  (forall v, mapArgs a' !! k = Some v -> mapArgs a !! k = None -> head vs = Some v \/ negated (mapArgs a') k v).
Proof.
  cbv zeta. cbn [ReadConfigFile]. revert a. induction lines as [|l lines IH]; intros a.
  - cbn. split_and!; [done..|]. intros v H1 H2. congruence.
  - cbn [foldl]. destruct (IH (config_line a l)) as (Hm & Hs & Hv & Hn). destruct (config_line_spec a l k) as (Hs1 & Hk1 & Hn1).
    change (dashed (l :: lines)) with ((lit "-" ++ l.1, l.2) :: dashed lines). rewrite values_cons. cbn [fst snd]. split_and!.
    + rewrite Hm. unfold config_line at 1. cbn [mapMultiArgs]. case_decide as E; [subst k|].
      * rewrite lookup_insert_eq. unfold config_line. cbn [mapMultiArgs]. rewrite lookup_insert_eq. destruct (values _ _); [done|]. cbn. by rewrite <-app_assoc.
      * unfold config_line. cbn [mapMultiArgs]. by rewrite !lookup_insert_ne by done.
    + by etrans.
    + case_decide as E; [subst k; intros _; by eapply lookup_weaken_is_Some|done].
    + intros v Hkv Hnone. destruct (mapArgs (config_line a l) !! k) as [w|] eqn:Ek.
      * assert (w = v) as -> by (apply (lookup_weaken _ _ _ _ Ek) in Hs; congruence).
        destruct (Hn1 v eq_refl Hnone) as [[-> ->]|Hneg]; [left; by rewrite decide_True|right; by eapply negated_mono].
      * destruct (Hn v Hkv eq_refl) as [Hh|Hneg]; [|by right]. left. rewrite decide_False; [done|]. intros <-. rewrite Ek in Hk1. by destruct Hk1.
Qed.

(** ** Examples *)

Definition parsed (argv : list bytes) (k : bytes) : option bytes := a ← ParseParameters argv; mapArgs a !! k.
Example last_value : parsed (lit <$> ["tri-tip"; "-port=1"; "--listen"; "-port=2"; "peer"; "-x"]%string) <$> (lit <$> ["-port"; "-listen"; "-x"]%string)
  = [Some (lit "2"); Some []; None].
Proof. vm_compute. reflexivity. Qed.
(** The spelling that comes first in the order of the names decides. *)
Example negation_and_dashes :
  parsed (lit <$> ["tri-tip"; "--zoo=1"; "--nozoo"]%string) (lit "-zoo") = Some (lit "0") /\
  parsed (lit <$> ["tri-tip"; "--ape=1"; "--noape"]%string) (lit "-ape") = Some (lit "1").
Proof. vm_compute. auto. Qed.
(** [-nofoo=0] as [-foo=1]: the setting that a double negation makes is interpreted only where it comes behind it. *)
Example double_negation :
  parsed (lit <$> ["tri-tip"; "-nonozoo"]%string) <$> (lit <$> ["-nozoo"; "-zoo"]%string) = [Some (lit "0"); Some (lit "1")] /\
  parsed (lit <$> ["tri-tip"; "-nonoape"]%string) <$> (lit <$> ["-noape"; "-ape"]%string) = [Some (lit "0"); None].
Proof. vm_compute. auto. Qed.
