(* ===== verification/Start.v ===== *)
(** Start-up (src/init.cpp, [AppInit2], and src/bitcoin_init.cpp, [initialise]): how the settings become the state of the network.
    Modelled are the interaction of the settings, connections and threads, fees, the sizes of the caches, proxies, listening and
    own addresses, and the loop that loads the chain; from src/util.cpp [RaiseFileDescriptorLimit], from src/net.cpp
    [GetListenPort], [AddOneShot] and [BindListenPort].

    The parts it calls are those of Args.v, Lookup.v, Socks.v and NetLocal.v.  Parameters: the answers of [bind], [listen] and
    of the limits of the system, [FD_SETSIZE], [MAX_SCRIPTCHECK_THREADS], [GetDefaultPort], the scores of net.h, whether a look-up
    by default asks the resolver (netbase.h), and the value of the macro [USE_IPV6] where it is defined.  [size_t] has 64 bits.
    Left out: the operating system around it (locks, signals, directories), the texts shown, the threads started and the
    wallet.  A false return is [Thrown], after a message.

    The theorems: what a proxy guarantees, the ranges of the numbers set up, and the end of the loop that loads the chain. *)

From S2P Require Import Prelude Monad NetAddr Util Args Lookup Socks NetLocal.
From S2P Require AddrMan UtilThms LookupThms SocksThms NetLocalThms.

(** ** The interaction of the settings *)

Definition count {V} (m : gmap bytes V) (k : bytes) : bool := bool_decide (is_Some (m !! k)).
Definition multi (a : Args) (k : bytes) : list bytes := default [] (mapMultiArgs a !! k).
Definition soft (k : bytes) (v : bool) (m : gmap bytes bytes) : gmap bytes bytes := (SoftSetBoolArg k v m).2.

Definition parameter_interactions (a : Args) : Args :=
  let m := mapArgs a in
  let m := if count m (lit "-bind") then soft (lit "-listen") true m else m in
  let m := if count m (lit "-connect") && (0 <? lenZ (multi a (lit "-connect"))) then soft (lit "-listen") false (soft (lit "-dnsseed") false m) else m in
  let m := if count m (lit "-proxy") then soft (lit "-listen") false m else m in
  let m := if negb (GetBoolArg m (lit "-listen") true) then soft (lit "-discover") false (soft (lit "-upnp") false m) else m in
  let m := if count m (lit "-externalip") then soft (lit "-discover") false m else m in
  let m := if GetBoolArg m (lit "-salvagewallet") false then soft (lit "-rescan") true m else m in
  mkArgs m (mapMultiArgs a).

(** ** Connections and threads *)

Definition MIN_CORE_FILEDESCRIPTORS : Z := 150.

(** [limits]: the soft and the hard limit, if [getrlimit] does not fail; [set_limit]: the soft limit that is found after one
    was asked for. *)
Definition RaiseFileDescriptorLimit (limits : option (Z * Z)) (set_limit : Z -> Z) (nMinFD : Z) : Z :=
  match limits with
  | Some (rlim_cur, rlim_max) =>
    if rlim_cur <? u64 nMinFD then
      let rlim_cur := if rlim_max <? u64 nMinFD then rlim_max else u64 nMinFD in
      s32 (set_limit rlim_cur)
    else s32 rlim_cur
  | None => nMinFD
  end.

Section Settings.
Context `{Money}.
Abbreviation map := (gmap bytes bytes).

(** [nMaxConnections]; [None]: not enough file descriptors. *)
Definition max_connections (FD_SETSIZE : Z) (raise : Z -> Z) (m : map) : option Z :=
  let nBind := Z.max (if count m (lit "-bind") then 1 else 0) 1 in
  let nMaxConnections := s32 (GetArg m (lit "-maxconnections") 125) in
  let nMaxConnections := Z.max (Z.min nMaxConnections (FD_SETSIZE - nBind - MIN_CORE_FILEDESCRIPTORS)) 0 in
  let nFD := raise (nMaxConnections + MIN_CORE_FILEDESCRIPTORS) in
  if nFD <? MIN_CORE_FILEDESCRIPTORS then None
  else Some (if nFD - MIN_CORE_FILEDESCRIPTORS <? nMaxConnections then nFD - MIN_CORE_FILEDESCRIPTORS else nMaxConnections).

Definition script_threads (MAX_SCRIPTCHECK_THREADS hardware_concurrency : Z) (m : map) : Z :=
  let n := s32 (GetArg m (lit "-par") 0) in
  let n := if n <=? 0 then s32 (n + hardware_concurrency) else n in
  if n <=? 1 then 0 else if MAX_SCRIPTCHECK_THREADS <? n then MAX_SCRIPTCHECK_THREADS else n.

Definition connect_timeout (m : map) (nConnectTimeout : Z) : Z :=
  if count m (lit "-timeout") then
    let nNewTimeout := s32 (GetArg m (lit "-timeout") 5000) in
    if (0 <? nNewTimeout) && (nNewTimeout <? 600000) then nNewTimeout else nConnectTimeout
  else nConnectTimeout.

(** A fee that must be positive; [None]: an invalid amount. *)
Definition fee_setting (k : bytes) (m : map) (nFee : Z) : option Z :=
  match m !! k with
  | None => Some nFee
  | Some text => match ParseMoney text with Some n => if 0 <? n then Some n else None | None => None end
  end.
(** The fee of the wallet, and whether there is a warning. *)
Definition pay_fee (m : map) (nTransactionFee : Z) : option (Z * bool) :=
  match m !! lit "-paytxfee" with
  | None => Some (nTransactionFee, false)
  | Some text => n ← ParseMoney text; Some (n, COIN / 4 <? n)
  end.

(** The sizes of the caches for the tree of the blocks, for the coins in the data base, and of coins in memory. *)
Definition cache_sizes (m : map) : Z * Z * Z :=
  let nTotalCache := u64 (GetArg m (lit "-dbcache") 25 * 2 ^ 20) in
  let nTotalCache := if nTotalCache <? 2 ^ 22 then 2 ^ 22 else nTotalCache in
  let nBlockTreeDBCache := nTotalCache / 8 in
  let nBlockTreeDBCache := if (2 ^ 21 <? nBlockTreeDBCache) && negb (GetBoolArg m (lit "-txindex") false) then 2 ^ 21 else nBlockTreeDBCache in
  let nTotalCache := nTotalCache - nBlockTreeDBCache in
  let nCoinDBCache := nTotalCache / 2 in
  let nTotalCache := nTotalCache - nCoinDBCache in
  (nBlockTreeDBCache, nCoinDBCache, nTotalCache / 300).
End Settings.

(** ** The network *)

Inductive Message :=
| UnknownSocks (n : Z) | UnknownNetwork (s : bytes) | BadProxy (s : bytes) | BadTor (s : bytes) | BadBind (s : bytes)
| BindFailed (a : CService) | NoPort | BadExternal (s : bytes).

Record Node := mkNode {
  args : Args; net : Net; local : Local; fNameLookup : bool; vhListenSocket : list Z; vOneShots : list bytes; shown : list Message }.

Definition set_net f s := mkNode (args s) (f (net s)) (local s) (fNameLookup s) (vhListenSocket s) (vOneShots s) (shown s).
Definition set_local f s := mkNode (args s) (net s) (f (local s)) (fNameLookup s) (vhListenSocket s) (vOneShots s) (shown s).
Definition set_lookup b s := mkNode (args s) (net s) (local s) b (vhListenSocket s) (vOneShots s) (shown s).
Definition add_listen h s := mkNode (args s) (net s) (local s) (fNameLookup s) (vhListenSocket s ++ [h]) (vOneShots s) (shown s).
Definition add_oneshot d s := mkNode (args s) (net s) (local s) (fNameLookup s) (vhListenSocket s) (vOneShots s ++ [d]) (shown s).
Definition add_shown e s := mkNode (args s) (net s) (local s) (fNameLookup s) (vhListenSocket s) (vOneShots s) (shown s ++ [e]).
(** [fNoListen] and [fDiscover] of net.cpp. *)
Definition set_flags (listen discover : bool) (l : Local) : Local :=
  mkLocal (mapLocalHost l) (vfReachable l) (vfLimited l) discover listen (nLocalServices l) (vNodes l).

Section Network.
Context `{Money, AddrMan.AddressTypes, Resolver, Kernel}.
Context (ipv6_value default_lookup : bool) (GetDefaultPort LOCAL_MANUAL LOCAL_BIND now : Z) (k_bind k_listen : nat -> bool).
(** Whether errors are shown: they are in src/init.cpp, and are not in src/bitcoin_init.cpp. *)
Context (shows : bool).
Abbreviation I := (X Node).

Definition on_net {A} (m : X Net A) : I A := fun s => let '(r, n) := m (net s) in (r, set_net (fun _ => n) s).
Definition show (e : Message) : I unit := if shows then X.modify (add_shown e) else X.ret tt.
Definition InitError {A} (e : Message) : I A := show e ;~ X.throw.

Definition setting (k : bytes) : I (option bytes) := X.gets (fun s => mapArgs (args s) !! k).
Definition multi_setting (k : bytes) : I (list bytes) := X.gets (fun s => multi (args s) k).
Definition bool_setting (k : bytes) (d : bool) : I bool := X.gets (fun s => GetBoolArg (mapArgs (args s)) k d).
Definition GetListenPort : I Z := X.gets (fun s => wrapu 16 (GetArg (mapArgs (args s)) (lit "-port") GetDefaultPort)).

(** [IsLimited(enum Network)]. *)
Definition limited (n : Network) : I bool := X.gets (fun s => vfLimited (local s) n).
Definition limit (n : Network) : I unit := X.modify (set_local (SetLimited n true)).

(** *** Limits *)

(** The networks of [-onlynet]. *)
Fixpoint onlynet (l : list bytes) (nets : list Network) : I (list Network) :=
  match l with
  | [] => X.ret nets
  | snet :: r =>
    let n := ParseNetwork snet in
    if bool_decide (n = NET_UNROUTABLE) then InitError (UnknownNetwork snet) else onlynet r (n :: nets)
  end.
Definition limit_networks : I unit :=
  o <~ setting (lit "-onlynet") ;;
  match o with
  | Some _ =>
    l <~ multi_setting (lit "-onlynet") ;;
    nets <~ onlynet l [] ;;
    X.each (fun n => if bool_decide (n ∈ nets) then X.ret tt else limit n) networks
  | None => if USE_IPV6 && negb ipv6_value then limit NET_IPV6 else X.ret tt
  end.

(** *** Proxies *)

(** The service of [-proxy], if it is given. *)
Definition set_proxy (nSocksVersion : Z) : I (option CService) :=
  o <~ setting (lit "-proxy") ;;
  match o with
  | None => X.ret None
  | Some text =>
    let addrProxy := CService_of_text text 9050 default_lookup in
    if negb (CNetAddr.IsValid (sv_ip addrProxy)) then InitError (BadProxy text)
    else
      l4 <~ limited NET_IPV4 ;;
      (if l4 : bool then X.ret tt else on_net (SetProxy NET_IPV4 addrProxy nSocksVersion) ;~ X.ret tt) ;~
      (if 4 <? nSocksVersion then
         (if USE_IPV6 then
            l6 <~ limited NET_IPV6 ;;
            if l6 : bool then X.ret tt else on_net (SetProxy NET_IPV6 addrProxy nSocksVersion) ;~ X.ret tt
          else X.ret tt) ;~
         on_net (SetNameProxy addrProxy nSocksVersion) ;~ X.ret tt
       else X.ret tt) ;~
      X.ret (Some addrProxy)
  end.

Definition set_tor (proxy : option CService) : I unit :=
  o <~ setting (lit "-tor") ;;
  match o, proxy with
  | None, None => X.ret tt
  | _, _ =>
    if bool_decide (o = Some (lit "0")) then X.ret tt
    else
      let addrOnion := match o with None => default (mkService CNetAddr.Init 0) proxy | Some text => CService_of_text text 9050 default_lookup end in
      if negb (CNetAddr.IsValid (sv_ip addrOnion)) then InitError (BadTor (default [] o))
      else on_net (SetProxy NET_TOR addrOnion 5) ;~ X.modify (set_local (SetReachable NET_TOR true))
  end.

(** *** Listening *)

(** Whether it listens.  A socket that is opened and fails later is not closed. *)
Definition BindListenPort (addrBind : CService) : I bool :=
  match GetSockAddr addrBind with
  | None => X.ret false
  | Some _ =>
    sock <~ on_net sys_socket ;;
    match sock with
    | None => X.ret false
    | Some h =>
      i <~ on_net next ;;
      if negb (k_fcntl i) then X.ret false
      else
        i <~ on_net next ;;
        if negb (k_bind i) then X.ret false
        else
          i <~ on_net next ;;
          if negb (k_listen i) then X.ret false
          else
            X.modify (add_listen h) ;~
            X.modify (set_local (fun l =>
              if CNetAddr.IsRoutable (sv_ip addrBind) && fDiscover l then (AddLocal LOCAL_MANUAL now addrBind LOCAL_BIND l).2 else l)) ;~
            X.ret true
    end
  end.

Definition Bind (addr : CService) (fExplicit fReport : bool) : I bool :=
  lim <~ X.gets (fun s => IsLimited (sv_ip addr) (local s)) ;;
  if negb fExplicit && lim then X.ret false
  else
    ok <~ BindListenPort addr ;;
    (if negb ok && fReport then show (BindFailed addr) else X.ret tt) ;~ X.ret ok.

Fixpoint bind_each (l : list bytes) (fBound : bool) : I bool :=
  match l with
  | [] => X.ret fBound
  | strBind :: r =>
    p <~ GetListenPort ;;
    match Lookup1 strBind p false with
    | None => InitError (BadBind strBind)
    | Some addrBind => ok <~ Bind addrBind true true ;; bind_each r (fBound || ok)
    end
  end.

(** [in6addr_any] and [INADDR_ANY]. *)
Definition any6 (p : Z) : CService := mkService CNetAddr.Init p.
Definition any4 (p : Z) : CService := mkService (CNetAddr.of_in_addr [0; 0; 0; 0]) p.

Definition start_listening : I unit :=
  n <~ X.gets (fun s => fNoListen (local s)) ;;
  if n : bool then X.ret tt
  else
    o <~ setting (lit "-bind") ;;
    fBound <~ match o with
              | Some _ => l <~ multi_setting (lit "-bind") ;; bind_each l false
              | None =>
                p <~ GetListenPort ;;
                fBound <~ (if USE_IPV6 then Bind (any6 p) false false else X.ret false) ;;
                ok <~ Bind (any4 p) false (negb fBound) ;;
                X.ret (fBound || ok)
              end ;;
    if negb fBound then InitError NoPort else X.ret tt.

(** *** Own addresses *)

Definition external_ip (strAddr : bytes) : I unit :=
  p <~ GetListenPort ;;
  n <~ X.gets fNameLookup ;;
  let addrLocal := CService_of_text strAddr p n in
  if negb (CNetAddr.IsValid (sv_ip addrLocal)) then InitError (BadExternal strAddr)
  else X.modify (set_local (fun l => (AddLocal LOCAL_MANUAL now addrLocal LOCAL_MANUAL l).2)).
Definition external_ips : I unit :=
  o <~ setting (lit "-externalip") ;;
  match o with None => X.ret tt | Some _ => l <~ multi_setting (lit "-externalip") ;; X.each external_ip l end.

Definition network_flags : I unit :=
  l <~ bool_setting (lit "-listen") true ;;
  d <~ bool_setting (lit "-discover") true ;;
  n <~ bool_setting (lit "-dns") true ;;
  X.modify (set_local (set_flags (negb l) d)) ;~ X.modify (set_lookup n).

Definition AddOneShot (strDest : bytes) : I unit := X.modify (add_oneshot strDest).

(** [AppInit2]: the initialization of the network. *)
Definition init_network : I unit :=
  v <~ X.gets (fun s => s32 (GetArg (mapArgs (args s)) (lit "-socks") 5)) ;;
  if negb (v =? 4) && negb (v =? 5) then InitError (UnknownSocks v)
  else
    limit_networks ;~
    proxy <~ set_proxy v ;;
    set_tor proxy ;~
    network_flags ;~
    start_listening ;~
    external_ips ;~
    l <~ multi_setting (lit "-seednode") ;; X.each AddOneShot l.

(** [initialise]: the same without the settings of the version and of the networks and without seed nodes. *)
Definition initialise_network : I unit :=
  proxy <~ set_proxy 5 ;;
  set_tor proxy ;~
  network_flags ;~
  start_listening ;~
  external_ips.
End Network.

(** ** Loading the chain *)

(** What an attempt to load the data bases comes to. *)
Inductive Attempt := AttemptLoaded | WrongGenesis | AttemptFailed.
Inductive LoadResult := ChainLoaded | ChainRefused.

(** [attempt]: given whether it reindexes, and the number of attempts before; [rebuild]: the answer of the user. *)
Fixpoint load_chain (fuel : nat) (attempt : nat -> bool -> Attempt) (rebuild : bool) (i : nat) (fReindex : bool) : option LoadResult :=
  match fuel with
  | O => None
  | S fuel' =>
    let fReset := fReindex in
    match attempt i fReindex with
    | AttemptLoaded => Some ChainLoaded
    | WrongGenesis => Some ChainRefused
    | AttemptFailed =>
      if negb fReset then if rebuild then load_chain fuel' attempt rebuild (S i) true else Some ChainRefused
      else Some ChainRefused
    end
  end.

(** * Theorems *)

(** ** Numbers *)

Section Settings.
Context `{Money}.
Implicit Types (m : gmap bytes bytes).

(** The connections are at most what the descriptors of the system and of [select] leave. *)
Theorem max_connections_range FD_SETSIZE raise m n : 151 <= FD_SETSIZE < 2 ^ 31 ->
  max_connections FD_SETSIZE raise m = Some n -> 0 <= n <= FD_SETSIZE - 151 /\ exists asked, n <= asked /\ n + 150 <= raise (asked + 150).
Proof.
  unfold max_connections, MIN_CORE_FILEDESCRIPTORS. intros HF.
  assert (Hb : Z.max (if count m (lit "-bind") then 1 else 0) 1 = 1) by (case_match; lia). rewrite Hb.
  set (asked := Z.max _ 0). assert (0 <= asked <= FD_SETSIZE - 151) by (unfold asked; lia).
  destruct (Z.ltb_spec (raise (asked + 150)) 150); [done|]. intros [= <-].
  destruct (Z.ltb_spec (raise (asked + 150) - 150) asked); (split; [lia|]); exists asked; lia.
Qed.

(** Either there is no concurrency, or there are at least two threads, and at most the maximum. *)
Theorem script_threads_range MAX cores m : 2 <= MAX -> let n := script_threads MAX cores m in n = 0 \/ 2 <= n <= MAX.
Proof.
  intros HM. unfold script_threads. cbv zeta. set (n := if _ <=? 0 then _ else _).
  destruct (Z.leb_spec n 1); [by left|right]. destruct (Z.ltb_spec MAX n); lia.
Qed.

(** Without a negative [-dbcache] the three caches fit into the total, which is at least 4 MiB. *)
Theorem cache_sizes_fit m : 0 <= GetArg m (lit "-dbcache") 25 < 2 ^ 43 ->
  let '(tree, coins, n) := cache_sizes m in
  let total := Z.max (GetArg m (lit "-dbcache") 25 * 2 ^ 20) (2 ^ 22) in
  0 < tree /\ 0 < coins /\ 0 < n /\ tree + coins + 300 * n <= total.
Proof.
  intros Hd. unfold cache_sizes. cbv zeta. set (d := GetArg _ _ _) in *. rewrite wrapu_small by (unfold in_u; lia).
  set (total := if d * 2 ^ 20 <? 2 ^ 22 then _ else _).
  assert (Ht : total = Z.max (d * 2 ^ 20) (2 ^ 22)) by (unfold total; destruct (Z.ltb_spec (d * 2 ^ 20) (2 ^ 22)); lia). rewrite <-Ht.
  assert (2 ^ 22 <= total) by lia. set (tree := if _ && _ then _ else _).
  assert (2 ^ 19 <= tree <= total / 8) by (unfold tree; destruct (Z.ltb_spec (2 ^ 21) (total / 8)); cbn [andb]; [case_match|]; zdm).
  split_and!; zdm.
Qed.
End Settings.

(** What is left out of a negative [-dbcache]: the size is near 2^64, not 4 MiB. *)
Example negative_dbcache `{Money} m : GetArg m (lit "-dbcache") 25 = -1 -> u64 (GetArg m (lit "-dbcache") 25 * 2 ^ 20) = 2 ^ 64 - 2 ^ 20.
Proof. by intros ->. Qed.

(** However often [-bind] is given, one descriptor is reserved. *)
Example one_bind (m : gmap bytes bytes) : Z.max (if count m (lit "-bind") then 1 else 0) 1 = 1.
Proof. by case_match. Qed.

(** A limit of the system that is infinite is taken for none. *)
Example unlimited_descriptors : RaiseFileDescriptorLimit (Some (2 ^ 64 - 1, 2 ^ 64 - 1)) id 275 = -1.
Proof. vm_compute. reflexivity. Qed.

(** ** Loading the chain *)

(** Two attempts are enough: the second reindexes, and then there is no third. *)
Theorem load_chain_ends attempt rebuild i fReindex :
  exists r, load_chain 2 attempt rebuild i fReindex = Some r /\
    (r = ChainLoaded -> attempt i fReindex = AttemptLoaded \/
       attempt i fReindex = AttemptFailed /\ fReindex = false /\ rebuild = true /\ attempt (S i) true = AttemptLoaded).
Proof.
  cbn [load_chain]. destruct (attempt i fReindex) eqn:E; [eexists; split; [done|]; by left|by eexists|].
  destruct fReindex; cbn [negb]; [by eexists|]. destruct rebuild; [|by eexists].
  destruct (attempt (S i) true) eqn:E'; eexists; (split; [done|]); [by right|done..].
Qed.

(** ** The interaction of the settings *)

Lemma soft_subseteq k v m : m ⊆ soft k v m.
Proof.
  unfold soft, SoftSetBoolArg, SoftSetArg. destruct v, (m !! k) eqn:E; cbn; try done; by apply insert_subseteq.
Qed.
Lemma soft_lookup k v m k' : soft k v m !! k' = if decide (k = k') then Some (default (flag v) (m !! k)) else m !! k'.
Proof.
  unfold soft, SoftSetBoolArg, SoftSetArg. case_decide as E; [subst k'|]; destruct v, (m !! k) eqn:E'; cbn; rewrite ?lookup_insert_eq, ?lookup_insert_ne by done; done.
Qed.
Lemma soft_if_subseteq (b : bool) k v m : m ⊆ (if b then soft k v m else m).
Proof. destruct b; [apply soft_subseteq|done]. Qed.
Lemma soft2_if_subseteq (b : bool) k v k' v' m : m ⊆ (if b then soft k v (soft k' v' m) else m).
Proof. destruct b; [|done]. etrans; apply soft_subseteq. Qed.

(** What the user sets stays. *)
Lemma interactions_keep a : mapArgs a ⊆ mapArgs (parameter_interactions a).
Proof.
  unfold parameter_interactions. cbn [mapArgs].
  repeat first [apply soft_if_subseteq | apply soft2_if_subseteq | (etrans; [|first [apply soft_if_subseteq | apply soft2_if_subseteq]])].
Qed.

(** ** The network *)

Section Network.
Context `{Money, AddrMan.AddressTypes, Resolver, Kernel}.
Context (ipv6_value default_lookup : bool) (GetDefaultPort LOCAL_MANUAL LOCAL_BIND now : Z) (k_bind k_listen : nat -> bool) (shows : bool).
Abbreviation I := (X Node).

(** What listening, own addresses and seed nodes do not change. *)
Definition same_proxies (s s' : Node) : Prop :=
  args s' = args s /\ proxyInfo (net s') = proxyInfo (net s) /\ nameproxyInfo (net s') = nameproxyInfo (net s) /\
  vfLimited (local s') = vfLimited (local s) /\ fNoListen (local s') = fNoListen (local s).
#[local] Instance same_proxies_preorder : PreOrder same_proxies.
Proof. split; [done|]. intros s1 s2 s3 (? & ? & ? & ? & ?) (? & ? & ? & ? & ?). split_and!; congruence. Qed.
(** What does not listen. *)
Definition same_sockets (s s' : Node) : Prop :=
  opened (net s') = opened (net s) /\ vhListenSocket s' = vhListenSocket s.
#[local] Instance same_sockets_preorder : PreOrder same_sockets.
Proof. split; [done|]. intros s1 s2 s3 (? & ?) (? & ?). split; congruence. Qed.
(** What the limits change. *)
Definition same_but_limits (s s' : Node) : Prop :=
  args s' = args s /\ net s' = net s /\ vhListenSocket s' = vhListenSocket s.
#[local] Instance same_but_limits_preorder : PreOrder same_but_limits.
Proof. split; [done|]. intros s1 s2 s3 (? & ? & ?) (? & ? & ?). split_and!; congruence. Qed.

Lemma AddLocal_same a sc l :
  vfLimited (AddLocal LOCAL_MANUAL now a sc l).2 = vfLimited l /\ fNoListen (AddLocal LOCAL_MANUAL now a sc l).2 = fNoListen l.
Proof.
  unfold AddLocal. cbv zeta. destruct (negb (CNetAddr.IsRoutable _)); [done|]. destruct (negb _ && _); [done|].
  destruct (IsLimited _ _); [done|]. done.
Qed.

Ltac keep_with tac := repeat first
  [ tac | apply X.keeps_bind; [exact _| |intros ?]
  | apply X.keeps_ret; exact _ | apply X.keeps_throw; exact _ | apply X.keeps_gets; exact _ | apply X.keeps_lift; exact _
  | apply X.keeps_each; [exact _|intros ?]
  | assumption | progress cbv zeta | case_match ].
Ltac keep := keep_with fail.

Lemma keeps_show (R : Node -> Node -> Prop) `{!PreOrder R} e : (forall s, R s (add_shown e s)) -> X.keeps R (show shows e).
Proof. intros He. unfold show. destruct shows; [exact He|by apply X.keeps_ret]. Qed.
Lemma keeps_InitError (R : Node -> Node -> Prop) `{!PreOrder R} {A} e : (forall s, R s (add_shown e s)) -> X.keeps R (@InitError shows A e).
Proof. intros He. unfold InitError. apply X.keeps_bind; [exact _|by apply keeps_show|intros ?; by apply X.keeps_throw]. Qed.
Lemma keeps_on_net (R : Node -> Node -> Prop) (Rn : Net -> Net -> Prop) {A} (m : X Net A) :
  X.keeps Rn m -> (forall s n, Rn (net s) n -> R s (set_net (fun _ => n) s)) -> X.keeps R (on_net m).
Proof. intros Hm HR s. unfold on_net. specialize (Hm (net s)). destruct (m (net s)) as [r n]. by apply HR. Qed.

(** System calls leave the proxies. *)
Definition net_proxies (n n' : Net) : Prop := proxyInfo n' = proxyInfo n /\ nameproxyInfo n' = nameproxyInfo n.
Lemma net_proxies_next : X.keeps net_proxies next.
Proof. intros n. by split. Qed.
Lemma net_proxies_socket : X.keeps net_proxies sys_socket.
Proof. intros n. unfold sys_socket, next, X.bind, X.gets, X.modify, X.ret. cbn. by destruct (k_socket _ _). Qed.

Lemma same_proxies_Bind a e r : X.keeps same_proxies (Bind LOCAL_MANUAL LOCAL_BIND now k_bind k_listen shows a e r).
Proof.
  assert (Hn : X.keeps same_proxies (on_net next)).
  { apply (keeps_on_net _ net_proxies); [apply net_proxies_next|]. intros s n [? ?]. by split_and!. }
  assert (Hs : X.keeps same_proxies (on_net sys_socket)).
  { apply (keeps_on_net _ net_proxies); [apply net_proxies_socket|]. intros s n [? ?]. by split_and!. }
  assert (Hl : forall h, X.keeps same_proxies (X.modify (add_listen h))) by (intros h s; by split_and!).
  assert (Ha : forall b : Local -> bool, X.keeps same_proxies (X.modify (set_local (fun l => if b l then (AddLocal LOCAL_MANUAL now a LOCAL_BIND l).2 else l)))).
  { intros b s. unfold same_proxies, X.modify. cbn. destruct (AddLocal_same a LOCAL_BIND (local s)) as [E1 E2]. destruct (b (local s)); by split_and!. }
  assert (He : X.keeps same_proxies (show shows (BindFailed a))) by (apply keeps_show; [exact _|intros s; by split_and!]).
  unfold Bind, BindListenPort. keep. apply (Ha (fun l => CNetAddr.IsRoutable (sv_ip a) && fDiscover l)).
Qed.

Lemma same_proxies_error {A} e : X.keeps same_proxies (@InitError shows A e).
Proof. apply keeps_InitError; [exact _|]. intros s. by split_and!. Qed.

Lemma same_proxies_listening :
  X.keeps same_proxies (start_listening GetDefaultPort LOCAL_MANUAL LOCAL_BIND now k_bind k_listen shows).
Proof.
  assert (Hb : forall l b, X.keeps same_proxies (bind_each GetDefaultPort LOCAL_MANUAL LOCAL_BIND now k_bind k_listen shows l b)).
  { induction l as [|t l IH]; intros b; cbn [bind_each]; unfold GetListenPort; keep_with ltac:(first [apply IH | apply same_proxies_Bind | apply same_proxies_error]). }
  unfold start_listening, setting, multi_setting, GetListenPort. keep_with ltac:(first [apply Hb | apply same_proxies_Bind | apply same_proxies_error]).
Qed.

Lemma external_keeps : X.keeps (fun s s' => same_proxies s s' /\ same_sockets s s') (external_ips GetDefaultPort LOCAL_MANUAL now shows).
Proof.
  assert (HP : PreOrder (fun s s' => same_proxies s s' /\ same_sockets s s')).
  { split; [by split|]. intros s1 s2 s3 [? ?] [? ?]. split; by etrans. }
  unfold external_ips, external_ip, setting, multi_setting, GetListenPort.
  keep_with ltac:(apply keeps_InitError; [exact _|intros s; by repeat split]).
  intros s. unfold X.modify. cbn. match goal with |- context [AddLocal _ _ ?a ?sc _] => destruct (AddLocal_same a sc (local s)) end.
  by repeat split.
Qed.

Lemma limits_keep : X.keeps same_but_limits (limit_networks ipv6_value shows).
Proof.
  assert (He : forall A e, X.keeps same_but_limits (@InitError shows A e)) by (intros A e; apply keeps_InitError; [exact _|intros s; by repeat split]).
  assert (Ho : forall l nets, X.keeps same_but_limits (onlynet shows l nets)).
  { induction l as [|t l IH]; intros nets; cbn [onlynet]; keep_with ltac:(first [apply IH | apply He]). }
  assert (Hl : forall n, X.keeps same_but_limits (limit n)) by (intros n s; unfold limit, X.modify, SetLimited; cbn; by case_match).
  unfold limit_networks, setting, multi_setting. keep_with ltac:(first [apply Ho | apply Hl]).
Qed.

(** A valid proxy of version 4 or 5 is set. *)
Definition with_proxy (n : Network) (p : CService * Z) (s : Node) : Node :=
  set_net (fun m => mkNet (calls m) (opened m) (events m) (fun k => if bool_decide (k = n) then p else proxyInfo m k) (nameproxyInfo m)) s.
Definition with_name_proxy (p : CService * Z) (s : Node) : Node :=
  set_net (fun m => mkNet (calls m) (opened m) (events m) (proxyInfo m) p) s.

Lemma SetProxy_valid n a v s : CNetAddr.IsValid (sv_ip a) = true -> v = 4 \/ v = 5 ->
  on_net (SetProxy n a v) s = (Done true, with_proxy n (a, v) s).
Proof. intros Ha [->| ->]; unfold on_net, SetProxy; by rewrite Ha. Qed.
Lemma SetNameProxy_valid a s : CNetAddr.IsValid (sv_ip a) = true -> on_net (SetNameProxy a 5) s = (Done true, with_name_proxy (a, 5) s).
Proof. intros Ha. unfold on_net, SetNameProxy. by rewrite Ha. Qed.

Lemma set_unless n a v (l : bool) s : CNetAddr.IsValid (sv_ip a) = true -> v = 4 \/ v = 5 ->
  (if l then X.ret tt else on_net (SetProxy n a v) ;~ X.ret tt) s = (Done tt, if l then s else with_proxy n (a, v) s).
Proof. intros Ha Hv. destruct l; [done|]. unfold X.bind. by rewrite SetProxy_valid. Qed.
Lemma InitError_not_done {A} e s (a : A) s' : InitError shows e s = (Done a, s') -> False.
Proof. unfold InitError, show, X.bind, X.throw. by destruct shows. Qed.

(** The networks that get the general proxy. *)
Definition proxied (v : Z) (l : Local) (n : Network) : Prop :=
  vfLimited l n = false /\ (n = NET_IPV4 \/ n = NET_IPV6 /\ v = 5 /\ USE_IPV6 = true).

Ltac proxies_set := split_and!; first [by split | lia | intros n [Hl [->|(-> & ? & ?)]]; first [congruence | lia | reflexivity]].

Lemma set_proxy_spec v s text p s' : v = 4 \/ v = 5 -> mapArgs (args s) !! lit "-proxy" = Some text ->
  set_proxy default_lookup shows v s = (Done p, s') ->
  exists a, p = Some a /\ CNetAddr.IsValid (sv_ip a) = true /\
    args s' = args s /\ local s' = local s /\ same_sockets s s' /\
    (forall n, proxied v (local s) n -> proxyInfo (net s') n = (a, v)) /\
    (v = 5 -> nameproxyInfo (net s') = (a, 5)).
Proof.
  intros Hv Ht E. unfold set_proxy in E. apply X.bind_result in E as (o & s0 & [= <- <-] & E). rewrite Ht in E. cbv zeta in E.
  set (a := CService_of_text text 9050 default_lookup) in *. destruct (CNetAddr.IsValid (sv_ip a)) eqn:Ha; cbn [negb] in E; [|by apply InitError_not_done in E].
  apply X.bind_result in E as (l4 & s1 & [= <- <-] & E). apply X.bind_result in E as (u & s2 & E2 & E).
  rewrite set_unless in E2 by done. injection E2 as _ <-.
  apply X.bind_result in E as (u' & s3 & E3 & [= <- <-]). exists a. split; [done|]. split; [done|].
  destruct (Z.ltb_spec 4 v) as [H5|H5].
  - assert (v = 5) as -> by lia. apply X.bind_result in E3 as (w1 & s4 & E4 & E3). apply X.bind_result in E3 as (b & s5 & E5 & E3'). injection E3' as _ <-.
    rewrite SetNameProxy_valid in E5 by done. injection E5 as _ <-. destruct USE_IPV6 eqn:E6.
    + apply X.bind_result in E4 as (l6 & s6 & [= <- <-] & E4). rewrite set_unless in E4 by done. injection E4 as _ <-.
      destruct (vfLimited (local s) NET_IPV4) eqn:El; cbn [local set_net with_proxy];
        destruct (vfLimited (local s) NET_IPV6) eqn:El6; proxies_set.
    + injection E4 as <- <-. destruct (vfLimited (local s) NET_IPV4) eqn:El; proxies_set.
  - injection E3 as _ <-. destruct (vfLimited (local s) NET_IPV4) eqn:El; proxies_set.
Qed.

Lemma set_tor_spec a s s' : set_tor default_lookup shows (Some a) s = (Done tt, s') ->
  args s' = args s /\ vfLimited (local s') = vfLimited (local s) /\ same_sockets s s' /\
  nameproxyInfo (net s') = nameproxyInfo (net s) /\ (forall n, n <> NET_TOR -> proxyInfo (net s') n = proxyInfo (net s) n) /\
  (mapArgs (args s) !! lit "-tor" <> Some (lit "0") ->
    exists t, CNetAddr.IsValid (sv_ip t) = true /\ proxyInfo (net s') NET_TOR = (t, 5)).
Proof.
  intros E. unfold set_tor in E. apply X.bind_result in E as (o & s0 & [= <- <-] & E).
  set (t := match mapArgs (args s) !! lit "-tor" with None => default (mkService CNetAddr.Init 0) (Some a) | Some text => CService_of_text text 9050 default_lookup end) in *.
  assert (E' : (if bool_decide (mapArgs (args s) !! lit "-tor" = Some (lit "0")) then X.ret tt
    else if negb (CNetAddr.IsValid (sv_ip t)) then InitError shows (BadTor (default [] (mapArgs (args s) !! lit "-tor")))
    else on_net (SetProxy NET_TOR t 5) ;~ X.modify (set_local (SetReachable NET_TOR true))) s = (Done tt, s')).
  { destruct (mapArgs (args s) !! lit "-tor"); exact E. }
  clear E. case_bool_decide as E0; [injection E' as <-; by split_and!|].
  destruct (CNetAddr.IsValid (sv_ip t)) eqn:Ht; cbn [negb] in E'; [|by apply InitError_not_done in E'].
  unfold X.bind in E'. rewrite SetProxy_valid in E' by (try done; by right). injection E' as <-. split_and!; try done.
  - intros n Hn. cbn. by rewrite bool_decide_false.
  - intros _. by exists t.
Qed.

Lemma flags_spec s s' : network_flags s = (Done tt, s') ->
  args s' = args s /\ net s' = net s /\ vfLimited (local s') = vfLimited (local s) /\ vhListenSocket s' = vhListenSocket s /\
  fNoListen (local s') = negb (GetBoolArg (mapArgs (args s)) (lit "-listen") true).
Proof. intros [= <-]. by split_and!. Qed.

Lemma oneshots_keep l : X.keeps (fun s s' => same_proxies s s' /\ same_sockets s s') (X.each AddOneShot l).
Proof.
  assert (HP : PreOrder (fun s s' => same_proxies s s' /\ same_sockets s s')).
  { split; [by split|]. intros s1 s2 s3 [? ?] [? ?]. split; by etrans. }
  apply X.keeps_each; [exact _|]. intros d s. by repeat split.
Qed.

(** Without [-listen] and [-bind] a proxy keeps the node from listening. *)
Lemma proxy_no_listen a : mapArgs a !! lit "-listen" = None -> mapArgs a !! lit "-bind" = None -> is_Some (mapArgs a !! lit "-proxy") ->
  GetBoolArg (mapArgs (parameter_interactions a)) (lit "-listen") true = false.
Proof.
  intros Hl Hb Hp. unfold parameter_interactions. cbn [mapArgs].
  assert (Cb : count (mapArgs a) (lit "-bind") = false) by (unfold count; rewrite Hb; done). rewrite Cb.
  set (m2 := if _ && _ then _ else mapArgs a).
  assert (L2 : m2 !! lit "-listen" = None \/ m2 !! lit "-listen" = Some (lit "0")).
  { unfold m2. case_match; [right|by left]. rewrite !soft_lookup, !decide_True, decide_False by done. by rewrite Hl. }
  assert (Hp2 : is_Some (m2 !! lit "-proxy")).
  { eapply lookup_weaken_is_Some; [exact Hp|]. unfold m2. apply soft2_if_subseteq. }
  assert (Cp : count m2 (lit "-proxy") = true) by (unfold count; by rewrite bool_decide_true). rewrite Cp.
  set (m3 := soft _ _ m2). assert (L3 : m3 !! lit "-listen" = Some (lit "0")).
  { unfold m3. rewrite soft_lookup, decide_True by done. by destruct L2 as [-> | ->]. }
  assert (F : forall m, m3 ⊆ m -> GetBoolArg m (lit "-listen") true = false).
  { intros m Hs. unfold GetBoolArg. by rewrite (lookup_weaken _ _ _ _ L3 Hs). }
  apply F. repeat first [apply soft_if_subseteq | apply soft2_if_subseteq | (etrans; [|first [apply soft_if_subseteq | apply soft2_if_subseteq]])].
Qed.

End Network.

Module Examples.
#[local] Existing Instance UtilThms.money.
#[local] Existing Instance NetLocalThms.Examples.address_types.
#[local] Existing Instance LookupThms.LookupExamples.resolver.
#[local] Existing Instance SocksThms.SocksExamples.good_kernel.

Definition local0 : Local := mkLocal [] (fun _ => false) (fun _ => false) true false 1 [].
Definition settings (argv : list String.string) : Args := default (mkArgs ∅ ∅) (ParseParameters (lit <$> argv)).
Definition node (a : Args) : Node := mkNode a new_net local0 false [] [] [].
Abbreviation start binds a := (init_network true false 8333 4 2 0 (fun _ => binds) (fun _ => true) true (node (parameter_interactions a))).

Definition by_proxy : Args := settings ["tri-tip"; "-proxy=8.8.4.4:9050"]%string.


(** With version 4 nothing stands before IPv6 and names. *)
Example version_4 :
  let s := (start true (settings ["tri-tip"; "-proxy=8.8.4.4:9050"; "-socks=4"]%string)).2 in
  (GetProxy NET_IPV4 (net s) <> None) /\ GetProxy NET_IPV6 (net s) = None /\ HaveNameProxy (net s) = false /\ vfLimited (local s) NET_IPV6 = false.
Proof. vm_compute. by split_and!. Qed.

(** A node that listens. *)
Example listening :
  let r := start true (settings ["tri-tip"]%string) in
  r.1 = Done tt /\ vhListenSocket r.2 = [7] /\ opened (net r.2) = [7].
Proof. vm_compute. by split_and!. Qed.

(** Sockets that could not be bound stay open. *)
Example socket_left_open :
  let r := start false (settings ["tri-tip"]%string) in
  r.1 = Thrown /\ vhListenSocket r.2 = [] /\ opened (net r.2) = [7] /\ shown r.2 = [BindFailed (any4 8333); NoPort].
Proof. vm_compute. by split_and!. Qed.
End Examples.
