(* ===== verification/CreateTx.v ===== *)
(** Making a payment: src/wallet.cpp, [CreateTransaction], on the coins of CoinSelect.v and the keys of
    KeyPool.v.

    A round of the loop chooses coins for the payments and the fee so far, makes the outputs with the change,
    signs, and compares the fee with what the size asks for; it starts again with a higher fee.  The loop
    has fuel; [Unfinished] is the outcome when it is used up.

    Parameters (class [Fees]): the constants of main.h, the options, [GetMinFee], the size of a transaction,
    the script that pays to a key, [SignSignature], and [AllowFree] of the priority, which is floating
    point: it is given the value and depth of each coin and the size.  [AddSupportingTransactions], which
    copies earlier transactions for the receiver, is left out. *)

From S2P Require Import Prelude Monad Rand Core Util Key.
From S2P Require KeyPool.
From S2P Require Import CoinSelect.

Class Fees := {
  nTransactionFee : Z;
  nMinTxFee : Z;
  nMinRelayTxFee : Z;
  MAX_STANDARD_TX_SIZE : Z;
  txout_size : CTxOut -> Z;
  tx_size : CTransaction -> Z;
  GetMinFee : CTransaction -> bool -> Z;
  AllowFree : list (Z * Z) -> Z -> bool;
  script_to : Z -> CScript;
  SignSignature : OutKey -> CTransaction -> Z -> option CScript;
}.

Inductive Reason := AmountsNegative | AmountTooSmall | InsufficientFunds | SigningFailed | TooLarge.

(** [nFeeRet] is not assigned when the amounts are refused. *)
Inductive Result := Created (tx : CTransaction) (nFeeRet : Z) | Failed (why : Reason) (nFeeRet : option Z) | Unfinished.

Section Create.
Context `{WalletTx, Money, KeyPool.KeyWorld, Fees} {E : Type} `{Environment E, InsecureRand E}.

Record State := mkState { env : E; keys : KeyPool.Wallet }.

Definition on_keys {A} (m : X KeyPool.Wallet A) : X State A :=
  fun s => let '(r, k) := m (keys s) in (r, mkState (env s) k).
Definition on_env {A} (f : E -> A * E) : X State A :=
  fun s => let '(a, e) := f (env s) in (Done a, mkState e (keys s)).

(** The sum of the amounts; [None]: a prefix of the sum is negative. *)
Fixpoint add_amounts (vecSend : list (CScript * Z)) (nValue : Z) : option Z :=
  match vecSend with
  | [] => Some nValue
  | s :: r => if nValue <? 0 then None else add_amounts r (s64 (nValue + s.2))
  end.

Definition payees (vecSend : list (CScript * Z)) : list CTxOut := (fun s => mkTxOut s.2 s.1) <$> vecSend.
Definition is_dust (o : CTxOut) : bool := CTxOut.IsDust txout_size o nMinRelayTxFee.

(** Sub-cent change goes to the fee as far as the smallest fee asks. *)
Definition move_to_fee (nChange nFeeRet : Z) : Z * Z :=
  if (nFeeRet <? nMinTxFee) && (0 <? nChange) && (nChange <? CENT) then
    let nMoveToFee := Z.min nChange (nMinTxFee - nFeeRet) in (s64 (nChange - nMoveToFee), s64 (nFeeRet + nMoveToFee))
  else (nChange, nFeeRet).

(** The outputs and the fee after the change was placed. *)
Definition place_change (o : KeyPool.Holder) (nChange nFeeRet : Z) (outs : list CTxOut) : X State (list CTxOut * Z) :=
  if 0 <? nChange then
    vchPubKey <~ on_keys (KeyPool.GetReservedKey o) ;;
    match vchPubKey with
    | None => X.lift None
    | Some vchPubKey =>
      let newTxOut := mkTxOut nChange (script_to (KeyPool.GetID vchPubKey)) in
      if is_dust newTxOut then on_keys (KeyPool.Reserve_ReturnKey o) ;~ X.ret (outs, s64 (nFeeRet + nChange))
      else
        position <~ on_env (draw (lenZ outs + 1)) ;;
        X.ret (take (Z.to_nat position) outs ++ newTxOut :: drop (Z.to_nat position) outs, nFeeRet)
    end
  else on_keys (KeyPool.Reserve_ReturnKey o) ;~ X.ret (outs, nFeeRet).

Definition set_script (tx : CTransaction) (nIn : Z) (s : CScript) : CTransaction :=
  mkTx (tx_nVersion tx) (alter (fun i => mkTxIn (prevout i) s (nSequence i)) (Z.to_nat nIn) (vin tx)) (vout tx) (nLockTime tx).

Fixpoint sign_all (coins : list OutKey) (tx : CTransaction) (nIn : Z) : option CTransaction :=
  match coins with
  | [] => Some tx
  | coin :: r => s ← SignSignature coin tx nIn; sign_all r (set_script tx nIn s) (nIn + 1)
  end.

Definition input_of (k : OutKey) : CTxIn := mkTxIn (mkOutPoint k.1 k.2) [] uint_max.

(** The credit and the depth in the next block of a coin. *)
Definition priority_of (w : Wallet) (k : OutKey) : Z * Z :=
  match List.find (fun e => e.1 =? k.1) (mapWallet w) with
  | Some e => (nValue (out_at e.2 k.2), GetDepthInMainChain e.2 + 1)
  | None => (0, 0)
  end.

Inductive Round := Finished (r : Result) | Again (nFeeRet : Z).

Definition create_round (w : Wallet) (o : KeyPool.Holder) (vecSend : list (CScript * Z)) (wtxNew : CTransaction) (nValue nFeeRet : Z) : X State Round :=
  let nTotalValue := s64 (nValue + nFeeRet) in
  let outs := payees vecSend in
  if existsb is_dust outs then X.ret (Finished (Failed AmountTooSmall (Some nFeeRet)))
  else
    coins <~ on_env (SelectCoins w nTotalValue) ;;
    match coins with
    | None => X.ret (Finished (Failed InsufficientFunds (Some nFeeRet)))
    | Some (setCoins, nValueIn) =>
      let '(nChange, nFee) := move_to_fee (s64 (s64 (nValueIn - nValue) - nFeeRet)) nFeeRet in
      placed <~ place_change o nChange nFee outs ;;
      let '(outs, nFee) := placed in
      let tx := mkTx (tx_nVersion wtxNew) (input_of <$> elements setCoins) outs (nLockTime wtxNew) in
      match sign_all (elements setCoins) tx 0 with
      | None => X.ret (Finished (Failed SigningFailed (Some nFee)))
      | Some tx =>
        let nBytes := tx_size tx in
        if MAX_STANDARD_TX_SIZE <=? nBytes then X.ret (Finished (Failed TooLarge (Some nFee)))
        else
          let nPayFee := s64 (nTransactionFee * (1 + Z.quot nBytes 1000)) in
          let nMinFee := GetMinFee tx (AllowFree (priority_of w <$> elements setCoins) nBytes) in
          if nFee <? Z.max nPayFee nMinFee then X.ret (Again (Z.max nPayFee nMinFee)) else X.ret (Finished (Created tx nFee))
      end
    end.

Fixpoint create_loop (fuel : nat) (w : Wallet) (o : KeyPool.Holder) (vecSend : list (CScript * Z)) (wtxNew : CTransaction) (nValue nFeeRet : Z) : X State Result :=
  match fuel with
  | O => X.ret Unfinished
  | S fuel' =>
    r <~ create_round w o vecSend wtxNew nValue nFeeRet ;;
    match r with Finished r => X.ret r | Again nFeeRet => create_loop fuel' w o vecSend wtxNew nValue nFeeRet end
  end.

Definition CreateTransaction (fuel : nat) (w : Wallet) (o : KeyPool.Holder) (vecSend : list (CScript * Z)) (wtxNew : CTransaction) : X State Result :=
  match add_amounts vecSend 0 with
  | None => X.ret (Failed AmountsNegative None)
  | Some nValue =>
    if bool_decide (vecSend = []) || (nValue <? 0) then X.ret (Failed AmountsNegative None)
    else create_loop fuel w o vecSend wtxNew nValue nTransactionFee
  end.

(** The other [CreateTransaction], for one payment. *)
Definition CreateTransaction_one (fuel : nat) (w : Wallet) (o : KeyPool.Holder) (scriptPubKey : CScript) (nValue : Z) (wtxNew : CTransaction) : X State Result :=
  CreateTransaction fuel w o [(scriptPubKey, nValue)] wtxNew.

End Create.
