(* ===== verification/CreateTxThms.v ===== *)
(** What CreateTx.v guarantees: a transaction that is made balances - its coins are worth its outputs and
    the fee - and pays everybody, with enough fee and no dust; and the loop ends. *)

From S2P Require Import Prelude Monad Rand Core Util Key.
From S2P Require KeyPool KeyPoolThms.
From S2P Require Import CoinSelect CoinSelectThms CreateTx.

Section Create.
Context `{HT : WalletTx, HM : Money, HK : KeyPool.KeyWorld, HF : Fees} {E : Type} `{HE : Environment E, HR : InsecureRand E}.

Abbreviation consistent := KeyPoolThms.consistent.
Abbreviation holder := KeyPool.holder_at.
Abbreviation St := (State (E := E)).

Lemma wp_on_keys {A} (m : X KeyPool.Wallet A) (Q : A -> St -> Prop) s :
  X.wp m (fun a k => Q a (mkState (env s) k)) (keys s) -> X.wp (on_keys m) Q s.
Proof. unfold X.wp, on_keys. by destruct (m (keys s)) as [[a| |] k]. Qed.

Lemma wp_on_env {A} (f : E -> A * E) (Q : A -> St -> Prop) s :
  Q (f (env s)).1 (mkState (f (env s)).2 (keys s)) -> X.wp (on_env f) Q s.
Proof. unfold X.wp, on_env. by destruct (f (env s)). Qed.

(** ** Amounts *)

Definition outs_value (l : list CTxOut) : Z := sum_of (nValue <$> l).

Lemma outs_value_app l k : outs_value (l ++ k) = outs_value l + outs_value k.
Proof. unfold outs_value. by rewrite fmap_app, sum_of_app. Qed.

Lemma add_amounts_sum A l v r :
  Forall (fun s => Z.abs s.2 <= A) l -> Z.abs v + lenZ l * A < 2 ^ 63 -> add_amounts l v = Some r -> r = v + sum_of l.*2.
Proof.
  intros Hl. revert v. induction Hl as [|s l Hs Hl IH]; intros v Hb; cbn [add_amounts]; [intros [= ->]; cbn; lia|].
  rewrite lenZ_cons in Hb. pose proof (lenZ_nonneg l). destruct (v <? 0); [done|]. assert (0 <= A) by lia. assert (0 <= lenZ l * A) by nia.
  rewrite s64_in by lia. intros Hr%IH; [|nia]. rewrite Hr, fmap_cons. change (sum_of (s.2 :: l.*2)) with (s.2 + sum_of l.*2). lia.
Qed.

Lemma add_amounts_negative A l v :
  Forall (fun s => Z.abs s.2 <= A) l -> 0 <= v -> Z.abs v + lenZ l * A < 2 ^ 63 ->
  match add_amounts l v with None => Exists (fun s => s.2 < 0) l | Some r => r < 0 -> Exists (fun s => s.2 < 0) l end.
Proof.
  intros Hl. revert v. induction Hl as [|s l Hs Hl IH]; intros v Hv Hb; cbn [add_amounts]; [lia|].
  rewrite lenZ_cons in Hb. pose proof (lenZ_nonneg l). destruct (Z.ltb_spec v 0); [lia|]. assert (0 <= A) by lia. assert (0 <= lenZ l * A) by nia.
  rewrite s64_in by lia. destruct (Z.lt_ge_cases s.2 0) as [Hneg|Hpos].
  - destruct (add_amounts l (v + s.2)); [intros _|]; by apply Exists_cons_hd.
  - specialize (IH (v + s.2) ltac:(lia) ltac:(nia)). destruct (add_amounts l (v + s.2)); [intros Hlt|]; apply Exists_cons_tl; auto.
Qed.

Lemma payees_value l : outs_value (payees l) = sum_of l.*2.
Proof. unfold outs_value, payees. by rewrite <-list_fmap_compose. Qed.

(** An output that is not dust is worth something. *)
Lemma dust_positive o : 0 < nMinRelayTxFee -> 0 <= txout_size o -> is_dust o = false -> 0 < nValue o.
Proof.
  intros Hm Hs. unfold is_dust, CTxOut.IsDust. rewrite Z.ltb_ge. intros Hq. destruct (Z.lt_ge_cases 0 (nValue o)) as [|Hle]; [done|].
  assert (Hneg : Z.quot (nValue o * 1000) (3 * (txout_size o + 148)) <= 0); [|lia].
  assert (Hd : 0 < 3 * (txout_size o + 148)) by lia. assert (Hn : 0 <= - (nValue o * 1000)) by lia.
  pose proof (Z.quot_pos _ _ Hn Hd) as Hp. rewrite Z.quot_opp_l in Hp by lia. revert Hp. generalize (Z.quot (nValue o * 1000) (3 * (txout_size o + 148))). lia.
Qed.

Lemma move_to_fee_spec c f :
  0 <= c -> 0 <= f -> c + f < 2 ^ 63 -> let r := move_to_fee c f in 0 <= r.1 <= c /\ r.1 + r.2 = c + f.
Proof.
  intros Hc Hf Hb. unfold move_to_fee. destruct ((f <? nMinTxFee) && (0 <? c) && (c <? CENT)) eqn:Eb; [|cbn; lia].
  rewrite !andb_true_iff, !Z.ltb_lt in Eb. cbn [fst snd]. rewrite !s64_in by lia. lia.
Qed.

(** ** Signing *)

Lemma set_script_prevouts tx n s : prevout <$> vin (set_script tx n s) = prevout <$> vin tx /\ vout (set_script tx n s) = vout tx.
Proof. split; [|done]. unfold set_script. cbn. apply list_eq. intros i. rewrite !list_lookup_fmap. 
  destruct (decide (i = Z.to_nat n)) as [->|Hne]; [rewrite list_lookup_alter_eq; by destruct (vin tx !! _)|by rewrite list_lookup_alter_ne].
Qed.

Lemma sign_all_spec coins tx n tx' : sign_all coins tx n = Some tx' -> prevout <$> vin tx' = prevout <$> vin tx /\ vout tx' = vout tx.
Proof.
  revert tx n. induction coins as [|k coins IH]; intros tx n; cbn [sign_all]; [by intros [= ->]|].
  destruct (SignSignature k tx n) as [s|]; [|done]. cbn [mbind option_bind]. intros [-> ->]%IH. apply set_script_prevouts.
Qed.

(** ** A round *)

(** Nothing overflows: amounts of at most [A], fees of at most [B], and what the wallet has. *)
Record in_range (w : Wallet) (vecSend : list (CScript * Z)) (A B : Z) : Prop := {
  r_keys : NoDup (mapWallet w).*1;
  r_amounts : Forall (fun s => Z.abs s.2 <= A) vecSend;
  r_fee : 0 <= nTransactionFee;
  r_relay : 0 < nMinRelayTxFee;
  r_out_size o : 0 <= txout_size o;
  r_tx_size tx : 0 <= tx_size tx;
  r_min_fee tx b : GetMinFee tx b <= B;
  r_pay_fee : nTransactionFee * (1 + Z.quot MAX_STANDARD_TX_SIZE 1000) <= B;
  r_standard : 0 <= MAX_STANDARD_TX_SIZE;
  r_bound : lenZ vecSend * A + B + CENT + worth (coin_of <$> AvailableCoins w true) < 2 ^ 63 - 1 }.

(** The transaction that is made. *)
Record created (w : Wallet) (o : KeyPool.Holder) (vecSend : list (CScript * Z)) (keys_after : KeyPool.Wallet) (tx : CTransaction) (fee : Z) : Prop := {
  cr_inputs : exists coins, prevout <$> vin tx = (fun k => mkOutPoint k.1 k.2) <$> elements coins /\
    inputs_value w coins = outs_value (vout tx) + fee /\ forall k, k ∈ coins -> exists pcoin, spendable w pcoin k;
  cr_outs : exists i change, vout tx = take i (payees vecSend) ++ change ++ drop i (payees vecSend) /\
    ((change = [] /\ KeyPool.rk_nIndex (holder keys_after o) = -1) \/
     exists v, change = [mkTxOut v (script_to (KeyPool.GetID (KeyPool.rk_vchPubKey (holder keys_after o))))] /\ 0 < v /\ KeyPool.rk_nIndex (holder keys_after o) <> -1);
  cr_dust : Forall (fun out => is_dust out = false) (vout tx);
  cr_size : tx_size tx < MAX_STANDARD_TX_SIZE;
  cr_fee : nTransactionFee * (1 + Z.quot (tx_size tx) 1000) <= fee /\ exists fAllowFree, GetMinFee tx fAllowFree <= fee }.

Section Round.
Context (disk_ok : forall n, KeyPool.disk n = true) (enough : 1 <= KeyPool.keypool_arg < 2 ^ 32 - 1).

(** The change: none; too little to be an output, it goes to the fee; or an output to a reserved key. *)
Definition placed (o : KeyPool.Holder) (c f : Z) (outs : list CTxOut) (r : list CTxOut * Z) (k : KeyPool.Wallet) : Prop :=
  (KeyPool.rk_nIndex (holder k o) = -1 /\ r = (outs, f + c)) \/
  (0 < c /\ KeyPool.rk_nIndex (holder k o) <> -1 /\
   let change := mkTxOut c (script_to (KeyPool.GetID (KeyPool.rk_vchPubKey (holder k o)))) in
   is_dust change = false /\ exists i, r = (take i outs ++ change :: drop i outs, f)).

Lemma place_change_spec o c f outs s used :
  consistent (keys s) used -> 0 <= c -> 0 <= f -> c + f < 2 ^ 63 ->
  X.wp (place_change o c f outs) (fun r s' => consistent (keys s') used /\ placed o c f outs r (keys s')) s.
Proof.
  intros Hc Hc0 Hf0 Hb. unfold place_change. destruct (Z.ltb_spec 0 c) as [Hpos|Hz].
  - apply X.wpx_bind, wp_on_keys. eapply X.wpx_mono; [by apply KeyPoolThms.GetReservedKey_spec|].
    intros r k (Hk & -> & n & Hn & Hn'). set (out := mkTxOut c _). destruct (is_dust out) eqn:Ed.
    + apply X.wpx_bind, wp_on_keys. eapply X.wpx_mono; [by apply KeyPoolThms.Reserve_ReturnKey_spec|]. intros u k' [Hk' Hi].
      apply X.wpx_ret. split; [done|]. left. split; [done|]. by rewrite s64_in by lia.
    + apply X.wpx_bind, wp_on_env, X.wpx_ret. cbn [keys]. split; [done|]. right. split; [done|]. split; [congruence|]. cbv zeta. eauto.
  - apply X.wpx_bind, wp_on_keys. eapply X.wpx_mono; [by apply KeyPoolThms.Reserve_ReturnKey_spec|]. intros u k' [Hk' Hi].
    apply X.wpx_ret. split; [done|]. left. split; [done|]. f_equal. lia.
Qed.

Context (w : Wallet) (o : KeyPool.Holder) (vecSend : list (CScript * Z)) (wtxNew : CTransaction) (A B : Z).
Context (Hr : in_range w vecSend A B).

(** The end of the loop with a result. *)
Definition result_ok (r : Result) (k : KeyPool.Wallet) : Prop :=
  match r with
  | Created tx fee => created w o vecSend k tx fee
  | Failed AmountsNegative _ => vecSend = [] \/ Exists (fun s => s.2 < 0) vecSend
  | Failed AmountTooSmall _ => Exists (fun s => is_dust (mkTxOut s.2 s.1) = true) vecSend
  | Failed InsufficientFunds (Some f) => nTransactionFee <= f <= B /\ worth (eligible 0 1 (AvailableCoins w true)) < sum_of vecSend.*2 + f
  | Failed InsufficientFunds None => False
  | Failed _ _ => True
  | Unfinished => False
  end.

Lemma payees_dust : existsb is_dust (payees vecSend) = false ->
  Forall (fun out => is_dust out = false) (payees vecSend) /\ Forall (fun v => 0 < v) vecSend.*2.
Proof.
  intros Hd. assert (Hall : Forall (fun out => is_dust out = false) (payees vecSend)).
  { apply Forall_forall. intros out Hout. destruct (is_dust out) eqn:E1; [|done]. assert (existsb is_dust (payees vecSend) = true); [|congruence].
    apply existsb_exists. exists out. split; [by apply list_elem_of_In|done]. }
  split; [done|]. apply Forall_fmap, Forall_forall. intros s Hs. rewrite Forall_forall in Hall.
  apply (dust_positive (mkTxOut s.2 s.1)); [apply (r_relay _ _ _ _ Hr)|apply (r_out_size _ _ _ _ Hr)|]. apply Hall, list_elem_of_fmap. by exists s.
Qed.

Lemma sum_of_abs l X : Forall (fun s : CScript * Z => Z.abs s.2 <= X) l -> Z.abs (sum_of l.*2) <= lenZ l * X.
Proof.
  induction 1 as [|s l Hs Hl IH]; [unfold lenZ; cbn; lia|]. rewrite lenZ_cons, fmap_cons. change (sum_of (s.2 :: l.*2)) with (s.2 + sum_of l.*2). rewrite Z.mul_add_distr_r. lia.
Qed.

(** What is made of the coins of a choice and the outputs that were placed. *)
Lemma round_created set v c f r k tx fee0 :
  selected w (sum_of vecSend.*2 + fee0) 0 1 set v \/ selected w (sum_of vecSend.*2 + fee0) 1 1 set v \/ selected w (sum_of vecSend.*2 + fee0) 1 6 set v ->
  c + f = v - sum_of vecSend.*2 -> placed o c f (payees vecSend) r k ->
  Forall (fun out => is_dust out = false) (payees vecSend) ->
  prevout <$> vin tx = (fun k => mkOutPoint k.1 k.2) <$> elements set -> vout tx = r.1 ->
  tx_size tx < MAX_STANDARD_TX_SIZE -> nTransactionFee * (1 + Z.quot (tx_size tx) 1000) <= r.2 -> (exists b, GetMinFee tx b <= r.2) ->
  created w o vecSend k tx r.2.
Proof.
  intros Hsel Hcf Hp Hdust Hin Hout Hsize Hpay Hmin.
  assert (Hset : v = inputs_value w set /\ forall k, k ∈ set -> exists pcoin, spendable w pcoin k).
  { destruct Hsel as [S|[S|S]]; (split; [apply S|]); intros k0 Hk0; destruct (s_coins _ _ _ _ _ _ S k0 Hk0) as (p & Hs & _); eauto. }
  destruct Hset as [Hv Hset]. destruct Hp as [[Hi ->]|(Hc0 & Hi & Hd & i & ->)]; cbn [fst snd] in *.
  - constructor; [|exists 0%nat, []|by rewrite Hout|done|done].
    + exists set. split; [done|]. split; [|done]. rewrite Hout, payees_value. lia.
    + split; [by rewrite Hout, drop_0|by left].
  - constructor; [| | |done|done].
    + exists set. split; [done|]. split; [|done]. rewrite Hout, outs_value_app.
      pose proof (payees_value vecSend) as Hpv. rewrite <-(take_drop i (payees vecSend)), outs_value_app in Hpv.
      change (outs_value (?x :: ?l)) with (nValue x + outs_value l).
      cbn [nValue]. lia.
    + exists i. eexists [_]. split; [rewrite Hout; done|]. right. exists c. done.
    + rewrite Hout, Forall_app, Forall_cons. split; [by apply Forall_take|]. split; [done|by apply Forall_drop].
Qed.

(** The fee for the size. *)
Lemma pay_fee n : 0 <= n < MAX_STANDARD_TX_SIZE ->
  0 <= nTransactionFee * (1 + Z.quot n 1000) <= B.
Proof.
  intros Hn. pose proof (r_fee _ _ _ _ Hr) as Hf. pose proof (r_pay_fee _ _ _ _ Hr) as Hp.
  assert (Hq : 0 <= Z.quot n 1000 <= Z.quot MAX_STANDARD_TX_SIZE 1000) by (split; [apply Z.quot_pos; lia|apply Z.quot_le_mono; lia]).
  revert Hq Hp. generalize (Z.quot n 1000) (Z.quot MAX_STANDARD_TX_SIZE 1000). intros x y Hq Hp. nia.
Qed.

Lemma round_spec fee0 s used (V := sum_of vecSend.*2) :
  vecSend <> [] -> nTransactionFee <= fee0 <= B -> consistent (keys s) used ->
  X.wp (create_round w o vecSend wtxNew V fee0)
    (fun r s' => consistent (keys s') used /\ match r with Again f => fee0 < f <= B | Finished r => result_ok r (keys s') end) s.
Proof.
  intros Hne Hfee Hc. pose proof (r_bound _ _ _ _ Hr) as Hb. pose proof (sum_of_abs vecSend A (r_amounts _ _ _ _ Hr)) as HV. fold V in HV.
  pose proof (r_fee _ _ _ _ Hr) as Hf0. pose proof CENT_positive as HC.
  unfold create_round. destruct (existsb is_dust (payees vecSend)) eqn:Ed.
  { apply X.wpx_ret. split; [done|]. cbn. apply existsb_exists in Ed as (out & Hout & Hd). apply list_elem_of_In, list_elem_of_fmap in Hout as (p & -> & Hp).
    apply Exists_exists. by exists p. }
  destruct (payees_dust Ed) as [Hdust Hpos].
  assert (HV0 : 0 < V).
  { destruct vecSend as [|p l]; [done|]. rewrite fmap_cons in Hpos. apply Forall_cons in Hpos as [Hp Hl]. pose proof (sum_of_nonneg _ Hl).
    unfold V. rewrite fmap_cons. change (sum_of (p.2 :: l.*2)) with (p.2 + sum_of l.*2). lia. }
  assert (HW : 0 <= worth (coin_of <$> AvailableCoins w true)).
  { apply sum_of_nonneg, Forall_fmap, Forall_forall. intros c (out & -> & Hout)%list_elem_of_fmap. apply available_elem in Hout as [Hs _]. apply (sp_value _ _ _ Hs). }
  rewrite (s64_in (V + fee0)) by lia. apply X.wpx_bind, wp_on_env.
  assert (Ht : 0 < V + fee0) by lia. assert (Hmax : V + fee0 + CENT + worth (coin_of <$> AvailableCoins w true) < 2 ^ 63 - 1) by lia.
  pose proof (SelectCoins_levels w (V + fee0) (env s) (r_keys _ _ _ _ Hr) Ht Hmax) as Hsel.
  destruct (SelectCoins w (V + fee0) (env s)) as [[[set v]|] e1]; cbn [fst snd] in *.
  2:{ apply X.wpx_ret. split; [done|]. split; [lia|done]. }
  assert (Hsel' : selected w (V + fee0) 0 1 set v \/ selected w (V + fee0) 1 1 set v \/ selected w (V + fee0) 1 6 set v) by tauto. clear Hsel.
  assert (Hv : V + fee0 <= v <= worth (coin_of <$> AvailableCoins w true)) by (destruct Hsel' as [[]|[[]|[]]]; done).
  rewrite (s64_in (v - V)), s64_in by lia. pose proof (move_to_fee_spec (v - V - fee0) fee0 ltac:(lia) ltac:(lia) ltac:(lia)) as Hm. cbv zeta in Hm.
  destruct (move_to_fee (v - V - fee0) fee0) as [c f]. cbn [fst snd] in Hm. apply X.wpx_bind.
  eapply X.wpx_mono; [apply (place_change_spec o c f (payees vecSend) (mkState e1 (keys s)) used); [done|lia|lia|lia]|].
  cbv beta. intros [outs f'] s' [Hc' Hp]. set (tx0 := mkTx _ _ _ _).
  assert (Hf' : fee0 <= f') by (destruct Hp as [[_ [= -> ->]]|(_ & _ & _ & i & [= -> ->])]; lia).
  destruct (sign_all (elements set) tx0 0) as [tx|] eqn:Es; [|by apply X.wpx_ret]. destruct (sign_all_spec _ _ _ _ Es) as [Hin Hout].
  destruct (Z.leb_spec MAX_STANDARD_TX_SIZE (tx_size tx)) as [|Hsize]; [by apply X.wpx_ret|].
  pose proof (pay_fee (tx_size tx) (conj (r_tx_size _ _ _ _ Hr tx) Hsize)) as Hpay. rewrite s64_in by lia.
  set (b := AllowFree _ _). pose proof (r_min_fee _ _ _ _ Hr tx b) as Hmin.
  match goal with |- context [f' <? ?m] => destruct (Z.ltb_spec f' m) as [Hlt|Hge] end; apply X.wpx_ret; (split; [done|]); [lia|].
  apply (round_created set v c f (outs, f') (keys s') tx fee0); try done; [lia| |cbn [snd]; lia|exists b; cbn [snd]; lia].
  rewrite Hin. unfold tx0. cbn [vin]. rewrite <-list_fmap_compose. done.
Qed.

(** The fee grows with every round. *)
Lemma loop_spec fuel fee0 s used :
  vecSend <> [] -> nTransactionFee <= fee0 <= B -> (Z.to_nat (B - fee0) < fuel)%nat -> consistent (keys s) used ->
  X.wp (create_loop fuel w o vecSend wtxNew (sum_of vecSend.*2) fee0) (fun r s' => consistent (keys s') used /\ result_ok r (keys s')) s.
Proof.
  intros Hne. revert fee0 s. induction fuel as [|fuel IH]; intros fee0 s Hfee Hf Hc; [lia|]. cbn [create_loop]. apply X.wpx_bind.
  eapply X.wpx_mono; [by apply round_spec|]. cbv beta. intros [r|f] s' [Hc' Hres]; [by apply X.wpx_ret|]. apply IH; [lia|lia|done].
Qed.

Lemma Create_spec fuel s used :
  (Z.to_nat (B - nTransactionFee) < fuel)%nat -> consistent (keys s) used ->
  X.wp (CreateTransaction fuel w o vecSend wtxNew) (fun r s' => consistent (keys s') used /\ result_ok r (keys s')) s.
Proof.
  intros Hfuel Hc. unfold CreateTransaction. pose proof (r_bound _ _ _ _ Hr) as Hb. pose proof CENT_positive as HC.
  assert (HB : nTransactionFee <= B).
  { pose proof (r_pay_fee _ _ _ _ Hr) as Hp. pose proof (r_fee _ _ _ _ Hr) as Hf. pose proof (Z.quot_pos MAX_STANDARD_TX_SIZE 1000 (r_standard _ _ _ _ Hr) ltac:(lia)). nia. }
  assert (HW : 0 <= worth (coin_of <$> AvailableCoins w true)).
  { apply sum_of_nonneg, Forall_fmap, Forall_forall. intros c (out & -> & Hout)%list_elem_of_fmap. apply available_elem in Hout as [Hs _]. apply (sp_value _ _ _ Hs). }
  assert (Hsum : Z.abs 0 + lenZ vecSend * A < 2 ^ 63) by (pose proof (r_fee _ _ _ _ Hr); lia).
  pose proof (add_amounts_negative A vecSend 0 (r_amounts _ _ _ _ Hr) ltac:(lia) Hsum) as Hneg.
  destruct (add_amounts vecSend 0) as [nValue|] eqn:Ea; [|apply X.wpx_ret; split; [done|by right]].
  rewrite (add_amounts_sum A vecSend 0 nValue (r_amounts _ _ _ _ Hr) Hsum Ea), Z.add_0_l in *.
  destruct (bool_decide_reflect (vecSend = [])) as [Hnil|Hne]; cbn [orb]; [apply X.wpx_ret; split; [done|by left]|].
  destruct (Z.ltb_spec (sum_of vecSend.*2) 0) as [Hlt|_]; [apply X.wpx_ret; split; [done|right; auto]|].
  by apply loop_spec.
Qed.

End Round.

(** C3 [CreateTransaction] ends within the number of rounds the highest fee allows; no assertion fails,
    nothing overflows, and the key pool stays consistent.  A transaction it makes balances: the coins it spends
    are different coins the wallet may spend, and are worth exactly its outputs and the fee; it pays
    everybody the amount asked for, and the change, if it is worth an output, to a reserved key (without change
    no key stays reserved); no output is dust, and the size and the fee are those the rules ask for.  It fails
    with the reason given: an amount that is negative or dust, or too few coins for the amounts and a fee. *)
Theorem CreateTransaction_balances w o vecSend wtxNew A B fuel s used :
  (forall n, KeyPool.disk n = true) -> 1 <= KeyPool.keypool_arg < 2 ^ 32 - 1 ->
  in_range w vecSend A B -> (Z.to_nat (B - nTransactionFee) < fuel)%nat -> consistent (keys s) used ->
  exists r s', CreateTransaction fuel w o vecSend wtxNew s = (Done r, s') /\ consistent (keys s') used /\
    match r with
    | Created tx fee => created w o vecSend (keys s') tx fee
    | Failed AmountsNegative _ => vecSend = [] \/ Exists (fun s => s.2 < 0) vecSend
    | Failed AmountTooSmall _ => Exists (fun s => is_dust (mkTxOut s.2 s.1) = true) vecSend
    | Failed InsufficientFunds (Some f) => nTransactionFee <= f <= B /\ worth (eligible 0 1 (AvailableCoins w true)) < sum_of vecSend.*2 + f
    | Failed InsufficientFunds None => False
    | Failed _ _ => True
    | Unfinished => False
    end.
Proof.
  intros Hdisk Henough Hr Hfuel Hc.
  destruct (X.wpx_elim _ _ _ (Create_spec Hdisk Henough w o vecSend wtxNew A B Hr fuel s used Hfuel Hc)) as (r & s' & Hrun & Hc' & Hok).
  exists r, s'. done.
Qed.

End Create.

(** A payment of 4.5 cents from the wallet of CoinSelectThms.v, with a fee of 10 units. *)
Module Examples.
Import CoinSelectThms.Examples.

#[local] Instance key_world : KeyPool.KeyWorld := KeyPoolThms.Examples.world 2.

#[local] Instance fees : Fees := {|
  nTransactionFee := 0; nMinTxFee := 10; nMinRelayTxFee := 1; MAX_STANDARD_TX_SIZE := 1000; txout_size _ := 30;
  tx_size tx := 10 * Z.of_nat (length (vin tx) + length (vout tx)); GetMinFee _ _ := 10; AllowFree _ _ := false;
  script_to n := [n]; SignSignature k _ _ := Some [k.1] |}.

Definition start : State := mkState tape KeyPoolThms.fresh_wallet.

Lemma payment_in_range : in_range wallet [([7], 4500000)] 4500000 10.
Proof.
  constructor.
  - apply (bool_decide_unpack _). by vm_compute.
  - by repeat constructor.
  - done.
  - done.
  - done.
  - intros tx. cbn. lia.
  - done.
  - done.
  - done.
  - by vm_compute.
Qed.

Definition payment : CTransaction :=
  mkTx 1 [mkTxIn (mkOutPoint 2 0) [2] uint_max; mkTxIn (mkOutPoint 1 0) [1] uint_max] [mkTxOut 3499990 [0]; mkTxOut 4500000 [7]] 0.

Lemma CreateTransaction_balances_witness :
  (CreateTransaction 11 wallet 1 [([7], 4500000)] CTransaction.SetNull start).1 = Done (Created payment 10) /\
  exists k, created wallet 1 [([7], 4500000)] k payment 10.
Proof.
  assert (Hrun : (CreateTransaction 11 wallet 1 [([7], 4500000)] CTransaction.SetNull start).1 = Done (Created payment 10)) by (by vm_compute).
  split; [exact Hrun|]. assert (Hfuel : (Z.to_nat (10 - nTransactionFee) < 11)%nat) by (vm_compute; lia).
  assert (Hdisk : forall n, KeyPool.disk n = true) by done. assert (Henough : 1 <= KeyPool.keypool_arg < 2 ^ 32 - 1) by (split; by vm_compute).
  assert (Hc : KeyPoolThms.consistent (keys start) []) by exact KeyPoolThms.Examples.fresh_2.
  pose proof (CreateTransaction_balances wallet 1 [([7], 4500000)] CTransaction.SetNull 4500000 10 11 start [] Hdisk Henough payment_in_range Hfuel Hc) as Hb.
  destruct Hb as (r & s' & E & _ & Hr). rewrite E in Hrun. injection Hrun as ->. exists (keys s'). exact Hr.
Defined.

End Examples.
